(* ===== verification/_CoqProject ===== *)
-Q . S2P
Prelude.v
Types.v
Proto.v
StateStore.v
EventBus.v
Reconcile.v
Disk.v
EventStore.v
SnapshotStore.v
MetaStore.v
StorageManager.v
Core.v
Persist.v
Mux.v
MuxWire.v
MuxFlow.v
Bridge.v
WsConn.v
Pipe.v
Auth.v
Path.v
File.v
Tag.v
Latency.v
ProxyPlugin.v
Message.v
RelayPlugin.v
Pairing.v
RelayPairing.v
Session.v
Registration.v
Credentials.v
Http.v
HttpFacts.v
Log.v
Dataplane.v
Supervisor.v
Wire.v
Update.v
ClientRelay.v
Client.v
ClientFacts.v
ClientStart.v
Enrolment.v
FileApi.v
ClientConn.v
Cli.v
Config.v
Subscribers.v
Topology.v
PluginServer.v
Vpn.v
Tunnels.v
Punch.v
Collector.v
Joining.v
PersistLoop.v
Sdk.v
