(* ===== verification/Prelude.v ===== *)
(** * BBgrid: a verification development

    BBgrid is a relay for TCP services behind NAT: clients keep a connection
    to a server, the server listens on public ports for them ("proxies") and
    joins clients with each other ("relays").  This library models the parts
    of the program that hold state and decide things, as executable
    definitions and step relations translated from the Go source under src/,
    and proves what makes them correct, or shows by theorem where they are
    not.

    ** The program and the files of the library

    The server is event-driven.  Whoever wants a change publishes an event on
    the event bus; the bus numbers it and a worker per resource type hands it
    to the handlers the core has subscribed.  They apply it to the state store
    (the query side) and have the storage manager write it to disk.  The
    reconcile engine compares the desired with the actual state and publishes
    events for the differences.  On start the persistence plugin publishes
    what the files hold.  Clients register over the HTTP API, hold a session
    over a WebSocket, and answer a request for a tunnel with a connection of
    their own, whose data goes through the multiplexer and not the bus.

    Foundations.
    - [Prelude]: machine integers, float64 values, strings, decimal numbers,
      bytes, big-endian encoding, results; this header.
    - [Types]: BBgrid_Server/runtime/types.go, and Go's [any] as the type
      [any], with the conversions of type assertions.
    - [Proto]: common/proto/event.go (resource keys, events, identifiers) and
      common/proto/tunnel.go (the frame that authenticates a tunnel).
    - [Path]: path/filepath.  [Disk]: what common/store uses of os and
      encoding/json: directories, the class [JsonCodec], atomic replacement.
    - [Log]: common/log/log.go.

    The core of the server.
    - [StateStore], [EventBus], [Reconcile], [Core]: BBgrid_Server/runtime/
      {statestore,eventbus,reconcile,capability,provider,core}.go.  The store
      is a record of maps with one function for each method; [bus_step] has
      the critical sections and channel operations of the bus as its steps;
      the engine reaches the rest through the class [ReconcileEnv], whose
      instance is [core_env].
    - [EventStore], [SnapshotStore], [MetaStore], [StorageManager]:
      common/store/{event,snapshot,meta,manager}.go.
    - [Persist]: plugins/persist/persist.go, and a life of the server across a
      restart.  [PersistLoop]: its loop, with the tags it saves.  [File], [Tag], [Latency], [ProxyPlugin], [RelayPlugin]: the
      other plugins.
    - [Config]: loadConfig and initPlugins of BBgrid_Server/main.go, and
      common/config for the client.

    Connections.
    - [Mux]: common/mux/mux.go, its operations, writing goroutine and frames.
      [MuxWire]: the operations interleaved, and what reaches the peer.
      [MuxFlow]: credit, and the workers that receive.  [Bridge]: the local
      connections of a relay on its channels ([HandleChannel] and
      bridgeChannel of BBgrid_Client/handler/relay.go).
    - [WsConn]: common/wsconn/wsconn.go.  [ClientConn]:
      BBgrid_Client/conn/conn.go.  [Pipe]: the copying between connections:
      common/util/net.go, pipeTCP and relayWSPipe.
    - [Dataplane]: BBgrid_Server/dataplane/server.go.  [Supervisor]:
      BBgrid_Server/{supervisor,bus}.go.
    - [Message]: common/model/message.go.  [Session], [Registration]: the
      sessions of BBgrid_Server/session/server.go; [Pairing], [RelayPairing]:
      how its tunnels and relay ends find each other.
    - [Punch]: common/relay/holepunch.go.

    Identity and the control API.
    - [Auth]: BBgrid_Server/auth/auth.go, vouchers and the registry.
      [Credentials]: its certificates and tokens.
    - [Http]: BBgrid_Server/http/server.go, every request with its handler.
      [HttpFacts]: what it guarantees.
    - [Cli]: BBgrid_Cmd/bbgrid-cli/main.go, its requests run against [Http].

    The client.
    - [Wire], [Client], [ClientFacts]: BBgrid_Client/handler/{handler,temp}.go.
      [Update]: remote updates.  [ClientRelay]: handler/relay.go.
    - [ClientStart], [Enrolment]: BBgrid_Client/client.go and register/, run
      against [Http] and [Auth] in interleavings with crashes and restarts.
    - [Joining]: its registration and that of temp_client.go, against
      [Session].  [Tunnels]: the UDP and WebSocket tunnels of handler.go,
      against [Dataplane] and [Pairing].
    - [FileApi]: BBgrid_Client/api.go, run against [Http], [Core] and [File].
      [Collector]: BBgrid_Client/log_collector.go.

    Runtimes and external plugins.
    - [Subscribers]: what the two gRPC servers share.  [Topology]:
      common/runtime/server.go.  [PluginServer]: common/plugin/grpc_server.go
      with the actions of common/sdk/plugin.go.  [Sdk]: what a plugin declares
      and its events.  [Vpn]: BBgrid_Runtime.

    ** What the theorems show

    - Store: every run keeps rows filed under their identity and the port
      index sound; the desired state is the projection of the actual one;
      what each event changes; a deleted client loses tokens and ports; a
      snapshot restores.  A port shared by two clients loses its index.
    - Bus: a queue is first-in first-out, bounded, and handled in order, in
      every interleaving; [Close] drains and ends; publishers that take turns
      are seen in order, and two at once need not be.
    - Reconciler: exact counts; one pass with its events delivered makes the
      actual proxies the desired ones; on stores reached without [Restore] it
      is idle; back-off and history are bounded as meant, with the overflow
      of the back-off and the token lost by a relay made again.
    - Files and restart: appends are durable and numbered; the resource files
      are a crash-safe image of memory; snapshots survive with retention; the
      proxies, relays and desired state of a history survive a restart; tags
      an event announces are saved, others can be lost.
    - Plugins: files stay below the data directory whatever the path, and the
      text test for that is exact; [file.pull] makes no test.  Tags refine a
      flat map; latencies expire; the listeners follow the proxies.
    - Multiplexer and streams: frames are read back as written; in every
      interleaving the peer reads whole frames and, for each port, accepted
      messages in order; credit is conserved; a WebSocket reads like the
      stream of its bytes.  Closing a channel loses what is queued; one
      unread channel stalls all; workers reorder.  A relay neither loses nor
      doubles what its local connections exchange with their channels, but
      they share one channel, and what is sent last can be thrown away.
    - Copying and tunnels: what a tunnel delivers is a beginning of what was
      sent, in order, and without faults all of it with its end; the packets
      of a UDP tunnel are read back; the length of its token wraps; a
      WebSocket tunnel never opens.
    - Hole punching: who is connected has the token of the other side; one
      side can be connected alone.
    - Sessions and tunnels: a session belongs to the client its certificate
      names; a public connection is paired with the tunnel that presented its
      token, at most once; both ends of the handshake agree; a relay joins
      its two ends; the queue of a client connection keeps its order and
      both its goroutines end.
    - Credentials: a protected request without credentials changes nothing;
      a voucher is never used more often than it allows, across failures and
      restarts; any requests keep the registry consistent; the authority and
      the tokens survive a restart; a client that keeps its files ends with a
      certificate of its key, and one that lost its key needs help.
    - Client: registering succeeds exactly when the server has done it, and
      a temporary client never gets further; every log entry is in one batch;
      tunnels, relays and updates follow the messages of the server;
      an uploaded file arrives whole and below the directory of its client,
      and a lost one is reported as stored; nothing can be pulled.
    - Tool: commands reach their handlers; parameters survive the query text;
      a bad token costs one request; what [run file.pull] really saves.
    - Log and configuration: what is hidden in a line, which lines reach the
      file; where each setting comes from, and which plugins run.
    - Runtimes and plugins: replicas converge to the topologies of the server
      while nothing is lost; an action returns the answer of its handler, or
      after a time-out that of another; the server knows the actions a plugin
      declares, events start its handlers, and the events it publishes are
      dropped; the machine follows the manager.
      A second subscription of one id ends the server.

    ** Conventions, bounds and assumptions

    Integers are [Z] with their wrap-around written out ([int64_wrap],
    [int32_wrap]); a string is a [string], a byte slice a list of bytes.  A
    method under a lock is one function from state to state; code that
    releases its lock half-way is several steps of a relation, and theorems
    about goroutines are about every interleaving of such steps.  The clock,
    the random source, the order in which a map is ranged over, the results of
    system calls and the live connections are arguments.

    Libraries are parameters with named laws.  encoding/json is the class
    [JsonCodec]: what was written decodes to the value, seen through
    [json_view], which is where a theorem may need that strings are valid
    UTF-8.  The libraries behind certificates, tokens and keys are the records
    [Crypto], [X509], [JWT] and [KeyLib] with the classes [X509Laws],
    [JWTLaws] and [KeyLaws].  MD5 and base64 are arguments of [Update].  Each
    theorem that assumes such a law has a witness with a concrete library.
    net/url, path/filepath, strconv and context are written out as far as the
    code uses them.

    Fuel: [readLoop] of [Mux] takes the length of the stream plus one, enough
    because a frame takes eight bytes ([readStream_unfold]); [walkEntries] of
    [File] the depth of the tree ([walkEntries_complete]); [read_full_loop] of
    [WsConn] the number of bytes wanted, since every read but the last brings
    one.  Everything else recurses on its data.

    Logging has no effect on the modelled state and is left out of the other
    files.  Text the program prints is left out.

    ** Not modelled

    The packages under BBgrid_Server/workers, an older server that only
    common/middleware imports, which nothing imports; common/config/{server,cli}.go,
    which no program uses; generated protocol buffers and the interfaces of
    common/plugin; main functions as far as they only wire components, signal
    handling, the status page and the tables of the tool; the scan of
    listening ports (regular expressions over /proc), which nothing calls;
    tunnels over KCP, a library of which only the calls are in the source;
    TLS options, deadlines, keep-alives and dialling, which are outcomes of
    the steps that depend on them. *)

From stdpp Require Export prelude gmap list fin_maps.
From Stdlib Require Export Ascii String ZArith Lia Sorted.
From stdpp Require Export strings pretty sorting.
From Stdlib Require Import SpecFloat.

Create Rewrite HintDb strings.
Create Rewrite HintDb bus.
Create HintDb mux.

(** ** Machine integers

    Go's [int] and [int64] are 64-bit two's complement here, [int32] 32-bit;
    an operation that overflows wraps. *)

Declare Scope go_scope.
Delimit Scope go_scope with go.

Definition wrap_signed (w z : Z) : Z := (z + 2 ^ (w - 1)) `mod` 2 ^ w - 2 ^ (w - 1).
Definition int64_wrap (z : Z) : Z := wrap_signed 64 z.
Definition int32_wrap (z : Z) : Z := wrap_signed 32 z.

Definition int64_min : Z := - 2 ^ 63.
Definition int64_max : Z := 2 ^ 63 - 1.
Definition in_int64 (z : Z) : bool := (int64_min <=? z)%Z && (z <=? int64_max)%Z.

(** [x << n] on a 64-bit signed operand: a shift count of 64 or more gives 0. *)
Definition int64_shl (x n : Z) : Z := int64_wrap (Z.shiftl x n).

Notation "x +32 y" := (int32_wrap (x + y)) (at level 50, left associativity) : go_scope.
Notation "x *64 y" := (int64_wrap (x * y)) (at level 40, left associativity) : go_scope.

(** ** float64

    The value of a Go [float64] is a [spec_float].  Only the value denoted is
    looked at (a representation need not be the canonical one), through
    [float64_trunc]: the integer part, rounding toward zero. *)

Definition float64_trunc (f : spec_float) : option Z :=
  match f with
  | S754_zero _ => Some 0%Z
  | S754_finite s m e =>
      let v := if (0 <=? e)%Z then (Zpos m * 2 ^ e)%Z else (Zpos m `div` 2 ^ (- e))%Z in
      Some (if s then (- v)%Z else v)
  | S754_infinity _ | S754_nan => None
  end.

(** The conversions [int(f)] and [int64(f)]; a value out of range converts to
    the smallest integer, as the amd64 conversion instruction does. *)
Definition int_of_float64 (f : spec_float) : Z :=
  match float64_trunc f with
  | Some v => if in_int64 v then v else int64_min
  | None => int64_min
  end.

(** The float64 nearest to an integer: exact below 2^53 in absolute value,
    rounded to nearest even above. *)
Definition float64_of_Z (z : Z) : spec_float :=
  if (Z.abs z <? 2 ^ 53)%Z then
    match z with
    | Z0 => S754_zero false
    | Zpos p => S754_finite false p 0
    | Zneg p => S754_finite true p 0
    end
  else binary_normalize 53 1024 z 0 false.

Lemma int_of_float64_of_Z z :
  (Z.abs z < 2 ^ 53)%Z → int_of_float64 (float64_of_Z z) = z.
Proof.
  intros Hz. unfold float64_of_Z. rewrite (proj2 (Z.ltb_lt _ _) Hz).
  destruct z as [|p|p]; [done|..]; unfold int_of_float64, float64_trunc;
    rewrite Z.leb_refl, Z.mul_1_r; unfold in_int64, int64_min, int64_max;
    rewrite (proj2 (Z.leb_le _ _)) by lia;
    rewrite (proj2 (Z.leb_le _ _)) by lia; done.
Qed.

Lemma wrap_signed_id w z :
  (0 < w)%Z → (- 2 ^ (w - 1) <= z < 2 ^ (w - 1))%Z → wrap_signed w z = z.
Proof.
  intros Hw Hz. unfold wrap_signed.
  assert (2 ^ w = 2 * 2 ^ (w - 1))%Z as ->.
  { rewrite <-Z.pow_succ_r by lia. f_equal; lia. }
  rewrite Z.mod_small; lia.
Qed.

Lemma wrap_signed_bounds w z :
  (0 < w)%Z → (- 2 ^ (w - 1) <= wrap_signed w z < 2 ^ (w - 1))%Z.
Proof.
  intros Hw. unfold wrap_signed.
  assert (2 ^ w = 2 * 2 ^ (w - 1))%Z as Hp.
  { rewrite <-Z.pow_succ_r by lia. f_equal; lia. }
  pose proof (Z.mod_pos_bound (z + 2 ^ (w - 1)) (2 ^ w)) as Hb.
  assert (0 < 2 ^ (w - 1))%Z by (apply Z.pow_pos_nonneg; lia). lia.
Qed.

Lemma int64_wrap_id z : (int64_min <= z <= int64_max)%Z → int64_wrap z = z.
Proof. intros Hz. apply wrap_signed_id; [lia|]. unfold int64_min, int64_max in Hz. lia. Qed.

Lemma int64_wrap_bounds z : (int64_min <= int64_wrap z <= int64_max)%Z.
Proof.
  pose proof (wrap_signed_bounds 64 z ltac:(lia)) as H. unfold int64_wrap, int64_min, int64_max.
  cbn in H |- *. lia.
Qed.

Lemma int64_wrap_add a b : int64_wrap (int64_wrap a + b) = int64_wrap (a + b).
Proof.
  unfold int64_wrap, wrap_signed. f_equal.
  replace ((a + 2 ^ (64 - 1)) `mod` 2 ^ 64 - 2 ^ (64 - 1) + b + 2 ^ (64 - 1))%Z
    with ((a + 2 ^ (64 - 1)) `mod` 2 ^ 64 + b)%Z by lia.
  rewrite Z.add_mod_idemp_l by done. f_equal. lia.
Qed.

Lemma int32_wrap_id z : (- 2 ^ 31 <= z < 2 ^ 31)%Z → int32_wrap z = z.
Proof. intros Hz. apply wrap_signed_id; lia. Qed.

(** ** Strings

    Go strings are byte strings; an [ascii] is a byte. *)

Lemma string_app_nil_l (s : string) : "" +:+ s = s.
Proof. done. Qed.

Lemma string_app_cons x (a b : string) : String x a +:+ b = String x (a +:+ b).
Proof. done. Qed.

#[export] Hint Rewrite string_app_nil_l string_app_cons : strings.

Lemma string_app_assoc (a b c : string) : (a +:+ b) +:+ c = a +:+ (b +:+ c).
Proof. induction a as [|x a IH]; autorewrite with strings; [done|]. by f_equal. Qed.

Lemma string_app_nil_r (s : string) : s +:+ "" = s.
Proof. induction s as [|x s IH]; autorewrite with strings; [done|]. by f_equal. Qed.

Lemma string_length_app (a b : string) :
  String.length (a +:+ b) = String.length a + String.length b.
Proof. induction a as [|x a IH]; autorewrite with strings; [done|]. cbn. by rewrite IH. Qed.

#[export] Hint Rewrite string_app_assoc string_app_nil_r string_length_app : strings.

(** [s[:n]] for [n] at most the length of [s]. *)
Definition slice_to (n : nat) (s : string) : string := String.substring 0 n s.

Lemma slice_to_app (a b : string) : slice_to (String.length a) (a +:+ b) = a.
Proof.
  unfold slice_to. induction a as [|x a IH]; autorewrite with strings; cbn;
    [by destruct b|]. by f_equal.
Qed.

Lemma string_get_app (a b : string) n :
  String.get (String.length a + n) (a +:+ b) = String.get n b.
Proof. induction a as [|x a IH]; autorewrite with strings; [done|]. cbn. apply IH. Qed.

(** All characters of [s] satisfy [P]. *)
Fixpoint string_forall (P : ascii → bool) (s : string) : bool :=
  match s with
  | "" => true
  | String c s' => P c && string_forall P s'
  end.

Lemma string_forall_get P s n c :
  string_forall P s = true → String.get n s = Some c → P c = true.
Proof.
  revert n. induction s as [|x s IH]; intros n; [done|]. cbn.
  rewrite andb_true_iff. intros [Hx Hs]. destruct n as [|n]; [by intros [= <-]|by apply IH].
Qed.

Lemma string_forall_impl (P Q : ascii → bool) s :
  (∀ c, P c = true → Q c = true) → string_forall P s = true → string_forall Q s = true.
Proof.
  intros HPQ. induction s as [|c s IH]; cbn; [done|]. rewrite !andb_true_iff. naive_solver.
Qed.

Definition no_char (sep : ascii) (s : string) : bool :=
  string_forall (λ c, bool_decide (c ≠ sep)) s.

Lemma no_char_app sep a b : no_char sep (a +:+ b) = no_char sep a && no_char sep b.
Proof.
  unfold no_char. induction a as [|c a IH]; autorewrite with strings; [done|].
  cbn. by rewrite IH, andb_assoc.
Qed.

Lemma no_char_sep sep a b : no_char sep (a +:+ String sep b) = false.
Proof.
  rewrite no_char_app. unfold no_char at 2. cbn [string_forall].
  rewrite bool_decide_eq_false_2 by (intros H; by apply H). apply andb_false_r.
Qed.

(** A string splits in only one way at its last separator. *)
Lemma last_sep_inj sep a b x y :
  no_char sep x = true → no_char sep y = true →
  a +:+ String sep x = b +:+ String sep y → a = b ∧ x = y.
Proof.
  intros Hx Hy. revert b. induction a as [|c a IH]; intros [|d b]; autorewrite with strings;
    intros Heq.
  - by injection Heq as ->.
  - injection Heq as -> ->. by rewrite no_char_sep in Hx.
  - injection Heq as -> <-. by rewrite no_char_sep in Hy.
  - injection Heq as -> Heq. by apply IH in Heq as [-> ->].
Qed.

(** [strings.Cut(s, sep)] for a one-byte separator. *)
Fixpoint Cut (s : string) (sep : ascii) : string * string * bool :=
  match s with
  | "" => ("", "", false)
  | String c s' =>
      if decide (c = sep) then ("", s', true)
      else let '(before, after, found) := Cut s' sep in (String c before, after, found)
  end.

Lemma Cut_found s sep before after :
  Cut s sep = (before, after, true) ↔
  s = before +:+ String sep after ∧ string_forall (λ c, bool_decide (c ≠ sep)) before = true.
Proof.
  revert before. induction s as [|c s IH]; intros before; cbn.
  { split; [done|]. intros [Hs _]. by destruct before. }
  case_decide as Hc.
  - subst c. split; [intros [= <- <-]; by split|]. intros [Hs Hb].
    destruct before as [|x before]; autorewrite with strings in *; [by injection Hs as ->|].
    injection Hs as <- Hs. cbn in Hb.
    rewrite bool_decide_eq_false_2 in Hb; [done|]. intros Hne. by apply Hne.
  - destruct (Cut s sep) as [[b a] f] eqn:E. split.
    + intros [= <- -> ->]. destruct (proj1 (IH b) eq_refl) as [-> Hb].
      split; [done|]. cbn. by rewrite bool_decide_eq_true_2.
    + intros [Hs Hb]. destruct before as [|x before]; autorewrite with strings in *;
        [by injection Hs as Hx _|]. injection Hs as <- Hs. cbn in Hb.
      apply andb_true_iff in Hb as [_ Hb].
      by injection (proj2 (IH before) (conj Hs Hb)) as -> -> ->.
Qed.

Lemma Cut_not_found s sep before after :
  Cut s sep = (before, after, false) →
  before = s ∧ after = "" ∧ string_forall (λ c, bool_decide (c ≠ sep)) s = true.
Proof.
  revert before. induction s as [|c s IH]; intros before; cbn; [by intros [= <- <-]|].
  case_decide as Hc; [done|]. destruct (Cut s sep) as [[b a] f] eqn:E.
  intros [= <- -> ->]. destruct (IH b eq_refl) as (-> & -> & Hs).
  by rewrite bool_decide_eq_true_2, Hs.
Qed.

(** ** Decimal numbers: [fmt.Sprintf("%d", z)] is [pretty z] *)

Definition is_digit (c : ascii) : bool := bool_decide (is_Some (Ascii.is_nat c)).

Lemma pretty_N_char_digit x : is_digit (pretty_N_char x) = true.
Proof. unfold pretty_N_char. by repeat case_match. Qed.

Lemma pretty_N_go_digits x s :
  string_forall is_digit s = true → string_forall is_digit (pretty_N_go x s) = true.
Proof.
  revert s. induction (N.lt_wf_0 x) as [x _ IH]; intros s Hs.
  destruct (decide (0 < x)%N) as [Hx|Hx].
  - rewrite pretty_N_go_step by done. apply IH; [by apply N.div_lt|].
    cbn. by rewrite pretty_N_char_digit.
  - by assert (x = 0)%N as -> by lia.
Qed.

Lemma pretty_nonneg_digits z :
  (0 <= z)%Z → string_forall is_digit (pretty z) = true.
Proof.
  intros Hz. destruct z as [|p|p]; [done| |lia].
  unfold pretty, pretty_Z, pretty, pretty_positive, pretty, pretty_N.
  case_decide; [done|]. by apply pretty_N_go_digits.
Qed.

Lemma pretty_no_colon (z : Z) : no_char ":" (pretty z) = true.
Proof.
  assert (∀ x, (0 <= x)%Z → no_char ":" (pretty x) = true) as Hpos.
  { intros x Hx. eapply string_forall_impl; [|by apply pretty_nonneg_digits].
    intros c Hc. apply bool_decide_eq_true_2. by intros ->. }
  destruct z as [|p|p]; [by apply Hpos..|]. exact (Hpos (Zpos p) ltac:(lia)).
Qed.

Lemma digit_not_sep c : is_digit c = true → c ≠ "-"%char ∧ c ≠ ":"%char ∧ c ≠ "/"%char.
Proof. intros Hc. by split_and!; intros ->. Qed.

Fixpoint parse_digits (acc : Z) (s : string) : option Z :=
  match s with
  | "" => Some acc
  | String c s' =>
      match Ascii.is_nat c with
      | Some d => parse_digits (acc * 10 + Z.of_nat d) s'
      | None => None
      end
  end.

(** [strconv.Atoi]: an optional sign, then decimal digits; a value out of the
    range of [int] is an error. *)
Definition Atoi (s : string) : option Z :=
  let range z := if in_int64 z then Some z else None in
  match s with
  | "" => None
  | String c s' =>
      if decide (c = "-"%char) then
        if decide (s' = "") then None else (z ← parse_digits 0 s'; range (- z)%Z)
      else if decide (c = "+"%char) then
        if decide (s' = "") then None else (z ← parse_digits 0 s'; range z)
      else z ← parse_digits 0 s; range z
  end.

Lemma is_nat_pretty_N_char x :
  (x < 10)%N → Ascii.is_nat (pretty_N_char x) = Some (N.to_nat x).
Proof.
  intros Hx. assert (x = 0 ∨ x = 1 ∨ x = 2 ∨ x = 3 ∨ x = 4 ∨ x = 5 ∨ x = 6 ∨ x = 7
    ∨ x = 8 ∨ x = 9)%N as Hor by lia.
  clear Hx. repeat (destruct Hor as [->|Hor]; [done|]). by subst.
Qed.

Lemma parse_pretty_N_go x s :
  ∃ k, ∀ acc, parse_digits acc (pretty_N_go x s) = parse_digits (acc * 10 ^ Z.of_nat k + Z.of_N x) s.
Proof.
  revert s. induction (N.lt_wf_0 x) as [x _ IH]; intros s.
  destruct (decide (0 < x)%N) as [Hx|Hx].
  - rewrite pretty_N_go_step by done.
    destruct (IH (x `div` 10)%N (N.div_lt x 10 Hx eq_refl)
      (String (pretty_N_char (x `mod` 10)) s)) as [k Hk].
    exists (S k). intros acc. rewrite Hk. cbn.
    rewrite is_nat_pretty_N_char by by apply N.mod_lt.
    f_equal. rewrite Nat2Z.inj_succ, Z.pow_succ_r by lia.
    rewrite N_nat_Z. set (p := (10 ^ Z.of_nat k)%Z).
    assert (Z.of_N x = 10 * Z.of_N (x `div` 10) + Z.of_N (x `mod` 10))%Z as ->; [|lia].
    pose proof (N.div_mod x 10 ltac:(done)). lia.
  - assert (x = 0)%N as -> by lia. exists 0. intros acc. rewrite pretty_N_go_0. f_equal. lia.
Qed.

Lemma parse_digits_pretty z : (0 <= z)%Z → parse_digits 0 (pretty z) = Some z.
Proof.
  intros Hz. destruct z as [|p|p]; [done| |lia].
  unfold pretty, pretty_Z, pretty, pretty_positive, pretty, pretty_N.
  case_decide; [done|]. destruct (parse_pretty_N_go (Npos p) "") as [k Hk].
  by rewrite Hk.
Qed.

Lemma Atoi_pretty z : (0 <= z <= int64_max)%Z → Atoi (pretty z) = Some z.
Proof.
  intros Hz. pose proof (pretty_nonneg_digits z ltac:(lia)) as Hd.
  pose proof (parse_digits_pretty z ltac:(lia)) as Hp. unfold Atoi.
  destruct (pretty z) as [|c s] eqn:E.
  { destruct z as [|p|p]; [done| |lia]. exfalso.
    by assert (Some 0%Z = Some (Zpos p)) by by rewrite <-Hp. }
  cbn in Hd. apply andb_true_iff in Hd as [Hc _].
  rewrite decide_False by by intros ->. rewrite decide_False by by intros ->.
  rewrite Hp. cbn. by assert (in_int64 z = true) as ->
    by (unfold in_int64, int64_min, int64_max in *; lia).
Qed.

(** ** Bytes

    A byte is an [ascii]; a byte slice or the contents of a stream a list of
    them. *)

Abbreviation bytes := (list ascii).

Definition byte_of_Z (z : Z) : ascii := ascii_of_N (Z.to_N (z `mod` 256)).
Definition Z_of_byte (b : ascii) : Z := Z.of_N (N_of_ascii b).

Lemma Z_of_byte_bounds b : (0 <= Z_of_byte b < 256)%Z.
Proof. unfold Z_of_byte. pose proof (N_ascii_bounded b). lia. Qed.

Lemma Z_of_byte_of_Z z : Z_of_byte (byte_of_Z z) = (z `mod` 256)%Z.
Proof.
  unfold Z_of_byte, byte_of_Z. pose proof (Z.mod_pos_bound z 256 ltac:(lia)).
  rewrite N_ascii_embedding; lia.
Qed.

Lemma byte_of_Z_of_byte b : byte_of_Z (Z_of_byte b) = b.
Proof.
  unfold byte_of_Z. rewrite Z.mod_small by apply Z_of_byte_bounds.
  unfold Z_of_byte. by rewrite N2Z.id, ascii_N_embedding.
Qed.

(** [binary.BigEndian.PutUint16/32]: the [n] low bytes of [z], the most
    significant first; and [binary.BigEndian.Uint16/32]. *)
Fixpoint be_encode (n : nat) (z : Z) : bytes :=
  match n with
  | O => []
  | S n' => byte_of_Z (Z.shiftr z (8 * Z.of_nat n')) :: be_encode n' z
  end.

Fixpoint be_decode (l : bytes) : Z :=
  match l with
  | [] => 0
  | b :: l' => Z.shiftl (Z_of_byte b) (8 * Z.of_nat (length l')) + be_decode l'
  end.

Lemma be_encode_length n z : length (be_encode n z) = n.
Proof. induction n as [|n IH]; cbn; [done|]. by rewrite IH. Qed.

Lemma be_decode_bounds l : (0 <= be_decode l < 2 ^ (8 * Z.of_nat (length l)))%Z.
Proof.
  induction l as [|b l IH]; cbn [be_decode length]; [done|].
  rewrite Z.shiftl_mul_pow2 by lia. pose proof (Z_of_byte_bounds b).
  rewrite Nat2Z.inj_succ. replace (8 * Z.succ (Z.of_nat (length l)))%Z
    with (8 * Z.of_nat (length l) + 8)%Z by lia.
  rewrite Z.pow_add_r by lia. change (2 ^ 8)%Z with 256%Z. nia.
Qed.

Lemma be_decode_encode n z :
  be_decode (be_encode n z) = (z `mod` 2 ^ (8 * Z.of_nat n))%Z.
Proof.
  induction n as [|n IH]; cbn [be_encode be_decode]; [by rewrite Z.mod_1_r|].
  rewrite IH, be_encode_length, Z_of_byte_of_Z, Z.shiftl_mul_pow2, Z.shiftr_div_pow2 by lia.
  set (p := (2 ^ (8 * Z.of_nat n))%Z).
  assert (0 < p)%Z by (apply Z.pow_pos_nonneg; lia).
  rewrite Nat2Z.inj_succ. replace (8 * Z.succ (Z.of_nat n))%Z
    with (8 * Z.of_nat n + 8)%Z by lia.
  rewrite Z.pow_add_r by lia. change (2 ^ 8)%Z with 256%Z. fold p.
  rewrite (Z.rem_mul_r z p 256) by lia. lia.
Qed.

Lemma be_decode_encode_id n z :
  (0 <= z < 2 ^ (8 * Z.of_nat n))%Z → be_decode (be_encode n z) = z.
Proof. intros Hz. by rewrite be_decode_encode, Z.mod_small. Qed.

Lemma be_encode_mod n z : be_encode n (z `mod` 2 ^ (8 * Z.of_nat n)) = be_encode n z.
Proof.
  assert (∀ m, n ≤ m → be_encode n (z `mod` 2 ^ (8 * Z.of_nat m)) = be_encode n z) as H; [|by apply H].
  intros m. induction n as [|n IH]; intros Hm; cbn; [done|]. rewrite IH by lia. f_equal.
  unfold byte_of_Z. do 2 f_equal. change 256%Z with (2 ^ 8)%Z.
  apply Z.bits_inj'. intros i Hi. rewrite !Z.testbit_mod_pow2, !Z.shiftr_spec by lia.
  destruct (decide (i < 8)%Z) as [Hi8|]; [|by rewrite (proj2 (Z.ltb_ge _ _)) by lia].
  rewrite Z.testbit_mod_pow2 by lia. by rewrite (proj2 (Z.ltb_lt (_ + _) _)) by lia.
Qed.

Lemma be_encode_decode l : be_encode (length l) (be_decode l) = l.
Proof.
  induction l as [|b l IH]; cbn [be_encode be_decode length]; [done|].
  pose proof (be_decode_bounds l) as Hb. set (k := (8 * Z.of_nat (length l))%Z) in *.
  assert (0 < 2 ^ k)%Z by (apply Z.pow_pos_nonneg; lia).
  rewrite Z.shiftl_mul_pow2, Z.shiftr_div_pow2 by lia. f_equal.
  - by rewrite Z.div_add_l, Z.div_small, Z.add_0_r, byte_of_Z_of_byte by lia.
  - rewrite <-be_encode_mod. fold k.
    by rewrite Z.add_comm, Z.mod_add, Z.mod_small by lia.
Qed.

(** [string(b)] and [[]byte(s)] are [string_of_list_ascii] and
    [list_ascii_of_string]. *)
Lemma length_list_ascii_of_string s :
  length (list_ascii_of_string s) = String.length s.
Proof. induction s as [|c s IH]; cbn; [done|]. by rewrite IH. Qed.

(** ** Effects

    A fallible operation returns a [Res]: a value, or an error with the
    message the code builds. *)
Inductive Res (A : Type) : Type :=
| Ok (x : A)
| Err (msg : string).
Arguments Ok {A} x.
Arguments Err {A} msg.

#[export] Instance res_ret : MRet Res := λ A x, Ok x.
#[export] Instance res_bind : MBind Res := λ A B f m,
  match m with Ok x => f x | Err e => Err e end.
#[export] Instance res_fmap : FMap Res := λ A B f m,
  match m with Ok x => Ok (f x) | Err e => Err e end.

Definition is_ok {A} (r : Res A) : bool := match r with Ok _ => true | Err _ => false end.

#[export] Instance Ok_inj {A} : Inj (=) (=) (@Ok A).
Proof. by intros x y [= ->]. Qed.

Lemma res_bind_ok {A B} (f : A → Res B) m y :
  m ≫= f = Ok y ↔ ∃ x, m = Ok x ∧ f x = Ok y.
Proof.
  destruct m as [x|e]; cbn; split.
  - intros Hf. by exists x.
  - by intros (x' & [= <-] & Hf).
  - done.
  - by intros (x' & ? & _).
Qed.

(** ** Lists *)

Lemma StronglySorted_snoc {A} (R : A → A → Prop) l x :
  StronglySorted R l → Forall (λ y, R y x) l → StronglySorted R (l ++ [x]).
Proof.
  induction 1 as [|y l Hl IH Hy]; cbn; intros Hx; [by repeat constructor|].
  apply Forall_cons in Hx as [Hyx Hx]. constructor; [by apply IH|].
  apply Forall_app. split; [done|by constructor].
Qed.

(** What every step keeps holds wherever the steps lead. *)
Lemma rtc_invariant {A} (R : relation A) (P : A → Prop) x y :
  (∀ a b, P a → R a b → P b) → P x → rtc R x y → P y.
Proof. intros H Hx Hs. induction Hs as [|a b d Hab _ IH]; [done|]. apply IH. by eapply H. Qed.

Lemma bind_ext_in {A B} (f g : A → list B) (l : list A) :
  (∀ x, x ∈ l → f x = g x) → l ≫= f = l ≫= g.
Proof.
  induction l as [|x l IH]; intros H; [done|]. rewrite !bind_cons. f_equal; [apply H; left|].
  apply IH. intros y Hy. apply H. by right.
Qed.

(** ** Tactics *)

(** Case analysis on every [match], [if] and [decide] of the goal, closing
    the branches that contradict their equations. *)
Ltac split_cases := repeat case_match; simplify_eq/=; try done.

(** Decides the [decide]s of the goal whose proposition [done] proves or refutes. *)
Ltac dec_eval := repeat match goal with
  | |- context [decide ?P] =>
      first [rewrite (decide_True (P := P)) by done | rewrite (decide_False (P := P)) by done]
  end.
