(* ===== verification/Types.v ===== *)
(** * Data of the runtime (BBgrid_Server/runtime/types.go) and Go's [any]

    The structs of the runtime as records, and the dynamic values an event
    payload or a snapshot can hold.  [json_norm] is what [json.Marshal]
    followed by [json.Unmarshal] into an [any] makes of such a value: structs
    and typed maps become [map[string]any], numbers become [float64].  Strings
    are taken to be valid UTF-8, on which the JSON encoding is lossless. *)

From S2P Require Import Prelude.
From Stdlib Require Export SpecFloat.

(** ** Structs *)

Record ClientInfo := mkClientInfo {
  ci_ID : string;
  ci_RemoteAddr : string;
  ci_ConnectedAt : Z;
  ci_ProxyCount : Z;
  ci_Host : string;
  ci_Online : bool;
}.

Record ProxyState := mkProxyState {
  ps_ClientID : string;
  ps_RemotePort : Z;
  ps_LocalPort : Z;
  ps_LocalIP : string;
  ps_Protocol : string;
  ps_BindAddr : string;
}.

Record ProxyInfo := mkProxyInfo {
  pi_ClientID : string;
  pi_RemotePort : Z;
  pi_LocalPort : Z;
  pi_LocalIP : string;
  pi_Protocol : string;
  pi_BindAddr : string;
  pi_PublicAddr : string;
}.

Record ProxyDesiredState := mkProxyDesired {
  pd_ClientID : string;
  pd_RemotePort : Z;
  pd_LocalPort : Z;
  pd_LocalIP : string;
  pd_Protocol : string;
  pd_BindAddr : string;
}.

(** [CreatedAt] is the instant in nanoseconds, 0 for the zero [time.Time]. *)
Record RelaySession := mkRelaySession {
  rs_ID : string;
  rs_SourceClient : string;
  rs_TargetClient : string;
  rs_Protocol : string;
  rs_SourcePort : Z;
  rs_TargetPort : Z;
  rs_TargetLocalIP : string;
  rs_SourceLocalIP : string;
  rs_Token : string;
  rs_CreatedAt : Z;
  rs_Status : string;
  rs_Error : string;
}.

Record RelayDesiredState := mkRelayDesired {
  rd_ID : string;
  rd_SourceClient : string;
  rd_TargetClient : string;
  rd_Protocol : string;
  rd_SourcePort : Z;
  rd_TargetPort : Z;
  rd_TargetLocalIP : string;
  rd_SourceLocalIP : string;
  rd_Token : string;
}.

Record ReconcileResult := mkReconcileResult {
  rr_Timestamp : Z;
  rr_ProxiesTotal : Z;
  rr_ProxiesFixed : Z;
  rr_ProxiesFailed : Z;
  rr_RelaysTotal : Z;
  rr_RelaysFixed : Z;
  rr_RelaysFailed : Z;
  rr_Duration : Z;
}.

Record ProxyCreateRequest := mkProxyCreateRequest {
  pcr_ClientID : string;
  pcr_RemotePort : Z;
  pcr_LocalPort : Z;
  pcr_LocalIP : string;
  pcr_Protocol : string;
  pcr_BindAddr : string;
}.

Record RelayCreateRequest := mkRelayCreateRequest {
  rcr_SourceClient : string;
  rcr_TargetClient : string;
  rcr_Protocol : string;
  rcr_SourcePort : Z;
  rcr_TargetPort : Z;
  rcr_TargetLocalIP : string;
  rcr_SourceLocalIP : string;
}.

#[export] Instance ProxyState_eq_dec : EqDecision ProxyState.
Proof. solve_decision. Defined.
#[export] Instance ProxyDesiredState_eq_dec : EqDecision ProxyDesiredState.
Proof. solve_decision. Defined.
#[export] Instance RelaySession_eq_dec : EqDecision RelaySession.
Proof. solve_decision. Defined.
#[export] Instance RelayDesiredState_eq_dec : EqDecision RelayDesiredState.
Proof. solve_decision. Defined.

(** ** Dynamic values *)

Inductive any : Type :=
| ANil
| ABool (b : bool)
| AString (s : string)
| AInt (z : Z)
| AInt64 (z : Z)
| AFloat64 (f : spec_float)
| AMap (m : gmap string any)
| AProxyState (p : ProxyState)
| ARelaySession (r : RelaySession)
| ADesiredProxies (m : gmap string ProxyDesiredState)
| ADesiredRelays (m : gmap string RelayDesiredState).

(** The type assertions [v.(string)], [v.(float64)], [v.(map[string]any)],
    also on the value of a missing key ([nil]). *)
Definition as_string (v : option any) : option string :=
  match v with Some (AString s) => Some s | _ => None end.
Definition as_float64 (v : option any) : option spec_float :=
  match v with Some (AFloat64 f) => Some f | _ => None end.
Definition as_map (v : option any) : option (gmap string any) :=
  match v with Some (AMap m) => Some m | _ => None end.

(** ** JSON round trip of a dynamic value *)

(** A struct field [json:"name,omitempty"] of type string. *)
Definition omit_empty (k s : string) (m : gmap string any) : gmap string any :=
  if decide (s = "") then m else <[k := AString s]> m.

Definition json_proxy_fields (c : string) (rp lp : Z) (ip proto bind : string) : gmap string any :=
  <["client_id" := AString c]> $ <["remote_port" := AFloat64 (float64_of_Z rp)]> $
  <["local_port" := AFloat64 (float64_of_Z lp)]> $ <["local_ip" := AString ip]> $
  <["protocol" := AString proto]> $ <["bind_addr" := AString bind]> ∅.

Definition json_ProxyState (p : ProxyState) : any :=
  AMap (json_proxy_fields p.(ps_ClientID) p.(ps_RemotePort) p.(ps_LocalPort)
          p.(ps_LocalIP) p.(ps_Protocol) p.(ps_BindAddr)).

Definition json_ProxyDesiredState (p : ProxyDesiredState) : any :=
  AMap (json_proxy_fields p.(pd_ClientID) p.(pd_RemotePort) p.(pd_LocalPort)
          p.(pd_LocalIP) p.(pd_Protocol) p.(pd_BindAddr)).

Definition json_RelayDesiredState (r : RelayDesiredState) : any :=
  AMap $ omit_empty "token" r.(rd_Token) $
    <["id" := AString r.(rd_ID)]> $
    <["source_client" := AString r.(rd_SourceClient)]> $
    <["target_client" := AString r.(rd_TargetClient)]> $
    <["protocol" := AString r.(rd_Protocol)]> $
    <["source_port" := AFloat64 (float64_of_Z r.(rd_SourcePort))]> $
    <["target_port" := AFloat64 (float64_of_Z r.(rd_TargetPort))]> $
    <["target_local_ip" := AString r.(rd_TargetLocalIP)]> $
    <["source_local_ip" := AString r.(rd_SourceLocalIP)]> ∅.

(** [fmt_time] is the RFC 3339 text of an instant ([time.Time.MarshalJSON]). *)
Definition json_RelaySession (fmt_time : Z → string) (r : RelaySession) : any :=
  AMap $ omit_empty "token" r.(rs_Token) $ omit_empty "error" r.(rs_Error) $
    <["session_id" := AString r.(rs_ID)]> $
    <["source_client" := AString r.(rs_SourceClient)]> $
    <["target_client" := AString r.(rs_TargetClient)]> $
    <["protocol" := AString r.(rs_Protocol)]> $
    <["source_port" := AFloat64 (float64_of_Z r.(rs_SourcePort))]> $
    <["target_port" := AFloat64 (float64_of_Z r.(rs_TargetPort))]> $
    <["target_local_ip" := AString r.(rs_TargetLocalIP)]> $
    <["source_local_ip" := AString r.(rs_SourceLocalIP)]> $
    <["created_at" := AString (fmt_time r.(rs_CreatedAt))]> $
    <["status" := AString r.(rs_Status)]> ∅.

Fixpoint json_norm (fmt_time : Z → string) (v : any) : any :=
  match v with
  | ANil => ANil
  | ABool b => ABool b
  | AString s => AString s
  | AInt z | AInt64 z => AFloat64 (float64_of_Z z)
  | AFloat64 f => AFloat64 f
  | AMap m => AMap (json_norm fmt_time <$> m)
  | AProxyState p => json_ProxyState p
  | ARelaySession r => json_RelaySession fmt_time r
  | ADesiredProxies m => AMap (json_ProxyDesiredState <$> m)
  | ADesiredRelays m => AMap (json_RelayDesiredState <$> m)
  end.
