(* ===== verification/Proto.v ===== *)
(** * Events and the tunnel handshake (common/proto)

    [event.go]: resource keys, their text and its parser, the generic event
    and its identifiers.  [tunnel.go]: the frame that authenticates a tunnel
    connection.  A reader is the list of the bytes it will still deliver. *)

From S2P Require Import Prelude Types.

(** ** event.go *)

Record ResourceKey := mkResourceKey {
  rk_Type : string;
  rk_Namespace : string;
  rk_Name : string;
}.

#[export] Instance ResourceKey_eq_dec : EqDecision ResourceKey.
Proof. solve_decision. Defined.

Definition ResourceKey_String (k : ResourceKey) : string :=
  if decide (k.(rk_Namespace) = "") then k.(rk_Type) +:+ "/" +:+ k.(rk_Name)
  else k.(rk_Type) +:+ "/" +:+ k.(rk_Namespace) +:+ "/" +:+ k.(rk_Name).

(** [strings.SplitN(s, sep, n)] for a one-byte separator and [n > 0]. *)
Fixpoint SplitN (n : nat) (s : string) (sep : ascii) : list string :=
  match n with
  | O => []
  | S O => [s]
  | S n' => let '(before, after, found) := Cut s sep in
            if found then before :: SplitN n' after sep else [s]
  end.

Definition ParseResourceKey (s : string) : Res ResourceKey :=
  match SplitN 3 s "/" with
  | [p0; p1; p2] =>
      if decide (p0 = "" ∨ p1 = "" ∨ p2 = "") then Err ("invalid resource key: " +:+ s)
      else Ok (mkResourceKey p0 p1 p2)
  | _ => Err ("invalid resource key: " +:+ s)
  end.

Definition EventAdded : string := "ADDED".
Definition EventModified : string := "MODIFIED".
Definition EventDeleted : string := "DELETED".

Definition ResourceTypeClient : string := "client".
Definition ResourceTypeProxy : string := "proxy".
Definition ResourceTypeRelay : string := "relay".
Definition ResourceTypeNamespace : string := "namespace".

Definition NamespaceDefault : string := "default".
Definition NamespacePermanent : string := "permanent".
Definition NamespaceTemporary : string := "temporary".

Record GenericEvent := mkEvent {
  ge_ID : string;
  ge_Sequence : Z;
  ge_Timestamp : Z;
  ge_Version : Z;
  ge_Generation : Z;
  ge_Resource : ResourceKey;
  ge_EventType : string;
  ge_Payload : any;
}.

(** [id] is the result of [GenerateID], [now] the clock in milliseconds. *)
Definition NewGenericEvent (id : string) (now : Z) (resource : ResourceKey)
    (eventType : string) (payload : any) : GenericEvent :=
  mkEvent id 0 now 0 0 resource eventType payload.

Definition WithSequence (e : GenericEvent) (seq : Z) : GenericEvent :=
  mkEvent e.(ge_ID) seq e.(ge_Timestamp) e.(ge_Version) e.(ge_Generation)
    e.(ge_Resource) e.(ge_EventType) e.(ge_Payload).
Definition WithVersion (e : GenericEvent) (version : Z) : GenericEvent :=
  mkEvent e.(ge_ID) e.(ge_Sequence) e.(ge_Timestamp) version e.(ge_Generation)
    e.(ge_Resource) e.(ge_EventType) e.(ge_Payload).
Definition WithGeneration (e : GenericEvent) (generation : Z) : GenericEvent :=
  mkEvent e.(ge_ID) e.(ge_Sequence) e.(ge_Timestamp) e.(ge_Version) generation
    e.(ge_Resource) e.(ge_EventType) e.(ge_Payload).

(** [hex.EncodeToString] *)
Definition hex_digit (n : Z) : ascii :=
  if (n <? 10)%Z then byte_of_Z (48 + n) else byte_of_Z (87 + n).
Fixpoint hex_encode (b : bytes) : string :=
  match b with
  | [] => ""
  | x :: b' => String (hex_digit (Z.shiftr (Z_of_byte x) 4))
                 (String (hex_digit (Z.land (Z_of_byte x) 15)) (hex_encode b'))
  end.

(** [rand] is what the random source gives for 16 bytes, [None] when it
    fails; [nanos i] is the clock at iteration [i] of the fallback loop. *)
Definition GenerateID (rand : option bytes) (nanos : nat → Z) : string :=
  match rand with
  | Some b => hex_encode b
  | None => hex_encode ((λ i, byte_of_Z (Z.shiftr (nanos i) (8 * Z.of_nat i))) <$> seq 0 16)
  end.

(** ** tunnel.go *)

Definition TunnelMagic : bytes := ["T"; "U"; "N"; "L"]%char.
Definition MaxTokenLen : nat := 256.

(** What is written to the connection. *)
Definition WriteTunnelAuth (token : string) : Res bytes :=
  let tokenBytes := list_ascii_of_string token in
  if decide (MaxTokenLen < length tokenBytes) then
    Err ("token too long: " +:+ pretty (Z.of_nat (length tokenBytes)) +:+ " > 256")
  else Ok (TunnelMagic ++ be_encode 2 (Z.of_nat (length tokenBytes)) ++ tokenBytes).

(** [io.ReadFull(r, buf)] with [len(buf) = n]: the bytes and what is left;
    on a stream that ends early everything is consumed. *)
Definition ReadFull (n : nat) (r : bytes) : Res bytes * bytes :=
  if decide (n <= length r) then (Ok (take n r), drop n r)
  else (Err (if decide (r = []) then "EOF" else "unexpected EOF"), []).

Definition ReadTunnelAuth (r : bytes) : Res string * bytes :=
  match ReadFull 6 r with
  | (Err e, r1) => (Err ("read header: " +:+ e), r1)
  | (Ok header, r1) =>
      if decide (take 4 header = TunnelMagic) then
        let tokenLen := be_decode (take 2 (drop 4 header)) in
        if decide (Z.of_nat MaxTokenLen < tokenLen)%Z then
          (Err ("token length too large: " +:+ pretty tokenLen), r1)
        else
          match ReadFull (Z.to_nat tokenLen) r1 with
          | (Err e, r2) => (Err ("read token: " +:+ e), r2)
          | (Ok tokenBuf, r2) => (Ok (string_of_list_ascii tokenBuf), r2)
          end
      else (Err "invalid magic", r1)
  end.

(** [br] is what the buffered reader can still deliver; [Peek] consumes
    nothing and fails when fewer than four bytes come. *)
Definition IsTunnelConn (br : bytes) : bool :=
  bool_decide (4 <= length br) && bool_decide (take 4 br = TunnelMagic).

(** ** Lemmas *)

Definition no_slash (s : string) : bool := string_forall (λ c, bool_decide (c ≠ "/"%char)) s.

Lemma SplitN_3 s a b c :
  SplitN 3 s "/" = [a; b; c] ↔
  s = a +:+ "/" +:+ b +:+ "/" +:+ c ∧ no_slash a = true ∧ no_slash b = true.
Proof.
  unfold no_slash. cbn [SplitN]. split.
  - destruct (Cut s "/") as [[x y] []] eqn:E1; [|done].
    destruct (Cut y "/") as [[z w] []] eqn:E2; [|done]. intros [= -> -> ->].
    apply Cut_found in E1 as [-> Ha]. apply Cut_found in E2 as [-> Hb]. done.
  - intros (-> & Ha & Hb).
    assert (Cut (a +:+ "/" +:+ b +:+ "/" +:+ c) "/" = (a, b +:+ "/" +:+ c, true)) as ->
      by by apply Cut_found.
    by assert (Cut (b +:+ "/" +:+ c) "/" = (b, c, true)) as -> by by apply Cut_found.
Qed.

Lemma ReadFull_app n a r : length a = n → ReadFull n (a ++ r) = (Ok a, r).
Proof.
  intros <-. unfold ReadFull. rewrite decide_True by (rewrite length_app; lia).
  by rewrite take_app_length, drop_app_length.
Qed.

Lemma ReadFull_ok n r a r' : ReadFull n r = (Ok a, r') → r = a ++ r' ∧ length a = n.
Proof.
  unfold ReadFull. case_decide; [|done]. intros [= <- <-].
  by rewrite take_drop, length_take_le.
Qed.

(** ** Properties *)

(** [ParseResourceKey] accepts exactly the texts of the keys whose three
    segments are not empty and whose type and namespace have no slash, and
    gives that key back (the name may hold slashes). *)
Theorem ParseResourceKey_spec (s : string) (k : ResourceKey) :
  ParseResourceKey s = Ok k ↔
  s = ResourceKey_String k ∧ no_slash k.(rk_Type) = true ∧ no_slash k.(rk_Namespace) = true ∧
  k.(rk_Type) ≠ "" ∧ k.(rk_Namespace) ≠ "" ∧ k.(rk_Name) ≠ "".
Proof.
  assert (ParseResourceKey s = Ok k ↔ SplitN 3 s "/" = [k.(rk_Type); k.(rk_Namespace); k.(rk_Name)]
    ∧ k.(rk_Type) ≠ "" ∧ k.(rk_Namespace) ≠ "" ∧ k.(rk_Name) ≠ "") as ->.
  { unfold ParseResourceKey. destruct k as [t n m]. cbn [rk_Type rk_Namespace rk_Name].
    destruct (SplitN 3 s "/") as [|? [|? [|? [|? ?]]]]; [naive_solver..| |naive_solver].
    case_decide; naive_solver. }
  rewrite SplitN_3. unfold ResourceKey_String. case_decide; naive_solver.
Qed.

(** A token of at most 256 bytes written by [WriteTunnelAuth] is read back
    by [ReadTunnelAuth], which leaves what follows on the stream; and nothing
    else is accepted: whatever the reader accepts is such a frame. *)
Theorem ReadTunnelAuth_spec (token : string) (r rest : bytes) :
  ReadTunnelAuth r = (Ok token, rest) ↔
  ∃ frame, WriteTunnelAuth token = Ok frame ∧ r = frame ++ rest.
Proof.
  unfold WriteTunnelAuth. split.
  - unfold ReadTunnelAuth. destruct (ReadFull 6 r) as [[h|e] r1] eqn:E1; [|done].
    apply ReadFull_ok in E1 as [-> Hl]. case_decide as Hm; [|done].
    case_decide as Hlen; [done|].
    destruct (ReadFull _ r1) as [[t|e] r2] eqn:E2; [|done]. intros [= <- <-].
    apply ReadFull_ok in E2 as [-> Ht]. rewrite list_ascii_of_string_of_list_ascii.
    rewrite decide_False by (rewrite Ht; lia). eexists. split; [done|].
    assert (length (drop 4 h) = 2) as Hd by (rewrite length_drop; lia).
    rewrite (take_ge (drop 4 h) 2) in Ht, Hlen by lia.
    pose proof (be_decode_bounds (drop 4 h)). pose proof (be_encode_decode (drop 4 h)) as Hbe.
    rewrite Hd in Hbe. rewrite Ht, Z2Nat.id, Hbe, <-Hm by lia. rewrite app_assoc, (app_assoc (take 4 h)), take_drop. done.
  - intros (frame & Hw & ->). case_decide as Hlen; [done|]. apply (inj Ok) in Hw as <-.
    unfold ReadTunnelAuth, MaxTokenLen in *. rewrite <-!app_assoc, app_assoc.
    rewrite ReadFull_app by by rewrite length_app, be_encode_length.
    set (z := Z.of_nat _). rewrite decide_True by done.
    change (take 2 (drop 4 (TunnelMagic ++ be_encode 2 z))) with (be_encode 2 z).
    rewrite be_decode_encode_id by lia. rewrite decide_False by lia. unfold z.
    by rewrite ReadFull_app, string_of_list_ascii_of_string by lia.
Qed.
