(* ===== verification/StateStore.v ===== *)
(** * The state store (BBgrid_Server/runtime/statestore.go)

    The query side of the runtime.  Its maps are the fields of
    [StateStoreImpl]; every exported method takes the store's lock, so an
    operation is one transition.  [Apply] is the only writer of proxies,
    relays and desired state at run time; [SetClientConn] and the two token
    operations write beside it, and [Restore] loads a snapshot.

    Each query over a map returns the rows in the map's own order here; Go
    iterates in an unspecified order, so the lists are meant up to order. *)

From S2P Require Import Prelude Types Proto.

(** ** State *)

(** A live connection is opaque to the store. *)
Definition ConnId := nat.

Record clientEntry := mkClientEntry {
  ce_ClientID : string;
  ce_Conn : option ConnId;
  ce_RemoteAddr : string;
  ce_ConnectedAt : Z;
  ce_Host : string;
  ce_Latency : Z;
}.

Record StateStoreImpl := mkStateStore {
  clients : gmap string clientEntry;
  proxies : gmap string ProxyState;
  relays : gmap string RelaySession;
  portIndex : gmap Z string;
  desiredProxies : gmap string ProxyDesiredState;
  desiredRelays : gmap string RelayDesiredState;
  tunnelTokens : gmap string string;
  publicIP : string;
}.

Definition NewStateStore (publicIP : string) : StateStoreImpl :=
  mkStateStore ∅ ∅ ∅ ∅ ∅ ∅ ∅ publicIP.

Definition set_clients (f : gmap string clientEntry → gmap string clientEntry)
    (s : StateStoreImpl) : StateStoreImpl :=
  mkStateStore (f s.(clients)) s.(proxies) s.(relays) s.(portIndex) s.(desiredProxies)
    s.(desiredRelays) s.(tunnelTokens) s.(publicIP).
Definition set_tunnelTokens (f : gmap string string → gmap string string)
    (s : StateStoreImpl) : StateStoreImpl :=
  mkStateStore s.(clients) s.(proxies) s.(relays) s.(portIndex) s.(desiredProxies)
    s.(desiredRelays) (f s.(tunnelTokens)) s.(publicIP).
Definition set_portIndex (f : gmap Z string → gmap Z string)
    (s : StateStoreImpl) : StateStoreImpl :=
  mkStateStore s.(clients) s.(proxies) s.(relays) (f s.(portIndex)) s.(desiredProxies)
    s.(desiredRelays) s.(tunnelTokens) s.(publicIP).

(** ** Helpers *)

Definition proxyKey (clientID : string) (port : Z) : string := clientID +:+ ":" +:+ pretty port.

(** The loop of [parseClientIDFromKey], from index [i - 1] down to 0. *)
Fixpoint parseClientIDFromKey_loop (key : string) (i : nat) : string :=
  match i with
  | O => key
  | S i' =>
      match String.get i' key with
      | Some c => if decide (c = "-"%char ∨ c = ":"%char) then slice_to i' key
                  else parseClientIDFromKey_loop key i'
      | None => parseClientIDFromKey_loop key i'
      end
  end.
Definition parseClientIDFromKey (key : string) : string :=
  parseClientIDFromKey_loop key (String.length key).

(** [if v, ok := m[k].(string); ok] with the zero value otherwise, and the
    same for a float64 converted to [int]. *)
Definition field_string (m : gmap string any) (k : string) : string :=
  default "" (as_string (m !! k)).
Definition field_int (m : gmap string any) (k : string) : Z :=
  default 0%Z (int_of_float64 <$> as_float64 (m !! k)).

Definition parseProxyFromPayload (payload : any) : option ProxyState :=
  match payload with
  | AProxyState p => Some p
  | AMap p =>
      Some (mkProxyState (field_string p "client_id") (field_int p "remote_port")
        (field_int p "local_port") (field_string p "local_ip") (field_string p "protocol")
        (field_string p "bind_addr"))
  | _ => None
  end.

Definition proxy_desired (p : ProxyState) : ProxyDesiredState :=
  mkProxyDesired p.(ps_ClientID) p.(ps_RemotePort) p.(ps_LocalPort) p.(ps_LocalIP)
    p.(ps_Protocol) p.(ps_BindAddr).
Definition proxy_actual (d : ProxyDesiredState) : ProxyState :=
  mkProxyState d.(pd_ClientID) d.(pd_RemotePort) d.(pd_LocalPort) d.(pd_LocalIP)
    d.(pd_Protocol) d.(pd_BindAddr).
Definition relay_desired (r : RelaySession) : RelayDesiredState :=
  mkRelayDesired r.(rs_ID) r.(rs_SourceClient) r.(rs_TargetClient) r.(rs_Protocol)
    r.(rs_SourcePort) r.(rs_TargetPort) r.(rs_TargetLocalIP) r.(rs_SourceLocalIP) r.(rs_Token).
Definition relay_actual (d : RelayDesiredState) : RelaySession :=
  mkRelaySession d.(rd_ID) d.(rd_SourceClient) d.(rd_TargetClient) d.(rd_Protocol)
    d.(rd_SourcePort) d.(rd_TargetPort) d.(rd_TargetLocalIP) d.(rd_SourceLocalIP) d.(rd_Token)
    0 "" "".

(** ** Queries *)

Definition GetClient (s : StateStoreImpl) (clientID : string) : option clientEntry :=
  s.(clients) !! clientID.

Definition proxyCount (s : StateStoreImpl) (clientID : string) : Z :=
  Z.of_nat (size (filter (λ kp : string * ProxyState, kp.2.(ps_ClientID) = clientID) s.(proxies))).

Definition clientInfo (s : StateStoreImpl) (entry : clientEntry) : ClientInfo :=
  mkClientInfo entry.(ce_ClientID) entry.(ce_RemoteAddr) entry.(ce_ConnectedAt)
    (proxyCount s entry.(ce_ClientID)) entry.(ce_Host) true.

Definition GetClientInfo (s : StateStoreImpl) (clientID : string) : option ClientInfo :=
  clientInfo s <$> s.(clients) !! clientID.

Definition ListClients (s : StateStoreImpl) : list ClientInfo :=
  (λ ke : string * clientEntry, clientInfo s ke.2) <$> map_to_list s.(clients).

(** [WriteJSON] is the write on the connection; the command goes to the
    connection the entry holds. *)
Definition SendCommand (WriteJSON : ConnId → any → Res unit) (s : StateStoreImpl)
    (clientID : string) (cmd : any) : Res unit :=
  match s.(clients) !! clientID with
  | None => Err ("client not found: " +:+ clientID)
  | Some entry =>
      match entry.(ce_Conn) with
      | None => Err ("client connection not ready: " +:+ clientID)
      | Some conn => WriteJSON conn cmd
      end
  end.

Definition GetProxy (s : StateStoreImpl) (clientID : string) (port : Z) : option ProxyState :=
  s.(proxies) !! proxyKey clientID port.

Definition ListProxies (s : StateStoreImpl) : list ProxyInfo :=
  (λ kp : string * ProxyState,
     let p := kp.2 in
     mkProxyInfo p.(ps_ClientID) p.(ps_RemotePort) p.(ps_LocalPort) p.(ps_LocalIP)
       p.(ps_Protocol) p.(ps_BindAddr) (s.(publicIP) +:+ ":" +:+ pretty p.(ps_RemotePort)))
  <$> map_to_list s.(proxies).

Definition GetClientIDByPort (s : StateStoreImpl) (port : Z) : option string :=
  s.(portIndex) !! port.

Definition GetRelaySession (s : StateStoreImpl) (sessionID : string) : option RelaySession :=
  s.(relays) !! sessionID.

Definition ListRelaySessions (s : StateStoreImpl) : list RelaySession :=
  (map_to_list s.(relays)).*2.

Definition FindTableByWSToken (s : StateStoreImpl) (token : string) : Res (clientEntry * string) :=
  match s.(tunnelTokens) !! token with
  | None => Err "invalid token"
  | Some key =>
      match s.(clients) !! parseClientIDFromKey key with
      | None => Err "client not found"
      | Some entry => Ok (entry, key)
      end
  end.

Definition GetDesiredProxies (s : StateStoreImpl) : list ProxyDesiredState :=
  filter (λ d, ¬ (d.(pd_ClientID) = "" ∨ d.(pd_RemotePort) = 0%Z))
    (map_to_list s.(desiredProxies)).*2.

Definition GetDesiredRelays (s : StateStoreImpl) : list RelayDesiredState :=
  filter (λ d, d.(rd_ID) ≠ "") (map_to_list s.(desiredRelays)).*2.

(** [clientStateAdapter] *)
Definition TunnelHost (e : clientEntry) (publicIP : string) : string :=
  if decide (e.(ce_Host) = "") then publicIP else e.(ce_Host).
Definition TunnelKey (e : clientEntry) (port : Z) : string :=
  e.(ce_ClientID) +:+ "-" +:+ pretty port.

(** ** Writers beside [Apply] *)

Definition SetClientConn (now : Z) (clientID : string) (conn : option ConnId)
    (s : StateStoreImpl) : StateStoreImpl :=
  let entry := default (mkClientEntry clientID None "" now "" 0) (s.(clients) !! clientID) in
  set_clients <[clientID := mkClientEntry entry.(ce_ClientID) conn entry.(ce_RemoteAddr)
    entry.(ce_ConnectedAt) entry.(ce_Host) entry.(ce_Latency)]> s.

Definition StoreTunnelToken (token key : string) : StateStoreImpl → StateStoreImpl :=
  set_tunnelTokens <[token := key]>.
Definition RemoveTunnelToken (token : string) : StateStoreImpl → StateStoreImpl :=
  set_tunnelTokens (delete token).

(** ** Apply *)

(** [time.Millisecond] in nanoseconds, and [time.Duration(v) * time.Millisecond]. *)
Definition millis (v : Z) : Z := (v *64 1000000)%go.

Definition setHost (h : string) (e : clientEntry) : clientEntry :=
  mkClientEntry e.(ce_ClientID) e.(ce_Conn) e.(ce_RemoteAddr) e.(ce_ConnectedAt) h e.(ce_Latency).
Definition setLatency (l : Z) (e : clientEntry) : clientEntry :=
  mkClientEntry e.(ce_ClientID) e.(ce_Conn) e.(ce_RemoteAddr) e.(ce_ConnectedAt) e.(ce_Host) l.

Definition modifyClient (payload : gmap string any) (entry : clientEntry) : clientEntry :=
  let entry := match as_string (payload !! "host") with
               | Some host => setHost host entry
               | None => entry
               end in
  match payload !! "latency" with
  | Some (AInt64 v) => setLatency (millis v) entry
  | Some (AFloat64 v) => setLatency (millis (int_of_float64 v)) entry
  | _ => entry
  end.

Definition applyClientEvent (now : Z) (event : GenericEvent) (s : StateStoreImpl) : StateStoreImpl :=
  let clientID := event.(ge_Resource).(rk_Name) in
  if decide (event.(ge_EventType) = EventAdded) then
    match event.(ge_Payload) with
    | AMap payload =>
        let remoteAddr := field_string payload "remote_addr" in
        let host := field_string payload "host" in
        let fresh := mkClientEntry clientID None remoteAddr now host 0 in
        let entry :=
          match s.(clients) !! clientID with
          | Some existing =>
              match existing.(ce_Conn) with
              | Some _ => mkClientEntry existing.(ce_ClientID) existing.(ce_Conn) remoteAddr
                            existing.(ce_ConnectedAt) host existing.(ce_Latency)
              | None => fresh
              end
          | None => fresh
          end in
        set_clients <[clientID := entry]> s
    | _ => s
    end
  else if decide (event.(ge_EventType) = EventModified) then
    match s.(clients) !! clientID, event.(ge_Payload) with
    | Some entry, AMap payload => set_clients <[clientID := modifyClient payload entry]> s
    | _, _ => s
    end
  else if decide (event.(ge_EventType) = EventDeleted) then
    set_clients (delete clientID) $
    set_tunnelTokens (filter (λ tk : string * string, parseClientIDFromKey tk.2 ≠ clientID)) $
    set_portIndex (filter (λ pc : Z * string, pc.2 ≠ clientID)) s
  else s.

(** The three writes of an added or restored proxy: the actual row under its
    [proxyKey], the port index, and the desired row under [key]. *)
Definition putProxy (key : string) (proxy : ProxyState) (s : StateStoreImpl) : StateStoreImpl :=
  mkStateStore s.(clients)
    (<[proxyKey proxy.(ps_ClientID) proxy.(ps_RemotePort) := proxy]> s.(proxies)) s.(relays)
    (<[proxy.(ps_RemotePort) := proxy.(ps_ClientID)]> s.(portIndex))
    (<[key := proxy_desired proxy]> s.(desiredProxies)) s.(desiredRelays)
    s.(tunnelTokens) s.(publicIP).

(** The two writes of an added or restored relay. *)
Definition putRelay (key : string) (session : RelaySession) (s : StateStoreImpl) : StateStoreImpl :=
  mkStateStore s.(clients) s.(proxies) (<[session.(rs_ID) := session]> s.(relays))
    s.(portIndex) s.(desiredProxies) (<[key := relay_desired session]> s.(desiredRelays))
    s.(tunnelTokens) s.(publicIP).

Definition applyProxyEvent (event : GenericEvent) (s : StateStoreImpl) : StateStoreImpl :=
  if decide (event.(ge_EventType) = EventAdded) then
    match parseProxyFromPayload event.(ge_Payload) with
    | None => s
    | Some proxy => putProxy (proxyKey proxy.(ps_ClientID) proxy.(ps_RemotePort)) proxy s
    end
  else if decide (event.(ge_EventType) = EventDeleted) then
    let key := event.(ge_Resource).(rk_Name) in
    mkStateStore s.(clients) (delete key s.(proxies)) s.(relays)
      (match s.(proxies) !! key with
       | Some proxy => delete proxy.(ps_RemotePort) s.(portIndex)
       | None => s.(portIndex)
       end)
      (delete key s.(desiredProxies)) s.(desiredRelays) s.(tunnelTokens) s.(publicIP)
  else s.

Definition applyRelayEvent (event : GenericEvent) (s : StateStoreImpl) : StateStoreImpl :=
  if decide (event.(ge_EventType) = EventAdded) then
    match event.(ge_Payload) with
    | ARelaySession session => putRelay session.(rs_ID) session s
    | _ => s
    end
  else if decide (event.(ge_EventType) = EventDeleted) then
    let sessionID := event.(ge_Resource).(rk_Name) in
    mkStateStore s.(clients) s.(proxies) (delete sessionID s.(relays)) s.(portIndex)
      s.(desiredProxies) (delete sessionID s.(desiredRelays)) s.(tunnelTokens) s.(publicIP)
  else s.

(** [now] is the clock in seconds. *)
Definition Apply (now : Z) (event : GenericEvent) (s : StateStoreImpl) : StateStoreImpl :=
  let type := event.(ge_Resource).(rk_Type) in
  if decide (type = ResourceTypeClient) then applyClientEvent now event s
  else if decide (type = ResourceTypeProxy) then applyProxyEvent event s
  else if decide (type = ResourceTypeRelay) then applyRelayEvent event s
  else s.

(** ** Snapshot and Restore *)

Definition Snapshot (s : StateStoreImpl) : gmap string any :=
  <["desired_proxies" := ADesiredProxies s.(desiredProxies)]> $
  <["desired_relays" := ADesiredRelays s.(desiredRelays)]> ∅.

(** What one entry of ["desired_proxies"] restores to. *)
Definition restored_proxy (val : any) : option ProxyDesiredState :=
  match val with
  | AMap m =>
      let proxy := mkProxyDesired (field_string m "client_id") (field_int m "remote_port")
        (field_int m "local_port") (field_string m "local_ip") (field_string m "protocol")
        (field_string m "bind_addr") in
      if decide (proxy.(pd_ClientID) = "" ∨ proxy.(pd_RemotePort) = 0%Z) then None else Some proxy
  | _ => None
  end.

Definition restoreProxy (key : string) (val : any) (s : StateStoreImpl) : StateStoreImpl :=
  match restored_proxy val with
  | None => s
  | Some proxy => putProxy key (proxy_actual proxy) s
  end.

Definition restored_relay (val : any) : option RelayDesiredState :=
  match val with
  | AMap m =>
      let id := match as_string (m !! "id") with
                | Some v => v
                | None => field_string m "session_id"
                end in
      let relay := mkRelayDesired id (field_string m "source_client")
        (field_string m "target_client") (field_string m "protocol") (field_int m "source_port")
        (field_int m "target_port") (field_string m "target_local_ip")
        (field_string m "source_local_ip") (field_string m "token") in
      if decide (relay.(rd_ID) = "") then None else Some relay
  | _ => None
  end.

Definition restoreRelay (key : string) (val : any) (s : StateStoreImpl) : StateStoreImpl :=
  match restored_relay val with
  | None => s
  | Some relay => putRelay key (relay_actual relay) s
  end.

Definition restoreProxies (l : list (string * any)) (s : StateStoreImpl) : StateStoreImpl :=
  foldl (λ s kv, restoreProxy kv.1 kv.2 s) s l.
Definition restoreRelays (l : list (string * any)) (s : StateStoreImpl) : StateStoreImpl :=
  foldl (λ s kv, restoreRelay kv.1 kv.2 s) s l.

(** [for key, val := range m] visits the entries of [m] in an order Go picks:
    [order m] is the list of the entries visited. *)
Definition MapOrder := gmap string any → list (string * any).
Definition is_order (order : MapOrder) : Prop := ∀ m, order m ≡ₚ map_to_list m.

Definition Restore (order : MapOrder) (data : gmap string any) (s : StateStoreImpl) :
    StateStoreImpl :=
  let s := match as_map (data !! "desired_proxies") with
           | Some proxies => restoreProxies (order proxies) s
           | None => s
           end in
  match as_map (data !! "desired_relays") with
  | Some relays => restoreRelays (order relays) s
  | None => s
  end.

(** ** Keys *)

Lemma pretty_no_sep port :
  (0 <= port)%Z →
  string_forall (λ c, bool_decide (c ≠ "-"%char ∧ c ≠ ":"%char)) (pretty port) = true.
Proof.
  intros Hp. eapply string_forall_impl; [|by apply pretty_nonneg_digits].
  intros c Hc. apply bool_decide_eq_true_2. by apply digit_not_sep in Hc as (? & ? & _).
Qed.

Lemma parse_loop_skip a b n :
  string_forall (λ c, bool_decide (c ≠ "-"%char ∧ c ≠ ":"%char)) b = true →
  n ≤ String.length b →
  parseClientIDFromKey_loop (a +:+ b) (String.length a + n)
  = parseClientIDFromKey_loop (a +:+ b) (String.length a).
Proof.
  intros Hb. induction n as [|n IH]; intros Hn; [by rewrite Nat.add_0_r|].
  rewrite Nat.add_succ_r. cbn [parseClientIDFromKey_loop]. rewrite string_get_app.
  destruct (String.get n b) as [c|] eqn:E; [|by apply IH; lia].
  pose proof (string_forall_get _ _ _ _ Hb E) as Hc.
  apply bool_decide_eq_true_1 in Hc. rewrite decide_False by tauto. apply IH; lia.
Qed.

Lemma parseClientIDFromKey_sep c sep port :
  sep = "-"%char ∨ sep = ":"%char → (0 <= port)%Z →
  parseClientIDFromKey (c +:+ String sep (pretty port)) = c.
Proof.
  intros Hsep Hp. unfold parseClientIDFromKey.
  assert (c +:+ String sep (pretty port) = (c +:+ String sep "") +:+ pretty port) as ->
    by by autorewrite with strings.
  rewrite string_length_app, parse_loop_skip by (by apply pretty_no_sep || done).
  rewrite string_length_app, Nat.add_1_r. cbn [parseClientIDFromKey_loop].
  rewrite string_app_assoc.
  assert (String.get (String.length c) (c +:+ String sep "" +:+ pretty port) = Some sep) as ->.
  { by rewrite <-(Nat.add_0_r (String.length c)), string_get_app. }
  rewrite decide_True by done. apply slice_to_app.
Qed.

(** A key separates its client from its port at the last colon. *)
#[export] Instance proxyKey_inj : Inj2 (=) (=) (=) proxyKey.
Proof.
  unfold proxyKey. intros c p c' p' Heq.
  apply last_sep_inj in Heq as [-> Heq]; [|apply pretty_no_colon..].
  split; [done|]. by apply (inj pretty).
Qed.

(** ** Operations as a transition system *)

Inductive store_op :=
| OpApply (now : Z) (event : GenericEvent)
| OpSetClientConn (now : Z) (clientID : string) (conn : option ConnId)
| OpStoreTunnelToken (token key : string)
| OpRemoveTunnelToken (token : string)
| OpRestore (order : MapOrder) (data : gmap string any).

Definition store_step (s : StateStoreImpl) (op : store_op) : StateStoreImpl :=
  match op with
  | OpApply now event => Apply now event s
  | OpSetClientConn now clientID conn => SetClientConn now clientID conn s
  | OpStoreTunnelToken token key => StoreTunnelToken token key s
  | OpRemoveTunnelToken token => RemoveTunnelToken token s
  | OpRestore order data => Restore order data s
  end.

Definition store_run (ops : list store_op) (s : StateStoreImpl) : StateStoreImpl :=
  foldl store_step s ops.

Lemma store_run_ind (P : StateStoreImpl → Prop) (Q : store_op → Prop) ops s :
  (∀ s op, Q op → P s → P (store_step s op)) →
  Forall Q ops → P s → P (store_run ops s).
Proof.
  intros Hstep Hops. revert s. induction Hops as [|op ops Hop _ IH]; intros s Hs; cbn; [done|].
  by apply IH, Hstep.
Qed.

(** Every map is keyed by the identity of what it holds, and every indexed
    port is the port of a proxy the store holds for the indexed client. *)
Record store_wf (s : StateStoreImpl) : Prop := mkWf {
  wf_clients k e : s.(clients) !! k = Some e → e.(ce_ClientID) = k;
  wf_proxies k p : s.(proxies) !! k = Some p → k = proxyKey p.(ps_ClientID) p.(ps_RemotePort);
  wf_relays k r : s.(relays) !! k = Some r → r.(rs_ID) = k;
  wf_port port c : s.(portIndex) !! port = Some c → is_Some (GetProxy s c port);
}.

Lemma store_wf_new ip : store_wf (NewStateStore ip).
Proof. by split; intros; simplify_map_eq. Qed.

Lemma store_wf_set_clients f s :
  store_wf s → (∀ k e, f s.(clients) !! k = Some e → e.(ce_ClientID) = k) →
  store_wf (set_clients f s).
Proof. intros [? ? ? ?] Hf. by split. Qed.

Lemma store_wf_set_tokens f s : store_wf s → store_wf (set_tunnelTokens f s).
Proof. intros [? ? ? ?]. by split. Qed.

Lemma store_wf_set_port f s :
  store_wf s → (∀ p c, f s.(portIndex) !! p = Some c → s.(portIndex) !! p = Some c) →
  store_wf (set_portIndex f s).
Proof. intros [? ? ? Hport] Hf. split; cbn; try done. intros p c Hp. by apply Hport, Hf. Qed.

Lemma store_wf_client now e s : store_wf s → store_wf (applyClientEvent now e s).
Proof.
  intros Hwf. unfold applyClientEvent. repeat case_decide; [..|done].
  - case_match; try done. apply store_wf_set_clients; [done|]. intros k en.
    rewrite lookup_insert_Some. intros [[<- <-]|[_ Hk]]; [|by eapply wf_clients].
    repeat case_match; try done. cbn. by eapply wf_clients.
  - repeat case_match; try done. apply store_wf_set_clients; [done|]. intros k en.
    rewrite lookup_insert_Some. intros [[<- <-]|[_ Hk]]; [|by eapply wf_clients].
    assert (ce_ClientID (modifyClient m c) = ce_ClientID c) as -> by (unfold modifyClient; by repeat case_match).
    by eapply wf_clients.
  - apply store_wf_set_clients; [apply store_wf_set_tokens, store_wf_set_port; [done|]|].
    + intros p c. by rewrite map_lookup_filter_Some; intros [? _].
    + intros k en. rewrite lookup_delete_Some. intros [_ Hk]. by eapply wf_clients.
Qed.

Lemma store_wf_putProxy key p s : store_wf s → store_wf (putProxy key p s).
Proof.
  intros [Hc Hp Hr Hport]. split; cbn; [done| |done|].
  - intros k q. rewrite lookup_insert_Some. intros [[<- <-]|[_ Hk]]; [done|by apply Hp].
  - intros port c. unfold GetProxy. cbn. rewrite lookup_insert_Some.
    intros [[<- <-]|[Hne Hk]]; [by rewrite lookup_insert_eq|].
    rewrite lookup_insert_ne; [by apply Hport|]. by intros [_ ?]%(inj2 _).
Qed.

Lemma store_wf_putRelay key r s : store_wf s → store_wf (putRelay key r s).
Proof.
  intros [Hc Hp Hr Hport]. split; cbn; [done|done| |done].
  intros k q. rewrite lookup_insert_Some. intros [[<- <-]|[_ Hk]]; [done|by apply Hr].
Qed.

Lemma store_wf_proxy e s : store_wf s → store_wf (applyProxyEvent e s).
Proof.
  intros Hwf. unfold applyProxyEvent. repeat case_decide; [..|done].
  - case_match; [|done]. by apply store_wf_putProxy.
  - destruct Hwf as [Hc Hp Hr Hport]. split; cbn; [done| |done|].
    + intros k q. rewrite lookup_delete_Some. intros [_ ?]. by apply Hp.
    + intros port c Hl. unfold GetProxy. cbn. set (key := rk_Name _) in *.
      destruct (s.(proxies) !! key) as [p|] eqn:Hx.
      * apply lookup_delete_Some in Hl as [Hne Hl].
        rewrite lookup_delete_ne; [by apply Hport|]. intros Hk.
        apply Hp in Hx. rewrite Hk in Hx. by apply (inj2 _) in Hx as [_ ?].
      * apply Hport in Hl as [q Hq]. rewrite lookup_delete_ne; [by exists q|].
        unfold GetProxy in Hq. congruence.
Qed.

Lemma store_wf_relay e s : store_wf s → store_wf (applyRelayEvent e s).
Proof.
  intros Hwf. unfold applyRelayEvent. repeat case_decide; [..|done].
  - case_match; try done. by apply store_wf_putRelay.
  - destruct Hwf as [Hc Hp Hr Hport]. split; cbn; [done|done| |done].
    intros k q. rewrite lookup_delete_Some. intros [_ ?]. by apply Hr.
Qed.

Lemma store_wf_Apply now e s : store_wf s → store_wf (Apply now e s).
Proof.
  unfold Apply. intros. repeat case_decide; auto using store_wf_client, store_wf_proxy, store_wf_relay.
Qed.

Lemma store_wf_Restore order data s : store_wf s → store_wf (Restore order data s).
Proof.
  intros Hwf. unfold Restore.
  assert (∀ l s, store_wf s → store_wf (restoreProxies l s)) as HP.
  { induction l as [|[k v] l IH]; intros s' Hs'; [done|]. apply IH. unfold restoreProxy. cbn.
    case_match; [|done]. by apply store_wf_putProxy. }
  assert (∀ l s, store_wf s → store_wf (restoreRelays l s)) as HR.
  { induction l as [|[k v] l IH]; intros s' Hs'; [done|]. apply IH. unfold restoreRelay. cbn.
    case_match; [|done]. by apply store_wf_putRelay. }
  repeat case_match; auto.
Qed.

Lemma store_wf_step s op : store_wf s → store_wf (store_step s op).
Proof.
  intros Hwf. destruct op; cbn; unfold StoreTunnelToken, RemoveTunnelToken;
    auto using store_wf_Apply, store_wf_Restore, store_wf_set_tokens.
  apply store_wf_set_clients; [done|]. intros k e. rewrite lookup_insert_Some.
  intros [[<- <-]|[_ Hk]]; [|by eapply wf_clients]. cbn.
  destruct (s.(clients) !! clientID) eqn:E; [by eapply wf_clients|done].
Qed.

(** *** Desired and actual state *)

Definition store_in_sync (s : StateStoreImpl) : Prop :=
  s.(desiredProxies) = proxy_desired <$> s.(proxies) ∧
  s.(desiredRelays) = relay_desired <$> s.(relays).

Definition is_restore (op : store_op) : bool :=
  match op with OpRestore _ _ => true | _ => false end.

Lemma store_in_sync_Apply now e s : store_in_sync s → store_in_sync (Apply now e s).
Proof.
  intros [Hp Hr]. unfold Apply, applyClientEvent, applyProxyEvent, applyRelayEvent.
  repeat case_match; try done; split; cbn; try done;
    by rewrite ?fmap_insert, ?fmap_delete, ?Hp, ?Hr.
Qed.

Lemma store_in_sync_step s op :
  is_restore op = false → store_in_sync s → store_in_sync (store_step s op).
Proof.
  intros Hop Hs. destruct op; try done; [by apply store_in_sync_Apply|..]; by destruct Hs.
Qed.

(** *** Restoring a snapshot *)

Definition port_ok (p : Z) : Prop := (Z.abs p < 2 ^ 53)%Z.

(** Reads the fields of a map built by insertions of literal keys. *)
Ltac lookup_fields :=
  repeat (rewrite lookup_insert_eq || rewrite lookup_insert_ne by done);
  cbn [as_string as_float64 default fmap option_fmap option_map];
  rewrite ?int_of_float64_of_Z by assumption.

(** A row a snapshot keeps: [Restore] drops the others. *)
Definition proxy_row_ok (kd : string * ProxyDesiredState) : Prop :=
  let d := kd.2 in
  d.(pd_ClientID) ≠ "" ∧ d.(pd_RemotePort) ≠ 0%Z ∧ port_ok d.(pd_RemotePort) ∧
  port_ok d.(pd_LocalPort) ∧ kd.1 = proxyKey d.(pd_ClientID) d.(pd_RemotePort).
Definition relay_row_ok (kd : string * RelayDesiredState) : Prop :=
  let d := kd.2 in
  d.(rd_ID) ≠ "" ∧ port_ok d.(rd_SourcePort) ∧ port_ok d.(rd_TargetPort) ∧ kd.1 = d.(rd_ID).

Lemma restored_proxy_json k d :
  proxy_row_ok (k, d) → restored_proxy (json_ProxyDesiredState d) = Some d.
Proof.
  destruct d as [c rp lp ip proto bind]. intros (Hc & Hrp & Hrp' & Hlp & _). cbn in *.
  unfold restored_proxy, json_ProxyDesiredState, json_proxy_fields, field_string, field_int. cbn.
  lookup_fields. by rewrite decide_False by naive_solver.
Qed.

Lemma omit_empty_lookup k v m k' :
  omit_empty k v m !! k' = if decide (k = k' ∧ v ≠ "") then Some (AString v) else m !! k'.
Proof.
  unfold omit_empty. repeat case_decide; destruct_and?; simplify_map_eq; try done; try tauto.
Qed.

Lemma restored_relay_json k d :
  relay_row_ok (k, d) → restored_relay (json_RelayDesiredState d) = Some d.
Proof.
  destruct d as [id sc tc proto sp tp tip sip tok]. intros (Hid & Hsp & Htp & _). cbn in *.
  unfold restored_relay, json_RelayDesiredState. cbn.
  set (m0 := <["id" := _]> _). set (m := omit_empty _ _ m0).
  assert (field_string m "token" = tok) as ->.
  { unfold field_string, m. rewrite omit_empty_lookup.
    case_decide as Ht; [done|]. unfold m0. simplify_map_eq.
    destruct (decide (tok = "")); [done|naive_solver]. }
  assert (∀ k', k' ≠ "token" → m !! k' = m0 !! k') as Hm.
  { intros k' Hk. unfold m. rewrite omit_empty_lookup. by rewrite decide_False by naive_solver. }
  unfold field_string, field_int. rewrite !Hm by done. unfold m0. lookup_fields.
  by rewrite decide_False.
Qed.

Lemma proxy_desired_actual d : proxy_desired (proxy_actual d) = d.
Proof. by destruct d. Qed.
Lemma relay_desired_actual d : relay_desired (relay_actual d) = d.
Proof. by destruct d. Qed.
Lemma proxy_actual_desired p : proxy_actual (proxy_desired p) = p.
Proof. by destruct p. Qed.

Lemma restoreProxies_rows l s :
  Forall proxy_row_ok l → NoDup l.*1 →
  let s' := restoreProxies (prod_map id json_ProxyDesiredState <$> l) s in
  s'.(desiredProxies) = list_to_map l ∪ s.(desiredProxies) ∧
  s'.(proxies) = (proxy_actual <$> list_to_map l) ∪ s.(proxies) ∧
  s'.(relays) = s.(relays) ∧ s'.(desiredRelays) = s.(desiredRelays) ∧
  (∀ kd, kd ∈ l → is_Some (s'.(portIndex) !! kd.2.(pd_RemotePort))) ∧
  (∀ p, is_Some (s.(portIndex) !! p) → is_Some (s'.(portIndex) !! p)).
Proof.
  intros Hl Hnd. revert s. induction Hl as [|[k d] l Hkd Hl IH]; intros s.
  { cbn. rewrite fmap_empty, !(left_id_L ∅ (∪)). repeat split; try done. by intros ? ?%elem_of_nil. }
  cbn in Hnd. apply NoDup_cons in Hnd as [Hk Hnd].
  assert (restoreProxy k (json_ProxyDesiredState d) s = putProxy k (proxy_actual d) s) as Hs.
  { unfold restoreProxy. by rewrite (restored_proxy_json _ _ Hkd). }
  cbn [fmap list_fmap prod_map fst snd id]. unfold restoreProxies. cbn [foldl fst snd]. rewrite Hs.
  destruct (IH Hnd (putProxy k (proxy_actual d) s)) as (H1 & H2 & H3 & H4 & H5 & H6).
  unfold restoreProxies in *. destruct Hkd as (_ & _ & _ & _ & Hkey). cbn in Hkey.
  apply not_elem_of_list_to_map_1 in Hk.
  rewrite H1, H2, H3, H4. cbn. rewrite <-Hkey, proxy_desired_actual, fmap_insert,
    <-!insert_union_l, !insert_union_r by (done || by rewrite lookup_fmap, Hk).
  repeat split; try done.
  - intros kd [->|Hkd']%elem_of_cons; [|by apply H5]. cbn. apply H6. cbn. by rewrite lookup_insert_eq.
  - intros p Hp. apply H6. cbn. destruct (decide (d.(pd_RemotePort) = p)) as [<-|].
    + by rewrite lookup_insert_eq.
    + by rewrite lookup_insert_ne.
Qed.

Lemma restoreRelays_rows l s :
  Forall relay_row_ok l → NoDup l.*1 →
  let s' := restoreRelays (prod_map id json_RelayDesiredState <$> l) s in
  s'.(desiredRelays) = list_to_map l ∪ s.(desiredRelays) ∧
  s'.(relays) = (relay_actual <$> list_to_map l) ∪ s.(relays) ∧
  s'.(proxies) = s.(proxies) ∧ s'.(desiredProxies) = s.(desiredProxies) ∧
  s'.(portIndex) = s.(portIndex).
Proof.
  intros Hl Hnd. revert s. induction Hl as [|[k d] l Hkd Hl IH]; intros s.
  { cbn. by rewrite fmap_empty, !(left_id_L ∅ (∪)). }
  cbn in Hnd. apply NoDup_cons in Hnd as [Hk Hnd].
  assert (restoreRelay k (json_RelayDesiredState d) s = putRelay k (relay_actual d) s) as Hs.
  { unfold restoreRelay. by rewrite (restored_relay_json _ _ Hkd). }
  cbn [fmap list_fmap prod_map fst snd id]. unfold restoreRelays. cbn [foldl fst snd]. rewrite Hs.
  destruct (IH Hnd (putRelay k (relay_actual d) s)) as (H1 & H2 & H3 & H4 & H5).
  unfold restoreRelays in *. destruct Hkd as (_ & _ & _ & Hkey). cbn in Hkey.
  apply not_elem_of_list_to_map_1 in Hk.
  rewrite H1, H2, H3, H4, H5. cbn. rewrite <-Hkey, relay_desired_actual, fmap_insert,
    <-!insert_union_l, !insert_union_r by (done || by rewrite lookup_fmap, Hk).
  done.
Qed.

(** The entries of a converted map, in any order, are converted entries. *)
Lemma order_fmap {B} (order : MapOrder) (f : B → any) (m : gmap string B) :
  is_order order → ∃ l, order (f <$> m) = prod_map id f <$> l ∧ l ≡ₚ map_to_list m.
Proof.
  intros Hord. pose proof (Hord (f <$> m)) as Hp. rewrite map_to_list_fmap in Hp.
  apply Permutation_map_inv in Hp as (l & Hl & Hp). by exists l.
Qed.

Definition store_rows_ok (s : StateStoreImpl) : Prop :=
  Forall proxy_row_ok (map_to_list s.(desiredProxies)) ∧
  Forall relay_row_ok (map_to_list s.(desiredRelays)).

#[export] Instance proxy_row_ok_dec kd : Decision (proxy_row_ok kd).
Proof. unfold proxy_row_ok, port_ok. apply _. Defined.
#[export] Instance relay_row_ok_dec kd : Decision (relay_row_ok kd).
Proof. unfold relay_row_ok, port_ok. apply _. Defined.
#[export] Instance store_rows_ok_dec s : Decision (store_rows_ok s).
Proof. unfold store_rows_ok. apply _. Defined.

(** A proxy event as the runtime publishes it. *)
Definition proxyEvent (eventType name : string) (payload : any) : GenericEvent :=
  mkEvent "" 0 0 0 0 (mkResourceKey ResourceTypeProxy NamespaceDefault name) eventType payload.

Lemma Apply_added now n p s :
  Apply now (proxyEvent EventAdded n (AProxyState p)) s
  = putProxy (proxyKey p.(ps_ClientID) p.(ps_RemotePort)) p s.
Proof. done. Qed.

Lemma Apply_deleted now n v s :
  Apply now (proxyEvent EventDeleted n v) s
  = mkStateStore s.(clients) (delete n s.(proxies)) s.(relays)
      (match s.(proxies) !! n with
       | Some proxy => delete proxy.(ps_RemotePort) s.(portIndex)
       | None => s.(portIndex)
       end) (delete n s.(desiredProxies)) s.(desiredRelays) s.(tunnelTokens) s.(publicIP).
Proof. done. Qed.

(** ** Properties *)

(** C4. Whatever operations run on a new store, in any order, every client,
    proxy and relay stays filed under its own identity, and the port index
    only names clients for which the store holds a proxy on that port. *)
Theorem store_reachable_wf (ip : string) (ops : list store_op) :
  store_wf (store_run ops (NewStateStore ip)).
Proof.
  apply (store_run_ind _ (λ _, True)); [|by apply Forall_true|by apply store_wf_new].
  intros s op _. apply store_wf_step.
Qed.

(** Without a [Restore], the desired state the reconciler reads is at all
    times exactly the projection of the actual proxies and relays. *)
Theorem store_desired_is_actual (ip : string) (ops : list store_op)
    (Hops : Forall (λ op, is_restore op = false) ops) :
  store_in_sync (store_run ops (NewStateStore ip)).
Proof.
  apply (store_run_ind _ (λ op, is_restore op = false)); [|done|].
  - intros s op. apply store_in_sync_step.
  - by split; cbn; rewrite fmap_empty.
Qed.

(** A proxy event changes exactly the row and the port it names: after
    ADDED the proxy is found under its client and port and the port belongs
    to its client; after DELETED of a key neither is found; other clients,
    ports, relays, tokens and connections are as before. *)
Theorem Apply_proxy_spec (now : Z) (e : GenericEvent) (s : StateStoreImpl)
    (Hwf : store_wf s) (Htype : e.(ge_Resource).(rk_Type) = ResourceTypeProxy) :
  let s' := Apply now e s in
  (s'.(clients) = s.(clients) ∧ s'.(relays) = s.(relays) ∧ s'.(tunnelTokens) = s.(tunnelTokens)) ∧
  (∀ p c port, e.(ge_EventType) = EventAdded → parseProxyFromPayload e.(ge_Payload) = Some p →
    GetProxy s' c port = (if decide (c = p.(ps_ClientID) ∧ port = p.(ps_RemotePort))
                          then Some p else GetProxy s c port) ∧
    GetClientIDByPort s' port = (if decide (port = p.(ps_RemotePort))
                                 then Some p.(ps_ClientID) else GetClientIDByPort s port)) ∧
  (∀ c port c' port', e.(ge_EventType) = EventDeleted → e.(ge_Resource).(rk_Name) = proxyKey c port →
    GetProxy s' c' port' = (if decide (c' = c ∧ port' = port) then None else GetProxy s c' port') ∧
    GetClientIDByPort s' port' = (if decide (port' = port ∧ is_Some (GetProxy s c port))
                                  then None else GetClientIDByPort s port')).
Proof.
  unfold Apply. rewrite Htype. rewrite decide_False by done. rewrite decide_True by done.
  unfold applyProxyEvent. split_and!; [by repeat case_match..| |].
  - intros p c port -> ->. rewrite decide_True by done. unfold GetProxy, GetClientIDByPort. cbn.
    split; case_decide as Hd.
    + destruct Hd as [-> ->]. by rewrite lookup_insert_eq.
    + rewrite lookup_insert_ne; [done|]. intros [? ?]%(inj2 _). naive_solver.
    + subst. by rewrite lookup_insert_eq.
    + by rewrite lookup_insert_ne.
  - intros c port c' port' -> Hn. rewrite decide_False by done. rewrite decide_True by done.
    unfold GetProxy, GetClientIDByPort. cbn. rewrite Hn. split.
    + case_decide as Hd; [destruct Hd as [-> ->]; by rewrite lookup_delete_eq|].
      rewrite lookup_delete_ne; [done|]. intros [? ?]%(inj2 _). naive_solver.
    + destruct (s.(proxies) !! proxyKey c port) as [p|] eqn:E.
      * assert (p.(ps_RemotePort) = port) as ->.
        { apply (wf_proxies _ Hwf) in E. by apply (inj2 _) in E as [_ ->]. }
        case_decide as Hd; [destruct Hd as [-> _]; by rewrite lookup_delete_eq|].
        rewrite lookup_delete_ne; [done|]. intros ->. by apply Hd.
      * rewrite decide_False; [done|]. by intros [_ [? ?]].
Qed.


(** A snapshot that has been through JSON, restored into a new store in
    any map order, brings back the desired state, every proxy, and every
    relay less the fields a snapshot does not hold; and the ports of all
    restored proxies are indexed again. *)
Theorem Restore_json_Snapshot (fmt_time : Z → string) (order : MapOrder) (ip : string)
    (s : StateStoreImpl) (Hord : is_order order) (Hsync : store_in_sync s)
    (Hrows : store_rows_ok s) :
  let s' := Restore order (json_norm fmt_time <$> Snapshot s) (NewStateStore ip) in
  s'.(desiredProxies) = s.(desiredProxies) ∧ s'.(desiredRelays) = s.(desiredRelays) ∧
  s'.(proxies) = s.(proxies) ∧ s'.(relays) = (relay_actual ∘ relay_desired <$> s.(relays)) ∧
  (∀ k p, s.(proxies) !! k = Some p → is_Some (GetClientIDByPort s' p.(ps_RemotePort))).
Proof.
  destruct Hsync as [HsP HsR], Hrows as [HrP HrR]. unfold Restore, Snapshot.
  rewrite !fmap_insert, fmap_empty. cbn [json_norm as_map]. lookup_fields. cbn [as_map].
  destruct (order_fmap order json_ProxyDesiredState s.(desiredProxies) Hord) as (lp & -> & Hlp).
  destruct (order_fmap order json_RelayDesiredState s.(desiredRelays) Hord) as (lr & -> & Hlr).
  assert (NoDup lp.*1) as Hnp by (rewrite Hlp; apply NoDup_fst_map_to_list).
  assert (NoDup lr.*1) as Hnr by (rewrite Hlr; apply NoDup_fst_map_to_list).
  rewrite <-Hlp in HrP. rewrite <-Hlr in HrR.
  assert (list_to_map lp = s.(desiredProxies)) as Hmp.
  { rewrite <-(list_to_map_to_list s.(desiredProxies)). by apply list_to_map_proper. }
  assert (list_to_map lr = s.(desiredRelays)) as Hmr.
  { rewrite <-(list_to_map_to_list s.(desiredRelays)). by apply list_to_map_proper. }
  destruct (restoreProxies_rows lp (NewStateStore ip) HrP Hnp) as (H1 & H2 & H3 & H4 & H5 & _).
  destruct (restoreRelays_rows lr (restoreProxies (prod_map id json_ProxyDesiredState <$> lp)
    (NewStateStore ip)) HrR Hnr) as (G1 & G2 & G3 & G4 & G5).
  unfold GetClientIDByPort. rewrite G1, G2, G3, G4, G5, H1, H2, H3, H4, Hmp, Hmr. cbn.
  rewrite !(right_id_L ∅ (∪)), HsP, HsR, <-!map_fmap_compose. split_and!; try done.
  - rewrite <-(map_fmap_id s.(proxies)) at 2. apply map_fmap_ext. intros. apply proxy_actual_desired.
  - intros k p Hk. apply (H5 (k, proxy_desired p)). rewrite Hlp. apply elem_of_map_to_list.
    by rewrite HsP, lookup_fmap, Hk.
Qed.

(** Two clients may hold a proxy on the same port; the index keeps the
    later one, and deleting that one leaves the earlier proxy in the store
    with its port unindexed. *)
Theorem port_index_lost (now : Z) (p1 p2 : ProxyState) (s : StateStoreImpl)
    (Hp : p1.(ps_RemotePort) = p2.(ps_RemotePort)) (Hc : p1.(ps_ClientID) ≠ p2.(ps_ClientID)) :
  let k p := proxyKey p.(ps_ClientID) p.(ps_RemotePort) in
  let s' := Apply now (proxyEvent EventDeleted (k p2) ANil) $
            Apply now (proxyEvent EventAdded (k p2) (AProxyState p2)) $
            Apply now (proxyEvent EventAdded (k p1) (AProxyState p1)) s in
  GetProxy s' p1.(ps_ClientID) p1.(ps_RemotePort) = Some p1 ∧
  GetClientIDByPort s' p1.(ps_RemotePort) = None.
Proof.
  intros k. rewrite !Apply_added, Apply_deleted. unfold GetProxy, GetClientIDByPort, k.
  cbn -[proxyKey]. rewrite lookup_insert_eq. split.
  - rewrite lookup_delete_ne, lookup_insert_ne; [by rewrite lookup_insert_eq|..];
      by intros [? ?]%(inj2 _).
  - by rewrite Hp, lookup_delete_eq.
Qed.

(** *** Witnesses: a store with one client, one proxy and one relay *)

Definition ex_proxy : ProxyState := mkProxyState "dev" 8080 80 "127.0.0.1" "tcp" "0.0.0.0".
Definition ex_proxy2 : ProxyState := mkProxyState "cam" 8080 81 "127.0.0.1" "tcp" "0.0.0.0".
Definition ex_relay : RelaySession :=
  mkRelaySession "r1" "dev" "cam" "tcp" 22 2222 "127.0.0.1" "127.0.0.1" "tok" 5 "active" "".
Definition ex_ops : list store_op :=
  [OpSetClientConn 100 "dev" (Some 1);
   OpApply 100 (proxyEvent EventAdded "dev:8080" (AProxyState ex_proxy));
   OpStoreTunnelToken "secret" "dev-8080";
   OpApply 101 (mkEvent "" 0 0 0 0 (mkResourceKey ResourceTypeRelay NamespaceDefault "r1")
                  EventAdded (ARelaySession ex_relay))].
Definition ex_store : StateStoreImpl := store_run ex_ops (NewStateStore "1.2.3.4").

Lemma ex_store_wf : store_wf ex_store.
Proof. apply (store_run_ind _ (λ _, True)); [|by apply Forall_true|apply store_wf_new].
  intros s op _. apply store_wf_step. Qed.

Lemma store_desired_is_actual_witness :
  Forall (λ op, is_restore op = false) ex_ops ∧ store_in_sync ex_store.
Proof.
  assert (Forall (λ op, is_restore op = false) ex_ops) as H by by repeat constructor.
  split; [exact H|]. exact (store_desired_is_actual "1.2.3.4" ex_ops H).
Defined.

Lemma Apply_proxy_spec_witness :
  GetProxy ex_store "dev" 8080 = Some ex_proxy ∧
  GetProxy (Apply 102 (proxyEvent EventDeleted "dev:8080" ANil) ex_store) "dev" 8080 = None.
Proof.
  split; [by vm_compute|].
  destruct (Apply_proxy_spec 102 (proxyEvent EventDeleted "dev:8080" ANil) ex_store
    ex_store_wf eq_refl) as (_ & _ & H).
  destruct (H "dev" 8080%Z "dev" 8080%Z eq_refl eq_refl) as [-> _]. by vm_compute.
Defined.


Lemma Restore_json_Snapshot_witness :
  (Restore map_to_list (json_norm pretty <$> Snapshot ex_store) (NewStateStore "")).(proxies)
  = ex_store.(proxies).
Proof.
  assert (store_in_sync ex_store) as Hs by by split; vm_compute.
  assert (store_rows_ok ex_store) as Hr by (apply (bool_decide_eq_true_1 (store_rows_ok ex_store)); by vm_compute).
  destruct (Restore_json_Snapshot pretty map_to_list "" ex_store (λ m, reflexivity _) Hs Hr)
    as (_ & _ & H & _). exact H.
Defined.

Lemma port_index_lost_witness :
  ex_proxy.(ps_RemotePort) = ex_proxy2.(ps_RemotePort) ∧
  GetClientIDByPort (Apply 1 (proxyEvent EventDeleted "cam:8080" ANil) $
    Apply 1 (proxyEvent EventAdded "cam:8080" (AProxyState ex_proxy2)) $
    Apply 1 (proxyEvent EventAdded "dev:8080" (AProxyState ex_proxy)) ex_store) 8080 = None.
Proof.
  split; [done|]. assert (ex_proxy.(ps_ClientID) ≠ ex_proxy2.(ps_ClientID)) as Hc by done.
  destruct (port_index_lost 1 ex_proxy ex_proxy2 ex_store eq_refl Hc) as [_ H]. exact H.
Defined.
