(* ===== verification/EventBus.v ===== *)
(** * The event bus (BBgrid_Server/runtime/eventbus.go)

    [Publish] is not one transition: it takes the bus lock to number the
    event, the queue lock to find or create the queue of the event's type and
    start its worker, and then sends on the channel without a lock.  A
    publisher in flight is therefore a [publisher] state between those
    sections, and [bus_step] interleaves the sections of all publishers, the
    workers, (un)subscriptions and the four sections of [Close].  Each step
    carries the labels of what it does to a channel, so that a run has a trace
    of sends, receives and handler calls. *)

From S2P Require Import Prelude Types Proto.

(** ** State *)

#[export] Instance GenericEvent_inhabited : Inhabited GenericEvent :=
  populate (mkEvent "" 0 0 0 0 (mkResourceKey "" "" "") "" ANil).

(** A handler is a function value: [%p] prints its code pointer, which all
    closures of one function literal share. *)
Record EventHandler := mkHandler { h_code : nat; h_env : nat }.

#[export] Instance EventHandler_eq_dec : EqDecision EventHandler.
Proof. solve_decision. Defined.

(** A worker waits on its queue, has received an event, is part-way through
    the handlers it copied for it, or has returned. *)
Inductive worker_state :=
| WIdle
| WReceived (event : GenericEvent)
| WHandling (event : GenericEvent) (handlers : list EventHandler)
| WDone.

(** A channel of capacity 256 with the worker that ranges over it. *)
Record queue := mkQueue {
  q_type : string;
  q_buf : list GenericEvent;
  q_closed : bool;
  q_worker : worker_state;
}.

Inductive publisher :=
| PNumbered (event : GenericEvent)            (* past the first section *)
| PSending (event : GenericEvent) (ch : nat). (* has its queue *)

Record EventBusImpl := mkBus {
  typeSubs : gmap string (list EventHandler);
  closed : bool;
  seq : Z;
  queues : gmap string nat;
  stopped : bool;
  chans : gmap nat queue;
  pubs : gmap nat publisher;
}.

Definition NewEventBus : EventBusImpl := mkBus ∅ false 0 ∅ false ∅ ∅.

Definition queue_cap : nat := 256.

Definition set_pub (p : nat) (st : option publisher) (b : EventBusImpl) : EventBusImpl :=
  mkBus b.(typeSubs) b.(closed) b.(seq) b.(queues) b.(stopped) b.(chans)
    (partial_alter (λ _, st) p b.(pubs)).
Definition set_chan (ch : nat) (q : queue) (b : EventBusImpl) : EventBusImpl :=
  mkBus b.(typeSubs) b.(closed) b.(seq) b.(queues) b.(stopped) (<[ch := q]> b.(chans)) b.(pubs).
Definition set_subs (subs : gmap string (list EventHandler)) (b : EventBusImpl) : EventBusImpl :=
  mkBus subs b.(closed) b.(seq) b.(queues) b.(stopped) b.(chans) b.(pubs).
Definition set_worker (w : worker_state) (q : queue) : queue :=
  mkQueue q.(q_type) q.(q_buf) q.(q_closed) w.
Definition set_buf (l : list GenericEvent) (q : queue) : queue :=
  mkQueue q.(q_type) l q.(q_closed) q.(q_worker).

(** ** The sections of the operations *)

(** Lines 42-60: number the event; stop when the bus is closed or nobody
    subscribed to the type. *)
Definition Publish_number (p : nat) (event : GenericEvent) (b : EventBusImpl) : EventBusImpl :=
  if b.(closed) then b
  else
    let n := int64_wrap (b.(seq) + 1) in
    let b' := mkBus b.(typeSubs) b.(closed) n b.(queues) b.(stopped) b.(chans) b.(pubs) in
    match b.(typeSubs) !! event.(ge_Resource).(rk_Type) with
    | None => b'
    | Some _ => set_pub p (Some (PNumbered (WithSequence event n))) b'
    end.

(** Lines 65-77: find the queue of the type, or create it and its worker
    unless the bus has stopped. *)
Definition Publish_queue (p : nat) (event : GenericEvent) (b : EventBusImpl) : EventBusImpl :=
  let type := event.(ge_Resource).(rk_Type) in
  match b.(queues) !! type with
  | Some ch => set_pub p (Some (PSending event ch)) b
  | None =>
      if b.(stopped) then set_pub p None b
      else
        let ch := fresh (dom b.(chans)) in
        set_pub p (Some (PSending event ch)) $
        mkBus b.(typeSubs) b.(closed) b.(seq) (<[type := ch]> b.(queues)) b.(stopped)
          (<[ch := mkQueue type [] false WIdle]> b.(chans)) b.(pubs)
  end.

(** Lines 80-97: a send on a closed channel panics and is recovered, a send
    on a full one takes the default branch; both drop the event. *)
Definition accepts (q : queue) : bool :=
  negb q.(q_closed) && bool_decide (length q.(q_buf) < queue_cap).

Definition Publish_send (p : nat) (event : GenericEvent) (ch : nat) (q : queue)
    (b : EventBusImpl) : EventBusImpl :=
  set_pub p None $
    if accepts q then set_chan ch (set_buf (q.(q_buf) ++ [event]) q) b else b.

Definition Subscribe (resourceType : string) (handler : EventHandler) (b : EventBusImpl) :
    EventBusImpl :=
  set_subs (<[resourceType := default [] (b.(typeSubs) !! resourceType) ++ [handler]]>
    b.(typeSubs)) b.

(** Removes the first handler that prints the same pointer. *)
Fixpoint remove_code (code : nat) (l : list EventHandler) : option (list EventHandler) :=
  match l with
  | [] => None
  | h :: l' => if decide (h.(h_code) = code) then Some l' else (h ::.) <$> remove_code code l'
  end.
Definition Unsubscribe (resourceType : string) (handler : EventHandler) (b : EventBusImpl) :
    EventBusImpl :=
  match remove_code handler.(h_code) (default [] (b.(typeSubs) !! resourceType)) with
  | Some l => set_subs (<[resourceType := l]> b.(typeSubs)) b
  | None => b
  end.

(** The worker: receive an event; copy the handlers of the type; call the
    next one (a panic in it is recovered); return when the channel is closed
    and empty. *)
Definition worker_receive (ch : nat) (q : queue) (event : GenericEvent) (rest : list GenericEvent)
    (b : EventBusImpl) : EventBusImpl :=
  set_chan ch (set_worker (WReceived event) (set_buf rest q)) b.
Definition after_handlers (event : GenericEvent) (hs : list EventHandler) : worker_state :=
  match hs with [] => WIdle | _ => WHandling event hs end.
Definition worker_copy (ch : nat) (q : queue) (event : GenericEvent) (b : EventBusImpl) :
    EventBusImpl :=
  set_chan ch (set_worker (after_handlers event (default [] (b.(typeSubs) !! q.(q_type)))) q) b.
Definition worker_handle (ch : nat) (q : queue) (event : GenericEvent) (hs : list EventHandler)
    (b : EventBusImpl) : EventBusImpl :=
  set_chan ch (set_worker (after_handlers event hs) q) b.
Definition worker_exit (ch : nat) (q : queue) (b : EventBusImpl) : EventBusImpl :=
  set_chan ch (set_worker WDone q) b.

(** The four sections of [Close]. *)
Definition Close_mark (b : EventBusImpl) : EventBusImpl :=
  mkBus b.(typeSubs) true b.(seq) b.(queues) b.(stopped) b.(chans) b.(pubs).
Definition Close_stop (b : EventBusImpl) : EventBusImpl :=
  mkBus b.(typeSubs) b.(closed) b.(seq) b.(queues) true b.(chans) b.(pubs).
Definition close_queue (q : queue) : queue := mkQueue q.(q_type) q.(q_buf) true q.(q_worker).
Definition Close_queues (b : EventBusImpl) : EventBusImpl :=
  mkBus b.(typeSubs) b.(closed) b.(seq) ∅ b.(stopped)
    (map_imap (λ ch q, Some (if decide (map_Exists (λ _ ch', ch' = ch) b.(queues))
                             then close_queue q else q)) b.(chans)) b.(pubs).
Definition all_done (b : EventBusImpl) : Prop := map_Forall (λ _ q, q.(q_worker) = WDone) b.(chans).
Definition Close_clear (b : EventBusImpl) : EventBusImpl := set_subs ∅ b.

(** ** Interleaving *)

Inductive label :=
| LSend (ch : nat) (event : GenericEvent)
| LRecv (ch : nat) (event : GenericEvent)
| LCall (ch : nat) (h : EventHandler) (event : GenericEvent).

Inductive bus_step : EventBusImpl → list label → EventBusImpl → Prop :=
| StepNumber b p event :
    b.(pubs) !! p = None → bus_step b [] (Publish_number p event b)
| StepQueue b p event :
    b.(pubs) !! p = Some (PNumbered event) → bus_step b [] (Publish_queue p event b)
| StepSend b p event ch q :
    b.(pubs) !! p = Some (PSending event ch) → b.(chans) !! ch = Some q →
    bus_step b (if accepts q then [LSend ch event] else []) (Publish_send p event ch q b)
| StepSubscribe b t h : bus_step b [] (Subscribe t h b)
| StepUnsubscribe b t h : bus_step b [] (Unsubscribe t h b)
| StepReceive b ch q event rest :
    b.(chans) !! ch = Some q → q.(q_worker) = WIdle → q.(q_buf) = event :: rest →
    bus_step b [LRecv ch event] (worker_receive ch q event rest b)
| StepCopy b ch q event :
    b.(chans) !! ch = Some q → q.(q_worker) = WReceived event →
    bus_step b [] (worker_copy ch q event b)
| StepHandle b ch q event h hs :
    b.(chans) !! ch = Some q → q.(q_worker) = WHandling event (h :: hs) →
    bus_step b [LCall ch h event] (worker_handle ch q event hs b)
| StepExit b ch q :
    b.(chans) !! ch = Some q → q.(q_worker) = WIdle → q.(q_buf) = [] → q.(q_closed) = true →
    bus_step b [] (worker_exit ch q b)
| StepCloseMark b : bus_step b [] (Close_mark b)
| StepCloseStop b : b.(closed) = true → bus_step b [] (Close_stop b)
| StepCloseQueues b : b.(stopped) = true → bus_step b [] (Close_queues b)
| StepCloseClear b : b.(queues) = ∅ → b.(stopped) = true → all_done b → bus_step b [] (Close_clear b).

Inductive bus_run : EventBusImpl → list label → EventBusImpl → Prop :=
| run_nil b : bus_run b [] b
| run_snoc b tr b' l b'' : bus_run b tr b' → bus_step b' l b'' → bus_run b (tr ++ l) b''.

(** What a trace says of one channel. *)
Fixpoint sent (ch : nat) (tr : list label) : list GenericEvent :=
  match tr with
  | [] => []
  | LSend ch' e :: tr' => if decide (ch' = ch) then e :: sent ch tr' else sent ch tr'
  | _ :: tr' => sent ch tr'
  end.
Fixpoint received (ch : nat) (tr : list label) : list GenericEvent :=
  match tr with
  | [] => []
  | LRecv ch' e :: tr' => if decide (ch' = ch) then e :: received ch tr' else received ch tr'
  | _ :: tr' => received ch tr'
  end.
Fixpoint called (ch : nat) (tr : list label) : list GenericEvent :=
  match tr with
  | [] => []
  | LCall ch' _ e :: tr' => if decide (ch' = ch) then e :: called ch tr' else called ch tr'
  | _ :: tr' => called ch tr'
  end.

Lemma sent_app ch t1 t2 : sent ch (t1 ++ t2) = sent ch t1 ++ sent ch t2.
Proof. induction t1 as [|[] t1 IH]; cbn; [done|..]; try case_decide; by rewrite IH. Qed.
Lemma received_app ch t1 t2 : received ch (t1 ++ t2) = received ch t1 ++ received ch t2.
Proof. induction t1 as [|[] t1 IH]; cbn; [done|..]; try case_decide; by rewrite IH. Qed.
Lemma called_app ch t1 t2 : called ch (t1 ++ t2) = called ch t1 ++ called ch t2.
Proof. induction t1 as [|[] t1 IH]; cbn; [done|..]; try case_decide; by rewrite IH. Qed.

#[export] Hint Rewrite sent_app received_app called_app : bus.

(** ** Invariants *)

(** The worker of a channel after the events [r] it has received. *)
Definition worker_at (w : worker_state) (r : list GenericEvent) : Prop :=
  match w with
  | WReceived e => ∃ r', r = r' ++ [e]
  | WHandling e hs => hs ≠ [] ∧ ∃ r', r = r' ++ [e]
  | _ => True
  end.

(** The calls on a channel: each received event in order, once per handler. *)
Definition calls_in_order (r c : list GenericEvent) : Prop :=
  ∃ ns, length ns = length r ∧ c = concat (zip_with replicate ns r).

Lemma calls_receive r c e : calls_in_order r c → calls_in_order (r ++ [e]) c.
Proof.
  intros (ns & Hl & ->). exists (ns ++ [0]). rewrite !length_app, Hl. split; [done|].
  rewrite zip_with_app by done. cbn. by rewrite concat_app, !app_nil_r.
Qed.

Lemma calls_call r c e : calls_in_order (r ++ [e]) c → calls_in_order (r ++ [e]) (c ++ [e]).
Proof.
  intros (ns & Hl & ->). rewrite length_app in Hl. cbn in Hl.
  destruct (ns) as [|n ns'] using rev_ind; [cbn in Hl; lia|]. clear IHns'.
  rewrite length_app in Hl. cbn in Hl. exists (ns' ++ [S n]).
  rewrite !length_app. cbn. split; [lia|]. rewrite !zip_with_app by lia. cbn.
  rewrite !concat_app. cbn. rewrite !app_nil_r, <-app_assoc. f_equal.
  by rewrite <-replicate_S_end.
Qed.

Record chan_inv (qs : gmap string nat) (tr : list label) (ch : nat) (q : queue) : Prop := mkChanInv {
  ci_fifo : sent ch tr = received ch tr ++ q.(q_buf);
  ci_bound : length q.(q_buf) ≤ queue_cap;
  ci_worker : worker_at q.(q_worker) (received ch tr);
  ci_calls : calls_in_order (received ch tr) (called ch tr);
  ci_open : q.(q_closed) = false → qs !! q.(q_type) = Some ch;
  ci_done : q.(q_worker) = WDone → q.(q_buf) = [] ∧ q.(q_closed) = true;
}.

Record bus_inv (b : EventBusImpl) (tr : list label) : Prop := mkBusInv {
  bi_chan ch q : b.(chans) !! ch = Some q → chan_inv b.(queues) tr ch q;
  bi_new ch : b.(chans) !! ch = None → sent ch tr = [] ∧ received ch tr = [] ∧ called ch tr = [];
  bi_queue t ch : b.(queues) !! t = Some ch →
    ∃ q, b.(chans) !! ch = Some q ∧ q.(q_type) = t ∧ q.(q_closed) = false;
  bi_stopped : b.(stopped) = true → b.(closed) = true;
}.

(** A step that changes neither channels nor queues keeps the invariant. *)
Lemma bus_inv_frame b b' tr :
  bus_inv b tr → b'.(chans) = b.(chans) → b'.(queues) = b.(queues) →
  (b'.(stopped) = true → b'.(closed) = true) → bus_inv b' tr.
Proof.
  intros [Hc Hn Hq _] Hchans Hqs Hst. by split; rewrite ?Hqs, ?Hchans.
Qed.

Definition label_chan (l : label) : nat :=
  match l with LSend ch _ | LRecv ch _ | LCall ch _ _ => ch end.

Lemma trace_other tr l ch :
  Forall (λ x, label_chan x ≠ ch) l →
  sent ch (tr ++ l) = sent ch tr ∧ received ch (tr ++ l) = received ch tr ∧
  called ch (tr ++ l) = called ch tr.
Proof.
  intros Hl. autorewrite with bus. induction Hl as [|x l Hx _ IH]; cbn; [by rewrite !app_nil_r|].
  destruct x; cbn in *; by rewrite ?decide_False by done.
Qed.

(** A step on one channel keeps the invariant when it does on that channel. *)
Lemma bus_inv_chan b tr l ch q q' :
  bus_inv b tr → b.(chans) !! ch = Some q →
  q'.(q_type) = q.(q_type) → q'.(q_closed) = q.(q_closed) →
  Forall (λ x, label_chan x = ch) l →
  chan_inv b.(queues) (tr ++ l) ch q' → bus_inv (set_chan ch q' b) (tr ++ l).
Proof.
  intros [Hc Hn Hq Hs] Hl Ht Hcl Hlab Hci.
  assert (∀ ch', ch' ≠ ch → Forall (λ x, label_chan x ≠ ch') l) as Hoth.
  { intros ch' Hne. eapply Forall_impl; [exact Hlab|]. cbn. congruence. }
  split; cbn; [| | |done].
  - intros ch' q''. rewrite lookup_insert_Some. intros [[<- <-]|[Hne Hl']]; [done|].
    destruct (Hc _ _ Hl') as [H1 H2 H3 H4 H5 H6].
    destruct (trace_other tr l ch') as (E1 & E2 & E3); [by apply Hoth|].
    split; rewrite ?E1, ?E2, ?E3; try done.
  - intros ch' [Hl' Hne]%lookup_insert_None.
    destruct (trace_other tr l ch') as (-> & -> & ->); [by apply Hoth|]. by apply Hn.
  - intros t ch' Hl'. destruct (Hq t ch' Hl') as (q'' & Hl'' & Hty & Hcl'').
    destruct (decide (ch = ch')) as [<-|Hne].
    + exists q'. rewrite lookup_insert_eq. simplify_map_eq. by rewrite Ht, Hcl.
    + exists q''. by rewrite lookup_insert_ne.
Qed.

(** A send appends to the buffer, a receive takes its head. *)
Lemma chan_inv_send qs tr ch q e :
  chan_inv qs tr ch q → accepts q = true →
  chan_inv qs (tr ++ [LSend ch e]) ch (set_buf (q.(q_buf) ++ [e]) q).
Proof.
  intros [Hf Hb Hw Hc Ho Hd] [Hcl Hlen]%andb_true_iff. apply bool_decide_eq_true_1 in Hlen.
  split; autorewrite with bus; cbn; rewrite ?decide_True, ?app_nil_r by done; try done.
  - by rewrite Hf, app_assoc.
  - rewrite length_app. cbn. lia.
  - intros Hdone. destruct (Hd Hdone) as [_ Hcl']. by rewrite Hcl' in Hcl.
Qed.

Lemma chan_inv_receive qs tr ch q e rest :
  chan_inv qs tr ch q → q.(q_buf) = e :: rest →
  chan_inv qs (tr ++ [LRecv ch e]) ch (set_worker (WReceived e) (set_buf rest q)).
Proof.
  intros [Hf Hb Hw Hc Ho Hd] Hbuf. rewrite Hbuf in *. cbn in Hb.
  split; autorewrite with bus; cbn; rewrite ?decide_True, ?app_nil_r by done; try done.
  - by rewrite Hf, <-app_assoc.
  - lia.
  - by eexists.
  - by apply calls_receive.
Qed.

Lemma chan_inv_worker qs tr ch q w :
  chan_inv qs tr ch q → worker_at w (received ch tr) →
  (w = WDone → q.(q_buf) = [] ∧ q.(q_closed) = true) → chan_inv qs tr ch (set_worker w q).
Proof. intros [] ? ?. by split. Qed.

Lemma worker_at_after e hs r : worker_at (WReceived e) r → worker_at (after_handlers e hs) r.
Proof. by destruct hs. Qed.

Lemma chan_inv_call qs tr ch q e h hs :
  chan_inv qs tr ch q → q.(q_worker) = WHandling e (h :: hs) →
  chan_inv qs (tr ++ [LCall ch h e]) ch (set_worker (after_handlers e hs) q).
Proof.
  intros [Hf Hb Hw Hc Ho Hd] Hwk. rewrite Hwk in Hw. destruct Hw as [_ [r' Hr]].
  split; autorewrite with bus; cbn; rewrite ?decide_True, ?app_nil_r by done; try done.
  - apply worker_at_after. by exists r'.
  - rewrite Hr in *. by apply calls_call.
  - by destruct hs.
Qed.

Lemma bus_inv_worker b tr ch q w :
  bus_inv b tr → b.(chans) !! ch = Some q → worker_at w (received ch tr) →
  (w = WDone → q.(q_buf) = [] ∧ q.(q_closed) = true) → bus_inv (set_chan ch (set_worker w q) b) tr.
Proof.
  intros Hinv Hl Hw Hd. rewrite <-(app_nil_r tr). eapply bus_inv_chan; try done.
  rewrite app_nil_r. apply chan_inv_worker; try done. by eapply bi_chan.
Qed.

Lemma bus_inv_publish_queue p e b tr : bus_inv b tr → bus_inv (Publish_queue p e b) tr.
Proof.
  intros Hinv. unfold Publish_queue. destruct (b.(queues) !! _) as [ch|] eqn:Hq.
  { eapply bus_inv_frame; [done..|apply (bi_stopped _ _ Hinv)]. }
  destruct (b.(stopped)) eqn:Hst.
  { eapply bus_inv_frame; [done..|]. intros _. by apply (bi_stopped _ _ Hinv). }
  set (ch := fresh _). set (t := rk_Type _) in *.
  assert (b.(chans) !! ch = None) as Hnew by (apply not_elem_of_dom, is_fresh).
  destruct Hinv as [Hc Hn Hqs Hs]. split; cbn; [| | |done].
  - intros ch' q. rewrite lookup_insert_Some. intros [[<- <-]|[Hne Hl]].
    + destruct (Hn ch Hnew) as (E1 & E2 & E3). split; rewrite ?E1, ?E2, ?E3; cbn; try done.
      * unfold queue_cap. lia.
      * by exists [].
      * by rewrite lookup_insert_eq.
    + destruct (Hc _ _ Hl) as []. split; try done. intros Ho.
      rewrite lookup_insert_ne; [by auto|]. intros Ht. specialize (ci_open0 Ho). congruence.
  - intros ch' [Hl _]%lookup_insert_None. by apply Hn.
  - intros t' ch'. rewrite lookup_insert_Some. intros [[<- <-]|[Hne Hl]].
    + eexists. by rewrite lookup_insert_eq.
    + destruct (Hqs _ _ Hl) as (q & Hl' & ?). exists q. rewrite lookup_insert_ne; [done|congruence].
Qed.

Lemma bus_inv_close_queues b tr : bus_inv b tr → b.(stopped) = true → bus_inv (Close_queues b) tr.
Proof.
  intros [Hc Hn Hqs Hs] Hst. split; cbn; [| |done|done].
  - intros ch q Hl. rewrite map_lookup_imap in Hl. apply bind_Some in Hl as (q0 & Hl & [= <-]).
    destruct (Hc _ _ Hl) as [Hf Hb Hw Hca Ho Hd]. case_decide as Hex.
    + split; cbn; try done. intros Hdone. by destruct (Hd Hdone).
    + split; cbn; try done. intros Hop. exfalso. apply Hex. exists q0.(q_type), ch. auto.
  - intros ch Hl. rewrite map_lookup_imap in Hl. apply Hn.
    by destruct (b.(chans) !! ch); simplify_eq/=.
Qed.

Lemma bus_inv_step b l b' tr : bus_inv b tr → bus_step b l b' → bus_inv b' (tr ++ l).
Proof.
  intros Hinv Hstep.
  pose proof (bi_chan _ _ Hinv) as Hci. pose proof (bi_stopped _ _ Hinv) as Hst.
  destruct Hstep as [b p e Hp|b p e Hp|b p e ch q Hp Hl|b t h|b t h|b ch q e rest Hl Hw Hb
    |b ch q e Hl Hw|b ch q e h hs Hl Hw|b ch q Hl Hw Hb Hc|b|b Hc|b Hs|b Hq Hs Hd];
    rewrite ?app_nil_r.
  - unfold Publish_number. repeat case_match; try done; by eapply bus_inv_frame.
  - by apply bus_inv_publish_queue.
  - unfold Publish_send. destruct (accepts q) eqn:Ha.
    + apply (bus_inv_frame (set_chan ch (set_buf (q.(q_buf) ++ [e]) q) b)); try done.
      eapply bus_inv_chan; try done; [by constructor|]. apply chan_inv_send, Ha. by apply Hci.
    + rewrite app_nil_r. by eapply bus_inv_frame.
  - by eapply bus_inv_frame.
  - unfold Unsubscribe. case_match; [|done]. by eapply bus_inv_frame.
  - eapply bus_inv_chan; try done; [by constructor|]. apply chan_inv_receive; [by apply Hci|done].
  - apply bus_inv_worker; try done.
    + apply worker_at_after. pose proof (ci_worker _ _ _ _ (Hci _ _ Hl)) as H. by rewrite Hw in H.
    + by destruct (default _ _).
  - eapply bus_inv_chan; try done; [by constructor|]. eapply chan_inv_call; [by apply Hci|done].
  - by apply bus_inv_worker.
  - by eapply bus_inv_frame.
  - by eapply bus_inv_frame.
  - by apply bus_inv_close_queues.
  - by eapply bus_inv_frame.
Qed.

Lemma bus_inv_new : bus_inv NewEventBus [].
Proof. by split. Qed.

Lemma bus_inv_run tr b : bus_run NewEventBus tr b → bus_inv b tr.
Proof.
  remember NewEventBus as b0 eqn:E. induction 1; subst; [apply bus_inv_new|].
  eapply bus_inv_step; [|done]. by apply IHbus_run.
Qed.

(** ** Sequential publishers *)

(** Runs in which a publisher only starts when no other is between its
    sections, and the sequence counter has not wrapped. *)
Inductive seq_run : EventBusImpl → list label → EventBusImpl → Prop :=
| seq_nil b : seq_run b [] b
| seq_snoc b tr b' l b'' :
    seq_run b tr b' → bus_step b' l b'' → size b''.(pubs) ≤ 1 → (0 <= b''.(seq))%Z →
    seq_run b (tr ++ l) b''.

Definition pub_event (st : publisher) : GenericEvent :=
  match st with PNumbered e | PSending e _ => e end.

(** Numbers sent so far increase; they stay below an event in flight and
    within the counter. *)
Record seq_inv (b : EventBusImpl) (tr : list label) : Prop := mkSeqInv {
  si_size : size b.(pubs) ≤ 1;
  si_range : (0 <= b.(seq) <= int64_max)%Z;
  si_sorted ch : StronglySorted Z.lt (ge_Sequence <$> sent ch tr);
  si_sent ch e : e ∈ sent ch tr → (e.(ge_Sequence) <= b.(seq))%Z;
  si_pub p st : b.(pubs) !! p = Some st → ((pub_event st).(ge_Sequence) <= b.(seq))%Z ∧
    ∀ ch e, e ∈ sent ch tr → (e.(ge_Sequence) < (pub_event st).(ge_Sequence))%Z;
}.

(** A step that sends nothing and keeps the counter, and at most removes a
    publisher or moves it on with its event. *)
Lemma seq_inv_frame b b' tr l :
  seq_inv b tr → (∀ ch, sent ch l = []) → b'.(seq) = b.(seq) → size b'.(pubs) ≤ 1 →
  (∀ p st, b'.(pubs) !! p = Some st →
     ∃ st0, b.(pubs) !! p = Some st0 ∧ pub_event st0 = pub_event st) →
  seq_inv b' (tr ++ l).
Proof.
  intros [Hsz Hr Hs He Hp] Hl Hseq Hsz' Hpub.
  assert (∀ ch, sent ch (tr ++ l) = sent ch tr) as Hsent.
  { intros ch. autorewrite with bus. by rewrite Hl, app_nil_r. }
  split; try done; rewrite ?Hseq; try done.
  - intros ch. by rewrite Hsent.
  - intros ch e. rewrite Hsent. apply He.
  - intros p st Hl'. destruct (Hpub p st Hl') as (st0 & Hl0 & <-).
    destruct (Hp p st0 Hl0) as [H1 H2]. split; [done|]. intros ch e. rewrite Hsent. apply H2.
Qed.

Lemma size_insert_le1 {A} (m : gmap nat A) i x :
  m !! i = None → size (<[i := x]> m) ≤ 1 → m = ∅.
Proof. intros Hi. rewrite map_size_insert_None by done. intros. apply map_size_empty_inv. lia. Qed.

Lemma seq_inv_number p e b tr :
  seq_inv b tr → b.(pubs) !! p = None → size (Publish_number p e b).(pubs) ≤ 1 →
  (0 <= (Publish_number p e b).(seq))%Z → seq_inv (Publish_number p e b) tr.
Proof.
  intros [Hsz Hr Hs He Hp] Hnone. unfold Publish_number. destruct (b.(closed)); [done|].
  assert (0 <= int64_wrap (b.(seq) + 1) → int64_wrap (b.(seq) + 1) = b.(seq) + 1)%Z as Hwrap.
  { intros H0. destruct (decide (b.(seq) = int64_max)) as [Hm|Hm]; [by rewrite Hm in H0|].
    apply int64_wrap_id. unfold int64_min, int64_max in *. lia. }
  destruct (b.(typeSubs) !! _) as [subs|].
  - cbn. intros Hsz' H0. specialize (Hwrap H0).
    pose proof (int64_wrap_bounds (b.(seq) + 1)) as [_ Hmax].
    assert (b.(pubs) = ∅) as Hemp by (by apply (size_insert_le1 _ p) in Hsz').
    split; cbn; try done.
    + intros ch e' He'. specialize (He ch e' He'). lia.
    + intros p' st. change (partial_alter _ p b.(pubs)) with (<[p := PNumbered
        (WithSequence e (int64_wrap (b.(seq) + 1)))]> b.(pubs)).
      rewrite Hemp, lookup_insert_Some. intros [[<- <-]|[_ ?]]; [|by simplify_map_eq].
      cbn. split; [lia|]. intros ch e' He'. specialize (He ch e' He'). lia.
  - cbn. intros _ H0. specialize (Hwrap H0). pose proof (int64_wrap_bounds (b.(seq) + 1)) as [_ Hmax].
    split; cbn; try done.
    + intros ch e' He'. specialize (He ch e' He'). lia.
    + intros p' st Hl. destruct (Hp p' st Hl). split; [lia|done].
Qed.

Lemma seq_inv_send p e ch q b tr :
  seq_inv b tr → b.(pubs) !! p = Some (PSending e ch) →
  seq_inv (Publish_send p e ch q b) (tr ++ if accepts q then [LSend ch e] else []).
Proof.
  intros [Hsz Hr Hs He Hp] Hl. destruct (Hp _ _ Hl) as [Hle Hlt]. cbn in Hle, Hlt.
  assert ((Publish_send p e ch q b).(pubs) = ∅) as Hemp.
  { unfold Publish_send. apply map_size_empty_inv.
    transitivity (size (delete p b.(pubs))); [by destruct (accepts q)|].
    rewrite map_size_delete, Hl. cbn. lia. }
  assert ((Publish_send p e ch q b).(seq) = b.(seq)) as Hseq.
  { unfold Publish_send. by destruct (accepts q). }
  assert (∀ ch', sent ch' (tr ++ if accepts q then [LSend ch e] else []) =
    sent ch' tr ++ if decide (ch = ch') then (if accepts q then [e] else []) else []) as Hsent.
  { intros ch'. autorewrite with bus. f_equal. destruct (accepts q); cbn; by case_decide. }
  split; rewrite ?Hemp, ?Hseq; try done.
  - rewrite map_size_empty. lia.
  - intros ch'. rewrite Hsent. case_decide; [subst ch'|by rewrite app_nil_r].
    destruct (accepts q); [|by rewrite app_nil_r]. rewrite fmap_app. cbn.
    apply StronglySorted_snoc; [done|]. apply Forall_fmap, Forall_forall. intros x Hx. by apply (Hlt ch).
  - intros ch' e'. rewrite Hsent, elem_of_app. intros [Hin|Hin]; [by eapply He|].
    case_decide; [|by apply elem_of_nil in Hin].
    destruct (accepts q); [|by apply elem_of_nil in Hin].
    by apply list_elem_of_singleton in Hin as ->.
Qed.

Lemma seq_inv_step b l b' tr :
  seq_inv b tr → bus_step b l b' → size b'.(pubs) ≤ 1 → (0 <= b'.(seq))%Z → seq_inv b' (tr ++ l).
Proof.
  intros Hinv Hstep Hsz H0.
  destruct Hstep as [b p e Hp|b p e Hp|b p e ch q Hp Hl|b t h|b t h|b ch q e rest Hl Hw Hb
    |b ch q e Hl Hw|b ch q e h hs Hl Hw|b ch q Hl Hw Hb Hc|b|b Hc|b Hs|b Hq Hs Hd];
    try (eapply seq_inv_frame; [done..|]; intros p' st Hl'; by exists st).
  - rewrite app_nil_r. by apply seq_inv_number.
  - assert (∃ o, (Publish_queue p e b).(pubs) = partial_alter (λ _, o) p b.(pubs) ∧
      (Publish_queue p e b).(seq) = b.(seq) ∧ (∀ st, o = Some st → pub_event st = e)) as (o & Ho & Hs & He).
    { unfold Publish_queue. repeat case_match; eexists; split_and!; try done; by intros st [= <-]. }
    eapply seq_inv_frame; try done. intros p' st. rewrite Ho.
    destruct (decide (p = p')) as [<-|Hne].
    + rewrite lookup_partial_alter_eq. intros ->. eexists. split; [done|]. by rewrite (He st).
    + rewrite lookup_partial_alter_ne by done. eauto.
  - by apply seq_inv_send.
  - eapply seq_inv_frame; try done; unfold Unsubscribe; case_match; try done; eauto.
Qed.

Lemma seq_inv_run tr b : seq_run NewEventBus tr b → seq_inv b tr ∧ bus_run NewEventBus tr b.
Proof.
  remember NewEventBus as b0 eqn:E. induction 1; subst.
  - split; [|constructor]. split; cbn; try done.
    + rewrite map_size_empty. lia.
    + intros ch. constructor.
    + by intros ch e ?%elem_of_nil.
  - destruct (IHseq_run eq_refl) as [Hi Hr]. split; [|by econstructor].
    by eapply seq_inv_step.
Qed.

(** ** Close *)

(** [Close] has passed its third section: no queue is open to publishers. *)
Definition bus_shut (b : EventBusImpl) : Prop := b.(stopped) = true ∧ b.(queues) = ∅.

Lemma shut_closed b tr ch q :
  bus_inv b tr → bus_shut b → b.(chans) !! ch = Some q → q.(q_closed) = true.
Proof.
  intros Hinv [_ Hq] Hl. destruct (q.(q_closed)) eqn:E; [done|].
  pose proof (ci_open _ _ _ _ (bi_chan _ _ Hinv _ _ Hl) E) as H. by rewrite Hq in H.
Qed.

Lemma set_chan_shut ch q b : bus_shut b → bus_shut (set_chan ch q b).
Proof. done. Qed.

Lemma shut_done_step b l b' tr :
  bus_inv b tr → bus_shut b → all_done b → bus_step b l b' → l = [] ∧ bus_shut b' ∧ all_done b'.
Proof.
  intros Hinv Hsh Hdone Hstep.
  pose proof (shut_closed b tr) as Hcl.
  destruct Hstep as [b p e Hp|b p e Hp|b p e ch q Hp Hl|b t h|b t h|b ch q e rest Hl Hw Hb
    |b ch q e Hl Hw|b ch q e h hs Hl Hw|b ch q Hl Hw Hb Hc|b|b Hc|b Hs|b Hq Hs Hd];
    try (rewrite (Hdone _ _ Hl) in Hw; done); try done.
  - unfold Publish_number. by repeat case_match.
  - unfold Publish_queue. destruct Hsh as [Hs Hq]. by rewrite Hq, lookup_empty, Hs.
  - unfold Publish_send. assert (accepts q = false) as ->; [|done].
    unfold accepts. by rewrite (Hcl _ _ Hinv Hsh Hl).
  - unfold Unsubscribe. by case_match.
  - destruct Hsh as [_ ?]. by split_and!.
  - split; [done|]. split; [by destruct Hsh|]. intros ch q Hl. cbn in Hl.
    rewrite map_lookup_imap in Hl. apply bind_Some in Hl as (q0 & Hl & [= <-]).
    pose proof (Hdone _ _ Hl). by case_decide.
Qed.

Lemma bus_run_trans b1 t1 b2 t2 b3 : bus_run b1 t1 b2 → bus_run b2 t2 b3 → bus_run b1 (t1 ++ t2) b3.
Proof.
  intros H1 H2. induction H2; [by rewrite app_nil_r|]. rewrite app_assoc. econstructor; [|done].
  by apply IHbus_run.
Qed.

Lemma bus_run_one b l b' : bus_step b l b' → bus_run b l b'.
Proof. intros H. change l with ([] ++ l). econstructor; [constructor|done]. Qed.

Lemma set_chan_twice ch q q' b : set_chan ch q (set_chan ch q' b) = set_chan ch q b.
Proof. unfold set_chan. cbn. by rewrite insert_insert_eq. Qed.

(** A worker gets through the handlers it holds. *)
Lemma drain_handlers b ch q e hs :
  b.(chans) !! ch = Some q → q.(q_worker) = after_handlers e hs →
  ∃ tr, bus_run b tr (set_chan ch (set_worker WIdle q) b).
Proof.
  revert b q. induction hs as [|h hs IH]; intros b q Hl Hw.
  - exists []. assert (set_worker WIdle q = q) as -> by (destruct q; cbn in *; by subst).
    assert (set_chan ch q b = b) as ->; [|constructor].
    destruct b. unfold set_chan. cbn in *. f_equal. by apply insert_id.
  - destruct (IH (worker_handle ch q e hs b) (set_worker (after_handlers e hs) q)) as [tr Hr];
      [by cbn; rewrite lookup_insert_eq|done|].
    unfold worker_handle in Hr. rewrite set_chan_twice in Hr.
    exists ([LCall ch h e] ++ tr). eapply bus_run_trans; [|exact Hr]. apply bus_run_one.
    by eapply StepHandle.
Qed.

(** An idle worker of a closed channel gets through its buffer and returns. *)
Lemma drain_idle b ch q :
  b.(chans) !! ch = Some q → q.(q_worker) = WIdle → q.(q_closed) = true →
  ∃ tr, bus_run b tr (set_chan ch (set_worker WDone (set_buf [] q)) b).
Proof.
  remember (q.(q_buf)) as l eqn:Hbuf. revert b q Hbuf.
  induction l as [|e l IH]; intros b q Hbuf Hl Hw Hc.
  - exists []. assert (set_buf [] q = q) as -> by (destruct q; cbn in *; by subst).
    apply bus_run_one. by eapply StepExit.
  - set (q1 := set_worker (WReceived e) (set_buf l q)).
    set (q2 := set_worker (after_handlers e (default [] (b.(typeSubs) !! q.(q_type)))) q1).
    assert (bus_run b [LRecv ch e] (set_chan ch q1 b)) as H1 by (by apply bus_run_one; eapply StepReceive).
    assert (bus_run (set_chan ch q1 b) [] (set_chan ch q2 (set_chan ch q1 b))) as H2.
    { apply bus_run_one. apply (StepCopy (set_chan ch q1 b) ch q1 e); [|done]. cbn. by rewrite lookup_insert_eq. }
    rewrite set_chan_twice in H2.
    destruct (drain_handlers (set_chan ch q2 b) ch q2 e (default [] (b.(typeSubs) !! q.(q_type))))
      as [t3 H3]; [by cbn; rewrite lookup_insert_eq|done|]. rewrite set_chan_twice in H3.
    destruct (IH (set_chan ch (set_worker WIdle q2) b) (set_worker WIdle q2)) as [t4 H4];
      [done|by cbn; rewrite lookup_insert_eq|done|done|]. rewrite set_chan_twice in H4.
    eexists. eapply bus_run_trans; [exact H1|]. eapply bus_run_trans; [exact H2|].
    eapply bus_run_trans; [exact H3|exact H4].
Qed.

Lemma drain_chan b ch q r :
  b.(chans) !! ch = Some q → q.(q_closed) = true → worker_at q.(q_worker) r →
  ∃ tr q', q'.(q_worker) = WDone ∧ q'.(q_closed) = true ∧ bus_run b tr (set_chan ch q' b).
Proof.
  intros Hl Hc Hat.
  assert (∀ e hs, q.(q_worker) = after_handlers e hs →
    ∃ tr q', q'.(q_worker) = WDone ∧ q'.(q_closed) = true ∧ bus_run b tr (set_chan ch q' b)) as Hhs.
  { intros e hs Hw. destruct (drain_handlers b ch q e hs Hl Hw) as [t3 H3].
    destruct (drain_idle (set_chan ch (set_worker WIdle q) b) ch (set_worker WIdle q)) as [t4 H4];
      [by cbn; rewrite lookup_insert_eq|done|done|]. rewrite set_chan_twice in H4.
    do 2 eexists. split_and!; [..|eapply bus_run_trans; [exact H3|exact H4]]; done. }
  destruct (q.(q_worker)) as [|e|e hs|] eqn:Hw.
  - by apply (Hhs inhabitant []).
  - set (q2 := set_worker (after_handlers e (default [] (b.(typeSubs) !! q.(q_type)))) q).
    assert (bus_run b [] (set_chan ch q2 b)) as H2 by (by apply bus_run_one; eapply StepCopy).
    destruct (drain_handlers (set_chan ch q2 b) ch q2 e (default [] (b.(typeSubs) !! q.(q_type))))
      as [t3 H3]; [by cbn; rewrite lookup_insert_eq|done|]. rewrite set_chan_twice in H3.
    destruct (drain_idle (set_chan ch (set_worker WIdle q2) b) ch (set_worker WIdle q2)) as [t4 H4];
      [by cbn; rewrite lookup_insert_eq|done|done|]. rewrite set_chan_twice in H4.
    do 2 eexists. split_and!; [..|eapply bus_run_trans; [exact H2|];
      eapply bus_run_trans; [exact H3|exact H4]]; done.
  - destruct Hat as [Hne _]. apply (Hhs e hs). by destruct hs.
  - exists [], q. split_and!; try done. assert (set_chan ch q b = b) as ->; [|constructor].
    destruct b. unfold set_chan. cbn in *. f_equal. by apply insert_id.
Qed.

(** Once [Close] has shut the queues, the workers can finish. *)
Lemma shut_drains b tr :
  bus_inv b tr → bus_shut b → ∃ tr' b', bus_run b tr' b' ∧ bus_shut b' ∧ all_done b'.
Proof.
  intros Hinv Hsh.
  assert (∀ l : list nat, ∃ tr' b', bus_run b tr' b' ∧ bus_shut b' ∧ bus_inv b' (tr ++ tr') ∧
    dom b'.(chans) = dom b.(chans) ∧
    ∀ ch q, ch ∈ l → b'.(chans) !! ch = Some q → q.(q_worker) = WDone) as Hall.
  { induction l as [|ch l (t1 & b1 & Hr & Hsh1 & Hi1 & Hd1 & Hw1)].
    { exists [], b. rewrite app_nil_r. split_and!; try done; [constructor|].
      by intros ch q ?%elem_of_nil. }
    destruct (b1.(chans) !! ch) as [q|] eqn:Hl.
    2: { exists t1, b1. split_and!; try done. intros ch' q [->|Hin]%elem_of_cons; [congruence|eauto]. }
    pose proof (bi_chan _ _ Hi1 _ _ Hl) as Hci.
    destruct (drain_chan b1 ch q _ Hl (shut_closed _ _ _ _ Hi1 Hsh1 Hl) (ci_worker _ _ _ _ Hci))
      as (t2 & q' & Hq1 & Hq2 & Hr2).
    exists (t1 ++ t2), (set_chan ch q' b1). split_and!.
    - by eapply bus_run_trans.
    - done.
    - rewrite app_assoc. revert Hi1 Hr2. clear. intros Hi Hr. induction Hr; [by rewrite app_nil_r|].
      rewrite app_assoc. eapply bus_inv_step; [|done]. by apply IHHr.
    - cbn. rewrite dom_insert_lookup_L by by eexists. done.
    - intros ch' q'' Hin. cbn. rewrite lookup_insert_Some. intros [[_ <-]|[Hne Hl']]; [done|].
      apply elem_of_cons in Hin as [->|Hin]; [done|eauto]. }
  destruct (Hall (elements (dom b.(chans)))) as (t1 & b1 & Hr & Hsh1 & _ & Hd & Hw).
  exists t1, b1. split_and!; try done. intros ch q Hl. eapply Hw; [|done].
  apply elem_of_elements. rewrite <-Hd. apply elem_of_dom. eauto.
Qed.

(** ** Properties *)


(** When publishers take turns and the counter has not wrapped, the
    events of a type are sent, and so received and handled, in the order of
    their sequence numbers. *)
Theorem bus_sequential_order (tr : list label) (b : EventBusImpl) (ch : nat)
    (Hrun : seq_run NewEventBus tr b) :
  StronglySorted Z.lt (ge_Sequence <$> sent ch tr) ∧
  ∃ rest, sent ch tr = received ch tr ++ rest.
Proof.
  destruct (seq_inv_run _ _ Hrun) as [Hs Hr]. split; [by apply si_sorted with b|].
  pose proof (bus_inv_run _ _ Hr) as Hi. destruct (b.(chans) !! ch) as [q|] eqn:E.
  - exists q.(q_buf). by destruct (bi_chan _ _ Hi _ _ E).
  - exists []. by destruct (bi_new _ _ Hi _ E) as (-> & -> & _).
Qed.

(** Two publishers at once can be reordered: the sequence number is
    assigned in one critical section and the send happens after it, so a
    handler can see number 2 before number 1. *)
Theorem bus_concurrent_reorder :
  ∃ tr b ch e1 e2 h, bus_run NewEventBus tr b ∧ tr = [LSend ch e2; LSend ch e1; LRecv ch e2; LCall ch h e2] ∧
  e1.(ge_Sequence) = 1%Z ∧ e2.(ge_Sequence) = 2%Z.
Proof.
  set (ev := mkEvent "" 0 0 0 0 (mkResourceKey "proxy" "default" "x") EventAdded ANil).
  set (e1 := WithSequence ev 1). set (e2 := WithSequence ev 2). set (h := mkHandler 0 0).
  set (b1 := Subscribe "proxy" h NewEventBus).
  set (b2 := Publish_number 2 ev (Publish_number 1 ev b1)).
  set (b3 := Publish_queue 1 e1 (Publish_queue 2 e2 b2)).
  set (q0 := mkQueue "proxy" [] false WIdle). set (ch := fresh (dom (b2.(chans)))).
  set (b4 := Publish_send 2 e2 ch q0 b3). set (q1 := set_buf [e2] q0).
  set (b5 := Publish_send 1 e1 ch q1 b4). set (q2 := set_buf [e2; e1] q0).
  set (b6 := worker_receive ch q2 e2 [e1] b5). set (q3 := set_worker (WReceived e2) (set_buf [e1] q2)).
  set (b7 := worker_copy ch q3 e2 b6). set (q4 := set_worker (WHandling e2 [h]) q3).
  exists (((((((((([] ++ []) ++ []) ++ []) ++ []) ++ []) ++ [LSend ch e2]) ++ [LSend ch e1])
    ++ [LRecv ch e2]) ++ []) ++ [LCall ch h e2]), (worker_handle ch q4 e2 [] b7), ch, e1, e2, h.
  split; [|done].
  apply run_snoc with b7; [|by apply StepHandle].
  apply run_snoc with b6; [|by apply StepCopy].
  apply run_snoc with b5; [|by apply StepReceive].
  apply run_snoc with b4; [|by apply (StepSend b4 1 e1 ch q1)].
  apply run_snoc with b3; [|by apply (StepSend b3 2 e2 ch q0)].
  apply run_snoc with (Publish_queue 2 e2 b2); [|by apply StepQueue].
  apply run_snoc with b2; [|by apply StepQueue].
  apply run_snoc with (Publish_number 1 ev b1); [|by apply StepNumber].
  apply run_snoc with b1; [|by apply StepNumber].
  apply run_snoc with NewEventBus; [constructor|by apply StepSubscribe].
Qed.

(** [Close] loses no accepted event and leaks no worker: once it has
    shut the queues the workers can run to the end; when they have, every
    event sent was received; and from then on nothing is sent, received or
    handled, whatever publishers still do. *)
Theorem bus_close_drains (tr : list label) (b : EventBusImpl)
    (Hrun : bus_run NewEventBus tr b) (Hshut : bus_shut b) :
  (∃ tr' b', bus_run b tr' b' ∧ bus_shut b' ∧ all_done b') ∧
  (all_done b →
    (∀ ch, sent ch tr = received ch tr) ∧ (∀ tr' b', bus_run b tr' b' → tr' = [])).
Proof.
  pose proof (bus_inv_run _ _ Hrun) as Hi. split; [by eapply shut_drains|]. intros Hdone. split.
  - intros ch. destruct (b.(chans) !! ch) as [q|] eqn:E.
    + destruct (bi_chan _ _ Hi _ _ E) as [Hf _ _ _ _ Hd].
      destruct (Hd (Hdone _ _ E)) as [Hb _]. by rewrite Hf, Hb, app_nil_r.
    + by destruct (bi_new _ _ Hi _ E) as (-> & -> & _).
  - intros tr' b' Hr.
    assert (tr' = [] ∧ bus_shut b' ∧ all_done b' ∧ bus_inv b' tr) as (? & _); [|done].
    induction Hr as [b|b t1 b1 l b2 Hr IH Hstep]; [done|].
    destruct IH as (-> & Hs1 & Hd1 & Hi1); try done.
    destruct (shut_done_step _ _ _ _ Hi1 Hs1 Hd1 Hstep) as (-> & Hs2 & Hd2).
    split_and!; try done. rewrite <-(app_nil_r tr). by eapply bus_inv_step.
Qed.

(** *** Witnesses: one event published, handled, and the bus closed *)

Definition ex_event : GenericEvent :=
  mkEvent "" 1 0 0 0 (mkResourceKey "proxy" "default" "x") EventAdded ANil.
Definition ex_handler : EventHandler := mkHandler 0 0.
Definition ex_bus0 : EventBusImpl :=
  Publish_queue 1 ex_event (Publish_number 1 ex_event (Subscribe "proxy" ex_handler NewEventBus)).
Definition ex_queue : queue := mkQueue "proxy" [] false WIdle.
Definition ex_bus : EventBusImpl := Publish_send 1 ex_event 0 ex_queue ex_bus0.
Definition ex_trace : list label := ((([] ++ []) ++ []) ++ []) ++ [LSend 0 ex_event].

Lemma ex_seq_run : seq_run NewEventBus ex_trace ex_bus.
Proof.
  apply seq_snoc with ex_bus0; [|by apply (StepSend ex_bus0 1 ex_event 0 ex_queue)|by vm_compute; auto..].
  apply seq_snoc with (Publish_number 1 ex_event (Subscribe "proxy" ex_handler NewEventBus));
    [|by apply StepQueue|by vm_compute; auto..].
  apply seq_snoc with (Subscribe "proxy" ex_handler NewEventBus);
    [|by apply StepNumber|by vm_compute; auto..].
  apply seq_snoc with NewEventBus; [constructor|by apply StepSubscribe|by vm_compute; auto..].
Qed.

Lemma ex_bus_run : bus_run NewEventBus ex_trace ex_bus.
Proof. apply (seq_inv_run _ _ ex_seq_run). Qed.


Lemma bus_sequential_order_witness : StronglySorted Z.lt (ge_Sequence <$> sent 0 ex_trace).
Proof. exact (proj1 (bus_sequential_order ex_trace ex_bus 0 ex_seq_run)). Defined.

Definition ex_bus_shut : EventBusImpl := Close_queues (Close_stop (Close_mark ex_bus)).

Lemma bus_close_drains_witness : ∃ tr' b', bus_run ex_bus_shut tr' b' ∧ bus_shut b' ∧ all_done b'.
Proof.
  assert (bus_run NewEventBus (((ex_trace ++ []) ++ []) ++ []) ex_bus_shut) as Hrun.
  { eapply run_snoc; [|by apply StepCloseQueues]. eapply run_snoc; [|by apply StepCloseStop].
    eapply run_snoc; [apply ex_bus_run|apply StepCloseMark]. }
  exact (proj1 (bus_close_drains _ _ Hrun (conj eq_refl eq_refl))).
Defined.
