(* ===== verification/Reconcile.v ===== *)
(** * The reconcile engine (BBgrid_Server/runtime/reconcile.go)

    The engine compares the desired rows of the state store with the actual
    ones, creates what is missing and deletes what is left over through a
    provider, backs off on rows whose creation failed, and keeps the last
    hundred results.  What it calls (the clock, the store, the provider) is
    the interface [ReconcileEnv] over a world [W]; the engine's own fields are
    [ReconcileEngine]. *)

From S2P Require Import Prelude Types Proto StateStore.

(** Durations are nanoseconds. *)
Definition Second : Z := 1000000000.
Definition Minute : Z := 60 * Second.

Record ReconcileConfig := mkReconcileConfig { Interval : Z; InitialDelay : Z }.
Definition DefaultReconcileConfig : ReconcileConfig :=
  mkReconcileConfig (30 * Second) (5 * Second).

(** What the engine calls: [time.Now], the two queries of the state store for
    each kind of resource, and the [ReconcileProvider]. *)
Class ReconcileEnv (W : Type) := {
  env_now : W → Z * W;
  env_desired_proxies : W → list ProxyDesiredState;
  env_list_proxies : W → list ProxyInfo;
  env_desired_relays : W → list RelayDesiredState;
  env_list_relays : W → list RelaySession;
  CreateProxy : string → ProxyState → W → Res unit * W;
  DeleteProxy : string → Z → W → Res unit * W;
  CreateRelay : RelaySession → W → Res unit * W;
  DeleteRelay : string → W → Res unit * W;
}.

(** The counters of one kind of resource: consecutive failures and the time
    of the last one. *)
Record backoff_state := mkBackoff { failCount : gmap string Z; failTime : gmap string Z }.

Record ReconcileEngine := mkEngine {
  config : ReconcileConfig;
  triggered : bool;
  last : option ReconcileResult;
  history : list ReconcileResult;
  stopped : bool;
  proxyFail : backoff_state;
  relayFail : backoff_state;
}.

Definition NewReconcileEngine (cfg : ReconcileConfig) : ReconcileEngine :=
  mkEngine cfg false None [] false (mkBackoff ∅ ∅) (mkBackoff ∅ ∅).

(** The trigger channel holds one signal. *)
Definition Trigger (e : ReconcileEngine) : ReconcileEngine :=
  mkEngine e.(config) true e.(last) e.(history) e.(stopped) e.(proxyFail) e.(relayFail).
Definition Stop (e : ReconcileEngine) : ReconcileEngine :=
  mkEngine e.(config) e.(triggered) e.(last) e.(history) true e.(proxyFail) e.(relayFail).
Definition GetLastResult (e : ReconcileEngine) : option ReconcileResult := e.(last).
Definition GetHistory (e : ReconcileEngine) : list ReconcileResult := e.(history).

(** ** Backoff *)

Definition clear_fail (key : string) (b : backoff_state) : backoff_state :=
  mkBackoff (delete key b.(failCount)) (delete key b.(failTime)).
Definition record_fail (key : string) (now : Z) (b : backoff_state) : backoff_state :=
  mkBackoff (<[key := int64_wrap (default 0%Z (b.(failCount) !! key) + 1)]> b.(failCount))
    (<[key := now]> b.(failTime)).

(** [time.Duration(1<<uint(n-1)) * 30 * time.Second], capped at ten minutes:
    the shift and both products are on 64-bit integers. *)
Definition backoff (n : Z) : Z :=
  let d := (int64_shl 1 (n - 1) *64 30 *64 Second)%go in
  if (10 * Minute <? d)%Z then (10 * Minute)%Z else d.

(** [t.Sub(u)] saturates. *)
Definition time_Sub (t u : Z) : Z := Z.max int64_min (Z.min int64_max (t - u)).

Lemma backoff_value n :
  (1 <= n <= 29)%Z → backoff n = Z.min (30 * 2 ^ (n - 1) * Second) (10 * Minute).
Proof.
  intros Hn. assert (Forall (λ k, backoff k = Z.min (30 * 2 ^ (k - 1) * Second) (10 * Minute)) (seqZ 1 29))
    as Hall by (apply (bool_decide_eq_true_1 (Forall _ _)); by vm_compute).
  rewrite Forall_forall in Hall. apply Hall, elem_of_seqZ. lia.
Qed.

Lemma backoff_zero n : (65 <= n)%Z → backoff n = 0%Z.
Proof.
  intros Hn. unfold backoff. assert (int64_shl 1 (n - 1) = 0)%Z as ->; [|by vm_compute].
  unfold int64_shl, int64_wrap, wrap_signed. rewrite Z.shiftl_1_l.
  replace (n - 1)%Z with (64 + (n - 65))%Z by lia. rewrite Z.pow_add_r by lia.
  rewrite Z.add_comm, Z.mul_comm, Z.mod_add by lia. done.
Qed.

Lemma tail_drop {A} n (l : list A) : tail (drop n l) = drop (S n) l.
Proof. revert n. induction l as [|x l IH]; intros [|n]; cbn; try done. Qed.

Section engine.
Context {W : Type} `{ReconcileEnv W}.

(** ** The two loops of a pass

    [counts] are the named results total, fixed and failed. *)
Record counts := mkCounts { total : Z; fixed : Z; failed : Z }.
Definition count_total (c : counts) : counts := mkCounts (c.(total) + 1) c.(fixed) c.(failed).
Definition count_result {A} (r : Res A) (c : counts) : counts :=
  if is_ok r then mkCounts c.(total) (c.(fixed) + 1) c.(failed)
  else mkCounts c.(total) c.(fixed) (c.(failed) + 1).

(** A failure is recent: [time.Since(failTime) < backoff], the clock being
    read only when there was a failure. *)
Definition in_backoff (key : string) (b : backoff_state) (w : W) : bool * W :=
  let n := default 0%Z (b.(failCount) !! key) in
  if (0 <? n)%Z then
    let '(now, w) := env_now w in
    ((time_Sub now (default 0%Z (b.(failTime) !! key)) <? backoff n)%Z, w)
  else (false, w).

(** One iteration of the creating loop, for a row with the given key. *)
Definition create_row {A} (key : A → string) (create : A → W → Res unit * W)
    (actualSet : gset string) (st : counts * backoff_state * W) (d : A) : counts * backoff_state * W :=
  let '(c, b, w) := st in
  if decide (key d ∈ actualSet) then (c, clear_fail (key d) b, w)
  else
    let c := count_total c in
    let '(skip, w) := in_backoff (key d) b w in
    if skip then (c, b, w)
    else
      let '(r, w) := create d w in
      if is_ok r then (count_result r c, clear_fail (key d) b, w)
      else
        let '(now, w) := env_now w in
        (count_result r c, record_fail (key d) now b, w).

(** One iteration of the deleting loop. *)
Definition delete_row {A} (key : A → string) (remove : A → W → Res unit * W)
    (desiredSet : gset string) (st : counts * W) (a : A) : counts * W :=
  let '(c, w) := st in
  if decide (key a ∈ desiredSet) then (c, w)
  else
    let c := count_total c in
    let '(r, w) := remove a w in
    (count_result r c, w).

Definition reconcile_rows {D A} (dkey : D → string) (akey : A → string)
    (create : D → W → Res unit * W) (remove : A → W → Res unit * W)
    (desired : list D) (actual : list A) (b : backoff_state) (w : W) : counts * backoff_state * W :=
  let desiredSet := list_to_set (dkey <$> desired) : gset string in
  let actualSet := list_to_set (akey <$> actual) : gset string in
  let '(c, b, w) := foldl (create_row dkey create actualSet) (mkCounts 0 0 0, b, w) desired in
  let '(c, w) := foldl (delete_row akey remove desiredSet) (c, w) actual in
  (c, b, w).

Definition reconcileProxies (b : backoff_state) (w : W) : counts * backoff_state * W :=
  reconcile_rows (λ d, proxyKey d.(pd_ClientID) d.(pd_RemotePort))
    (λ a, proxyKey a.(pi_ClientID) a.(pi_RemotePort))
    (λ d, CreateProxy d.(pd_ClientID) (proxy_actual d))
    (λ a, DeleteProxy a.(pi_ClientID) a.(pi_RemotePort))
    (env_desired_proxies w) (env_list_proxies w) b w.

(** The session rebuilt from a desired row: its token is not copied. *)
Definition session_of_desired (d : RelayDesiredState) : RelaySession :=
  mkRelaySession d.(rd_ID) d.(rd_SourceClient) d.(rd_TargetClient) d.(rd_Protocol)
    d.(rd_SourcePort) d.(rd_TargetPort) d.(rd_TargetLocalIP) d.(rd_SourceLocalIP) "" 0 "" "".

Definition reconcileRelays (b : backoff_state) (w : W) : counts * backoff_state * W :=
  reconcile_rows rd_ID rs_ID (λ d, CreateRelay (session_of_desired d)) (λ a, DeleteRelay a.(rs_ID))
    (env_desired_relays w) (env_list_relays w) b w.

(** ** A pass *)

Definition push_history (r : ReconcileResult) (h : list ReconcileResult) : list ReconcileResult :=
  let h := h ++ [r] in
  if decide (100 < length h) then tail h else h.

Definition doReconcile (e : ReconcileEngine) (w : W) : ReconcileEngine * W :=
  let '(start, w) := env_now w in
  let '(cp, bp, w) := reconcileProxies e.(proxyFail) w in
  let '(cr, br, w) := reconcileRelays e.(relayFail) w in
  let '(stop, w) := env_now w in
  let result := mkReconcileResult start cp.(total) cp.(fixed) cp.(failed)
                  cr.(total) cr.(fixed) cr.(failed) (time_Sub stop start) in
  (mkEngine e.(config) e.(triggered) (Some result) (push_history result e.(history))
     e.(stopped) bp br, w).

(** ** The loop

    [Run] waits for the initial delay, reconciles, then waits for the ticker,
    a trigger or the stop signal; a [select] with several ready cases may take
    any.  [RunReturned] is the end. *)
Inductive run_state := RunDelay | RunLoop | RunReturned.
Inductive run_event := EvDelayElapsed | EvTick | EvTrigger | EvStop.

Definition untrigger (e : ReconcileEngine) : ReconcileEngine :=
  mkEngine e.(config) false e.(last) e.(history) e.(stopped) e.(proxyFail) e.(relayFail).

Definition Run_step (ev : run_event) (st : run_state * ReconcileEngine * W) :
    option (run_state * ReconcileEngine * W) :=
  let '(rs, e, w) := st in
  match rs, ev with
  | RunDelay, EvDelayElapsed | RunLoop, EvTick => let '(e, w) := doReconcile e w in Some (RunLoop, e, w)
  | RunLoop, EvTrigger =>
      if e.(triggered) then let '(e, w) := doReconcile (untrigger e) w in Some (RunLoop, e, w)
      else None
  | RunDelay, EvStop | RunLoop, EvStop => if e.(stopped) then Some (RunReturned, e, w) else None
  | _, _ => None
  end.

(** ** Counting *)

(** [n] rows have been looked at as missing or left over. *)
Definition counts_ok (n : nat) (c : counts) : Prop :=
  c.(total) = Z.of_nat n ∧ (0 <= c.(fixed) ∧ 0 <= c.(failed) ∧ c.(fixed) + c.(failed) <= c.(total))%Z.

Lemma create_row_counts {A} (key : A → string) create S n c b w d :
  counts_ok n c →
  counts_ok (n + if decide (key d ∈ S) then 0 else 1) (create_row key create S (c, b, w) d).1.1.
Proof.
  intros (Ht & Hf). unfold create_row, counts_ok. destruct (decide (key d ∈ S)).
  { cbn. rewrite Nat.add_0_r. done. }
  destruct (in_backoff _ _ _) as [[] w1]; [cbn; lia|].
  destruct (create d w1) as [[[]|e] w2]; cbn; [lia|]. destruct (env_now w2). cbn. lia.
Qed.

Lemma create_rows_counts {A} (key : A → string) create S l n c b w :
  counts_ok n c →
  counts_ok (n + length (filter (λ d, key d ∉ S) l)) (foldl (create_row key create S) (c, b, w) l).1.1.
Proof.
  revert n c b w. induction l as [|d l IH]; intros n c b w Hc; [by rewrite Nat.add_0_r|]. cbn [foldl].
  pose proof (create_row_counts key create S n c b w d Hc) as Hd.
  destruct (create_row key create S (c, b, w) d) as [[c' b'] w']. specialize (IH _ _ b' w' Hd).
  rewrite filter_cons. destruct (decide (key d ∈ S)), (decide (key d ∉ S)); try done.
  - by rewrite Nat.add_0_r in IH.
  - cbn. by rewrite <-Nat.add_assoc in IH.
Qed.

Lemma delete_rows_counts {A} (key : A → string) remove S l n c w :
  counts_ok n c →
  counts_ok (n + length (filter (λ a, key a ∉ S) l)) (foldl (delete_row key remove S) (c, w) l).1.
Proof.
  revert n c w. induction l as [|a l IH]; intros n c w Hc; [by rewrite Nat.add_0_r|]. cbn [foldl].
  rewrite filter_cons. destruct (delete_row key remove S (c, w) a) as [c' w'] eqn:E.
  unfold delete_row in E. destruct (decide (key a ∈ S)), (decide (key a ∉ S)); try done.
  - injection E as <- <-. by apply IH.
  - destruct (remove a w) as [r w1]. injection E as <- <-. cbn [length]. rewrite <-Nat.add_succ_comm.
    apply IH. destruct Hc as (Ht & Hf). unfold counts_ok, count_result. destruct (is_ok r); cbn; lia.
Qed.

Lemma reconcile_rows_counts {D A} (dkey : D → string) (akey : A → string) create remove ds l b w :
  counts_ok
    (length (filter (λ d, dkey d ∉ (list_to_set (akey <$> l) : gset string)) ds) +
     length (filter (λ a, akey a ∉ (list_to_set (dkey <$> ds) : gset string)) l))
    (reconcile_rows dkey akey create remove ds l b w).1.1.
Proof.
  unfold reconcile_rows.
  pose proof (create_rows_counts dkey create (list_to_set (akey <$> l)) ds 0 (mkCounts 0 0 0) b w) as Hc.
  destruct (foldl _ _ ds) as [[c b'] w']. cbn in Hc.
  assert (counts_ok (0 + length (filter (λ d, dkey d ∉ (list_to_set (akey <$> l) : gset string)) ds)) c)
    as Hc' by (apply Hc; unfold counts_ok; cbn; lia).
  pose proof (delete_rows_counts akey remove (list_to_set (dkey <$> ds)) l _ c w' Hc') as Hd.
  by destruct (foldl _ _ l) as [c'' w''].
Qed.

(** ** A pass with nothing to do *)

Lemma create_rows_idle {A} (key : A → string) create S l c b w :
  Forall (λ d, key d ∈ S) l →
  foldl (create_row key create S) (c, b, w) l = (c, foldr (λ d, clear_fail (key d)) b (reverse l), w).
Proof.
  intros Hl. revert b. induction Hl as [|d l Hd _ IH]; intros b; [done|]. cbn [foldl].
  assert (create_row key create S (c, b, w) d = (c, clear_fail (key d) b, w)) as ->
    by (unfold create_row; by rewrite decide_True).
  rewrite IH, reverse_cons, foldr_app. done.
Qed.

Lemma delete_rows_idle {A} (key : A → string) remove S l c w :
  Forall (λ a, key a ∈ S) l → foldl (delete_row key remove S) (c, w) l = (c, w).
Proof.
  intros Hl. induction Hl as [|a l Ha _ IH]; [done|]. cbn [foldl].
  assert (delete_row key remove S (c, w) a = (c, w)) as -> by (unfold delete_row; by rewrite decide_True).
  done.
Qed.

Lemma reconcile_rows_idle {D A} (dkey : D → string) (akey : A → string) create remove ds l b w :
  (list_to_set (dkey <$> ds) : gset string) = list_to_set (akey <$> l) →
  ∃ b', reconcile_rows dkey akey create remove ds l b w = (mkCounts 0 0 0, b', w) ∧
    ∀ d, d ∈ ds → b'.(failCount) !! dkey d = None.
Proof.
  intros Heq. unfold reconcile_rows. rewrite create_rows_idle.
  - rewrite delete_rows_idle.
    + eexists. split; [done|]. intros d Hd. apply elem_of_reverse in Hd. revert Hd.
      generalize (reverse ds). intros l'. induction l' as [|x l' IH]; [by intros ?%elem_of_nil|].
      intros [->|Hd]%elem_of_cons; cbn; [by rewrite lookup_delete_eq|].
      apply lookup_delete_None. right. by apply IH.
    + rewrite Heq. apply Forall_forall. intros a Ha. apply elem_of_list_to_set, list_elem_of_fmap. eauto.
  - rewrite <-Heq. apply Forall_forall. intros d Hd. apply elem_of_list_to_set, list_elem_of_fmap. eauto.
Qed.

(** ** Passes in a row *)

Fixpoint passes (n : nat) (e : ReconcileEngine) (w : W) : ReconcileEngine * W * list ReconcileResult :=
  match n with
  | O => (e, w, [])
  | S n' =>
      let '(e, w, rs) := passes n' e w in
      let '(e, w) := doReconcile e w in
      (e, w, rs ++ option_list e.(last))
  end.

Lemma doReconcile_last e w :
  ∃ r, (doReconcile e w).1.(last) = Some r ∧
       (doReconcile e w).1.(history) = push_history r e.(history).
Proof.
  unfold doReconcile. destruct (env_now w) as [start w1].
  destruct (reconcileProxies _ w1) as [[cp bp] w2]. destruct (reconcileRelays _ w2) as [[cr br] w3].
  destruct (env_now w3) as [stop w4]. by eexists.
Qed.

Lemma push_history_drop r l :
  push_history r (drop (length l - 100) l) = drop (S (length l) - 100) (l ++ [r]).
Proof.
  unfold push_history. rewrite length_app, length_drop. cbn [length].
  destruct (decide (100 ≤ length l)) as [Hl|Hl].
  - rewrite decide_True by lia. rewrite Nat.sub_succ_l by lia.
    rewrite <-drop_app_le by lia. by rewrite tail_drop.
  - rewrite decide_False by lia.
    replace (length l - 100) with 0 by lia. replace (S (length l) - 100) with 0 by lia. done.
Qed.

(** ** Properties *)

(** The counters of a pass are exact: the total is the number of desired
    rows that are not actual plus the number of actual rows that are not
    desired, and what was fixed or failed is part of it. *)
Theorem reconcile_counts_exact (b : backoff_state) (w : W) :
  counts_ok
    (length (filter (λ d, proxyKey d.(pd_ClientID) d.(pd_RemotePort) ∉ (list_to_set
       ((λ a, proxyKey a.(pi_ClientID) a.(pi_RemotePort)) <$> env_list_proxies w) : gset string))
       (env_desired_proxies w)) +
     length (filter (λ a, proxyKey a.(pi_ClientID) a.(pi_RemotePort) ∉ (list_to_set
       ((λ d, proxyKey d.(pd_ClientID) d.(pd_RemotePort)) <$> env_desired_proxies w) : gset string))
       (env_list_proxies w)))
    (reconcileProxies b w).1.1 ∧
  counts_ok
    (length (filter (λ d, d.(rd_ID) ∉ (list_to_set (rs_ID <$> env_list_relays w) : gset string))
       (env_desired_relays w)) +
     length (filter (λ a, a.(rs_ID) ∉ (list_to_set (rd_ID <$> env_desired_relays w) : gset string))
       (env_list_relays w)))
    (reconcileRelays b w).1.1.
Proof. split; apply reconcile_rows_counts. Qed.

(** The history is the results of the last hundred passes in order, and
    [GetLastResult] the newest of them. *)
Theorem history_last_hundred (n : nat) (cfg : ReconcileConfig) (w : W) :
  let '(e, _, results) := passes n (NewReconcileEngine cfg) w in
  length results = n ∧ GetHistory e = drop (n - 100) results ∧ GetLastResult e = list.last results.
Proof.
  induction n as [|n IH]; [done|]. cbn [passes].
  destruct (passes n _ w) as [[e w'] rs]. destruct IH as (Hlen & Hh & _).
  destruct (doReconcile_last e w') as (r & Hr & Hp).
  destruct (doReconcile e w') as [e' w'']. cbn in Hr, Hp. unfold GetHistory, GetLastResult in *.
  rewrite Hr, Hp, Hh. change (option_list (Some r)) with [r]. rewrite length_app, last_snoc, <-Hlen. cbn.
  split_and!; [lia| |done]. apply push_history_drop.
Qed.

(** A row whose last [n] attempts failed, [n] at most 29, is skipped
    exactly while the time since the last failure is under
    [30 * 2^(n-1)] seconds, at most ten minutes; a row that did not fail is
    never skipped. *)
Theorem in_backoff_spec (key : string) (b : backoff_state) (w : W) (n t : Z)
    (Hn : b.(failCount) !! key = Some n) (Ht : b.(failTime) !! key = Some t) (Hr : (0 <= n <= 29)%Z) :
  (in_backoff key b w).1 = true ↔
  (0 < n)%Z ∧ (time_Sub (env_now w).1 t < Z.min (30 * 2 ^ (n - 1) * Second) (10 * Minute))%Z.
Proof.
  unfold in_backoff. rewrite Hn, Ht. cbn [from_option id].
  destruct (decide (0 < n)%Z) as [Hpos|Hpos].
  - rewrite (proj2 (Z.ltb_lt _ _) Hpos). destruct (env_now w) as [now w']. cbn [fst].
    rewrite backoff_value by lia. rewrite Z.ltb_lt. tauto.
  - rewrite (proj2 (Z.ltb_ge _ _)) by lia. cbn. split; [done|lia].
Qed.

(** The backoff wraps around: after 30 failures, and for good after 65,
    the wait is not positive and the row is tried again in every pass. *)
Theorem in_backoff_overflow (key : string) (b : backoff_state) (w : W) (n t : Z)
    (Hn : b.(failCount) !! key = Some n) (Ht : b.(failTime) !! key = Some t)
    (Hr : n = 30%Z ∨ (65 <= n)%Z) (Hnow : (t <= (env_now w).1)%Z) :
  (in_backoff key b w).1 = false.
Proof.
  unfold in_backoff. rewrite Hn, Ht. cbn [from_option id].
  rewrite (proj2 (Z.ltb_lt 0 n)) by lia. destruct (env_now w) as [now w']. cbn [fst] in *.
  apply Z.ltb_ge. unfold time_Sub, int64_min, int64_max.
  assert (backoff n <= 0)%Z; [|lia]. destruct Hr as [->|Hr]; [by vm_compute|].
  by rewrite backoff_zero.
Qed.
End engine.

(** *** Witness: a row that failed thirty times *)

(** A world that is only a clock, with an empty store and a provider that
    always fails. *)
#[export] Instance clock_env : ReconcileEnv Z := {|
  env_now w := (w, w);
  env_desired_proxies _ := [mkProxyDesired "dev" 8080 80 "127.0.0.1" "tcp" ""];
  env_list_proxies _ := [];
  env_desired_relays _ := [];
  env_list_relays _ := [];
  CreateProxy _ _ w := (Err "listen failed", w + Second)%Z;
  DeleteProxy _ _ w := (Ok tt, w);
  CreateRelay _ w := (Ok tt, w);
  DeleteRelay _ w := (Ok tt, w);
|}.

Definition ex_backoff (n : Z) : backoff_state :=
  mkBackoff {["dev:8080" := n]} {["dev:8080" := 1000%Z]}.

Lemma in_backoff_spec_witness : (in_backoff "dev:8080" (ex_backoff 3) (100 * Second)%Z).1 = true.
Proof.
  assert (0 <= 3 <= 29)%Z as Hr by lia.
  apply (proj2 (in_backoff_spec "dev:8080" (ex_backoff 3) (100 * Second)%Z 3 1000
    eq_refl eq_refl Hr)). split; [lia|]. by vm_compute.
Defined.

Lemma in_backoff_overflow_witness :
  (in_backoff "dev:8080" (ex_backoff 30) 2000%Z).1 = false ∧
  (in_backoff "dev:8080" (ex_backoff 29) 2000%Z).1 = true.
Proof.
  split; [|by vm_compute]. assert (1000 <= 2000)%Z as Hnow by lia.
  exact (in_backoff_overflow "dev:8080" (ex_backoff 30) 2000%Z 30 1000 eq_refl eq_refl
    (or_introl eq_refl) Hnow).
Defined.
