(* ===== verification/Disk.v ===== *)
(** * Files, directories and JSON text (what common/store uses of os and encoding/json)

    A directory is a map from base names to contents.  [JsonCodec] states what
    the stores rely on of [encoding/json]; the concrete [toy_codec] shows that
    the laws can hold.  [atomic_write] is the sequence of calls
    [MetaStore.saveType] and [SnapshotStore.Save] share: write a temporary
    file, open and sync it, rename it over the target. *)

From S2P Require Import Prelude.

Abbreviation directory := (gmap string bytes).

(** ** Names *)

Definition has_suffix (suf s : string) : bool :=
  bool_decide (String.length suf ≤ String.length s) &&
  bool_decide (String.substring (String.length s - String.length suf) (String.length suf) s = suf).

Lemma substring_all s : String.substring 0 (String.length s) s = s.
Proof. induction s as [|c s IH]; [done|]. cbn. by f_equal. Qed.

Lemma substring_app a b : String.substring (String.length a) (String.length b) (a +:+ b) = b.
Proof.
  induction a as [|c a IH]; autorewrite with strings; cbn; [apply substring_all|]. apply IH.
Qed.

Lemma has_suffix_app suf a : has_suffix suf (a +:+ suf) = true.
Proof.
  unfold has_suffix. rewrite string_length_app.
  rewrite bool_decide_eq_true_2 by lia. cbn.
  replace (String.length a + String.length suf - String.length suf) with (String.length a) by lia.
  rewrite substring_app. by apply bool_decide_eq_true_2.
Qed.

(** Byte-wise comparison of strings, [a <= b]. *)
Fixpoint str_leb (a b : string) : bool :=
  match a, b with
  | "", _ => true
  | _, "" => false
  | String x a', String y b' =>
      (Z_of_byte x <? Z_of_byte y)%Z || (bool_decide (x = y) && str_leb a' b')
  end.
Definition str_le (a b : string) : Prop := str_leb a b = true.
#[export] Instance str_le_dec a b : Decision (str_le a b).
Proof. unfold str_le. apply _. Defined.

Lemma Z_of_byte_inj x y : Z_of_byte x = Z_of_byte y → x = y.
Proof. intros H. rewrite <-(byte_of_Z_of_byte x), <-(byte_of_Z_of_byte y). by rewrite H. Qed.

Lemma str_le_cons x a y b :
  str_le (String x a) (String y b) ↔ (Z_of_byte x < Z_of_byte y)%Z ∨ (x = y ∧ str_le a b).
Proof. unfold str_le. cbn. rewrite orb_true_iff, andb_true_iff, Z.ltb_lt, bool_decide_eq_true. done. Qed.

#[export] Instance str_le_trans : Transitive str_le.
Proof.
  intros a. induction a as [|x a IH]; intros [|y b] [|z c]; try done.
  rewrite !str_le_cons. intros [H1|[<- H1]] [H2|[<- H2]]; try (left; lia).
  right. split; [done|]. by eapply IH.
Qed.
#[export] Instance str_le_total : Total str_le.
Proof.
  intros a. induction a as [|x a IH]; intros [|y b]; [by left..|by right|].
  rewrite !str_le_cons. destruct (Z.lt_trichotomy (Z_of_byte x) (Z_of_byte y)) as [H|[H|H]];
    [tauto| |tauto]. apply Z_of_byte_inj in H as ->. destruct (IH b); tauto.
Qed.
#[export] Instance str_le_refl : Reflexive str_le.
Proof. intros a. by destruct (total str_le a a). Qed.
#[export] Instance str_le_antisymm : AntiSymm (=) str_le.
Proof.
  intros a. induction a as [|x a IH]; intros [|y b]; try done.
  rewrite !str_le_cons. intros [H1|[-> H1]] [H2|[Heq H2]]; subst; try lia. f_equal. by apply IH.
Qed.

(** [filepath.Glob(dir/*suf)]: the matching names in lexical order. *)
Definition Glob (suf : string) (d : directory) : list string :=
  merge_sort str_le (filter (λ n, has_suffix suf n = true) (map_to_list d).*1).

Lemma elem_of_Glob suf d n : n ∈ Glob suf d ↔ has_suffix suf n = true ∧ is_Some (d !! n).
Proof.
  unfold Glob. rewrite merge_sort_Permutation, list_elem_of_filter, list_elem_of_fmap.
  split; intros [Hs Hd]; (split; [done|]).
  - destruct Hd as ([k v] & -> & Hk). apply elem_of_map_to_list in Hk. by exists v.
  - destruct Hd as [v Hv]. exists (n, v). split; [done|]. by apply elem_of_map_to_list.
Qed.
Lemma NoDup_Glob suf d : NoDup (Glob suf d).
Proof.
  unfold Glob. rewrite merge_sort_Permutation. apply NoDup_filter, NoDup_fst_map_to_list.
Qed.

(** ** JSON *)

(** [json_view v] is the value that comes back when the text of [v] is decoded
    into the type of [v] (dynamic parts are normalised). *)
Class JsonCodec (A : Type) := {
  json_view : A → A;
  marshal : A → option bytes;
  marshalIndent : A → option bytes;
  unmarshal : bytes → option A;
  unmarshal_marshal v b : marshal v = Some b → unmarshal b = Some (json_view v);
  unmarshal_indent v b : marshalIndent v = Some b → unmarshal b = Some (json_view v);
  (* the compact text of a value is one line, and not a text when cut short *)
  marshal_line v b : marshal v = Some b → b ≠ [] ∧ "010"%char ∉ b;
  marshal_prefix v b n : marshal v = Some b → n < length b → unmarshal (take n b) = None;
}.

(** A codec that writes a value of a countable type as its number in unary
    binary digits closed by a full stop. *)
Fixpoint pos_bits (p : positive) : bytes :=
  match p with
  | xH => ["."%char]
  | xO p => "0"%char :: pos_bits p
  | xI p => "1"%char :: pos_bits p
  end.
Fixpoint bits_pos (b : bytes) : option positive :=
  match b with
  | [] => None
  | c :: b' =>
      if decide (c = "."%char) then (if decide (b' = []) then Some xH else None)
      else if decide (c = "0"%char) then xO <$> bits_pos b'
      else if decide (c = "1"%char) then xI <$> bits_pos b'
      else None
  end.

Lemma bits_pos_bits p : bits_pos (pos_bits p) = Some p.
Proof. induction p as [p IH|p IH|]; cbn; [by rewrite IH..|done]. Qed.
Lemma pos_bits_prefix p n : n < length (pos_bits p) → bits_pos (take n (pos_bits p)) = None.
Proof.
  revert n. induction p as [p IH|p IH|]; intros [|n] Hn; try done; cbn in *;
    try (rewrite IH by lia; done). lia.
Qed.
Lemma pos_bits_line p : pos_bits p ≠ [] ∧ "010"%char ∉ pos_bits p.
Proof.
  induction p as [p [_ IH]|p [_ IH]|]; cbn; (split; [done|]);
    rewrite not_elem_of_cons; (split; [done|]); try done. apply not_elem_of_nil.
Qed.

Program Definition toy_codec {A} `{Countable A} : JsonCodec A := {|
  json_view v := v;
  marshal v := Some (pos_bits (encode v));
  marshalIndent v := Some (pos_bits (encode v));
  unmarshal b := bits_pos b ≫= decode;
|}.
Next Obligation. intros A ? ? v b [= <-]. by rewrite bits_pos_bits; cbn; rewrite decode_encode. Qed.
Next Obligation. intros A ? ? v b [= <-]. by rewrite bits_pos_bits; cbn; rewrite decode_encode. Qed.
Next Obligation. intros A ? ? v b [= <-]. apply pos_bits_line. Qed.
Next Obligation. intros A ? ? v b n [= <-] Hn. by rewrite pos_bits_prefix. Qed.

(** ** Writing a file in place of another *)

(** Where the call sequence stops: a short write of [n] bytes, a failed open
    of the temporary file, a failed rename. *)
Inductive write_fault := WriteOk | WriteShort (n : nat) | OpenFails | RenameFails.

Definition tmp_name (name : string) : string := name +:+ ".tmp".

Definition atomic_write (what name : string) (data : bytes) (fault : write_fault) (d : directory) :
    Res unit * directory :=
  match fault with
  | WriteShort n => (Err ("write " +:+ what +:+ " tmp"), <[tmp_name name := take n data]> d)
  | OpenFails => (Err ("open " +:+ what +:+ " tmp"), delete (tmp_name name) d)
  | RenameFails => (Err ("rename " +:+ what), delete (tmp_name name) d)
  | WriteOk => (Ok tt, <[name := data]> (delete (tmp_name name) d))
  end.

(** The directory at the instants between the calls, where a crash may leave it. *)
Definition crash_points (name : string) (data : bytes) (d : directory) (d' : directory) : Prop :=
  d' = d ∨ (∃ n, d' = <[tmp_name name := take n data]> d) ∨
  d' = <[name := data]> (delete (tmp_name name) d).

Lemma tmp_not_suffix name : has_suffix ".json" (tmp_name name) = false.
Proof.
  apply not_true_iff_false. unfold has_suffix. intros [Hl Hs]%andb_true_iff.
  apply bool_decide_eq_true_1 in Hl, Hs.
  assert (String.get (String.length (tmp_name name) - 1) (tmp_name name) = Some "p"%char) as Hp.
  { unfold tmp_name. rewrite string_length_app. cbn [String.length].
    replace (String.length name + 4 - 1) with (String.length name + 3) by lia.
    by rewrite string_get_app. }
  assert (String.get 4 (String.substring (String.length (tmp_name name) - 5) 5 (tmp_name name))
    = Some "n"%char) as Hn by (cbn [String.length] in Hs; by rewrite Hs).
  rewrite substring_correct1 in Hn by lia. cbn in Hl.
  replace (4 + (String.length (tmp_name name) - 5)) with (String.length (tmp_name name) - 1) in Hn by lia.
  congruence.
Qed.
