(* ===== verification/EventStore.v ===== *)
(** * The event log (common/store/event.go)

    Events appended, one JSON line each, to the current file of a directory,
    and kept in memory; on start every [.jsonl] file is read back.  The disk
    is the directory; a short write or a failed sync is a [append_fault]. *)

From S2P Require Import Prelude Types Proto Disk.

Record EventFilter := mkEventFilter {
  f_ResourceType : string;
  f_Namespace : string;
  f_EventType : string;
  f_StartTime : Z;
  f_EndTime : Z;
}.

Definition Matches (f : EventFilter) (event : GenericEvent) : bool :=
  if decide (f.(f_ResourceType) ≠ "" ∧ event.(ge_Resource).(rk_Type) ≠ f.(f_ResourceType)) then false
  else if decide (f.(f_Namespace) ≠ "" ∧ event.(ge_Resource).(rk_Namespace) ≠ f.(f_Namespace)) then false
  else if decide (f.(f_EventType) ≠ "" ∧ event.(ge_EventType) ≠ f.(f_EventType)) then false
  else if decide (0 < f.(f_StartTime) ∧ event.(ge_Timestamp) < f.(f_StartTime))%Z then false
  else if decide (0 < f.(f_EndTime) ∧ f.(f_EndTime) < event.(ge_Timestamp))%Z then false
  else true.

(** The scan of [splitLines]: [cur] is [data[start:i]]. *)
Definition newline : ascii := "010".
Fixpoint splitLines_from (cur data : bytes) : list bytes :=
  match data with
  | [] => if decide (cur = []) then [] else [cur]
  | b :: data' => if decide (b = newline) then cur :: splitLines_from [] data'
                  else splitLines_from (cur ++ [b]) data'
  end.
Definition splitLines (data : bytes) : list bytes := splitLines_from [] data.

Record EventStore := mkEventStore {
  es_events : list GenericEvent;
  es_file : string;
  es_sequence : Z;
}.

Inductive append_fault := AppendOk | AppendShort (n : nat) | SyncFails.

Section events.
Context `{!JsonCodec GenericEvent}.

Definition withTimestamp (e : GenericEvent) (now : Z) : GenericEvent :=
  if decide (e.(ge_Timestamp) = 0%Z) then
    mkEvent e.(ge_ID) e.(ge_Sequence) now e.(ge_Version) e.(ge_Generation)
      e.(ge_Resource) e.(ge_EventType) e.(ge_Payload)
  else e.

(** The event as it is stored: numbered and timed. *)
Definition stored (s : EventStore) (event : GenericEvent) (now : Z) : GenericEvent :=
  withTimestamp (WithSequence event (int64_wrap (s.(es_sequence) + 1))) now.

Definition write_at (file : string) (data : bytes) (d : directory) : directory :=
  <[file := default [] (d !! file) ++ data]> d.

Definition Append (event : GenericEvent) (now : Z) (fault : append_fault)
    (sd : EventStore * directory) : Res unit * (EventStore * directory) :=
  let '(s, d) := sd in
  let event := stored s event now in
  let s := mkEventStore s.(es_events) s.(es_file) (int64_wrap (s.(es_sequence) + 1)) in
  match marshal event with
  | None => (Err "marshal event", (s, d))
  | Some data =>
      let data := data ++ [newline] in
      match fault with
      | AppendShort n => (Err "write event", (s, write_at s.(es_file) (take n data) d))
      | SyncFails => (Err "sync event", (s, write_at s.(es_file) data d))
      | AppendOk =>
          (Ok tt, (mkEventStore (s.(es_events) ++ [event]) s.(es_file) s.(es_sequence),
                   write_at s.(es_file) data d))
      end
  end.

Definition Query (s : EventStore) (f : EventFilter) : list GenericEvent :=
  filter (λ e, Matches f e = true) s.(es_events).
Definition EventCount (s : EventStore) : Z := Z.of_nat (length s.(es_events)).

(** The events of one file: empty and undecodable lines are skipped. *)
Definition parse_lines (data : bytes) : list GenericEvent :=
  omap (λ line, if decide (line = []) then None else unmarshal line) (splitLines data).

Definition loadEvents (d : directory) : list GenericEvent * Z :=
  let events := Glob ".jsonl" d ≫= λ file, parse_lines (default [] (d !! file)) in
  (events, foldl (λ seq e, if (seq <? e.(ge_Sequence))%Z then e.(ge_Sequence) else seq) 0%Z events).

(** [now] in seconds; [O_CREATE] makes the file when it is not there. *)
Definition openFile (now : Z) (d : directory) : string * directory :=
  let filename := pretty now +:+ ".jsonl" in
  (filename, match d !! filename with Some _ => d | None => <[filename := []]> d end).

Definition NewEventStore (now : Z) (d : directory) : EventStore * directory :=
  let '(events, sequence) := loadEvents d in
  let '(file, d) := openFile now d in
  (mkEventStore events file sequence, d).

(** ** Lines *)

Definition no_newline (l : bytes) : Prop := newline ∉ l.

Lemma splitLines_from_line cur l data :
  no_newline l → splitLines_from cur (l ++ newline :: data) = (cur ++ l) :: splitLines_from [] data.
Proof.
  revert cur. induction l as [|b l IH]; intros cur Hl; cbn.
  - by rewrite app_nil_r.
  - apply not_elem_of_cons in Hl as [Hb Hl]. rewrite decide_False by done.
    by rewrite IH, <-app_assoc.
Qed.

Lemma splitLines_from_tail cur l :
  no_newline l → splitLines_from cur l = if decide (cur ++ l = []) then [] else [cur ++ l].
Proof.
  revert cur. induction l as [|b l IH]; intros cur Hl; cbn; [by rewrite app_nil_r|].
  apply not_elem_of_cons in Hl as [Hb Hl]. rewrite decide_False by done.
  by rewrite IH, <-app_assoc.
Qed.

Lemma splitLines_join ls data :
  Forall no_newline ls →
  splitLines (concat ((λ l, l ++ [newline]) <$> ls) ++ data) = ls ++ splitLines data.
Proof.
  unfold splitLines. induction 1 as [|l ls Hl _ IH]; cbn; [done|].
  rewrite <-!app_assoc. cbn. by rewrite splitLines_from_line, IH.
Qed.

(** A file is clean when it ends in a newline or is empty. *)
Definition clean (data : bytes) : Prop :=
  ∃ ls, Forall no_newline ls ∧ data = concat ((λ l, l ++ [newline]) <$> ls).

Lemma clean_app data l : clean data → no_newline l → clean (data ++ l ++ [newline]).
Proof.
  intros (ls & Hls & ->) Hl. exists (ls ++ [l]). split; [by apply Forall_app; auto|].
  rewrite fmap_app, concat_app. cbn. by rewrite app_nil_r.
Qed.

Lemma parse_lines_app data data' : clean data → parse_lines (data ++ data') = parse_lines data ++ parse_lines data'.
Proof.
  intros (ls & Hls & ->). unfold parse_lines. rewrite splitLines_join by done.
  rewrite omap_app. f_equal. f_equal. rewrite <-(app_nil_r (concat _)).
  rewrite splitLines_join by done. unfold splitLines. cbn. by rewrite app_nil_r.
Qed.

Lemma parse_line e b : marshal e = Some b → parse_lines (b ++ [newline]) = [json_view e].
Proof.
  intros Hm. destruct (marshal_line _ _ Hm) as [Hne Hnl]. unfold parse_lines, splitLines.
  rewrite splitLines_from_line by done. cbn. rewrite decide_False by done.
  by rewrite (unmarshal_marshal _ _ Hm).
Qed.

(** What a write cut short adds: nothing, or the whole event. *)
Lemma parse_short e b n :
  marshal e = Some b → parse_lines (take n (b ++ [newline])) ∈ [[]; [json_view e]].
Proof.
  intros Hm. destruct (marshal_line _ _ Hm) as [Hne Hnl].
  destruct (decide (length b < n)) as [Hn|Hn].
  { rewrite take_ge by (rewrite length_app; cbn; lia). rewrite (parse_line _ _ Hm). right. left. }
  rewrite take_app_le by lia. unfold parse_lines, splitLines.
  rewrite splitLines_from_tail.
  2: { intros Hin. apply Hnl. eapply elem_of_take in Hin as (i & Hi & _). by eapply list_elem_of_lookup_2. }
  cbn. case_decide as Ht; [by left|]. cbn. rewrite decide_False by done.
  destruct (decide (n = length b)) as [->|Hn'].
  - rewrite take_ge by done. rewrite (unmarshal_marshal _ _ Hm). right. left.
  - rewrite (marshal_prefix _ _ _ Hm) by lia. by left.
Qed.

(** ** The directory *)

Definition disk_events (d : directory) : list GenericEvent := (loadEvents d).1.

Lemma Glob_permutation suf (d d' : directory) :
  dom d = dom d' → Glob suf d ≡ₚ Glob suf d'.
Proof.
  intros Hd. apply NoDup_Permutation; [apply NoDup_Glob..|]. intros n.
  by rewrite !elem_of_Glob, <-!elem_of_dom, Hd.
Qed.

(** Growing one file by [data] grows the events by those of [data]. *)
Lemma disk_events_write d file data :
  has_suffix ".jsonl" file = true → is_Some (d !! file) → clean (default [] (d !! file)) →
  disk_events (write_at file data d) ≡ₚ disk_events d ++ parse_lines data.
Proof.
  intros Hsuf Hf Hc. unfold disk_events, loadEvents, write_at. cbn [fst].
  set (d' := <[file := _]> d).
  assert (Glob ".jsonl" d' ≡ₚ Glob ".jsonl" d) as Hg.
  { apply Glob_permutation. unfold d'. rewrite dom_insert_lookup_L; done. }
  rewrite Hg. assert (file ∈ Glob ".jsonl" d) as Hin by by apply elem_of_Glob.
  apply elem_of_Permutation in Hin as [rest Hrest].
  assert (file ∉ rest) as Hnin.
  { pose proof (NoDup_Glob ".jsonl" d) as Hnd. rewrite Hrest in Hnd. by apply NoDup_cons in Hnd as [? _]. }
  rewrite Hrest, !bind_cons. unfold d' at 1. rewrite lookup_insert_eq. cbn [from_option id].
  rewrite parse_lines_app by done.
  assert ((rest ≫= λ f, parse_lines (default [] (d' !! f))) =
          (rest ≫= λ f, parse_lines (default [] (d !! f)))) as ->.
  { apply bind_ext_in. intros f Hf'. unfold d'. by rewrite lookup_insert_ne by (intros ->; done). }
  rewrite <-!app_assoc. f_equiv. apply Permutation_app_comm.
Qed.

(** The store and its open file. *)
Definition es_ready (s : EventStore) (d : directory) : Prop :=
  has_suffix ".jsonl" s.(es_file) = true ∧ is_Some (d !! s.(es_file)) ∧
  clean (default [] (d !! s.(es_file))) ∧
  (0 <= s.(es_sequence) <= int64_max)%Z ∧
  Forall (λ e, (e.(ge_Sequence) <= s.(es_sequence))%Z) s.(es_events).

Lemma max_sequence l x :
  let m := foldl (λ seq e, if (seq <? e.(ge_Sequence))%Z then e.(ge_Sequence) else seq) x l in
  (x <= m)%Z ∧ Forall (λ e, (e.(ge_Sequence) <= m)%Z) l ∧
  (m = x ∨ ∃ e, e ∈ l ∧ m = e.(ge_Sequence)).
Proof.
  revert x. induction l as [|e l IH]; intros x; cbn; [by split_and!; auto with lia|].
  destruct (Z.ltb_spec x e.(ge_Sequence)) as [Hlt|Hge]; cbv zeta in IH;
    [destruct (IH e.(ge_Sequence)) as (H1 & H2 & H3)|destruct (IH x) as (H1 & H2 & H3)];
    (split_and!; [lia|constructor; [lia|done]|]).
  - right. destruct H3 as [H3|(e' & ? & ?)]; [exists e|exists e']; (split; [|done]); [by left|by right].
  - destruct H3 as [H3|(e' & ? & ?)]; [by left|right; exists e'; split; [by right|done]].
Qed.

Lemma stored_sequence s e now :
  (0 <= s.(es_sequence) < int64_max)%Z → (stored s e now).(ge_Sequence) = (s.(es_sequence) + 1)%Z.
Proof.
  intros Hr. unfold stored, withTimestamp. assert (int64_wrap (s.(es_sequence) + 1) = s.(es_sequence) + 1)%Z
    as -> by (apply int64_wrap_id; unfold int64_min in *; lia). by case_decide.
Qed.

Lemma Append_spec (e : GenericEvent) (now : Z) (fault : append_fault) (s : EventStore)
    (d : directory) (Hr : es_ready s d) (Hmax : (s.(es_sequence) < int64_max)%Z) :
  let '(r, (s', d')) := Append e now fault (s, d) in
  let e' := stored s e now in
  Forall (λ x, x.(ge_Sequence) < e'.(ge_Sequence))%Z s.(es_events) ∧
  (if is_ok r then
     s'.(es_events) = s.(es_events) ++ [e'] ∧ es_ready s' d' ∧
     disk_events d' ≡ₚ disk_events d ++ [json_view e']
   else
     s'.(es_events) = s.(es_events) ∧
     (disk_events d' ≡ₚ disk_events d ∨ disk_events d' ≡ₚ disk_events d ++ [json_view e'])).
Proof.
  destruct Hr as (Hsuf & Hf & Hc & Hseq & Hall).
  assert (int64_wrap (s.(es_sequence) + 1) = s.(es_sequence) + 1)%Z as Hw
    by (apply int64_wrap_id; unfold int64_min in *; lia).
  assert (Forall (λ x, x.(ge_Sequence) < (stored s e now).(ge_Sequence))%Z s.(es_events)) as Hlt.
  { rewrite stored_sequence by lia. eapply Forall_impl; [exact Hall|]. cbn. lia. }
  unfold Append. destruct (marshal (stored s e now)) as [b|] eqn:Hm.
  2: { split; [exact Hlt|]. cbn. auto. }
  destruct fault as [|n|]; (split; [exact Hlt|]); cbn [is_ok].
  - split_and!; [done| |].
    + split_and!; cbn; [done| | |rewrite Hw; lia|rewrite Hw; lia|].
      * unfold write_at. rewrite lookup_insert_eq. eauto.
      * unfold write_at. rewrite lookup_insert_eq. cbn. apply clean_app; [done|].
        by apply (marshal_line _ _ Hm).
      * rewrite Hw. apply Forall_app. split; [eapply Forall_impl; [exact Hall|]; cbn; lia|].
        constructor; [|done]. rewrite stored_sequence by lia. lia.
    + cbn [es_file]. rewrite disk_events_write by done. by rewrite (parse_line _ _ Hm).
  - split; [done|]. cbn [es_file]. rewrite !disk_events_write by done.
    pose proof (parse_short _ _ n Hm) as Hin. rewrite !elem_of_cons, elem_of_nil in Hin.
    destruct Hin as [->|[->|[]]]; [left; by rewrite app_nil_r|by right].
  - split; [done|]. cbn [es_file]. right. rewrite disk_events_write by done.
    by rewrite (parse_line _ _ Hm).
Qed.

(** ** Properties *)


(** Opening the log reads back every event of the files and continues
    their numbering: the counter is at least every number on disk and, when
    there is one, equals the largest; with a fresh file name the store is
    ready to append and the files hold the same events as before. *)
Theorem reopen_recovers (now : Z) (d : directory)
    (Hfresh : d !! (pretty now +:+ ".jsonl") = None)
    (Hrange : Forall (λ e, (e.(ge_Sequence) <= int64_max)%Z) (disk_events d)) :
  let '(s, d') := NewEventStore now d in
  s.(es_events) = disk_events d ∧ disk_events d' ≡ₚ disk_events d ∧ es_ready s d' ∧
  (s.(es_sequence) = 0%Z ∨ ∃ e, e ∈ s.(es_events) ∧ e.(ge_Sequence) = s.(es_sequence)).
Proof.
  unfold NewEventStore, openFile, disk_events in *.
  destruct (loadEvents d) as [evs sq] eqn:E. rewrite Hfresh.
  assert (evs = (loadEvents d).1 ∧ sq = (loadEvents d).2) as [Hevs Hsq] by by rewrite E.
  cbn in Hevs, Hsq, Hrange. set (file := pretty now +:+ ".jsonl") in *.
  pose proof (max_sequence evs 0) as (Hm1 & Hm2 & Hm3).
  assert (sq = foldl (λ seq e, if (seq <? e.(ge_Sequence))%Z then e.(ge_Sequence) else seq) 0%Z evs)
    as Hsq' by by rewrite Hsq, Hevs.
  rewrite <-Hsq' in Hm1, Hm2, Hm3. cbn. split_and!; [done| | |].
  - unfold loadEvents. cbn. set (d' := <[file := []]> d).
    assert (Glob ".jsonl" d' ≡ₚ file :: Glob ".jsonl" d) as ->.
    { apply NoDup_Permutation; [apply NoDup_Glob| |].
      - constructor; [|apply NoDup_Glob]. rewrite elem_of_Glob, Hfresh. by intros [_ [? ?]].
      - intros n. rewrite elem_of_cons, !elem_of_Glob. unfold d'.
        destruct (decide (n = file)) as [->|Hne].
        + rewrite lookup_insert_eq. unfold file. rewrite has_suffix_app. naive_solver.
        + rewrite lookup_insert_ne by done. naive_solver. }
    rewrite bind_cons. unfold d' at 1. rewrite lookup_insert_eq. cbn [from_option id app].
    rewrite Hevs. unfold loadEvents. cbn.
    assert ((Glob ".jsonl" d ≫= λ f, parse_lines (default [] (d' !! f))) =
            (Glob ".jsonl" d ≫= λ f, parse_lines (default [] (d !! f)))) as ->; [|done].
    apply bind_ext_in. intros n Hn. apply elem_of_Glob in Hn as [_ [v Hn]]. unfold d'.
    rewrite lookup_insert_ne; [done|]. intros ->. congruence.
  - split_and!; cbn.
    + apply has_suffix_app.
    + rewrite lookup_insert_eq. eauto.
    + rewrite lookup_insert_eq. cbn. by exists [].
    + lia.
    + destruct Hm3 as [->|(e & He & ->)]; [by vm_compute|].
      rewrite Forall_forall in Hrange. by apply Hrange.
    + done.
  - destruct Hm3 as [->|(e & He & ->)]; [by left|right; by exists e].
Qed.
End events.

(** *** Witnesses: a concrete codec for events whose payload is a string, a proxy or nothing *)

Definition proxy_tuple : Type := string * Z * Z * string * string * string.
Definition payload_code : Type := option (string + proxy_tuple).

Definition payload_tuple (v : any) : option payload_code :=
  match v with
  | ANil => Some None
  | AString s => Some (Some (inl s))
  | AProxyState (mkProxyState c rp lp ip pr b) => Some (Some (inr (c, rp, lp, ip, pr, b)))
  | _ => None
  end.
Definition tuple_payload (x : payload_code) : any :=
  match x with
  | None => ANil
  | Some (inl s) => AString s
  | Some (inr (c, rp, lp, ip, pr, b)) => AProxyState (mkProxyState c rp lp ip pr b)
  end.
Lemma tuple_payload_tuple v x : payload_tuple v = Some x → tuple_payload x = v.
Proof. destruct v as [| | | | | | |[]| | |]; cbn; intros Hx; by simplify_eq. Qed.

Definition event_code : Type :=
  string * Z * Z * Z * Z * (string * string * string) * string * payload_code.
#[local] Instance event_code_eq_dec : EqDecision event_code.
Proof. unfold event_code, payload_code, proxy_tuple. apply _. Defined.
#[local] Instance event_code_countable : Countable event_code.
Proof. unfold event_code, payload_code, proxy_tuple. apply _. Defined.

Definition event_tuple (e : GenericEvent) : option event_code :=
  let '(mkEvent id sq ts ver gen (mkResourceKey t n m) et pl) := e in
  (λ x, (id, sq, ts, ver, gen, (t, n, m), et, x)) <$> payload_tuple pl.
Definition tuple_event (x : event_code) : GenericEvent :=
  let '(id, sq, ts, ver, gen, (t, n, m), et, pl) := x in
  mkEvent id sq ts ver gen (mkResourceKey t n m) et (tuple_payload pl).

Lemma tuple_event_tuple e x : event_tuple e = Some x → tuple_event x = e.
Proof.
  destruct e as [id sq ts ver gen [t n m] et pl]. cbn. intros (y & Hy & ->)%fmap_Some. cbn.
  by rewrite (tuple_payload_tuple _ _ Hy).
Qed.

Definition event_text (e : GenericEvent) : option bytes := (λ x, pos_bits (encode x)) <$> event_tuple e.
Definition text_event (b : bytes) : option GenericEvent := tuple_event <$> (bits_pos b ≫= decode).

Lemma event_text_Some e b :
  event_text e = Some b → ∃ x, event_tuple e = Some x ∧ b = pos_bits (encode x).
Proof. unfold event_text. destruct (event_tuple e) as [x|]; [|done]. intros [= <-]. by exists x. Qed.

Lemma text_event_text e b : event_text e = Some b → text_event b = Some e.
Proof.
  intros (x & E & ->)%event_text_Some. unfold text_event. rewrite bits_pos_bits. cbn.
  rewrite decode_encode. cbn. by rewrite (tuple_event_tuple _ _ E).
Qed.
Lemma event_text_line e b : event_text e = Some b → b ≠ [] ∧ "010"%char ∉ b.
Proof. intros (x & _ & ->)%event_text_Some. apply pos_bits_line. Qed.
Lemma event_text_prefix e b n : event_text e = Some b → n < length b → text_event (take n b) = None.
Proof. intros (x & _ & ->)%event_text_Some Hn. unfold text_event. by rewrite pos_bits_prefix. Qed.

Definition toy_event_codec : JsonCodec GenericEvent := {|
  json_view e := e;
  marshal := event_text;
  marshalIndent := event_text;
  unmarshal := text_event;
  unmarshal_marshal := text_event_text;
  unmarshal_indent := text_event_text;
  marshal_line := event_text_line;
  marshal_prefix := event_text_prefix;
|}.

#[local] Existing Instance toy_event_codec.

Definition ex_event : GenericEvent :=
  mkEvent "a" 0 7 0 0 (mkResourceKey "proxy" "default" "x") EventAdded (AString "p").
Definition ex_log : EventStore * directory := NewEventStore 100 ∅.

Lemma reopen_recovers_witness : es_ready ex_log.1 ex_log.2.
Proof.
  assert ((∅ : directory) !! (pretty 100%Z +:+ ".jsonl") = None) as H1 by by vm_compute.
  assert (Forall (λ e, (e.(ge_Sequence) <= int64_max)%Z) (disk_events ∅)) as H2 by constructor.
  exact (proj1 (proj2 (proj2 (reopen_recovers 100 ∅ H1 H2)))).
Defined.

Lemma ex_log_ready : es_ready ex_log.1 ex_log.2.
Proof.
  split; [by vm_compute|]. split; [by eexists|]. split; [exists []; by split|].
  split; [by vm_compute|constructor].
Qed.

