(* ===== verification/SnapshotStore.v ===== *)
(** * The snapshot store (common/store/snapshot.go)

    One JSON file per snapshot, named by its time in milliseconds, of which
    the last five are kept; the newest is in memory and is found again on
    start by the number in its name. *)

From S2P Require Import Prelude Disk.

Section snapshots.
Context {V : Type}.

(** [State] is type -> name -> resource. *)
Record Snapshot := mkSnapshot {
  sn_ID : string;
  sn_Timestamp : Z;
  sn_Sequence : Z;
  sn_State : gmap string (gmap string V);
}.

Context `{!JsonCodec Snapshot}.

Record SnapshotStore := mkSnapshotStore { latest : option Snapshot }.

(** ** Sorting *)

(** The pass of the inner loop: [x] is [files[i]], the list [files[i+1:]];
    every later name smaller than the current [files[i]] changes places with it. *)
Fixpoint sort_pass (x : string) (l : list string) : string * list string :=
  match l with
  | [] => (x, [])
  | y :: l' =>
      if decide (¬ str_le x y) then let '(m, r) := sort_pass y l' in (m, x :: r)
      else let '(m, r) := sort_pass x l' in (m, y :: r)
  end.
Fixpoint sort_from (n : nat) (l : list string) : list string :=
  match n, l with
  | S n', x :: l' => let '(m, r) := sort_pass x l' in m :: sort_from n' r
  | _, _ => l
  end.
Definition sortFiles (files : list string) : list string := sort_from (length files) files.

(** ** Operations *)

Definition snapshot_name (timestamp : Z) : string := pretty timestamp +:+ ".json".

Definition cleanupOldSnapshots (keep : nat) (d : directory) : directory :=
  let files := Glob ".json" d in
  if decide (length files ≤ keep) then d
  else foldl (λ d f, delete f d) d (take (length files - keep) (sortFiles files)).

(** [id] is [generateID()], [now] the clock in milliseconds. *)
Definition Save (id : string) (now : Z) (state : gmap string (gmap string V)) (sequence : Z)
    (fault : write_fault) (sd : SnapshotStore * directory) : Res unit * (SnapshotStore * directory) :=
  let '(s, d) := sd in
  let snapshot := mkSnapshot id now sequence state in
  match marshalIndent snapshot with
  | None => (Err "marshal snapshot", (s, d))
  | Some data =>
      match atomic_write "snapshot" (snapshot_name now) data fault d with
      | (Err e, d) => (Err e, (s, d))
      | (Ok _, d) => (Ok tt, (mkSnapshotStore (Some snapshot), cleanupOldSnapshots 5 d))
      end
  end.

Definition Load (s : SnapshotStore) : Res Snapshot :=
  match s.(latest) with None => Err "no snapshot available" | Some sn => Ok sn end.
Definition HasSnapshot (s : SnapshotStore) : bool := bool_decide (is_Some s.(latest)).
Definition GetSequence (s : SnapshotStore) : Z :=
  match s.(latest) with None => 0 | Some sn => sn.(sn_Sequence) end.

(** [fmt.Sscanf(name, "%d.json", &timestamp)]: the digits at the start of the
    name (after a sign); 0 when there are none or they overflow. *)
Fixpoint digit_prefix (s : string) : string :=
  match s with
  | "" => ""
  | String c s' => if is_digit c then String c (digit_prefix s') else ""
  end.
Definition Sscanf_d (s : string) : Z :=
  let num := match s with
             | String c s' => if decide (c = "-"%char) then "-" +:+ digit_prefix s'
                              else if decide (c = "+"%char) then digit_prefix s'
                              else digit_prefix s
             | "" => ""
             end in
  default 0%Z (Atoi num).

Definition pick_latest (st : Z * string) (file : string) : Z * string :=
  let timestamp := Sscanf_d file in
  if (st.1 <? timestamp)%Z then (timestamp, file) else st.

Definition loadLatest (d : directory) : Res (option Snapshot) :=
  let latestFile := (foldl pick_latest (0%Z, "") (Glob ".json" d)).2 in
  if decide (latestFile = "") then Ok None
  else match d !! latestFile with
       | None => Err "read"
       | Some data => match unmarshal data with
                      | None => Err "unmarshal"
                      | Some sn => Ok (Some sn)
                      end
       end.

Definition NewSnapshotStore (d : directory) : Res SnapshotStore :=
  mkSnapshotStore <$> loadLatest d.

(** ** Sorting is correct *)

Lemma sort_pass_spec x l :
  let '(m, r) := sort_pass x l in m :: r ≡ₚ x :: l ∧ str_le m x ∧ Forall (str_le m) r ∧ length r = length l.
Proof.
  revert x. induction l as [|y l IH]; intros x; cbn; [done|].
  case_decide as Hd.
  - specialize (IH y). destruct (sort_pass y l) as [m r]. destruct IH as (Hp & Hm & Hf & Hl).
    assert (str_le y x) as Hyx by (destruct (total str_le x y); tauto).
    assert (str_le m x) as Hmx by (by etrans).
    split_and!; [|done|by constructor|by cbn; f_equal].
    by rewrite (Permutation_swap x m), Hp.
  - specialize (IH x). destruct (sort_pass x l) as [m r].
    destruct IH as (Hp & Hm & Hf & Hl). split_and!; [|done|constructor; [by etrans|done]|by cbn; f_equal].
    by rewrite (Permutation_swap y m), Hp, (Permutation_swap x y).
Qed.

Lemma sort_from_spec n l :
  length l ≤ n → sort_from n l ≡ₚ l ∧ StronglySorted str_le (sort_from n l).
Proof.
  revert l. induction n as [|n IH]; intros l Hl; [|destruct l as [|x l]].
  - apply Nat.le_0_r, nil_length_inv in Hl as ->. split; [done|constructor].
  - split; [done|constructor].
  - cbn. pose proof (sort_pass_spec x l) as Hs. destruct (sort_pass x l) as [m r].
    destruct Hs as (Hp & _ & Hf & Hlen). destruct (IH r) as [IHp IHs]; [cbn in Hl; lia|]. split.
    + by rewrite IHp.
    + constructor; [done|]. by rewrite IHp.
Qed.

(** ** Retention *)

Lemma foldl_delete_lookup (l : list string) (d : directory) n :
  foldl (λ d f, delete f d) d l !! n = if decide (n ∈ l) then None else d !! n.
Proof.
  revert d. induction l as [|f l IH]; intros d; cbn.
  { rewrite decide_False; [done|]. apply not_elem_of_nil. }
  rewrite IH. destruct (decide (n = f)) as [->|Hne].
  - rewrite lookup_delete_eq. rewrite (decide_True (P := f ∈ f :: l)) by left. by case_decide.
  - rewrite lookup_delete_ne by done.
    destruct (decide (n ∈ l)), (decide (n ∈ f :: l)) as [H|H]; try done;
      [by destruct H; right|]. apply elem_of_cons in H. naive_solver.
Qed.

Lemma pick_latest_max l st name :
  name ∈ l → (0 < Sscanf_d name)%Z → (st.1 < Sscanf_d name)%Z →
  (∀ f, f ∈ l → f ≠ name → (Sscanf_d f < Sscanf_d name)%Z) →
  foldl pick_latest st l = (Sscanf_d name, name).
Proof.
  intros Hin Hpos Hst Hlt.
  assert (∀ l st, (∀ f, f ∈ l → (Sscanf_d f ≤ Sscanf_d name)%Z) → st = (Sscanf_d name, name) →
    foldl pick_latest st l = st) as Hdone.
  { clear. induction l as [|f l IH]; intros st Hl Hst; cbn; [done|].
    assert (pick_latest st f = st) as ->.
    { unfold pick_latest. rewrite Hst. cbn. rewrite (proj2 (Z.ltb_ge _ _)); [done|]. apply Hl. left. }
    apply IH; [|done]. intros g Hg. apply Hl. by right. }
  revert st Hst. induction l as [|f l IH]; intros st Hst; [by apply elem_of_nil in Hin|]. cbn.
  destruct (decide (f = name)) as [->|Hne].
  - unfold pick_latest at 2. rewrite (proj2 (Z.ltb_lt _ _)) by done. apply Hdone; [|done].
    intros g Hg. destruct (decide (g = name)) as [->|]; [done|].
    apply Z.lt_le_incl, Hlt; [by right|done].
  - apply IH.
    + apply elem_of_cons in Hin. naive_solver.
    + intros g Hg. apply Hlt. by right.
    + unfold pick_latest. case_match; [|done]. cbn. apply Hlt; [left|done].
Qed.

Lemma snapshot_name_suffix now : has_suffix ".json" (snapshot_name now) = true.
Proof. apply has_suffix_app. Qed.

Lemma StronglySorted_app_le l1 l2 x y :
  StronglySorted str_le (l1 ++ l2) → x ∈ l1 → y ∈ l2 → str_le x y.
Proof.
  induction l1 as [|z l1 IH]; cbn; intros Hs Hx Hy; [by apply elem_of_nil in Hx|].
  apply StronglySorted_inv in Hs as [Hs Hz]. apply elem_of_cons in Hx as [->|Hx]; [|by apply IH].
  rewrite Forall_forall in Hz. apply Hz, elem_of_app. by right.
Qed.

(** What [cleanupOldSnapshots] leaves: at most [keep] snapshot files, the
    largest names, with their contents. *)
Lemma cleanup_spec keep d :
  let d' := cleanupOldSnapshots keep d in
  length (Glob ".json" d') ≤ keep ∧
  (∀ f, f ∈ Glob ".json" d' → d' !! f = d !! f) ∧
  (∀ f g, f ∈ Glob ".json" d → f ∉ Glob ".json" d' → g ∈ Glob ".json" d' → str_le f g) ∧
  (∀ f, f ∈ Glob ".json" d → (∀ g, g ∈ Glob ".json" d → str_le g f) → 0 < keep → f ∈ Glob ".json" d').
Proof.
  cbv zeta. unfold cleanupOldSnapshots. case_decide as Hlen; [by split_and!|].
  destruct (sort_from_spec (length (Glob ".json" d)) (Glob ".json" d)) as [Hp Hs]; [done|].
  fold (sortFiles (Glob ".json" d)) in Hp, Hs. set (l := sortFiles _) in *.
  set (n := length (Glob ".json" d) - keep). set (d' := foldl _ d _).
  assert (∀ f, f ∈ Glob ".json" d' ↔ f ∈ drop n l) as Hin.
  { intros f. rewrite !elem_of_Glob. unfold d'. rewrite foldl_delete_lookup.
    assert (NoDup l) as Hnd by (rewrite Hp; apply NoDup_Glob).
    rewrite <-(take_drop n l) in Hnd. apply NoDup_app in Hnd as (_ & Hdis & _).
    case_decide as Ht; [|].
    - split; [by intros [_ [? ?]]|]. intros Hf. by destruct (Hdis f).
    - rewrite <-elem_of_Glob, <-Hp. rewrite <-(take_drop n l) at 1. rewrite elem_of_app. tauto. }
  split_and!.
  - assert (Glob ".json" d' ≡ₚ drop n l) as ->.
    { apply NoDup_Permutation; [apply NoDup_Glob| |done].
      assert (NoDup l) as Hnd by (rewrite Hp; apply NoDup_Glob).
      rewrite <-(take_drop n l) in Hnd. by apply NoDup_app in Hnd as (_ & _ & ?). }
    rewrite length_drop, Hp. unfold n. lia.
  - intros f Hf. apply elem_of_Glob in Hf as [_ [v Hf]]. unfold d' in *.
    rewrite foldl_delete_lookup in *. by case_decide.
  - intros f g Hf Hf' Hg. rewrite Hin in Hf', Hg. rewrite <-Hp, <-(take_drop n l), elem_of_app in Hf.
    rewrite <-(take_drop n l) in Hs. eapply StronglySorted_app_le; [done|tauto|done].
  - intros f Hf Hmax Hk. apply Hin. rewrite <-Hp, <-(take_drop n l), elem_of_app in Hf.
    destruct Hf as [Hf|?]; [|done]. rewrite <-(take_drop n l) in Hs.
    assert (drop n l ≠ []) as Hne.
    { intros He. apply (f_equal length) in He. rewrite length_drop, Hp in He. cbn in He. unfold n in He. lia. }
    destruct (drop n l) as [|g r] eqn:E; [done|].
    assert (str_le f g) as Hfg by (eapply StronglySorted_app_le; [done|done|left]).
    assert (str_le g f) as Hgf.
    { apply Hmax. rewrite <-Hp, <-(take_drop n l), E. apply elem_of_app. right. left. }
    rewrite (anti_symm str_le f g Hfg Hgf). left.
Qed.

(** ** Properties *)

(** [sortFiles] sorts: it rearranges the names into byte-wise order. *)
Theorem sortFiles_sorted (files : list string) :
  sortFiles files ≡ₚ files ∧ StronglySorted str_le (sortFiles files).
Proof. by apply sort_from_spec. Qed.

(** When the clock has moved past the snapshots on disk, and its number
    is written with as many digits so that names sort like times, [Save]
    keeps at most five snapshots, always with the new one among them, and a
    restart loads back exactly the state just saved. *)
Theorem save_then_restart (id : string) (now : Z) (state : gmap string (gmap string V))
    (sequence : Z) (s : SnapshotStore) (d : directory)
    (Hnow : (0 < now <= int64_max)%Z)
    (Hold : ∀ f, f ∈ Glob ".json" d → f ≠ snapshot_name now →
              (Sscanf_d f < now)%Z ∧ str_le f (snapshot_name now))
    (Hname : Sscanf_d (snapshot_name now) = now) :
  let '(r, (s', d')) := Save id now state sequence WriteOk (s, d) in
  is_ok r = true →
  Load s' = Ok (mkSnapshot id now sequence state) ∧
  length (Glob ".json" d') ≤ 5 ∧
  NewSnapshotStore d' = Ok (mkSnapshotStore (Some (json_view (mkSnapshot id now sequence state)))).
Proof.
  unfold Save. set (sn := mkSnapshot id now sequence state).
  destruct (marshalIndent sn) as [data|] eqn:Hm; [|done]. cbn [atomic_write]. intros _.
  set (name := snapshot_name now) in *. set (d1 := <[name := data]> _).
  destruct (cleanup_spec 5 d1) as (Hlen & Hsame & _ & Hkeep). set (d2 := cleanupOldSnapshots 5 d1) in *.
  split; [done|]. split; [done|].
  assert (∀ f, f ∈ Glob ".json" d1 → f ≠ name → f ∈ Glob ".json" d) as Hd1.
  { intros f. rewrite !elem_of_Glob. unfold d1. intros [Hs Hf] Hne. split; [done|].
    rewrite lookup_insert_ne in Hf by done. destruct Hf as [v Hf].
    apply lookup_delete_Some in Hf as [_ Hf]. by exists v. }
  assert (name ∈ Glob ".json" d2) as Hin2.
  { apply Hkeep; [| |lia].
    - apply elem_of_Glob. split; [apply snapshot_name_suffix|]. unfold d1. rewrite lookup_insert_eq. eauto.
    - intros g Hg. destruct (decide (g = name)) as [->|Hne]; [done|]. by apply Hold; [apply Hd1|]. }
  assert (∀ f, f ∈ Glob ".json" d2 → f ∈ Glob ".json" d1) as Hsub.
  { intros f Hf. pose proof (Hsame f Hf) as Heq. apply elem_of_Glob in Hf as [Hs Hf].
    apply elem_of_Glob. split; [done|]. by rewrite <-Heq. }
  unfold NewSnapshotStore, loadLatest.
  rewrite (pick_latest_max _ _ name); [|done|rewrite Hname; lia|cbn; rewrite Hname; lia|].
  2: { intros f Hf Hne. rewrite Hname. apply Hold; [|done]. apply Hd1; [by apply Hsub|done]. }
  cbn [snd]. rewrite decide_False.
  2: { intros He. pose proof (snapshot_name_suffix now) as Hs. fold name in Hs. by rewrite He in Hs. }
  rewrite Hsame by done. unfold d1. rewrite lookup_insert_eq.
  by rewrite (unmarshal_indent _ _ Hm).
Qed.
End snapshots.

(** *** Witness: a seventh snapshot, of string resources, over six old ones *)

Definition snapshot_tuple (sn : Snapshot (V := string)) : string * Z * Z * gmap string (gmap string string) :=
  (sn.(sn_ID), sn.(sn_Timestamp), sn.(sn_Sequence), sn.(sn_State)).
Definition tuple_snapshot (x : string * Z * Z * gmap string (gmap string string)) : Snapshot (V := string) :=
  let '(id, ts, sq, st) := x in mkSnapshot id ts sq st.
#[local] Instance snapshot_eq_dec : EqDecision (Snapshot (V := string)).
Proof. solve_decision. Defined.
#[local] Instance snapshot_countable : Countable (Snapshot (V := string)).
Proof. apply (inj_countable' snapshot_tuple tuple_snapshot). by intros []. Defined.
#[local] Existing Instance toy_codec.

Definition ex_dir : directory :=
  list_to_map ((λ t, (snapshot_name t, [])) <$> seqZ 10 6).

Lemma save_then_restart_witness :
  length (Glob ".json" ex_dir) = 6 ∧
  length (Glob ".json" (Save "id" 20 (∅ : gmap string (gmap string string)) 3 WriteOk
    (mkSnapshotStore None, ex_dir)).2.2) ≤ 5.
Proof.
  split; [by vm_compute|].
  assert (0 < 20 <= int64_max)%Z as H1 by (split; by vm_compute).
  assert (∀ f, f ∈ Glob ".json" ex_dir → f ≠ snapshot_name 20 →
    (Sscanf_d f < 20)%Z ∧ str_le f (snapshot_name 20)) as H2.
  { assert (Forall (λ f, (Sscanf_d f < 20)%Z ∧ str_le f (snapshot_name 20)) (Glob ".json" ex_dir)) as Hall
      by (apply (bool_decide_eq_true_1 (Forall _ _)); by vm_compute).
    rewrite Forall_forall in Hall. intros f Hf _. by apply Hall. }
  assert (Sscanf_d (snapshot_name 20) = 20%Z) as H3 by by vm_compute.
  exact (proj1 (proj2 (save_then_restart "id" 20 (∅ : gmap string (gmap string string)) 3
    (mkSnapshotStore None) ex_dir H1 H2 H3 eq_refl))).
Defined.
