(* ===== verification/MetaStore.v ===== *)
(** * The resource store (common/store/meta.go)

    Resources by type and by the text of their key, kept in memory and, one
    JSON file per type, in a directory.  An operation works on the pair of the
    two; [fault] says where the file calls of a save stop, if they do. *)

From S2P Require Import Prelude Types Proto Disk.

Section meta.
Context {V : Type} `{!JsonCodec (gmap string V)}.

(** type -> key text -> resource *)
Abbreviation MetaStore := (gmap string (gmap string V)).

Definition json_name (typeName : string) : string := typeName +:+ ".json".

Definition saveType (typeName : string) (fault : write_fault) (s : MetaStore) (d : directory) :
    Res unit * directory :=
  match marshalIndent (default ∅ (s !! typeName)) with
  | None => (Err ("marshal " +:+ typeName), d)
  | Some data => atomic_write typeName (json_name typeName) data fault d
  end.

(** One file of [loadAll]: unreadable JSON is skipped. *)
Definition loadFile (d : directory) (s : MetaStore) (file : string) : MetaStore :=
  let typeName := slice_to (String.length file - 5) file in
  match d !! file ≫= unmarshal with
  | Some resources => <[typeName := resources]> s
  | None => s
  end.
Definition loadAll (d : directory) : MetaStore := foldl (loadFile d) ∅ (Glob ".json" d).

Definition NewMetaStore (d : directory) : MetaStore := loadAll d.

Definition put_mem (key : ResourceKey) (resource : V) (s : MetaStore) : MetaStore :=
  <[key.(rk_Type) := <[ResourceKey_String key := resource]> (default ∅ (s !! key.(rk_Type)))]> s.
Definition Put (key : ResourceKey) (resource : V) (fault : write_fault) (sd : MetaStore * directory) :
    Res unit * (MetaStore * directory) :=
  let '(s, d) := sd in
  let s := put_mem key resource s in
  let '(r, d) := saveType key.(rk_Type) fault s d in
  (r, (s, d)).

Definition Get (key : ResourceKey) (s : MetaStore) : option V :=
  s !! key.(rk_Type) ≫= λ m, m !! ResourceKey_String key.

Definition delete_mem (key : ResourceKey) (s : MetaStore) : MetaStore :=
  match s !! key.(rk_Type) with
  | None => s
  | Some m => <[key.(rk_Type) := delete (ResourceKey_String key) m]> s
  end.
Definition Delete (key : ResourceKey) (fault : write_fault) (sd : MetaStore * directory) :
    Res unit * (MetaStore * directory) :=
  let '(s, d) := sd in
  match s !! key.(rk_Type) with
  | None => (Ok tt, (s, d))
  | Some _ =>
      let s := delete_mem key s in
      let '(r, d) := saveType key.(rk_Type) fault s d in
      (r, (s, d))
  end.

Definition List (resourceType : string) (s : MetaStore) : option (gmap string V) := s !! resourceType.
Definition ListAll (s : MetaStore) : MetaStore := s.
Definition Count (resourceType : string) (s : MetaStore) : Z :=
  match s !! resourceType with None => 0 | Some m => Z.of_nat (size m) end.

(** [Close] saves every type, stopping at the first error; the types come in
    an order Go picks. *)
Fixpoint Close_types (types : list string) (faults : string → write_fault) (s : MetaStore) (d : directory) :
    Res unit * directory :=
  match types with
  | [] => (Ok tt, d)
  | t :: types' =>
      match saveType t (faults t) s d with
      | (Ok _, d) => Close_types types' faults s d
      | (Err e, d) => (Err e, d)
      end
  end.
Definition MetaClose (faults : string → write_fault) (s : MetaStore) (d : directory) : Res unit * directory :=
  Close_types (map_to_list s).*1 faults s d.

(** ** Lemmas *)

Lemma json_name_slice t : slice_to (String.length (json_name t) - 5) (json_name t) = t.
Proof.
  unfold json_name. rewrite string_length_app. cbn [String.length].
  replace (String.length t + 5 - 5) with (String.length t) by lia. apply slice_to_app.
Qed.

#[export] Instance json_name_inj : Inj (=) (=) json_name.
Proof. intros a b H. rewrite <-(json_name_slice a), <-(json_name_slice b). by rewrite H. Qed.

Lemma substring_split n s :
  n ≤ String.length s → s = String.substring 0 n s +:+ String.substring n (String.length s - n) s.
Proof.
  revert n. induction s as [|c s IH]; intros [|n] Hle; try done.
  - by rewrite Nat.sub_0_r, substring_all.
  - cbn in *. autorewrite with strings. f_equal. apply IH. lia.
Qed.

Lemma has_suffix_split suf s :
  has_suffix suf s = true → s = slice_to (String.length s - String.length suf) s +:+ suf.
Proof.
  unfold has_suffix, slice_to. intros [Hl Hs]%andb_true_iff.
  apply bool_decide_eq_true_1 in Hl, Hs.
  rewrite (substring_split (String.length s - String.length suf) s) at 1 by lia. f_equal.
  rewrite <-Hs at 3. f_equal. lia.
Qed.

Lemma has_json_name file :
  has_suffix ".json" file = true → file = json_name (slice_to (String.length file - 5) file).
Proof. intros H. by apply has_suffix_split in H. Qed.

Lemma foldl_loadFile d l s t :
  NoDup l → Forall (λ f, has_suffix ".json" f = true) l →
  foldl (loadFile d) s l !! t =
    if decide (json_name t ∈ l ∧ is_Some (d !! json_name t ≫= unmarshal))
    then d !! json_name t ≫= unmarshal else s !! t.
Proof.
  revert s. induction l as [|f l IH]; intros s Hnd Hf.
  { rewrite decide_False; [done|]. by intros [?%elem_of_nil _]. }
  apply NoDup_cons in Hnd as [Hnf Hnd]. apply Forall_cons in Hf as [Hf Hfl].
  cbn [foldl]. rewrite IH by done. apply has_json_name in Hf. unfold loadFile.
  set (tf := slice_to _ f) in *. destruct (decide (tf = t)) as [->|Hne].
  - rewrite <-Hf. destruct (d !! f ≫= unmarshal) as [m|] eqn:E.
    + rewrite (decide_True (P := f ∈ f :: l ∧ _)) by (split; [left|by eexists]).
      rewrite decide_False by (by intros [? _]). by rewrite lookup_insert_eq.
    + by rewrite !decide_False by (by intros [_ [? ?]]).
  - assert (json_name t ∈ f :: l ↔ json_name t ∈ l) as Hin.
    { rewrite elem_of_cons. split; [|tauto]. intros [Heq|]; [|done].
      rewrite Hf in Heq. by apply (inj json_name) in Heq. }
    assert ((match d !! f ≫= unmarshal with Some r => <[tf := r]> s | None => s end) !! t = s !! t) as ->.
    { destruct (d !! f ≫= unmarshal); [by rewrite lookup_insert_ne|done]. }
    destruct (decide _) as [H1|H1], (decide (json_name t ∈ f :: l ∧ _)) as [H2|H2]; tauto.
Qed.

Lemma loadAll_lookup d t : loadAll d !! t = d !! json_name t ≫= unmarshal.
Proof.
  unfold loadAll. rewrite foldl_loadFile; [|apply NoDup_Glob|].
  - case_decide as H; [done|]. rewrite lookup_empty. symmetry.
    destruct (d !! json_name t) as [b|] eqn:E; [|done]. cbn.
    destruct (unmarshal b) as [m|] eqn:Eu; [|done]. exfalso. apply H. split.
    + apply elem_of_Glob. split; [apply has_suffix_app|by eexists].
    + by exists m.
  - apply Forall_forall. intros f Hf. by apply elem_of_Glob in Hf as [? _].
Qed.

Lemma tmp_ne_json n t : tmp_name n ≠ json_name t.
Proof.
  intros H. pose proof (tmp_not_suffix n) as Hn. rewrite H in Hn.
  pose proof (has_suffix_app ".json" t) as Hj. unfold json_name in Hn. congruence.
Qed.

(** The files hold what is in memory. *)
Definition meta_synced (s : MetaStore) (d : directory) : Prop :=
  ∀ t, match s !! t with
       | Some m => ∃ data, marshalIndent m = Some data ∧ d !! json_name t = Some data
       | None => d !! json_name t = None
       end.

Lemma meta_synced_load s d t : meta_synced s d → loadAll d !! t = json_view <$> s !! t.
Proof.
  intros Hs. rewrite loadAll_lookup. specialize (Hs t). destruct (s !! t) as [m|].
  - destruct Hs as (data & Hm & ->). cbn. by apply unmarshal_indent.
  - by rewrite Hs.
Qed.

(** Any state the save of one type passes through differs from the old one
    only in that type's file, which is the old or the new one. *)
Lemma save_states s s' t d d' data :
  meta_synced s d → marshalIndent (default ∅ (s' !! t)) = Some data → is_Some (s' !! t) →
  (∀ t', t' ≠ t → s' !! t' = s !! t') →
  (∀ t', d' !! json_name t' = d !! json_name t') ∨
    (d' !! json_name t = Some data ∧ ∀ t', t' ≠ t → d' !! json_name t' = d !! json_name t') →
  meta_synced s d' ∨ meta_synced s' d'.
Proof.
  intros Hs Hm [m' Hm'] Hoth [Hd|[Hd Hd']]; [left|right]; intros t'.
  - rewrite Hd. apply Hs.
  - destruct (decide (t' = t)) as [->|Hne].
    + rewrite Hm' in Hm |- *. by exists data.
    + rewrite Hoth, Hd' by done. apply Hs.
Qed.

Lemma atomic_write_states what t data fault d :
  let '(r, d') := atomic_write what (json_name t) data fault d in
  (r = Ok tt ∧ fault = WriteOk ∧ d' !! json_name t = Some data ∧
     ∀ t', t' ≠ t → d' !! json_name t' = d !! json_name t') ∨
  (is_ok r = false ∧ ∀ t', d' !! json_name t' = d !! json_name t').
Proof.
  destruct fault; cbn; [left|right..]; split; try done.
  - split; [done|]. rewrite lookup_insert_eq. split; [done|]. intros t' Hne.
    rewrite lookup_insert_ne, lookup_delete_ne; [done|apply tmp_ne_json|]. by intros ->%(inj json_name).
  - intros t'. rewrite lookup_insert_ne; [done|apply tmp_ne_json].
  - intros t'. rewrite lookup_delete_ne; [done|apply tmp_ne_json].
  - intros t'. rewrite lookup_delete_ne; [done|apply tmp_ne_json].
Qed.

Lemma crash_points_states t data d d' :
  crash_points (json_name t) data d d' →
  (∀ t', d' !! json_name t' = d !! json_name t') ∨
  (d' !! json_name t = Some data ∧ ∀ t', t' ≠ t → d' !! json_name t' = d !! json_name t').
Proof.
  intros [->|[[n ->]| ->]]; [by left| |].
  - left. intros t'. rewrite lookup_insert_ne; [done|apply tmp_ne_json].
  - right. rewrite lookup_insert_eq. split; [done|]. intros t' Hne.
    rewrite lookup_insert_ne, lookup_delete_ne; [done|apply tmp_ne_json|]. by intros ->%(inj json_name).
Qed.

Lemma saveType_states t fault s s' d :
  meta_synced s d → is_Some (s' !! t) → (∀ t', t' ≠ t → s' !! t' = s !! t') →
  let '(r, d') := saveType t fault s' d in
  (r = Ok tt ∧ meta_synced s' d') ∨ (is_ok r = false ∧ meta_synced s d').
Proof.
  intros Hs Ht Hoth. unfold saveType. destruct (marshalIndent _) as [data|] eqn:Hm; [|by right].
  pose proof (atomic_write_states t t data fault d) as Hw.
  destruct (atomic_write _ _ _ _ _) as [r d']. destruct Hw as [(-> & _ & H1 & H2)|[Hr H1]].
  - left. split; [done|]. intros t'. destruct (decide (t' = t)) as [->|Hne].
    + destruct Ht as [m' Hm']. rewrite Hm' in Hm |- *. by exists data.
    + rewrite Hoth, H2 by done. apply Hs.
  - right. split; [done|]. intros t'. rewrite H1. apply Hs.
Qed.

(** Keys with a namespace, and no slash in type or namespace: the keys that
    [ParseResourceKey] gives. *)
Definition key_ok (k : ResourceKey) : Prop :=
  no_slash k.(rk_Type) = true ∧ no_slash k.(rk_Namespace) = true ∧ k.(rk_Namespace) ≠ "".

Lemma ResourceKey_String_inj k k' :
  key_ok k → key_ok k' → ResourceKey_String k = ResourceKey_String k' → k = k'.
Proof.
  destruct k as [t n m], k' as [t' n' m']. intros (H1 & H2 & H3) (G1 & G2 & G3). cbn in *.
  unfold ResourceKey_String. cbn. rewrite !decide_False by done. intros Heq.
  assert (SplitN 3 (t +:+ "/" +:+ n +:+ "/" +:+ m) "/" = [t; n; m]) as Hs by by apply SplitN_3.
  assert (SplitN 3 (t' +:+ "/" +:+ n' +:+ "/" +:+ m') "/" = [t'; n'; m']) as Hs' by by apply SplitN_3.
  rewrite Heq, Hs' in Hs. by injection Hs as -> -> ->.
Qed.

Lemma Get_put_mem key key' v s :
  key_ok key → key_ok key' →
  Get key' (put_mem key v s) = if decide (key' = key) then Some v else Get key' s.
Proof.
  intros Hk Hk'. unfold Get, put_mem. case_decide as Hd.
  - subst. rewrite lookup_insert_eq. cbn. by rewrite lookup_insert_eq.
  - destruct (decide (key.(rk_Type) = key'.(rk_Type))) as [Ht|Ht].
    + rewrite Ht, lookup_insert_eq. cbn.
      rewrite lookup_insert_ne by (intros Heq; by apply (ResourceKey_String_inj key key') in Heq).
      by destruct (s !! key'.(rk_Type)).
    + by rewrite lookup_insert_ne.
Qed.

Lemma Get_delete_mem key key' s :
  key_ok key → key_ok key' →
  Get key' (delete_mem key s) = if decide (key' = key) then None else Get key' s.
Proof.
  intros Hk Hk'. unfold Get, delete_mem. destruct (s !! key.(rk_Type)) as [m|] eqn:E.
  - case_decide as Hd.
    + subst. rewrite lookup_insert_eq. cbn. by rewrite lookup_delete_eq.
    + destruct (decide (key.(rk_Type) = key'.(rk_Type))) as [Ht|Ht].
      * rewrite <-Ht, lookup_insert_eq, E. cbn.
        rewrite lookup_delete_ne; [done|]. intros Heq. by apply (ResourceKey_String_inj key key') in Heq.
      * by rewrite lookup_insert_ne.
  - case_decide as Hd; [|done]. subst. by rewrite E.
Qed.

Lemma Put_mem key v fault s d : (Put key v fault (s, d)).2.1 = put_mem key v s.
Proof. unfold Put. by destruct (saveType _ _ _ _). Qed.

Lemma Delete_mem key fault s d : (Delete key fault (s, d)).2.1 = delete_mem key s.
Proof.
  unfold Delete. destruct (s !! key.(rk_Type)) as [m|] eqn:E; [by destruct (saveType _ _ _ _)|].
  unfold delete_mem. by rewrite E.
Qed.

Lemma put_mem_type key v s : is_Some (put_mem key v s !! key.(rk_Type)).
Proof. unfold put_mem. rewrite lookup_insert_eq. eauto. Qed.
Lemma put_mem_other key v s t : t ≠ key.(rk_Type) → put_mem key v s !! t = s !! t.
Proof. intros Hne. unfold put_mem. by rewrite lookup_insert_ne. Qed.
Lemma delete_mem_type key s : is_Some (s !! key.(rk_Type)) → is_Some (delete_mem key s !! key.(rk_Type)).
Proof. intros [m Hm]. unfold delete_mem. rewrite Hm, lookup_insert_eq. eauto. Qed.
Lemma delete_mem_other key s t : t ≠ key.(rk_Type) → delete_mem key s !! t = s !! t.
Proof. intros Hne. unfold delete_mem. case_match; [by rewrite lookup_insert_ne|done]. Qed.

Lemma Put_synced key v fault s d :
  meta_synced s d →
  let '(r, (s', d')) := Put key v fault (s, d) in
  if is_ok r then meta_synced s' d' else meta_synced s d'.
Proof.
  intros Hs. unfold Put. pose proof (saveType_states key.(rk_Type) fault s _ d Hs
    (put_mem_type key v s) (put_mem_other key v s)) as H.
  destruct (saveType _ _ _ _) as [r d']. by destruct H as [[-> H]|[-> H]].
Qed.

Lemma Delete_synced key fault s d :
  meta_synced s d →
  let '(r, (s', d')) := Delete key fault (s, d) in
  if is_ok r then meta_synced s' d' else meta_synced s d'.
Proof.
  intros Hs. unfold Delete. destruct (s !! key.(rk_Type)) as [m|] eqn:E; [|done].
  pose proof (saveType_states key.(rk_Type) fault s _ d Hs
    (delete_mem_type key s ltac:(eauto)) (delete_mem_other key s)) as H.
  destruct (saveType _ _ _ _) as [r d']. by destruct H as [[-> H]|[-> H]].
Qed.

(** ** Properties *)

(** [Put] and [Delete] act on the key they are given and no other:
    afterwards [Get] of that key gives the value put, or nothing, and [Get] of
    every other well-formed key what it gave before, whether or not the file
    could be written. *)
Theorem meta_get_laws (key key' : ResourceKey) (v : V) (fault : write_fault)
    (s : MetaStore) (d : directory) (Hk : key_ok key) (Hk' : key_ok key') :
  Get key' (Put key v fault (s, d)).2.1 = (if decide (key' = key) then Some v else Get key' s) ∧
  Get key' (Delete key fault (s, d)).2.1 = (if decide (key' = key) then None else Get key' s).
Proof.
  rewrite Put_mem, Delete_mem. split; [by apply Get_put_mem|by apply Get_delete_mem].
Qed.

(** C6. The files are a crash-safe image of memory: from a state in step, an
    operation that reports success leaves memory and files in step, and one
    that fails leaves the files as they were; and after a crash between any
    two of its file calls, loading the directory gives, for every type, the
    resources either before or after the operation. *)
Theorem meta_crash_safe (key : ResourceKey) (v : V) (fault : write_fault) (s : MetaStore)
    (d : directory) (Hs : meta_synced s d) :
  (let '(r, (s', d')) := Put key v fault (s, d) in
   if is_ok r then meta_synced s' d' else meta_synced s d') ∧
  (let '(r, (s', d')) := Delete key fault (s, d) in
   if is_ok r then meta_synced s' d' else meta_synced s d') ∧
  (∀ s' data d', s' = put_mem key v s ∨ (is_Some (s !! key.(rk_Type)) ∧ s' = delete_mem key s) →
    marshalIndent (default ∅ (s' !! key.(rk_Type))) = Some data →
    crash_points (json_name key.(rk_Type)) data d d' →
    (∀ t, NewMetaStore d' !! t = json_view <$> s !! t) ∨
    (∀ t, NewMetaStore d' !! t = json_view <$> s' !! t)).
Proof.
  split_and!; [by apply Put_synced|by apply Delete_synced|].
  intros s' data d' Hs' Hm Hc.
  assert (is_Some (s' !! key.(rk_Type)) ∧ ∀ t', t' ≠ key.(rk_Type) → s' !! t' = s !! t') as [H1 H2].
  { destruct Hs' as [->|[He ->]].
    - split; [apply put_mem_type|apply put_mem_other].
    - split; [by apply delete_mem_type|apply delete_mem_other]. }
  apply crash_points_states in Hc.
  destruct (save_states s s' _ d d' data Hs Hm H1 H2 Hc) as [H|H]; [left|right];
    intros t; by apply meta_synced_load.
Qed.
End meta.

(** *** Witnesses: resources that are strings, with the concrete codec *)

#[local] Existing Instance toy_codec.

Definition ex_key : ResourceKey := mkResourceKey "proxy" "default" "dev:8080".
Definition ex_key2 : ResourceKey := mkResourceKey "proxy" "default" "cam:80".

Lemma meta_get_laws_witness :
  Get ex_key (Put ex_key "a" WriteOk (∅, ∅)).2.1 = Some "a" ∧
  Get ex_key2 (Put ex_key "a" (WriteShort 3) (∅, ∅)).2.1 = None.
Proof.
  assert (key_ok ex_key) as H1 by done. assert (key_ok ex_key2) as H2 by done.
  split; [by vm_compute|].
  rewrite (proj1 (meta_get_laws ex_key ex_key2 "a" (WriteShort 3) ∅ ∅ H1 H2)). by vm_compute.
Defined.

Lemma meta_crash_safe_witness :
  meta_synced (∅ : gmap string (gmap string string)) ∅ ∧
  meta_synced (put_mem ex_key "a" ∅) (Put ex_key "a" WriteOk (∅, ∅)).2.2.
Proof.
  assert (meta_synced (∅ : gmap string (gmap string string)) ∅) as H0 by by intros t; rewrite !lookup_empty.
  split; [exact H0|]. exact (proj1 (meta_crash_safe ex_key "a" WriteOk ∅ ∅ H0)).
Defined.
