(* ===== verification/StorageManager.v ===== *)
(** * The storage manager (common/store/manager.go)

    One lock over the event log, the snapshots and the resource files.  An
    operation works on the manager and its three directories; [call_env] is
    what the outside gives it: the clock, fresh identifiers and where the file
    calls stop, if they do.  [order] is the order in which Go ranges over the
    resources of a type when it builds a snapshot. *)

From S2P Require Import Prelude Types Proto StateStore Disk EventStore SnapshotStore MetaStore.

Record call_env := mkCallEnv {
  ce_now : Z;                     (* milliseconds *)
  ce_id : string;                 (* GenerateID of the event *)
  ce_snapshot_id : string;
  ce_append : append_fault;
  ce_snapshot : write_fault;
  ce_meta : write_fault;
}.

Record Dirs := mkDirs { d_events : directory; d_snapshots : directory; d_meta : directory }.

Record StorageManager := mkStorageManager {
  events : EventStore;
  snapshots : SnapshotStore (V := any);
  meta : gmap string (gmap string any);
  snapshotInterval : Z;
  eventCount : Z;
  dirs : Dirs;
}.

Record StorageStats := mkStats { st_EventCount : Z; st_SnapshotCount : Z; st_ResourceCount : Z }.

Section manager.
Context `{!JsonCodec GenericEvent} `{!JsonCodec (Snapshot (V := any))} `{!JsonCodec (gmap string any)}.
Context (order : MapOrder).

(** Later stores opened with the ones before; [now] is in seconds. *)
Definition NewStorageManager (interval now : Z) (ds : Dirs) : Res StorageManager :=
  let interval := if (interval <=? 0)%Z then 1000%Z else interval in
  let '(es, de) := NewEventStore now ds.(d_events) in
  ss ← NewSnapshotStore ds.(d_snapshots);
  Ok (mkStorageManager es ss (NewMetaStore ds.(d_meta)) interval 0
        (mkDirs de ds.(d_snapshots) ds.(d_meta))).

(** The inner loops of [createSnapshot]: a resource is filed under the name
    its key parses to, or under the key itself. *)
Definition normalize_entry (acc : gmap string any) (kv : string * any) : gmap string any :=
  match ParseResourceKey kv.1 with
  | Ok rk => <[rk.(rk_Name) := kv.2]> acc
  | Err _ => <[kv.1 := kv.2]> acc
  end.
Definition normalize (resources : gmap string any) : gmap string any :=
  foldl normalize_entry ∅ (order resources).

Definition snapshot_entry (state : gmap string (gmap string any)) (tr : string * gmap string any) :
    gmap string (gmap string any) :=
  if decide (tr.1 = "proxy") then <["desired_proxies" := normalize tr.2]> state
  else if decide (tr.1 = "relay") then <["desired_relays" := normalize tr.2]> state
  else <[tr.1 := tr.2]> state.
Definition snapshot_state (m : gmap string (gmap string any)) : gmap string (gmap string any) :=
  foldl snapshot_entry ∅ (map_to_list (ListAll m)).

Definition createSnapshot (c : call_env) (m : StorageManager) : StorageManager :=
  let sequence := EventCount m.(events) in
  let '(_, (ss, d)) := Save c.(ce_snapshot_id) c.(ce_now) (snapshot_state m.(meta)) sequence
                         c.(ce_snapshot) (m.(snapshots), m.(dirs).(d_snapshots)) in
  mkStorageManager m.(events) ss m.(meta) m.(snapshotInterval) m.(eventCount)
    (mkDirs m.(dirs).(d_events) d m.(dirs).(d_meta)).

Definition set_events (es : EventStore) (d : directory) (m : StorageManager) : StorageManager :=
  mkStorageManager es m.(snapshots) m.(meta) m.(snapshotInterval) m.(eventCount)
    (mkDirs d m.(dirs).(d_snapshots) m.(dirs).(d_meta)).
Definition set_meta (s : gmap string (gmap string any)) (d : directory) (m : StorageManager) : StorageManager :=
  mkStorageManager m.(events) m.(snapshots) s m.(snapshotInterval) m.(eventCount)
    (mkDirs m.(dirs).(d_events) m.(dirs).(d_snapshots) d).
Definition set_count (n : Z) (m : StorageManager) : StorageManager :=
  mkStorageManager m.(events) m.(snapshots) m.(meta) m.(snapshotInterval) n m.(dirs).

(** [m.events.Append(event)] *)
Definition append (c : call_env) (event : GenericEvent) (m : StorageManager) : Res unit * StorageManager :=
  let '(r, (es, d)) := Append event c.(ce_now) c.(ce_append) (m.(events), m.(dirs).(d_events)) in
  (r, set_events es d m).

(** [m.eventCount++], and a snapshot when the interval is reached. *)
Definition count_event (c : call_env) (m : StorageManager) : StorageManager :=
  let m := set_count (int64_wrap (m.(eventCount) + 1)) m in
  if (m.(snapshotInterval) <=? m.(eventCount))%Z then set_count 0 (createSnapshot c m) else m.

Definition AppendEvent (c : call_env) (event : GenericEvent) (m : StorageManager) : Res unit * StorageManager :=
  match append c event m with
  | (Err e, m) => (Err e, m)
  | (Ok _, m) => (Ok tt, count_event c m)
  end.

Definition AppendEventAndSave (c : call_env) (event : GenericEvent) (resource : any) (m : StorageManager) :
    Res unit * StorageManager :=
  match append c event m with
  | (Err e, m) => (Err e, m)
  | (Ok _, m) =>
      let m := count_event c m in
      match resource with
      | ANil => (Ok tt, m)
      | _ =>
          let '(r, (s, d)) := Put event.(ge_Resource) resource c.(ce_meta) (m.(meta), m.(dirs).(d_meta)) in
          (r, set_meta s d m)
      end
  end.

Definition DeleteResource (c : call_env) (key : ResourceKey) (m : StorageManager) : Res unit * StorageManager :=
  match Delete key c.(ce_meta) (m.(meta), m.(dirs).(d_meta)) with
  | (Err e, (s, d)) => (Err e, set_meta s d m)
  | (Ok _, (s, d)) =>
      let m := set_meta s d m in
      let event := NewGenericEvent c.(ce_id) c.(ce_now) key EventDeleted ANil in
      match append c event m with
      | (Err e, m) => (Err e, m)
      | (Ok _, m) => (Ok tt, count_event c m)
      end
  end.

(** [Close]: a final snapshot, then every resource file again; the two other
    stores only close their files. *)
Definition Close (c : call_env) (m : StorageManager) : Res unit * StorageManager :=
  let m := createSnapshot c m in
  let '(r, d) := MetaClose (λ _, c.(ce_meta)) m.(meta) m.(dirs).(d_meta) in
  (r, set_meta m.(meta) d m).

Definition Stats (m : StorageManager) : StorageStats :=
  mkStats (EventCount m.(events)) 1 (Count "" m.(meta)).

(** ** Lemmas *)

Lemma createSnapshot_meta c m :
  (createSnapshot c m).(meta) = m.(meta) ∧ (createSnapshot c m).(dirs).(d_meta) = m.(dirs).(d_meta) ∧
  (createSnapshot c m).(events) = m.(events) ∧ (createSnapshot c m).(dirs).(d_events) = m.(dirs).(d_events) ∧
  (createSnapshot c m).(snapshotInterval) = m.(snapshotInterval).
Proof. unfold createSnapshot. by destruct (Save _ _ _ _ _ _) as [r [ss d]]. Qed.

Lemma count_event_meta c m :
  (count_event c m).(meta) = m.(meta) ∧ (count_event c m).(dirs).(d_meta) = m.(dirs).(d_meta) ∧
  (count_event c m).(events) = m.(events) ∧ (count_event c m).(dirs).(d_events) = m.(dirs).(d_events) ∧
  (count_event c m).(snapshotInterval) = m.(snapshotInterval).
Proof.
  unfold count_event. case_match; [|done].
  destruct (createSnapshot_meta c (set_count (int64_wrap (m.(eventCount) + 1)) m)) as (?&?&?&?&?).
  by split_and!.
Qed.

Lemma count_event_bound c m :
  (0 <= m.(eventCount) < m.(snapshotInterval))%Z → (m.(snapshotInterval) <= int64_max)%Z →
  (0 <= (count_event c m).(eventCount) < m.(snapshotInterval))%Z.
Proof.
  intros Hc Hi. unfold count_event. cbn.
  assert (int64_wrap (m.(eventCount) + 1) = m.(eventCount) + 1)%Z as ->
    by (apply int64_wrap_id; unfold int64_min in *; lia).
  destruct (Z.leb_spec m.(snapshotInterval) (m.(eventCount) + 1)); cbn; lia.
Qed.

Lemma append_other c e m :
  let '(r, m') := append c e m in
  m'.(meta) = m.(meta) ∧ m'.(dirs).(d_meta) = m.(dirs).(d_meta) ∧ m'.(snapshots) = m.(snapshots) ∧
  m'.(snapshotInterval) = m.(snapshotInterval) ∧ m'.(eventCount) = m.(eventCount).
Proof. unfold append. by destruct (Append _ _ _ _) as [r [es d]]. Qed.

(** The stores of the manager are each in good order, and a snapshot is not
    overdue. *)
Record sm_ok (m : StorageManager) : Prop := mkSmOk {
  sm_events : es_ready m.(events) m.(dirs).(d_events);
  sm_meta : meta_synced m.(meta) m.(dirs).(d_meta);
  sm_count : (0 <= m.(eventCount) < m.(snapshotInterval))%Z;
  sm_interval : (m.(snapshotInterval) <= int64_max)%Z;
}.

Lemma append_spec c e m :
  sm_ok m → (m.(events).(es_sequence) < int64_max)%Z →
  let '(r, m') := append c e m in
  r = Ok tt → sm_ok m' ∧
    disk_events m'.(dirs).(d_events) ≡ₚ
      disk_events m.(dirs).(d_events) ++ [json_view (stored m.(events) e c.(ce_now))].
Proof.
  intros Hok Hmax. pose proof (Append_spec e c.(ce_now) c.(ce_append) _ _ (sm_events _ Hok) Hmax) as H.
  unfold append. destruct (Append _ _ _ _) as [r [es d]]. intros ->. cbn in H.
  destruct H as (_ & _ & Hr & Hd). split; [|done]. destruct Hok. by split.
Qed.

Lemma count_event_ok c m : sm_ok m → sm_ok (count_event c m).
Proof.
  intros Hok. destruct (count_event_meta c m) as (H1 & H2 & H3 & H4 & H5).
  pose proof (count_event_bound c m (sm_count _ Hok) (sm_interval _ Hok)).
  destruct Hok. split; by rewrite ?H1, ?H2, ?H3, ?H4, ?H5.
Qed.

(** A save that reports success has put its resource in memory and on disk. *)
Lemma AppendEventAndSave_inv c e resource m m' :
  resource ≠ ANil → AppendEventAndSave c e resource m = (Ok tt, m') →
  ∃ m1 s d, append c e m = (Ok tt, m1) ∧
    Put e.(ge_Resource) resource c.(ce_meta)
      ((count_event c m1).(meta), (count_event c m1).(dirs).(d_meta)) = (Ok tt, (s, d)) ∧
    m' = set_meta s d (count_event c m1).
Proof.
  intros Hres Hop. unfold AppendEventAndSave in Hop.
  destruct (append c e m) as [[[]|err] m1]; [|done].
  destruct (Put e.(ge_Resource) resource c.(ce_meta)
    ((count_event c m1).(meta), (count_event c m1).(dirs).(d_meta))) as [r [s d]] eqn:E.
  exists m1, s, d. assert ((r, set_meta s d (count_event c m1)) = (Ok tt, m')) as Heq
    by (destruct resource; done).
  by injection Heq as -> <-.
Qed.

Lemma DeleteResource_inv c key m m' :
  DeleteResource c key m = (Ok tt, m') →
  ∃ s d m1, Delete key c.(ce_meta) (m.(meta), m.(dirs).(d_meta)) = (Ok tt, (s, d)) ∧
    append c (NewGenericEvent c.(ce_id) c.(ce_now) key EventDeleted ANil) (set_meta s d m) = (Ok tt, m1) ∧
    m' = count_event c m1.
Proof.
  unfold DeleteResource. destruct (Delete _ _ _) as [[[]|err] [s d]] eqn:E; [|done].
  destruct (append _ _ _) as [[[]|err] m1] eqn:Ea; [|done]. intros [= <-]. by exists s, d, m1.
Qed.

(** ** Properties *)

(** An operation of the manager that reports success keeps the log, the
    resource files and the snapshot counter in good order, adds exactly one
    event to the files, and leaves the resource stored, or deleted. *)
Theorem manager_operations (c : call_env) (e : GenericEvent) (resource : any) (m : StorageManager)
    (Hok : sm_ok m) (Hmax : (m.(events).(es_sequence) < int64_max)%Z)
    (Hkey : key_ok e.(ge_Resource)) (Hres : resource ≠ ANil) :
  (∀ m', AppendEventAndSave c e resource m = (Ok tt, m') →
     sm_ok m' ∧ Get e.(ge_Resource) m'.(meta) = Some resource ∧
     disk_events m'.(dirs).(d_events) ≡ₚ
       disk_events m.(dirs).(d_events) ++ [json_view (stored m.(events) e c.(ce_now))]) ∧
  (∀ m', DeleteResource c e.(ge_Resource) m = (Ok tt, m') →
     sm_ok m' ∧ Get e.(ge_Resource) m'.(meta) = None ∧
     disk_events m'.(dirs).(d_events) ≡ₚ
       disk_events m.(dirs).(d_events) ++
         [json_view (stored m.(events) (NewGenericEvent c.(ce_id) c.(ce_now) e.(ge_Resource)
            EventDeleted ANil) c.(ce_now))]).
Proof.
  split; intros m' Hop.
  - apply AppendEventAndSave_inv in Hop as (m1 & s & d & Ha & Hput & ->); [|done].
    pose proof (append_spec c e m Hok Hmax) as Hs. rewrite Ha in Hs. destruct (Hs eq_refl) as [Hok1 Hd1].
    pose proof (count_event_ok c m1 Hok1) as Hok2.
    destruct (count_event_meta c m1) as (_ & _ & _ & Hde & _).
    pose proof (Put_synced e.(ge_Resource) resource c.(ce_meta) _ _ (sm_meta _ Hok2)) as Hsync.
    pose proof (Put_mem e.(ge_Resource) resource c.(ce_meta) (count_event c m1).(meta)
      (count_event c m1).(dirs).(d_meta)) as Hmem.
    rewrite Hput in Hsync, Hmem. cbn in Hsync, Hmem |- *. split_and!; [|..|by rewrite Hde].
    + destruct Hok2. by split.
    + rewrite Hmem, Get_put_mem by done. by rewrite decide_True.
  - apply DeleteResource_inv in Hop as (s & d & m1 & Hdel & Ha & ->).
    pose proof (Delete_synced e.(ge_Resource) c.(ce_meta) _ _ (sm_meta _ Hok)) as Hsync.
    pose proof (Delete_mem e.(ge_Resource) c.(ce_meta) m.(meta) m.(dirs).(d_meta)) as Hmem.
    rewrite Hdel in Hsync, Hmem. cbn in Hsync, Hmem.
    assert (sm_ok (set_meta s d m)) as Hok1 by (destruct Hok; by split).
    pose proof (λ e', append_spec c e' (set_meta s d m) Hok1 Hmax) as Hs.
    pose proof (append_other c (NewGenericEvent c.(ce_id) c.(ce_now) e.(ge_Resource) EventDeleted ANil)
      (set_meta s d m)) as Ho.
    rewrite Ha in Ho. specialize (Hs (NewGenericEvent c.(ce_id) c.(ce_now) e.(ge_Resource) EventDeleted ANil)).
    rewrite Ha in Hs. destruct (Hs eq_refl) as [Hok2 Hd2]. destruct Ho as (Hm1 & _).
    destruct (count_event_meta c m1) as (Hme & _ & _ & Hde & _).
    split_and!; [by apply count_event_ok| |by rewrite Hde].
    rewrite Hme, Hm1. cbn. rewrite Hmem, Get_delete_mem by done. by rewrite decide_True.
Qed.

Lemma createSnapshot_latest c m :
  (createSnapshot c m).(snapshots) = m.(snapshots) ∨
  ∃ sn, (createSnapshot c m).(snapshots).(latest) = Some sn ∧ sn.(sn_State) = snapshot_state m.(meta) ∧
        sn.(sn_Sequence) = EventCount m.(events).
Proof.
  unfold createSnapshot, Save. destruct (marshalIndent _) as [data|]; [|by left].
  destruct (atomic_write _ _ _ _ _) as [[]d]; [right|by left]. by eexists.
Qed.

(** A snapshot lags one resource behind: the one [AppendEventAndSave]
    takes is built before the resource is stored, so it counts the event in
    its sequence and holds the resources as they were without it. *)
Theorem snapshot_lags (c : call_env) (e : GenericEvent) (resource : any) (m m' : StorageManager)
    (sn : Snapshot) (Hkey : key_ok e.(ge_Resource)) (Hres : resource ≠ ANil)
    (Hop : AppendEventAndSave c e resource m = (Ok tt, m'))
    (Hnew : m'.(snapshots).(latest) = Some sn) (Hold : m.(snapshots).(latest) ≠ Some sn) :
  sn.(sn_Sequence) = EventCount m'.(events) ∧ sn.(sn_State) = snapshot_state m.(meta) ∧
  Get e.(ge_Resource) m'.(meta) = Some resource.
Proof.
  apply AppendEventAndSave_inv in Hop as (m1 & s & d & Ha & Hput & ->); [|done].
  pose proof (append_other c e m) as Ho. rewrite Ha in Ho. destruct Ho as (Hme & _ & Hsn & _ & _).
  pose proof (Put_mem e.(ge_Resource) resource c.(ce_meta) (count_event c m1).(meta)
    (count_event c m1).(dirs).(d_meta)) as Hmem.
  rewrite Hput in Hmem. cbn in Hmem, Hnew |- *. rewrite Hmem, Get_put_mem, decide_True by done.
  destruct (count_event_meta c m1) as (_ & _ & Hev & _). rewrite Hev.
  assert (sn.(sn_Sequence) = EventCount m1.(events) ∧ sn.(sn_State) = snapshot_state m1.(meta)) as [H1 H2].
  { revert Hnew. unfold count_event. rewrite <-Hsn in Hold. destruct (_ <=? _)%Z; cbn; [|done].
    destruct (createSnapshot_latest c (set_count (int64_wrap (m1.(eventCount) + 1)) m1))
      as [Heq|(sn' & Hl & Hst & Hsq)]; intros Hnew; [by rewrite Heq in Hnew|].
    rewrite Hl in Hnew. injection Hnew as ->. done. }
  by rewrite H1, H2, Hme.
Qed.
End manager.

(** *** Witnesses: a manager with interval 1 over empty directories *)

Definition ex_proxy_tuple (v : any) : option (string * Z * Z * string * string * string) :=
  match v with
  | AProxyState p => Some (p.(ps_ClientID), p.(ps_RemotePort), p.(ps_LocalPort), p.(ps_LocalIP),
                           p.(ps_Protocol), p.(ps_BindAddr))
  | _ => None
  end.
Definition ex_tuple_json (x : string * Z * Z * string * string * string) : any :=
  let '(c, rp, lp, ip, pr, b) := x in AMap (json_proxy_fields c rp lp ip pr b).
Definition ex_fmt_time : Z → string := pretty.

(** A codec for maps whose values are proxies; other maps do not encode. *)
Definition ex_map_tuples (m : gmap string any) : option (gmap string (string * Z * Z * string * string * string)) :=
  if decide (map_Forall (λ _ v, is_Some (ex_proxy_tuple v)) m) then Some (omap ex_proxy_tuple m) else None.
Definition ex_map_text (m : gmap string any) : option bytes := (λ x, pos_bits (encode x)) <$> ex_map_tuples m.
Definition ex_text_map (b : bytes) : option (gmap string any) :=
  match bits_pos b with
  | Some p => fmap (M := gmap string) ex_tuple_json <$> decode p
  | None => None
  end.

Lemma ex_map_text_Some m b :
  ex_map_text m = Some b → map_Forall (λ _ v, is_Some (ex_proxy_tuple v)) m ∧
    b = pos_bits (encode (omap ex_proxy_tuple m)).
Proof.
  unfold ex_map_text, ex_map_tuples. case_decide; [|done]. by intros [= <-].
Qed.

Lemma ex_text_map_text m b : ex_map_text m = Some b → ex_text_map b = Some (json_norm ex_fmt_time <$> m).
Proof.
  intros (Hall & ->)%ex_map_text_Some. unfold ex_text_map. rewrite bits_pos_bits. rewrite decode_encode. cbn. f_equal. apply map_eq. intros k. rewrite !lookup_fmap, lookup_omap.
  destruct (m !! k) as [v|] eqn:E; [|done]. cbn. specialize (Hall _ _ E).
  destruct v; cbn in Hall; by destruct Hall.
Qed.
Lemma ex_map_text_line m b : ex_map_text m = Some b → b ≠ [] ∧ "010"%char ∉ b.
Proof. intros (_ & ->)%ex_map_text_Some. apply pos_bits_line. Qed.
Lemma ex_map_text_prefix m b n : ex_map_text m = Some b → n < length b → ex_text_map (take n b) = None.
Proof. intros (_ & ->)%ex_map_text_Some Hn. unfold ex_text_map. by rewrite pos_bits_prefix. Qed.

Definition toy_map_codec : JsonCodec (gmap string any) := {|
  json_view m := json_norm ex_fmt_time <$> m;
  marshal := ex_map_text;
  marshalIndent := ex_map_text;
  unmarshal := ex_text_map;
  unmarshal_marshal := ex_text_map_text;
  unmarshal_indent := ex_text_map_text;
  marshal_line := ex_map_text_line;
  marshal_prefix := ex_map_text_prefix;
|}.

Definition ex_snapshot_tuple (sn : Snapshot (V := any)) :
    option (string * Z * Z * gmap string (gmap string (string * Z * Z * string * string * string))) :=
  if decide (map_Forall (λ _ v, is_Some (ex_map_tuples v)) sn.(sn_State)) then
    Some (sn.(sn_ID), sn.(sn_Timestamp), sn.(sn_Sequence), omap ex_map_tuples sn.(sn_State)) else None.
Definition ex_tuple_snapshot (x : string * Z * Z * gmap string (gmap string (string * Z * Z * string * string * string))) :
    Snapshot (V := any) :=
  let '(id, ts, sq, st) := x in mkSnapshot id ts sq (fmap (M := gmap string) (fmap (M := gmap string) ex_tuple_json) st).
Definition snapshot_view (sn : Snapshot (V := any)) : Snapshot (V := any) :=
  mkSnapshot sn.(sn_ID) sn.(sn_Timestamp) sn.(sn_Sequence)
    (fmap (M := gmap string) (fmap (M := gmap string) (json_norm ex_fmt_time)) sn.(sn_State)).
Definition ex_snapshot_text (sn : Snapshot (V := any)) : option bytes :=
  (λ x, pos_bits (encode x)) <$> ex_snapshot_tuple sn.
Definition ex_text_snapshot (b : bytes) : option (Snapshot (V := any)) :=
  match bits_pos b with
  | Some p => ex_tuple_snapshot <$> decode p
  | None => None
  end.

Lemma ex_tuples_json m x : ex_map_tuples m = Some x → ex_tuple_json <$> x = json_norm ex_fmt_time <$> m.
Proof.
  intros Hx. assert (ex_map_text m = Some (pos_bits (encode x))) as Ht by (unfold ex_map_text; by rewrite Hx).
  apply ex_text_map_text in Ht. unfold ex_text_map in Ht. rewrite bits_pos_bits in Ht.
  rewrite decode_encode in Ht. by injection Ht.
Qed.

Lemma ex_snapshot_text_Some sn b :
  ex_snapshot_text sn = Some b → ∃ x, ex_tuple_snapshot x = snapshot_view sn ∧ b = pos_bits (encode x).
Proof.
  unfold ex_snapshot_text, ex_snapshot_tuple. case_decide as Hall; [|done]. intros [= <-].
  eexists. split; [|done]. cbn. unfold snapshot_view. f_equal. apply map_eq. intros k.
  rewrite !lookup_fmap, lookup_omap. destruct (sn.(sn_State) !! k) as [m|] eqn:E; [|done]. cbn.
  destruct (Hall _ _ E) as [x Hx]. rewrite Hx. cbn. by rewrite (ex_tuples_json _ _ Hx).
Qed.

Lemma ex_text_snapshot_text sn b : ex_snapshot_text sn = Some b → ex_text_snapshot b = Some (snapshot_view sn).
Proof.
  intros (x & Hx & ->)%ex_snapshot_text_Some. unfold ex_text_snapshot. rewrite bits_pos_bits.
  rewrite decode_encode. cbn. by rewrite Hx.
Qed.
Lemma ex_snapshot_line sn b : ex_snapshot_text sn = Some b → b ≠ [] ∧ "010"%char ∉ b.
Proof. intros (x & _ & ->)%ex_snapshot_text_Some. apply pos_bits_line. Qed.
Lemma ex_snapshot_prefix sn b n :
  ex_snapshot_text sn = Some b → n < length b → ex_text_snapshot (take n b) = None.
Proof. intros (x & _ & ->)%ex_snapshot_text_Some Hn. unfold ex_text_snapshot. by rewrite pos_bits_prefix. Qed.

Definition toy_snapshot_codec : JsonCodec (Snapshot (V := any)) := {|
  json_view := snapshot_view;
  marshal := ex_snapshot_text;
  marshalIndent := ex_snapshot_text;
  unmarshal := ex_text_snapshot;
  unmarshal_marshal := ex_text_snapshot_text;
  unmarshal_indent := ex_text_snapshot_text;
  marshal_line := ex_snapshot_line;
  marshal_prefix := ex_snapshot_prefix;
|}.

#[local] Existing Instance toy_event_codec.
#[local] Existing Instance toy_map_codec.
#[local] Existing Instance toy_snapshot_codec.

Definition ex_env : call_env := mkCallEnv 50 "e1" "s1" AppendOk WriteOk WriteOk.
Definition ex_event : GenericEvent :=
  mkEvent "a" 0 7 0 0 (mkResourceKey "proxy" "default" "dev:8080") EventAdded ANil.
Definition ex_resource : any := AProxyState ex_proxy.
Definition ex_manager : StorageManager :=
  mkStorageManager ex_log.1 (mkSnapshotStore None) ∅ 1 0 (mkDirs ex_log.2 ∅ ∅).

Lemma ex_manager_ok : sm_ok ex_manager.
Proof.
  split; [apply ex_log_ready|intros t; cbn; by rewrite !lookup_empty|split; by vm_compute|by vm_compute].
Qed.

Lemma manager_operations_witness :
  ∃ m', AppendEventAndSave map_to_list ex_env ex_event ex_resource ex_manager = (Ok tt, m') ∧ sm_ok m'.
Proof.
  assert (ex_manager.(events).(es_sequence) < int64_max)%Z as Hmax by by vm_compute.
  assert (key_ok ex_event.(ge_Resource)) as Hkey by done.
  assert (ex_resource ≠ ANil) as Hres by done.
  destruct (AppendEventAndSave map_to_list ex_env ex_event ex_resource ex_manager) as [r m'] eqn:E.
  assert (r = Ok tt) as -> by (change r with (r, m').1; rewrite <-E; by vm_compute).
  exists m'. split; [done|].
  exact (proj1 (proj1 (manager_operations map_to_list ex_env ex_event ex_resource ex_manager
    ex_manager_ok Hmax Hkey Hres) m' E)).
Defined.

Lemma snapshot_lags_witness :
  ∃ m' sn, AppendEventAndSave map_to_list ex_env ex_event ex_resource ex_manager = (Ok tt, m') ∧
    m'.(snapshots).(latest) = Some sn ∧ sn.(sn_State) = ∅ ∧
    Get ex_event.(ge_Resource) m'.(meta) = Some ex_resource.
Proof.
  assert (key_ok ex_event.(ge_Resource)) as Hkey by done.
  assert (ex_resource ≠ ANil) as Hres by done.
  destruct (AppendEventAndSave map_to_list ex_env ex_event ex_resource ex_manager) as [r m'] eqn:E.
  assert (r = Ok tt) as -> by (change r with (r, m').1; rewrite <-E; by vm_compute).
  destruct (m'.(snapshots).(latest)) as [sn|] eqn:Hsn.
  - exists m', sn. split; [done|]. split; [done|].
    assert (ex_manager.(snapshots).(latest) ≠ Some sn) as Hold by done.
    destruct (snapshot_lags map_to_list ex_env ex_event ex_resource ex_manager m' sn Hkey Hres E Hsn Hold)
      as (_ & H2 & H3).
    split; [by rewrite H2; vm_compute|exact H3].
  - exfalso. change m' with (@Ok unit tt, m').2 in Hsn. rewrite <-E in Hsn. by vm_compute in Hsn.
Defined.
