(* ===== verification/Core.v ===== *)
(** * Capabilities, the event-bus provider and the core (runtime/{capability,provider,core}.go)

    The core owns the state store, the reconcile engine, the capability
    registry and the storage.  Its three subscriptions are the handlers
    [on_client], [on_proxy] and [on_relay]; the event bus calls them one event
    of a type at a time, in queue order (see EventBus), so a history of a type
    is a list of events folded through its handler.  The reconcile provider
    publishes events: [core_env] is the engine's environment in which the
    store is read and the events published are recorded. *)

From S2P Require Import Prelude Types Proto StateStore Reconcile Disk EventStore SnapshotStore MetaStore StorageManager.

(** ** Capability registry *)

Module Capability.
Section registry.
(** Handlers run in a world [W]; providers are opaque. *)
Context {W Provider : Type}.

Record ParamSchema := mkParam { p_Name : string; p_Type : string; p_Required : bool; p_Default : string }.
Record ActionSchema := mkSchema { as_Name : string; as_Description : string; as_Params : list ParamSchema }.
Record Capability := mkCapability {
  cap_Name : string;
  cap_Description : string;
  cap_Source : string;
  cap_Schema : ActionSchema;
}.
Record ActionContext := mkCtx {
  ctx_Action : string;
  ctx_Params : gmap string any;
  ctx_Headers : gmap string string;
}.
(** A body is sent in place of the JSON answer. *)
Record ResultBody := mkBody { rb_data : bytes; rb_Name : string; rb_Size : Z }.
Record ActionResult := mkResultBody { ar_Code : Z; ar_Msg : string; ar_Data : any; ar_Body : option ResultBody }.
Definition mkResult (code : Z) (msg : string) (data : any) : ActionResult := mkResultBody code msg data None.
Definition ActionHandler := ActionContext → W → Res ActionResult * W.

Record capabilityEntry := mkEntry { en_capability : Capability; en_handler : ActionHandler }.
Record CapabilityRegistryImpl := mkRegistry {
  entries : gmap string capabilityEntry;
  proxyProviders : gmap string Provider;
  relayProviders : gmap string Provider;
}.

Definition NewCapabilityRegistry : CapabilityRegistryImpl := mkRegistry ∅ ∅ ∅.
Definition Register (c : Capability) (h : ActionHandler) (r : CapabilityRegistryImpl) : CapabilityRegistryImpl :=
  mkRegistry (<[c.(cap_Name) := mkEntry c h]> r.(entries)) r.(proxyProviders) r.(relayProviders).
Definition Unregister (name : string) (r : CapabilityRegistryImpl) : CapabilityRegistryImpl :=
  mkRegistry (delete name r.(entries)) r.(proxyProviders) r.(relayProviders).
Definition Get (name : string) (r : CapabilityRegistryImpl) : option (Capability * ActionHandler) :=
  (λ e, (e.(en_capability), e.(en_handler))) <$> r.(entries) !! name.
Definition List (r : CapabilityRegistryImpl) : list Capability := en_capability <$> (map_to_list r.(entries)).*2.
Definition Has (name : string) (r : CapabilityRegistryImpl) : bool := bool_decide (is_Some (r.(entries) !! name)).
Definition Execute (ctx : ActionContext) (r : CapabilityRegistryImpl) (w : W) : Res ActionResult * W :=
  match r.(entries) !! ctx.(ctx_Action) with
  | None => (Ok (mkResult 404 ("action not found: " +:+ ctx.(ctx_Action)) ANil), w)
  | Some entry => entry.(en_handler) ctx w
  end.
Definition RegisterProxyProvider (name : string) (p : Provider) (r : CapabilityRegistryImpl) : CapabilityRegistryImpl :=
  mkRegistry r.(entries) (<[name := p]> r.(proxyProviders)) r.(relayProviders).
Definition GetProxyProvider (name : string) (r : CapabilityRegistryImpl) : option Provider :=
  r.(proxyProviders) !! name.
Definition RegisterRelayProvider (name : string) (p : Provider) (r : CapabilityRegistryImpl) : CapabilityRegistryImpl :=
  mkRegistry r.(entries) r.(proxyProviders) (<[name := p]> r.(relayProviders)).
Definition GetRelayProvider (name : string) (r : CapabilityRegistryImpl) : option Provider :=
  r.(relayProviders) !! name.

Inductive registry_op :=
| OpRegister (c : Capability) (h : ActionHandler)
| OpUnregister (name : string).
Definition registry_step (r : CapabilityRegistryImpl) (op : registry_op) : CapabilityRegistryImpl :=
  match op with OpRegister c h => Register c h r | OpUnregister name => Unregister name r end.

(** What a history says of an action: the handler registered last and not
    unregistered since. *)
Definition registered (name : string) (ops : list registry_op) : option ActionHandler :=
  foldl (λ o op, match op with
                 | OpRegister c h => if decide (c.(cap_Name) = name) then Some h else o
                 | OpUnregister n => if decide (n = name) then None else o
                 end) None ops.

Lemma registry_run_lookup name ops r :
  en_handler <$> (foldl registry_step r ops).(entries) !! name =
  foldl (λ o op, match op with
                 | OpRegister c h => if decide (c.(cap_Name) = name) then Some h else o
                 | OpUnregister n => if decide (n = name) then None else o
                 end) (en_handler <$> r.(entries) !! name) ops.
Proof.
  revert r. induction ops as [|op ops IH]; intros r; [done|]. cbn [foldl]. rewrite IH. f_equal.
  destruct op as [c h|n]; cbn; case_decide as Hd; subst;
    rewrite ?lookup_insert_eq, ?lookup_insert_ne, ?lookup_delete_eq, ?lookup_delete_ne by done; done.
Qed.

(** The registry runs the handler registered last for an action and not
    unregistered since, on the caller's context; for an action that has none
    it answers 404 and runs nothing. *)
Theorem execute_routes (ops : list registry_op) (ctx : ActionContext) (w : W) :
  Execute ctx (foldl registry_step NewCapabilityRegistry ops) w =
  match registered ctx.(ctx_Action) ops with
  | Some h => h ctx w
  | None => (Ok (mkResult 404 ("action not found: " +:+ ctx.(ctx_Action)) ANil), w)
  end.
Proof.
  unfold Execute, registered.
  pose proof (registry_run_lookup ctx.(ctx_Action) ops NewCapabilityRegistry) as H.
  cbn in H. rewrite lookup_empty in H. cbn in H. rewrite <-H. by destruct (_ !! _).
Qed.
End registry.
End Capability.

(** ** The core *)

Record CoreConfig := mkCoreConfig { cc_PublicIP : string; cc_ReconcileInterval : Z }.

(** [time.Duration(seconds) * time.Second] *)
Definition intToDuration (seconds : Z) : Z := (seconds *64 Second)%go.

Record Core := mkCore {
  stateStore : StateStoreImpl;
  reconcile : ReconcileEngine;
  storage : option StorageManager;
  restoring : bool;
}.

Definition NewCore (config : CoreConfig) (storage : option StorageManager) : Core :=
  let interval := if (0 <? config.(cc_ReconcileInterval))%Z
                  then intToDuration config.(cc_ReconcileInterval)
                  else DefaultReconcileConfig.(Interval) in
  mkCore (NewStateStore config.(cc_PublicIP))
    (NewReconcileEngine (mkReconcileConfig interval DefaultReconcileConfig.(InitialDelay)))
    storage false.

Definition SetRestoring (v : bool) (c : Core) : Core :=
  mkCore c.(stateStore) c.(reconcile) c.(storage) v.
Definition IsRestoring (c : Core) : bool := c.(restoring).
(** The old engine is stopped; the new one has its configuration. *)
Definition SetReconcileProvider (c : Core) : Core :=
  mkCore c.(stateStore) (NewReconcileEngine c.(reconcile).(config)) c.(storage) c.(restoring).

Section core.
Context `{!JsonCodec GenericEvent} `{!JsonCodec (Snapshot (V := any))} `{!JsonCodec (gmap string any)}.
Context (order : MapOrder).

(** The persistence part of the proxy and relay subscriptions. *)
Definition persist_event (env : call_env) (event : GenericEvent) (st : StorageManager) : StorageManager :=
  if decide (event.(ge_EventType) = EventAdded) then
    (AppendEventAndSave order env event event.(ge_Payload) st).2
  else if decide (event.(ge_EventType) = EventDeleted) then
    (DeleteResource order env event.(ge_Resource) st).2
  else st.

(** [now] is the clock in seconds, for the store. *)
Definition on_client (now : Z) (event : GenericEvent) (c : Core) : Core :=
  mkCore (Apply now event c.(stateStore)) c.(reconcile) c.(storage) c.(restoring).

Definition on_resource (now : Z) (env : call_env) (event : GenericEvent) (c : Core) : Core :=
  mkCore (Apply now event c.(stateStore)) (Trigger c.(reconcile))
    (if c.(restoring) then c.(storage) else persist_event env event <$> c.(storage))
    c.(restoring).
Definition on_proxy := on_resource.
Definition on_relay := on_resource.
End core.

(** ** The event-bus provider *)

(** What the engine sees: the clock, the state store, the identifiers to come
    and the events published so far. *)
Record core_world := mkWorld {
  cw_now : Z;
  cw_store : StateStoreImpl;
  cw_ids : nat → string;
  cw_published : list GenericEvent;
}.

Definition publish (key : ResourceKey) (eventType : string) (payload : any) (w : core_world) :
    Res unit * core_world :=
  let event := NewGenericEvent (w.(cw_ids) (length w.(cw_published))) w.(cw_now) key eventType payload in
  (Ok tt, mkWorld w.(cw_now) w.(cw_store) w.(cw_ids) (w.(cw_published) ++ [event])).

Definition EventBus_CreateProxy (clientID : string) (proxy : ProxyState) : core_world → Res unit * core_world :=
  publish (mkResourceKey ResourceTypeProxy NamespaceDefault (proxyKey clientID proxy.(ps_RemotePort)))
    EventAdded (AProxyState proxy).
Definition EventBus_DeleteProxy (clientID : string) (port : Z) : core_world → Res unit * core_world :=
  publish (mkResourceKey ResourceTypeProxy NamespaceDefault (proxyKey clientID port)) EventDeleted ANil.
Definition EventBus_CreateRelay (session : RelaySession) : core_world → Res unit * core_world :=
  publish (mkResourceKey ResourceTypeRelay NamespaceDefault session.(rs_ID)) EventAdded (ARelaySession session).
Definition EventBus_DeleteRelay (sessionID : string) : core_world → Res unit * core_world :=
  publish (mkResourceKey ResourceTypeRelay NamespaceDefault sessionID) EventDeleted ANil.

#[export] Instance core_env : ReconcileEnv core_world := {|
  env_now w := (w.(cw_now), w);
  env_desired_proxies w := GetDesiredProxies w.(cw_store);
  env_list_proxies w := ListProxies w.(cw_store);
  env_desired_relays w := GetDesiredRelays w.(cw_store);
  env_list_relays w := ListRelaySessions w.(cw_store);
  CreateProxy := EventBus_CreateProxy;
  DeleteProxy := EventBus_DeleteProxy;
  CreateRelay := EventBus_CreateRelay;
  DeleteRelay := EventBus_DeleteRelay;
|}.

(** The bus has delivered what was published. *)
Definition deliver (now : Z) (events : list GenericEvent) (s : StateStoreImpl) : StateStoreImpl :=
  foldl (λ s e, Apply now e s) s events.

(** ** What a pass does to the store *)

(** The keys of the proxies once everything published has been delivered. *)
Definition proxy_keys (now : Z) (w : core_world) : gset string :=
  dom (deliver now w.(cw_published) w.(cw_store)).(proxies).

Lemma deliver_publish now k t pl w :
  deliver now (publish k t pl w).2.(cw_published) w.(cw_store) =
  Apply now (NewGenericEvent (w.(cw_ids) (length w.(cw_published))) w.(cw_now) k t pl)
    (deliver now w.(cw_published) w.(cw_store)).
Proof. unfold deliver. cbn. by rewrite foldl_app. Qed.

Lemma proxy_keys_create now c p w :
  proxy_keys now (EventBus_CreateProxy c p w).2 =
    {[proxyKey p.(ps_ClientID) p.(ps_RemotePort)]} ∪ proxy_keys now w.
Proof.
  unfold proxy_keys. change (cw_store (EventBus_CreateProxy c p w).2) with (cw_store w).
  unfold EventBus_CreateProxy. rewrite deliver_publish.
  set (s := deliver _ _ _). change (proxies (Apply now _ s)) with
    (<[proxyKey p.(ps_ClientID) p.(ps_RemotePort) := p]> s.(proxies)).
  by rewrite dom_insert_L.
Qed.

Lemma proxy_keys_delete now c port w :
  proxy_keys now (EventBus_DeleteProxy c port w).2 = proxy_keys now w ∖ {[proxyKey c port]}.
Proof.
  unfold proxy_keys. change (cw_store (EventBus_DeleteProxy c port w).2) with (cw_store w).
  unfold EventBus_DeleteProxy. rewrite deliver_publish.
  set (s := deliver _ _ _). change (proxies (Apply now _ s)) with (delete (proxyKey c port) s.(proxies)).
  by rewrite dom_delete_L.
Qed.

Section pass.
Context (now : Z).

(** The creating loop, from counters without failures. *)
Lemma create_rows_proxies S l c b w :
  b.(failCount) = ∅ →
  let '(c', b', w') :=
    foldl (create_row (λ d, proxyKey d.(pd_ClientID) d.(pd_RemotePort))
             (λ d, EventBus_CreateProxy d.(pd_ClientID) (proxy_actual d)) S) (c, b, w) l in
  b'.(failCount) = ∅ ∧ w'.(cw_store) = w.(cw_store) ∧ c'.(failed) = c.(failed) ∧
  ∀ k, k ∈ proxy_keys now w' ↔ k ∈ proxy_keys now w ∨
    ((k ∉ S) ∧ ∃ d, d ∈ l ∧ k = proxyKey d.(pd_ClientID) d.(pd_RemotePort)).
Proof.
  revert c b w. induction l as [|d l IH]; intros c b w Hb; cbn [foldl].
  { split_and!; try done. intros k. split; [by left|]. intros [?|[_ (d & Hd & _)]]; [done|].
    by apply elem_of_nil in Hd. }
  set (key := proxyKey d.(pd_ClientID) d.(pd_RemotePort)).
  assert ((clear_fail key b).(failCount) = ∅) as Hclear by (cbn; by rewrite Hb, delete_empty).
  assert (∀ k,
    ((k ∉ S) ∧ ∃ d0, d0 ∈ d :: l ∧ k = proxyKey d0.(pd_ClientID) d0.(pd_RemotePort)) ↔
    ((k ∉ S) ∧ k = key) ∨ ((k ∉ S) ∧ ∃ d0, d0 ∈ l ∧ k = proxyKey d0.(pd_ClientID) d0.(pd_RemotePort))) as Hsplit.
  { intros k. setoid_rewrite elem_of_cons. unfold key. naive_solver. }
  destruct (decide (key ∈ S)) as [Hin|Hin].
  - assert (create_row (λ d, proxyKey d.(pd_ClientID) d.(pd_RemotePort))
      (λ d, EventBus_CreateProxy d.(pd_ClientID) (proxy_actual d)) S (c, b, w) d = (c, clear_fail key b, w))
      as -> by (unfold create_row; by rewrite decide_True).
    specialize (IH c _ w Hclear). destruct (foldl _ _ l) as [[c' b'] w'].
    destruct IH as (H1 & H2 & H3 & H4). split_and!; try done. intros k. rewrite H4, Hsplit.
    naive_solver.
  - assert (create_row (λ d, proxyKey d.(pd_ClientID) d.(pd_RemotePort))
      (λ d, EventBus_CreateProxy d.(pd_ClientID) (proxy_actual d)) S (c, b, w) d =
      (mkCounts (c.(total) + 1) (c.(fixed) + 1) c.(failed), clear_fail key b,
       (EventBus_CreateProxy d.(pd_ClientID) (proxy_actual d) w).2)) as ->.
    { unfold create_row. rewrite decide_False by done. unfold in_backoff. by rewrite Hb. }
    specialize (IH (mkCounts (c.(total) + 1) (c.(fixed) + 1) c.(failed)) _
      (EventBus_CreateProxy d.(pd_ClientID) (proxy_actual d) w).2 Hclear).
    destruct (foldl _ _ l) as [[c' b'] w']. destruct IH as (H1 & H2 & H3 & H4).
    split_and!; try done. intros k. rewrite H4, proxy_keys_create, Hsplit.
    change (proxyKey (proxy_actual d).(ps_ClientID) (proxy_actual d).(ps_RemotePort)) with key.
    rewrite elem_of_union, elem_of_singleton. naive_solver.
Qed.

Lemma delete_rows_proxies S l c w :
  let '(c', w') :=
    foldl (delete_row (λ a, proxyKey a.(pi_ClientID) a.(pi_RemotePort))
             (λ a, EventBus_DeleteProxy a.(pi_ClientID) a.(pi_RemotePort)) S) (c, w) l in
  w'.(cw_store) = w.(cw_store) ∧ c'.(failed) = c.(failed) ∧
  ∀ k, k ∈ proxy_keys now w' ↔ k ∈ proxy_keys now w ∧
    (k ∈ S ∨ ∀ a, a ∈ l → k ≠ proxyKey a.(pi_ClientID) a.(pi_RemotePort)).
Proof.
  revert c w. induction l as [|a l IH]; intros c w; cbn [foldl].
  { split_and!; try done. intros k. split; [|by intros [? _]]. intros Hk. split; [done|].
    right. by intros a ?%elem_of_nil. }
  set (key := proxyKey a.(pi_ClientID) a.(pi_RemotePort)).
  assert (∀ k, (∀ a0, a0 ∈ a :: l → k ≠ proxyKey a0.(pi_ClientID) a0.(pi_RemotePort)) ↔
    k ≠ key ∧ ∀ a0, a0 ∈ l → k ≠ proxyKey a0.(pi_ClientID) a0.(pi_RemotePort)) as Hsplit.
  { intros k. setoid_rewrite elem_of_cons. unfold key. naive_solver. }
  destruct (decide (key ∈ S)) as [Hin|Hin].
  - assert (delete_row (λ a, proxyKey a.(pi_ClientID) a.(pi_RemotePort))
      (λ a, EventBus_DeleteProxy a.(pi_ClientID) a.(pi_RemotePort)) S (c, w) a = (c, w)) as ->
      by (unfold delete_row; by rewrite decide_True).
    specialize (IH c w). destruct (foldl _ _ l) as [c' w']. destruct IH as (H2 & H3 & H4).
    split_and!; try done. intros k. rewrite H4, Hsplit.
    destruct (decide (k ∈ S)); [naive_solver|]. assert (k ≠ key) by by intros ->. naive_solver.
  - assert (delete_row (λ a, proxyKey a.(pi_ClientID) a.(pi_RemotePort))
      (λ a, EventBus_DeleteProxy a.(pi_ClientID) a.(pi_RemotePort)) S (c, w) a =
      (mkCounts (c.(total) + 1) (c.(fixed) + 1) c.(failed),
       (EventBus_DeleteProxy a.(pi_ClientID) a.(pi_RemotePort) w).2)) as ->
      by (unfold delete_row; by rewrite decide_False).
    specialize (IH (mkCounts (c.(total) + 1) (c.(fixed) + 1) c.(failed))
      (EventBus_DeleteProxy a.(pi_ClientID) a.(pi_RemotePort) w).2).
    destruct (foldl _ _ l) as [c' w']. destruct IH as (H2 & H3 & H4).
    split_and!; try done. intros k. rewrite H4, proxy_keys_delete, Hsplit. fold key.
    rewrite elem_of_difference, elem_of_singleton. naive_solver.
Qed.
End pass.

Lemma list_proxies_keys s k :
  store_wf s →
  (∃ a, a ∈ ListProxies s ∧ k = proxyKey a.(pi_ClientID) a.(pi_RemotePort)) ↔ k ∈ dom s.(proxies).
Proof.
  intros Hwf. rewrite elem_of_dom. unfold ListProxies. split.
  - intros (a & Ha & ->). apply list_elem_of_fmap in Ha as ([k' p] & -> & Hp).
    apply elem_of_map_to_list in Hp. cbn. exists p. by rewrite <-(wf_proxies _ Hwf _ _ Hp).
  - intros [p Hp]. eexists. split.
    + apply list_elem_of_fmap. exists (k, p). split; [done|]. by apply elem_of_map_to_list.
    + cbn. by apply (wf_proxies _ Hwf).
Qed.

(** ** Properties *)


Lemma GetDesiredProxies_in_sync s d :
  store_in_sync s →
  d ∈ GetDesiredProxies s ↔ ∃ k p, s.(proxies) !! k = Some p ∧ d = proxy_desired p ∧
    p.(ps_ClientID) ≠ "" ∧ p.(ps_RemotePort) ≠ 0%Z.
Proof.
  intros [Hp _]. unfold GetDesiredProxies. rewrite list_elem_of_filter, list_elem_of_fmap, Hp. split.
  - intros [Hok ([k d'] & -> & Hd)]. apply elem_of_map_to_list in Hd. rewrite lookup_fmap in Hd.
    apply fmap_Some in Hd as (p & Hl & ->). exists k, p. cbn in Hok. naive_solver.
  - intros (k & p & Hl & -> & Hc & Hr). split; [cbn; naive_solver|]. exists (k, proxy_desired p).
    split; [done|]. apply elem_of_map_to_list. by rewrite lookup_fmap, Hl.
Qed.

Lemma GetDesiredRelays_in_sync s d :
  store_in_sync s →
  d ∈ GetDesiredRelays s ↔ ∃ k r, s.(relays) !! k = Some r ∧ d = relay_desired r ∧ r.(rs_ID) ≠ "".
Proof.
  intros [_ Hr]. unfold GetDesiredRelays. rewrite list_elem_of_filter, list_elem_of_fmap, Hr. split.
  - intros [Hok ([k d'] & -> & Hd)]. apply elem_of_map_to_list in Hd. rewrite lookup_fmap in Hd.
    apply fmap_Some in Hd as (r & Hl & ->). exists k, r. naive_solver.
  - intros (k & r & Hl & -> & Hi). split; [done|]. exists (k, relay_desired r).
    split; [done|]. apply elem_of_map_to_list. by rewrite lookup_fmap, Hl.
Qed.

(** Rows the reconciler reads: no empty client or identifier, no port 0. *)
Definition rows_named (s : StateStoreImpl) : Prop :=
  map_Forall (λ _ p, p.(ps_ClientID) ≠ "" ∧ p.(ps_RemotePort) ≠ 0%Z) s.(proxies) ∧
  map_Forall (λ _ r, r.(rs_ID) ≠ "") s.(relays).

(** Between restarts the reconciler has nothing to do: on every store
    the events, connections and tokens of a run can produce, a pass finds no
    difference, publishes nothing and counts zero, because the same events
    write the desired and the actual rows. *)
Theorem reconcile_idle (ip : string) (ops : list store_op) (t : Z) (ids : nat → string)
    (bp br : backoff_state) (Hops : Forall (λ op, is_restore op = false) ops)
    (Hrows : rows_named (store_run ops (NewStateStore ip))) :
  let w := mkWorld t (store_run ops (NewStateStore ip)) ids [] in
  (reconcileProxies bp w).1.1 = mkCounts 0 0 0 ∧ (reconcileProxies bp w).2 = w ∧
  (reconcileRelays br w).1.1 = mkCounts 0 0 0 ∧ (reconcileRelays br w).2 = w.
Proof.
  set (s := store_run ops (NewStateStore ip)) in *.
  assert (store_wf s) as Hwf.
  { apply (store_run_ind _ (λ _, True)); [|by apply Forall_true|apply store_wf_new].
    intros s' op _. apply store_wf_step. }
  assert (store_in_sync s) as Hsync.
  { apply (store_run_ind _ (λ op, is_restore op = false)); [|done|by split; cbn; rewrite fmap_empty].
    intros s' op. apply store_in_sync_step. }
  intros w. destruct Hrows as [HP HR].
  assert ((list_to_set ((λ d, proxyKey d.(pd_ClientID) d.(pd_RemotePort)) <$> GetDesiredProxies s) : gset string)
    = list_to_set ((λ a, proxyKey a.(pi_ClientID) a.(pi_RemotePort)) <$> ListProxies s)) as Hkp.
  { apply set_eq. intros k. rewrite !elem_of_list_to_set, !list_elem_of_fmap.
    transitivity (k ∈ dom s.(proxies)); [|rewrite <-(list_proxies_keys s k Hwf); naive_solver].
    rewrite elem_of_dom. split.
    - intros (d & -> & Hd). apply (GetDesiredProxies_in_sync s d Hsync) in Hd as (k' & p & Hl & -> & _).
      exists p. cbn. by rewrite <-(wf_proxies _ Hwf _ _ Hl).
    - intros [p Hl]. exists (proxy_desired p). split; [by apply (wf_proxies _ Hwf)|].
      apply (GetDesiredProxies_in_sync s _ Hsync). exists k, p. destruct (HP _ _ Hl). done. }
  assert ((list_to_set (rd_ID <$> GetDesiredRelays s) : gset string)
    = list_to_set (rs_ID <$> ListRelaySessions s)) as Hkr.
  { apply set_eq. intros k. rewrite !elem_of_list_to_set, !list_elem_of_fmap. split.
    - intros (d & -> & Hd). apply (GetDesiredRelays_in_sync s d Hsync) in Hd as (k' & r & Hl & -> & _).
      exists r. split; [done|]. apply list_elem_of_fmap. exists (k', r). split; [done|].
      by apply elem_of_map_to_list.
    - intros (r & -> & Hr). apply list_elem_of_fmap in Hr as ([k' r'] & -> & Hl).
      apply elem_of_map_to_list in Hl. exists (relay_desired r'). split; [done|].
      apply (GetDesiredRelays_in_sync s _ Hsync). exists k', r'. split_and!; try done. by apply (HR k'). }
  destruct (reconcile_rows_idle (λ d, proxyKey d.(pd_ClientID) d.(pd_RemotePort))
    (λ a, proxyKey a.(pi_ClientID) a.(pi_RemotePort))
    (λ d, EventBus_CreateProxy d.(pd_ClientID) (proxy_actual d))
    (λ a, EventBus_DeleteProxy a.(pi_ClientID) a.(pi_RemotePort))
    (GetDesiredProxies s) (ListProxies s) bp w Hkp) as (b1 & H1 & _).
  destruct (reconcile_rows_idle rd_ID rs_ID (λ d, EventBus_CreateRelay (session_of_desired d))
    (λ a, EventBus_DeleteRelay a.(rs_ID)) (GetDesiredRelays s) (ListRelaySessions s) br w Hkr)
    as (b2 & H2 & _).
  unfold reconcileProxies, reconcileRelays. cbn [env_desired_proxies env_list_proxies env_desired_relays
    env_list_relays core_env cw_store CreateProxy DeleteProxy CreateRelay DeleteRelay] in *.
  change (cw_store w) with s. by rewrite H1, H2.
Qed.

(** A relay the reconciler creates again comes back without its token:
    the event it publishes overwrites the desired row with an empty one. *)
Theorem reconcile_drops_token (now t : Z) (s : StateStoreImpl) (ids : nat → string)
    (d : RelayDesiredState) (Hid : d.(rd_ID) ≠ "") (Hdes : s.(desiredRelays) = {[d.(rd_ID) := d]})
    (Hrel : s.(relays) = ∅) :
  let '(c, _, w) := reconcileRelays (mkBackoff ∅ ∅) (mkWorld t s ids []) in
  let s' := deliver now w.(cw_published) s in
  c = mkCounts 1 1 0 ∧ GetRelaySession s' d.(rd_ID) = Some (session_of_desired d) ∧
  s'.(desiredRelays) !! d.(rd_ID) = Some (relay_desired (session_of_desired d)) ∧
  (session_of_desired d).(rs_Token) = "".
Proof.
  unfold reconcileRelays. cbn [env_desired_relays env_list_relays core_env cw_store].
  assert (GetDesiredRelays s = [d]) as ->.
  { unfold GetDesiredRelays. rewrite Hdes, map_to_list_singleton.
    change ([(d.(rd_ID), d)].*2) with [d]. by rewrite filter_cons_True. }
  assert (ListRelaySessions s = []) as ->.
  { unfold ListRelaySessions. by rewrite Hrel, map_to_list_empty. }
  unfold reconcile_rows. cbn [fmap list_fmap foldl list_to_set].
  unfold create_row. rewrite decide_False by set_solver.
  unfold in_backoff. cbn [failCount]. rewrite lookup_empty. cbn -[Apply].
  unfold GetRelaySession. split; [done|].
  change (Apply now _ s) with (putRelay d.(rd_ID) (session_of_desired d) s).
  unfold putRelay. cbn. by rewrite !lookup_insert_eq.
Qed.

(** *** Witnesses *)


Lemma reconcile_idle_witness :
  (reconcileProxies (mkBackoff ∅ ∅) (mkWorld 9 ex_store pretty [])).1.1 = mkCounts 0 0 0.
Proof.
  assert (Forall (λ op, is_restore op = false) ex_ops) as Hops by by repeat constructor.
  assert (rows_named (store_run ex_ops (NewStateStore "1.2.3.4"))) as Hrows.
  { split; apply (bool_decide_eq_true_1 (map_Forall _ _)); by vm_compute. }
  exact (proj1 (reconcile_idle "1.2.3.4" ex_ops 9 pretty (mkBackoff ∅ ∅) (mkBackoff ∅ ∅) Hops Hrows)).
Defined.

Definition ex_relay_row : RelayDesiredState := relay_desired ex_relay.
Definition ex_restored : StateStoreImpl :=
  mkStateStore ∅ ∅ ∅ ∅ ∅ {["r1" := ex_relay_row]} ∅ "".

Lemma reconcile_drops_token_witness :
  ex_relay_row.(rd_Token) = "tok" ∧ (session_of_desired ex_relay_row).(rs_Token) = "".
Proof.
  split; [done|]. assert (ex_relay_row.(rd_ID) ≠ "") as Hid by done.
  pose proof (reconcile_drops_token 9 9 ex_restored pretty ex_relay_row Hid eq_refl eq_refl) as H.
  destruct (reconcileRelays _ _) as [[c b] w]. exact (proj2 (proj2 (proj2 H))).
Defined.
