(* ===== verification/Persist.v ===== *)
(** * The persistence plugin (plugins/persist/persist.go) and restart

    On start the plugin publishes an ADDED event for every resource the
    resource files hold, restores the latest snapshot into the state store,
    and loads the states of the other plugins from [persist.json]; while it
    runs it writes those states back.  The second half follows a resource
    through a life of the server: handled by the core, saved, read back from
    the files after a restart, and published again. *)

From S2P Require Import Prelude Types Proto StateStore Reconcile Disk.
From S2P Require Import EventStore SnapshotStore MetaStore StorageManager Core.

(** ** Reading resources *)

Definition parseProxy (raw : any) : option ProxyState :=
  match raw with
  | AMap m => Some (mkProxyState (field_string m "client_id") (field_int m "remote_port")
                (field_int m "local_port") (field_string m "local_ip") (field_string m "protocol")
                (field_string m "bind_addr"))
  | _ => None
  end.

Definition parseRelay (raw : any) : option RelaySession :=
  match raw with
  | AMap m => Some (mkRelaySession (field_string m "session_id") (field_string m "source_client")
                (field_string m "target_client") (field_string m "protocol") (field_int m "source_port")
                (field_int m "target_port") (field_string m "target_local_ip")
                (field_string m "source_local_ip") (field_string m "token") 0 "" "")
  | _ => None
  end.

(** The event published for one entry of the proxies, if it is valid. *)
Definition restore_proxy_event (mk : ResourceKey → any → GenericEvent) (kv : string * any) :
    option GenericEvent :=
  match ParseResourceKey kv.1 with
  | Err _ => None
  | Ok rk =>
      match parseProxy kv.2 with
      | None => None
      | Some proxy =>
          if decide (proxy.(ps_ClientID) = "" ∨ proxy.(ps_RemotePort) = 0%Z) then None
          else Some (mk (mkResourceKey ResourceTypeProxy NamespaceDefault rk.(rk_Name)) (AProxyState proxy))
      end
  end.
Definition restore_relay_event (mk : ResourceKey → any → GenericEvent) (kv : string * any) :
    option GenericEvent :=
  match ParseResourceKey kv.1 with
  | Err _ => None
  | Ok rk =>
      match parseRelay kv.2 with
      | None => None
      | Some relay =>
          Some (mk (mkResourceKey ResourceTypeRelay NamespaceDefault rk.(rk_Name)) (ARelaySession relay))
      end
  end.

Section persist.
Context (order : MapOrder).

(** The events published; [mk] is [NewGenericEvent] of an ADDED event. *)
Definition restoreFromMetaStore (mk : ResourceKey → any → GenericEvent)
    (meta : gmap string (gmap string any)) : list GenericEvent :=
  (match List "proxy" meta with
   | Some proxies => omap (restore_proxy_event mk) (order proxies)
   | None => []
   end) ++
  (match List "relay" meta with
   | Some relays => omap (restore_relay_event mk) (order relays)
   | None => []
   end).

Definition restoreSnapshot (ss : SnapshotStore (V := any)) (s : StateStoreImpl) : StateStoreImpl :=
  match Load ss with
  | Err _ => s
  | Ok snapshot => Restore order (AMap <$> snapshot.(sn_State)) s
  end.

(** [Run] up to its loop, without the other plugins: what is published and
    what the store is after the snapshot. *)
Definition Run_restore (mk : ResourceKey → any → GenericEvent) (st : option StorageManager)
    (s : StateStoreImpl) : list GenericEvent * StateStoreImpl :=
  match st with
  | None => ([], s)
  | Some m => (restoreFromMetaStore mk m.(meta), restoreSnapshot m.(snapshots) s)
  end.
End persist.

(** ** The states of the other plugins

    A provider of the registry exports a value and imports one; [persist.json]
    holds a value per provider name. *)

Section providers.
Context {P : Type} (Export : P → any) (Import_ : any → P → P).
Context `{!JsonCodec (gmap string any)}.

Definition loadFromDisk (file : option bytes) : gmap string any :=
  match file with
  | None => ∅
  | Some data => default ∅ (unmarshal data)
  end.
(** The file after the write; a value that does not encode leaves it. *)
Definition saveToDisk (states : gmap string any) (file : option bytes) : option bytes :=
  match marshalIndent states with
  | None => file
  | Some data => Some data
  end.
Definition flushAll (providers : gmap string P) (file : option bytes) : option bytes :=
  saveToDisk ((Export <$> providers) ∪ loadFromDisk file) file.
Definition restoreAll (file : option bytes) (providers : gmap string P) : gmap string P :=
  map_imap (λ name p, Some (match loadFromDisk file !! name with
                            | Some data => Import_ data p
                            | None => p
                            end)) providers.

(** [handleAction] *)
Definition handleAction (dataDir : string) (names : list string) (action : string) : Z * list string :=
  if decide (action = "persist.status") then (200%Z, dataDir :: names) else (404%Z, []).
End providers.

(** ** A resource through the core and back *)

Section life.
Context `{!JsonCodec GenericEvent} `{!JsonCodec (Snapshot (V := any))} `{!JsonCodec (gmap string any)}.
Context (order : MapOrder) (fmt_time : Z → string).

(** The handlers run one after another on named events, and each save
    reports success. *)
Definition persist_result (env : call_env) (e : GenericEvent) (m : StorageManager) : Res unit * StorageManager :=
  if decide (e.(ge_EventType) = EventAdded) then AppendEventAndSave order env e e.(ge_Payload) m
  else if decide (e.(ge_EventType) = EventDeleted) then DeleteResource order env e.(ge_Resource) m
  else (Ok tt, m).

Inductive core_run : Core → list GenericEvent → Core → Prop :=
| core_nil c : core_run c [] c
| core_snoc c evs c1 m m' now env e :
    core_run c evs c1 → c1.(restoring) = false → c1.(storage) = Some m →
    persist_result env e m = (Ok tt, m') →
    core_run c (evs ++ [e]) (on_resource order now env e c1).

(** Events as the program publishes them: named after what they carry. *)
Definition event_named (e : GenericEvent) : Prop :=
  e.(ge_Resource).(rk_Namespace) = NamespaceDefault ∧
  (e.(ge_EventType) = EventAdded ∧
     ((e.(ge_Resource).(rk_Type) = ResourceTypeProxy ∧ ∃ p, e.(ge_Payload) = AProxyState p ∧
         e.(ge_Resource).(rk_Name) = proxyKey p.(ps_ClientID) p.(ps_RemotePort)) ∨
      (e.(ge_Resource).(rk_Type) = ResourceTypeRelay ∧ ∃ r, e.(ge_Payload) = ARelaySession r ∧
         e.(ge_Resource).(rk_Name) = r.(rs_ID))) ∨
   e.(ge_EventType) = EventDeleted ∧
     (e.(ge_Resource).(rk_Type) = ResourceTypeProxy ∨ e.(ge_Resource).(rk_Type) = ResourceTypeRelay)).

(** The key text of a resource, and the resources of a type in the store. *)
Definition res_text (type name : string) : string :=
  ResourceKey_String (mkResourceKey type NamespaceDefault name).
#[local] Instance res_text_inj type : Inj (=) (=) (res_text type).
Proof.
  unfold res_text, ResourceKey_String. cbn [rk_Type rk_Namespace rk_Name]. intros a b H.
  rewrite !decide_False in H by done. by repeat apply (inj (String.append _)) in H.
Qed.

Definition rows (type : string) (s : StateStoreImpl) : gmap string any :=
  if decide (type = ResourceTypeProxy) then AProxyState <$> s.(proxies)
  else ARelaySession <$> s.(relays).

Definition is_resource (type : string) : Prop := type = ResourceTypeProxy ∨ type = ResourceTypeRelay.

(** The resource files are an image of the store. *)
Definition persisted (s : StateStoreImpl) (m : gmap string (gmap string any)) : Prop :=
  ∀ type, is_resource type → default ∅ (m !! type) = kmap (res_text type) (rows type s).

Lemma rows_added now e s type :
  e.(ge_EventType) = EventAdded → event_named e → is_resource type →
  rows type (Apply now e s) =
    if decide (type = e.(ge_Resource).(rk_Type))
    then <[e.(ge_Resource).(rk_Name) := e.(ge_Payload)]> (rows type s) else rows type s.
Proof.
  intros Ha (_ & Hn) Hres. destruct Hn as [[_ Hn]|[Hd _]]; [|by rewrite Hd in Ha].
  unfold Apply, rows, applyClientEvent, applyProxyEvent, applyRelayEvent.
  destruct Hn as [(Ht & p & Hp & Hname)|(Ht & r & Hr & Hname)]; rewrite Ht, Ha, Hname;
    [rewrite Hp|rewrite Hr]; destruct Hres as [->| ->]; dec_eval; try done;
    unfold putProxy, putRelay; cbn [proxies relays parseProxyFromPayload]; by rewrite ?fmap_insert.
Qed.

Lemma rows_deleted now e s type :
  e.(ge_EventType) = EventDeleted → event_named e → is_resource type →
  rows type (Apply now e s) =
    if decide (type = e.(ge_Resource).(rk_Type))
    then delete e.(ge_Resource).(rk_Name) (rows type s) else rows type s.
Proof.
  intros Hd (_ & Hn) Hres. destruct Hn as [[Ha _]|[_ Hn]]; [by rewrite Ha in Hd|].
  unfold Apply, rows, applyClientEvent, applyProxyEvent, applyRelayEvent.
  destruct Hn as [Ht|Ht]; rewrite Ht, Hd; destruct Hres as [->| ->]; dec_eval; try done;
    cbn [proxies relays]; by rewrite ?fmap_delete.
Qed.

Lemma event_key e :
  event_named e → ResourceKey_String e.(ge_Resource) = res_text e.(ge_Resource).(rk_Type) e.(ge_Resource).(rk_Name) ∧
    is_resource e.(ge_Resource).(rk_Type).
Proof.
  intros (Hns & Hn). split.
  - unfold res_text. destruct (e.(ge_Resource)). cbn in *. by rewrite Hns.
  - destruct Hn as [[_ [[? _]|[? _]]]|[_ [?|?]]]; [by left|by right|by left|by right].
Qed.

Lemma persisted_put now e s m :
  e.(ge_EventType) = EventAdded → event_named e → persisted s m →
  persisted (Apply now e s) (put_mem e.(ge_Resource) e.(ge_Payload) m).
Proof.
  intros Ha Hn Hp type Hres. destruct (event_key e Hn) as [Hk _].
  rewrite (rows_added now e s type Ha Hn Hres). unfold put_mem. case_decide as Ht.
  - subst type. rewrite lookup_insert_eq. cbn. rewrite (Hp _ Hres), Hk. by rewrite kmap_insert by apply _.
  - rewrite lookup_insert_ne by done. by apply Hp.
Qed.

Lemma persisted_delete now e s m :
  e.(ge_EventType) = EventDeleted → event_named e → persisted s m →
  persisted (Apply now e s) (delete_mem e.(ge_Resource) m).
Proof.
  intros Hd Hn Hp type Hres. destruct (event_key e Hn) as [Hk _].
  rewrite (rows_deleted now e s type Hd Hn Hres). unfold delete_mem.
  pose proof (Hp type Hres) as Hpt. case_decide as Ht.
  - subst type. destruct (m !! _) as [mm|] eqn:E.
    + rewrite lookup_insert_eq. cbn in Hpt |- *. by rewrite Hpt, Hk, kmap_delete by apply _.
    + rewrite E. cbn in Hpt |- *. rewrite kmap_delete, <-Hpt by apply _. by rewrite delete_empty.
  - destruct (m !! rk_Type _); [by rewrite lookup_insert_ne|done].
Qed.

(** Saving keeps files in step with memory, and memory an image of the store. *)
Lemma persist_result_spec env e m m' now s :
  event_named e → persist_result env e m = (Ok tt, m') →
  persisted s m.(meta) → meta_synced m.(meta) m.(dirs).(d_meta) →
  persisted (Apply now e s) m'.(meta) ∧ meta_synced m'.(meta) m'.(dirs).(d_meta).
Proof.
  intros Hn Hop Hp Hs. unfold persist_result in Hop.
  destruct (decide (e.(ge_EventType) = EventAdded)) as [Ha|Ha].
  - apply AppendEventAndSave_inv in Hop as (m1 & s1 & d1 & Happ & Hput & ->).
    2: { destruct Hn as [_ [[_ [(_ & p & -> & _)|(_ & r & -> & _)]]|[Hd _]]]; [done..|].
         by rewrite Hd in Ha. }
    pose proof (append_other env e m) as Ho. rewrite Happ in Ho. destruct Ho as (Hm1 & Hd1 & _).
    destruct (count_event_meta order env m1) as (Hm2 & Hd2 & _).
    pose proof (Put_mem e.(ge_Resource) e.(ge_Payload) env.(ce_meta) (count_event order env m1).(meta)
      (count_event order env m1).(dirs).(d_meta)) as Hmem.
    pose proof (Put_synced e.(ge_Resource) e.(ge_Payload) env.(ce_meta) (count_event order env m1).(meta)
      (count_event order env m1).(dirs).(d_meta)) as Hsync.
    rewrite Hput in Hmem, Hsync. rewrite Hm2, Hm1 in Hmem. rewrite Hm2, Hd2, Hm1, Hd1 in Hsync.
    cbn in Hmem, Hsync |- *.
    split; [|by apply Hsync]. rewrite Hmem. by apply persisted_put.
  - destruct Hn as [Hns [[? _]|[Hd Hty]]]; [done|]. rewrite decide_True in Hop by done.
    assert (event_named e) as Hn by (split; [done|right; done]).
    apply DeleteResource_inv in Hop as (s1 & d1 & m1 & Hdel & Happ & ->).
    pose proof (append_other env (NewGenericEvent env.(ce_id) env.(ce_now) e.(ge_Resource) EventDeleted ANil)
      (set_meta s1 d1 m)) as Ho. rewrite Happ in Ho. destruct Ho as (Hm1 & Hd1 & _).
    destruct (count_event_meta order env m1) as (Hm2 & Hd2 & _). cbn in Hm1, Hd1.
    pose proof (Delete_mem e.(ge_Resource) env.(ce_meta) m.(meta) m.(dirs).(d_meta)) as Hmem.
    pose proof (Delete_synced e.(ge_Resource) env.(ce_meta) m.(meta) m.(dirs).(d_meta) Hs) as Hsync.
    rewrite Hdel in Hmem, Hsync. cbn in Hmem, Hsync. rewrite Hm2, Hd2, Hm1, Hd1.
    split; [|done]. rewrite Hmem. by apply persisted_delete.
Qed.

Lemma persist_event_result env e m r m' :
  persist_result env e m = (r, m') → persist_event order env e m = m'.
Proof. unfold persist_result, persist_event. intros H. repeat case_decide; by rewrite ?H; simplify_eq. Qed.

Lemma core_run_persisted c evs c' m :
  core_run c evs c' → Forall event_named evs → c.(storage) = Some m →
  persisted c.(stateStore) m.(meta) → meta_synced m.(meta) m.(dirs).(d_meta) →
  ∃ m', c'.(storage) = Some m' ∧ persisted c'.(stateStore) m'.(meta) ∧
        meta_synced m'.(meta) m'.(dirs).(d_meta).
Proof.
  intros Hrun Hn Hm Hp Hs. revert Hm Hp Hs Hn. induction Hrun as [c|c evs c1 m1 m2 now env e Hrun IH Hr Hst Hop]; intros Hm Hp Hs Hn; [eauto|].
  apply Forall_app in Hn as [Hn He]. apply Forall_cons in He as [He _].
  destruct (IH Hm Hp Hs Hn) as (m1' & Hst' & Hp' & Hs'). rewrite Hst in Hst'. injection Hst' as <-.
  exists m2. unfold on_resource. rewrite Hr, Hst. cbn. split.
  - f_equal. by eapply persist_event_result.
  - eapply (persist_result_spec env e m1 m2 now); eauto.
Qed.

(** *** Reading back *)

(** Rows that survive: named, and with ports a float64 holds. *)
Definition proxy_ok (k : string) (p : ProxyState) : Prop :=
  p.(ps_ClientID) ≠ "" ∧ p.(ps_RemotePort) ≠ 0%Z ∧ port_ok p.(ps_RemotePort) ∧
  port_ok p.(ps_LocalPort) ∧ k = proxyKey p.(ps_ClientID) p.(ps_RemotePort).
Definition relay_ok (k : string) (r : RelaySession) : Prop :=
  r.(rs_ID) ≠ "" ∧ port_ok r.(rs_SourcePort) ∧ port_ok r.(rs_TargetPort) ∧ k = r.(rs_ID).

#[export] Instance proxy_ok_dec k p : Decision (proxy_ok k p).
Proof. unfold proxy_ok, port_ok. apply _. Defined.
#[export] Instance relay_ok_dec k r : Decision (relay_ok k r).
Proof. unfold relay_ok, port_ok. apply _. Defined.

Lemma parse_res_text type n :
  is_resource type → n ≠ "" → ParseResourceKey (res_text type n) = Ok (mkResourceKey type NamespaceDefault n).
Proof.
  intros Hres Hn. unfold res_text, ResourceKey_String. cbn [rk_Type rk_Namespace rk_Name].
  rewrite decide_False by done. unfold ParseResourceKey.
  assert (SplitN 3 (type +:+ "/" +:+ NamespaceDefault +:+ "/" +:+ n) "/" = [type; NamespaceDefault; n]) as ->.
  { apply SplitN_3. split; [done|]. destruct Hres as [->| ->]; by split. }
  rewrite decide_False; [done|]. destruct Hres as [->| ->]; naive_solver.
Qed.

Lemma parseProxy_json k p : proxy_ok k p → parseProxy (json_ProxyState p) = Some p.
Proof.
  destruct p as [c rp lp ip proto bind]. intros (Hc & Hrp & Hrp' & Hlp & _). cbn in *.
  unfold json_proxy_fields, field_string, field_int. by lookup_fields.
Qed.

(** A relay comes back without what its text form does not give back. *)
Definition relay_kept (r : RelaySession) : RelaySession := relay_actual (relay_desired r).

Lemma parseRelay_json k r : relay_ok k r → parseRelay (json_RelaySession fmt_time r) = Some (relay_kept r).
Proof.
  destruct r as [id sc tc pr sp tp tip sip tok ca st er]. intros (Hid & Hsp & Htp & _). cbn in *.
  unfold parseRelay, json_RelaySession. cbn.
  set (m0 := <["session_id" := _]> _). set (m := omit_empty "token" tok (omit_empty "error" er m0)).
  assert (field_string m "token" = tok) as ->.
  { unfold field_string, m. rewrite !omit_empty_lookup. case_decide as Ht; [done|].
    rewrite decide_False by naive_solver. unfold m0. simplify_map_eq.
    destruct (decide (tok = "")); [done|naive_solver]. }
  assert (∀ k', k' ≠ "token" → k' ≠ "error" → m !! k' = m0 !! k') as Hm.
  { intros k' Hk Hk'. unfold m. rewrite !omit_empty_lookup. by rewrite !decide_False by naive_solver. }
  unfold field_string, field_int. rewrite !Hm by done. unfold m0. by lookup_fields.
Qed.

Lemma omap_fmap_Forall {A B C} (f : A → option C) (g : B → A) (h : B → C) (l : list B) :
  Forall (λ x, f (g x) = Some (h x)) l → omap f (g <$> l) = h <$> l.
Proof. induction 1 as [|x l Hx _ IH]; [done|]. cbn. by rewrite Hx, IH. Qed.

(** The entries of the decoded files, and the events made of them. *)
Lemma kmap_entries {B} type (m : gmap string B) (f : B → any) (g : any → any) :
  is_order order →
  ∃ l, l ≡ₚ map_to_list m ∧
    order (g <$> kmap (res_text type) (f <$> m)) = (λ nv, (res_text type nv.1, g (f nv.2))) <$> l.
Proof.
  intros Hord. pose proof (Hord (g <$> kmap (res_text type) (f <$> m))) as Hp.
  assert (map_to_list (g <$> kmap (res_text type) (f <$> m)) ≡ₚ
    (λ nv, (res_text type nv.1, g (f nv.2))) <$> map_to_list m) as Heq.
  { rewrite map_to_list_fmap, map_to_list_kmap, map_to_list_fmap by apply _.
    rewrite <-!list_fmap_compose. assert (∀ A (l1 l2 : list A), l1 = l2 → l1 ≡ₚ l2) as Heqp by (by intros ? ? ? ->).
    apply Heqp, list_fmap_ext. by intros ? [] _. }
  rewrite Heq in Hp. apply Permutation_map_inv in Hp as (l & Hl & Hp'). by exists l.
Qed.

Definition proxy_row_event (mk : ResourceKey → any → GenericEvent) (kp : string * ProxyState) : GenericEvent :=
  mk (mkResourceKey ResourceTypeProxy NamespaceDefault kp.1) (AProxyState kp.2).
Definition relay_row_event (mk : ResourceKey → any → GenericEvent) (kr : string * RelaySession) : GenericEvent :=
  mk (mkResourceKey ResourceTypeRelay NamespaceDefault kr.1) (ARelaySession (relay_kept kr.2)).

Lemma restore_events mk s meta :
  is_order order →
  (∀ type, is_resource type →
     meta !! type = None ∧ rows type s = ∅ ∨
     meta !! type = Some (json_norm fmt_time <$> kmap (res_text type) (rows type s))) →
  map_Forall proxy_ok s.(proxies) → map_Forall relay_ok s.(relays) →
  ∃ lp lr, lp ≡ₚ map_to_list s.(proxies) ∧ lr ≡ₚ map_to_list s.(relays) ∧
    restoreFromMetaStore order mk meta = (proxy_row_event mk <$> lp) ++ (relay_row_event mk <$> lr).
Proof.
  intros Hord Hmeta HP HR. unfold restoreFromMetaStore, List.
  assert (∃ lp, lp ≡ₚ map_to_list s.(proxies) ∧
    match meta !! "proxy" with Some m => omap (restore_proxy_event mk) (order m) | None => [] end
    = proxy_row_event mk <$> lp) as (lp & Hlp & ->).
  { destruct (Hmeta "proxy" (or_introl eq_refl)) as [[-> Hr]| ->].
    - exists []. unfold rows in Hr. rewrite decide_True in Hr by done. apply fmap_empty_inv in Hr.
      by rewrite Hr, map_to_list_empty.
    - unfold rows. rewrite decide_True by done.
      destruct (kmap_entries "proxy" s.(proxies) AProxyState (json_norm fmt_time) Hord) as (l & Hl & ->).
      exists l. split; [done|]. apply omap_fmap_Forall. rewrite Hl. apply Forall_forall.
      intros [k p] Hin. apply elem_of_map_to_list in Hin. apply HP in Hin. cbn.
      unfold restore_proxy_event. cbn [fst snd]. rewrite parse_res_text; [|by left|].
      + cbn [json_norm]. rewrite (parseProxy_json k p Hin). destruct Hin as (Hc & Hrp & _).
        by rewrite decide_False by naive_solver.
      + destruct Hin as (Hc & _ & _ & _ & ->). unfold proxyKey. intros He. destruct (ps_ClientID p); done. }
  assert (∃ lr, lr ≡ₚ map_to_list s.(relays) ∧
    match meta !! "relay" with Some m => omap (restore_relay_event mk) (order m) | None => [] end
    = relay_row_event mk <$> lr) as (lr & Hlr & ->).
  { destruct (Hmeta "relay" (or_intror eq_refl)) as [[-> Hr]| ->].
    - exists []. unfold rows in Hr. rewrite decide_False in Hr by done. apply fmap_empty_inv in Hr.
      by rewrite Hr, map_to_list_empty.
    - unfold rows. rewrite decide_False by done.
      destruct (kmap_entries "relay" s.(relays) ARelaySession (json_norm fmt_time) Hord) as (l & Hl & ->).
      exists l. split; [done|]. apply omap_fmap_Forall. rewrite Hl. apply Forall_forall.
      intros [k r] Hin. apply elem_of_map_to_list in Hin. apply HR in Hin. cbn.
      unfold restore_relay_event. cbn [fst snd]. rewrite parse_res_text; [|by right|].
      + cbn [json_norm]. by rewrite (parseRelay_json k r Hin).
      + by destruct Hin as (? & _ & _ & ->). }
  by exists lp, lr.
Qed.

(** *** Delivering what was read back *)

Definition added_event (ids : ResourceKey → string) (t : Z) (k : ResourceKey) (payload : any) : GenericEvent :=
  NewGenericEvent (ids k) t k EventAdded payload.

Lemma deliver_proxies now ids t l s :
  Forall (λ kp, proxy_ok kp.1 kp.2) l → NoDup l.*1 →
  let s' := deliver now (proxy_row_event (added_event ids t) <$> l) s in
  s'.(proxies) = list_to_map l ∪ s.(proxies) ∧
  s'.(desiredProxies) = (proxy_desired <$> list_to_map l) ∪ s.(desiredProxies) ∧
  s'.(relays) = s.(relays) ∧ s'.(desiredRelays) = s.(desiredRelays).
Proof.
  intros Hl Hnd. revert s. induction Hl as [|[k p] l Hk Hl IH]; intros s.
  { cbn. by rewrite fmap_empty, !(left_id_L ∅ (∪)). }
  cbn in Hnd. apply NoDup_cons in Hnd as [Hn Hnd]. apply not_elem_of_list_to_map_1 in Hn.
  destruct Hk as (_ & _ & _ & _ & Hkey). cbn in Hkey.
  destruct (IH Hnd (putProxy k p s)) as (H1 & H2 & H3 & H4).
  cbn [fmap list_fmap deliver foldl]. unfold deliver in *.
  assert (Apply now (proxy_row_event (added_event ids t) (k, p)) s = putProxy k p s) as Heq.
  { transitivity (putProxy (proxyKey p.(ps_ClientID) p.(ps_RemotePort)) p s); [done|by rewrite <-Hkey]. }
  cbv zeta. cbn [foldl]. rewrite Heq, H1, H2, H3, H4. cbn.
  rewrite <-Hkey, fmap_insert, <-!insert_union_l, !insert_union_r by (done || by rewrite lookup_fmap, Hn).
  done.
Qed.

Lemma deliver_relays now ids t l s :
  Forall (λ kr, relay_ok kr.1 kr.2) l → NoDup l.*1 →
  let s' := deliver now (relay_row_event (added_event ids t) <$> l) s in
  s'.(relays) = (relay_kept <$> list_to_map l) ∪ s.(relays) ∧
  s'.(desiredRelays) = (relay_desired <$> list_to_map l) ∪ s.(desiredRelays) ∧
  s'.(proxies) = s.(proxies) ∧ s'.(desiredProxies) = s.(desiredProxies).
Proof.
  intros Hl Hnd. revert s. induction Hl as [|[k r] l Hk Hl IH]; intros s.
  { cbn. by rewrite !fmap_empty, !(left_id_L ∅ (∪)). }
  cbn in Hnd. apply NoDup_cons in Hnd as [Hn Hnd]. apply not_elem_of_list_to_map_1 in Hn.
  destruct Hk as (_ & _ & _ & Hkey). cbn in Hkey.
  destruct (IH Hnd (putRelay k (relay_kept r) s)) as (H1 & H2 & H3 & H4).
  cbn [fmap list_fmap]. unfold deliver in *.
  assert (Apply now (relay_row_event (added_event ids t) (k, r)) s = putRelay k (relay_kept r) s) as Heq
    by by rewrite Hkey.
  cbv zeta. cbn [foldl]. rewrite Heq, H1, H2, H3, H4. cbn. unfold relay_kept at 2 4.
  rewrite <-Hkey, !fmap_insert, relay_desired_actual, <-!insert_union_l, !insert_union_r
    by (by rewrite lookup_fmap, Hn).
  done.
Qed.

(** A new core whose resource files are empty. *)
Definition fresh_core (config : CoreConfig) (m : StorageManager) : Prop :=
  m.(meta) = ∅ ∧ meta_synced m.(meta) m.(dirs).(d_meta).

Lemma rows_forall {A} (P : string → A → Prop) (m : gmap string A) l :
  l ≡ₚ map_to_list m → map_Forall P m → Forall (λ ka, P ka.1 ka.2) l ∧ NoDup l.*1 ∧ list_to_map l = m.
Proof.
  intros Hl HP. assert (NoDup l.*1) as Hnd by (rewrite Hl; apply NoDup_fst_map_to_list). split_and!; [|done|].
  - rewrite Hl. apply Forall_forall. intros [k a] Hin. apply elem_of_map_to_list in Hin. by apply HP.
  - rewrite <-(list_to_map_to_list m). by apply list_to_map_proper.
Qed.

(** ** Properties *)

(** C1. A restart loses nothing: take any history of named proxy and relay
    events whose saves succeeded; read the resource files back as a new
    process does, publish what they hold in any order, deliver it to a new
    store.  Its proxies are those of the old store, its relays too (less the
    fields that are not stored), and its desired state is the old one. *)
Theorem restart_recovers (config : CoreConfig) (m0 : StorageManager) (evs : list GenericEvent)
    (c : Core) (m : StorageManager) (ids : ResourceKey → string) (t now : Z) (ip : string)
    (Hview : ∀ x : gmap string any, json_view x = json_norm fmt_time <$> x)
    (Hord : is_order order) (Hfresh : fresh_core config m0)
    (Hrun : core_run (NewCore config (Some m0)) evs c) (Hnamed : Forall event_named evs)
    (Hst : c.(storage) = Some m)
    (HP : map_Forall proxy_ok c.(stateStore).(proxies))
    (HR : map_Forall relay_ok c.(stateStore).(relays)) :
  let meta' := NewMetaStore m.(dirs).(d_meta) in
  let s' := deliver now (restoreFromMetaStore order (added_event ids t) meta') (NewStateStore ip) in
  s'.(proxies) = c.(stateStore).(proxies) ∧
  s'.(relays) = relay_kept <$> c.(stateStore).(relays) ∧
  s'.(desiredProxies) = proxy_desired <$> c.(stateStore).(proxies) ∧
  s'.(desiredRelays) = relay_desired <$> c.(stateStore).(relays).
Proof.
  destruct Hfresh as [Hm0 Hs0].
  assert (persisted (NewCore config (Some m0)).(stateStore) m0.(meta)) as Hp0.
  { intros type Hres. rewrite Hm0, lookup_empty. cbn. unfold rows. case_decide; cbn;
      by rewrite fmap_empty, kmap_empty. }
  destruct (core_run_persisted _ _ _ m0 Hrun Hnamed eq_refl Hp0 Hs0) as (m1 & Hst1 & Hp & Hs).
  rewrite Hst in Hst1. injection Hst1 as <-. cbv zeta.
  destruct (restore_events (added_event ids t) c.(stateStore) (NewMetaStore m.(dirs).(d_meta)) Hord)
    as (lp & lr & Hlp & Hlr & ->); [|done|done|].
  { intros type Hres. unfold NewMetaStore. rewrite (meta_synced_load _ _ type Hs).
    specialize (Hp type Hres). destruct (m.(meta) !! type) as [mm|] eqn:E; cbn in Hp |- *.
    - right. by rewrite Hview, Hp.
    - left. split; [done|]. symmetry in Hp. rewrite <-(kmap_empty (M1 := gmap string) (res_text type)) in Hp.
      by apply (inj (kmap (res_text type))) in Hp. }
  destruct (rows_forall _ _ _ Hlp HP) as (Hfp & Hnp & Hmp).
  destruct (rows_forall _ _ _ Hlr HR) as (Hfr & Hnr & Hmr).
  unfold deliver. rewrite foldl_app.
  destruct (deliver_proxies now ids t lp (NewStateStore ip) Hfp Hnp) as (H1 & H2 & H3 & H4).
  destruct (deliver_relays now ids t lr (deliver now (proxy_row_event (added_event ids t) <$> lp)
    (NewStateStore ip)) Hfr Hnr) as (G1 & G2 & G3 & G4).
  unfold deliver in *. rewrite G1, G2, G3, G4, H1, H2, H3, H4, Hmp, Hmr. cbn.
  by rewrite !(right_id_L ∅ (∪)).
Qed.

Lemma restoreProxies_keeps l s k : is_Some (s.(proxies) !! k) → is_Some ((restoreProxies l s).(proxies) !! k).
Proof.
  unfold restoreProxies. revert s. induction l as [|[k' v] l IH]; intros s Hs; [done|]. cbn. apply IH.
  unfold restoreProxy. case_match; [|done]. cbn. apply lookup_insert_is_Some'. by right.
Qed.
Lemma restoreProxies_port l s q : is_Some (s.(portIndex) !! q) → is_Some ((restoreProxies l s).(portIndex) !! q).
Proof.
  unfold restoreProxies. revert s. induction l as [|[k' v] l IH]; intros s Hs; [done|]. cbn. apply IH.
  unfold restoreProxy. case_match; [|done]. cbn. apply lookup_insert_is_Some'. by right.
Qed.
Lemma restoreRelays_proxies l s :
  (restoreRelays l s).(proxies) = s.(proxies) ∧ (restoreRelays l s).(portIndex) = s.(portIndex).
Proof.
  unfold restoreRelays. revert s. induction l as [|[k' v] l IH]; intros s; [done|]. cbn.
  destruct (IH (restoreRelay k' v s)) as [-> ->]. unfold restoreRelay. by case_match.
Qed.

Lemma restoreProxies_adds l s k v d :
  (k, v) ∈ l → restored_proxy v = Some d →
  is_Some ((restoreProxies l s).(proxies) !! proxyKey d.(pd_ClientID) d.(pd_RemotePort)) ∧
  is_Some ((restoreProxies l s).(portIndex) !! d.(pd_RemotePort)).
Proof.
  intros Hin Hd. revert s. induction l as [|[k' v'] l IH]; intros s; [by apply elem_of_nil in Hin|].
  apply elem_of_cons in Hin as [Heq|Hin]; [|by apply IH]. injection Heq as <- <-.
  change (restoreProxies ((k, v) :: l) s) with (restoreProxies l (restoreProxy k v s)).
  unfold restoreProxy. rewrite Hd. split.
  - apply restoreProxies_keeps. cbn. rewrite lookup_insert_eq. eauto.
  - apply restoreProxies_port. cbn. rewrite lookup_insert_eq. eauto.
Qed.

(** A snapshot brings back what was deleted after it was taken: a proxy
    of the latest snapshot that the resource files no longer hold is in the
    store again after a restart, with its port indexed, although nothing was
    published for it. *)
Theorem snapshot_resurrects (mk : ResourceKey → any → GenericEvent) (st : StorageManager)
    (s : StateStoreImpl) (sn : Snapshot) (m : gmap string any) (k : string) (v : any) (d : ProxyDesiredState)
    (Hord : is_order order) (Hmeta : st.(meta) = ∅) (Hsn : st.(snapshots).(latest) = Some sn)
    (Hm : sn.(sn_State) !! "desired_proxies" = Some m) (Hk : m !! k = Some v)
    (Hd : restored_proxy v = Some d) :
  let '(published, s') := Run_restore order mk (Some st) s in
  published = [] ∧ is_Some (GetProxy s' d.(pd_ClientID) d.(pd_RemotePort)) ∧
  is_Some (GetClientIDByPort s' d.(pd_RemotePort)).
Proof.
  unfold Run_restore, restoreFromMetaStore, restoreSnapshot, List, Load. rewrite Hmeta, !lookup_empty, Hsn.
  split; [done|]. unfold Restore, GetProxy, GetClientIDByPort. rewrite !lookup_fmap, Hm. cbn.
  assert ((k, v) ∈ order m) as Hin by (rewrite (Hord m); by apply elem_of_map_to_list).
  destruct (restoreProxies_adds (order m) s k v d Hin Hd) as [H1 H2].
  destruct (as_map _) as [mr|]; [|done].
  by destruct (restoreRelays_proxies (order mr) (restoreProxies (order m) s)) as [-> ->].
Qed.
End life.

(** *** Witnesses *)

#[local] Existing Instance toy_event_codec.
#[local] Existing Instance toy_map_codec.
#[local] Existing Instance toy_snapshot_codec.

Definition ex_storage : StorageManager :=
  mkStorageManager ex_log.1 (mkSnapshotStore None) ∅ 1000 0 (mkDirs ex_log.2 ∅ ∅).
Definition ex_added : GenericEvent := proxyEvent EventAdded "dev:8080" (AProxyState ex_proxy).
Definition ex_core : Core := on_resource map_to_list 100 ex_env ex_added (NewCore (mkCoreConfig "" 0) (Some ex_storage)).

Lemma restart_recovers_witness :
  ∃ m, ex_core.(storage) = Some m ∧
    (deliver 9 (restoreFromMetaStore map_to_list (added_event (λ _, "id") 5) (NewMetaStore m.(dirs).(d_meta)))
      (NewStateStore "")).(proxies) = {["dev:8080" := ex_proxy]}.
Proof.
  destruct (persist_result map_to_list ex_env ex_added ex_storage) as [r m] eqn:E.
  assert (r = Ok tt) as -> by (change r with (r, m).1; rewrite <-E; by vm_compute).
  assert (core_run map_to_list (NewCore (mkCoreConfig "" 0) (Some ex_storage)) ([] ++ [ex_added]) ex_core) as Hrun.
  { eapply (core_snoc map_to_list _ _ _ ex_storage m); [constructor|done|done|exact E]. }
  assert (ex_core.(storage) = Some m) as Hst.
  { rewrite <-(persist_event_result map_to_list ex_env ex_added ex_storage _ _ E). reflexivity. }
  exists m. split; [exact Hst|].
  assert (∀ x : gmap string any, json_view x = json_norm ex_fmt_time <$> x) as Hview by done.
  assert (fresh_core (mkCoreConfig "" 0) ex_storage) as Hfresh.
  { split; [done|]. intros t. cbn. by rewrite !lookup_empty. }
  assert (Forall event_named ([] ++ [ex_added])) as Hn.
  { constructor; [|constructor]. split; [done|]. left. split; [done|]. left. split; [done|]. exists ex_proxy. split; [done|by vm_compute]. }
  assert (map_Forall proxy_ok ex_core.(stateStore).(proxies)) as HP
    by (apply (bool_decide_eq_true_1 (map_Forall _ _)); by vm_compute).
  assert (map_Forall relay_ok ex_core.(stateStore).(relays)) as HR
    by (apply (bool_decide_eq_true_1 (map_Forall _ _)); by vm_compute).
  destruct (restart_recovers map_to_list ex_fmt_time (mkCoreConfig "" 0) ex_storage ([] ++ [ex_added]) ex_core m
    (λ _, "id") 5 9 "" Hview (λ m, reflexivity _) Hfresh Hrun Hn Hst HP HR) as (H & _).
  rewrite H. by vm_compute.
Defined.

Definition ex_old_snapshot : Snapshot (V := any) :=
  mkSnapshot "s" 1 1 {["desired_proxies" := {["dev:8080" := json_ProxyState ex_proxy]}]}.
Definition ex_stale : StorageManager :=
  mkStorageManager ex_log.1 (mkSnapshotStore (Some ex_old_snapshot)) ∅ 1000 0 (mkDirs ex_log.2 ∅ ∅).

Lemma snapshot_resurrects_witness :
  is_Some (GetProxy (Run_restore map_to_list (added_event (λ _, "id") 5) (Some ex_stale)
    (NewStateStore "")).2 "dev" 8080).
Proof.
  assert (restored_proxy (json_ProxyState ex_proxy) = Some (proxy_desired ex_proxy)) as Hd by by vm_compute.
  pose proof (snapshot_resurrects map_to_list (added_event (λ _, "id") 5) ex_stale (NewStateStore "")
    ex_old_snapshot {["dev:8080" := json_ProxyState ex_proxy]} "dev:8080" (json_ProxyState ex_proxy)
    (proxy_desired ex_proxy) (λ m, reflexivity _) eq_refl eq_refl eq_refl eq_refl Hd) as H.
  destruct (Run_restore _ _ _ _) as [pub s']. exact (proj1 (proj2 H)).
Defined.
