(* ===== verification/Mux.v ===== *)
(** * The connection multiplexer (common/mux/mux.go)

    Virtual channels, one per port, share one connection.  A frame is eight
    bytes of header and its data.  The state of a [Multiplexer] holds its
    channels by reference: [mx_heap] is every channel made, [mx_channels] the
    channel a port has now, so a channel taken out of the map is still the
    object its reader holds.

    A goroutine that waits is not a step: an operation with a [select] gives
    the list of its possible outcomes, and the empty list where it waits.
    What the connection does is in the state too: [mx_writes] holds the
    results of the next calls of [conn.Write] (a call past the end of the list
    takes all the bytes), [mx_splices] those of the next pairs of splice calls. *)

From S2P Require Import Prelude Proto.

Definition Magic : Z := 0xAE01.
Definition FrameHeaderSize : nat := 8.
Definition MaxFrameSize : Z := 65535.
Definition workerCount : nat := 4.
Definition windowSize : Z := 1024 * 1024.
Definition sendQueueSize : nat := 64.
Definition ctrlQueueSize : nat := 32.
Definition workQueueSize : nat := 64.
Definition dataQueueSize : nat := 32.
Definition windowThreshold : Z := 16 * 1024.
Definition windowInterval : Z := 10 * 1000000.

Definition PktData : Z := 0.
Definition PktOpen : Z := 1.
Definition PktClose : Z := 2.
Definition PktWindowUpdate : Z := 3.

Record frameOut := mkFrameOut {
  fo_port : Z; fo_data : bytes; fo_srcFd : Z; fo_n : Z; fo_ctrl : bool }.

Record frameIn := mkFrameIn { fi_port : Z; fi_ptype : Z; fi_data : bytes }.

Record ctrlFrame := mkCtrl { cf_port : Z; cf_ptype : Z }.

(** [ch_CloseChan] tells whether the channel's [CloseChan] is closed. *)
Record Channel := mkChannel {
  ch_Port : Z;
  ch_DataChan : list bytes;
  ch_CloseChan : bool;
  ch_sendQueue : list frameOut;
  ch_sendWindow : Z;
  ch_pendingConsumed : Z;
  ch_lastWUTime : Z;
  ch_reader : bytes;
}.

Record Multiplexer := mkMux {
  mx_heap : list Channel;
  mx_channels : gmap Z nat;
  mx_workChan : list frameIn;
  mx_ctrlChan : list ctrlFrame;
  mx_closed : bool;
  mx_writeNotify : bool;
  mx_spliceAvail : bool;
  mx_OnNewChannel : bool;
  mx_started : list nat;
  mx_conn : bytes;
  mx_broken : bool;
  mx_writes : list (nat * bool);
  mx_splices : list (Res bytes * Res nat);
}.

#[export] Instance frameOut_eq_dec : EqDecision frameOut.
Proof. solve_decision. Defined.
#[export] Instance frameIn_eq_dec : EqDecision frameIn.
Proof. solve_decision. Defined.
#[export] Instance ctrlFrame_eq_dec : EqDecision ctrlFrame.
Proof. solve_decision. Defined.
#[export] Instance Channel_eq_dec : EqDecision Channel.
Proof. solve_decision. Defined.

(** ** Field updates *)

Definition ch_set_data (l : list bytes) (c : Channel) : Channel :=
  mkChannel c.(ch_Port) l c.(ch_CloseChan) c.(ch_sendQueue) c.(ch_sendWindow)
    c.(ch_pendingConsumed) c.(ch_lastWUTime) c.(ch_reader).
Definition ch_set_close (c : Channel) : Channel :=
  mkChannel c.(ch_Port) c.(ch_DataChan) true c.(ch_sendQueue) c.(ch_sendWindow)
    c.(ch_pendingConsumed) c.(ch_lastWUTime) c.(ch_reader).
Definition ch_set_queue (q : list frameOut) (c : Channel) : Channel :=
  mkChannel c.(ch_Port) c.(ch_DataChan) c.(ch_CloseChan) q c.(ch_sendWindow)
    c.(ch_pendingConsumed) c.(ch_lastWUTime) c.(ch_reader).
(** [atomic.AddInt32(&ch.sendWindow, d)] *)
Definition ch_add_window (d : Z) (c : Channel) : Channel :=
  mkChannel c.(ch_Port) c.(ch_DataChan) c.(ch_CloseChan) c.(ch_sendQueue)
    (c.(ch_sendWindow) +32 d)%go c.(ch_pendingConsumed) c.(ch_lastWUTime) c.(ch_reader).
Definition ch_set_pending (p t : Z) (c : Channel) : Channel :=
  mkChannel c.(ch_Port) c.(ch_DataChan) c.(ch_CloseChan) c.(ch_sendQueue)
    c.(ch_sendWindow) p t c.(ch_reader).
Definition ch_set_reader (r : bytes) (c : Channel) : Channel :=
  mkChannel c.(ch_Port) c.(ch_DataChan) c.(ch_CloseChan) c.(ch_sendQueue)
    c.(ch_sendWindow) c.(ch_pendingConsumed) c.(ch_lastWUTime) r.

Section updates.
Context (m : Multiplexer).
Definition set_heap (h : list Channel) : Multiplexer :=
  mkMux h m.(mx_channels) m.(mx_workChan) m.(mx_ctrlChan) m.(mx_closed) m.(mx_writeNotify)
    m.(mx_spliceAvail) m.(mx_OnNewChannel) m.(mx_started) m.(mx_conn) m.(mx_broken)
    m.(mx_writes) m.(mx_splices).
Definition set_channels (cs : gmap Z nat) : Multiplexer :=
  mkMux m.(mx_heap) cs m.(mx_workChan) m.(mx_ctrlChan) m.(mx_closed) m.(mx_writeNotify)
    m.(mx_spliceAvail) m.(mx_OnNewChannel) m.(mx_started) m.(mx_conn) m.(mx_broken)
    m.(mx_writes) m.(mx_splices).
Definition set_work (w : list frameIn) : Multiplexer :=
  mkMux m.(mx_heap) m.(mx_channels) w m.(mx_ctrlChan) m.(mx_closed) m.(mx_writeNotify)
    m.(mx_spliceAvail) m.(mx_OnNewChannel) m.(mx_started) m.(mx_conn) m.(mx_broken)
    m.(mx_writes) m.(mx_splices).
Definition set_ctrl (c : list ctrlFrame) : Multiplexer :=
  mkMux m.(mx_heap) m.(mx_channels) m.(mx_workChan) c m.(mx_closed) m.(mx_writeNotify)
    m.(mx_spliceAvail) m.(mx_OnNewChannel) m.(mx_started) m.(mx_conn) m.(mx_broken)
    m.(mx_writes) m.(mx_splices).
Definition set_notify (b : bool) : Multiplexer :=
  mkMux m.(mx_heap) m.(mx_channels) m.(mx_workChan) m.(mx_ctrlChan) m.(mx_closed) b
    m.(mx_spliceAvail) m.(mx_OnNewChannel) m.(mx_started) m.(mx_conn) m.(mx_broken)
    m.(mx_writes) m.(mx_splices).
Definition set_closed : Multiplexer :=
  mkMux m.(mx_heap) m.(mx_channels) m.(mx_workChan) m.(mx_ctrlChan) true m.(mx_writeNotify)
    m.(mx_spliceAvail) m.(mx_OnNewChannel) m.(mx_started) m.(mx_conn) m.(mx_broken)
    m.(mx_writes) m.(mx_splices).
Definition set_started (s : list nat) : Multiplexer :=
  mkMux m.(mx_heap) m.(mx_channels) m.(mx_workChan) m.(mx_ctrlChan) m.(mx_closed)
    m.(mx_writeNotify) m.(mx_spliceAvail) m.(mx_OnNewChannel) s m.(mx_conn) m.(mx_broken)
    m.(mx_writes) m.(mx_splices).
Definition set_conn (c : bytes) (broken : bool) (w : list (nat * bool)) : Multiplexer :=
  mkMux m.(mx_heap) m.(mx_channels) m.(mx_workChan) m.(mx_ctrlChan) m.(mx_closed)
    m.(mx_writeNotify) m.(mx_spliceAvail) m.(mx_OnNewChannel) m.(mx_started) c
    (m.(mx_broken) || broken) w m.(mx_splices).
Definition set_splices (s : list (Res bytes * Res nat)) : Multiplexer :=
  mkMux m.(mx_heap) m.(mx_channels) m.(mx_workChan) m.(mx_ctrlChan) m.(mx_closed)
    m.(mx_writeNotify) m.(mx_spliceAvail) m.(mx_OnNewChannel) m.(mx_started) m.(mx_conn)
    m.(mx_broken) m.(mx_writes) s.
End updates.

(** Updates the channel object at reference [c]. *)
Definition on_channel (c : nat) (f : Channel → Channel) (m : Multiplexer) : Multiplexer :=
  set_heap m (alter f c m.(mx_heap)).

(** ** Construction *)

Definition New (spliceAvail onNewChannel : bool) (writes : list (nat * bool))
    (splices : list (Res bytes * Res nat)) : Multiplexer :=
  mkMux [] ∅ [] [] false false spliceAvail onNewChannel [] [] false writes splices.

Definition newChannel (port now : Z) : Channel :=
  mkChannel port [] false [] windowSize 0 now [].

Definition notifyWrite (m : Multiplexer) : Multiplexer := set_notify m true.

(** [closeOnce] makes the later calls do nothing.  That writes to the closed
    connection fail is for [mx_writes] to say. *)
Definition Close (m : Multiplexer) : Multiplexer := set_closed m.

(** ** Frames on the wire *)

(** [for written := 0; written < len(buf); { n, err := conn.Write(buf[written:]); ... }]:
    the bytes the connection took, the error and the results left. *)
Fixpoint write_loop (ws : list (nat * bool)) (buf : bytes) :
    bytes * option string * list (nat * bool) :=
  match buf with
  | [] => ([], None, ws)
  | _ =>
      match ws with
      | [] => (buf, None, [])
      | (n, err) :: ws' =>
          if err : bool then (take n buf, Some "write error", ws')
          else let '(out, e, ws'') := write_loop ws' (drop n buf) in (take n buf ++ out, e, ws'')
      end
  end.

Definition conn_Write (buf : bytes) (m : Multiplexer) : option string * Multiplexer :=
  let '(out, e, ws) := write_loop m.(mx_writes) buf in
  (e, set_conn m (m.(mx_conn) ++ out) (match e with Some _ => true | None => false end) ws).

(** One call of [conn.Write]. *)
Definition conn_Write_once (buf : bytes) (m : Multiplexer) : option string * Multiplexer :=
  match m.(mx_writes) with
  | [] => (None, set_conn m (m.(mx_conn) ++ buf) false [])
  | (n, err) :: ws =>
      (if err : bool then Some "write error" else None,
       set_conn m (m.(mx_conn) ++ take n buf) err ws)
  end.

Definition frame_header (port len ptype : Z) : bytes :=
  be_encode 2 Magic ++ be_encode 2 port ++ be_encode 2 len ++ be_encode 2 ptype.

Definition writeFrame (port : Z) (data : bytes) (ctrl : bool) (m : Multiplexer) :
    option string * Multiplexer :=
  let dataLen := Z.of_nat (length data) in
  if (MaxFrameSize <? dataLen)%Z then (Some ("data too large: " +:+ pretty dataLen), m)
  else
    let ptype := if ctrl then PktOpen else PktData in
    conn_Write (frame_header port dataLen ptype ++ data) m.

Definition writeCtrl (port ptype : Z) (m : Multiplexer) : option string * Multiplexer :=
  if m.(mx_closed) then (Some "multiplexer closed", m)
  else conn_Write (frame_header port 0 ptype) m.

Definition writeWindowUpdate (port : Z) (data : bytes) (m : Multiplexer) :
    option string * Multiplexer :=
  conn_Write (frame_header port 4 PktWindowUpdate ++ take 4 data) m.

(** The first splice moves at most [n] bytes from the descriptor to a pipe,
    the second the pipe's bytes to the connection; how many it moved is not
    looked at. *)
Definition writeFrameSplice (port n : Z) (m : Multiplexer) : option string * Multiplexer :=
  let n := if (MaxFrameSize <? n)%Z then MaxFrameSize else n in
  let '(first, second) := default (Ok [], Ok 0) (head m.(mx_splices)) in
  let m := set_splices m (tail m.(mx_splices)) in
  match first with
  | Err e => (Some ("splice src→pipe: " +:+ e), m)
  | Ok moved =>
      let spliced := take (Z.to_nat n) moved in
      if decide (spliced = []) then (Some "splice: EOF", m)
      else
        let '(err, m1) := conn_Write_once (frame_header port (Z.of_nat (length spliced)) PktData) m in
        match err with
        | Some e => (Some e, m1)
        | None =>
            match second with
            | Err e => (Some e, set_conn m1 m1.(mx_conn) true m1.(mx_writes))
            | Ok k => (None, set_conn m1 (m1.(mx_conn) ++ take k spliced) false m1.(mx_writes))
            end
        end
  end.

(** [readLoop] reads one frame. *)
Definition readFrame (r : bytes) : Res frameIn * bytes :=
  match ReadFull FrameHeaderSize r with
  | (Err e, r1) => (Err ("read header error: " +:+ e), r1)
  | (Ok header, r1) =>
      let magic := be_decode (take 2 header) in
      if negb (magic =? Magic)%Z then (Err "invalid magic", r1)
      else
        let port := be_decode (take 2 (drop 2 header)) in
        let dataLen := be_decode (take 2 (drop 4 header)) in
        let ptype := be_decode (take 2 (drop 6 header)) in
        if (MaxFrameSize <? dataLen)%Z then (Err "frame too large", r1)
        else if (0 <? dataLen)%Z then
          match ReadFull (Z.to_nat dataLen) r1 with
          | (Err e, r2) => (Err ("read data error: " +:+ e), r2)
          | (Ok data, r2) => (Ok (mkFrameIn port ptype data), r2)
          end
        else (Ok (mkFrameIn port ptype []), r1)
  end.

(** The loop on a whole stream: the frames put on [workChan], in order, and
    the error that ends it.  A frame takes at least a header off the stream. *)
Fixpoint readLoop (fuel : nat) (r : bytes) : list frameIn * string :=
  match fuel with
  | O => ([], "out of fuel")
  | S fuel' =>
      match readFrame r with
      | (Err e, _) => ([], e)
      | (Ok f, r') => let '(fs, e) := readLoop fuel' r' in (f :: fs, e)
      end
  end.
Definition readStream (r : bytes) : list frameIn * string := readLoop (S (length r)) r.
#[global] Arguments readStream : simpl never.

(** The deferred function of [readLoop], when the loop ends. *)
Definition readLoop_exit (m : Multiplexer) : Multiplexer :=
  let m1 := map_fold (λ _ c m', on_channel c ch_set_close m') m m.(mx_channels) in
  Close (set_channels m1 ∅).

(** [workChan <- frame], or the multiplexer is closed. *)
Definition readLoop_put (f : frameIn) (m : Multiplexer) : list Multiplexer :=
  (if decide (length m.(mx_workChan) < workQueueSize) then [set_work m (m.(mx_workChan) ++ [f])] else [])
  ++ (if m.(mx_closed) then [readLoop_exit m] else []).

(** ** Channels *)

(** [enqueueFrame]: the frame is queued when the queue has room; a closed
    channel or a closed multiplexer is an error; otherwise the caller waits. *)
Definition enqueueFrame (c : nat) (f : frameOut) (m : Multiplexer) : list (Res unit * Multiplexer) :=
  match m.(mx_heap) !! c with
  | None => []
  | Some ch =>
      (if decide (length ch.(ch_sendQueue) < sendQueueSize) then
         [(Ok tt, notifyWrite (on_channel c (ch_set_queue (ch.(ch_sendQueue) ++ [f])) m))]
       else [])
      ++ (if ch.(ch_CloseChan) then [(Err "channel closed", m)] else [])
      ++ (if m.(mx_closed) then [(Err "multiplexer closed", m)] else [])
  end.

(** The flow control of [Send] and [SpliceSend]: with room for [n] bytes the
    window shrinks and the frame is queued; without, the call goes on waiting
    unless the channel or the multiplexer is closed. *)
Definition send_window (c : nat) (n : Z) (f : frameOut) (m : Multiplexer) :
    list (Res unit * Multiplexer) :=
  match m.(mx_heap) !! c with
  | None => []
  | Some ch =>
      if (ch.(ch_sendWindow) <? n)%Z then
        (if ch.(ch_CloseChan) then [(Err "channel closed", m)] else [])
        ++ (if m.(mx_closed) then [(Err "multiplexer closed", m)] else [])
      else enqueueFrame c f (on_channel c (ch_add_window (- n)) m)
  end.

Definition channel_not_found (port : Z) : string :=
  "channel " +:+ pretty port +:+ " not found".

Definition Send (port : Z) (data : bytes) (m : Multiplexer) : list (Res unit * Multiplexer) :=
  if m.(mx_closed) then [(Err "multiplexer closed", m)]
  else
    match m.(mx_channels) !! port with
    | None => [(Err (channel_not_found port), m)]
    | Some c => send_window c (int32_wrap (Z.of_nat (length data))) (mkFrameOut port data (-1) 0 false) m
    end.

Definition SpliceSend (port srcFd n : Z) (m : Multiplexer) : list (Res unit * Multiplexer) :=
  if m.(mx_closed) then [(Err "multiplexer closed", m)]
  else if negb m.(mx_spliceAvail) then [(Err "splice not available", m)]
  else
    let n := if (MaxFrameSize <? n)%Z then MaxFrameSize else n in
    match m.(mx_channels) !! port with
    | None => [(Err (channel_not_found port), m)]
    | Some c => send_window c (int32_wrap n) (mkFrameOut port [] srcFd n false) m
    end.

(** A closed multiplexer lets the select of [enqueueCtrl] give up; the queue
    may have room as well. *)
Definition enqueueCtrl (port ptype : Z) (m : Multiplexer) : list Multiplexer :=
  if m.(mx_closed) then [m]
  else if decide (length m.(mx_ctrlChan) < ctrlQueueSize) then
    [notifyWrite (set_ctrl m (m.(mx_ctrlChan) ++ [mkCtrl port ptype]))]
  else [].

(** The new channel and, for a port that had none, the goroutine that is to
    queue the OPEN frame. *)
Definition OpenChannel (port now : Z) (m : Multiplexer) : Res (nat * bool) * Multiplexer :=
  if m.(mx_closed) then (Err "multiplexer closed", m)
  else
    match m.(mx_channels) !! port with
    | Some c => (Ok (c, false), m)
    | None =>
        let c := length m.(mx_heap) in
        (Ok (c, true),
         set_channels (set_heap m (m.(mx_heap) ++ [newChannel port now]))
           (<[port := c]> m.(mx_channels)))
    end.

Definition CloseChannel (port : Z) (m : Multiplexer) : list Multiplexer :=
  enqueueCtrl port PktClose m.

(** [closeOnce]: the queue is emptied the first time only. *)
Definition closeChannelLocal (port : Z) (m : Multiplexer) : Multiplexer :=
  match m.(mx_channels) !! port with
  | None => m
  | Some c =>
      on_channel c (λ ch, if ch.(ch_CloseChan) then ch else ch_set_close (ch_set_queue [] ch))
        (set_channels m (delete port m.(mx_channels)))
  end.

(** ** Received frames *)

(** [dispatchData]: the outcomes, empty while the worker waits for room in
    [DataChan]. *)
Definition put_data (c : nat) (data : bytes) (m : Multiplexer) : list Multiplexer :=
  match m.(mx_heap) !! c with
  | Some ch =>
      if decide (length ch.(ch_DataChan) < dataQueueSize) then
        [on_channel c (ch_set_data (ch.(ch_DataChan) ++ [data])) m] else []
  | None => []
  end.

Definition dispatchData (port now : Z) (data : bytes) (m : Multiplexer) : list Multiplexer :=
  match m.(mx_channels) !! port with
  | Some c => put_data c data m ++ (if m.(mx_closed) then [m] else [])
  | None =>
      if negb m.(mx_OnNewChannel) then [m]
      else
        let c := length m.(mx_heap) in
        let m1 := set_channels (set_heap m (m.(mx_heap) ++ [newChannel port now]))
                    (<[port := c]> m.(mx_channels)) in
        let m2 := set_started m1 (m1.(mx_started) ++ [c]) in
        put_data c data m2 ++ (if m2.(mx_closed) then [m2] else [])
  end.

Definition handleWindowUpdate (port : Z) (data : bytes) (m : Multiplexer) : Multiplexer :=
  if decide (length data < 4) then m
  else
    let addWindow := int32_wrap (be_decode (take 4 data)) in
    match m.(mx_channels) !! port with
    | Some c => on_channel c (ch_add_window addWindow) m
    | None => m
    end.

Definition dispatch (now : Z) (f : frameIn) (m : Multiplexer) : list Multiplexer :=
  if decide (f.(fi_ptype) = PktData) then dispatchData f.(fi_port) now f.(fi_data) m
  else if decide (f.(fi_ptype) = PktClose) then [closeChannelLocal f.(fi_port) m]
  else if decide (f.(fi_ptype) = PktWindowUpdate) then [handleWindowUpdate f.(fi_port) f.(fi_data) m]
  else [m].

(** ** The reading side of a channel *)

(** The credit [SendWindowUpdate] holds back: the channel after [consumed]
    more bytes, and the amount to send now, if any. *)
Definition accumulate (now consumed : Z) (ch : Channel) : Channel * option Z :=
  let p := (ch.(ch_pendingConsumed) +32 int32_wrap consumed)%go in
  if (windowThreshold <=? p)%Z || (windowInterval <=? now - ch.(ch_lastWUTime))%Z then
    (ch_set_pending 0 now ch, Some p)
  else (ch_set_pending p ch.(ch_lastWUTime) ch, None).

Definition SendWindowUpdate (port now consumed : Z) (m : Multiplexer) :
    option string * Multiplexer :=
  if m.(mx_closed) then (Some "multiplexer closed", m)
  else
    match m.(mx_channels) !! port with
    | None => (None, m)
    | Some c =>
        match m.(mx_heap) !! c with
        | None => (None, m)
        | Some ch =>
            let '(ch', credit) := accumulate now consumed ch in
            let m' := on_channel c (λ _, ch') m in
            match credit with
            | Some p => writeWindowUpdate port (be_encode 4 p) m'
            | None => (None, m')
            end
        end
    end.

(** The first message waiting; [None] when the channel is closed and empty.
    No outcome while the reader waits. *)
Definition ReceiveBlocking (ch : Channel) : option (option bytes * Channel) :=
  match ch.(ch_DataChan) with
  | d :: rest => Some (Some d, ch_set_data rest ch)
  | [] => if ch.(ch_CloseChan) then Some (None, ch) else None
  end.

(** With a message waiting on a closed channel, the [select] may take either
    case. *)
Definition Receive (ch : Channel) : list (option bytes * Channel) :=
  match ch.(ch_DataChan), ch.(ch_CloseChan) with
  | d :: rest, true => [(Some d, ch_set_data rest ch); (None, ch)]
  | d :: rest, false => [(Some d, ch_set_data rest ch)]
  | [], _ => [(None, ch)]
  end.

(** [Read(p)] with [len(p) = plen], on the channel alone: the bytes, or
    [None] at the end, and the length of the message to give credit for, when
    it was consumed whole. *)
Definition ch_Read (plen : nat) (ch : Channel) : option (option bytes * Channel * option Z) :=
  if decide (ch.(ch_reader) ≠ []) then
    Some (Some (take plen ch.(ch_reader)), ch_set_reader (drop plen ch.(ch_reader)) ch, None)
  else
    match ReceiveBlocking ch with
    | None => None
    | Some (None, ch') => Some (None, ch', None)
    | Some (Some data, ch') =>
        if decide (plen < length data) then
          Some (Some (take plen data), ch_set_reader (drop plen data) ch', None)
        else Some (Some data, ch', Some (Z.of_nat (length data)))
    end.

Definition Read (c plen : nat) (now : Z) (m : Multiplexer) : option (option bytes * Multiplexer) :=
  ch ← m.(mx_heap) !! c;
  '(out, ch', credit) ← ch_Read plen ch;
  let m' := on_channel c (λ _, ch') m in
  Some (out, match credit with
             | Some n => snd (SendWindowUpdate ch.(ch_Port) now n m')
             | None => m'
             end).

Definition Write (c : nat) (p : bytes) (m : Multiplexer) : list (Res Z * Multiplexer) :=
  match m.(mx_heap) !! c with
  | None => []
  | Some ch =>
      (λ '(r, m'), (match r with Ok _ => Ok (Z.of_nat (length p)) | Err e => Err e end, m'))
        <$> Send ch.(ch_Port) p m
  end.

(** ** The writing goroutine

    [Again]: the loop goes on; [Idle]: it waits in one of its two [select]s,
    the first of which has a timer; [Stopped]: it has returned. *)
Inductive WStatus := Again | Idle (timer : bool) | Stopped.

#[export] Instance WStatus_eq_dec : EqDecision WStatus.
Proof. solve_decision. Defined.

Definition write_or_close (r : option string * Multiplexer) : Multiplexer * WStatus :=
  match r with
  | (Some _, m) => (Close m, Stopped)
  | (None, m) => (m, Again)
  end.

(** A control frame taken by the first [select] of a round: after a CLOSE the
    channel is taken down. *)
Definition writeLoop_ctrl (cf : ctrlFrame) (m : Multiplexer) : Multiplexer * WStatus :=
  match write_or_close (writeCtrl cf.(cf_port) cf.(cf_ptype) m) with
  | (m1, Again) =>
      (if decide (cf.(cf_ptype) = PktClose) then closeChannelLocal cf.(cf_port) m1 else m1, Again)
  | stopped => stopped
  end.

Definition write_out (f : frameOut) (m : Multiplexer) : option string * Multiplexer :=
  if (0 <=? f.(fo_srcFd))%Z then writeFrameSplice f.(fo_port) f.(fo_n) m
  else writeFrame f.(fo_port) f.(fo_data) f.(fo_ctrl) m.

(** One data frame of each channel of the snapshot; the flag is
    [madeProgress]. *)
Fixpoint writeLoop_data (chans : list nat) (progress : bool) (m : Multiplexer) :
    Multiplexer * WStatus * bool :=
  match chans with
  | [] => (m, Again, progress)
  | c :: rest =>
      match m.(mx_heap) !! c with
      | Some ch =>
          match ch.(ch_sendQueue) with
          | f :: q =>
              match write_or_close (write_out f (on_channel c (ch_set_queue q) m)) with
              | (m1, Again) => writeLoop_data rest true m1
              | (m1, st) => (m1, st, progress)
              end
          | [] => writeLoop_data rest progress m
          end
      | None => writeLoop_data rest progress m
      end
  end.

(** A round of the loop, up to its [continue] or to the [select] it waits in.
    [iter] is the order in which the map gives the channels. *)
Definition writeLoop_round (iter : gmap Z nat → list nat) (m : Multiplexer) : Multiplexer * WStatus :=
  if m.(mx_closed) then (m, Stopped)
  else
    match (match m.(mx_ctrlChan) with
           | cf :: rest => (writeLoop_ctrl cf (set_ctrl m rest), true)
           | [] => ((m, Again), false)
           end) with
    | ((m1, Again), progress) =>
        match iter m1.(mx_channels) with
        | [] => (m1, if progress then Again else Idle true)
        | chans =>
            match writeLoop_data chans progress m1 with
            | (m2, Again, progress') => (m2, if progress' then Again else Idle false)
            | (m2, st, _) => (m2, st)
            end
        end
    | (stopped, _) => stopped
    end.

(** The [select] of an idle loop: a notification, a control frame, which is
    written and nothing more, the end, or the timer. *)
Definition writeLoop_idle (timer : bool) (m : Multiplexer) : list (Multiplexer * WStatus) :=
  (if m.(mx_writeNotify) then [(set_notify m false, Again)] else [])
  ++ (match m.(mx_ctrlChan) with
      | cf :: rest => [write_or_close (writeCtrl cf.(cf_port) cf.(cf_ptype) (set_ctrl m rest))]
      | [] => []
      end)
  ++ (if m.(mx_closed) then [(m, Stopped)] else [])
  ++ (if timer then [(m, Again)] else []).

(** ** Lemmas on frames *)

Definition is_uint16 (z : Z) : Prop := (0 <= z < 65536)%Z.

Definition frame_ok (f : frameIn) : Prop :=
  is_uint16 f.(fi_port) ∧ is_uint16 f.(fi_ptype)
  ∧ (Z.of_nat (length f.(fi_data)) <= MaxFrameSize)%Z.

#[export] Instance frame_ok_dec f : Decision (frame_ok f).
Proof. unfold frame_ok, is_uint16. apply _. Defined.

Definition encode_frame (f : frameIn) : bytes :=
  frame_header f.(fi_port) (Z.of_nat (length f.(fi_data))) f.(fi_ptype) ++ f.(fi_data).
#[global] Arguments readFrame : simpl never.
#[global] Arguments encode_frame : simpl never.
#[global] Arguments frame_header : simpl never.
Definition encode_frames (fs : list frameIn) : bytes := concat (encode_frame <$> fs).

Lemma encode_frames_app a b : encode_frames (a ++ b) = encode_frames a ++ encode_frames b.
Proof. unfold encode_frames. by rewrite fmap_app, concat_app. Qed.

Lemma encode_frames_snoc a f : encode_frames (a ++ [f]) = encode_frames a ++ encode_frame f.
Proof. rewrite encode_frames_app. unfold encode_frames at 2. cbn. by rewrite app_nil_r. Qed.

Lemma frame_header_length port len ptype : length (frame_header port len ptype) = 8.
Proof. done. Qed.

Lemma encode_frame_length f : length (encode_frame f) = 8 + length f.(fi_data).
Proof. unfold encode_frame. by rewrite length_app, frame_header_length. Qed.

Lemma frame_header_fields port len ptype :
  let h := frame_header port len ptype in
  take 2 h = be_encode 2 Magic ∧ take 2 (drop 2 h) = be_encode 2 port
  ∧ take 2 (drop 4 h) = be_encode 2 len ∧ take 2 (drop 6 h) = be_encode 2 ptype.
Proof. done. Qed.

Lemma readFrame_encode f r : frame_ok f → readFrame (encode_frame f ++ r) = (Ok f, r).
Proof.
  intros (Hp & Ht & Hl). destruct f as [port ptype data]. cbn [fi_port fi_ptype fi_data] in *.
  unfold encode_frame, is_uint16 in *. cbn [fi_port fi_ptype fi_data].
  rewrite <-app_assoc. unfold readFrame. rewrite ReadFull_app by done.
  destruct (frame_header_fields port (Z.of_nat (length data)) ptype) as (-> & -> & -> & ->).
  rewrite !be_decode_encode_id by (unfold Magic, MaxFrameSize in *; cbn; lia).
  rewrite Z.eqb_refl. cbn [negb].
  rewrite (proj2 (Z.ltb_ge _ _)) by lia. case_match eqn:E.
  - by rewrite Nat2Z.id, ReadFull_app.
  - apply Z.ltb_ge in E. destruct data; [done|]. cbn in E. lia.
Qed.

Lemma be_encode_inj_take (l : bytes) n : length l = n → be_encode n (be_decode l) = l.
Proof. intros <-. apply be_encode_decode. Qed.

Lemma header_split (h : bytes) :
  length h = 8 →
  h = take 2 h ++ take 2 (drop 2 h) ++ take 2 (drop 4 h) ++ take 2 (drop 6 h).
Proof.
  intros Hl. do 8 (destruct h as [|? h]; [done|]). by destruct h.
Qed.

Lemma readFrame_ok r f r' : readFrame r = (Ok f, r') → r = encode_frame f ++ r' ∧ frame_ok f.
Proof.
  unfold readFrame, FrameHeaderSize.
  destruct (ReadFull 8 r) as [[h|e] r1] eqn:E1; [|done].
  apply ReadFull_ok in E1 as [-> Hl]. pose proof (header_split h Hl) as Hh.
  set (h0 := take 2 h) in *. set (h1 := take 2 (drop 2 h)) in *.
  set (h2 := take 2 (drop 4 h)) in *. set (h3 := take 2 (drop 6 h)) in *.
  assert (length h0 = 2 ∧ length h1 = 2 ∧ length h2 = 2 ∧ length h3 = 2) as (L0 & L1 & L2 & L3).
  { subst h0 h1 h2 h3. rewrite !length_take, !length_drop. lia. }
  pose proof (be_decode_bounds h1) as B1. pose proof (be_decode_bounds h2) as B2.
  pose proof (be_decode_bounds h3) as B3. rewrite L1 in B1. rewrite L2 in B2. rewrite L3 in B3.
  destruct (Z.eqb_spec (be_decode h0) Magic) as [Hm|]; cbn [negb]; [|done].
  case_match eqn:Emax; [done|].
  assert (∀ data : bytes, Z.of_nat (length data) = be_decode h2 →
    h = frame_header (be_decode h1) (Z.of_nat (length data)) (be_decode h3)) as Henc.
  { intros data ->. rewrite Hh. unfold frame_header. by rewrite <-Hm, !be_encode_inj_take. }
  destruct (Z.ltb_spec 0 (be_decode h2)).
  - destruct (ReadFull (Z.to_nat (be_decode h2)) r1) as [[d|e] r2] eqn:E2; [|done].
    apply ReadFull_ok in E2 as [-> Hd]. intros [= <- <-].
    split; [|unfold frame_ok, is_uint16; cbn in *; lia].
    unfold encode_frame. cbn [fi_port fi_ptype fi_data].
    rewrite <-Henc by lia. by rewrite app_assoc.
  - intros [= <- <-]. split; [|unfold frame_ok, is_uint16; cbn in *; lia].
    unfold encode_frame. cbn [fi_port fi_ptype fi_data]. rewrite <-Henc by (cbn; lia).
    by rewrite app_nil_r.
Qed.

Lemma readLoop_enough fuel r :
  length r < fuel → readLoop fuel r = readStream r.
Proof.
  unfold readStream. remember (length r) as n eqn:Hn.
  revert r Hn fuel. induction (lt_wf n) as [n _ IH]; intros r -> fuel Hf.
  destruct fuel as [|fuel]; [lia|]. cbn. destruct (readFrame r) as [[f|e] r'] eqn:E; [|done].
  apply readFrame_ok in E as [-> _]. rewrite length_app, encode_frame_length in *.
  rewrite (IH (length r') ltac:(lia) r' eq_refl fuel) by lia.
  by rewrite (IH (length r') ltac:(lia) r' eq_refl (8 + _ + _)) by lia.
Qed.

Lemma readStream_unfold r :
  readStream r = match readFrame r with
                 | (Err e, _) => ([], e)
                 | (Ok f, r') => (f :: fst (readStream r'), snd (readStream r'))
                 end.
Proof.
  unfold readStream at 1. cbn [readLoop]. destruct (readFrame r) as [[f|e] r'] eqn:E; [|done].
  apply readFrame_ok in E as [-> _].
  rewrite readLoop_enough by (rewrite length_app, encode_frame_length; lia).
  by destruct (readStream r').
Qed.

Lemma readStream_frames fs r :
  Forall frame_ok fs →
  readStream (encode_frames fs ++ r) = (fs ++ fst (readStream r), snd (readStream r)).
Proof.
  induction 1 as [|f fs Hf _ IH]; [apply surjective_pairing|].
  unfold encode_frames in *. cbn. rewrite <-app_assoc, readStream_unfold, readFrame_encode by done.
  by rewrite IH.
Qed.

Lemma readFrame_short f k :
  frame_ok f → k < length (encode_frame f) →
  ∃ e r', readFrame (take k (encode_frame f)) = (Err e, r').
Proof.
  intros Hf Hk. destruct (readFrame (take k (encode_frame f))) as [[g|e] r'] eqn:E; [|eauto].
  exfalso. apply readFrame_ok in E as [Heq Hg].
  pose proof (readFrame_encode f [] Hf) as Hfull.
  rewrite app_nil_r, <-(take_drop k (encode_frame f)), Heq, <-app_assoc in Hfull.
  rewrite readFrame_encode in Hfull by done. injection Hfull as _ Hnil.
  apply app_nil in Hnil as [_ Hnil]. apply (f_equal length) in Hnil.
  rewrite length_drop in Hnil. cbn in Hnil. lia.
Qed.

Lemma readStream_sound r :
  ∃ rest, Forall frame_ok (fst (readStream r)) ∧ r = encode_frames (fst (readStream r)) ++ rest
    ∧ fst (readFrame rest) = Err (snd (readStream r)).
Proof.
  remember (length r) as n eqn:Hn. revert r Hn.
  induction (lt_wf n) as [n _ IH]; intros r ->.
  rewrite readStream_unfold. destruct (readFrame r) as [[f|e] r'] eqn:E.
  - apply readFrame_ok in E as [-> Hf].
    destruct (IH (length r')) with (r := r') as (rest & Hfs & Hr & He); [|done|].
    { rewrite length_app, encode_frame_length. lia. }
    exists rest. cbn. split_and!; [by constructor| |done].
    rewrite Hr at 1. unfold encode_frames. cbn. by rewrite <-app_assoc.
  - exists r. cbn. by rewrite E.
Qed.

(** ** Lemmas on channels *)

Lemma lookup_on_channel c f m ch :
  m.(mx_heap) !! c = Some ch → (on_channel c f m).(mx_heap) !! c = Some (f ch).
Proof. intros H. cbn. by rewrite list_lookup_alter_eq, H. Qed.

Lemma lookup_on_channel_ne c c' f m :
  c ≠ c' → (on_channel c f m).(mx_heap) !! c' = m.(mx_heap) !! c'.
Proof. intros H. cbn. by rewrite list_lookup_alter_ne. Qed.

Lemma on_channel_compose c f g m :
  on_channel c f (on_channel c g m) = on_channel c (f ∘ g) m.
Proof. unfold on_channel, set_heap. cbn. f_equal. by rewrite list_alter_alter_eq. Qed.

(** A connection that takes everything. *)
Lemma conn_Write_all buf m :
  m.(mx_writes) = [] → conn_Write buf m = (None, set_conn m (m.(mx_conn) ++ buf) false []).
Proof. intros Hw. unfold conn_Write. rewrite Hw. by destruct buf. Qed.

Lemma send_window_room c n f m ch :
  m.(mx_heap) !! c = Some ch → m.(mx_closed) = false → ch.(ch_CloseChan) = false →
  (n <= ch.(ch_sendWindow))%Z → length ch.(ch_sendQueue) < sendQueueSize →
  send_window c n f m =
    [(Ok tt, notifyWrite (on_channel c (ch_set_queue (ch.(ch_sendQueue) ++ [f]) ∘ ch_add_window (- n)) m))].
Proof.
  intros Hc Hm Hcl Hn Hq. unfold send_window. rewrite Hc, (proj2 (Z.ltb_ge _ _)) by done.
  unfold enqueueFrame. rewrite (lookup_on_channel _ _ _ _ Hc). cbn [ch_sendQueue ch_add_window].
  rewrite decide_True by done. cbn [ch_CloseChan ch_add_window]. rewrite Hcl.
  replace (mx_closed _) with false by done. by rewrite on_channel_compose.
Qed.

Lemma send_window_waits c n f m ch :
  m.(mx_heap) !! c = Some ch → m.(mx_closed) = false → ch.(ch_CloseChan) = false →
  (ch.(ch_sendWindow) < n)%Z → send_window c n f m = [].
Proof.
  intros Hc Hm Hcl Hn. unfold send_window.
  by rewrite Hc, (proj2 (Z.ltb_lt _ _)), Hcl, Hm by done.
Qed.

(** ** Properties *)

(** The frames of a stream are read back as they were written, whatever
    follows them, and a frame cut short by the end of the stream is not
    delivered; conversely the frames read are exactly what the bytes encode,
    up to the first point where no frame can be read. *)
Theorem readStream_spec :
  (∀ fs r, Forall frame_ok fs →
     readStream (encode_frames fs ++ r) = (fs ++ fst (readStream r), snd (readStream r)))
  ∧ (∀ fs f k, Forall frame_ok fs → frame_ok f → k < length (encode_frame f) →
       ∃ e, readStream (encode_frames fs ++ take k (encode_frame f)) = (fs, e))
  ∧ (∀ r, ∃ rest, Forall frame_ok (fst (readStream r))
       ∧ r = encode_frames (fst (readStream r)) ++ rest
       ∧ fst (readFrame rest) = Err (snd (readStream r))).
Proof.
  split_and!; [apply readStream_frames| |apply readStream_sound].
  intros fs f k Hfs Hf Hk. destruct (readFrame_short f k Hf Hk) as (e & r' & He).
  exists e. by rewrite readStream_frames, readStream_unfold, He, app_nil_r by done.
Qed.

(** What becomes of a message by its size, on a channel with an empty
    queue of a connection that works: up to 65535 bytes it leaves as one DATA
    frame when the window has room for it; between that and the window
    [Send] accepts it, and the writing goroutine then closes the whole
    multiplexer without a byte written; above the window [Send] waits. *)
Theorem Send_by_size m port data c ch iter :
  m.(mx_closed) = false → m.(mx_ctrlChan) = [] → m.(mx_writes) = [] →
  m.(mx_channels) !! port = Some c → iter m.(mx_channels) = [c] →
  m.(mx_heap) !! c = Some ch → ch.(ch_CloseChan) = false → ch.(ch_sendQueue) = [] →
  (Z.of_nat (length data) < 2 ^ 31)%Z →
  let len := Z.of_nat (length data) in
  let after := notifyWrite (on_channel c
    (ch_set_queue [mkFrameOut port data (-1) 0 false] ∘ ch_add_window (- len)) m) in
  ((len <= ch.(ch_sendWindow))%Z → Send port data m = [(Ok tt, after)])
  ∧ ((ch.(ch_sendWindow) < len)%Z → Send port data m = [])
  ∧ ((len <= MaxFrameSize)%Z → ∃ m', writeLoop_round iter after = (m', Again)
       ∧ m'.(mx_conn) = m.(mx_conn) ++ encode_frame (mkFrameIn port PktData data)
       ∧ m'.(mx_closed) = false)
  ∧ ((MaxFrameSize < len)%Z → ∃ m', writeLoop_round iter after = (m', Stopped)
       ∧ m'.(mx_conn) = m.(mx_conn) ∧ m'.(mx_closed) = true).
Proof.
  intros Hm Hctl Hw Hp Hit Hc Hcl Hq Hlen len after.
  assert (int32_wrap len = len) as Hwrap by (apply int32_wrap_id; subst len; lia).
  assert (after.(mx_heap) !! c = Some (ch_set_queue [mkFrameOut port data (-1) 0 false]
    (ch_add_window (- len) ch))) as Hc'
    by (subst after; cbn [notifyWrite set_notify mx_heap]; by rewrite (lookup_on_channel _ _ _ _ Hc)).
  split_and!.
  - intros Hn. unfold Send. rewrite Hm, Hp. fold len. rewrite Hwrap.
    rewrite (send_window_room _ _ _ _ ch) by (try done; rewrite Hq; unfold sendQueueSize; cbn; lia). by rewrite Hq.
  - intros Hn. unfold Send. rewrite Hm, Hp. fold len. rewrite Hwrap.
    by rewrite (send_window_waits _ _ _ _ ch).
  - intros Hn. unfold writeLoop_round. replace (mx_closed after) with false by done.
    replace (mx_ctrlChan after) with (@nil ctrlFrame) by done.
    replace (iter (mx_channels after)) with [c] by done. cbn [writeLoop_data].
    rewrite Hc'. cbn [ch_sendQueue ch_set_queue].
    unfold write_out. cbn [fo_srcFd fo_port fo_data fo_ctrl Z.leb Z.compare].
    unfold writeFrame. fold len. rewrite (proj2 (Z.ltb_ge _ _)) by done.
    rewrite conn_Write_all by done. cbn [write_or_close]. eauto.
  - intros Hn. unfold writeLoop_round. replace (mx_closed after) with false by done.
    replace (mx_ctrlChan after) with (@nil ctrlFrame) by done.
    replace (iter (mx_channels after)) with [c] by done. cbn [writeLoop_data].
    rewrite Hc'. cbn [ch_sendQueue ch_set_queue].
    unfold write_out. cbn [fo_srcFd fo_port fo_data fo_ctrl Z.leb Z.compare].
    unfold writeFrame. fold len. rewrite (proj2 (Z.ltb_lt _ _)) by done.
    cbn [write_or_close]. eauto.
Qed.

Definition mux_80 : Multiplexer := snd (OpenChannel 80 0 (New false false [] [])).

Lemma Send_by_size_witness :
  let data := list_ascii_of_string "hello" in
  ∃ m1 m2, Send 80 data mux_80 = [(Ok tt, m1)]
    ∧ writeLoop_round (λ g, snd <$> map_to_list g) m1 = (m2, Again)
    ∧ m2.(mx_conn) = encode_frame (mkFrameIn 80 PktData data).
Proof.
  intros data.
  destruct (Send_by_size mux_80 80 data 0 (newChannel 80 0) (λ g, snd <$> map_to_list g))
    as (Hs & _ & Hw & _); [reflexivity..|].
  destruct (Hw ltac:(by apply Z.leb_le)) as (m2 & Hr & Hc & _).
  eexists _, m2. split_and!; [apply Hs; by apply Z.leb_le|exact Hr|exact Hc].
Defined.

Lemma readStream_spec_witness :
  let f := mkFrameIn 80 PktData (list_ascii_of_string "hello") in
  let g := mkFrameIn 81 PktClose [] in
  readStream (encode_frames [f; g]) = ([f; g], "read header error: EOF").
Proof.
  intros f g. destruct readStream_spec as [H _].
  rewrite <-(app_nil_r (encode_frames [f; g])).
  rewrite (H [f; g] []); [reflexivity|].
  apply (bool_decide_eq_true_1 _). reflexivity.
Defined.
