(* ===== verification/MuxWire.v ===== *)
(** * What a multiplexer puts on its connection (common/mux/mux.go)

    The operations of Mux.v interleaved in any order, each write of a data
    frame a step of its own, against a peer that may send any frame at any
    time.  [SpliceSend], which nothing in the program calls, is not among the
    steps.  The lemmas give the invariant of the states reached; the theorems
    say what the peer can read from the connection. *)

From S2P Require Import Prelude Proto Mux.

(** ** Steps *)

(** [LSend]: [Send] accepted a message; [LDown]: the channel of a port was
    taken down here. *)
Inductive label :=
| LSend (port : Z) (data : bytes)
| LDown (port : Z)
| LTau.

Definition sent_label (port : Z) (data : bytes) (r : Res unit) : label :=
  match r with Ok _ => LSend port data | Err _ => LTau end.
Definition down_label (ptype port : Z) : label :=
  if decide (ptype = PktClose) then LDown port else LTau.

(** One data frame of the channel at [c], as [writeLoop_data] writes it. *)
Definition write_one (c : nat) (m : Multiplexer) : Multiplexer :=
  match m.(mx_heap) !! c with
  | Some ch =>
      match ch.(ch_sendQueue) with
      | f :: q => fst (write_or_close (write_out f (on_channel c (ch_set_queue q) m)))
      | [] => m
      end
  | None => m
  end.

Inductive mux_step : Multiplexer → label → Multiplexer → Prop :=
| step_open m port now :
    is_uint16 port → mux_step m LTau (snd (OpenChannel port now m))
| step_enqueue m port ptype m' :
    is_uint16 port → ptype = PktOpen ∨ ptype = PktClose →
    m' ∈ enqueueCtrl port ptype m → mux_step m LTau m'
| step_send m port data r m' :
    (r, m') ∈ Send port data m → mux_step m (sent_label port data r) m'
| step_ctrl m cf rest :
    m.(mx_ctrlChan) = cf :: rest →
    mux_step m (down_label cf.(cf_ptype) cf.(cf_port)) (fst (writeLoop_ctrl cf (set_ctrl m rest)))
| step_idle m timer m' st :
    (m', st) ∈ writeLoop_idle timer m → mux_step m LTau m'
| step_data m port c :
    m.(mx_channels) !! port = Some c → mux_step m LTau (write_one c m)
| step_read m c plen now out m' :
    Read c plen now m = Some (out, m') → mux_step m LTau m'
| step_dispatch m now f m' :
    is_uint16 f.(fi_port) → m' ∈ dispatch now f m →
    mux_step m (down_label f.(fi_ptype) f.(fi_port)) m'
| step_exit m : mux_step m LTau (readLoop_exit m)
| step_close m : mux_step m LTau (Close m).

Inductive mux_run (m0 : Multiplexer) : list label → Multiplexer → Prop :=
| run_nil : mux_run m0 [] m0
| run_step tr m l m' : mux_run m0 tr m → mux_step m l m' → mux_run m0 (tr ++ [l]) m'.

(** ** What is on the wire and what waits *)

Definition accepted (port : Z) (tr : list label) : list bytes :=
  omap (λ l, match l with
             | LSend p d => if decide (p = port) then Some d else None
             | _ => None
             end) tr.

Definition payloads (port : Z) (fs : list frameIn) : list bytes :=
  fi_data <$> filter (λ f, f.(fi_port) = port ∧ f.(fi_ptype) = PktData) fs.

Definition queued (port : Z) (m : Multiplexer) : list bytes :=
  match m.(mx_channels) !! port ≫= λ c, m.(mx_heap) !! c with
  | Some ch => fo_data <$> ch.(ch_sendQueue)
  | None => []
  end.

Definition never_down (port : Z) (tr : list label) : Prop := LDown port ∉ tr.

(** Channels are where their port says, and queue frames of their own. *)
Definition queue_ok (ch : Channel) : Prop :=
  is_uint16 ch.(ch_Port)
  ∧ Forall (λ f, f.(fo_port) = ch.(ch_Port) ∧ (f.(fo_srcFd) < 0)%Z ∧ f.(fo_ctrl) = false) ch.(ch_sendQueue).

Record mux_ok (m : Multiplexer) : Prop := {
  ok_heap : Forall queue_ok m.(mx_heap);
  ok_map : ∀ p c, m.(mx_channels) !! p = Some c →
    ∃ ch, m.(mx_heap) !! c = Some ch ∧ ch.(ch_Port) = p;
  ok_ctrl : Forall (λ cf, is_uint16 cf.(cf_port) ∧ is_uint16 cf.(cf_ptype)
    ∧ cf.(cf_ptype) ≠ PktData) m.(mx_ctrlChan);
}.

Definition live (m : Multiplexer) : Prop := m.(mx_closed) = false ∧ m.(mx_broken) = false.

(** The wire holds whole frames; what was accepted for a port is on it or
    queued, in order, and nothing else is. *)
Definition wire_ok (tr : list label) (m : Multiplexer) : Prop :=
  ∃ fs, Forall frame_ok fs ∧ m.(mx_conn) = encode_frames fs
    ∧ ∀ p, payloads p fs ++ queued p m `sublist_of` accepted p tr
        ∧ (never_down p tr → payloads p fs ++ queued p m = accepted p tr).

Definition run_inv (tr : list label) (m : Multiplexer) : Prop :=
  mux_ok m ∧ (live m → wire_ok tr m).

(** ** Writing *)

(** The channels, the queue of control frames and the closed flag are those
    of [m]. *)
Definition same_chans (m m' : Multiplexer) : Prop :=
  m'.(mx_heap) = m.(mx_heap) ∧ m'.(mx_channels) = m.(mx_channels)
  ∧ m'.(mx_ctrlChan) = m.(mx_ctrlChan).

(** [m'] comes from [m] by putting whole frames on the wire, or is not live. *)
Definition wrote (fs : list frameIn) (m m' : Multiplexer) : Prop :=
  same_chans m m' ∧ m'.(mx_closed) = m.(mx_closed)
  ∧ (live m' → live m ∧ m'.(mx_conn) = m.(mx_conn) ++ encode_frames fs).

Lemma write_loop_none ws buf out ws' : write_loop ws buf = (out, None, ws') → out = buf.
Proof.
  revert buf out. induction ws as [|[k err] ws IH]; intros b out.
  { destruct b; cbn; by intros [= <- _]. }
  destruct b as [|x b]; cbn -[take drop]; [by intros [= <- _]|]. destruct err; [done|].
  destruct (write_loop ws (drop k (x :: b))) as [[o e] w] eqn:E. intros [= <- -> ->].
  rewrite (IH _ _ E). apply take_drop.
Qed.

Lemma conn_Write_wrote buf fs e m m' :
  buf = encode_frames fs → conn_Write buf m = (e, m') →
  wrote fs m m' ∧ (live m' → e = None).
Proof.
  intros -> Hw. unfold conn_Write in Hw.
  destruct (write_loop (mx_writes m) (encode_frames fs)) as [[out e'] ws] eqn:E.
  injection Hw as <- <-.
  assert (live (set_conn m (mx_conn m ++ out) (match e' with Some _ => true | None => false end) ws) →
    live m ∧ e' = None) as Hl.
  { unfold live. cbn. rewrite orb_false_iff. destruct e'; naive_solver. }
  split; [split_and!; [done..|]|naive_solver].
  intros H. apply Hl in H as [H ->]. split; [done|]. cbn. by rewrite (write_loop_none _ _ _ _ E).
Qed.

Lemma encode_frames_one f : encode_frames [f] = encode_frame f.
Proof. unfold encode_frames. cbn. apply app_nil_r. Qed.

Lemma ctrl_frame_bytes port ptype :
  frame_header port 0 ptype = encode_frames [mkFrameIn port ptype []].
Proof. by rewrite encode_frames_one. Qed.

Lemma writeFrame_wrote port data e m m' :
  writeFrame port data false m = (e, m') →
  (wrote [mkFrameIn port PktData data] m m' ∧ (live m' → e = None)
     ∧ (Z.of_nat (length data) <= MaxFrameSize)%Z) ∨ (is_Some e ∧ m' = m).
Proof.
  unfold writeFrame. destruct (Z.ltb_spec MaxFrameSize (Z.of_nat (length data))).
  { intros [= <- <-]. right. eauto. }
  intros Hw. left. apply (conn_Write_wrote _ [mkFrameIn port PktData data]) in Hw as [Hw He];
    [done|by rewrite encode_frames_one].
Qed.

(** ** The invariant through a step *)

Lemma mux_ok_same m m' : same_chans m m' → mux_ok m → mux_ok m'.
Proof. intros (Hh & Hc & Hk) [H1 H2 H3]. constructor; by rewrite ?Hh, ?Hc, ?Hk. Qed.

Lemma queued_same p m m' :
  m'.(mx_heap) = m.(mx_heap) → m'.(mx_channels) = m.(mx_channels) → queued p m' = queued p m.
Proof. intros Hh Hc. unfold queued. by rewrite Hh, Hc. Qed.

Lemma accepted_app p tr l : accepted p (tr ++ l) = accepted p tr ++ accepted p l.
Proof. unfold accepted. by rewrite omap_app. Qed.

Lemma payloads_app p a b : payloads p (a ++ b) = payloads p a ++ payloads p b.
Proof. unfold payloads. by rewrite filter_app, fmap_app. Qed.

Lemma never_down_app p tr l : never_down p (tr ++ [l]) ↔ never_down p tr ∧ l ≠ LDown p.
Proof. unfold never_down. rewrite not_elem_of_app, list_elem_of_singleton. naive_solver. Qed.

Lemma wire_step tr l m m' fs :
  wire_ok tr m → m'.(mx_conn) = m.(mx_conn) ++ encode_frames fs → Forall frame_ok fs →
  (∀ p, payloads p fs ++ queued p m' `sublist_of` queued p m ++ accepted p [l]) →
  (∀ p, l ≠ LDown p → payloads p fs ++ queued p m' = queued p m ++ accepted p [l]) →
  wire_ok (tr ++ [l]) m'.
Proof.
  intros (gs & Hgs & Hconn & Hq) Hc Hfs Hsub Heq. exists (gs ++ fs). split_and!.
  - by apply Forall_app.
  - by rewrite Hc, Hconn, encode_frames_app.
  - intros p. destruct (Hq p) as [Hs He].
    rewrite accepted_app, payloads_app, <-app_assoc, never_down_app. split.
    + transitivity (payloads p gs ++ queued p m ++ accepted p [l]).
      * by apply sublist_app.
      * rewrite app_assoc. by apply sublist_app.
    + intros [Hn Hl]. by rewrite Heq, app_assoc, He by done.
Qed.

(** A step that leaves the wire and the queues as they are. *)
Lemma wire_quiet tr m m' :
  wire_ok tr m → m'.(mx_conn) = m.(mx_conn) → (∀ p, queued p m' = queued p m) →
  wire_ok (tr ++ [LTau]) m'.
Proof.
  intros Hw Hc Hq. apply (wire_step tr LTau m m' []); try done.
  - unfold encode_frames. cbn. by rewrite app_nil_r.
  - intros p. by rewrite Hq, app_nil_r.
  - intros p _. by rewrite Hq, app_nil_r.
Qed.

(** A frame that is not DATA goes out. *)
Lemma wire_control tr m m' f :
  wire_ok tr m → m'.(mx_conn) = m.(mx_conn) ++ encode_frames [f] → frame_ok f →
  f.(fi_ptype) ≠ PktData → (∀ p, queued p m' = queued p m) → wire_ok (tr ++ [LTau]) m'.
Proof.
  intros Hw Hc Hf Ht Hq.
  assert (∀ p, payloads p [f] = []) as Hp.
  { intros p. unfold payloads. by rewrite filter_cons_False by naive_solver. }
  apply (wire_step tr LTau m m' [f]); [done|done|by constructor|..];
    intros p; by rewrite Hp, Hq, app_nil_r.
Qed.

Lemma on_channel_ok c f m :
  (∀ ch, queue_ok ch → queue_ok (f ch) ∧ (f ch).(ch_Port) = ch.(ch_Port)) →
  mux_ok m → mux_ok (on_channel c f m).
Proof.
  intros Hf [H1 H2 H3]. constructor; [|intros p c' Hp|done]; cbn in *.
  - apply Forall_lookup_2. intros i ch. destruct (decide (i = c)) as [->|].
    + rewrite list_lookup_alter_eq. intros (ch0 & Hch & ->)%fmap_Some_1.
      eapply Hf. by eapply Forall_lookup_1.
    + rewrite list_lookup_alter_ne by done. by apply Forall_lookup_1.
  - destruct (H2 p c' Hp) as (ch & Hc & Hport). destruct (decide (c = c')) as [->|].
    + exists (f ch). rewrite list_lookup_alter_eq, Hc. split; [done|].
      rewrite (proj2 (Hf ch (Forall_lookup_1 _ _ _ _ H1 Hc))). done.
    + exists ch. by rewrite list_lookup_alter_ne.
Qed.

(** [f] keeps the queue. *)
Lemma queued_on_channel_same p c f m :
  (∀ ch, (f ch).(ch_sendQueue) = ch.(ch_sendQueue)) →
  queued p (on_channel c f m) = queued p m.
Proof.
  intros Hf. unfold queued. cbn. destruct (mx_channels m !! p) as [c'|]; cbn; [|done].
  destruct (decide (c = c')) as [->|].
  - rewrite list_lookup_alter_eq. destruct (mx_heap m !! c') as [ch|]; cbn; [|done]. by rewrite Hf.
  - by rewrite list_lookup_alter_ne.
Qed.

Lemma queued_on_channel p c f m ch :
  m.(mx_heap) !! c = Some ch → m.(mx_channels) !! p = Some c →
  queued p (on_channel c f m) = fo_data <$> (f ch).(ch_sendQueue).
Proof.
  intros Hc Hp. unfold queued. cbn. rewrite Hp. cbn. by rewrite list_lookup_alter_eq, Hc.
Qed.

Lemma queued_on_channel_other p p' c f m :
  mux_ok m → m.(mx_channels) !! p = Some c → p ≠ p' →
  queued p' (on_channel c f m) = queued p' m.
Proof.
  intros Hok Hp Hne. unfold queued. cbn.
  destruct (mx_channels m !! p') as [c'|] eqn:Hp'; cbn; [|done].
  rewrite list_lookup_alter_ne; [done|]. intros ->.
  destruct (ok_map _ Hok _ _ Hp) as (ch & Hch & Hport).
  destruct (ok_map _ Hok _ _ Hp') as (ch' & Hch' & Hport'). naive_solver.
Qed.

Definition add_channel (port now : Z) (m : Multiplexer) : Multiplexer :=
  set_channels (set_heap m (m.(mx_heap) ++ [newChannel port now]))
    (<[port := length m.(mx_heap)]> m.(mx_channels)).

Lemma add_channel_ok port now m :
  is_uint16 port → mux_ok m → mux_ok (add_channel port now m).
Proof.
  intros Hport [H1 H2 H3]. constructor; [|intros p c|done]; cbn.
  - apply Forall_app. split; [done|]. by repeat constructor; destruct Hport.
  - rewrite lookup_insert_Some. intros [[<- <-]|[_ Hp]].
    + exists (newChannel port now). by rewrite list_lookup_middle.
    + destruct (H2 p c Hp) as (ch & Hc & ?). exists ch. by rewrite (lookup_app_l_Some _ _ _ _ Hc).
Qed.

Lemma add_channel_queued port now m p :
  mux_ok m → m.(mx_channels) !! port = None → queued p (add_channel port now m) = queued p m.
Proof.
  intros Hok Hport. unfold queued. cbn. destruct (decide (p = port)) as [->|Hne].
  - by rewrite lookup_insert_eq, Hport; cbn; rewrite list_lookup_middle.
  - rewrite lookup_insert_ne by done. destruct (mx_channels m !! p) as [c|] eqn:Hp; cbn; [|done].
    destruct (ok_map _ Hok _ _ Hp) as (ch & Hc & _). by rewrite (lookup_app_l_Some _ _ _ _ Hc), Hc.
Qed.

(** The shape of most steps: the channels stay well formed, and a live result
    comes from a live state with the same wire and the same queues. *)
Definition quiet (m m' : Multiplexer) : Prop :=
  (mux_ok m → mux_ok m' ∧ ∀ p, queued p m' = queued p m)
  ∧ m'.(mx_conn) = m.(mx_conn) ∧ (live m' → live m).

Lemma quiet_inv tr m m' : run_inv tr m → quiet m m' → run_inv (tr ++ [LTau]) m'.
Proof.
  intros [Hok Hw] (Hq & Hc & Hl). destruct (Hq Hok) as [Hok' Hq'].
  split; [done|]. intros H. by apply (wire_quiet _ m); auto.
Qed.

Lemma quiet_refl m : quiet m m.
Proof. by split_and!. Qed.

#[export] Hint Resolve quiet_refl quiet_inv : mux.

Lemma quiet_trans a b c : quiet a b → quiet b c → quiet a c.
Proof.
  intros (H1 & H2 & H3) (H4 & H5 & H6). split_and!; [|congruence|auto].
  intros Ha. destruct (H1 Ha) as [Hb Hq]. destruct (H4 Hb) as [Hc Hq'].
  split; [done|]. intros p. by rewrite Hq', Hq.
Qed.

Lemma quiet_same m m' :
  same_chans m m' → m'.(mx_conn) = m.(mx_conn) → (live m' → live m) → quiet m m'.
Proof.
  intros Hs Hc Hl. split_and!; [|done..]. intros Hok. split; [by eapply mux_ok_same|].
  intros p. destruct Hs as (? & ? & _). by apply queued_same.
Qed.

Lemma quiet_on_channel c f m :
  (∀ ch, (f ch).(ch_sendQueue) = ch.(ch_sendQueue) ∧ (f ch).(ch_Port) = ch.(ch_Port)) →
  quiet m (on_channel c f m).
Proof.
  intros Hf. split_and!; [|done..]. intros Hok. split.
  - apply on_channel_ok; [|done]. intros ch Hch. unfold queue_ok.
    by destruct (Hf ch) as [-> ->].
  - intros p. apply queued_on_channel_same. intros ch. apply Hf.
Qed.

Lemma quiet_add_channel port now m :
  is_uint16 port → m.(mx_channels) !! port = None → quiet m (add_channel port now m).
Proof.
  intros Hport Hn. split_and!; [|done..]. intros Hok.
  split; [by apply add_channel_ok|]. intros p. by apply add_channel_queued.
Qed.

Lemma OpenChannel_quiet port now m : is_uint16 port → quiet m (snd (OpenChannel port now m)).
Proof.
  intros Hport. unfold OpenChannel. destruct (mx_closed m); [apply quiet_refl|].
  destruct (mx_channels m !! port) eqn:E; [apply quiet_refl|]. by apply quiet_add_channel.
Qed.

Lemma enqueueCtrl_quiet port ptype m m' :
  is_uint16 port → ptype = PktOpen ∨ ptype = PktClose →
  m' ∈ enqueueCtrl port ptype m → quiet m m'.
Proof.
  intros Hport Ht. unfold enqueueCtrl. destruct (mx_closed m).
  { intros ->%list_elem_of_singleton. apply quiet_refl. }
  case_decide; [|by intros []%not_elem_of_nil].
  intros ->%list_elem_of_singleton. split_and!; [|done..]. intros [H1 H2 H3]. split; [|done].
  constructor; [done..|]. cbn. apply Forall_app. split; [done|]. constructor; [|done].
  cbn. destruct Ht as [-> | ->]; by split_and!.
Qed.

Lemma put_data_quiet c data m m' : m' ∈ put_data c data m → quiet m m'.
Proof.
  unfold put_data. destruct (mx_heap m !! c) as [ch|]; [|by intros []%not_elem_of_nil].
  case_decide; [|by intros []%not_elem_of_nil]. intros ->%list_elem_of_singleton.
  by apply quiet_on_channel.
Qed.

Lemma dispatchData_quiet port now data m m' :
  is_uint16 port → m' ∈ dispatchData port now data m → quiet m m'.
Proof.
  intros Hport. unfold dispatchData. destruct (mx_channels m !! port) as [c|] eqn:E.
  - rewrite elem_of_app. intros [Hin|Hin]; [by eapply put_data_quiet|].
    destruct (mx_closed m); [|by apply not_elem_of_nil in Hin].
    apply list_elem_of_singleton in Hin as ->. apply quiet_refl.
  - destruct (mx_OnNewChannel m); cbn [negb];
      [|intros ->%list_elem_of_singleton; apply quiet_refl].
    fold (add_channel port now m). set (m2 := set_started _ _).
    assert (quiet m m2) as Hq.
    { eapply quiet_trans; [by apply (quiet_add_channel port now)|]. by apply quiet_same. }
    rewrite elem_of_app. intros [Hin|Hin]; [eapply quiet_trans; [done|by eapply put_data_quiet]|].
    destruct (mx_closed m2); [|by apply not_elem_of_nil in Hin].
    by apply list_elem_of_singleton in Hin as ->.
Qed.

Lemma handleWindowUpdate_quiet port data m : quiet m (handleWindowUpdate port data m).
Proof.
  unfold handleWindowUpdate. case_decide; [apply quiet_refl|].
  destruct (mx_channels m !! port); [by apply quiet_on_channel|apply quiet_refl].
Qed.

(** ** Taking a channel down *)

Lemma closeChannelLocal_chans port m p c :
  (closeChannelLocal port m).(mx_channels) !! p = Some c →
  p ≠ port ∧ m.(mx_channels) !! p = Some c.
Proof.
  unfold closeChannelLocal. destruct (mx_channels m !! port) as [c0|] eqn:E; cbn.
  - rewrite lookup_delete_Some. naive_solver.
  - intros Hp. split; [|done]. intros ->. by rewrite E in Hp.
Qed.

Lemma closeChannelLocal_ok port m : mux_ok m → mux_ok (closeChannelLocal port m).
Proof.
  intros Hok. unfold closeChannelLocal. destruct (mx_channels m !! port) as [c|] eqn:E; [|done].
  apply on_channel_ok.
  - intros ch [Hp Hf]. case_match; [done|]. by split_and!.
  - destruct Hok as [H1 H2 H3]. constructor; [done| |done].
    intros p c'. cbn. rewrite lookup_delete_Some. intros [_ Hp]. by apply H2.
Qed.

Lemma closeChannelLocal_queued port m p :
  mux_ok m → queued p (closeChannelLocal port m) = if decide (p = port) then [] else queued p m.
Proof.
  intros Hok. case_decide as Hp.
  - subst p. unfold queued.
    destruct (mx_channels (closeChannelLocal port m) !! port) as [c|] eqn:E; [|done].
    by apply closeChannelLocal_chans in E as [].
  - unfold closeChannelLocal. destruct (mx_channels m !! port) as [c|] eqn:E; [|done].
    set (f := λ ch, _). transitivity (queued p (on_channel c f m)).
    + unfold queued. cbn. by rewrite lookup_delete_ne.
    + by apply (queued_on_channel_other port).
Qed.

Lemma closeChannelLocal_frame port m :
  (closeChannelLocal port m).(mx_conn) = m.(mx_conn)
  ∧ (closeChannelLocal port m).(mx_closed) = m.(mx_closed)
  ∧ (closeChannelLocal port m).(mx_broken) = m.(mx_broken).
Proof. unfold closeChannelLocal. by destruct (mx_channels m !! port). Qed.

(** The channel of a port is taken down, after a frame that is not DATA. *)
Lemma down_inv tr m port fs m1 :
  mux_ok m1 → (live m1 → wire_ok tr m ∧ m1.(mx_conn) = m.(mx_conn) ++ encode_frames fs) →
  Forall frame_ok fs → (∀ p, payloads p fs = []) → (∀ p, queued p m1 = queued p m) →
  run_inv (tr ++ [LDown port]) (closeChannelLocal port m1).
Proof.
  intros Hok Hw Hfs Hp Hq. destruct (closeChannelLocal_frame port m1) as (Hc & Hcl & Hbr).
  split; [by apply closeChannelLocal_ok|]. intros Hl.
  destruct Hw as [Hw Hconn]; [by unfold live in *; rewrite <-Hcl, <-Hbr|].
  apply (wire_step tr _ m _ fs); [done|congruence|done|..]; intros p; rewrite Hp, app_nil_r;
    rewrite closeChannelLocal_queued by done; cbn.
  - case_decide; [apply sublist_nil_l|]. by rewrite Hq.
  - intros Hne. rewrite decide_False by congruence. apply Hq.
Qed.

(** ** The remaining steps *)

(** Queueing a frame of the port itself. *)
Lemma enqueue_ok c f g m port ch :
  mux_ok m → m.(mx_channels) !! port = Some c → m.(mx_heap) !! c = Some ch →
  f.(fo_port) = port → (f.(fo_srcFd) < 0)%Z → f.(fo_ctrl) = false →
  (∀ x, (g x).(ch_sendQueue) = x.(ch_sendQueue) ∧ (g x).(ch_Port) = x.(ch_Port)) →
  let m' := on_channel c (ch_set_queue (ch.(ch_sendQueue) ++ [f]) ∘ g) m in
  mux_ok m' ∧ ∀ p, queued p m' = queued p m ++ (if decide (p = port) then [f.(fo_data)] else []).
Proof.
  intros Hok Hp Hc Hfp Hfd Hfc Hg m'.
  destruct (ok_map _ Hok _ _ Hp) as (ch' & Hch & Hport). simplify_eq.
  pose proof (Forall_lookup_1 _ _ _ _ (ok_heap _ Hok) Hc) as [Hu Hq]. split.
  - assert (m' = on_channel c (λ _, ch_set_queue (ch_sendQueue ch ++ [f]) (g ch)) m) as ->.
    { subst m'. unfold on_channel, set_heap. f_equal. apply list_eq. intros i.
      destruct (decide (i = c)) as [->|]; [by rewrite !list_lookup_alter_eq, Hc|].
      by rewrite !list_lookup_alter_ne. }
    destruct Hok as [H1 H2 H3]. constructor; [|intros p c' Hp'|done]; cbn.
    + apply Forall_lookup_2. intros i x. destruct (decide (i = c)) as [->|].
      * rewrite list_lookup_alter_eq, Hc. intros [= <-]. destruct (Hg ch) as [_ Hgp].
        split; cbn; rewrite Hgp; [done|]. apply Forall_app. split; [done|]. by repeat constructor.
      * rewrite list_lookup_alter_ne by done. by apply Forall_lookup_1.
    + destruct (H2 p c' Hp') as (x & Hx & Hxp). destruct (decide (c' = c)) as [->|].
      * rewrite list_lookup_alter_eq, Hx. eexists. split; [done|]. cbn.
        destruct (Hg ch) as [_ ->]. naive_solver.
      * exists x. by rewrite list_lookup_alter_ne.
  - intros p. subst m'. case_decide as Hpp.
    + rewrite Hpp. rewrite (queued_on_channel _ _ _ _ _ Hc Hp). cbn. rewrite fmap_app. f_equal.
      unfold queued. by rewrite Hp; cbn; rewrite Hc.
    + rewrite app_nil_r. eapply queued_on_channel_other; [done|exact Hp|congruence].
Qed.

Lemma Send_inv tr port data m r m' :
  run_inv tr m → (r, m') ∈ Send port data m → run_inv (tr ++ [sent_label port data r]) m'.
Proof.
  intros Hinv. unfold Send. destruct (mx_closed m) eqn:Hcl.
  { intros [= -> ->]%list_elem_of_singleton. eauto with mux. }
  destruct (mx_channels m !! port) as [c|] eqn:Hp;
    [|intros [= -> ->]%list_elem_of_singleton; eauto with mux].
  unfold send_window. destruct (mx_heap m !! c) as [ch|] eqn:Hc; [|by intros []%not_elem_of_nil].
  set (n := int32_wrap _). set (f := mkFrameOut _ _ _ _ _).
  case_match.
  { rewrite Hcl, app_nil_r. destruct (ch_CloseChan ch); [|by intros []%not_elem_of_nil].
    intros [= -> ->]%list_elem_of_singleton. eauto with mux. }
  assert (quiet m (on_channel c (ch_add_window (- n)) m)) as Hw by by apply quiet_on_channel.
  unfold enqueueFrame. rewrite (lookup_on_channel _ _ _ _ Hc).
  replace (mx_closed (on_channel c (ch_add_window (- n)) m)) with false by done.
  rewrite app_nil_r, elem_of_app. intros [Hin|Hin].
  - case_decide; [|by apply not_elem_of_nil in Hin].
    apply list_elem_of_singleton in Hin as [= -> ->]. rewrite on_channel_compose.
    destruct Hinv as [Hok Hwire].
    destruct (enqueue_ok c f (ch_add_window (- n)) m port ch Hok Hp Hc) as [Hok' Hq']; [done..|].
    split; [by eapply mux_ok_same, Hok'|]. intros Hl. apply (wire_step tr _ m _ []); [by apply Hwire|..]; try done.
    + cbn. unfold encode_frames. cbn. by rewrite app_nil_r.
    + intros p. etransitivity; [apply reflexive_eq, (Hq' p)|]. cbn. by repeat case_decide.
    + intros p _. etransitivity; [apply (Hq' p)|]. cbn. by repeat case_decide.
  - destruct (ch_CloseChan _); [|by apply not_elem_of_nil in Hin].
    apply list_elem_of_singleton in Hin as [= -> ->]. by eapply quiet_inv.
Qed.

Lemma closed_inv tr m : mux_ok m → m.(mx_closed) = true → run_inv tr m.
Proof. intros Hok Hc. split; [done|]. intros [Hl _]. congruence. Qed.

Lemma set_ctrl_ok m rest cf :
  m.(mx_ctrlChan) = cf :: rest → mux_ok m →
  mux_ok (set_ctrl m rest) ∧ is_uint16 cf.(cf_port) ∧ is_uint16 cf.(cf_ptype) ∧ cf.(cf_ptype) ≠ PktData.
Proof.
  intros Hm [H1 H2 Hctl]. rewrite Hm in Hctl. apply Forall_cons in Hctl as [(? & ? & ?) ?].
  split; [by constructor|done].
Qed.

(** A control frame goes out. *)
Lemma writeCtrl_cases port ptype m :
  is_uint16 port → is_uint16 ptype → mux_ok m →
  ∃ m1, (write_or_close (writeCtrl port ptype m) = (Close m1, Stopped)
         ∨ write_or_close (writeCtrl port ptype m) = (m1, Again)
           ∧ (live m1 → live m ∧ m1.(mx_conn) = m.(mx_conn) ++ encode_frames [mkFrameIn port ptype []]))
        ∧ same_chans m m1.
Proof.
  intros Hp Ht Hok. unfold writeCtrl. destruct (mx_closed m) eqn:Hcl.
  { exists m. split; [by left|done]. }
  destruct (conn_Write (frame_header port 0 ptype) m) as [e m1] eqn:E.
  apply (conn_Write_wrote _ [mkFrameIn port ptype []]) in E as [(Hs & _ & Hl) He];
    [|apply ctrl_frame_bytes].
  exists m1. split; [|done]. destruct e as [e|]; [by left|right]. by split.
Qed.

Lemma ctrl_inv tr m cf rest :
  run_inv tr m → m.(mx_ctrlChan) = cf :: rest →
  run_inv (tr ++ [down_label cf.(cf_ptype) cf.(cf_port)]) (fst (writeLoop_ctrl cf (set_ctrl m rest))).
Proof.
  intros [Hok Hw] Hm. destruct (set_ctrl_ok _ _ _ Hm Hok) as (Hok' & Hp & Ht & Hne).
  unfold writeLoop_ctrl. destruct (writeCtrl_cases _ _ _ Hp Ht Hok') as (m1 & Hcase & Hs).
  assert (mux_ok m1) as Hok1 by by eapply mux_ok_same.
  assert (∀ p, queued p m1 = queued p m) as Hq.
  { intros p. destruct Hs as (Hh & Hc & _). by apply queued_same. }
  destruct Hcase as [-> | [-> Hl]]; [by apply closed_inv; [eapply mux_ok_same, Hok1|]|]. cbn [fst].
  unfold down_label. case_decide as Hd.
  - eapply (down_inv tr m _ [mkFrameIn (cf_port cf) (cf_ptype cf) []]); [done| | | |done].
    + intros H. destruct (Hl H) as [Hlm Hc]. by split; [apply Hw|].
    + by repeat constructor; destruct Hp, Ht.
    + intros p. unfold payloads. rewrite filter_cons_False; [done|]. cbn. naive_solver.
  - split; [done|]. intros H. destruct (Hl H) as [Hlm Hc].
    eapply (wire_control tr m m1 (mkFrameIn (cf_port cf) (cf_ptype cf) [])); [by apply Hw|done| |done|done].
    by repeat constructor; destruct Hp, Ht.
Qed.

Lemma idle_inv tr timer m m' st :
  run_inv tr m → (m', st) ∈ writeLoop_idle timer m → run_inv (tr ++ [LTau]) m'.
Proof.
  intros Hinv. unfold writeLoop_idle. rewrite !elem_of_app. intros [Hin|[Hin|[Hin|Hin]]].
  - destruct (mx_writeNotify m); [|by apply not_elem_of_nil in Hin].
    apply list_elem_of_singleton in Hin as [= -> _]. eapply quiet_inv; [done|by apply quiet_same].
  - destruct (mx_ctrlChan m) as [|cf rest] eqn:Hm; [by apply not_elem_of_nil in Hin|].
    apply list_elem_of_singleton in Hin. destruct Hinv as [Hok Hw].
    destruct (set_ctrl_ok _ _ _ Hm Hok) as (Hok' & Hp & Ht & Hne).
    destruct (writeCtrl_cases _ _ _ Hp Ht Hok') as (m1 & Hcase & Hs).
    assert (mux_ok m1) as Hok1 by by eapply mux_ok_same.
    destruct Hcase as [Hc | [Hc Hl]]; rewrite Hc in Hin; injection Hin as -> _;
      [by apply closed_inv; [eapply mux_ok_same, Hok1|]|].
    split; [done|]. intros H. destruct (Hl H) as [Hlm Hconn].
    eapply (wire_control tr m m1 (mkFrameIn (cf_port cf) (cf_ptype cf) [])); [by apply Hw|done| |done|].
    { by repeat constructor; destruct Hp, Ht. }
    intros p. destruct Hs as (Hh & Hc' & _). by apply queued_same.
  - destruct (mx_closed m); [|by apply not_elem_of_nil in Hin].
    apply list_elem_of_singleton in Hin as [= -> _]. eauto with mux.
  - destruct timer; [|by apply not_elem_of_nil in Hin].
    apply list_elem_of_singleton in Hin as [= -> _]. eauto with mux.
Qed.

(** The queue of a port without its first frame. *)
Lemma pop_ok c m port ch f q :
  mux_ok m → m.(mx_channels) !! port = Some c → m.(mx_heap) !! c = Some ch →
  ch.(ch_sendQueue) = f :: q →
  let m' := on_channel c (ch_set_queue q) m in
  mux_ok m' ∧ f.(fo_port) = port ∧ is_uint16 port ∧ (f.(fo_srcFd) < 0)%Z ∧ f.(fo_ctrl) = false
  ∧ ∀ p, (if decide (p = port) then [f.(fo_data)] else []) ++ queued p m' = queued p m.
Proof.
  intros Hok Hp Hc Hq m'. destruct (ok_map _ Hok _ _ Hp) as (ch' & Hch & Hport). simplify_eq.
  pose proof (Forall_lookup_1 _ _ _ _ (ok_heap _ Hok) Hc) as [Hu Hf].
  rewrite Hq in Hf. apply Forall_cons in Hf as [(Hfp & Hfd & Hfc) Hf].
  split_and!; [|done..|].
  - assert (m' = on_channel c (λ x, if decide (ch_sendQueue x = f :: q) then ch_set_queue q x else x) m)
      as ->.
    { subst m'. unfold on_channel, set_heap. f_equal. apply list_eq. intros i.
      destruct (decide (i = c)) as [->|]; [|by rewrite !list_lookup_alter_ne].
      rewrite !list_lookup_alter_eq, Hc. cbn. by rewrite Hq, decide_True. }
    apply on_channel_ok; [|done]. intros x [Hxu Hxf]. case_decide as Hd; [|done].
    rewrite Hd in Hxf. apply Forall_cons in Hxf as [_ Hxf]. done.
  - intros p. subst m'. case_decide as Hpp.
    + rewrite Hpp, (queued_on_channel _ _ _ _ _ Hc Hp). unfold queued.
      rewrite Hp. cbn. by rewrite Hc, Hq.
    + by eapply queued_on_channel_other; [|exact Hp|].
Qed.

Lemma data_inv tr m port c :
  run_inv tr m → m.(mx_channels) !! port = Some c → run_inv (tr ++ [LTau]) (write_one c m).
Proof.
  intros Hinv Hp. unfold write_one. destruct (mx_heap m !! c) as [ch|] eqn:Hc;
    [|eauto with mux].
  destruct (ch_sendQueue ch) as [|f q] eqn:Hq; [eauto with mux|].
  destruct Hinv as [Hok Hw].
  destruct (pop_ok c m port ch f q Hok Hp Hc Hq) as (Hok' & Hfp & Hu & Hfd & Hfc & Hqs).
  set (m1 := on_channel c _ m) in *. unfold write_out.
  rewrite (proj2 (Z.leb_gt _ _)) by done. rewrite Hfc, Hfp.
  destruct (writeFrame port (fo_data f) false m1) as [e m2] eqn:E.
  apply writeFrame_wrote in E as [((Hs & _ & Hl) & He & Hlen)|[[x ->] ->]].
  2: { apply closed_inv; [|done]. by eapply mux_ok_same, Hok'. }
  assert (mux_ok m2) as Hok2 by by eapply mux_ok_same.
  destruct e as [e|]; [apply closed_inv; [|done]; by eapply mux_ok_same, Hok2|].
  split; [done|]. intros H. destruct (Hl H) as [Hlm Hconn].
  assert (∀ p, payloads p [mkFrameIn port PktData (fo_data f)]
               ++ queued p m2 = queued p m) as Hall.
  { intros p. rewrite <-Hqs. destruct Hs as (Hh & Hch & _). rewrite (queued_same _ _ _ Hh Hch).
    f_equal. unfold payloads. case_decide as Hpp.
    - by rewrite filter_cons_True.
    - rewrite filter_cons_False; [done|]. cbn. naive_solver. }
  apply (wire_step tr _ m m2 [mkFrameIn port PktData (fo_data f)]); [by apply Hw|done| |..].
  - by repeat constructor; destruct Hu.
  - intros p. rewrite Hall. cbn. by rewrite app_nil_r.
  - intros p _. rewrite Hall. cbn. by rewrite app_nil_r.
Qed.

Lemma accumulate_fields now n ch :
  (fst (accumulate now n ch)).(ch_sendQueue) = ch.(ch_sendQueue)
  ∧ (fst (accumulate now n ch)).(ch_Port) = ch.(ch_Port).
Proof. unfold accumulate. by case_match. Qed.

Lemma quiet_set_channel c ch ch' m :
  m.(mx_heap) !! c = Some ch → ch'.(ch_sendQueue) = ch.(ch_sendQueue) → ch'.(ch_Port) = ch.(ch_Port) →
  quiet m (on_channel c (λ _, ch') m).
Proof.
  intros Hc Hq Hp.
  assert (on_channel c (λ _, ch') m = on_channel c (λ x, if decide (x = ch) then ch' else x) m) as ->.
  { unfold on_channel, set_heap. f_equal. apply list_eq. intros i.
    destruct (decide (i = c)) as [->|]; [|by rewrite !list_lookup_alter_ne].
    rewrite !list_lookup_alter_eq, Hc. cbn. by rewrite decide_True. }
  apply quiet_on_channel. intros x. case_decide; by subst.
Qed.

Lemma SendWindowUpdate_inv tr port now n m :
  run_inv tr m → is_uint16 port →
  run_inv (tr ++ [LTau]) (snd (SendWindowUpdate port now n m)).
Proof.
  intros Hinv Hport. unfold SendWindowUpdate.
  destruct (mx_closed m) eqn:Hcl; [eauto with mux|].
  destruct (mx_channels m !! port) as [c|]; [|eauto with mux].
  destruct (mx_heap m !! c) as [ch|] eqn:Hc; [|eauto with mux].
  pose proof (accumulate_fields now n ch) as [Hq Hp].
  destruct (accumulate now n ch) as [ch' credit] eqn:E. cbn [fst] in Hq, Hp.
  pose proof (quiet_set_channel c ch ch' m Hc Hq Hp) as Hquiet.
  destruct credit as [p|]; [|by eapply quiet_inv].
  set (m1 := on_channel c _ m) in *. unfold writeWindowUpdate.
  destruct (conn_Write (frame_header port 4 PktWindowUpdate ++ take 4 (be_encode 4 p)) m1)
    as [e m2] eqn:Ew.
  apply (conn_Write_wrote _ [mkFrameIn port PktWindowUpdate (be_encode 4 p)])
    in Ew as [(Hs & _ & Hl) He]; [|by rewrite encode_frames_one].
  destruct Hinv as [Hok Hw]. destruct Hquiet as (Hq1 & Hconn1 & Hl1).
  destruct (Hq1 Hok) as [Hok1 Hqs]. split; [by eapply mux_ok_same|].
  intros H. destruct (Hl H) as [Hlm Hconn].
  apply (wire_control tr m m2 (mkFrameIn port PktWindowUpdate (be_encode 4 p)));
     [by apply Hw, Hl1|by rewrite Hconn, Hconn1| |done|].
  - by repeat constructor; destruct Hport.
  - intros p'. rewrite <-Hqs. destruct Hs as (Hh & Hch & _). by apply queued_same.
Qed.

Lemma ch_Read_fields plen ch out ch' credit :
  ch_Read plen ch = Some (out, ch', credit) →
  ch'.(ch_sendQueue) = ch.(ch_sendQueue) ∧ ch'.(ch_Port) = ch.(ch_Port).
Proof.
  unfold ch_Read, ReceiveBlocking. repeat case_match; intros ?; by simplify_eq/=.
Qed.

Lemma Read_inv tr c plen now m out m' :
  run_inv tr m → Read c plen now m = Some (out, m') → run_inv (tr ++ [LTau]) m'.
Proof.
  intros Hinv. unfold Read. destruct (mx_heap m !! c) as [ch|] eqn:Hc; cbn; [|done].
  destruct (ch_Read plen ch) as [[[o ch'] credit]|] eqn:E; cbn; [|done].
  intros [= <- <-]. apply ch_Read_fields in E as [Hq Hp].
  pose proof (quiet_set_channel c ch ch' m Hc Hq Hp) as Hquiet.
  destruct credit as [n|]; [|by eapply quiet_inv].
  apply SendWindowUpdate_inv.
  - destruct Hinv as [Hok Hw]. destruct Hquiet as (Hq1 & Hconn1 & Hl1).
    destruct (Hq1 Hok) as [Hok1 Hqs]. split; [done|]. intros H.
    destruct (Hw (Hl1 H)) as (fs & Hfs & Hconn & Ha). exists fs. split_and!; [done|congruence|].
    intros p. rewrite Hqs. apply Ha.
  - destruct Hinv as [Hok _]. by apply (Forall_lookup_1 _ _ _ _ (ok_heap _ Hok) Hc).
Qed.

Lemma dispatch_inv tr now f m m' :
  run_inv tr m → is_uint16 f.(fi_port) → m' ∈ dispatch now f m →
  run_inv (tr ++ [down_label f.(fi_ptype) f.(fi_port)]) m'.
Proof.
  intros Hinv Hp. unfold dispatch, down_label. case_decide as Hd.
  { rewrite Hd. rewrite decide_False by done. intros Hin.
    by eapply quiet_inv, dispatchData_quiet. }
  case_decide as Hc.
  { intros ->%list_elem_of_singleton. destruct Hinv as [Hok Hw].
    apply (down_inv tr m _ []); try done. intros H. split; [by apply Hw|].
    unfold encode_frames. cbn. by rewrite app_nil_r. }
  case_decide; intros ->%list_elem_of_singleton; eapply quiet_inv;
    [done|apply handleWindowUpdate_quiet|done|apply quiet_refl].
Qed.

Lemma readLoop_exit_ok m : mux_ok m → mux_ok (readLoop_exit m).
Proof.
  intros Hok. unfold readLoop_exit.
  assert (mux_ok (map_fold (λ _ c m', on_channel c ch_set_close m') m (mx_channels m))) as [H1 _ H3].
  { apply (map_fold_weak_ind (λ m' _, mux_ok m')); [done|]. intros p c g m' _ Hm'.
    by apply on_channel_ok. }
  constructor; [done| |done]. intros p c. cbn. by rewrite lookup_empty.
Qed.

Lemma mux_step_inv tr m l m' : run_inv tr m → mux_step m l m' → run_inv (tr ++ [l]) m'.
Proof.
  intros Hinv Hstep. destruct Hstep.
  - by eapply quiet_inv, OpenChannel_quiet.
  - by eapply quiet_inv, enqueueCtrl_quiet.
  - by eapply Send_inv.
  - by apply ctrl_inv.
  - by eapply idle_inv.
  - by eapply data_inv.
  - by eapply Read_inv.
  - by eapply dispatch_inv.
  - apply closed_inv; [|done]. by apply readLoop_exit_ok, Hinv.
  - apply closed_inv; [|done]. by eapply mux_ok_same, Hinv.
Qed.

Lemma mux_run_inv splice onNew ws sp tr m :
  mux_run (New splice onNew ws sp) tr m → run_inv tr m.
Proof.
  induction 1 as [|tr m l m' _ IH Hs]; [|by eapply mux_step_inv].
  split; [by constructor|]. intros _. exists []. split_and!; [constructor|done|].
  intros p. by split.
Qed.

(** ** A round of the loop *)

(** [iter] gives channels of the map only. *)
Definition iter_ok (iter : gmap Z nat → list nat) : Prop :=
  ∀ g c, c ∈ iter g → ∃ p, g !! p = Some c.

Lemma write_out_chans f m e m' :
  (f.(fo_srcFd) < 0)%Z → write_out f m = (e, m') → same_chans m m'.
Proof.
  intros Hfd. unfold write_out. rewrite (proj2 (Z.leb_gt _ _)) by done. unfold writeFrame.
  case_match; [by intros [= <- <-]|]. unfold conn_Write.
  destruct (write_loop _ _) as [[out e'] ws]. by intros [= <- <-].
Qed.

(** The data frames of a round are steps. *)
Lemma writeLoop_data_run m0 tr chans progress m m' st progress' :
  mux_run m0 tr m → mux_ok m → (∀ c, c ∈ chans → ∃ p, m.(mx_channels) !! p = Some c) →
  writeLoop_data chans progress m = (m', st, progress') →
  ∃ n, mux_run m0 (tr ++ replicate n LTau) m'.
Proof.
  revert tr progress m. induction chans as [|c chans IH]; intros tr progress m Hrun Hok Hch; cbn.
  { intros [= <- _ _]. exists 0. by rewrite app_nil_r. }
  assert (∃ p, mx_channels m !! p = Some c) as [p Hp] by (apply Hch; by left).
  assert (∀ c', c' ∈ chans → ∃ p, mx_channels m !! p = Some c') as Hrest
    by (intros c' Hc'; apply Hch; by right).
  pose proof (step_data m p c Hp) as Hstep. unfold write_one in Hstep.
  destruct (mx_heap m !! c) as [ch|] eqn:Hc; [|by apply IH].
  destruct (ch_sendQueue ch) as [|f q] eqn:Hq; [by apply IH|].
  destruct (pop_ok c m p ch f q Hok Hp Hc Hq) as (Hok1 & _ & _ & Hfd & _).
  destruct (write_out f _) as [e m1] eqn:E. pose proof (write_out_chans _ _ _ _ Hfd E) as Hs.
  pose proof (run_step _ _ _ _ _ Hrun Hstep) as Hrun1.
  destruct e as [e|]; cbn in Hrun1 |- *.
  - intros [= <- _ _]. by exists 1.
  - intros Hd. destruct (IH _ _ _ Hrun1 (mux_ok_same _ _ Hs Hok1) ltac:(by destruct Hs as (_ & -> & _)) Hd) as [n Hn].
    exists (S n). by rewrite <-app_assoc in Hn.
Qed.

(** What the data frames of a round put on a connection that takes
    everything: nothing of a port without a channel. *)
Lemma writeLoop_data_wire chans progress m m' st progress' :
  mux_ok m → m.(mx_writes) = [] → (∀ c, c ∈ chans → ∃ p, m.(mx_channels) !! p = Some c) →
  writeLoop_data chans progress m = (m', st, progress') →
  ∃ fs, m'.(mx_conn) = m.(mx_conn) ++ encode_frames fs
    ∧ (∀ port, m.(mx_channels) !! port = None → payloads port fs = [])
    ∧ m'.(mx_channels) = m.(mx_channels)
    ∧ (∀ c, c ∉ chans → m'.(mx_heap) !! c = m.(mx_heap) !! c).
Proof.
  revert progress m. induction chans as [|c chans IH]; intros progress m Hok Hws Hch; cbn.
  { intros [= <- _ _]. exists []. split_and!; try done. unfold encode_frames. cbn. by rewrite app_nil_r. }
  assert (∃ p, mx_channels m !! p = Some c) as [p Hp] by (apply Hch; by left).
  assert (∀ c', c' ∈ chans → ∃ p, mx_channels m !! p = Some c') as Hrest
    by (intros c' Hc'; apply Hch; by right).
  assert (∀ pr, writeLoop_data chans pr m = (m', st, progress') → ∃ fs,
    mx_conn m' = mx_conn m ++ encode_frames fs
    ∧ (∀ port, mx_channels m !! port = None → payloads port fs = [])
    ∧ mx_channels m' = mx_channels m
    ∧ (∀ c0, c0 ∉ c :: chans → mx_heap m' !! c0 = mx_heap m !! c0)) as Hskip.
  { intros pr Hd. destruct (IH _ _ Hok Hws Hrest Hd) as (fs & ? & ? & ? & Hh).
    exists fs. split_and!; [done..|]. intros c0 Hc0. apply Hh. by apply not_elem_of_cons in Hc0 as []. }
  destruct (mx_heap m !! c) as [ch|] eqn:Hc; [|apply Hskip].
  destruct (ch_sendQueue ch) as [|f q] eqn:Hq; [apply Hskip|]. clear Hskip.
  destruct (pop_ok c m p ch f q Hok Hp Hc Hq) as (Hok1 & Hfp & _ & Hfd & Hfc & _).
  set (m1 := on_channel c _ m) in *.
  assert (∀ c0, c0 ≠ c → mx_heap m1 !! c0 = mx_heap m !! c0) as Hne
    by (intros; by apply lookup_on_channel_ne).
  unfold write_out. rewrite (proj2 (Z.leb_gt _ _)) by done. rewrite Hfp, Hfc. unfold writeFrame.
  destruct (MaxFrameSize <? _)%Z.
  { cbn [write_or_close]. intros [= <- _ _]. exists []. split_and!; try done.
    - unfold encode_frames. cbn. by rewrite app_nil_r.
    - intros c0 Hc0. apply Hne. by apply not_elem_of_cons in Hc0 as []. }
  rewrite conn_Write_all by done. cbn [write_or_close]. intros Hd.
  eapply IH in Hd as (fs & Hconn & Hpay & Hcs & Hh); [|by eapply mux_ok_same, Hok1|done|done].
  exists (mkFrameIn p PktData (fo_data f) :: fs). split_and!; [|..|done|].
  - rewrite Hconn. cbn. by rewrite <-app_assoc.
  - intros port Hport. unfold payloads in *. rewrite filter_cons_False; [by apply Hpay|].
    cbn. naive_solver.
  - intros c0 Hc0. apply not_elem_of_cons in Hc0 as [H1 H2]. rewrite Hh by done. by apply Hne.
Qed.

(** A round is a sequence of steps that accept nothing. *)
Lemma writeLoop_round_run splice onNew ws sp tr m iter m' st :
  iter_ok iter → mux_run (New splice onNew ws sp) tr m → writeLoop_round iter m = (m', st) →
  ∃ tr', mux_run (New splice onNew ws sp) (tr ++ tr') m' ∧ ∀ p, accepted p tr' = [].
Proof.
  intros Hiter Hrun. unfold writeLoop_round. destruct (mx_closed m).
  { intros [= <- _]. exists []. by rewrite app_nil_r. }
  assert (∀ tr1 progress m1, mux_run (New splice onNew ws sp) (tr ++ tr1) m1 →
    (∀ p, accepted p tr1 = []) →
    match iter (mx_channels m1) with
    | [] => (m1, if progress : bool then Again else Idle true)
    | _ => match writeLoop_data (iter (mx_channels m1)) progress m1 with
           | (m2, Again, progress') => (m2, if progress' then Again else Idle false)
           | (m2, st, _) => (m2, st)
           end
    end = (m', st) →
    ∃ tr', mux_run (New splice onNew ws sp) (tr ++ tr') m' ∧ ∀ p, accepted p tr' = []) as Hdata.
  { intros tr1 progress m1 Hrun1 Hacc Heq. pose proof (mux_run_inv _ _ _ _ _ _ Hrun1) as [Hok1 _].
    pose proof (Hiter (mx_channels m1)) as Hin.
    destruct (iter (mx_channels m1)) as [|c chans]; [injection Heq as <- _; eauto|].
    destruct (writeLoop_data (c :: chans) progress m1) as [[m2 st2] pr2] eqn:E.
    destruct (writeLoop_data_run _ _ _ _ _ _ _ _ Hrun1 Hok1 Hin E) as [n Hn].
    exists (tr1 ++ replicate n LTau). rewrite app_assoc. split; [by destruct st2; simplify_eq|].
    intros p. rewrite accepted_app, Hacc. clear. induction n as [|n IHn]; [done|apply IHn]. }
  destruct (mx_ctrlChan m) as [|cf rest] eqn:Hctl.
  { intros Heq. apply (Hdata [] false m); [by rewrite app_nil_r|done|].
    rewrite <-Heq. by destruct (iter (mx_channels m)). }
  pose proof (run_step _ _ _ _ _ Hrun (step_ctrl _ _ _ Hctl)) as Hrun1.
  assert (∀ p, accepted p [down_label (cf_ptype cf) (cf_port cf)] = []) as Hacc
    by (intros p; unfold down_label; by case_decide).
  destruct (writeLoop_ctrl cf (set_ctrl m rest)) as [m1 st1]. cbn [fst] in Hrun1.
  destruct st1 as [|t|]; [|intros [= <- _]; eauto..].
  intros Heq. apply (Hdata _ true m1 Hrun1 Hacc). rewrite <-Heq. by destruct (iter (mx_channels m1)).
Qed.

(** ** Closing *)

Section close.
Context (m : Multiplexer) (port : Z) (c : nat) (ch : Channel).
Hypotheses (Hok : mux_ok m) (Hcl : m.(mx_closed) = false) (Hws : m.(mx_writes) = []).
Hypotheses (Hp : m.(mx_channels) !! port = Some c) (Hc : m.(mx_heap) !! c = Some ch).

(** [CLOSE] queued, and written. *)
Let m1 := notifyWrite (set_ctrl m [mkCtrl port PktClose]).
Let m2 := set_conn (set_ctrl m1 []) (m.(mx_conn) ++ frame_header port 0 PktClose) false [].

Lemma close_written : writeCtrl port PktClose (set_ctrl m1 []) = (None, m2).
Proof using Hcl Hws.
  unfold writeCtrl. replace (mx_closed (set_ctrl m1 [])) with false by done.
  by rewrite conn_Write_all.
Qed.

Lemma close_idle :
  (m2, Again) ∈ writeLoop_idle false m1
  ∧ m2.(mx_conn) = m.(mx_conn) ++ encode_frames [mkFrameIn port PktClose []].
Proof using Hcl Hws.
  split; [|by rewrite <-ctrl_frame_bytes].
  unfold writeLoop_idle. replace (mx_ctrlChan m1) with [mkCtrl port PktClose] by done.
  cbn [cf_port cf_ptype]. rewrite close_written, !elem_of_app. right. left. by left.
Qed.

(** The channel taken down. *)
Let m3 := closeChannelLocal port m2.

Lemma close_down :
  ch.(ch_CloseChan) = false →
  mux_ok m3 ∧ m3.(mx_channels) !! port = None ∧ m3.(mx_writes) = []
  ∧ m3.(mx_conn) = m.(mx_conn) ++ encode_frames [mkFrameIn port PktClose []]
  ∧ m3.(mx_heap) !! c = Some (ch_set_close (ch_set_queue [] ch))
  ∧ ∀ p, m3.(mx_channels) !! p ≠ Some c.
Proof using Hok Hp Hc.
  intros Hch. assert (mux_ok m2) as Hok2 by (destruct Hok; by constructor).
  assert (m3 = on_channel c (λ ch, if ch_CloseChan ch then ch else ch_set_close (ch_set_queue [] ch))
      (set_channels m2 (delete port (mx_channels m)))) as Hdown
    by (subst m3; unfold closeChannelLocal; by replace (mx_channels m2 !! port) with (Some c) by done).
  split_and!; [by apply closeChannelLocal_ok|..].
  - rewrite Hdown. apply lookup_delete_eq.
  - by rewrite Hdown.
  - rewrite Hdown. by rewrite <-ctrl_frame_bytes.
  - rewrite Hdown. cbn. by rewrite list_lookup_alter_eq, Hc; cbn; rewrite Hch.
  - intros p Hpc. apply closeChannelLocal_chans in Hpc as [Hne Hpc].
    destruct (ok_map _ Hok _ _ Hp) as (x & Hx & Hxp).
    destruct (ok_map _ Hok2 _ _ Hpc) as (y & Hy & Hyp). change (mx_heap m2) with (mx_heap m) in Hy.
    naive_solver.
Qed.

Lemma close_round iter :
  iter_ok iter → ch.(ch_CloseChan) = false →
  ∃ fs, let m' := fst (writeLoop_round iter m1) in
    m'.(mx_conn) = m.(mx_conn) ++ encode_frames (mkFrameIn port PktClose [] :: fs)
    ∧ payloads port fs = []
    ∧ m'.(mx_channels) !! port = None
    ∧ m'.(mx_heap) !! c = Some (ch_set_close (ch_set_queue [] ch)).
Proof using Hok Hcl Hws Hp Hc.
  intros Hiter Hch. destruct (close_down Hch) as (Hok3 & Hnone & Hws3 & Hconn & Hheap & Hnot).
  unfold writeLoop_round. replace (mx_closed m1) with false by done.
  replace (mx_ctrlChan m1) with [mkCtrl port PktClose] by done.
  unfold writeLoop_ctrl. cbn [cf_port cf_ptype]. rewrite close_written. cbn [write_or_close].
  rewrite decide_True by done. fold m3. pose proof (Hiter (mx_channels m3)) as Hin.
  destruct (iter (mx_channels m3)) as [|c' chans]; [by exists []|].
  destruct (writeLoop_data (c' :: chans) true m3) as [[m4 st] pr] eqn:E.
  destruct (writeLoop_data_wire _ _ _ _ _ _ Hok3 Hws3 Hin E) as (fs & Hfs & Hpay & Hcs & Hh).
  exists fs.
  assert (fst (match st with Again => (m4, if pr then Again else Idle false) | _ => (m4, st) end) = m4)
    as -> by by destruct st.
  cbn zeta. split_and!.
  - rewrite Hfs, Hconn, <-app_assoc. done.
  - by apply Hpay.
  - by rewrite Hcs.
  - rewrite Hh; [done|]. intros [p Hpc]%Hin. by apply (Hnot p).
Qed.
End close.

(** ** Properties *)


(** Closing a channel loses what is still queued on it.  When the next
    round takes the CLOSE frame, it goes out before any data of the channel,
    and the queue is thrown away.  When the writing goroutine was idle, it
    writes the CLOSE frame and leaves the channel in the map, open. *)
Theorem close_loses_queue m port c ch iter m1 :
  mux_ok m → m.(mx_closed) = false → m.(mx_writes) = [] → m.(mx_ctrlChan) = [] →
  m.(mx_channels) !! port = Some c → m.(mx_heap) !! c = Some ch → ch.(ch_CloseChan) = false →
  iter_ok iter → m1 ∈ CloseChannel port m →
  (∃ fs, let m2 := fst (writeLoop_round iter m1) in
     m2.(mx_conn) = m.(mx_conn) ++ encode_frames (mkFrameIn port PktClose [] :: fs)
     ∧ payloads port fs = []
     ∧ m2.(mx_channels) !! port = None
     ∧ m2.(mx_heap) !! c = Some (ch_set_close (ch_set_queue [] ch)))
  ∧ (∃ m2, (m2, Again) ∈ writeLoop_idle false m1
     ∧ m2.(mx_conn) = m.(mx_conn) ++ encode_frames [mkFrameIn port PktClose []]
     ∧ m2.(mx_channels) !! port = Some c ∧ m2.(mx_heap) !! c = Some ch).
Proof.
  intros Hok Hcl Hws Hctl Hp Hc Hch Hiter.
  unfold CloseChannel, enqueueCtrl. rewrite Hcl. case_decide; [|by intros []%not_elem_of_nil].
  rewrite Hctl. intros ->%list_elem_of_singleton. split; [by apply close_round|].
  destruct (close_idle m port Hcl Hws) as [Hin Hconn]. by eexists.
Qed.

(** The order in which stdpp lists a map. *)
Definition map_order (g : gmap Z nat) : list nat := (map_to_list g).*2.

Lemma map_order_ok : iter_ok map_order.
Proof.
  intros g c. unfold map_order. rewrite list_elem_of_fmap.
  intros ([p c'] & -> & Hin). exists p. by apply elem_of_map_to_list in Hin.
Qed.

Definition hello : bytes := list_ascii_of_string "hello".
Definition bye : bytes := list_ascii_of_string "bye".

(** Port 80 with two messages accepted, then with the first one sent. *)
Definition mux_queued : Multiplexer :=
  default mux_80 (snd <$> head (m ← snd <$> Send 80 hello mux_80; Send 80 bye m)).
Definition mux_sent : Multiplexer := write_one 0 mux_queued.

Lemma mux_queued_run : mux_run (New false false [] []) [LTau; LSend 80 hello; LSend 80 bye] mux_queued.
Proof.
  set (ma := default mux_80 (snd <$> head (Send 80 hello mux_80))).
  apply (run_step _ [LTau; LSend 80 hello] ma); [|apply (step_send _ 80 bye (Ok tt)); vm_compute; by left].
  apply (run_step _ [LTau] mux_80); [|apply (step_send _ 80 hello (Ok tt)); vm_compute; by left].
  apply (run_step _ [] (New false false [] [])); [constructor|]. by apply (step_open _ 80 0).
Qed.

Lemma mux_sent_run : mux_run (New false false [] []) [LTau; LSend 80 hello; LSend 80 bye; LTau] mux_sent.
Proof.
  apply (run_step _ [LTau; LSend 80 hello; LSend 80 bye] mux_queued), (step_data _ 80); [|done].
  apply mux_queued_run.
Qed.


Lemma close_loses_queue_witness :
  queued 80 mux_queued = [hello; bye]
  ∧ ∃ m1 fs, m1 ∈ CloseChannel 80 mux_queued
    ∧ (fst (writeLoop_round map_order m1)).(mx_conn) = encode_frames (mkFrameIn 80 PktClose [] :: fs)
    ∧ payloads 80 fs = [].
Proof.
  split; [reflexivity|].
  set (m1 := notifyWrite (set_ctrl mux_queued [mkCtrl 80 PktClose])).
  assert (m1 ∈ CloseChannel 80 mux_queued) as Hin by by left.
  destruct (close_loses_queue mux_queued 80 0 (default (newChannel 80 0) (mx_heap mux_queued !! 0))
    map_order m1) as [(fs & Hc & Hp & _) _];
    [apply (mux_run_inv _ _ _ _ _ _ mux_queued_run)|reflexivity..|apply map_order_ok|exact Hin|].
  exists m1, fs. split_and!; [exact Hin|exact Hc|exact Hp].
Defined.
