(* ===== verification/MuxFlow.v ===== *)
(** * Flow control and the receiving goroutines (common/mux/mux.go)

    First the credit of one direction of a channel, from the window of the
    sender to the reader of the receiver and back, made of the channel
    operations of Mux.v.  Then the four workers that share the frames a
    multiplexer receives. *)

From S2P Require Import Prelude Proto Mux.

(** ** One direction of a channel *)

(** [fl_transit]: the messages accepted by the sender and not yet in the
    receiver's [DataChan], wherever they are on the way; [fl_credits]: the
    amounts of the WINDOW_UPDATE frames on the way back.  [fl_short] is not
    part of the code's state: it counts the bytes of the messages that a
    [Read] did not take whole. *)
Record Flow := mkFlow {
  fl_out : Channel;
  fl_transit : list bytes;
  fl_in : Channel;
  fl_credits : list Z;
  fl_short : Z;
}.

Definition flow_new (now : Z) : Flow := mkFlow (newChannel 0 now) [] (newChannel 0 now) [] 0.

(** What a receiver of [binary.BigEndian.PutUint32(data, uint32(p))] adds. *)
Definition credit_of (p : Z) : Z := int32_wrap (be_decode (take 4 (be_encode 4 p))).

(** The message a [Read] takes off [DataChan] without finishing it. *)
Definition short_read (plen : nat) (ch : Channel) : Z :=
  match ch.(ch_reader), ch.(ch_DataChan) with
  | [], d :: _ => if decide (plen < length d) then Z.of_nat (length d) else 0
  | _, _ => 0
  end.

Definition flow_send (d : bytes) (s : Flow) : option Flow :=
  let n := int32_wrap (Z.of_nat (length d)) in
  if (s.(fl_out).(ch_sendWindow) <? n)%Z then None
  else Some (mkFlow (ch_add_window (- n) s.(fl_out)) (s.(fl_transit) ++ [d]) s.(fl_in)
               s.(fl_credits) s.(fl_short)).

(** The workers deliver in any order. *)
Definition flow_deliver (i : nat) (s : Flow) : option Flow :=
  d ← s.(fl_transit) !! i;
  if decide (length s.(fl_in).(ch_DataChan) < dataQueueSize) then
    Some (mkFlow s.(fl_out) (delete i s.(fl_transit))
            (ch_set_data (s.(fl_in).(ch_DataChan) ++ [d]) s.(fl_in)) s.(fl_credits) s.(fl_short))
  else None.

Definition flow_read (plen : nat) (now : Z) (s : Flow) : option (option bytes * Flow) :=
  '(out, ch, credit) ← ch_Read plen s.(fl_in);
  let short := (s.(fl_short) + short_read plen s.(fl_in))%Z in
  match credit with
  | None => Some (out, mkFlow s.(fl_out) s.(fl_transit) ch s.(fl_credits) short)
  | Some n =>
      let '(ch', p) := accumulate now n ch in
      Some (out, mkFlow s.(fl_out) s.(fl_transit) ch'
                   (s.(fl_credits) ++ match p with Some p => [p] | None => [] end) short)
  end.

Definition flow_credit (i : nat) (s : Flow) : option Flow :=
  p ← s.(fl_credits) !! i;
  Some (mkFlow (ch_add_window (credit_of p) s.(fl_out)) s.(fl_transit) s.(fl_in)
          (delete i s.(fl_credits)) s.(fl_short)).

(** Messages of at most [msg] bytes, read with buffers of at least [buf]. *)
Inductive flow_step (msg buf : nat) : Flow → Flow → Prop :=
| fs_send s d s' : length d ≤ msg → flow_send d s = Some s' → flow_step msg buf s s'
| fs_deliver s i s' : flow_deliver i s = Some s' → flow_step msg buf s s'
| fs_read s plen now out s' : buf ≤ plen → flow_read plen now s = Some (out, s') → flow_step msg buf s s'
| fs_credit s i s' : flow_credit i s = Some s' → flow_step msg buf s s'.

Definition flow_reach (msg buf : nat) : Flow → Flow → Prop := rtc (flow_step msg buf).

(** ** The invariant *)

Definition total (l : list bytes) : Z := foldr (λ d n, Z.of_nat (length d) + n)%Z 0%Z l.
Definition sumZ (l : list Z) : Z := foldr Z.add 0%Z l.

Lemma total_app a b : total (a ++ b) = (total a + total b)%Z.
Proof. induction a as [|x a IH]; cbn; [done|]. fold (total (a ++ b)) (total a). lia. Qed.

Lemma sumZ_app a b : sumZ (a ++ b) = (sumZ a + sumZ b)%Z.
Proof. induction a as [|x a IH]; cbn; [done|]. fold (sumZ (a ++ b)) (sumZ a). lia. Qed.

#[export] Instance total_perm : Proper ((≡ₚ) ==> (=)) total.
Proof. induction 1; cbn; unfold total in *; lia. Qed.

#[export] Instance sumZ_perm : Proper ((≡ₚ) ==> (=)) sumZ.
Proof. induction 1; cbn; unfold sumZ in *; lia. Qed.

Lemma total_delete l i d : l !! i = Some d → total l = (Z.of_nat (length d) + total (delete i l))%Z.
Proof. intros H. exact (total_perm _ _ (delete_Permutation l i d H)). Qed.

Lemma sumZ_delete l i p : l !! i = Some p → sumZ l = (p + sumZ (delete i l))%Z.
Proof. intros H. exact (sumZ_perm _ _ (delete_Permutation l i p H)). Qed.

Lemma total_nonneg l : (0 <= total l)%Z.
Proof. induction l as [|d l IH]; cbn; [done|]. fold (total l). lia. Qed.

Lemma sumZ_nonneg l : Forall (Z.le 0) l → (0 <= sumZ l)%Z.
Proof. induction 1 as [|p l Hp _ IH]; cbn; [done|]. fold (sumZ l). lia. Qed.

Lemma total_cons d l : total (d :: l) = (Z.of_nat (length d) + total l)%Z.
Proof. done. Qed.

Lemma total_one d : total [d] = Z.of_nat (length d).
Proof. unfold total. cbn. lia. Qed.

Lemma sumZ_nil : sumZ [] = 0%Z.
Proof. done. Qed.

Lemma sumZ_one p : sumZ [p] = p.
Proof. unfold sumZ. cbn. lia. Qed.

#[global] Arguments total : simpl never.
#[global] Arguments sumZ : simpl never.

Lemma credit_of_id p : (0 <= p <= windowSize)%Z → credit_of p = p.
Proof.
  intros Hp. unfold credit_of, windowSize in *. rewrite take_ge by by rewrite be_encode_length.
  rewrite be_decode_encode_id by (cbn; lia). apply int32_wrap_id. lia.
Qed.

(** All the credit of the window is somewhere. *)
Record flow_inv (msg buf : nat) (s : Flow) : Prop := {
  inv_sum : (s.(fl_out).(ch_sendWindow) + total s.(fl_transit) + total s.(fl_in).(ch_DataChan)
    + s.(fl_in).(ch_pendingConsumed) + sumZ s.(fl_credits) + s.(fl_short) = windowSize)%Z;
  inv_window : (0 <= s.(fl_out).(ch_sendWindow))%Z;
  inv_pending : (0 <= s.(fl_in).(ch_pendingConsumed) < windowThreshold)%Z;
  inv_credits : Forall (Z.le 0) s.(fl_credits);
  inv_short : (0 <= s.(fl_short))%Z;
  inv_msgs : Forall (λ d, length d ≤ msg) (s.(fl_transit) ++ s.(fl_in).(ch_DataChan));
  inv_whole : msg ≤ buf → s.(fl_short) = 0%Z;
}.

Section flow.
Context (msg buf : nat).
Hypothesis (Hmsg : (Z.of_nat msg < 2 ^ 31)%Z).

Lemma flow_new_inv now : flow_inv msg buf (flow_new now).
Proof. by constructor. Qed.

(** Everything is within the window. *)
Lemma flow_inv_bounds s :
  flow_inv msg buf s →
  (0 <= total s.(fl_transit) <= windowSize ∧ 0 <= total s.(fl_in).(ch_DataChan) <= windowSize
   ∧ 0 <= sumZ s.(fl_credits) <= windowSize ∧ s.(fl_out).(ch_sendWindow) <= windowSize
   ∧ s.(fl_short) <= windowSize)%Z.
Proof.
  intros [Hs Hw Hp Hc Hl _ _]. pose proof (total_nonneg (fl_transit s)).
  pose proof (total_nonneg (ch_DataChan (fl_in s))). pose proof (sumZ_nonneg _ Hc). lia.
Qed.

Lemma flow_send_inv d s s' :
  length d ≤ msg → flow_inv msg buf s → flow_send d s = Some s' → flow_inv msg buf s'.
Proof.
  intros Hd Hinv. pose proof (flow_inv_bounds s Hinv) as Hb. destruct Hinv as [Hs Hw Hp Hc Hl Hm Hwh].
  unfold flow_send. rewrite int32_wrap_id by lia.
  destruct (Z.ltb_spec (ch_sendWindow (fl_out s)) (Z.of_nat (length d))); [done|].
  intros [= <-]. constructor; cbn; try done.
  - unfold windowSize in *. rewrite int32_wrap_id, total_app, total_one by lia. lia.
  - unfold windowSize in *. rewrite int32_wrap_id by lia. lia.
  - rewrite <-app_assoc. apply Forall_app in Hm as [H1 H2].
    apply Forall_app; split; [done|]. by constructor.
Qed.

Lemma flow_deliver_inv i s s' :
  flow_inv msg buf s → flow_deliver i s = Some s' → flow_inv msg buf s'.
Proof.
  intros [Hs Hw Hp Hc Hl Hm Hwh]. unfold flow_deliver.
  destruct (fl_transit s !! i) as [d|] eqn:E; cbn; [|done]. case_decide; [|done].
  intros [= <-]. constructor; cbn; try done.
  - rewrite total_app, total_one. pose proof (total_delete _ _ _ E). lia.
  - rewrite (delete_Permutation _ _ _ E) in Hm.
    rewrite app_assoc, (Permutation_app_comm _ [d]). exact Hm.
Qed.

Lemma flow_credit_inv i s s' :
  flow_inv msg buf s → flow_credit i s = Some s' → flow_inv msg buf s'.
Proof.
  intros Hinv. pose proof (flow_inv_bounds s Hinv) as Hb. destruct Hinv as [Hs Hw Hp Hc Hl Hm Hwh].
  unfold flow_credit. destruct (fl_credits s !! i) as [p|] eqn:E; cbn; [|done].
  intros [= <-]. pose proof (sumZ_delete _ _ _ E) as Hsum.
  pose proof Hc as Hc'. rewrite (delete_Permutation _ _ _ E) in Hc'.
  apply Forall_cons in Hc' as [Hp0 Hc']. pose proof (sumZ_nonneg _ Hc') as Hn.
  pose proof (total_nonneg (fl_transit s)). pose proof (total_nonneg (ch_DataChan (fl_in s))).
  assert (credit_of p = p) as Hcr by (apply credit_of_id; lia).
  constructor; cbn; try done; rewrite Hcr; unfold windowSize in *; rewrite int32_wrap_id by lia; lia.
Qed.

(** What a [Read] does to the receiver's channel: the rest of a message
    costs nothing, a message not taken whole is short, and one taken whole is
    to be given credit for. *)
Lemma ch_Read_cases plen ch out ch' credit :
  ch_Read plen ch = Some (out, ch', credit) →
  ch'.(ch_pendingConsumed) = ch.(ch_pendingConsumed)
  ∧ ch'.(ch_lastWUTime) = ch.(ch_lastWUTime)
  ∧ ((ch'.(ch_DataChan) = ch.(ch_DataChan) ∧ credit = None ∧ short_read plen ch = 0%Z)
     ∨ ∃ d, ch.(ch_DataChan) = d :: ch'.(ch_DataChan)
         ∧ ((plen < length d ∧ credit = None ∧ short_read plen ch = Z.of_nat (length d))
            ∨ (length d ≤ plen ∧ credit = Some (Z.of_nat (length d)) ∧ short_read plen ch = 0%Z))).
Proof.
  unfold ch_Read, ReceiveBlocking, short_read.
  destruct (ch_reader ch) as [|x r] eqn:Hr;
    [rewrite decide_False by (intros H; by apply H)|rewrite decide_True by done].
  - destruct (ch_DataChan ch) as [|d l] eqn:Hd; cbn.
    + destruct (ch_CloseChan ch); [|done]. intros [= _ <- <-].
      split_and!; [done..|]. left. by rewrite ?Hd.
    + case_decide; intros [= _ <- <-]; cbn; (split_and!; [done..|]); right; exists d;
        (split; [done|]); [left|right]; split_and!; done || lia.
  - intros [= _ <- <-]. split_and!; [done..|]. by left.
Qed.

Lemma accumulate_cases now n ch :
  (0 <= ch.(ch_pendingConsumed))%Z → (0 <= n)%Z → (ch.(ch_pendingConsumed) + n <= windowSize)%Z →
  let p := (ch.(ch_pendingConsumed) + n)%Z in
  accumulate now n ch = (ch_set_pending 0 now ch, Some p)
  ∨ accumulate now n ch = (ch_set_pending p ch.(ch_lastWUTime) ch, None) ∧ (p < windowThreshold)%Z.
Proof.
  intros Hp Hn Hb p. unfold accumulate, windowSize in *.
  rewrite !int32_wrap_id by (rewrite ?int32_wrap_id by lia; lia). fold p.
  destruct (Z.leb_spec windowThreshold p); cbn [orb]; [by left|].
  destruct (windowInterval <=? _)%Z; [by left|by right].
Qed.

Lemma flow_read_inv plen now s out s' :
  buf ≤ plen → flow_inv msg buf s → flow_read plen now s = Some (out, s') → flow_inv msg buf s'.
Proof.
  intros Hbuf Hinv. pose proof (flow_inv_bounds s Hinv) as Hb.
  destruct Hinv as [Hs Hw Hp Hc Hl Hm Hwh]. pose proof (sumZ_nonneg _ Hc) as Hcn.
  unfold flow_read. destruct (ch_Read plen (fl_in s)) as [[[o ch] credit]|] eqn:E; cbn; [|done].
  apply ch_Read_cases in E as (Hpend & _ & [(Hd & -> & Hsh)|(d & Hd & Hcase)]).
  { intros [= _ <-]. constructor; cbn; rewrite ?Hd, ?Hpend, ?Hsh; try done; try lia. }
  pose proof (total_nonneg (ch_DataChan ch)) as Hrest.
  pose proof (total_nonneg (fl_transit s)) as Htr.
  assert (total (ch_DataChan (fl_in s)) = Z.of_nat (length d) + total (ch_DataChan ch))%Z as Htot
    by by rewrite Hd.
  assert (Forall (λ d, length d ≤ msg) (fl_transit s ++ ch_DataChan ch) ∧ length d ≤ msg) as [Hm' Hdm].
  { rewrite Hd in Hm. apply Forall_app in Hm as [? [? ?]%Forall_cons]. by rewrite Forall_app. }
  destruct Hcase as [(Hlt & -> & Hsh)|(Hle & -> & Hsh)].
  { intros [= _ <-]. constructor; cbn; rewrite ?Hpend, ?Hsh; try done; lia. }
  destruct (accumulate_cases now (Z.of_nat (length d)) ch) as [-> | [-> Hlt]];
    [lia..| |]; intros [= _ <-]; constructor; cbn; rewrite ?sumZ_app, ?sumZ_one, ?sumZ_nil, ?Hpend, ?Hsh, ?app_nil_r;
    try done; cbn; try lia; unfold windowThreshold in *; try lia; try (intros Hle'; by rewrite (Hwh Hle')).
  apply Forall_app. split; [done|]. constructor; [lia|done].
Qed.

Lemma flow_step_inv s s' : flow_inv msg buf s → flow_step msg buf s s' → flow_inv msg buf s'.
Proof.
  intros Hinv Hs. destruct Hs; eauto using flow_send_inv, flow_deliver_inv, flow_read_inv, flow_credit_inv.
Qed.

Lemma flow_reach_inv s s' : flow_inv msg buf s → flow_reach msg buf s s' → flow_inv msg buf s'.
Proof. intros Hinv Hr. revert Hinv. induction Hr; eauto using flow_step_inv. Qed.

(** The bytes of short reads only grow. *)
Lemma flow_short_mono s s' : flow_reach msg buf s s' → (s.(fl_short) <= s'.(fl_short))%Z.
Proof.
  induction 1 as [|s s1 s' Hs _ IH]; [done|]. etrans; [|exact IH]. clear IH.
  destruct Hs as [s d s1 _ Hs|s i s1 Hs|s plen now out s1 _ Hs|s i s1 Hs].
  - unfold flow_send in Hs. case_match; by simplify_eq/=.
  - unfold flow_deliver in Hs. destruct (fl_transit s !! i); cbn in Hs; [|done].
    case_decide; by simplify_eq/=.
  - unfold flow_read in Hs.
    destruct (ch_Read plen (fl_in s)) as [[[o ch] credit]|] eqn:E; cbn in Hs; [|done].
    assert (0 <= short_read plen (fl_in s))%Z as Hsh.
    { unfold short_read. repeat case_match; lia. }
    destruct credit as [n|]; [|simplify_eq/=; lia].
    destruct (accumulate now n ch). simplify_eq/=. lia.
  - unfold flow_credit in Hs. destruct (fl_credits s !! i); cbn in Hs; by simplify_eq/=.
Qed.
End flow.

(** ** Leaking the window

    A message longer than the reader's buffer, sent, delivered and read to
    its end, is credit lost. *)

(** The buffer of [io.Copy]. *)
Definition io_copy_buf : nat := Z.to_nat 32768.

(** Nothing is on the way, waiting, or held back. *)
Definition flow_empty (s : Flow) : Prop :=
  s.(fl_transit) = [] ∧ s.(fl_in).(ch_DataChan) = [] ∧ s.(fl_in).(ch_reader) = []
  ∧ s.(fl_in).(ch_pendingConsumed) = 0%Z ∧ s.(fl_credits) = [].

Lemma ch_Read_rest plen ch :
  ch.(ch_reader) ≠ [] →
  ch_Read plen ch = Some (Some (take plen ch.(ch_reader)), ch_set_reader (drop plen ch.(ch_reader)) ch, None).
Proof. intros H. unfold ch_Read. by rewrite decide_True. Qed.

Lemma ch_Read_short plen ch d l :
  ch.(ch_reader) = [] → ch.(ch_DataChan) = d :: l → plen < length d →
  ch_Read plen ch = Some (Some (take plen d), ch_set_reader (drop plen d) (ch_set_data l ch), None).
Proof.
  intros Hr Hd Hl. unfold ch_Read, ReceiveBlocking.
  rewrite Hr, decide_False by (intros H; by apply H). by rewrite Hd, decide_True.
Qed.

Lemma flow_leak_one n s :
  io_copy_buf < n → n ≤ 2 * io_copy_buf → n ≤ Z.to_nat MaxFrameSize →
  (Z.of_nat n <= s.(fl_out).(ch_sendWindow) <= windowSize)%Z → flow_empty s →
  ∃ s', flow_reach (Z.to_nat MaxFrameSize) io_copy_buf s s' ∧ flow_empty s'
    ∧ s'.(fl_out).(ch_sendWindow) = (s.(fl_out).(ch_sendWindow) - Z.of_nat n)%Z
    ∧ s'.(fl_short) = (s.(fl_short) + Z.of_nat n)%Z.
Proof.
  intros Hlt Hle Hmax Hw (Ht & Hd & Hr & Hp & Hc).
  destruct s as [out tr inc cr sh]. destruct inc as [port data cl q w pend t rd]. cbn in *. subst.
  set (d := replicate n "a"%char). assert (length d = n) as Hn by apply length_replicate.
  eexists (mkFlow (ch_add_window (- Z.of_nat n) out) [] (mkChannel port [] cl q w 0 t []) []
    (sh + Z.of_nat n)%Z).
  split_and!; [|done|cbn; unfold windowSize in *; rewrite int32_wrap_id; lia|done].
  eapply rtc_l; [apply (fs_send _ _ _ d)|].
  { by rewrite Hn. }
  { unfold flow_send. cbn. unfold windowSize, MaxFrameSize in *. rewrite Hn, int32_wrap_id by lia.
    by rewrite (proj2 (Z.ltb_ge _ _)) by lia. }
  eapply rtc_l; [by apply (fs_deliver _ _ _ 0)|]. cbn.
  eapply rtc_l; [eapply (fs_read _ _ _ io_copy_buf 0); [done|]|].
  { unfold flow_read. rewrite (ch_Read_short _ _ d []) by (done || rewrite Hn; lia).
    unfold short_read. cbn. rewrite decide_True by (rewrite Hn; lia). reflexivity. }
  cbn. eapply rtc_l; [|apply rtc_refl]. eapply (fs_read _ _ _ io_copy_buf 0); [done|].
  unfold flow_read. rewrite ch_Read_rest; cbn.
  - unfold short_read. cbn. rewrite drop_drop, (drop_ge d (io_copy_buf + io_copy_buf)) by (rewrite Hn; lia).
    assert (∀ l : bytes, match l with [] | _ => 0 end = 0)%Z as -> by by intros [].
    rewrite Hn, Z.add_0_r. reflexivity.
  - intros Hnil%(f_equal length). rewrite length_drop, Hn in Hnil. cbn in Hnil. lia.
Qed.

Lemma flow_leak k n s :
  io_copy_buf < n → n ≤ 2 * io_copy_buf → n ≤ Z.to_nat MaxFrameSize →
  (Z.of_nat k * Z.of_nat n <= s.(fl_out).(ch_sendWindow) <= windowSize)%Z → flow_empty s →
  ∃ s', flow_reach (Z.to_nat MaxFrameSize) io_copy_buf s s' ∧ flow_empty s'
    ∧ s'.(fl_out).(ch_sendWindow) = (s.(fl_out).(ch_sendWindow) - Z.of_nat k * Z.of_nat n)%Z
    ∧ s'.(fl_short) = (s.(fl_short) + Z.of_nat k * Z.of_nat n)%Z.
Proof.
  intros H1 H2 H3. revert s. induction k as [|k IH]; intros s Hw He.
  { exists s. split_and!; [apply rtc_refl|done|lia|lia]. }
  destruct (flow_leak_one n s H1 H2 H3) as (s1 & Hr1 & He1 & Hw1 & Hs1); [nia|done|].
  destruct (IH s1) as (s2 & Hr2 & He2 & Hw2 & Hs2); [nia|done|].
  exists s2. split_and!; [by etransitivity|done|lia|lia].
Qed.

(** ** The workers *)

Inductive Worker := Free | Busy (f : frameIn) | Gone.

Record Pool := mkPool { pl_mux : Multiplexer; pl_workers : list Worker }.

(** [New] starts [workerCount] workers. *)
Definition pool_new (m : Multiplexer) : Pool := mkPool m (replicate workerCount Free).

(** A worker takes a frame from [workChan], dispatches the one it holds, or
    sees that the multiplexer is closed. *)
Inductive worker_step : Pool → Pool → Prop :=
| ws_take i f rest m ws :
    ws !! i = Some Free → m.(mx_workChan) = f :: rest →
    worker_step (mkPool m ws) (mkPool (set_work m rest) (<[i := Busy f]> ws))
| ws_run i now f m m' ws :
    ws !! i = Some (Busy f) → m' ∈ dispatch now f m →
    worker_step (mkPool m ws) (mkPool m' (<[i := Free]> ws))
| ws_exit i m ws :
    ws !! i = Some Free → m.(mx_closed) = true →
    worker_step (mkPool m ws) (mkPool m (<[i := Gone]> ws)).

(** [readLoop] hands the workers the frames of a stream. *)
Inductive pool_step : list frameIn → Pool → list frameIn → Pool → Prop :=
| ps_arrive f fs m m' ws :
    m' ∈ readLoop_put f m → pool_step (f :: fs) (mkPool m ws) fs (mkPool m' ws)
| ps_worker fs p p' : worker_step p p' → pool_step fs p fs p'.

Inductive pool_run : list frameIn → Pool → list frameIn → Pool → Prop :=
| pr_refl fs p : pool_run fs p fs p
| pr_step fs p fs1 p1 fs2 p2 :
    pool_step fs p fs1 p1 → pool_run fs1 p1 fs2 p2 → pool_run fs p fs2 p2.

Definition data_for (m : Multiplexer) (c : nat) (w : Worker) : Prop :=
  match w with
  | Busy f => f.(fi_ptype) = PktData ∧ m.(mx_channels) !! f.(fi_port) = Some c
  | _ => False
  end.

Lemma dispatch_room now f m c ch :
  f.(fi_ptype) = PktData → m.(mx_channels) !! f.(fi_port) = Some c → m.(mx_heap) !! c = Some ch →
  length ch.(ch_DataChan) < dataQueueSize →
  on_channel c (ch_set_data (ch.(ch_DataChan) ++ [f.(fi_data)])) m ∈ dispatch now f m.
Proof.
  intros Ht Hp Hc Hl. unfold dispatch, dispatchData, put_data.
  rewrite decide_True, Hp, Hc, decide_True by done. by left.
Qed.

(** ** Properties *)


(** Reading with the 32-kilobyte buffer of [io.Copy] from a peer that
    sends larger messages uses the window up for good: a state is reached in
    which every byte sent was read and no credit is on its way, and from
    which no message that is not empty is ever accepted. *)
Theorem short_reads_starve now :
  ∃ s, flow_reach (Z.to_nat MaxFrameSize) io_copy_buf (flow_new now) s ∧ flow_empty s
    ∧ ∀ s' d, flow_reach (Z.to_nat MaxFrameSize) io_copy_buf s s' →
        0 < length d → length d ≤ Z.to_nat MaxFrameSize → flow_send d s' = None.
Proof.
  destruct (flow_leak 16 (Z.to_nat 61681) (flow_new now)) as (s1 & Hr1 & He1 & Hw1 & Hs1);
    [cbn [fl_out flow_new ch_sendWindow newChannel];
     unfold io_copy_buf, MaxFrameSize, windowSize; lia..|done|].
  destruct (flow_leak 1 (Z.to_nat 61680) s1) as (s2 & Hr2 & He2 & Hw2 & Hs2);
    [cbn [fl_out flow_new ch_sendWindow newChannel] in *;
     unfold io_copy_buf, MaxFrameSize, windowSize in *; lia..|done|].
  assert (flow_reach (Z.to_nat MaxFrameSize) io_copy_buf (flow_new now) s2) as Hr by by etransitivity.
  exists s2. split_and!; [done..|]. intros s' d Hr' Hd Hd'.
  assert (Z.of_nat (Z.to_nat MaxFrameSize) < 2 ^ 31)%Z as Hm by (unfold MaxFrameSize; lia).
  pose proof (flow_reach_inv _ _ Hm _ _ (flow_new_inv _ _ now) (transitivity Hr Hr')) as Hinv.
  pose proof (flow_inv_bounds _ _ _ Hinv) as Hb. pose proof (flow_short_mono _ _ _ _ Hr') as Hmono.
  destruct Hinv as [Hs Hw Hp Hc _ _ _].
  unfold flow_send. rewrite int32_wrap_id by (unfold MaxFrameSize in *; lia).
  rewrite (proj2 (Z.ltb_lt _ _)); [done|].
  unfold windowSize in *. cbn [fl_short flow_new] in *. lia.
Qed.

(** While a channel that nobody reads has its 32 messages waiting and
    every worker holds data for it, no worker can move: the frames of all the
    other channels, their CLOSE and WINDOW_UPDATE frames too, wait behind. *)
Theorem unread_channel_stalls m ws c ch :
  m.(mx_closed) = false → m.(mx_heap) !! c = Some ch →
  dataQueueSize ≤ length ch.(ch_DataChan) → Forall (data_for m c) ws →
  ∀ p', ¬ worker_step (mkPool m ws) p'.
Proof.
  intros Hcl Hc Hfull Hws p' Hstep. rewrite Forall_lookup in Hws.
  inversion Hstep as [i f rest m0 ws0 Hi|i now f m0 m' ws0 Hi Hd|i m0 ws0 Hi]; subst.
  - by apply Hws in Hi.
  - apply Hws in Hi as [Ht Hp]. unfold dispatch in Hd. rewrite decide_True in Hd by done.
    unfold dispatchData, put_data in Hd. rewrite Hp, Hc, decide_False, Hcl in Hd by lia.
    by apply not_elem_of_nil in Hd.
  - by apply Hws in Hi.
Qed.

(** Two messages of a channel that arrive one after the other can be
    delivered to its reader the other way round. *)
Theorem workers_reorder m port c ch d1 d2 :
  m.(mx_channels) !! port = Some c → m.(mx_heap) !! c = Some ch → ch.(ch_DataChan) = [] →
  m.(mx_workChan) = [] →
  ∃ p, pool_run [mkFrameIn port PktData d1; mkFrameIn port PktData d2] (pool_new m) [] p
    ∧ ∃ ch', p.(pl_mux).(mx_heap) !! c = Some ch' ∧ ch'.(ch_DataChan) = [d2; d1].
Proof.
  intros Hp Hc Hd Hw. set (f1 := mkFrameIn port PktData d1). set (f2 := mkFrameIn port PktData d2).
  set (m1 := set_work m [f1]). set (m2 := set_work m [f1; f2]). set (m3 := set_work m []).
  set (m4 := on_channel c (ch_set_data (ch.(ch_DataChan) ++ [d2])) m3). set (m5 := on_channel c (ch_set_data [d2; d1]) m4).
  assert (mx_heap m4 !! c = Some (ch_set_data [d2] ch)) as Hc4
    by (subst m4; rewrite Hd; by apply lookup_on_channel).
  exists (mkPool m5 [Free; Free; Free; Free]). split.
  - eapply pr_step; [apply (ps_arrive f1 _ m m1)|].
    { unfold readLoop_put. rewrite Hw, decide_True by (unfold workQueueSize; cbn; lia). by left. }
    eapply pr_step; [apply (ps_arrive f2 _ m1 m2)|].
    { unfold readLoop_put. rewrite decide_True by (unfold workQueueSize; cbn; lia). by left. }
    eapply pr_step; [apply ps_worker, (ws_take 0 f1 [f2]); done|].
    eapply pr_step; [apply ps_worker, (ws_take 1 f2 []); done|]. cbn.
    eapply pr_step; [apply ps_worker, (ws_run 1 0 f2 _ m4); [done|]|].
    { apply (dispatch_room 0 f2 m3 c ch); [done..|]. rewrite Hd. unfold dataQueueSize. cbn. lia. }
    eapply pr_step; [apply ps_worker, (ws_run 0 0 f1 _ m5); [done|]|apply pr_refl].
    apply (dispatch_room 0 f1 m4 c _ eq_refl Hp Hc4). unfold dataQueueSize. cbn. lia.
  - eexists. split; [by apply lookup_on_channel|done].
Qed.

(** ** Concrete runs *)


(** A schedule: the next frame arrives, worker [i] takes a frame, or
    dispatches the one it holds. *)
Inductive Sched := Arrive | Take (i : nat) | Run (i : nat).

Definition sched_step (o : Sched) (fp : list frameIn * Pool) : option (list frameIn * Pool) :=
  let '(fs, mkPool m ws) := fp in
  match o with
  | Arrive => match fs with
              | f :: fs' => m' ← head (readLoop_put f m); Some (fs', mkPool m' ws)
              | [] => None
              end
  | Take i => match ws !! i, m.(mx_workChan) with
              | Some Free, f :: rest => Some (fs, mkPool (set_work m rest) (<[i := Busy f]> ws))
              | _, _ => None
              end
  | Run i => match ws !! i with
             | Some (Busy f) => m' ← head (dispatch 0 f m); Some (fs, mkPool m' (<[i := Free]> ws))
             | _ => None
             end
  end.

Fixpoint sched_run (os : list Sched) (fp : list frameIn * Pool) : option (list frameIn * Pool) :=
  match os with
  | [] => Some fp
  | o :: os' => sched_step o fp ≫= sched_run os'
  end.

Lemma head_elem {A} (l : list A) x : head l = Some x → x ∈ l.
Proof. destruct l; intros [= ->]. by left. Qed.

Lemma sched_run_sound os fs p fs' p' :
  sched_run os (fs, p) = Some (fs', p') → pool_run fs p fs' p'.
Proof.
  revert fs p. induction os as [|o os IH]; intros fs [m ws]; cbn [sched_run].
  { intros [= <- <-]. apply pr_refl. }
  destruct (sched_step o (fs, mkPool m ws)) as [[fs1 p1]|] eqn:E; cbn [mbind option_bind]; [|done].
  intros Hr. eapply pr_step; [|by apply IH]. clear IH Hr. destruct o as [|i|i]; cbn in E.
  - destruct fs as [|f fs0]; [done|]. destruct (head (readLoop_put f m)) as [m'|] eqn:Eh; [|done].
    injection E as <- <-. by apply ps_arrive, head_elem.
  - destruct (ws !! i) as [[]|] eqn:Ei; [|done..]. destruct (mx_workChan m) eqn:Ew; [done|].
    injection E as <- <-. apply ps_worker. by eapply ws_take.
  - destruct (ws !! i) as [[|f|]|] eqn:Ei; [done| |done..].
    destruct (head (dispatch 0 f m)) as [m'|] eqn:Eh; [|done].
    injection E as <- <-. apply ps_worker. eapply ws_run; [done|by apply head_elem].
Qed.

Definition mux_80_81 : Multiplexer := snd (OpenChannel 81 0 mux_80).
Definition byte_frame : frameIn := mkFrameIn 80 PktData ["a"%char].
Definition update_81 : frameIn := mkFrameIn 81 PktWindowUpdate (be_encode 4 1000).

(** 36 one-byte messages for port 80, then credit for port 81. *)
Definition flood : list frameIn := replicate 36 byte_frame ++ [update_81].
Definition flood_schedule : list Sched :=
  mjoin (replicate 32 [Arrive; Take 0; Run 0])
  ++ [Arrive; Arrive; Arrive; Arrive; Arrive; Take 0; Take 1; Take 2; Take 3].
Definition flooded : Pool :=
  default (pool_new mux_80_81) (snd <$> sched_run flood_schedule (flood, pool_new mux_80_81)).

Lemma unread_channel_stalls_witness :
  pool_run flood (pool_new mux_80_81) [] flooded
  ∧ flooded.(pl_mux).(mx_workChan) = [update_81] ∧ ∀ p', ¬ worker_step flooded p'.
Proof.
  split; [|split].
  - apply (sched_run_sound flood_schedule). vm_compute. reflexivity.
  - vm_compute. reflexivity.
  - assert (flooded.(pl_workers) = replicate 4 (Busy byte_frame)) as Hws by (vm_compute; reflexivity).
    assert (flooded.(pl_mux).(mx_channels) !! 80%Z = Some 0) as H80 by (vm_compute; reflexivity).
    assert (∀ p, p = mkPool p.(pl_mux) p.(pl_workers)) as Heta by by intros [].
    rewrite (Heta flooded).
    apply (unread_channel_stalls _ _ 0 (default (newChannel 80 0) (mx_heap (pl_mux flooded) !! 0))).
    + vm_compute. reflexivity.
    + vm_compute. reflexivity.
    + apply Nat.leb_le. vm_compute. reflexivity.
    + rewrite Hws. repeat constructor; exact H80.
Defined.

Lemma workers_reorder_witness :
  let d1 := list_ascii_of_string "hello" in
  let d2 := list_ascii_of_string "bye" in
  ∃ p, pool_run [mkFrameIn 80 PktData d1; mkFrameIn 80 PktData d2] (pool_new mux_80) [] p
    ∧ ∃ ch', p.(pl_mux).(mx_heap) !! 0 = Some ch' ∧ ch'.(ch_DataChan) = [d2; d1].
Proof.
  intros d1 d2. apply (workers_reorder mux_80 80 0 (newChannel 80 0)); reflexivity.
Defined.
