(* ===== verification/Bridge.v ===== *)
(** * Local connections on the channels of a multiplexer (common/mux/mux.go, handler/relay.go)

    The two ends of a relay between clients, over the multiplexer of Mux and
    the steps of its goroutines.  The target runs [HandleChannel] for every
    channel its peer opens: it dials the local service and copies both ways.
    The source accepts local connections, calls [OpenChannel] for each of
    them with the port of the relay, and runs [bridgeChannel].  The steps
    interleave the local peers, the goroutines and those of the multiplexer. *)

From S2P Require Import Prelude Proto Mux MuxWire MuxFlow.

(** [Closing]: [io.Copy] of [HandleChannel] has returned, the call of
    [CloseChannel] after it has not.  The flag tells whether it returned at
    the end of its source or for an error. *)
Inductive phase := Copying | Holding (chunk : bytes) | Closing (complete : bool) | Ended (complete : bool).

Record Bridged := mkBridged {
  bd_chan : nat;
  (* what the local peer sent, whether it has finished, what was read of it *)
  bd_arrived : bytes;
  bd_ended : bool;
  bd_nread : nat;
  bd_up : phase;
  bd_down : phase;
  (* what was written to the local peer, whether it knows of the end *)
  bd_out : bytes;
  bd_told : bool;
  bd_gone : bool;
}.

(** [bs_put], [bs_taken] and [bs_sent] are the history: the messages put on
    each channel, what each connection read from its channel, and what it
    handed to the channel of which port. *)
Record System := mkSystem {
  bs_mux : Multiplexer;
  bs_conns : list Bridged;
  bs_handled : list nat;
  bs_trace : list label;
  bs_put : nat → bytes;
  bs_taken : list (nat * nat * bytes);
  bs_sent : list (nat * Z * bytes);
}.

Definition new_bridged (c : nat) : Bridged := mkBridged c [] false 0 Copying Copying [] false false.
Definition new_system (m : Multiplexer) : System := mkSystem m [] [] [] (λ _, []) [] [].

Definition local_sends (l : bytes) (b : Bridged) : Bridged :=
  mkBridged b.(bd_chan) (b.(bd_arrived) ++ l) b.(bd_ended) b.(bd_nread) b.(bd_up) b.(bd_down) b.(bd_out) b.(bd_told) b.(bd_gone).
Definition local_ends (b : Bridged) : Bridged :=
  mkBridged b.(bd_chan) b.(bd_arrived) true b.(bd_nread) b.(bd_up) b.(bd_down) b.(bd_out) b.(bd_told) b.(bd_gone).
Definition up_to (ph : phase) (b : Bridged) : Bridged :=
  mkBridged b.(bd_chan) b.(bd_arrived) b.(bd_ended) b.(bd_nread) ph b.(bd_down) b.(bd_out) b.(bd_told) b.(bd_gone).
Definition up_read (chunk : bytes) (b : Bridged) : Bridged :=
  mkBridged b.(bd_chan) b.(bd_arrived) b.(bd_ended) (b.(bd_nread) + length chunk) (Holding chunk) b.(bd_down) b.(bd_out) b.(bd_told) b.(bd_gone).
Definition down_to (ph : phase) (b : Bridged) : Bridged :=
  mkBridged b.(bd_chan) b.(bd_arrived) b.(bd_ended) b.(bd_nread) b.(bd_up) ph b.(bd_out) b.(bd_told) b.(bd_gone).
Definition down_wrote (chunk : bytes) (ph : phase) (b : Bridged) : Bridged :=
  mkBridged b.(bd_chan) b.(bd_arrived) b.(bd_ended) b.(bd_nread) b.(bd_up) ph (b.(bd_out) ++ chunk) b.(bd_told) b.(bd_gone).
(** [CloseWrite] *)
Definition tell (b : Bridged) : Bridged :=
  mkBridged b.(bd_chan) b.(bd_arrived) b.(bd_ended) b.(bd_nread) b.(bd_up) b.(bd_down) b.(bd_out) true b.(bd_gone).
Definition close_local (b : Bridged) : Bridged :=
  mkBridged b.(bd_chan) b.(bd_arrived) b.(bd_ended) b.(bd_nread) b.(bd_up) b.(bd_down) b.(bd_out) b.(bd_told) true.

Definition channel_at (c : nat) (m : Multiplexer) : Channel := default (newChannel 0 0) (m.(mx_heap) !! c).
Definition port_of (c : nat) (m : Multiplexer) : Z := (channel_at c m).(ch_Port).
(** What a reader of the channel would get now. *)
Definition waiting (c : nat) (m : Multiplexer) : bytes := (channel_at c m).(ch_reader) ++ concat (channel_at c m).(ch_DataChan).

(** The steps of the goroutines of the multiplexer itself. *)
Inductive machine_step : Multiplexer → label → Multiplexer → Prop :=
| ms_opened m port m' :
    is_uint16 port → m' ∈ enqueueCtrl port PktOpen m → machine_step m LTau m'
| ms_ctrl m cf rest :
    m.(mx_ctrlChan) = cf :: rest →
    machine_step m (down_label cf.(cf_ptype) cf.(cf_port)) (fst (writeLoop_ctrl cf (set_ctrl m rest)))
| ms_idle m timer m' st : (m', st) ∈ writeLoop_idle timer m → machine_step m LTau m'
| ms_data m port c : m.(mx_channels) !! port = Some c → machine_step m LTau (write_one c m)
| ms_dispatch m now f m' :
    is_uint16 f.(fi_port) → m' ∈ dispatch now f m → machine_step m (down_label f.(fi_ptype) f.(fi_port)) m'
| ms_exit m : machine_step m LTau (readLoop_exit m)
| ms_close m : machine_step m LTau (Close m).

Section system.
(** Which end of the relay, and its [sourcePort]. *)
Context (target : bool) (sourcePort : Z).
Implicit Types s : System.

Definition relay_port : Z := sourcePort `mod` 65536.
Definition after_up (complete : bool) : phase := if target then Closing complete else Ended complete.
Definition after_down (b : Bridged) : Bridged := if target then tell b else b.

Definition on_bridged (i : nat) (f : Bridged → Bridged) s : System :=
  mkSystem s.(bs_mux) (alter f i s.(bs_conns)) s.(bs_handled) s.(bs_trace) s.(bs_put) s.(bs_taken) s.(bs_sent).
Definition mux_did (l : label) (m : Multiplexer) s : System :=
  mkSystem m s.(bs_conns) s.(bs_handled) (s.(bs_trace) ++ [l]) s.(bs_put) s.(bs_taken) s.(bs_sent).
Definition add_bridged (c : nat) s : System :=
  mkSystem s.(bs_mux) (s.(bs_conns) ++ [new_bridged c]) s.(bs_handled) s.(bs_trace) s.(bs_put) s.(bs_taken) s.(bs_sent).
Definition handle (c : nat) s : System :=
  mkSystem s.(bs_mux) s.(bs_conns) (s.(bs_handled) ++ [c]) s.(bs_trace) s.(bs_put) s.(bs_taken) s.(bs_sent).
Definition took (i c : nat) (d : bytes) s : System :=
  mkSystem s.(bs_mux) s.(bs_conns) s.(bs_handled) s.(bs_trace) s.(bs_put) (s.(bs_taken) ++ [(i, c, d)]) s.(bs_sent).
Definition sent (i : nat) (port : Z) (d : bytes) s : System :=
  mkSystem s.(bs_mux) s.(bs_conns) s.(bs_handled) s.(bs_trace) s.(bs_put) s.(bs_taken) (s.(bs_sent) ++ [(i, port, d)]).
(** The messages [m] has on a channel beyond those of the state. *)
Definition put_new (m : Multiplexer) s : System :=
  mkSystem s.(bs_mux) s.(bs_conns) s.(bs_handled) s.(bs_trace)
    (λ c, s.(bs_put) c ++ concat (drop (length (channel_at c s.(bs_mux)).(ch_DataChan)) (channel_at c m).(ch_DataChan)))
    s.(bs_taken) s.(bs_sent).

Inductive sys_step s : System → Prop :=
(* the local peer *)
| BLocalSends i b l :
    s.(bs_conns) !! i = Some b → b.(bd_ended) = false → sys_step s (on_bridged i (local_sends l) s)
| BLocalEnds i b : s.(bs_conns) !! i = Some b → sys_step s (on_bridged i local_ends s)
(* the loop of the source *)
| BAccept now c isnew m' :
    target = false → OpenChannel relay_port now s.(bs_mux) = (Ok (c, isnew), m') →
    sys_step s (add_bridged c (mux_did LTau m' s))
(* [HandleChannel] of the target, which [dispatchData] starts *)
| BDial c :
    target = true → c ∈ s.(bs_mux).(mx_started) → c ∉ s.(bs_handled) → sys_step s (add_bridged c (handle c s))
| BDialFails c m' :
    target = true → c ∈ s.(bs_mux).(mx_started) → c ∉ s.(bs_handled) →
    m' ∈ CloseChannel (port_of c s.(bs_mux)) s.(bs_mux) → sys_step s (handle c (mux_did LTau m' s))
(* local to channel *)
| BUpRead i b chunk rest :
    s.(bs_conns) !! i = Some b → b.(bd_up) = Copying → drop b.(bd_nread) b.(bd_arrived) = chunk ++ rest →
    chunk ≠ [] → length chunk ≤ io_copy_buf → sys_step s (on_bridged i (up_read chunk) s)
| BUpWrite i b chunk n m' :
    s.(bs_conns) !! i = Some b → b.(bd_up) = Holding chunk → (Ok n, m') ∈ Write b.(bd_chan) chunk s.(bs_mux) →
    sys_step s (on_bridged i (up_to Copying) (sent i (port_of b.(bd_chan) s.(bs_mux)) chunk
      (mux_did (LSend (port_of b.(bd_chan) s.(bs_mux)) chunk) m' s)))
| BUpRefused i b chunk e m' :
    s.(bs_conns) !! i = Some b → b.(bd_up) = Holding chunk → (Err e, m') ∈ Write b.(bd_chan) chunk s.(bs_mux) →
    sys_step s (on_bridged i (up_to (after_up false)) (mux_did LTau m' s))
| BUpEnd i b :
    s.(bs_conns) !! i = Some b → b.(bd_up) = Copying → b.(bd_nread) = length b.(bd_arrived) → b.(bd_ended) = true →
    sys_step s (on_bridged i (up_to (after_up true)) s)
| BUpFails i b :
    s.(bs_conns) !! i = Some b → b.(bd_up) = Copying → sys_step s (on_bridged i (up_to (after_up false)) s)
| BUpClose i b e m' :
    s.(bs_conns) !! i = Some b → b.(bd_up) = Closing e → m' ∈ CloseChannel (port_of b.(bd_chan) s.(bs_mux)) s.(bs_mux) →
    sys_step s (on_bridged i (up_to (Ended e)) (mux_did LTau m' s))
(* channel to local *)
| BDownRead i b now d m' :
    s.(bs_conns) !! i = Some b → b.(bd_down) = Copying → Read b.(bd_chan) io_copy_buf now s.(bs_mux) = Some (Some d, m') →
    sys_step s (on_bridged i (down_to (Holding d)) (took i b.(bd_chan) d (mux_did LTau m' s)))
| BDownEnd i b now m' :
    s.(bs_conns) !! i = Some b → b.(bd_down) = Copying → Read b.(bd_chan) io_copy_buf now s.(bs_mux) = Some (None, m') →
    sys_step s (on_bridged i (after_down ∘ down_to (Ended true)) (mux_did LTau m' s))
| BDownWrite i b d :
    s.(bs_conns) !! i = Some b → b.(bd_down) = Holding d → sys_step s (on_bridged i (down_wrote d Copying) s)
| BDownFails i b d n :
    s.(bs_conns) !! i = Some b → b.(bd_down) = Holding d →
    sys_step s (on_bridged i (after_down ∘ down_wrote (take n d) (Ended false)) s)
(* both have returned *)
| BFinish i b e e' m' :
    s.(bs_conns) !! i = Some b → b.(bd_up) = Ended e → b.(bd_down) = Ended e' → b.(bd_gone) = false →
    m' ∈ CloseChannel (port_of b.(bd_chan) s.(bs_mux)) s.(bs_mux) →
    sys_step s (on_bridged i close_local (mux_did LTau m' s))
(* the multiplexer *)
| BMachine l m' :
    machine_step s.(bs_mux) l m' → sys_step s (mux_did l m' (put_new m' s)).

Definition sys_reach : System → System → Prop := rtc sys_step.
End system.

(** ** What the operations do to the messages that wait *)

(** A channel of the map is open. *)
Definition map_open (m : Multiplexer) : Prop :=
  ∀ p c, m.(mx_channels) !! p = Some c → (channel_at c m).(ch_CloseChan) = false.

(** [still]: nothing is put on a channel and nothing taken; [grows]: messages
    are put on open channels. *)
Definition still_ch (a b : Channel) : Prop :=
  b.(ch_reader) = a.(ch_reader) ∧ b.(ch_DataChan) = a.(ch_DataChan) ∧
  (a.(ch_CloseChan) = true → b.(ch_CloseChan) = true).
Definition grows_ch (a b : Channel) : Prop :=
  b.(ch_reader) = a.(ch_reader) ∧
  (∃ ds, b.(ch_DataChan) = a.(ch_DataChan) ++ ds ∧ (a.(ch_CloseChan) = true → ds = [])) ∧
  (a.(ch_CloseChan) = true → b.(ch_CloseChan) = true).
Definition still (m m' : Multiplexer) : Prop :=
  mux_ok m → map_open m → map_open m' ∧ ∀ c, still_ch (channel_at c m) (channel_at c m').
Definition grows (m m' : Multiplexer) : Prop :=
  mux_ok m → map_open m → map_open m' ∧ ∀ c, grows_ch (channel_at c m) (channel_at c m').

Lemma still_grows m m' : still m m' → grows m m'.
Proof.
  intros H Hok Ho. destruct (H Hok Ho) as [Ho' Hc]. split; [done|]. intros c. destruct (Hc c) as (Hr & Hd & Hcl).
  split_and!; [done| |done]. exists []. by rewrite app_nil_r.
Qed.
Lemma still_same m m' : m'.(mx_heap) = m.(mx_heap) → m'.(mx_channels) = m.(mx_channels) → still m m'.
Proof.
  intros Hh Hm Hok Ho. unfold map_open, channel_at. rewrite Hh, Hm. split; [exact Ho|]. by intros c.
Qed.
Lemma still_refl m : still m m.
Proof. by apply still_same. Qed.
Lemma still_trans a b c : still a b → (mux_ok a → mux_ok b) → still b c → still a c.
Proof.
  intros H1 Hok H2 Ha Ho. destruct (H1 Ha Ho) as [Hb H3]. destruct (H2 (Hok Ha) Hb) as [Hc H4]. split; [done|].
  intros k. unfold still_ch. destruct (H4 k) as (-> & -> & ?), (H3 k) as (-> & -> & ?). split_and!; naive_solver.
Qed.
Lemma still_grows_trans a b c : still a b → (mux_ok a → mux_ok b) → grows b c → grows a c.
Proof.
  intros H1 Hok H2 Ha Ho. destruct (H1 Ha Ho) as [Hb H3]. destruct (H2 (Hok Ha) Hb) as [Hc H4]. split; [done|].
  intros k. unfold grows_ch. destruct (H4 k) as (-> & (ds & -> & ?) & ?), (H3 k) as (-> & -> & ?). split_and!; [done| |auto].
  exists ds. naive_solver.
Qed.

Lemma channel_at_on_channel c c' f m :
  channel_at c' (on_channel c f m) =
    if decide (c = c') then default (newChannel 0 0) (f <$> m.(mx_heap) !! c) else channel_at c' m.
Proof.
  unfold channel_at, on_channel, set_heap. cbn [mx_heap]. case_decide as Hc; [subst|by rewrite list_lookup_alter_ne].
  by rewrite list_lookup_alter_eq.
Qed.

Lemma still_on_channel c f m : (∀ ch, still_ch ch (f ch) ∧ (f ch).(ch_CloseChan) = ch.(ch_CloseChan)) → still m (on_channel c f m).
Proof.
  intros Hf Hok Ho.
  assert (H : ∀ k, still_ch (channel_at k m) (channel_at k (on_channel c f m)) ∧
    (channel_at k (on_channel c f m)).(ch_CloseChan) = (channel_at k m).(ch_CloseChan)).
  { intros k. rewrite channel_at_on_channel. case_decide as Hc; [subst|by split]. unfold channel_at.
    destruct (mx_heap m !! k) as [ch|]; cbn; [apply Hf|by split]. }
  split; [|intros k; apply H]. intros p k Hp. rewrite (proj2 (H k)). by eapply Ho.
Qed.

Lemma channel_at_add port now m c :
  channel_at c (add_channel port now m) = if decide (c = length m.(mx_heap)) then newChannel port now else channel_at c m.
Proof.
  unfold channel_at, add_channel. cbn [set_channels set_heap mx_heap]. case_decide as Hc; [subst; by rewrite list_lookup_middle|].
  destruct (decide (c < length m.(mx_heap))) as [Hl|Hl]; [by rewrite lookup_app_l|].
  rewrite !lookup_ge_None_2; [done|lia|rewrite length_app; cbn; lia].
Qed.

Lemma still_add_channel port now m : still m (add_channel port now m).
Proof.
  intros Hok Ho. split.
  - intros p c. cbn [add_channel set_channels mx_channels]. rewrite lookup_insert_Some, channel_at_add. intros [[_ <-]|[_ Hp]];
      [by rewrite decide_True|]. case_decide; [done|]. by eapply Ho.
  - intros c. rewrite channel_at_add. case_decide as Hc; [|done]. subst c. unfold channel_at.
    by rewrite (lookup_ge_None_2 (mx_heap m)).
Qed.

Lemma still_enqueueCtrl port ptype m m' : m' ∈ enqueueCtrl port ptype m → still m m'.
Proof.
  unfold enqueueCtrl. repeat case_match; rewrite ?list_elem_of_singleton, ?elem_of_nil; try done; intros ->;
    [apply still_refl|by apply still_same].
Qed.

Lemma still_Send port d m r m' : (r, m') ∈ Send port d m → still m m'.
Proof.
  unfold Send, send_window. destruct (mx_closed m); [rewrite list_elem_of_singleton; intros [= -> ->]; apply still_refl|].
  destruct (mx_channels m !! port) as [c|]; [|rewrite list_elem_of_singleton; intros [= -> ->]; apply still_refl].
  destruct (mx_heap m !! c) as [ch|]; [|by rewrite elem_of_nil]. case_match.
  - rewrite elem_of_app. intros [Hin|Hin]; repeat case_match; rewrite ?list_elem_of_singleton, ?elem_of_nil in Hin; simplify_eq; try done; apply still_refl.
  - set (m1 := on_channel c _ m). assert (H1 : still m m1) by by apply still_on_channel.
    unfold enqueueFrame. destruct (mx_heap m1 !! c) as [ch1|]; [|by rewrite elem_of_nil]. rewrite !elem_of_app.
    intros [Hin|[Hin|Hin]]; repeat case_match; rewrite ?list_elem_of_singleton, ?elem_of_nil in Hin; simplify_eq; try done.
    intros Hok Ho. destruct (H1 Hok Ho) as [Ho1 Hc1]. unfold notifyWrite.
    set (g := ch_set_queue _).
    assert (H2 : map_open (on_channel c g m1) ∧ ∀ k, still_ch (channel_at k m1) (channel_at k (on_channel c g m1))).
    { apply still_on_channel; [done| |done]. by apply on_channel_ok. }
    split; [exact (proj1 H2)|]. intros k. destruct (Hc1 k) as (? & ? & ?), (proj2 H2 k) as (? & ? & ?). split_and!; [by etrans|by etrans|auto].
Qed.

Lemma still_same_chans m m' : same_chans m m' → still m m'.
Proof. intros (Hh & Hc & _). by apply still_same. Qed.
Lemma conn_Write_same buf m : same_chans m (conn_Write buf m).2.
Proof. unfold conn_Write. by destruct (write_loop (mx_writes m) buf) as [[out e] ws]. Qed.
Lemma writeCtrl_same port ptype m : same_chans m (writeCtrl port ptype m).2.
Proof. unfold writeCtrl. case_match; [done|apply conn_Write_same]. Qed.
Lemma write_or_close_same m r : same_chans m r.2 → same_chans m (write_or_close r).1.
Proof. by destruct r as [[e|] m1]. Qed.

Lemma still_SendWindowUpdate port now n m : still m (SendWindowUpdate port now n m).2.
Proof.
  unfold SendWindowUpdate. destruct (mx_closed m); [apply still_refl|].
  destruct (mx_channels m !! port) as [c|]; [|apply still_refl]. destruct (mx_heap m !! c) as [ch|] eqn:Hc; [|apply still_refl].
  destruct (accumulate now n ch) as [ch' credit] eqn:Ha.
  assert (Hs : still_ch ch ch' ∧ ch_CloseChan ch' = ch_CloseChan ch).
  { unfold accumulate in Ha. by case_match; simplify_eq. }
  assert (H1 : still m (on_channel c (λ _, ch') m)).
  { intros Hok Ho. assert (H : ∀ k, still_ch (channel_at k m) (channel_at k (on_channel c (λ _, ch') m)) ∧
      ch_CloseChan (channel_at k (on_channel c (λ _, ch') m)) = ch_CloseChan (channel_at k m)).
    { intros k. rewrite channel_at_on_channel. case_decide as Hk; [subst k|by split]. unfold channel_at. by rewrite Hc. }
    split; [|intros k; apply H]. intros p k Hp. rewrite (proj2 (H k)). by eapply Ho. }
  destruct credit as [p|]; [|done]. unfold writeWindowUpdate. set (buf := frame_header _ _ _ ++ _).
  intros Hok Ho. destruct (H1 Hok Ho) as [Ho1 Hc1]. destruct (conn_Write_same buf (on_channel c (λ _, ch') m)) as (Hh & Hm & _).
  unfold map_open, channel_at in *. rewrite Hh, Hm. by split.
Qed.

(** The channel of the port leaves the map, and is the only one closed. *)
Lemma grows_closeChannelLocal port m : grows m (closeChannelLocal port m).
Proof.
  intros Hok Ho. unfold closeChannelLocal. destruct (mx_channels m !! port) as [c|] eqn:Hp; [|by apply still_grows].
  set (f := λ ch, _). set (m1 := set_channels m _).
  assert (Hat : ∀ k, channel_at k (on_channel c f m1) = if decide (c = k) then default (newChannel 0 0) (f <$> m.(mx_heap) !! c) else channel_at k m).
  { intros k. by rewrite channel_at_on_channel. }
  destruct (ok_map m Hok port c Hp) as (ch & Hch & Hport). rewrite Hch in Hat. cbn [fmap option_fmap option_map default from_option id] in Hat. split.
  - intros p k Hk. cbn in Hk. apply lookup_delete_Some in Hk as [Hne Hk]. rewrite Hat.
    case_decide as Hck; [subst k|by eapply Ho]. destruct (ok_map m Hok p c Hk) as (ch' & Hch' & Hport'). simplify_eq.
  - intros k. rewrite Hat. case_decide as Hck; [subst k|by apply still_grows].
    unfold channel_at. rewrite Hch. cbn [default from_option id]. subst f. cbn beta. destruct (ch_CloseChan ch) eqn:Hcl.
    + split_and!; [done| |done]. exists []. by rewrite app_nil_r.
    + split_and!; [done| |by rewrite Hcl]. exists []. by rewrite app_nil_r.
Qed.

Lemma grows_readLoop_exit m : grows m (readLoop_exit m).
Proof.
  intros Hok Ho. split; [intros p c; cbn; by rewrite lookup_empty|]. unfold readLoop_exit, Close, set_closed, set_channels.
  set (m1 := map_fold _ _ _).
  assert (H : ∀ k, channel_at k m1 = channel_at k m ∨ channel_at k m1 = ch_set_close (channel_at k m)).
  { unfold m1. apply (map_fold_weak_ind (λ m1 _, ∀ k, channel_at k m1 = channel_at k m ∨ channel_at k m1 = ch_set_close (channel_at k m)));
      [by left|]. intros p c g r _ IH k. rewrite channel_at_on_channel. case_decide as Hc; [subst k|apply IH].
    unfold channel_at in *. specialize (IH c). destruct (mx_heap r !! c) as [ch|]; cbn [fmap option_fmap option_map default from_option id] in *.
    - right. by destruct IH as [-> | ->].
    - destruct IH as [IH|IH]; [by left|right]. done. }
  intros k. change (channel_at k _) with (channel_at k m1) at 2.
  destruct (H k) as [-> | ->]; split_and!; try done; exists []; by rewrite app_nil_r.
Qed.

Lemma grows_put_data c data m m' :
  (∃ p, m.(mx_channels) !! p = Some c) → m' ∈ put_data c data m → grows m m'.
Proof.
  intros [p Hp] Hin Hok Ho. unfold put_data in Hin. destruct (mx_heap m !! c) as [ch|] eqn:Hc; [|by apply elem_of_nil in Hin].
  case_decide; [|by apply elem_of_nil in Hin]. apply list_elem_of_singleton in Hin as ->. set (f := ch_set_data _).
  assert (Hcl : ch_CloseChan ch = false) by by (pose proof (Ho p c Hp) as H'; unfold channel_at in H'; rewrite Hc in H').
  assert (Hat : ∀ k, channel_at k (on_channel c f m) = if decide (c = k) then f ch else channel_at k m).
  { intros k. rewrite channel_at_on_channel. by rewrite Hc. }
  split.
  - intros q k Hk. rewrite Hat. case_decide; [done|]. by eapply Ho.
  - intros k. rewrite Hat. case_decide as Hck; [subst k|by apply still_grows].
    unfold channel_at. rewrite Hc. cbn. split_and!; [done| |by rewrite Hcl]. exists [data]. split; [done|]. by rewrite Hcl.
Qed.

Lemma grows_dispatchData port now data m m' : is_uint16 port → m' ∈ dispatchData port now data m → grows m m'.
Proof.
  intros Hu. unfold dispatchData. destruct (mx_channels m !! port) as [c|] eqn:Hp.
  - rewrite elem_of_app. intros [Hin|Hin]; [by eapply grows_put_data; eauto|].
    case_match; [|by apply elem_of_nil in Hin]. apply list_elem_of_singleton in Hin as ->. apply still_grows, still_refl.
  - destruct (negb (mx_OnNewChannel m)); [intros ->%list_elem_of_singleton; apply still_grows, still_refl|].
    fold (add_channel port now m). set (m2 := set_started _ _). intros Hin.
    assert (H1 : still m m2).
    { apply (still_trans _ (add_channel port now m)); [apply still_add_channel|by apply add_channel_ok|by apply still_same]. }
    apply (still_grows_trans _ m2); [done| |].
    { intros Hok. apply (mux_ok_same (add_channel port now m)); [done|by apply add_channel_ok]. }
    apply elem_of_app in Hin as [Hin|Hin].
    + eapply grows_put_data; [|done]. exists port. cbn. by rewrite lookup_insert_eq.
    + case_match; [|by apply elem_of_nil in Hin]. apply list_elem_of_singleton in Hin as ->. apply still_grows, still_refl.
Qed.

Lemma still_handleWindowUpdate port d m : still m (handleWindowUpdate port d m).
Proof.
  unfold handleWindowUpdate. case_decide; [apply still_refl|]. destruct (mx_channels m !! port); [by apply still_on_channel|apply still_refl].
Qed.

Lemma grows_dispatch now f m m' : is_uint16 f.(fi_port) → m' ∈ dispatch now f m → grows m m'.
Proof.
  intros Hu. unfold dispatch. repeat case_decide; rewrite ?list_elem_of_singleton; [by apply grows_dispatchData|intros ->..].
  - apply grows_closeChannelLocal.
  - apply still_grows, still_handleWindowUpdate.
  - apply still_grows, still_refl.
Qed.

Lemma still_write_one m port c : m.(mx_channels) !! port = Some c → still m (write_one c m).
Proof.
  intros Hp Hok Ho. unfold write_one. destruct (mx_heap m !! c) as [ch|] eqn:Hc; [|by apply still_refl].
  destruct (ch_sendQueue ch) as [|f q] eqn:Hq; [by apply still_refl|].
  destruct (pop_ok c m port ch f q Hok Hp Hc Hq) as (Hok1 & _ & _ & Hfd & _ & _). set (m1 := on_channel c _ m) in *.
  destruct (write_out f m1) as [e m2] eqn:E. pose proof (write_out_chans _ _ _ _ Hfd E) as Hs.
  assert (H1 : still m m1) by by apply still_on_channel. revert Hok Ho. apply (still_trans _ m1); [done|by intros _|].
  apply still_same_chans, write_or_close_same, Hs.
Qed.

Lemma grows_writeLoop_ctrl cf rest m :
  m.(mx_ctrlChan) = cf :: rest → grows m (writeLoop_ctrl cf (set_ctrl m rest)).1.
Proof.
  intros Hm Hok Ho. pose proof (set_ctrl_ok _ _ _ Hm Hok) as (Hok1 & _). unfold writeLoop_ctrl.
  pose proof (writeCtrl_same cf.(cf_port) cf.(cf_ptype) (set_ctrl m rest)) as Hs. apply write_or_close_same in Hs.
  destruct (write_or_close _) as [m1 []]; cbn [fst] in Hs.
  2,3: revert Hok Ho; apply still_grows, still_same; apply Hs.
  revert Hok Ho. apply (still_grows_trans _ m1).
  - apply still_same; apply Hs.
  - intros _. by eapply mux_ok_same.
  - cbn [fst]. case_decide; [apply grows_closeChannelLocal|apply still_grows, still_refl].
Qed.

Lemma still_idle timer m m' st : (m', st) ∈ writeLoop_idle timer m → still m m'.
Proof.
  unfold writeLoop_idle. rewrite !elem_of_app. intros [Hin|[Hin|[Hin|Hin]]].
  - destruct (mx_writeNotify m); [|by apply elem_of_nil in Hin]. apply list_elem_of_singleton in Hin as [= -> ->]. by apply still_same.
  - destruct (mx_ctrlChan m) as [|cf rest]; [by apply elem_of_nil in Hin|]. apply list_elem_of_singleton in Hin.
    pose proof (write_or_close_same _ _ (writeCtrl_same cf.(cf_port) cf.(cf_ptype) (set_ctrl m rest))) as Hs.
    rewrite <-Hin in Hs. apply still_same; apply Hs.
  - destruct (mx_closed m); [|by apply elem_of_nil in Hin]. apply list_elem_of_singleton in Hin as [= -> ->]. apply still_refl.
  - destruct timer; [|by apply elem_of_nil in Hin]. apply list_elem_of_singleton in Hin as [= -> ->]. apply still_refl.
Qed.

Lemma machine_step_grows m l m' : machine_step m l m' → grows m m'.
Proof.
  destruct 1 as [m port m' Hu Hin|m cf rest Hm|m timer m' st Hin|m port c Hp|m now f m' Hu Hin|m|m].
  - by eapply still_grows, still_enqueueCtrl.
  - by apply grows_writeLoop_ctrl.
  - by eapply still_grows, still_idle.
  - by eapply still_grows, still_write_one.
  - by eapply grows_dispatch.
  - apply grows_readLoop_exit.
  - by apply still_grows, still_same.
Qed.

Lemma machine_mux_step m l m' : machine_step m l m' → mux_step m l m'.
Proof.
  destruct 1 as [m port m' Hu Hin| | | | | | ]; [by apply (step_enqueue m port PktOpen m' Hu (or_introl eq_refl))|by apply step_ctrl|by eapply step_idle|by eapply step_data|by eapply step_dispatch|apply step_exit|apply step_close].
Qed.

(** A read takes the first bytes that wait, or finds the channel closed with
    none. *)
Lemma ch_Read_waiting plen ch out ch' credit :
  ch_Read plen ch = Some (out, ch', credit) →
  ch'.(ch_CloseChan) = ch.(ch_CloseChan) ∧
  match out with
  | Some d => ch.(ch_reader) ++ concat ch.(ch_DataChan) = d ++ ch'.(ch_reader) ++ concat ch'.(ch_DataChan)
  | None => ch' = ch ∧ ch.(ch_CloseChan) = true ∧ ch.(ch_reader) = [] ∧ ch.(ch_DataChan) = []
  end.
Proof.
  unfold ch_Read, ReceiveBlocking. intros H.
  destruct (decide (ch_reader ch ≠ [])) as [Hr|Hr]; [|apply dec_stable in Hr].
  - simplify_eq. cbn. split; [done|]. by rewrite app_assoc, take_drop.
  - rewrite Hr. destruct (ch_DataChan ch) as [|d l] eqn:Hd; [destruct (ch_CloseChan ch) eqn:Hc; by simplify_eq|].
    case_decide; simplify_eq; cbn; (split; [done|]).
    + by rewrite app_assoc, take_drop.
    + by rewrite Hr.
Qed.

Lemma Read_waiting c plen now m out m' :
  Read c plen now m = Some (out, m') → mux_ok m → map_open m →
  map_open m' ∧ (∀ k, k ≠ c → still_ch (channel_at k m) (channel_at k m')) ∧
  ((channel_at c m).(ch_CloseChan) = true → (channel_at c m').(ch_CloseChan) = true) ∧
  match out with
  | Some d => waiting c m = d ++ waiting c m'
  | None => waiting c m' = [] ∧ waiting c m = [] ∧ (channel_at c m').(ch_CloseChan) = true
  end.
Proof.
  unfold Read. destruct (mx_heap m !! c) as [ch|] eqn:Hc; cbn; [|done].
  destruct (ch_Read plen ch) as [[[o ch'] credit]|] eqn:E; cbn; [|done]. intros [= -> <-] Hok Ho.
  pose proof (ch_Read_fields _ _ _ _ _ E) as [Hq Hpt]. apply ch_Read_waiting in E as [Hcl Hw].
  set (m1 := on_channel c (λ _, ch') m).
  assert (Hat : ∀ k, channel_at k m1 = if decide (c = k) then ch' else channel_at k m).
  { intros k. unfold m1. rewrite channel_at_on_channel. by rewrite Hc. }
  assert (Hok1 : mux_ok m1) by by apply (proj1 (quiet_set_channel c ch ch' m Hc Hq Hpt)).
  assert (Hchm : channel_at c m = ch) by (unfold channel_at; by rewrite Hc).
  assert (Ho1 : map_open m1).
  { intros p k Hp. rewrite Hat. case_decide as Hk; [subst k; rewrite Hcl, <-Hchm|]; by eapply Ho. }
  set (m2 := match credit with Some n => _ | None => m1 end).
  assert (H2 : still m1 m2) by (destruct credit; [apply still_SendWindowUpdate|apply still_refl]).
  destruct (H2 Hok1 Ho1) as [Ho2 Hk2]. split; [done|]. destruct (Hk2 c) as (Hr2 & Hd2 & Hc2).
  rewrite Hat, decide_True in Hr2, Hd2, Hc2 by done. split_and!.
  - intros k Hk. specialize (Hk2 k). by rewrite Hat, decide_False in Hk2.
  - rewrite Hchm, <-Hcl. done.
  - unfold waiting. rewrite Hchm, Hr2, Hd2. destruct out; [done|]. destruct Hw as (-> & Hclt & -> & ->). naive_solver.
Qed.

(** ** The history *)

Definition taken_by (i : nat) (s : System) : bytes :=
  concat (omap (λ '(j, _, d), if decide (j = i) then Some d else None) s.(bs_taken)).
Definition taken_from (c : nat) (s : System) : bytes :=
  concat (omap (λ '(_, c', d), if decide (c' = c) then Some d else None) s.(bs_taken)).
Definition sent_by (i : nat) (s : System) : bytes :=
  concat (omap (λ '(j, _, d), if decide (j = i) then Some d else None) s.(bs_sent)).
Definition sent_on (p : Z) (s : System) : list bytes :=
  omap (λ '(_, p', d), if decide (p' = p) then Some d else None) s.(bs_sent).

#[local] Arguments accepted : simpl never.
#[local] Arguments taken_by : simpl never.
#[local] Arguments taken_from : simpl never.
#[local] Arguments sent_by : simpl never.
#[local] Arguments sent_on : simpl never.

Record bridged_ok (s : System) (i : nat) (b : Bridged) : Prop := mkBridgedOk {
  bo_read : b.(bd_nread) ≤ length b.(bd_arrived);
  bo_up : match b.(bd_up) with
          | Copying => sent_by i s = take b.(bd_nread) b.(bd_arrived)
          | Holding chunk => sent_by i s ++ chunk = take b.(bd_nread) b.(bd_arrived)
          | Closing e | Ended e =>
              sent_by i s `prefix_of` b.(bd_arrived) ∧ (e = true → b.(bd_ended) = true ∧ sent_by i s = b.(bd_arrived))
          end;
  bo_down : match b.(bd_down) with
            | Copying => b.(bd_out) = taken_by i s
            | Holding d => b.(bd_out) ++ d = taken_by i s
            | Closing _ => False
            | Ended e =>
                b.(bd_out) `prefix_of` taken_by i s ∧
                (e = true → b.(bd_out) = taken_by i s ∧ (channel_at b.(bd_chan) s.(bs_mux)).(ch_CloseChan) = true ∧
                   waiting b.(bd_chan) s.(bs_mux) = [])
            end;
}.

Record bridge_inv (m0 : Multiplexer) (s : System) : Prop := mkBridgeInv {
  bi_run : mux_run m0 s.(bs_trace) s.(bs_mux);
  bi_open : map_open s.(bs_mux);
  bi_conns : ∀ i b, s.(bs_conns) !! i = Some b → bridged_ok s i b;
  bi_fresh : ∀ i, length s.(bs_conns) ≤ i → taken_by i s = [] ∧ sent_by i s = [];
  bi_taken : ∀ c, taken_from c s ++ waiting c s.(bs_mux) = s.(bs_put) c;
  bi_sent : ∀ p, sent_on p s = accepted p s.(bs_trace);
}.

Lemma down_clause_mux (m m' : Multiplexer) (c : nat) :
  grows_ch (channel_at c m) (channel_at c m') →
  (channel_at c m).(ch_CloseChan) = true ∧ waiting c m = [] → (channel_at c m').(ch_CloseChan) = true ∧ waiting c m' = [].
Proof.
  intros (Hr & (ds & Hd & Hn) & Hc) [Hcl Hw]. split; [by apply Hc|]. unfold waiting. by rewrite Hr, Hd, Hn, app_nil_r.
Qed.

Section inv.
Context (spliceAvail onNew : bool) (writes : list (nat * bool)) (splices : list (Res bytes * Res nat)).
Let m0 := New spliceAvail onNew writes splices.
Implicit Types s : System.

Lemma new_inv : bridge_inv m0 (new_system m0).
Proof. split; [constructor|done..]. Qed.

Lemma inv_mux_ok s : bridge_inv m0 s → mux_ok s.(bs_mux).
Proof. intros H. by apply (mux_run_inv _ _ _ _ _ _ (bi_run _ _ H)). Qed.

Lemma bridged_ok_mux s s' i b :
  taken_by i s' = taken_by i s → sent_by i s' = sent_by i s →
  grows_ch (channel_at b.(bd_chan) s.(bs_mux)) (channel_at b.(bd_chan) s'.(bs_mux)) →
  bridged_ok s i b → bridged_ok s' i b.
Proof.
  intros Ht Hs Hg [Hr Hu Hd]. split; [done|by rewrite Hs|]. rewrite Ht. destruct (bd_down b) as [| | |e]; [done..|].
  destruct Hd as [Hp He]. split; [done|]. intros Hc. destruct (He Hc) as [Ho Hcl]. split; [done|]. by apply (down_clause_mux s.(bs_mux)).
Qed.

(** The multiplexer moves on by itself. *)
Lemma inv_machine s l m' : bridge_inv m0 s → machine_step s.(bs_mux) l m' → bridge_inv m0 (mux_did l m' (put_new m' s)).
Proof.
  intros Hinv Hs. pose proof (inv_mux_ok s Hinv) as Hok. destruct Hinv as [Hrun Ho Hc Hf Ht Hse].
  destruct (machine_step_grows _ _ _ Hs Hok Ho) as [Ho' Hg]. split; cbn.
  - eapply run_step; [done|by apply machine_mux_step].
  - done.
  - intros i b Hi. apply (bridged_ok_mux s); [done..|apply Hg|by apply Hc].
  - done.
  - intros c. rewrite <-Ht, <-app_assoc. f_equal. destruct (Hg c) as (Hr & (ds & Hd & _) & _). unfold waiting. rewrite Hr, Hd.
    by rewrite drop_app_length, concat_app, app_assoc.
  - intros p. transitivity (sent_on p s); [done|]. rewrite accepted_app, Hse. destruct Hs; cbn; unfold down_label; repeat case_decide; by rewrite app_nil_r.
Qed.

(** An operation that neither puts, takes nor sends. *)
Lemma inv_still s m' : bridge_inv m0 s → mux_step s.(bs_mux) LTau m' → still s.(bs_mux) m' → bridge_inv m0 (mux_did LTau m' s).
Proof.
  intros Hinv Hs Hst. pose proof (inv_mux_ok s Hinv) as Hok. destruct Hinv as [Hrun Ho Hc Hf Ht Hse].
  destruct (still_grows _ _ Hst Hok Ho) as [_ Hg]. destruct (Hst Hok Ho) as [Ho' Hk]. split; cbn.
  - by eapply run_step.
  - done.
  - intros i b Hi. apply (bridged_ok_mux s); [done..|apply Hg|by apply Hc].
  - done.
  - intros c. rewrite <-Ht. f_equal. unfold waiting. by destruct (Hk c) as (-> & -> & _).
  - intros p. transitivity (sent_on p s); [done|]. by rewrite accepted_app, Hse, app_nil_r.
Qed.

Lemma inv_close s c m' :
  bridge_inv m0 s → m' ∈ CloseChannel (port_of c s.(bs_mux)) s.(bs_mux) → bridge_inv m0 (mux_did LTau m' s).
Proof.
  intros Hinv Hin. apply inv_still; [done| |by eapply still_enqueueCtrl]. apply (step_enqueue _ (port_of c s.(bs_mux)) PktClose); [|by right|done].
  unfold port_of, channel_at. pose proof (inv_mux_ok s Hinv) as [Hh _ _]. destruct (mx_heap (bs_mux s) !! c) as [ch|] eqn:E; [|done].
  by destruct (Forall_lookup_1 _ _ _ _ Hh E).
Qed.

Lemma inv_on_bridged s i f :
  bridge_inv m0 s → (∀ b, s.(bs_conns) !! i = Some b → bridged_ok s i b → bridged_ok s i (f b)) →
  bridge_inv m0 (on_bridged i f s).
Proof.
  intros [Hrun Ho Hc Hf Ht Hse] Hb. split; cbn; try done.
  - intros j b Hj. assert (H : bridged_ok s j b); [|by destruct H].
    destruct (decide (i = j)) as [<-|Hne]; [|rewrite list_lookup_alter_ne in Hj by done; by apply Hc].
    rewrite list_lookup_alter_eq in Hj. apply fmap_Some in Hj as (b0 & Hb0 & ->). auto.
  - intros j. rewrite length_alter. apply Hf.
Qed.

Lemma inv_add s c : bridge_inv m0 s → bridge_inv m0 (add_bridged c s).
Proof.
  intros [Hrun Ho Hc Hf Ht Hse]. split; cbn; try done.
  - intros i b Hi. assert (H : bridged_ok s i b); [|by destruct H].
    apply lookup_app_Some in Hi as [Hi|[Hi Hb]]; [by apply Hc|].
    apply list_lookup_singleton_Some in Hb as [_ <-]. destruct (Hf i Hi) as [H1 H2]. split; cbn; [lia|by rewrite H2|by rewrite H1].
  - intros i. rewrite length_app. cbn. intros Hi. apply Hf. lia.
Qed.
Lemma inv_handle s c : bridge_inv m0 s → bridge_inv m0 (handle c s).
Proof. intros [Hrun Ho Hc Hf Ht Hse]. split; cbn; try done. intros i b Hi. by destruct (Hc i b Hi). Qed.

Lemma taken_by_took i j c d s : taken_by i (took j c d s) = taken_by i s ++ (if decide (j = i) then d else []).
Proof. unfold taken_by. cbn. rewrite omap_app, concat_app. cbn. case_decide; cbn; by rewrite ?app_nil_r. Qed.
Lemma taken_from_took c j c' d s : taken_from c (took j c' d s) = taken_from c s ++ (if decide (c' = c) then d else []).
Proof. unfold taken_from. cbn. rewrite omap_app, concat_app. cbn. case_decide; cbn; by rewrite ?app_nil_r. Qed.
Lemma sent_by_sent i j p d s : sent_by i (sent j p d s) = sent_by i s ++ (if decide (j = i) then d else []).
Proof. unfold sent_by. cbn. rewrite omap_app, concat_app. cbn. case_decide; cbn; by rewrite ?app_nil_r. Qed.
Lemma sent_on_sent p j p' d s : sent_on p (sent j p' d s) = sent_on p s ++ (if decide (p' = p) then [d] else []).
Proof. unfold sent_on. cbn. rewrite omap_app. cbn. by case_decide. Qed.

Lemma Write_Send c p m r m' :
  (r, m') ∈ Write c p m → ∃ r', (r', m') ∈ Send (port_of c m) p m ∧ match r, r' with Ok _, Ok _ | Err _, Err _ => True | _, _ => False end.
Proof.
  unfold Write, port_of, channel_at. destruct (mx_heap m !! c) as [ch|]; [|by rewrite elem_of_nil].
  intros ([r' m1] & [= -> ->] & Hin)%list_elem_of_fmap. exists r'. split; [done|]. by destruct r'.
Qed.

Lemma inv_read s i b now out m' f :
  bridge_inv m0 s → s.(bs_conns) !! i = Some b → b.(bd_down) = Copying →
  Read b.(bd_chan) io_copy_buf now s.(bs_mux) = Some (out, m') →
  (∀ b', (f b').(bd_chan) = b'.(bd_chan) ∧ (f b').(bd_nread) = b'.(bd_nread) ∧ (f b').(bd_arrived) = b'.(bd_arrived) ∧
     (f b').(bd_up) = b'.(bd_up) ∧ (f b').(bd_ended) = b'.(bd_ended) ∧ (f b').(bd_out) = b'.(bd_out) ∧
     (f b').(bd_down) = match out with Some d => Holding d | None => Ended true end) →
  bridge_inv m0 (on_bridged i f (match out with Some d => took i b.(bd_chan) d (mux_did LTau m' s) | None => mux_did LTau m' s end)).
Proof.
  intros Hinv Hi Hcp Hrd Hfb. pose proof (inv_mux_ok s Hinv) as Hok. destruct Hinv as [Hrun Ho Hc Hf Ht Hse].
  destruct (Read_waiting _ _ _ _ _ _ Hrd Hok Ho) as (Ho' & Hk & Hcl & Hw).
  set (s1 := match out with Some d => took i b.(bd_chan) d (mux_did LTau m' s) | None => mux_did LTau m' s end).
  assert (Hmux : s1.(bs_mux) = m') by by (unfold s1; destruct out).
  assert (Htr : s1.(bs_trace) = s.(bs_trace) ++ [LTau]) by by (unfold s1; destruct out).
  assert (Hcs : s1.(bs_conns) = s.(bs_conns)) by by (unfold s1; destruct out).
  assert (Hput : s1.(bs_put) = s.(bs_put)) by by (unfold s1; destruct out).
  assert (Hsb : ∀ j, sent_by j s1 = sent_by j s) by by (intros j; unfold s1; destruct out).
  assert (Hso : ∀ p, sent_on p s1 = sent_on p s) by by (intros j; unfold s1; destruct out).
  assert (Htb : ∀ j, taken_by j s1 = taken_by j s ++ (if decide (i = j) then default [] out else [])).
  { intros j. unfold s1. destruct out as [d|]; [exact (taken_by_took j i _ d (mux_did LTau m' s))|]. case_decide; by rewrite app_nil_r. }
  assert (Htf : ∀ c, taken_from c s1 = taken_from c s ++ (if decide (b.(bd_chan) = c) then default [] out else [])).
  { intros c. unfold s1. destruct out as [d|]; [exact (taken_from_took c i _ d (mux_did LTau m' s))|]. case_decide; by rewrite app_nil_r. }
  split.
  - cbn [on_bridged bs_trace bs_mux]. rewrite Htr, Hmux. eapply run_step; [done|]. by eapply step_read.
  - cbn [on_bridged bs_mux]. by rewrite Hmux.
  - intros j b' Hj. cbn [on_bridged bs_conns] in Hj. assert (H : bridged_ok s1 j b'); [|by destruct H].
    rewrite Hcs in Hj. destruct (decide (i = j)) as [<-|Hne].
    + rewrite list_lookup_alter_eq, Hi in Hj. injection Hj as <-. destruct (Hfb b) as (E1 & E2 & E3 & E4 & E5 & E6 & E7).
      destruct (Hc i b Hi) as [Hr Hu Hd]. rewrite Hcp in Hd. split; rewrite ?E1, ?E2, ?E3, ?E4, ?E5, ?E6, ?E7, ?Hsb; [done..|].
      rewrite Htb, decide_True, Hmux by done. destruct out as [d|]; cbn; [by rewrite Hd|]. rewrite app_nil_r. split; [by rewrite Hd|]. naive_solver.
    + rewrite list_lookup_alter_ne in Hj by done. destruct (Hc j b' Hj) as [Hr Hu Hd]. split; [done|by rewrite Hsb|].
      rewrite Htb, decide_False, app_nil_r, Hmux by done. destruct (bd_down b') as [| | |e]; [done..|]. destruct Hd as [Hp He]. split; [done|].
      intros Hct. destruct (He Hct) as (Ho1 & Hc1 & Hw1). split; [done|]. destruct (decide (bd_chan b' = bd_chan b)) as [Hbc|Hbc].
      * rewrite Hbc in *. split; [auto|]. destruct out; [|by destruct Hw]. rewrite Hw1 in Hw. symmetry in Hw. by apply app_nil in Hw as [_ ->].
      * destruct (Hk _ Hbc) as (Hr2 & Hd2 & Hc2). split; [auto|]. unfold waiting. by rewrite Hr2, Hd2.
  - cbn [on_bridged bs_conns]. intros j. rewrite length_alter, Hcs. intros Hj. destruct (Hf j Hj) as [H1 H2].
    change (taken_by j s1 = [] ∧ sent_by j s1 = []). rewrite Htb, Hsb, H1, H2, decide_False; [done|].
    intros ->. apply lookup_lt_Some in Hi. lia.
  - intros c. cbn [on_bridged bs_put bs_mux]. rewrite Hput, <-Ht, Hmux. change (taken_from c s1 ++ waiting c m' = taken_from c s ++ waiting c s.(bs_mux)).
    rewrite Htf, <-app_assoc. f_equal. case_decide as Hbc; [subst c|].
    + destruct out as [d|]; cbn; [done|]. destruct Hw as (-> & -> & _). done.
    + destruct (Hk c) as (Hr2 & Hd2 & _); [done|]. unfold waiting. by rewrite Hr2, Hd2.
  - intros p. cbn [on_bridged bs_trace]. rewrite Htr, accepted_app, app_nil_r. change (sent_on p s1 = accepted p s.(bs_trace)). by rewrite Hso.
Qed.

Lemma inv_write s i b chunk n m' :
  bridge_inv m0 s → s.(bs_conns) !! i = Some b → b.(bd_up) = Holding chunk → (Ok n, m') ∈ Write b.(bd_chan) chunk s.(bs_mux) →
  bridge_inv m0 (on_bridged i (up_to Copying) (sent i (port_of b.(bd_chan) s.(bs_mux)) chunk
    (mux_did (LSend (port_of b.(bd_chan) s.(bs_mux)) chunk) m' s))).
Proof.
  intros Hinv Hi Hup Hin. pose proof (inv_mux_ok s Hinv) as Hok. destruct Hinv as [Hrun Ho Hc Hf Ht Hse].
  apply Write_Send in Hin as (r' & Hin & Hr'). destruct r' as [u|]; [|done]. clear Hr'. set (p0 := port_of _ _) in *.
  pose proof (still_Send _ _ _ _ _ Hin) as Hst. destruct (still_grows _ _ Hst Hok Ho) as [_ Hg]. destruct (Hst Hok Ho) as [Ho' Hk].
  set (s1 := sent i p0 chunk (mux_did (LSend p0 chunk) m' s)).
  assert (Hsb : ∀ j, sent_by j s1 = sent_by j s ++ (if decide (i = j) then chunk else []))
    by (intros j; exact (sent_by_sent j i p0 chunk (mux_did (LSend p0 chunk) m' s))).
  split.
  - cbn. eapply run_step; [done|]. exact (step_send _ _ _ _ _ Hin).
  - done.
  - intros j b' Hj. cbn [on_bridged bs_conns] in Hj. assert (H : bridged_ok s1 j b'); [|by destruct H].
    destruct (decide (i = j)) as [<-|Hne].
    + rewrite list_lookup_alter_eq in Hj. change (bs_conns s1) with (bs_conns s) in Hj. rewrite Hi in Hj. injection Hj as <-.
      destruct (Hc i b Hi) as [Hr Hu Hd]. rewrite Hup in Hu. split; cbn; [done|by rewrite Hsb, decide_True|].
      destruct (bd_down b) as [| | |e]; [done..|]. destruct Hd as [Hp He]. split; [done|]. intros Hct. destruct (He Hct) as [H1 H2].
      split; [done|]. by apply (down_clause_mux s.(bs_mux)).
    + rewrite list_lookup_alter_ne in Hj by done. apply (bridged_ok_mux s); [done| |apply Hg|by apply Hc].
      by rewrite Hsb, decide_False, app_nil_r.
  - cbn [on_bridged bs_conns]. intros j. rewrite length_alter. intros Hj. destruct (Hf j Hj) as [H1 H2].
    split; [exact H1|]. change (sent_by j s1 = []). rewrite Hsb, H2, decide_False; [done|].
    intros ->. apply lookup_lt_Some in Hi. cbn in Hj. lia.
  - intros c. transitivity (taken_from c s ++ waiting c m'); [done|]. cbn. rewrite <-Ht. f_equal. unfold waiting. by destruct (Hk c) as (-> & -> & _).
  - intros p. transitivity (sent_on p s1); [done|]. cbn [on_bridged bs_trace]. transitivity (accepted p (s.(bs_trace) ++ [LSend p0 chunk])); [|done].
    rewrite accepted_app, <-Hse. transitivity (sent_on p s ++ (if decide (p0 = p) then [chunk] else [])).
    + exact (sent_on_sent p i p0 chunk (mux_did (LSend p0 chunk) m' s)).
    + f_equal. unfold accepted. cbn. by case_decide.
Qed.

Lemma still_OpenChannel port now m : still m (OpenChannel port now m).2.
Proof.
  unfold OpenChannel. destruct (mx_closed m); [apply still_refl|]. destruct (mx_channels m !! port); [apply still_refl|].
  apply still_add_channel.
Qed.

Lemma bridge_step_inv target sourcePort s s' : bridge_inv m0 s → sys_step target sourcePort s s' → bridge_inv m0 s'.
Proof.
  intros Hinv Hs.
  destruct Hs as [i b l Hi He|i b Hi|now c isnew m' _ Hop|c _ _ _|c m' _ _ _ Hcl|i b ch rest Hi Hup Hd Hne Hl|i b ch n m' Hi Hup Hw
    |i b ch e m' Hi Hup Hw|i b Hi Hup Hn He|i b Hi Hup|i b e m' Hi Hup Hcl|i b now d m' Hi Hdn Hrd|i b now m' Hi Hdn Hrd|i b d Hi Hdn
    |i b d n Hi Hdn|i b e e' m' Hi Hup Hdn Hg Hcl|l m' Hm].
  - apply inv_on_bridged; [done|]. intros b' Hb' [Hr Hu Hd]. simplify_eq. split; cbn; [rewrite length_app; lia| |done].
    destruct (bd_up b); [by rewrite take_app_le|by rewrite take_app_le|..]; destruct Hu as [Hp Hc]; (split; [by apply prefix_app_r|]);
      intros Ht; destruct (Hc Ht); congruence.
  - apply inv_on_bridged; [done|]. intros b' Hb' [Hr Hu Hd]. split; cbn; [done| |done]. by destruct (bd_up b'); naive_solver.
  - apply inv_add, inv_still; [done| |].
    + assert (m' = (OpenChannel (relay_port sourcePort) now s.(bs_mux)).2) as -> by by rewrite Hop.
      apply step_open. unfold is_uint16, relay_port. pose proof (Z.mod_pos_bound sourcePort 65536). lia.
    + assert (m' = (OpenChannel (relay_port sourcePort) now s.(bs_mux)).2) as -> by by rewrite Hop. apply still_OpenChannel.
  - by apply inv_add, inv_handle.
  - by eapply inv_handle, inv_close.
  - apply inv_on_bridged; [done|]. intros b' Hb' [Hr Hu Hdo]. simplify_eq. rewrite Hup in Hu.
    pose proof (f_equal length Hd) as Hlen. rewrite length_drop, length_app in Hlen.
    split; cbn; [lia| |done]. rewrite Hu.
    rewrite <-(take_drop (bd_nread b) (bd_arrived b)) at 2. rewrite Hd, app_assoc, take_app_length'; [done|].
    rewrite length_app, length_take. lia.
  - by eapply inv_write.
  - apply Write_Send in Hw as (r' & Hin & Hr'). destruct r' as [|e']; [done|].
    apply inv_on_bridged; [apply inv_still; [done|exact (step_send _ _ _ _ _ Hin)|by eapply still_Send]|].
    intros b' Hb' [Hr Hu Hd]. cbn in Hb'. simplify_eq. rewrite Hup in Hu. split; cbn; [done| |done].
    assert (Hp : sent_by i s `prefix_of` b.(bd_arrived)).
    { trans (sent_by i s ++ ch); [by apply prefix_app_r|]. change (sent_by i s ++ ch) with (sent_by i (mux_did LTau m' s) ++ ch). rewrite Hu. apply prefix_take. }
    unfold after_up. by destruct target.
  - apply inv_on_bridged; [done|]. intros b' Hb' [Hr Hu Hd]. simplify_eq. rewrite Hup, Hn, take_ge in Hu by lia. split; cbn; [done| |done].
    unfold after_up. rewrite Hu. by destruct target.
  - apply inv_on_bridged; [done|]. intros b' Hb' [Hr Hu Hd]. simplify_eq. rewrite Hup in Hu. split; cbn; [done| |done].
    unfold after_up. rewrite Hu. destruct target; (split; [apply prefix_take|done]).
  - apply inv_on_bridged; [by eapply inv_close|]. intros b' Hb' [Hr Hu Hd]. cbn in Hb'. simplify_eq. rewrite Hup in Hu. split; cbn; [done|exact Hu|exact Hd].
  - by apply (inv_read s i b now (Some d) m' (down_to (Holding d)) Hinv Hi Hdn Hrd).
  - apply (inv_read s i b now None m' _ Hinv Hi Hdn Hrd). intros b'. unfold after_down. by destruct target.
  - apply inv_on_bridged; [done|]. intros b' Hb' [Hr Hu Hd]. simplify_eq. rewrite Hdn in Hd. by split.
  - apply inv_on_bridged; [done|]. intros b' Hb' [Hr Hu Hd]. simplify_eq. rewrite Hdn in Hd.
    assert (Hp : bd_out b ++ take n d `prefix_of` taken_by i s) by (rewrite <-Hd; apply prefix_app, prefix_take).
    unfold after_down. by destruct target; split.
  - apply inv_on_bridged; [by eapply inv_close|]. intros b' Hb' [Hr Hu Hd]. by split.
  - by apply inv_machine.
Qed.

Lemma sys_reach_inv target sourcePort s : sys_reach target sourcePort (new_system m0) s → bridge_inv m0 s.
Proof.
  intros Hr. assert (Hall : ∀ a b, rtc (sys_step target sourcePort) a b → bridge_inv m0 a → bridge_inv m0 b).
  { induction 1 as [|a b c Hs _ IH]; [done|]. intros Ha. by eapply IH, bridge_step_inv. }
  exact (Hall _ _ Hr new_inv).
Qed.
End inv.

(** ** The end of a connection *)

(** The CLOSE frame goes out before the data that waits, which is thrown
    away. *)
Lemma close_takes_down m port c ch :
  mux_ok m → m.(mx_closed) = false → m.(mx_writes) = [] → m.(mx_ctrlChan) = [] →
  m.(mx_channels) !! port = Some c → m.(mx_heap) !! c = Some ch → ch.(ch_CloseChan) = false →
  ∃ m1 m3, m1 ∈ CloseChannel port m ∧ machine_step m1 (LDown port) m3 ∧
    m3.(mx_channels) !! port = None ∧ m3.(mx_closed) = false ∧
    m3.(mx_heap) !! c = Some (ch_set_close (ch_set_queue [] ch)) ∧
    m3.(mx_conn) = m.(mx_conn) ++ encode_frames [mkFrameIn port PktClose []].
Proof.
  intros Hok Hcl Hws Hct Hp Hc Hch. set (m1 := notifyWrite (set_ctrl m [mkCtrl port PktClose])).
  set (m2 := set_conn (set_ctrl m1 []) (m.(mx_conn) ++ frame_header port 0 PktClose) false []).
  destruct (close_down m port c ch Hok Hp Hc Hch) as (_ & Hnone & _ & Hconn & Hheap & _).
  exists m1, (closeChannelLocal port m2). split_and!; [| |done| |done|done].
  - unfold CloseChannel, enqueueCtrl. rewrite Hcl, Hct. rewrite decide_True by (unfold ctrlQueueSize; cbn; lia). by left.
  - pose proof (ms_ctrl m1 (mkCtrl port PktClose) [] eq_refl) as Hs. unfold writeLoop_ctrl in Hs. cbn [cf_port cf_ptype] in Hs.
    assert (Hw : writeCtrl port PktClose (set_ctrl m1 []) = (None, m2)) by exact (close_written m port Hcl Hws).
    rewrite Hw in Hs. exact Hs.
  - by destruct (closeChannelLocal_frame port m2) as (_ & -> & _).
Qed.

(** ** Properties *)


Lemma port_of_heap c m ch : m.(mx_heap) !! c = Some ch → port_of c m = ch.(ch_Port).
Proof. intros H. unfold port_of, channel_at. by rewrite H. Qed.

(** A channel that left the map takes nothing. *)
Lemma Write_down c m ch p chunk r m' :
  m.(mx_heap) !! c = Some ch → ch.(ch_Port) = p → m.(mx_channels) !! p = None → m.(mx_closed) = false →
  (r, m') ∈ Write c chunk m → r = Err (channel_not_found p).
Proof.
  intros Hc Hp Hn Hcl. unfold Write. rewrite Hc, Hp. intros ([r1 m1] & Heq & Hin)%list_elem_of_fmap.
  unfold Send in Hin. rewrite Hcl, Hn in Hin. apply list_elem_of_singleton in Hin. by simplify_eq.
Qed.


(** The answer of a local service that ends its connection right after
    it is lost at the target: once its last bytes are accepted, the goroutines
    can write nothing but the CLOSE frame and throw away all that is queued. *)
Theorem last_answer_lost sourcePort spliceAvail onNew writes splices s i b p ch :
  sys_reach true sourcePort (new_system (New spliceAvail onNew writes splices)) s →
  s.(bs_conns) !! i = Some b → b.(bd_up) = Copying → b.(bd_nread) = length b.(bd_arrived) → b.(bd_ended) = true →
  s.(bs_mux).(mx_channels) !! p = Some b.(bd_chan) → s.(bs_mux).(mx_heap) !! b.(bd_chan) = Some ch →
  ch.(ch_CloseChan) = false → s.(bs_mux).(mx_closed) = false → s.(bs_mux).(mx_writes) = [] → s.(bs_mux).(mx_ctrlChan) = [] →
  ∃ s' ch', sys_reach true sourcePort s s' ∧ sent_by i s' = b.(bd_arrived) ∧
    s'.(bs_mux).(mx_conn) = s.(bs_mux).(mx_conn) ++ encode_frames [mkFrameIn p PktClose []] ∧
    s'.(bs_mux).(mx_channels) !! p = None ∧ s'.(bs_mux).(mx_heap) !! b.(bd_chan) = Some ch' ∧ ch'.(ch_sendQueue) = [].
Proof.
  intros Hr Hi Hup Hn He Hp Hc Hch Hcl Hws Hct. apply sys_reach_inv in Hr as Hinv. pose proof (inv_mux_ok _ _ _ _ _ Hinv) as Hok.
  assert (Hport : ch.(ch_Port) = p) by by (destruct (ok_map _ Hok _ _ Hp) as (ch' & Hch' & <-); simplify_eq).
  destruct (close_takes_down s.(bs_mux) p b.(bd_chan) ch Hok Hcl Hws Hct Hp Hc Hch) as (m1 & m3 & Hin & Hm & Hnone & _ & Hheap & Hconn).
  eexists. exists (ch_set_close (ch_set_queue [] ch)). split_and!.
  - eapply rtc_l; [by eapply (BUpEnd _ _ s i b)|].
    eapply rtc_l; [eapply (BUpClose _ _ _ i (up_to (Closing true) b) true m1)|].
    { cbn. by rewrite list_lookup_alter_eq, Hi. }
    { done. }
    { cbn. by rewrite (port_of_heap _ _ _ Hc), Hport. }
    eapply rtc_l; [by eapply BMachine|apply rtc_refl].
  - transitivity (sent_by i s); [done|]. destruct (bi_conns _ _ Hinv i b Hi) as [_ Hu _]. rewrite Hup in Hu.
    by rewrite Hu, Hn, take_ge.
  - exact Hconn.
  - exact Hnone.
  - exact Hheap.
  - done.
Qed.

(** ** Concrete runs *)

(** Two connections to a source; the first sends [hello], and [bye] comes
    back. *)
Definition ex_new : Multiplexer := New false false [] [].
Definition ex_open : Multiplexer := (OpenChannel 8080 0 ex_new).2.
Definition ex_asked : Multiplexer := default ex_open (snd <$> head (Write 0 hello ex_open)).
Definition ex_answered : Multiplexer := default ex_asked (head (dispatch 0 (mkFrameIn 8080 PktData bye) ex_asked)).
Definition ex_accepted : System := add_bridged 0 (mux_did LTau ex_open (add_bridged 0 (mux_did LTau ex_open (new_system ex_new)))).
Definition ex_read : System := on_bridged 0 (up_read hello) (on_bridged 0 (local_sends hello) ex_accepted).
Definition ex_sent : System := on_bridged 0 (up_to Copying) (sent 0 8080 hello (mux_did (LSend 8080 hello) ex_asked ex_read)).
Definition ex_shared : System := mux_did (down_label PktData 8080) ex_answered (put_new ex_answered ex_sent).

Lemma small_chunk (d : bytes) : (length d <=? 100) = true → length d ≤ io_copy_buf.
Proof. intros H%Nat.leb_le. unfold io_copy_buf. lia. Qed.

Lemma ex_shared_reach : sys_reach false 8080 (new_system ex_new) ex_shared.
Proof.
  eapply rtc_l; [by apply (BAccept _ _ _ 0 0 true ex_open)|]. eapply rtc_l; [by apply (BAccept _ _ _ 0 0 false ex_open)|].
  fold ex_accepted. eapply rtc_l; [by apply (BLocalSends _ _ _ 0 (new_bridged 0) hello)|].
  eapply rtc_l; [by apply (BUpRead _ _ _ 0 (local_sends hello (new_bridged 0)) hello []); [..|apply small_chunk]|]. fold ex_read.
  eapply rtc_l; [apply (BUpWrite _ _ ex_read 0 (up_read hello (local_sends hello (new_bridged 0))) hello 5 ex_asked); [done..|vm_compute; by left]|].
  eapply rtc_l; [|apply rtc_refl].
  apply (BMachine _ _ ex_sent), (ms_dispatch ex_asked 0 (mkFrameIn 8080 PktData bye) ex_answered); [done|]. vm_compute. by left.
Qed.



(** A local service that answers [bye] to [hello] and ends. *)
Definition ex_called : Multiplexer := default ex_new (head (dispatch 0 (mkFrameIn 8080 PktData hello) (New false true [] []))).
Definition ex_replied : Multiplexer := default ex_called (snd <$> head (Write 0 bye ex_called)).
Definition ex_dialled : System :=
  add_bridged 0 (handle 0 (mux_did (down_label PktData 8080) ex_called (put_new ex_called (new_system (New false true [] []))))).
Definition ex_finished : System := on_bridged 0 (up_read bye) (on_bridged 0 local_ends (on_bridged 0 (local_sends bye) ex_dialled)).
Definition ex_last : System := on_bridged 0 (up_to Copying) (sent 0 8080 bye (mux_did (LSend 8080 bye) ex_replied ex_finished)).

Lemma ex_last_reach : sys_reach true 8080 (new_system (New false true [] [])) ex_last.
Proof.
  eapply rtc_l; [apply (BMachine _ _ (new_system (New false true [] []))),
    (ms_dispatch _ 0 (mkFrameIn 8080 PktData hello) ex_called); [done|vm_compute; by left]|].
  eapply rtc_l; [apply (BDial _ _ _ 0); [done|vm_compute; by left|apply not_elem_of_nil]|]. fold ex_dialled.
  eapply rtc_l; [by apply (BLocalSends _ _ _ 0 (new_bridged 0) bye)|].
  eapply rtc_l; [by apply (BLocalEnds _ _ _ 0 (local_sends bye (new_bridged 0)))|].
  eapply rtc_l; [by apply (BUpRead _ _ _ 0 (local_ends (local_sends bye (new_bridged 0))) bye []); [..|apply small_chunk]|]. fold ex_finished.
  eapply rtc_l; [|apply rtc_refl].
  assert (Hport : port_of 0 ex_finished.(bs_mux) = 8080%Z) by (vm_compute; reflexivity).
  assert (Hw : (Ok 3%Z, ex_replied) ∈ Write 0 bye ex_finished.(bs_mux)) by (vm_compute; by left).
  pose proof (BUpWrite true 8080 ex_finished 0 (up_read bye (local_ends (local_sends bye (new_bridged 0)))) bye 3 ex_replied eq_refl eq_refl Hw) as H.
  cbn [bd_chan up_read local_ends local_sends new_bridged] in H. rewrite Hport in H. exact H.
Qed.

Lemma last_answer_lost_witness :
  ex_last.(bs_mux).(mx_conn) = [] ∧ queued 8080 ex_last.(bs_mux) = [bye] ∧
  ∃ s', sys_reach true 8080 ex_last s' ∧ sent_by 0 s' = bye ∧ s'.(bs_mux).(mx_conn) = encode_frames [mkFrameIn 8080 PktClose []] ∧
    s'.(bs_mux).(mx_channels) !! 8080%Z = None.
Proof.
  split_and!; [reflexivity..|].
  destruct (last_answer_lost 8080 false true [] [] ex_last 0
    (default (new_bridged 0) (ex_last.(bs_conns) !! 0)) 8080 (default (newChannel 0 0) (ex_replied.(mx_heap) !! 0)) ex_last_reach)
    as (s' & ch' & Hr & Hs & Hconn & Hnone & _); [reflexivity..|].
  exists s'. split_and!; [exact Hr|exact Hs|exact Hconn|exact Hnone].
Defined.
