(* ===== verification/WsConn.v ===== *)
(** * A stream over a WebSocket (common/wsconn/wsconn.go)

    [wsConn] makes a [net.Conn] of a WebSocket, for the multiplexer and the
    tunnels.  The WebSocket is the messages that will still come, after which
    [ReadMessage] fails; reads and writes are under one lock each, so they
    happen one after the other. *)

From S2P Require Import Prelude Proto.

(** [pos] is where the next [Read] starts. *)
Record bytesReader := mkBytesReader { br_data : bytes; br_pos : nat }.
(** [None] is [io.EOF]. *)
Definition bytesReader_Read (k : nat) (r : bytesReader) : option bytes * bytesReader :=
  if decide (length r.(br_data) <= r.(br_pos)) then (None, r)
  else
    let out := take k (drop r.(br_pos) r.(br_data)) in
    (Some out, mkBytesReader r.(br_data) (r.(br_pos) + length out)).

Record wsConn := mkWsConn {
  ws_reader : option bytesReader;
  ws_closed : bool;
  (* the messages to come, and those written *)
  ws_in : list bytes;
  ws_out : list bytes;
}.
Definition New (msgs : list bytes) : wsConn := mkWsConn None false msgs [].

(** The loop of [Read]: a reader at its end is dropped, without one the next
    message is read. *)
Fixpoint read_loop (k : nat) (reader : option bytesReader) (msgs : list bytes) :
    Res bytes * option bytesReader * list bytes :=
  let next := match msgs with
              | [] => (Err "websocket: close", None, [])
              | msg :: rest => read_loop k (Some (mkBytesReader msg 0)) rest
              end in
  match reader with
  | Some r =>
      match bytesReader_Read k r with
      | (Some out, r') => (Ok out, Some r', msgs)
      | (None, _) => next
      end
  | None => next
  end.

(** [Read(b)] with [len(b) = k]. *)
Definition Read (k : nat) (w : wsConn) : Res bytes * wsConn :=
  if w.(ws_closed) then (Err "use of closed network connection", w)
  else
    let '(r, reader, msgs) := read_loop k w.(ws_reader) w.(ws_in) in
    (r, mkWsConn reader w.(ws_closed) msgs w.(ws_out)).

(** [fails] is whether [WriteMessage] does. *)
Definition Write (fails : bool) (b : bytes) (w : wsConn) : Res nat * wsConn :=
  if w.(ws_closed) then (Err "use of closed network connection", w)
  else if fails then (Err "websocket: write", w)
  else (Ok (length b), mkWsConn w.(ws_reader) w.(ws_closed) w.(ws_in) (w.(ws_out) ++ [b])).

Definition Close (w : wsConn) : wsConn := mkWsConn w.(ws_reader) true w.(ws_in) w.(ws_out).

(** [io.ReadFull] on it; every read but the last brings something, so [n] of
    them are enough. *)
Fixpoint read_full_loop (fuel n : nat) (got : bytes) (w : wsConn) : Res bytes * wsConn :=
  if decide (n <= length got) then (Ok got, w)
  else match fuel with
       | 0 => (Err "fuel", w)
       | S fuel =>
           match Read (n - length got) w with
           | (Err e, w') => (Err e, w')
           | (Ok out, w') => read_full_loop fuel n (got ++ out) w'
           end
       end.
Definition ws_ReadFull (n : nat) (w : wsConn) : Res bytes * wsConn := read_full_loop n n [] w.

(** A reader that asks for [ks] bytes in turn, until an error. *)
Fixpoint read_all (ks : list nat) (w : wsConn) : bytes * bool * wsConn :=
  match ks with
  | [] => ([], false, w)
  | k :: ks =>
      match Read k w with
      | (Err _, w') => ([], true, w')
      | (Ok out, w') => let '(rest, ended, w'') := read_all ks w' in (out ++ rest, ended, w'')
      end
  end.

(** ** The stream *)

(** The bytes that can still be read. *)
Definition reader_rest (r : option bytesReader) : bytes :=
  match r with Some r => drop r.(br_pos) r.(br_data) | None => [] end.
Definition stream (w : wsConn) : bytes := reader_rest w.(ws_reader) ++ concat w.(ws_in).

Lemma read_loop_spec k msgs reader :
  match read_loop k reader msgs with
  | (Ok out, reader', msgs') =>
      reader_rest reader ++ concat msgs = out ++ reader_rest reader' ++ concat msgs' ∧ length out <= k ∧ (0 < k → out ≠ [])
  | (Err _, reader', msgs') => reader_rest reader ++ concat msgs = [] ∧ reader' = None ∧ msgs' = []
  end.
Proof.
  assert (Hread : ∀ r msgs out r', bytesReader_Read k r = (Some out, r') →
    reader_rest (Some r) ++ concat msgs = out ++ reader_rest (Some r') ++ concat msgs ∧ length out <= k ∧ (0 < k → out ≠ [])).
  { intros [d p] ms out r'. unfold bytesReader_Read. cbn. case_decide as Hp; [done|]. intros [= <- <-]. cbn.
    rewrite <-drop_drop. set (l := drop p d). assert (l ≠ []) by (intros E; apply Hp; apply (f_equal length) in E; unfold l in E; rewrite length_drop in E; cbn in E; lia).
    split_and!.
    - rewrite (assoc_L (++)). f_equal. rewrite length_take. destruct (decide (k <= length l)).
      + rewrite Nat.min_l by lia. by rewrite take_drop.
      + rewrite Nat.min_r by lia. rewrite take_ge, drop_ge by lia. by rewrite app_nil_r.
    - rewrite length_take. lia.
    - intros Hk. destruct l, k; by try lia. }
  assert (Hend : ∀ r, bytesReader_Read k r = (None, r) → reader_rest (Some r) = []).
  { intros [d p]. unfold bytesReader_Read. cbn. case_decide; [|done]. intros _. by apply drop_ge. }
  revert reader. induction msgs as [|m msgs IH]; intros reader; cbn.
  - destruct reader as [r|]; [|done]. destruct (bytesReader_Read k r) as [[out|] r'] eqn:E.
    + by apply (Hread _ []).
    + assert (r' = r) as -> by (unfold bytesReader_Read in E; case_decide; congruence). by rewrite Hend.
  - destruct reader as [r|].
    + destruct (bytesReader_Read k r) as [[out|] r'] eqn:E.
      * by apply (Hread _ (m :: msgs)).
      * assert (r' = r) as -> by (unfold bytesReader_Read in E; case_decide; congruence). rewrite (Hend _ E). apply IH.
    + apply IH.
Qed.

Lemma Read_spec k w :
  w.(ws_closed) = false →
  match Read k w with
  | (Ok out, w') => stream w = out ++ stream w' ∧ length out <= k ∧ (0 < k → out ≠ []) ∧ w'.(ws_closed) = false ∧ w'.(ws_out) = w.(ws_out)
  | (Err _, w') => stream w = [] ∧ stream w' = [] ∧ w'.(ws_closed) = false ∧ w'.(ws_out) = w.(ws_out)
  end.
Proof.
  intros Hc. unfold Read. rewrite Hc. pose proof (read_loop_spec k w.(ws_in) w.(ws_reader)) as H. unfold stream.
  destruct (read_loop k (ws_reader w) (ws_in w)) as [[[out|e] r'] ms]; cbn; [by destruct H as (? & ? & ?)|].
  by destruct H as (? & -> & ->).
Qed.

Lemma read_full_loop_spec fuel n got w :
  w.(ws_closed) = false → n <= fuel + length got →
  let '(r, w') := read_full_loop fuel n got w in
  let '(r0, rest) := ReadFull (n - length got) (stream w) in
  stream w' = rest ∧
  match r, r0 with Ok a, Ok b => length got <= n → a = got ++ b | Err _, Err _ => True | _, _ => False end.
Proof.
  revert got w. induction fuel as [|fuel IH]; intros got w Hc Hf; cbn [read_full_loop].
  - rewrite decide_True by lia. replace (n - length got) with 0 by lia. cbn. unfold ReadFull.
    rewrite decide_True by lia. cbn. rewrite drop_0. split; [done|]. by rewrite app_nil_r.
  - case_decide as Hn.
    + replace (n - length got) with 0 by lia. unfold ReadFull. rewrite decide_True by lia. rewrite drop_0. split; [done|].
      intros _. cbn. by rewrite app_nil_r.
    + pose proof (Read_spec (n - length got) w Hc) as Hr. destruct (Read (n - length got) w) as [[out|e] w1].
      * destruct Hr as (Hs & Hl & Hne & Hc1 & _). specialize (IH (got ++ out) w1 Hc1).
        assert (0 < length out) by (destruct out; [by destruct Hne; [lia|]|cbn; lia]).
        rewrite length_app in IH. specialize (IH ltac:(lia)). destruct (read_full_loop fuel n (got ++ out) w1) as [r w'].
        rewrite Hs. replace (n - (length got + length out)) with (n - length got - length out) in IH by lia.
        unfold ReadFull in *. rewrite length_app. case_decide as Hd; case_decide as Hd'; try lia.
        -- destruct IH as [-> IH]. split.
           { rewrite drop_app_ge by lia. done. }
           destruct r; [|done]. intros Hg. rewrite IH by lia. rewrite <-app_assoc. f_equal.
           rewrite take_app_ge by lia. done.
        -- destruct IH as [-> IH]. split; [done|]. by destruct r.
      * destruct Hr as (Hs & Hs1 & Hc1 & _). rewrite Hs. unfold ReadFull. rewrite decide_False by (cbn; lia). done.
Qed.

(** ** Properties *)


Definition writes (bufs : list bytes) (w : wsConn) : wsConn := foldl (λ w b, (Write false b w).2) w bufs.

(** What one end writes is what the other reads, whatever the sizes of
    the writes and of the reads: the reads bring the bytes in order, none is
    lost or repeated, and the end comes exactly when all have been read. *)
Theorem wsconn_roundtrip (bufs : list bytes) (ks : list nat) :
  Forall (λ k, 0 < k) ks →
  let '(got, ended, w') := read_all ks (New (writes bufs (New [])).(ws_out)) in
  got ++ stream w' = concat bufs ∧
  (ended = true → got = concat bufs) ∧ (ended = false → length ks <= length got) ∧
  (length (concat bufs) < length ks → ended = true).
Proof.
  assert (Hw : ∀ bs w, w.(ws_closed) = false → (writes bs w).(ws_out) = w.(ws_out) ++ bs).
  { induction bs as [|b bs IH]; intros w Hc; cbn; [by rewrite app_nil_r|]. unfold writes in IH.
    assert (Hw1 : (Write false b w).2 = mkWsConn w.(ws_reader) false w.(ws_in) (w.(ws_out) ++ [b])) by (unfold Write; by rewrite Hc).
    rewrite Hw1, IH by done. cbn. by rewrite <-app_assoc. }
  rewrite Hw by done. cbn [New ws_out app]. intros Hks.
  assert (H : ∀ ks w, w.(ws_closed) = false → Forall (λ k, 0 < k) ks →
    let '(got, ended, w') := read_all ks w in
    got ++ stream w' = stream w ∧ (ended = true → stream w' = []) ∧ (ended = false → length ks <= length got)).
  { clear. induction ks as [|k ks IH]; intros w Hc Hk; cbn; [done|]. apply Forall_cons in Hk as [Hk Hks].
    pose proof (Read_spec k w Hc) as Hr. destruct (Read k w) as [[out|e] w1].
    - destruct Hr as (Hs & _ & Hne & Hc1 & _). specialize (IH w1 Hc1 Hks). destruct (read_all ks w1) as [[rest ended] w'].
      destruct IH as (I1 & I2 & I3). split_and!; [by rewrite <-app_assoc, I1|done|]. intros He. specialize (I3 He).
      rewrite length_app. destruct out; [by destruct Hne|cbn; lia].
    - destruct Hr as (Hs & Hs' & _). by rewrite Hs, Hs'. }
  specialize (H ks (New bufs) eq_refl Hks). destruct (read_all ks (New bufs)) as [[got ended] w'].
  destruct H as (H1 & H2 & H3). change (stream (New bufs)) with (concat bufs) in H1.
  split_and!; [done| |done|].
  - intros He. rewrite <-H1, (H2 He). by rewrite app_nil_r.
  - intros Hl. destruct ended; [done|]. specialize (H3 eq_refl). rewrite <-H1, length_app in Hl. lia.
Qed.

Definition two_messages : list bytes := [list_ascii_of_string "ab"; []; list_ascii_of_string "cde"].

Lemma wsconn_roundtrip_witness :
  let '(got, ended, w') := read_all [1; 1; 5; 5] (New (writes two_messages (New [])).(ws_out)) in
  got = list_ascii_of_string "abcde" ∧ got ++ stream w' = list_ascii_of_string "abcde".
Proof.
  split; [vm_compute; reflexivity|].
  assert (H : Forall (λ k, 0 < k) [1; 1; 5; 5]) by (repeat constructor; lia).
  exact (proj1 (wsconn_roundtrip two_messages [1; 1; 5; 5] H)).
Defined.
