(* ===== verification/Pipe.v ===== *)
(** * Copying between connections (common/util/net.go, session/server.go, handler/handler.go)

    [PipeBidir] of the server and [pipeTCP] of the client are the same code:
    two goroutines copy between two connections, each tells the end of its
    source to its destination if that is a TCP connection, and both
    connections are closed when both have returned.  [relayWSPipe] does it
    for the messages of two WebSockets, without passing the end on.

    One direction is a [Dir]; what flows is bytes or messages.  A public
    connection reaches the local service through two pipes and the tunnel
    connection between them ([tunnel_step]).  The steps interleave the
    goroutines, the network and the peers at both ends. *)

From S2P Require Import Prelude.

(** What one call of [Read] can bring: some bytes, or one message. *)
Class Source (A : Type) := {
  one : list A → Prop;
  one_ne c : one c → c ≠ [];
  one_some l : l ≠ [] → ∃ c rest, l = c ++ rest ∧ one c;
}.
#[export] Instance bytes_source : Source ascii.
Proof. refine {| one := λ c, c ≠ [] |}; [done|]. intros l Hl. exists l, []. by rewrite app_nil_r. Defined.
(** A message of a WebSocket: its type and its data. *)
Definition ws_message : Type := Z * bytes.
#[export] Instance message_source : Source ws_message.
Proof.
  refine {| one := λ c, length c = 1 |}; [by intros [|]|]. intros [|m l] Hl; [done|]. by exists [m], l.
Defined.

(** ** One direction *)

(** [CopyEnded true] after the end of the source, [CopyEnded false] after an
    error. *)
Inductive copy_phase {A : Type} := Copying | Holding (chunk : list A) | CopyEnded (complete : bool).
Arguments copy_phase A : clear implicits.

Record Dir {A : Type} := mkDir {
  (* the source: what arrived, whether its peer has finished, what was read *)
  arrived : list A;
  ended : bool;
  nread : nat;
  phase : copy_phase A;
  (* the destination: what was written, whether its peer knows of the end *)
  out : list A;
  told : bool;
}.
Arguments Dir A : clear implicits.
Arguments mkDir {A}.

Section pipe.
Context {A : Type} `{!Source A}.
Implicit Types d : Dir A.

Definition new_dir : Dir A := mkDir [] false 0 Copying [] false.
Definition arrive (l : list A) d : Dir A := mkDir (d.(arrived) ++ l) d.(ended) d.(nread) d.(phase) d.(out) d.(told).
Definition finish d : Dir A := mkDir d.(arrived) true d.(nread) d.(phase) d.(out) d.(told).

(** [io.Copy]; [tcp] says whether the destination is a TCP connection, for
    [CloseWrite]. *)
Definition read (c : list A) d : Dir A := mkDir d.(arrived) d.(ended) (d.(nread) + length c) (Holding c) d.(out) d.(told).
Definition wrote (c : list A) d : Dir A := mkDir d.(arrived) d.(ended) d.(nread) Copying (d.(out) ++ c) d.(told).
Definition leave (tcp complete : bool) d : Dir A :=
  mkDir d.(arrived) d.(ended) d.(nread) (CopyEnded complete) d.(out) (d.(told) || tcp).
Definition tell d : Dir A := mkDir d.(arrived) d.(ended) d.(nread) d.(phase) d.(out) true.

Inductive copy_step (tcp faults : bool) d : Dir A → Prop :=
| SRead c rest : d.(phase) = Copying → drop d.(nread) d.(arrived) = c ++ rest → one c → copy_step tcp faults d (read c d)
| SWrite c : d.(phase) = Holding c → copy_step tcp faults d (wrote c d)
| SEnd : d.(phase) = Copying → d.(nread) = length d.(arrived) → d.(ended) = true → copy_step tcp faults d (leave tcp true d)
| SReadFails : faults = true → d.(phase) = Copying → copy_step tcp faults d (leave tcp false d)
| SWriteFails c n : faults = true → d.(phase) = Holding c → copy_step tcp faults d (leave tcp false (wrote (take n c) d)).

Definition is_ended d : bool := match d.(phase) with CopyEnded _ => true | _ => false end.
Definition copy_ended d : Prop := is_ended d = true.

(** What is true of a direction at any time. *)
Record dir_ok (faults : bool) d : Prop := mkDirOk {
  do_read : d.(nread) <= length d.(arrived);
  do_phase : match d.(phase) with
             | Copying => d.(out) = take d.(nread) d.(arrived)
             | Holding c => c ≠ [] ∧ d.(out) ++ c = take d.(nread) d.(arrived)
             | CopyEnded true => d.(out) = d.(arrived) ∧ d.(nread) = length d.(arrived) ∧ d.(ended) = true
             | CopyEnded false => faults = true ∧ d.(out) `prefix_of` d.(arrived)
             end;
  do_told : d.(told) = true → copy_ended d;
}.

Lemma new_dir_ok faults : dir_ok faults new_dir.
Proof. by split. Qed.
Lemma arrive_ok faults l d : d.(ended) = false → dir_ok faults d → dir_ok faults (arrive l d).
Proof.
  intros He [Hr Hp Ht]. split; cbn; [rewrite length_app; lia| |exact Ht].
  destruct (phase d) as [|c|[]]; [by rewrite take_app_le|by rewrite take_app_le|by destruct Hp as (_ & _ & ?); congruence|].
  destruct Hp. split; [done|by apply prefix_app_r].
Qed.
Lemma finish_dir_ok faults d : dir_ok faults d → dir_ok faults (finish d).
Proof. intros [Hr Hp Ht]. split; [done| |done]. cbn. by destruct (phase d) as [|c|[]]; naive_solver. Qed.
Lemma tell_ok faults d : copy_ended d → dir_ok faults d → dir_ok faults (tell d).
Proof. by intros He [Hr Hp Ht]. Qed.

Lemma copy_step_ok tcp faults d d' : copy_step tcp faults d d' → dir_ok faults d → dir_ok faults d'.
Proof.
  intros Hs [Hr Hp Ht]. unfold copy_ended, is_ended in Ht.
  destruct Hs as [c rest Hph Hc H1|c Hph|Hph Hn He|Hf Hph|c n Hf Hph]; rewrite Hph in Hp, Ht; split; cbn; try done.
  - apply (f_equal length) in Hc. rewrite length_drop, length_app in Hc. lia.
  - split; [by apply one_ne|]. rewrite Hp.
    assert (Ha : d.(arrived) = (take d.(nread) d.(arrived) ++ c) ++ rest) by by rewrite <-app_assoc, <-Hc, take_drop.
    rewrite Ha at 2. rewrite take_app_length'; [done|]. rewrite length_app, length_take. lia.
  - by destruct Hp as [_ Hp].
  - split_and!; [|done..]. rewrite Hp, Hn. by rewrite take_ge.
  - split; [done|]. rewrite Hp. apply prefix_take.
  - split; [done|]. destruct Hp as [_ Hp]. transitivity (out d ++ c); [|rewrite Hp; apply prefix_take].
    apply prefix_app, prefix_take.
Qed.

Lemma out_prefix faults d : dir_ok faults d → d.(out) `prefix_of` d.(arrived).
Proof.
  intros [Hr Hp _]. destruct (phase d) as [|c|[]]; [rewrite Hp; apply prefix_take| |by destruct Hp as [-> _]|by destruct Hp].
  destruct Hp as [_ Hp]. transitivity (out d ++ c); [by apply prefix_app_r|rewrite Hp; apply prefix_take].
Qed.

(** How far the goroutine has come; every step moves it on. *)
Definition progress d : nat := d.(nread) + length d.(out) + (if is_ended d then 1 else 0).

Lemma copy_step_progress tcp d d' : dir_ok false d → copy_step tcp false d d' → progress d < progress d'.
Proof.
  intros [Hr Hp Ht] Hs. unfold progress, is_ended.
  destruct Hs as [c rest Hph Hc H1|c Hph|Hph Hn He|Hf Hph|c n Hf Hph]; try done; rewrite Hph in Hp; cbn; rewrite Hph.
  - apply one_ne in H1. destruct c; [done|]. cbn. lia.
  - destruct Hp as [Hc _]. destruct c; [done|]. rewrite length_app. cbn. lia.
  - cbn. lia.
Qed.
Lemma progress_bound d : dir_ok false d → progress d <= 2 * length d.(arrived) + 1.
Proof.
  intros [Hr Hp Ht]. unfold progress. assert (length d.(out) <= length d.(arrived)); [|destruct (is_ended d); lia].
  destruct (phase d) as [|c|[]]; [|destruct Hp as [_ Hp]|by destruct Hp as [-> _]|by destruct Hp].
  - rewrite Hp, length_take. lia.
  - apply (f_equal length) in Hp. rewrite length_app, length_take in Hp. lia.
Qed.

(** A goroutine that cannot go on has returned, or waits for its source. *)
Lemma copy_stuck tcp d :
  dir_ok false d → (∀ d', ¬ copy_step tcp false d d') →
  (copy_ended d ∧ d.(out) = d.(arrived) ∧ d.(ended) = true) ∨
  (d.(phase) = Copying ∧ d.(out) = d.(arrived) ∧ d.(ended) = false).
Proof.
  intros [Hr Hp Ht] Hstuck. unfold copy_ended, is_ended. destruct (phase d) as [|c|[]] eqn:Hph; [right| |by left; naive_solver|by destruct Hp].
  - assert (Hn : d.(nread) = length d.(arrived)).
    { destruct (drop d.(nread) d.(arrived)) as [|x l] eqn:Hd; [apply (f_equal length) in Hd; rewrite length_drop in Hd; cbn in Hd; lia|].
      destruct (one_some (x :: l)) as (c & rest & Hc & H1); [done|]. destruct (Hstuck (read c d)). apply SRead with rest; [done| |done].
      by rewrite Hd. }
    split_and!; [done|by rewrite Hp, Hn, take_ge|]. destruct (ended d) eqn:He; [|done]. by destruct (Hstuck (leave tcp true d)); constructor.
  - by destruct (Hstuck (wrote c d)); constructor.
Qed.

Lemma copy_step_keeps tcp faults d d' : copy_step tcp faults d d' → d'.(arrived) = d.(arrived) ∧ d'.(ended) = d.(ended).
Proof. by intros []. Qed.
Lemma copy_step_out tcp faults d d' : copy_step tcp faults d d' → d.(out) `prefix_of` d'.(out) ∧ ¬ copy_ended d.
Proof.
  unfold copy_ended, is_ended. intros [c rest Hph Hc H1|c Hph|Hph Hn He|Hf Hph|c n Hf Hph]; rewrite Hph; cbn;
    (split; [by try (by apply prefix_app_r)|done]).
Qed.
Lemma copy_step_told f d d' : copy_step true f d d' → copy_ended d' → d'.(told) = true.
Proof. intros [] He; cbn in *; try done; by rewrite orb_true_r. Qed.

(** ** A pipe between [a] and [b] *)

Record Pipe := mkPipe { fwd : Dir A; bwd : Dir A; closed : bool }.
Definition new_pipe : Pipe := mkPipe new_dir new_dir false.
Definition on_fwd (f : Dir A → Dir A) (p : Pipe) : Pipe := mkPipe (f p.(fwd)) p.(bwd) p.(closed).
Definition on_bwd (f : Dir A → Dir A) (p : Pipe) : Pipe := mkPipe p.(fwd) (f p.(bwd)) p.(closed).
(** Closing both connections tells both peers. *)
Definition close (p : Pipe) : Pipe := mkPipe (tell p.(fwd)) (tell p.(bwd)) true.

(** The goroutines of the pipe, and the one that waits for them. *)
Inductive go_step (tcp_a tcp_b faults_f faults_b : bool) (p : Pipe) : Pipe → Prop :=
| GFwd d' : copy_step tcp_b faults_f p.(fwd) d' → go_step tcp_a tcp_b faults_f faults_b p (on_fwd (λ _, d') p)
| GBwd d' : copy_step tcp_a faults_b p.(bwd) d' → go_step tcp_a tcp_b faults_f faults_b p (on_bwd (λ _, d') p)
| GClose : copy_ended p.(fwd) → copy_ended p.(bwd) → p.(closed) = false → go_step tcp_a tcp_b faults_f faults_b p (close p).

(** The peers of [a] and [b]. *)
Inductive peer_step (p : Pipe) : Pipe → Prop :=
| PFwd l : p.(fwd).(ended) = false → peer_step p (on_fwd (arrive l) p)
| PFwdEnd : peer_step p (on_fwd finish p)
| PBwd l : p.(bwd).(ended) = false → peer_step p (on_bwd (arrive l) p)
| PBwdEnd : peer_step p (on_bwd finish p).

Definition pipe_step (tcp_a tcp_b faults_f faults_b : bool) (p p' : Pipe) : Prop :=
  go_step tcp_a tcp_b faults_f faults_b p p' ∨ peer_step p p'.

Definition pipe_ok (faults_f faults_b : bool) (p : Pipe) : Prop := dir_ok faults_f p.(fwd) ∧ dir_ok faults_b p.(bwd).

Lemma go_step_ok ta tb ff fb p p' : go_step ta tb ff fb p p' → pipe_ok ff fb p → pipe_ok ff fb p'.
Proof.
  intros [d' Hs|d' Hs|Hf Hb _] [H1 H2]; split; cbn; try done; [by eapply copy_step_ok|by eapply copy_step_ok|by apply tell_ok..].
Qed.
Lemma peer_step_ok ff fb p p' : peer_step p p' → pipe_ok ff fb p → pipe_ok ff fb p'.
Proof. intros [l He| |l He|] [H1 H2]; split; cbn; try done; [by apply arrive_ok|by apply finish_dir_ok|by apply arrive_ok|by apply finish_dir_ok]. Qed.
Lemma pipe_reachable_ok ta tb ff fb p : rtc (pipe_step ta tb ff fb) new_pipe p → pipe_ok ff fb p.
Proof.
  intros H. apply (rtc_invariant (pipe_step ta tb ff fb) (pipe_ok ff fb) new_pipe p); [|split; apply new_dir_ok|exact H].
  intros x y Hx [Hs|Hs]; [by eapply go_step_ok|by eapply peer_step_ok].
Qed.

(** Whatever happens to the two connections, each side has received a
    prefix of what the other sent, in order; a goroutine that has returned
    without an error has passed on everything up to the end; and the two
    connections are only closed when both have returned. *)
Theorem pipe_in_order (tcp_a tcp_b faults_f faults_b : bool) (p : Pipe) :
  rtc (pipe_step tcp_a tcp_b faults_f faults_b) new_pipe p →
  ∀ d, d = p.(fwd) ∨ d = p.(bwd) →
  d.(out) `prefix_of` d.(arrived) ∧
  (d.(phase) = CopyEnded true → d.(out) = d.(arrived) ∧ d.(ended) = true) ∧
  (d.(told) = true → copy_ended d).
Proof.
  intros [H1 H2]%pipe_reachable_ok d Hd.
  assert (∃ f, dir_ok f d) as [f Hok] by (destruct Hd as [->| ->]; by eexists).
  split_and!; [by eapply out_prefix| |apply Hok]. intros Hph. pose proof (do_phase _ _ Hok) as Hp. rewrite Hph in Hp. naive_solver.
Qed.

(** What the goroutines of a pipe still have to do, when nothing fails. *)
Definition pipe_progress (p : Pipe) : nat := progress p.(fwd) + progress p.(bwd) + (if p.(closed) then 1 else 0).

Lemma go_step_progress ta tb p p' :
  pipe_ok false false p → go_step ta tb false false p p' →
  pipe_progress p < pipe_progress p' ∧ length p'.(fwd).(arrived) = length p.(fwd).(arrived) ∧ length p'.(bwd).(arrived) = length p.(bwd).(arrived).
Proof.
  intros [H1 H2] [d' Hs|d' Hs|Hf Hb Hc]; unfold pipe_progress; cbn.
  - pose proof (copy_step_progress _ _ _ H1 Hs). destruct (copy_step_keeps _ _ _ _ Hs) as [-> _]. lia.
  - pose proof (copy_step_progress _ _ _ H2 Hs). destruct (copy_step_keeps _ _ _ _ Hs) as [-> _]. lia.
  - rewrite Hc. unfold progress, is_ended. cbn. lia.
Qed.

(** A pipe whose connections do not fail comes to its end: its goroutines
    take no more steps than there is to copy, and when both peers have
    finished they do not stop before everything has been passed on, in both
    directions, and both connections are closed. *)
Theorem pipe_ends (tcp_a tcp_b : bool) (p p' : Pipe) (n : nat) :
  rtc (pipe_step tcp_a tcp_b false false) new_pipe p → nsteps (go_step tcp_a tcp_b false false) n p p' →
  n <= 2 * (length p.(fwd).(arrived) + length p.(bwd).(arrived)) + 3 ∧
  (p.(fwd).(ended) = true → p.(bwd).(ended) = true → (∀ p'', ¬ go_step tcp_a tcp_b false false p' p'') →
   p'.(closed) = true ∧ p'.(fwd).(out) = p.(fwd).(arrived) ∧ p'.(bwd).(out) = p.(bwd).(arrived)).
Proof.
  intros Hok%pipe_reachable_ok Hn.
  assert (Hrun : pipe_ok false false p' ∧ pipe_progress p + n <= pipe_progress p' ∧
    p'.(fwd).(arrived) = p.(fwd).(arrived) ∧ p'.(bwd).(arrived) = p.(bwd).(arrived) ∧
    p'.(fwd).(ended) = p.(fwd).(ended) ∧ p'.(bwd).(ended) = p.(bwd).(ended)).
  { induction Hn as [q|n q q1 q2 Hs _ IH]; [split_and!; done || lia|].
    specialize (IH (go_step_ok _ _ _ _ _ _ Hs Hok)). destruct (go_step_progress _ _ _ _ Hok Hs) as [Hlt _].
    assert (Hk : q1.(fwd).(arrived) = q.(fwd).(arrived) ∧ q1.(bwd).(arrived) = q.(bwd).(arrived) ∧
      q1.(fwd).(ended) = q.(fwd).(ended) ∧ q1.(bwd).(ended) = q.(bwd).(ended)).
    { destruct Hs as [d' Hs|d' Hs|]; [|destruct (copy_step_keeps _ _ _ _ Hs)..|]; try destruct (copy_step_keeps _ _ _ _ Hs); by cbn. }
    destruct Hk as (<- & <- & <- & <-). naive_solver lia. }
  destruct Hrun as ((H1 & H2) & Hle & Ef & Eb & Df & Db). split.
  - pose proof (progress_bound _ H1). pose proof (progress_bound _ H2). rewrite <-Ef, <-Eb. unfold pipe_progress in Hle.
    destruct (closed p'); lia.
  - rewrite <-Df, <-Db, <-Ef, <-Eb. intros He1 He2 Hstuck.
    assert (Hs1 : ∀ d', ¬ copy_step tcp_b false (fwd p') d') by (intros d' Hs; eapply Hstuck; by apply GFwd).
    assert (Hs2 : ∀ d', ¬ copy_step tcp_a false (bwd p') d') by (intros d' Hs; eapply Hstuck; by apply GBwd).
    destruct (copy_stuck _ _ H1 Hs1) as [(C1 & O1 & _)|(_ & _ & ?)]; [|congruence].
    destruct (copy_stuck _ _ H2 Hs2) as [(C2 & O2 & _)|(_ & _ & ?)]; [|congruence].
    split_and!; [|done..]. destruct (closed p') eqn:Hc; [done|]. by destruct (Hstuck (close p')); constructor.
Qed.

(** The end of one side is passed on only to a TCP connection: a pipe
    that ends in a WebSocket and whose WebSocket stays silent is never
    closed, and its peer never learns that the other side has gone. *)
Theorem end_not_passed_on (tcp_a faults_f : bool) (p : Pipe) :
  rtc (pipe_step tcp_a false faults_f false) new_pipe p → p.(bwd).(ended) = false →
  p.(closed) = false ∧ p.(fwd).(told) = false.
Proof.
  intros Hr. assert (Hinv : pipe_ok faults_f false p ∧ (p.(bwd).(ended) = false → p.(closed) = false ∧ p.(fwd).(told) = false)); [|by apply Hinv].
  apply (rtc_invariant (pipe_step tcp_a false faults_f false)
    (λ p, pipe_ok faults_f false p ∧ (p.(bwd).(ended) = false → p.(closed) = false ∧ p.(fwd).(told) = false)) new_pipe p);
    [|split; [split; apply new_dir_ok|done]|exact Hr].
  clear. intros p p' [Hok IH] Hs. split; [by destruct Hs as [Hs|Hs]; [eapply go_step_ok|eapply peer_step_ok]|].
  destruct Hs as [[d' Hs|d' Hs|Hf Hb Hc]|[l He| |l He|]]; cbn; try done.
  - intros He. destruct (IH He) as [Hc Ht]. split; [done|]. destruct Hs; cbn; by rewrite ?orb_false_r.
  - destruct (copy_step_keeps _ _ _ _ Hs) as [_ ->]. done.
  - intros He. destruct Hok as [_ [_ Hp _]]. unfold copy_ended, is_ended in Hb. destruct (phase (bwd p)) as [|c|[]]; try done.
    + destruct Hp as (_ & _ & ?). congruence.
    + by destruct Hp.
Qed.
End pipe.
Arguments Pipe A : clear implicits.

(** ** From a public connection to the local service *)

(** Between a public connection and the tunnel ([PipeBidir] of
    [startTunnelLoop]), and between the tunnel and the local service
    ([pipeTCP] of [connectAndPipe]). *)
Record Tunnel := mkTunnel { server : Pipe ascii; client : Pipe ascii }.
Definition new_tunnel : Tunnel := mkTunnel new_pipe new_pipe.
Definition on_server (f : Pipe ascii → Pipe ascii) (t : Tunnel) : Tunnel := mkTunnel (f t.(server)) t.(client).
Definition on_client (f : Pipe ascii → Pipe ascii) (t : Tunnel) : Tunnel := mkTunnel t.(server) (f t.(client)).

(** The goroutines of both programs, and the tunnel connection, which
    delivers in order what one side wrote and then its end. *)
Inductive inner_step (faults : bool) (t : Tunnel) : Tunnel → Prop :=
| TServer p' : go_step true true faults faults t.(server) p' → inner_step faults t (on_server (λ _, p') t)
| TClient p' : go_step true true faults faults t.(client) p' → inner_step faults t (on_client (λ _, p') t)
| TForth l : l ≠ [] → t.(client).(fwd).(ended) = false → (t.(client).(fwd).(arrived) ++ l) `prefix_of` t.(server).(fwd).(out) →
    inner_step faults t (on_client (on_fwd (arrive l)) t)
| TForthEnd : t.(client).(fwd).(ended) = false → t.(client).(fwd).(arrived) = t.(server).(fwd).(out) → t.(server).(fwd).(told) = true →
    inner_step faults t (on_client (on_fwd finish) t)
| TBack l : l ≠ [] → t.(server).(bwd).(ended) = false → (t.(server).(bwd).(arrived) ++ l) `prefix_of` t.(client).(bwd).(out) →
    inner_step faults t (on_server (on_bwd (arrive l)) t)
| TBackEnd : t.(server).(bwd).(ended) = false → t.(server).(bwd).(arrived) = t.(client).(bwd).(out) → t.(client).(bwd).(told) = true →
    inner_step faults t (on_server (on_bwd finish) t).
(** The public peer and the local service. *)
Inductive outer_step (t : Tunnel) : Tunnel → Prop :=
| TPublic l : t.(server).(fwd).(ended) = false → outer_step t (on_server (on_fwd (arrive l)) t)
| TPublicEnd : outer_step t (on_server (on_fwd finish) t)
| TLocal l : t.(client).(bwd).(ended) = false → outer_step t (on_client (on_bwd (arrive l)) t)
| TLocalEnd : outer_step t (on_client (on_bwd finish) t).
Definition tunnel_step (faults : bool) (t t' : Tunnel) : Prop := inner_step faults t t' ∨ outer_step t t'.

(** The network between a destination and the source it is for. *)
Record link_ok (up down : Dir ascii) : Prop := mkLinkOk {
  lk_prefix : down.(arrived) `prefix_of` up.(out);
  lk_end : down.(ended) = true → down.(arrived) = up.(out) ∧ up.(told) = true;
}.
Record tunnel_ok (faults : bool) (t : Tunnel) : Prop := mkTunnelOk {
  to_server : pipe_ok faults faults t.(server);
  to_client : pipe_ok faults faults t.(client);
  to_forth : link_ok t.(server).(fwd) t.(client).(fwd);
  to_back : link_ok t.(client).(bwd) t.(server).(bwd);
  to_told_f : copy_ended t.(server).(fwd) → t.(server).(fwd).(told) = true;
  to_told_b : copy_ended t.(client).(bwd) → t.(client).(bwd).(told) = true;
  to_told_l : copy_ended t.(client).(fwd) → t.(client).(fwd).(told) = true;
  to_told_s : copy_ended t.(server).(bwd) → t.(server).(bwd).(told) = true;
}.

Lemma link_up f up up' down : dir_ok f up → copy_step true f up up' → link_ok up down → link_ok up' down.
Proof.
  intros Hok Hs [Hp He]. destruct (copy_step_out _ _ _ _ Hs) as [Ho Hne]. split; [by etrans|].
  intros Hd. destruct (He Hd) as [_ Ht%(do_told _ _ Hok)]. done.
Qed.
Lemma link_down tcp f up down down' : copy_step tcp f down down' → link_ok up down → link_ok up down'.
Proof. intros Hs [Hp He]. destruct (copy_step_keeps _ _ _ _ Hs) as [Ha Hd]. split; rewrite Ha, ?Hd; done. Qed.

Lemma link_tell up down : link_ok up down → link_ok (tell up) down.
Proof. intros [Hp He]. split; [done|]. intros Hd. by destruct (He Hd). Qed.
Lemma link_tell_down up down : link_ok up down → link_ok up (tell down).
Proof. by intros [Hp He]. Qed.

Lemma inner_step_ok f t t' : inner_step f t t' → tunnel_ok f t → tunnel_ok f t'.
Proof.
  intros Hs [Hsv Hcl Lf Lb Tf Tb Tl Ts]. destruct Hs as [p' Hs|p' Hs|l Hl He Hpre|He Heq Ht|l Hl He Hpre|He Heq Ht].
  - pose proof (go_step_ok _ _ _ _ _ _ Hs Hsv) as Hsv'. destruct Hsv as [O1 O2].
    destruct Hs as [d' Hs|d' Hs|H1 H2 Hc]; split; cbn; try done.
    + exact (link_up f _ _ _ O1 Hs Lf).
    + intros He. exact (copy_step_told _ _ _ Hs He).
    + exact (link_down _ _ _ _ _ Hs Lb).
    + intros He. exact (copy_step_told _ _ _ Hs He).
    + by apply link_tell.
    + by apply link_tell_down.
  - pose proof (go_step_ok _ _ _ _ _ _ Hs Hcl) as Hcl'. destruct Hcl as [O1 O2].
    destruct Hs as [d' Hs|d' Hs|H1 H2 Hc]; split; cbn; try done.
    + exact (link_down _ _ _ _ _ Hs Lf).
    + intros He. exact (copy_step_told _ _ _ Hs He).
    + exact (link_up f _ _ _ O2 Hs Lb).
    + intros He. exact (copy_step_told _ _ _ Hs He).
    + by apply link_tell_down.
    + by apply link_tell.
  - destruct Hcl as [O1 O2]. split; cbn; try done; [split; [by apply arrive_ok|done]|].
    split; cbn; [done|]. intros Hd. congruence.
  - destruct Hcl as [O1 O2]. split; cbn; try done; [split; [by apply finish_dir_ok|done]|]. by split; cbn; [rewrite Heq|].
  - destruct Hsv as [O1 O2]. split; cbn; try done; [split; [done|by apply arrive_ok]|].
    split; cbn; [done|]. intros Hd. congruence.
  - destruct Hsv as [O1 O2]. split; cbn; try done; [split; [done|by apply finish_dir_ok]|]. by split; cbn; [rewrite Heq|].
Qed.
Lemma outer_step_ok f t t' : outer_step t t' → tunnel_ok f t → tunnel_ok f t'.
Proof.
  intros Hs [[S1 S2] [C1 C2] [Pf Ef] [Pb Eb] Tf Tb Tl Ts].
  destruct Hs as [l He| |l He|]; split; cbn; try done; split; cbn; try done; by apply arrive_ok || apply finish_dir_ok.
Qed.
Lemma tunnel_reachable_ok f t : rtc (tunnel_step f) new_tunnel t → tunnel_ok f t.
Proof.
  apply (rtc_invariant (tunnel_step f) (tunnel_ok f)); [|by split; try done; split; try done; apply new_dir_ok].
  intros x y Hx [Hs|Hs]; [by eapply inner_step_ok|by eapply outer_step_ok].
Qed.

(** A connection through the tunnel is a stream in each direction:
    whatever fails, the local service has received a prefix of what the
    public peer sent, in order, and the public peer a prefix of what the
    local service sent. *)
Theorem tunnel_in_order (faults : bool) (t : Tunnel) :
  rtc (tunnel_step faults) new_tunnel t →
  t.(client).(fwd).(out) `prefix_of` t.(server).(fwd).(arrived) ∧
  t.(server).(bwd).(out) `prefix_of` t.(client).(bwd).(arrived).
Proof.
  intros [[S1 S2] [C1 C2] [Pf _] [Pb _] _ _ _ _]%tunnel_reachable_ok. split.
  - etrans; [by eapply out_prefix|]. etrans; [exact Pf|]. by eapply out_prefix.
  - etrans; [by eapply out_prefix|]. etrans; [exact Pb|]. by eapply out_prefix.
Qed.

Definition tunnel_progress (t : Tunnel) : nat :=
  pipe_progress t.(server) + pipe_progress t.(client) + length t.(client).(fwd).(arrived) + length t.(server).(bwd).(arrived) +
  (if t.(client).(fwd).(ended) then 1 else 0) + (if t.(server).(bwd).(ended) then 1 else 0).

Lemma inner_step_progress t t' :
  tunnel_ok false t → inner_step false t t' →
  tunnel_progress t < tunnel_progress t' ∧
  t'.(server).(fwd).(arrived) = t.(server).(fwd).(arrived) ∧ t'.(server).(fwd).(ended) = t.(server).(fwd).(ended) ∧
  t'.(client).(bwd).(arrived) = t.(client).(bwd).(arrived) ∧ t'.(client).(bwd).(ended) = t.(client).(bwd).(ended).
Proof.
  intros [Hsv Hcl _ _ _ _ _ _] Hs. unfold tunnel_progress. destruct Hs as [p' Hs|p' Hs|l Hl He Hpre|He Heq Ht|l Hl He Hpre|He Heq Ht]; cbn.
  - destruct (go_step_progress _ _ _ _ Hsv Hs) as (Hlt & _ & Hb). rewrite Hb.
    destruct Hs as [d' Hs|d' Hs|]; cbn -[pipe_progress] in *; try destruct (copy_step_keeps _ _ _ _ Hs) as [Ha He];
      rewrite ?Ha, ?He; split_and!; done || lia.
  - destruct (go_step_progress _ _ _ _ Hcl Hs) as (Hlt & Hf & _). rewrite Hf.
    destruct Hs as [d' Hs|d' Hs|]; cbn -[pipe_progress] in *; try destruct (copy_step_keeps _ _ _ _ Hs) as [Ha He];
      rewrite ?Ha, ?He; split_and!; done || lia.
  - rewrite length_app. destruct l; [done|]. cbn. unfold pipe_progress, progress, is_ended. cbn. split_and!; done || lia.
  - rewrite He. unfold pipe_progress, progress, is_ended. cbn. split_and!; done || lia.
  - rewrite length_app. destruct l; [done|]. cbn. unfold pipe_progress, progress, is_ended. cbn. split_and!; done || lia.
  - rewrite He. unfold pipe_progress, progress, is_ended. cbn. split_and!; done || lia.
Qed.

Lemma tunnel_progress_bound t :
  tunnel_ok false t → tunnel_progress t <= 5 * (length t.(server).(fwd).(arrived) + length t.(client).(bwd).(arrived)) + 8.
Proof.
  intros [[S1 S2] [C1 C2] [Pf _] [Pb _] _ _ _ _].
  assert (Hf : length t.(client).(fwd).(arrived) <= length t.(server).(fwd).(arrived)).
  { apply prefix_length. etrans; [exact Pf|]. by eapply out_prefix. }
  assert (Hb : length t.(server).(bwd).(arrived) <= length t.(client).(bwd).(arrived)).
  { apply prefix_length. etrans; [exact Pb|]. by eapply out_prefix. }
  pose proof (progress_bound _ S1). pose proof (progress_bound _ S2). pose proof (progress_bound _ C1). pose proof (progress_bound _ C2).
  unfold tunnel_progress, pipe_progress. repeat case_match; lia.
Qed.

Lemma nsteps_progress n t t' :
  tunnel_ok false t → nsteps (inner_step false) n t t' →
  tunnel_ok false t' ∧ tunnel_progress t + n <= tunnel_progress t' ∧
  t'.(server).(fwd).(arrived) = t.(server).(fwd).(arrived) ∧ t'.(server).(fwd).(ended) = t.(server).(fwd).(ended) ∧
  t'.(client).(bwd).(arrived) = t.(client).(bwd).(arrived) ∧ t'.(client).(bwd).(ended) = t.(client).(bwd).(ended).
Proof.
  intros Hok Hn. induction Hn as [t|n t t1 t2 Hs _ IH]; [split_and!; done || lia|].
  specialize (IH (inner_step_ok _ _ _ Hs Hok)). destruct (inner_step_progress _ _ Hok Hs) as (Hlt & <- & <- & <- & <-).
  destruct IH as (? & ? & ? & ? & ? & ?). split_and!; done || lia.
Qed.

(** Where nothing moves, what one side sent has come to the other, and so
    has its end. *)
Lemma stuck_direction up down :
  dir_ok false up → dir_ok false down → link_ok up down → (copy_ended up → up.(told) = true) → (copy_ended down → down.(told) = true) →
  (∀ d', ¬ copy_step true false up d') → (∀ d', ¬ copy_step true false down d') →
  (∀ l, l ≠ [] → down.(ended) = false → (down.(arrived) ++ l) `prefix_of` up.(out) → False) →
  (down.(ended) = false → down.(arrived) = up.(out) → up.(told) = true → False) →
  down.(out) = up.(arrived) ∧ (up.(ended) = true → copy_ended up ∧ copy_ended down ∧ down.(told) = true).
Proof.
  intros Hu Hd [Hp He] Tu Td Su Sd Hdata Hend.
  assert (Ha : down.(arrived) = up.(out)).
  { destruct (ended down) eqn:E; [by destruct (He eq_refl)|]. destruct Hp as [[|x l] Hl]; [by rewrite app_nil_r in Hl|].
    exfalso. apply (Hdata (x :: l)); [done|done|by rewrite <-Hl]. }
  destruct (copy_stuck _ _ Hu Su) as [(Cu & Ou & Eu)|(Pu & Ou & Eu)].
  - destruct (copy_stuck _ _ Hd Sd) as [(Cd & Od & Ed)|(Pd & Od & Ed)].
    + split; [by rewrite Od, Ha|]. auto.
    + exfalso. by apply Hend; [..|apply Tu].
  - split; [|congruence]. destruct (copy_stuck _ _ Hd Sd) as [(Cd & Od & Ed)|(Pd & Od & Ed)]; by rewrite Od, Ha.
Qed.

(** C17. While no connection fails the two programs and the network between
    them take a bounded number of steps, and when they can take no more, the
    local service has everything the public peer sent, and the public peer
    everything the local service sent.  The end of one side reaches the other
    although the other goes on: a service that answers after the end of the
    request works.  When both have finished, all four connections are
    closed. *)
Theorem tunnel_delivers (t t' : Tunnel) (n : nat) :
  rtc (tunnel_step false) new_tunnel t → nsteps (inner_step false) n t t' →
  n <= 5 * (length t.(server).(fwd).(arrived) + length t.(client).(bwd).(arrived)) + 8 ∧
  ((∀ t'', ¬ inner_step false t' t'') →
   t'.(client).(fwd).(out) = t.(server).(fwd).(arrived) ∧ t'.(server).(bwd).(out) = t.(client).(bwd).(arrived) ∧
   (t.(server).(fwd).(ended) = true → t'.(client).(fwd).(told) = true) ∧
   (t.(client).(bwd).(ended) = true → t'.(server).(bwd).(told) = true) ∧
   (t.(server).(fwd).(ended) = true → t.(client).(bwd).(ended) = true → t'.(server).(closed) = true ∧ t'.(client).(closed) = true)).
Proof.
  intros Hok%tunnel_reachable_ok Hn. destruct (nsteps_progress _ _ _ Hok Hn) as (Hok' & Hle & <- & <- & <- & <-).
  split; [pose proof (tunnel_progress_bound _ Hok'); lia|]. intros Hstuck. destruct Hok' as [[S1 S2] [C1 C2] Lf Lb Tf Tb Tl Ts].
  destruct (stuck_direction t'.(server).(fwd) t'.(client).(fwd)) as [Of Ef]; try done.
  { intros d' Hs. eapply Hstuck, TServer. by apply GFwd. }
  { intros d' Hs. eapply Hstuck, TClient. by apply GFwd. }
  { intros l Hl He Hp. eapply Hstuck. by apply (TForth _ _ l). }
  { intros He Ha Ht. eapply Hstuck. by apply TForthEnd. }
  destruct (stuck_direction t'.(client).(bwd) t'.(server).(bwd)) as [Ob Eb]; try done.
  { intros d' Hs. eapply Hstuck, TClient. by apply GBwd. }
  { intros d' Hs. eapply Hstuck, TServer. by apply GBwd. }
  { intros l Hl He Hp. eapply Hstuck. by apply (TBack _ _ l). }
  { intros He Ha Ht. eapply Hstuck. by apply TBackEnd. }
  split_and!; [done|done|intros He; by apply Ef|intros He; by apply Eb|]. intros He1 He2.
  destruct (Ef He1) as (F1 & F2 & _), (Eb He2) as (B1 & B2 & _). split.
  - destruct (closed (server t')) eqn:Hc; [done|]. exfalso. eapply Hstuck, TServer. by apply GClose.
  - destruct (closed (client t')) eqn:Hc; [done|]. exfalso. eapply Hstuck, TClient. by apply GClose.
Qed.

(** ** At work *)

Definition hi : bytes := list_ascii_of_string "hi".
(** The public peer has sent two bytes and finished. *)
Definition asked : Tunnel := on_server (on_fwd finish) (on_server (on_fwd (arrive hi)) new_tunnel).
Lemma asked_reachable faults : rtc (tunnel_step faults) new_tunnel asked.
Proof.
  eapply rtc_l; [right; by apply (TPublic _ hi)|]. apply rtc_once. right. by apply TPublicEnd.
Qed.

(** The eight steps that bring them to the local service. *)
Definition copied (p : Pipe ascii) : Pipe ascii := on_fwd (leave true true) (on_fwd (wrote hi) (on_fwd (read hi) p)).
Definition answered : Tunnel := on_client copied (on_client (on_fwd finish) (on_client (on_fwd (arrive hi)) (on_server copied asked))).
Lemma copied_steps (p : Pipe ascii) :
  p.(fwd) = mkDir hi true 0 Copying [] false → nsteps (go_step true true false false) 3 p (copied p).
Proof.
  destruct p as [f b c]. cbn. intros ->. eapply nsteps_l; [by apply GFwd, (SRead _ _ _ hi [])|].
  eapply nsteps_l; [by apply GFwd, (SWrite _ _ _ hi)|]. eapply nsteps_l; [by apply GFwd, SEnd|]. constructor.
Qed.

Lemma nsteps_server n (t : Tunnel) (p' : Pipe ascii) :
  nsteps (go_step true true false false) n t.(server) p' → nsteps (inner_step false) n t (on_server (λ _, p') t).
Proof.
  intros Hn. remember t.(server) as p eqn:Hp. revert t Hp. induction Hn as [p|n p p1 p2 Hs _ IH]; intros t Hp.
  - replace (on_server _ t) with t; [constructor|]. by destruct t; cbn in *; subst.
  - eapply nsteps_l; [apply (TServer _ _ p1); by rewrite <-Hp|]. exact (IH (on_server (λ _, p1) t) eq_refl).
Qed.
Lemma nsteps_client n (t : Tunnel) (p' : Pipe ascii) :
  nsteps (go_step true true false false) n t.(client) p' → nsteps (inner_step false) n t (on_client (λ _, p') t).
Proof.
  intros Hn. remember t.(client) as p eqn:Hp. revert t Hp. induction Hn as [p|n p p1 p2 Hs _ IH]; intros t Hp.
  - replace (on_client _ t) with t; [constructor|]. by destruct t; cbn in *; subst.
  - eapply nsteps_l; [apply (TClient _ _ p1); by rewrite <-Hp|]. exact (IH (on_client (λ _, p1) t) eq_refl).
Qed.

Lemma answered_steps : nsteps (inner_step false) 8 asked answered.
Proof.
  eapply (nsteps_trans 3 5); [by apply (nsteps_server 3 asked (copied asked.(server))), copied_steps|].
  eapply nsteps_l; [by apply (TForth _ _ hi)|]. eapply nsteps_l; [by apply TForthEnd|].
  by apply (nsteps_client 3 (on_client _ _) (copied _)), copied_steps.
Qed.
Lemma answered_stuck t : ¬ inner_step false answered t.
Proof.
  intros Hs. inversion Hs as [p' Hg|p' Hg|l Hl He Hp|He|l Hl He Hp|He Heq Ht]; subst; try done.
  - inversion Hg as [d' Hd|d' Hd|]; try done; inversion Hd as [c rest Hph Hc H1| | | |]; try done. cbn in Hc. symmetry in Hc.
    apply app_eq_nil in Hc as [-> _]. by destruct H1.
  - inversion Hg as [d' Hd|d' Hd|]; try done; inversion Hd as [c rest Hph Hc H1| | | |]; try done. cbn in Hc. symmetry in Hc.
    apply app_eq_nil in Hc as [-> _]. by destruct H1.
  - cbn in Hp. by apply prefix_nil_inv in Hp.
Qed.

Lemma tunnel_in_order_witness :
  answered.(client).(fwd).(out) `prefix_of` answered.(server).(fwd).(arrived) ∧ answered.(client).(fwd).(out) = hi.
Proof.
  split; [|by vm_compute]. refine (proj1 (tunnel_in_order false answered _)). etrans; [apply asked_reachable|].
  apply (rtc_subrel (inner_step false)); [by left|]. apply rtc_nsteps. exists 8. exact answered_steps.
Defined.

Lemma tunnel_delivers_witness :
  answered.(client).(fwd).(out) = hi ∧ answered.(client).(fwd).(told) = true ∧ answered.(server).(bwd).(ended) = false.
Proof.
  destruct (tunnel_delivers asked answered 8 (asked_reachable false) answered_steps) as [_ H].
  destruct (H answered_stuck) as (Ho & _ & Ht & _). split_and!; [exact Ho|by apply Ht|by vm_compute].
Defined.

(** A relay of messages whose first end has gone. *)
Definition half_gone : Pipe ws_message := on_fwd (leave false true) (on_fwd finish new_pipe).
Lemma half_gone_reachable : rtc (pipe_step false false false false) new_pipe half_gone.
Proof. eapply rtc_l; [right; by apply PFwdEnd|]. apply rtc_once. left. by apply GFwd, SEnd. Qed.
Lemma end_not_passed_on_witness : half_gone.(closed) = false ∧ half_gone.(fwd).(told) = false.
Proof. by apply (end_not_passed_on false false half_gone half_gone_reachable). Defined.

Lemma pipe_in_order_witness :
  half_gone.(fwd).(out) `prefix_of` half_gone.(fwd).(arrived) ∧ half_gone.(fwd).(out) = half_gone.(fwd).(arrived).
Proof.
  destruct (pipe_in_order false false false false half_gone half_gone_reachable half_gone.(fwd) (or_introl eq_refl)) as (H1 & H2 & _).
  split; [exact H1|]. by apply H2.
Defined.

(** Both ends have gone. *)
Definition both_gone : Pipe ws_message := on_bwd finish half_gone.
Lemma pipe_ends_witness :
  2 <= 2 * 0 + 3 ∧ (close (on_bwd (leave false true) both_gone)).(closed) = true.
Proof.
  destruct (pipe_ends false false both_gone (close (on_bwd (leave false true) both_gone)) 2) as [Hn H].
  - etrans; [exact half_gone_reachable|]. apply rtc_once. right. by apply PBwdEnd.
  - eapply nsteps_l; [by apply GBwd, SEnd|]. eapply nsteps_l; [by apply GClose|constructor].
  - split; [exact Hn|]. apply H; [done|done|]. intros p Hs. inversion Hs as [d' Hd|d' Hd|]; try done; by inversion Hd.
Defined.
