(* ===== verification/Auth.v ===== *)
(** * Registration of clients (BBgrid_Server/auth/auth.go)

    Vouchers, the registry of clients and their namespaces, with the two
    files that hold the first two.  The certificate library is a record of
    the functions [signClientCertificate] calls; the authority's own files, the
    tokens and TLS are in Credentials.  The clock, the random source and what a write does to
    its file are arguments. *)

From S2P Require Import Prelude Disk.

(** ** Data *)

Record ClientRecord := mkClientRecord {
  cr_ClientID : string;
  cr_PublicKey : string;
  cr_Certificate : string;
  cr_Status : string;
  cr_Namespace : string;
  cr_Role : string;
  cr_CreatedAt : Z;
  cr_ApprovedAt : Z;
}.

Record NamespaceInfo := mkNamespace {
  ns_Name : string;
  ns_Description : string;
  ns_Type : string;
  ns_Clients : list string;
  ns_CreatedAt : Z;
}.

Record Voucher := mkVoucher {
  vc_Code : string;
  vc_MaxUses : Z;
  vc_UsedCount : Z;
  vc_ExpiresAt : Z;
  vc_Namespace : string;
  vc_Role : string;
  vc_CreatedAt : Z;
}.

Record Manager := mkManager {
  mg_clients : gmap string ClientRecord;
  mg_namespaces : gmap string NamespaceInfo;
  mg_vouchers : gmap string Voucher;
}.

#[export] Instance ClientRecord_eq_dec : EqDecision ClientRecord.
Proof. solve_decision. Defined.
#[export] Instance Voucher_eq_dec : EqDecision Voucher.
Proof. solve_decision. Defined.

Definition set_clients (m : Manager) (c : gmap string ClientRecord) : Manager :=
  mkManager c m.(mg_namespaces) m.(mg_vouchers).
Definition set_namespaces (m : Manager) (n : gmap string NamespaceInfo) : Manager :=
  mkManager m.(mg_clients) n m.(mg_vouchers).
Definition set_vouchers (m : Manager) (v : gmap string Voucher) : Manager :=
  mkManager m.(mg_clients) m.(mg_namespaces) v.

Definition ns_set_clients (l : list string) (n : NamespaceInfo) : NamespaceInfo :=
  mkNamespace n.(ns_Name) n.(ns_Description) n.(ns_Type) l n.(ns_CreatedAt).
Definition vc_set_used (u : Z) (v : Voucher) : Voucher :=
  mkVoucher v.(vc_Code) v.(vc_MaxUses) u v.(vc_ExpiresAt) v.(vc_Namespace) v.(vc_Role) v.(vc_CreatedAt).

(** ** Files *)

(** [os.WriteFile]: done, nothing written because the file did not open, or
    stopped after [n] bytes of the truncated file. *)
Inductive WriteFault := WriteDone | WriteNotOpen | WriteCut (n : nat).

Definition WriteFile (name : string) (data : bytes) (w : WriteFault) (d : directory) : Res unit * directory :=
  match w with
  | WriteDone => (Ok tt, <[name := data]> d)
  | WriteNotOpen => (Err ("open " +:+ name), d)
  | WriteCut n => (Err ("write " +:+ name), <[name := take n data]> d)
  end.

(** What [signClientCertificate] uses of [pem], [x509] and the random
    source. *)
Record Crypto := mkCrypto {
  cy_pem_decode : string → option bytes;
  cy_key : Type;
  cy_parse_key : bytes → Res cy_key;
  cy_create : Z → string → Z → Z → cy_key → Res bytes;
  cy_pem_encode : bytes → string;
}.

(** A certificate for [clientID] from [now] on, for [validityDays] days;
    [serial] is the number drawn. *)
Definition signClientCertificate (cy : Crypto) (serial now : Z) (publicKey clientID : string)
    (validityDays : Z) : Res string :=
  match cy.(cy_pem_decode) publicKey with
  | None => Err "invalid public key PEM"
  | Some block =>
      pub ← cy.(cy_parse_key) block;
      der ← cy.(cy_create) serial clientID now (now + validityDays * 86400) pub;
      Ok (cy.(cy_pem_encode) der)
  end.

(** The exported copy of the same body. *)
Definition SignClientCertificate (cy : Crypto) (serial now : Z) (publicKey clientID : string)
    (validityDays : Z) : Res string :=
  signClientCertificate cy serial now publicKey clientID validityDays.

Section auth.
Context `{!JsonCodec (gmap string ClientRecord)} `{!JsonCodec (gmap string Voucher)}.

Definition registry_file : string := "registry.json".
Definition vouchers_file : string := "vouchers.json".

Definition saveRegistry (m : Manager) (w : WriteFault) (d : directory) : Res unit * directory :=
  match marshalIndent m.(mg_clients) with
  | None => (Err "marshal clients: unsupported value", d)
  | Some data => WriteFile registry_file data w d
  end.

Definition saveVouchers (m : Manager) (w : WriteFault) (d : directory) : Res unit * directory :=
  match marshalIndent m.(mg_vouchers) with
  | None => (Err "marshal vouchers: unsupported value", d)
  | Some data => WriteFile vouchers_file data w d
  end.

(** A text that is not valid JSON leaves the map as it is. *)
Definition loadRegistry (m : Manager) (d : directory) : Manager :=
  match d !! registry_file ≫= unmarshal with Some c => set_clients m c | None => m end.
Definition loadVouchers (m : Manager) (d : directory) : Manager :=
  match d !! vouchers_file ≫= unmarshal with Some v => set_vouchers m v | None => m end.

Definition add_default (now : Z) (ns : gmap string NamespaceInfo) (nd : string * string) :
    gmap string NamespaceInfo :=
  match ns !! nd.1 with
  | Some _ => ns
  | None => <[nd.1 := mkNamespace nd.1 nd.2 "system" [] now]> ns
  end.

Definition initDefaultNamespaces (now : Z) (m : Manager) : Manager :=
  set_namespaces m (foldl (add_default now) m.(mg_namespaces)
    [("temporary", "临时客户端"); ("permanent", "永久客户端"); ("mediated", "中继客户端")]).

Definition NewManager : Manager := mkManager ∅ ∅ ∅.

(** [Init] after the certificate authority and the secret of the tokens (see
    [Credentials.Init]). *)
Definition Init (now : Z) (d : directory) : Manager :=
  initDefaultNamespaces now (loadVouchers (loadRegistry NewManager d) d).

(** ** Vouchers *)

(** [rand] is what the random source gives for 12 bytes, in hexadecimal. *)
Definition CreateVoucher (rand : string) (now maxUses expiresAt : Z) (namespace role : string)
    (w : WriteFault) (md : Manager * directory) : Res Voucher * (Manager * directory) :=
  let '(m, d) := md in
  let code := "vch_" +:+ rand in
  let v := mkVoucher code maxUses 0 expiresAt namespace role now in
  let m1 := set_vouchers m (<[code := v]> m.(mg_vouchers)) in
  match saveVouchers m1 w d with
  | (Err e, d') => (Err e, (set_vouchers m1 (delete code m1.(mg_vouchers)), d'))
  | (Ok _, d') => (Ok v, (m1, d'))
  end.

Definition UseVoucher (code : string) (now : Z) (w : WriteFault) (md : Manager * directory) :
    Res Voucher * (Manager * directory) :=
  let '(m, d) := md in
  match m.(mg_vouchers) !! code with
  | None => (Err "凭证不存在", md)
  | Some v =>
      if (0 <? v.(vc_ExpiresAt))%Z && (v.(vc_ExpiresAt) <? now)%Z then (Err "凭证已过期", md)
      else if (0 <? v.(vc_MaxUses))%Z && (v.(vc_MaxUses) <=? v.(vc_UsedCount))%Z then (Err "凭证已用完", md)
      else
        let v' := vc_set_used (int64_wrap (v.(vc_UsedCount) + 1)) v in
        let m1 := set_vouchers m (<[code := v']> m.(mg_vouchers)) in
        match saveVouchers m1 w d with
        | (Err e, d') =>
            (Err e, (set_vouchers m1 (<[code := vc_set_used (int64_wrap (v'.(vc_UsedCount) - 1)) v']>
                                        m1.(mg_vouchers)), d'))
        | (Ok _, d') => (Ok v', (m1, d'))
        end
  end.

(** A map is listed in an arbitrary order; this is one. *)
Definition ListVouchers (m : Manager) : list Voucher := (map_to_list m.(mg_vouchers)).*2.

(** The result of the save is not looked at. *)
Definition DeleteVoucher (code : string) (w : WriteFault) (md : Manager * directory) :
    bool * (Manager * directory) :=
  let '(m, d) := md in
  match m.(mg_vouchers) !! code with
  | None => (false, md)
  | Some _ =>
      let m1 := set_vouchers m (delete code m.(mg_vouchers)) in
      (true, (m1, snd (saveVouchers m1 w d)))
  end.

(** ** The registry *)

Definition save_clients (m : Manager) (w : WriteFault) (d : directory) : Res unit * (Manager * directory) :=
  let '(r, d') := saveRegistry m w d in (r, (m, d')).

Definition AddApplication (clientID publicKey : string) (now : Z) (w : WriteFault)
    (md : Manager * directory) : Res unit * (Manager * directory) :=
  let '(m, d) := md in
  match m.(mg_clients) !! clientID with
  | Some _ => (Err "client already exists", md)
  | None =>
      let c := mkClientRecord clientID publicKey "" "pending" "permanent" "node" now 0 in
      let m1 := set_clients m (<[clientID := c]> m.(mg_clients)) in
      match saveRegistry m1 w d with
      | (Err e, d') => (Err e, (set_clients m1 (delete clientID m1.(mg_clients)), d'))
      | (Ok _, d') => (Ok tt, (m1, d'))
      end
  end.

(** [client.Status = "pending"; client.Certificate = ""] with a public key. *)
Definition to_pending (publicKey : string) (c : ClientRecord) : ClientRecord :=
  mkClientRecord c.(cr_ClientID) publicKey "" "pending" c.(cr_Namespace) c.(cr_Role)
    c.(cr_CreatedAt) c.(cr_ApprovedAt).

Definition UpdatePublicKey (clientID publicKey : string) (w : WriteFault) (md : Manager * directory) :
    Res unit * (Manager * directory) :=
  let '(m, d) := md in
  match m.(mg_clients) !! clientID with
  | None => (Err "client not found", md)
  | Some c => save_clients (set_clients m (<[clientID := to_pending publicKey c]> m.(mg_clients))) w d
  end.

Definition ResetClientStatus (clientID : string) (w : WriteFault) (md : Manager * directory) :
    Manager * directory :=
  let '(m, d) := md in
  match m.(mg_clients) !! clientID with
  | None => md
  | Some c =>
      snd (save_clients (set_clients m (<[clientID := to_pending c.(cr_PublicKey) c]> m.(mg_clients))) w d)
  end.

(** [ns.Clients = append(ns.Clients, clientID)] when the namespace exists. *)
Definition ns_add (namespace clientID : string) (ns : gmap string NamespaceInfo) :
    gmap string NamespaceInfo :=
  alter (λ n, ns_set_clients (n.(ns_Clients) ++ [clientID]) n) namespace ns.

(** The first occurrence is removed. *)
Fixpoint remove_first (x : string) (l : list string) : list string :=
  match l with
  | [] => []
  | y :: l' => if decide (y = x) then l' else y :: remove_first x l'
  end.
Definition ns_remove (namespace clientID : string) (ns : gmap string NamespaceInfo) :
    gmap string NamespaceInfo :=
  alter (λ n, ns_set_clients (remove_first clientID n.(ns_Clients)) n) namespace ns.

Definition Approve (cy : Crypto) (clientID namespace role : string) (serial now : Z) (w : WriteFault)
    (md : Manager * directory) : Res string * (Manager * directory) :=
  let '(m, d) := md in
  match m.(mg_clients) !! clientID with
  | None => (Err "client not found", md)
  | Some c =>
      if negb (bool_decide (c.(cr_Status) = "pending")) then (Err ("client already " +:+ c.(cr_Status)), md)
      else
        match signClientCertificate cy serial now c.(cr_PublicKey) clientID 365 with
        | Err e => (Err e, md)
        | Ok cert =>
            let c' := mkClientRecord c.(cr_ClientID) c.(cr_PublicKey) cert "approved" namespace role
                        c.(cr_CreatedAt) now in
            let m1 := mkManager (<[clientID := c']> m.(mg_clients))
                        (ns_add namespace clientID m.(mg_namespaces)) m.(mg_vouchers) in
            match saveRegistry m1 w d with
            | (Err e, d') => (Err e, (m1, d'))
            | (Ok _, d') => (Ok cert, (m1, d'))
            end
        end
  end.

Definition Delete (clientID : string) (w : WriteFault) (md : Manager * directory) :
    bool * (Manager * directory) :=
  let '(m, d) := md in
  match m.(mg_clients) !! clientID with
  | None => (false, md)
  | Some c =>
      let m1 := mkManager (delete clientID m.(mg_clients))
                  (ns_remove c.(cr_Namespace) clientID m.(mg_namespaces)) m.(mg_vouchers) in
      (true, (m1, snd (saveRegistry m1 w d)))
  end.

Definition GetByClientID (m : Manager) (clientID : string) : option ClientRecord :=
  m.(mg_clients) !! clientID.
Definition with_status (status : string) (m : Manager) : list ClientRecord :=
  filter (λ c, c.(cr_Status) = status) (map_to_list m.(mg_clients)).*2.
Definition GetPending (m : Manager) : list ClientRecord := with_status "pending" m.
Definition GetApproved (m : Manager) : list ClientRecord := with_status "approved" m.

(** ** Namespaces *)

Definition GetNamespace (m : Manager) (name : string) : option NamespaceInfo := m.(mg_namespaces) !! name.
Definition ListNamespaces (m : Manager) : list NamespaceInfo := (map_to_list m.(mg_namespaces)).*2.
Definition GetClientsByNamespace (m : Manager) (namespace : string) : list ClientRecord :=
  match m.(mg_namespaces) !! namespace with
  | None => []
  | Some ns => omap (λ id, m.(mg_clients) !! id) ns.(ns_Clients)
  end.

Definition SetClientNamespace (clientID namespace role : string) (w : WriteFault)
    (md : Manager * directory) : Res unit * (Manager * directory) :=
  let '(m, d) := md in
  match m.(mg_clients) !! clientID with
  | None => (Err "client not found", md)
  | Some c =>
      match m.(mg_namespaces) !! namespace with
      | None => (Err ("namespace " +:+ namespace +:+ " does not exist"), md)
      | Some _ =>
          let ns := ns_add namespace clientID (ns_remove c.(cr_Namespace) clientID m.(mg_namespaces)) in
          let c' := mkClientRecord c.(cr_ClientID) c.(cr_PublicKey) c.(cr_Certificate) c.(cr_Status)
                      namespace role c.(cr_CreatedAt) c.(cr_ApprovedAt) in
          save_clients (mkManager (<[clientID := c']> m.(mg_clients)) ns m.(mg_vouchers)) w d
      end
  end.

(** ** Vouchers over a run *)

Inductive vlabel := VCreated (code : string) (maxUses : Z) | VUsed (code : string) | VTau.

#[export] Instance vlabel_eq_dec : EqDecision vlabel.
Proof. solve_decision. Defined.

Definition uses (code : string) (tr : list vlabel) : Z :=
  Z.of_nat (length (filter (λ l, l = VUsed code) tr)).

(** A write that fails leaves the file as it was. *)
Definition clean_write (w : WriteFault) : Prop := w = WriteDone ∨ w = WriteNotOpen.

Definition create_label (code : string) (maxUses : Z) (r : Res Voucher) : vlabel :=
  if is_ok r then VCreated code maxUses else VTau.
Definition use_label (code : string) (r : Res Voucher) : vlabel :=
  if is_ok r then VUsed code else VTau.

(** [vs_other]: the operations on clients and namespaces. *)
Inductive voucher_step (tr : list vlabel) : Manager * directory → vlabel → Manager * directory → Prop :=
| vs_create rand now maxUses expiresAt namespace role w md r md' :
    in_int64 maxUses = true → (∀ max, VCreated ("vch_" +:+ rand) max ∉ tr) → clean_write w →
    CreateVoucher rand now maxUses expiresAt namespace role w md = (r, md') →
    voucher_step tr md (create_label ("vch_" +:+ rand) maxUses r) md'
| vs_use code now w md r md' :
    clean_write w → UseVoucher code now w md = (r, md') → voucher_step tr md (use_label code r) md'
| vs_delete code w md r md' :
    clean_write w → DeleteVoucher code w md = (r, md') → voucher_step tr md VTau md'
| vs_other m d m' d' :
    m'.(mg_vouchers) = m.(mg_vouchers) → d' !! vouchers_file = d !! vouchers_file →
    voucher_step tr (m, d) VTau (m', d')
| vs_restart m d now : voucher_step tr (m, d) VTau (Init now d, d).

Inductive voucher_run (md0 : Manager * directory) : list vlabel → Manager * directory → Prop :=
| vr_nil : voucher_run md0 [] md0
| vr_step tr md l md' :
    voucher_run md0 tr md → voucher_step tr md l md' → voucher_run md0 (tr ++ [l]) md'.

Definition entry_ok (tr : list vlabel) (code : string) (v : Voucher) : Prop :=
  VCreated code v.(vc_MaxUses) ∈ tr
  ∧ (uses code tr <= int64_max → v.(vc_UsedCount) = uses code tr)%Z.

Definition entries_ok (tr : list vlabel) (vs : gmap string Voucher) : Prop :=
  ∀ code v, vs !! code = Some v → entry_ok tr code v.

(** The vouchers in memory and in the file count the uses made of them, and
    no voucher was used more often than it may be. *)
Record voucher_inv (tr : list vlabel) (md : Manager * directory) : Prop := {
  vi_mem : entries_ok tr md.1.(mg_vouchers);
  vi_file : ∀ vs, md.2 !! vouchers_file ≫= unmarshal = Some vs → entries_ok tr vs;
  vi_max : ∀ code max, VCreated code max ∈ tr →
    in_int64 max = true ∧ ((0 < max)%Z → (uses code tr <= max)%Z);
  vi_used : ∀ code, (∃ max, VCreated code max ∈ tr) ∨ uses code tr = 0%Z;
  vi_one : ∀ code max max', VCreated code max ∈ tr → VCreated code max' ∈ tr → max = max';
}.

Hypothesis json_vouchers : ∀ vs : gmap string Voucher, json_view vs = vs.
Hypothesis json_clients : ∀ cs : gmap string ClientRecord, json_view cs = cs.

Lemma uses_app code tr l : uses code (tr ++ [l]) = (uses code tr + if decide (l = VUsed code) then 1 else 0)%Z.
Proof.
  unfold uses. rewrite filter_app, length_app. case_decide.
  - rewrite filter_cons_True by done. cbn. lia.
  - rewrite filter_cons_False by done. cbn. lia.
Qed.

Lemma uses_nonneg code tr : (0 <= uses code tr)%Z.
Proof. unfold uses. lia. Qed.

(** A save puts the map of the manager in the file or leaves the file alone. *)
Lemma saveVouchers_file m w d r d' :
  clean_write w → saveVouchers m w d = (r, d') →
  (is_ok r = true ∧ d' !! vouchers_file ≫= unmarshal = Some m.(mg_vouchers))
  ∨ (is_ok r = false ∧ d' = d).
Proof using json_vouchers.
  intros Hw. unfold saveVouchers. destruct (marshalIndent (mg_vouchers m)) as [data|] eqn:E;
    [|intros [= <- <-]; by right].
  destruct Hw as [-> | ->]; cbn; intros [= <- <-]; [left|by right].
  rewrite lookup_insert_eq. cbn. by rewrite (unmarshal_indent _ _ E), json_vouchers.
Qed.

(** A step that uses and creates nothing. *)
Lemma entry_ok_tau tr code v : entry_ok tr code v → entry_ok (tr ++ [VTau]) code v.
Proof.
  intros [Hc Hu]. split; [by apply elem_of_app; left|].
  rewrite uses_app, decide_False, Z.add_0_r by done. done.
Qed.

Lemma created_app tr l code max :
  VCreated code max ∈ tr ++ [l] ↔ VCreated code max ∈ tr ∨ l = VCreated code max.
Proof. rewrite elem_of_app, list_elem_of_singleton. naive_solver. Qed.

Lemma tau_inv tr md vs d' m' :
  voucher_inv tr md → entries_ok tr vs → m'.(mg_vouchers) = vs →
  (∀ vs', d' !! vouchers_file ≫= unmarshal = Some vs' → entries_ok tr vs') →
  voucher_inv (tr ++ [VTau]) (m', d').
Proof.
  intros [_ _ H3 H4 H5] Hvs Hm Hf.
  assert (∀ code, uses code (tr ++ [VTau]) = uses code tr) as Hu
    by (intros code; by rewrite uses_app, decide_False, Z.add_0_r).
  constructor; cbn.
  - rewrite Hm. intros code v Hv. by apply entry_ok_tau, Hvs.
  - intros vs' Hvs' code v Hv. by eapply entry_ok_tau, Hf.
  - intros code max [Hin|]%created_app; [|done]. rewrite Hu. by apply H3.
  - intros code. rewrite Hu. destruct (H4 code) as [[max Hin]|]; [left|by right].
    exists max. by apply created_app; left.
  - intros code max max' [Hin|]%created_app [Hin'|]%created_app; try done. by eapply H5.
Qed.

Lemma tau_same tr md : voucher_inv tr md → voucher_inv (tr ++ [VTau]) md.
Proof. intros Hinv. destruct md. by eapply tau_inv; [|apply Hinv|..|apply Hinv]. Qed.

Lemma use_inv tr code now w md r md' :
  clean_write w → voucher_inv tr md → UseVoucher code now w md = (r, md') →
  voucher_inv (tr ++ [use_label code r]) md'.
Proof using json_vouchers.
  intros Hw Hinv. destruct md as [m d]. unfold UseVoucher.
  destruct (mg_vouchers m !! code) as [v|] eqn:Hv.
  2: { intros [= <- <-]. by apply tau_same. }
  case_match; [intros [= <- <-]; by apply tau_same|].
  destruct ((0 <? vc_MaxUses v)%Z && _) eqn:Hmax;
    [intros [= <- <-]; by apply tau_same|].
  set (v' := vc_set_used _ v). set (m1 := set_vouchers m _).
  destruct (saveVouchers m1 w d) as [r1 d1] eqn:Es.
  destruct (saveVouchers_file _ _ _ _ _ Hw Es) as [[Hok Hf]|[Hok ->]];
    destruct r1 as [u|e]; try done; intros [= <- <-]; cbn [use_label is_ok].
  - (* used *)
    destruct Hinv as [H1 H2 H3 H4 H5]. destruct (H1 code v Hv) as [Hc Hu]. destruct (H3 _ _ Hc) as [Hint Hle].
    assert (entries_ok (tr ++ [VUsed code]) (mg_vouchers m1)) as Hmem.
    { intros c x. subst m1. cbn. rewrite lookup_insert_Some. intros [[<- <-]|[Hne Hx]].
      - split; [by apply elem_of_app; left|]. rewrite uses_app, decide_True by done.
        pose proof (uses_nonneg code tr). intros Hb. cbn. rewrite Hu by lia.
        apply int64_wrap_id. unfold int64_min, int64_max in *. lia.
      - destruct (H1 c x Hx) as [Hcc Hcu]. split; [by apply elem_of_app; left|].
        rewrite uses_app, decide_False, Z.add_0_r by congruence. done. }
    constructor; cbn; [done| | | |].
    + rewrite Hf. by intros vs [= <-].
    + intros c max [Hin|]%created_app; [|done]. destruct (H3 c max Hin) as [Hi Hb].
      split; [done|]. intros Hpos. rewrite uses_app. case_decide as Hd; [|rewrite Z.add_0_r; auto].
      injection Hd as <-. pose proof (H5 _ _ _ Hc Hin) as <-. specialize (Hb Hpos).
      unfold in_int64, int64_max in *. rewrite (proj2 (Z.ltb_lt _ _)) in Hmax by done. cbn in Hmax.
      apply Z.leb_gt in Hmax. lia.
    + intros c. rewrite uses_app. case_decide as Hd.
      * injection Hd as <-. left. exists (vc_MaxUses v). by apply created_app; left.
      * rewrite Z.add_0_r. destruct (H4 c) as [[max Hin]|]; [left|by right].
        exists max. by apply created_app; left.
    + intros c max max' [Hin|]%created_app [Hin'|]%created_app; try done. by eapply H5.
  - (* taken back *)
    eapply (tau_inv tr (m, d)); [done| |done|apply Hinv].
    destruct Hinv as [H1 H2 H3 H4 H5]. intros c x. subst v'. cbn. rewrite !lookup_insert_Some.
    intros [[<- <-]|[Hne [[<- _]|[_ Hx]]]]; [|done|by apply H1].
    destruct (H1 code v Hv) as [Hc Hu]. split; [done|]. cbn. intros Hb. rewrite Hu by done.
    change (?a - 1)%Z with (a + -1)%Z. rewrite int64_wrap_add. pose proof (uses_nonneg code tr).
    rewrite int64_wrap_id; [lia|]. unfold int64_min, int64_max in *. lia.
Qed.

Lemma create_inv tr rand now maxUses expiresAt namespace role w md r md' :
  in_int64 maxUses = true → (∀ max, VCreated ("vch_" +:+ rand) max ∉ tr) → clean_write w →
  voucher_inv tr md → CreateVoucher rand now maxUses expiresAt namespace role w md = (r, md') →
  voucher_inv (tr ++ [create_label ("vch_" +:+ rand) maxUses r]) md'.
Proof using json_vouchers.
  intros Hint Hfresh Hw Hinv. destruct md as [m d]. unfold CreateVoucher.
  set (code := "vch_" +:+ rand) in *. set (v := mkVoucher _ _ _ _ _ _ _). set (m1 := set_vouchers m _).
  destruct Hinv as [H1 H2 H3 H4 H5].
  destruct (saveVouchers m1 w d) as [r1 d1] eqn:Es.
  destruct (saveVouchers_file _ _ _ _ _ Hw Es) as [[Hok Hf]|[Hok ->]];
    destruct r1 as [u|e]; try done; intros [= <- <-]; cbn [create_label is_ok].
  - assert (uses code tr = 0)%Z as H0 by (destruct (H4 code) as [[max Hin]|]; [by destruct (Hfresh max)|done]).
    assert (∀ c, uses c (tr ++ [VCreated code maxUses]) = uses c tr) as Hu
      by (intros c; by rewrite uses_app, decide_False, Z.add_0_r).
    assert (entries_ok (tr ++ [VCreated code maxUses]) (mg_vouchers m1)) as Hmem.
    { intros c x. subst m1. cbn. rewrite lookup_insert_Some. intros [[<- <-]|[Hne Hx]].
      - split; [by apply created_app; right|]. by rewrite Hu, H0.
      - destruct (H1 c x Hx) as [Hcc Hcu]. split; [by apply created_app; left|]. by rewrite Hu. }
    constructor; cbn; [done| | | |].
    + rewrite Hf. by intros vs [= <-].
    + intros c max [Hin|[= <- <-]]%created_app; rewrite Hu; [by apply H3|]. split; [done|]. lia.
    + intros c. rewrite Hu. destruct (H4 c) as [[max Hin]|]; [left|by right].
      exists max. by apply created_app; left.
    + intros c max max' [Hin|Heq]%created_app [Hin'|Heq']%created_app.
      * by eapply H5.
      * injection Heq' as <- _. by destruct (Hfresh max).
      * injection Heq as <- _. by destruct (Hfresh max').
      * congruence.
  - eapply (tau_inv tr (m, d)); [done| |done|done]. subst m1. cbn.
    intros c x. rewrite lookup_delete_Some, lookup_insert_Some. naive_solver.
Qed.

Lemma delete_inv tr code w md r md' :
  clean_write w → voucher_inv tr md → DeleteVoucher code w md = (r, md') →
  voucher_inv (tr ++ [VTau]) md'.
Proof using json_vouchers.
  intros Hw Hinv. destruct md as [m d]. unfold DeleteVoucher.
  destruct (mg_vouchers m !! code) as [v|] eqn:Hv.
  2: { intros [= <- <-]. by apply tau_same. }
  set (m1 := set_vouchers m _). destruct (saveVouchers m1 w d) as [r1 d1] eqn:Es. intros [= <- <-].
  assert (entries_ok tr (mg_vouchers m1)) as Hmem.
  { intros c x. subst m1. cbn. rewrite lookup_delete_Some. intros [_ Hx]. by eapply vi_mem. }
  eapply (tau_inv tr (m, d)); [done|exact Hmem|done|]. cbn.
  destruct (saveVouchers_file _ _ _ _ _ Hw Es) as [[_ ->]|[_ ->]]; [by intros vs [= <-]|apply Hinv].
Qed.

Lemma Init_vouchers now d : (Init now d).(mg_vouchers) = default ∅ (d !! vouchers_file ≫= unmarshal).
Proof.
  unfold Init, initDefaultNamespaces, loadVouchers, loadRegistry. cbn.
  destruct (d !! vouchers_file ≫= unmarshal); cbn; [done|]. by repeat case_match.
Qed.

Lemma voucher_step_inv tr md l md' :
  voucher_inv tr md → voucher_step tr md l md' → voucher_inv (tr ++ [l]) md'.
Proof using json_vouchers.
  intros Hinv Hs. destruct Hs as [| | |m d m' d' Hm Hd|m d now].
  - by eapply create_inv.
  - by eapply use_inv.
  - by eapply delete_inv.
  - eapply (tau_inv tr (m, d)); [done|apply Hinv|done|]. rewrite Hd. apply Hinv.
  - eapply (tau_inv tr (m, d)); [done| |apply Init_vouchers|apply Hinv].
    destruct (d !! vouchers_file ≫= unmarshal) as [vs|] eqn:E; cbn; [by eapply (vi_file _ _ Hinv)|].
    intros c x. by rewrite lookup_empty.
Qed.

Lemma voucher_run_inv now tr md :
  voucher_run (Init now ∅, ∅) tr md → voucher_inv tr md.
Proof using json_vouchers.
  induction 1 as [|tr md l md' _ IH Hs]; [|by eapply voucher_step_inv].
  constructor; cbn [fst snd].
  - rewrite Init_vouchers, lookup_empty. cbn. intros c x. by rewrite lookup_empty.
  - by rewrite lookup_empty.
  - by intros code max []%not_elem_of_nil.
  - by right.
  - by intros code max max' []%not_elem_of_nil.
Qed.

(** ** The registry over a run *)

Inductive rlabel := RRestart | RTau.

(** [rs_other]: the operations on vouchers. *)
Inductive registry_step (cy : Crypto) : Manager * directory → rlabel → Manager * directory → Prop :=
| rs_add id key now w md r md' :
    clean_write w → AddApplication id key now w md = (r, md') → registry_step cy md RTau md'
| rs_update id key w md r md' :
    clean_write w → UpdatePublicKey id key w md = (r, md') → registry_step cy md RTau md'
| rs_reset id w md :
    clean_write w → registry_step cy md RTau (ResetClientStatus id w md)
| rs_approve id namespace role serial now w md r md' :
    clean_write w → Approve cy id namespace role serial now w md = (r, md') → registry_step cy md RTau md'
| rs_delete id w md r md' :
    clean_write w → Delete id w md = (r, md') → registry_step cy md RTau md'
| rs_set_namespace id namespace role w md r md' :
    clean_write w → SetClientNamespace id namespace role w md = (r, md') → registry_step cy md RTau md'
| rs_other m d m' d' :
    m'.(mg_clients) = m.(mg_clients) → m'.(mg_namespaces) = m.(mg_namespaces) →
    d' !! registry_file = d !! registry_file → registry_step cy (m, d) RTau (m', d')
| rs_restart m d now : registry_step cy (m, d) RRestart (Init now d, d).

Inductive registry_run (cy : Crypto) (md0 : Manager * directory) :
    list rlabel → Manager * directory → Prop :=
| rr_nil : registry_run cy md0 [] md0
| rr_step tr md l md' :
    registry_run cy md0 tr md → registry_step cy md l md' → registry_run cy md0 (tr ++ [l]) md'.

(** A record is filed under its client; it is pending, without a certificate,
    or approved, with one made for its key. *)
Definition record_ok (cy : Crypto) (id : string) (c : ClientRecord) : Prop :=
  c.(cr_ClientID) = id
  ∧ ((c.(cr_Status) = "pending" ∧ c.(cr_Certificate) = "")
     ∨ (c.(cr_Status) = "approved"
        ∧ ∃ serial now, signClientCertificate cy serial now c.(cr_PublicKey) id 365 = Ok c.(cr_Certificate))).

Definition clients_ok (cy : Crypto) (cs : gmap string ClientRecord) : Prop :=
  ∀ id c, cs !! id = Some c → record_ok cy id c.

(** An approved client is listed by its namespace. *)
Definition listed (m : Manager) : Prop :=
  ∀ id c ni, m.(mg_clients) !! id = Some c → c.(cr_Status) = "approved" →
    m.(mg_namespaces) !! c.(cr_Namespace) = Some ni → id ∈ ni.(ns_Clients).

Record registry_inv (cy : Crypto) (tr : list rlabel) (md : Manager * directory) : Prop := {
  ri_mem : clients_ok cy md.1.(mg_clients);
  ri_file : ∀ cs, md.2 !! registry_file ≫= unmarshal = Some cs → clients_ok cy cs;
  ri_listed : RRestart ∉ tr → listed md.1;
}.

Lemma saveRegistry_file m w d r d' :
  clean_write w → saveRegistry m w d = (r, d') →
  d' !! registry_file ≫= unmarshal = Some m.(mg_clients) ∨ d' = d.
Proof using json_clients.
  intros Hw. unfold saveRegistry. destruct (marshalIndent (mg_clients m)) as [data|] eqn:E;
    [|intros [= <- <-]; by right].
  destruct Hw as [-> | ->]; cbn; intros [= <- <-]; [left|by right].
  rewrite lookup_insert_eq. cbn. by rewrite (unmarshal_indent _ _ E), json_clients.
Qed.

(** A step that leaves sound clients in memory and saves them or not. *)
Lemma registry_saved cy tr m d m1 m2 w r d' :
  registry_inv cy tr (m, d) → clean_write w → saveRegistry m1 w d = (r, d') →
  clients_ok cy m1.(mg_clients) → clients_ok cy m2.(mg_clients) → (listed m → listed m2) →
  registry_inv cy (tr ++ [RTau]) (m2, d').
Proof using json_clients.
  intros [H1 H2 H3] Hw Hs Hm1 Hm2 Hl. constructor; cbn; [done| |].
  - destruct (saveRegistry_file _ _ _ _ _ Hw Hs) as [-> | ->]; [by intros cs [= <-]|done].
  - rewrite not_elem_of_app. intros [Ht _]. auto.
Qed.

Lemma registry_same cy tr md : registry_inv cy tr md → registry_inv cy (tr ++ [RTau]) md.
Proof. intros [H1 H2 H3]. constructor; [done..|]. rewrite not_elem_of_app. intros [Ht _]. auto. Qed.

Lemma clients_ok_insert cy cs id c :
  clients_ok cy cs → record_ok cy id c → clients_ok cy (<[id := c]> cs).
Proof.
  intros Hcs Hc id' c'. rewrite lookup_insert_Some. intros [[<- <-]|[_ H]]; [done|by apply Hcs].
Qed.

Lemma clients_ok_delete cy cs id : clients_ok cy cs → clients_ok cy (delete id cs).
Proof. intros Hcs id' c'. rewrite lookup_delete_Some. intros [_ H]. by apply Hcs. Qed.

(** *** Namespaces *)

(** [ns'] lists at least the clients of [ns] other than [id]. *)
Definition keeps_others (id : string) (ns ns' : gmap string NamespaceInfo) : Prop :=
  ∀ name ni', ns' !! name = Some ni' →
    ∃ ni, ns !! name = Some ni ∧ ∀ x, x ≠ id → x ∈ ni.(ns_Clients) → x ∈ ni'.(ns_Clients).

Lemma keeps_refl id ns : keeps_others id ns ns.
Proof. intros name ni' H. by exists ni'. Qed.

Lemma keeps_trans id a b c : keeps_others id a b → keeps_others id b c → keeps_others id a c.
Proof.
  intros Hab Hbc name ni' H. destruct (Hbc name ni' H) as (nb & Hb & Hin).
  destruct (Hab name nb Hb) as (na & Ha & Hin'). exists na. split; [done|]. auto.
Qed.

Lemma elem_of_remove_first x y l : x ≠ y → x ∈ l → x ∈ remove_first y l.
Proof.
  intros Hne. induction l as [|z l IH]; cbn; [done|]. rewrite elem_of_cons.
  case_decide; [naive_solver|]. rewrite elem_of_cons. naive_solver.
Qed.

Lemma ns_add_keeps name id ns : keeps_others id ns (ns_add name id ns).
Proof.
  intros k ni'. unfold ns_add. rewrite lookup_alter_Some.
  intros [(-> & ni & Hn & ->)|[_ Hn]]; [|by exists ni'].
  exists ni. split; [done|]. cbn. intros x _ Hx. by apply elem_of_app; left.
Qed.

Lemma ns_remove_keeps name id ns : keeps_others id ns (ns_remove name id ns).
Proof.
  intros k ni'. unfold ns_remove. rewrite lookup_alter_Some.
  intros [(-> & ni & Hn & ->)|[_ Hn]]; [|by exists ni'].
  exists ni. split; [done|]. cbn. intros x Hne Hx. by apply elem_of_remove_first.
Qed.

Lemma ns_add_in name id ns ni' : ns_add name id ns !! name = Some ni' → id ∈ ni'.(ns_Clients).
Proof.
  unfold ns_add. rewrite lookup_alter_Some. intros [(_ & ni & _ & ->)|[? _]]; [|done].
  cbn. apply elem_of_app. right. by left.
Qed.

Lemma listed_insert m id c ns' vs :
  keeps_others id m.(mg_namespaces) ns' →
  (c.(cr_Status) = "approved" → ∀ ni', ns' !! c.(cr_Namespace) = Some ni' → id ∈ ni'.(ns_Clients)) →
  listed m → listed (mkManager (<[id := c]> m.(mg_clients)) ns' vs).
Proof.
  intros Hk Hc Hl id' c' ni'. cbn. rewrite lookup_insert_Some.
  intros [[<- <-]|[Hne Hc']] Hs Hn; [by apply Hc|].
  destruct (Hk _ _ Hn) as (ni & Hni & Hin). apply Hin; [done|]. by eapply Hl.
Qed.

Lemma listed_delete m id ns' vs :
  keeps_others id m.(mg_namespaces) ns' →
  listed m → listed (mkManager (delete id m.(mg_clients)) ns' vs).
Proof.
  intros Hk Hl id' c' ni'. cbn. rewrite lookup_delete_Some. intros [Hne Hc'] Hs Hn.
  destruct (Hk _ _ Hn) as (ni & Hni & Hin). apply Hin; [done|]. by eapply Hl.
Qed.

(** *** The steps *)

Lemma to_pending_ok cy id key c : record_ok cy id c → record_ok cy id (to_pending key c).
Proof. intros [Hid _]. split; [done|by left]. Qed.

(** A record replaced by a pending one, the namespaces as they are. *)
Lemma pending_inv cy tr m d id c w r d' :
  registry_inv cy tr (m, d) → clean_write w → record_ok cy id c → c.(cr_Status) = "pending" →
  saveRegistry (set_clients m (<[id := c]> m.(mg_clients))) w d = (r, d') →
  registry_inv cy (tr ++ [RTau]) (set_clients m (<[id := c]> m.(mg_clients)), d').
Proof using json_clients.
  intros Hinv Hw Hc Hp Hs. pose proof Hinv as [H1 _ _].
  eapply registry_saved; [done..|by apply clients_ok_insert|by apply clients_ok_insert|].
  apply listed_insert; [apply keeps_refl|]. by rewrite Hp.
Qed.

Lemma add_inv cy tr id key now w md r md' :
  registry_inv cy tr md → clean_write w → AddApplication id key now w md = (r, md') →
  registry_inv cy (tr ++ [RTau]) md'.
Proof using json_clients.
  destruct md as [m d]. intros Hinv Hw. unfold AddApplication.
  destruct (mg_clients m !! id) eqn:Hid; [intros [= <- <-]; by apply registry_same|].
  set (c := mkClientRecord _ _ _ _ _ _ _ _). destruct (saveRegistry _ w d) as [r1 d1] eqn:Es.
  assert (record_ok cy id c) as Hc by (split; [done|by left]).
  destruct r1 as [u|e]; intros [= <- <-]; [by eapply pending_inv|].
  pose proof Hinv as [H1 _ _]. eapply registry_saved; [done..|by apply clients_ok_insert| |]; cbn.
  - by apply clients_ok_delete, clients_ok_insert.
  - intros Hl. by rewrite delete_insert_id by done; destruct m.
Qed.

Lemma update_inv cy tr id key w md r md' :
  registry_inv cy tr md → clean_write w → UpdatePublicKey id key w md = (r, md') →
  registry_inv cy (tr ++ [RTau]) md'.
Proof using json_clients.
  destruct md as [m d]. intros Hinv Hw. unfold UpdatePublicKey, save_clients.
  destruct (mg_clients m !! id) as [c|] eqn:Hid; [|intros [= <- <-]; by apply registry_same].
  destruct (saveRegistry _ w d) as [r1 d1] eqn:Es. intros [= <- <-].
  pose proof Hinv as [H1 _ _]. eapply pending_inv; [done..| |done|done]. by apply to_pending_ok, H1.
Qed.

Lemma reset_inv cy tr id w md :
  registry_inv cy tr md → clean_write w → registry_inv cy (tr ++ [RTau]) (ResetClientStatus id w md).
Proof using json_clients.
  destruct md as [m d]. intros Hinv Hw. unfold ResetClientStatus, save_clients.
  destruct (mg_clients m !! id) as [c|] eqn:Hid; [|by apply registry_same].
  destruct (saveRegistry _ w d) as [r1 d1] eqn:Es.
  pose proof Hinv as [H1 _ _]. eapply pending_inv; [done..| |done|done]. by apply to_pending_ok, H1.
Qed.

Lemma approve_inv cy tr id namespace role serial now w md r md' :
  registry_inv cy tr md → clean_write w →
  Approve cy id namespace role serial now w md = (r, md') → registry_inv cy (tr ++ [RTau]) md'.
Proof using json_clients.
  destruct md as [m d]. intros Hinv Hw. unfold Approve.
  destruct (mg_clients m !! id) as [c|] eqn:Hid; [|intros [= <- <-]; by apply registry_same].
  case_match; [intros [= <- <-]; by apply registry_same|].
  destruct (signClientCertificate _ _ _ _ _ _) as [cert|e] eqn:Ecert;
    [|intros [= <- <-]; by apply registry_same].
  set (c' := mkClientRecord _ _ _ _ _ _ _ _). set (m1 := mkManager _ _ _).
  destruct (saveRegistry m1 w d) as [r1 d1] eqn:Es. pose proof Hinv as [H1 _ _].
  assert (clients_ok cy (mg_clients m1)) as Hm1.
  { apply clients_ok_insert; [done|]. destruct (H1 id c Hid) as [Hcid _]. split; [done|]. right. eauto. }
  assert (registry_inv cy (tr ++ [RTau]) (m1, d1)) as Hres.
  { eapply registry_saved; [done..|]. apply listed_insert; [apply ns_add_keeps|].
    intros _ ni'. apply ns_add_in. }
  destruct r1; by intros [= <- <-].
Qed.

Lemma remove_inv cy tr id w md r md' :
  registry_inv cy tr md → clean_write w → Delete id w md = (r, md') →
  registry_inv cy (tr ++ [RTau]) md'.
Proof using json_clients.
  destruct md as [m d]. intros Hinv Hw. unfold Delete.
  destruct (mg_clients m !! id) as [c|] eqn:Hid; [|intros [= <- <-]; by apply registry_same].
  destruct (saveRegistry _ w d) as [r1 d1] eqn:Es. intros [= <- <-]. pose proof Hinv as [H1 _ _].
  eapply registry_saved; [done..|by apply clients_ok_delete|by apply clients_ok_delete|].
  apply listed_delete, ns_remove_keeps.
Qed.

Lemma set_namespace_inv cy tr id namespace role w md r md' :
  registry_inv cy tr md → clean_write w → SetClientNamespace id namespace role w md = (r, md') →
  registry_inv cy (tr ++ [RTau]) md'.
Proof using json_clients.
  destruct md as [m d]. intros Hinv Hw. unfold SetClientNamespace, save_clients.
  destruct (mg_clients m !! id) as [c|] eqn:Hid; [|intros [= <- <-]; by apply registry_same].
  destruct (mg_namespaces m !! namespace) eqn:Hn; [|intros [= <- <-]; by apply registry_same].
  set (m1 := mkManager _ _ _). destruct (saveRegistry m1 w d) as [r1 d1] eqn:Es.
  intros [= <- <-]. pose proof Hinv as [H1 _ _].
  assert (clients_ok cy (mg_clients m1)) as Hm1
    by (apply clients_ok_insert; [done|]; exact (H1 id c Hid)).
  eapply registry_saved; [done..|]. apply listed_insert.
  - eapply keeps_trans; [apply ns_remove_keeps|apply ns_add_keeps].
  - intros _ ni'. apply ns_add_in.
Qed.

Lemma Init_clients now d : (Init now d).(mg_clients) = default ∅ (d !! registry_file ≫= unmarshal).
Proof.
  unfold Init, initDefaultNamespaces, loadVouchers, loadRegistry. cbn.
  destruct (d !! registry_file ≫= unmarshal); cbn; by repeat case_match.
Qed.

(** After [Init] every namespace is empty. *)
Lemma Init_namespaces now d name ni :
  (Init now d).(mg_namespaces) !! name = Some ni → ni.(ns_Clients) = [].
Proof.
  assert (mg_namespaces (loadVouchers (loadRegistry NewManager d) d) = ∅) as Hns
    by (unfold loadVouchers, loadRegistry; by repeat case_match).
  unfold Init, initDefaultNamespaces. cbn [mg_namespaces set_namespaces]. rewrite Hns.
  assert (∀ l ns, (∀ name ni, ns !! name = Some ni → ni.(ns_Clients) = []) →
    ∀ name ni, foldl (add_default now) ns l !! name = Some ni → ni.(ns_Clients) = []) as Hfold.
  { intros l. induction l as [|nd l IH]; intros ns H; [done|]. apply IH. intros k nk.
    unfold add_default. destruct (ns !! nd.1); [apply H|]. rewrite lookup_insert_Some.
    intros [[_ <-]|[_ Hk]]; [done|by eapply H]. }
  apply Hfold. intros k nk. by rewrite lookup_empty.
Qed.

Lemma registry_step_inv cy tr md l md' :
  registry_inv cy tr md → registry_step cy md l md' → registry_inv cy (tr ++ [l]) md'.
Proof using json_clients.
  intros Hinv Hs. destruct Hs as [| | | | | |m d m' d' Hc Hn Hd|m d now].
  - by eapply add_inv.
  - by eapply update_inv.
  - by apply reset_inv.
  - by eapply approve_inv.
  - by eapply remove_inv.
  - by eapply set_namespace_inv.
  - destruct Hinv as [H1 H2 H3]. constructor; cbn in *.
    + by rewrite Hc.
    + by rewrite Hd.
    + rewrite not_elem_of_app. intros [Ht _]. unfold listed. rewrite Hc, Hn. by apply H3.
  - destruct Hinv as [H1 H2 H3]. constructor; cbn [fst snd] in *; [|done|].
    + rewrite Init_clients. destruct (d !! registry_file ≫= unmarshal) as [cs|]; cbn; [by apply H2|].
      intros id c. by rewrite lookup_empty.
    + rewrite not_elem_of_app, list_elem_of_singleton. by intros [_ ?].
Qed.

Lemma registry_run_inv cy now tr md :
  registry_run cy (Init now ∅, ∅) tr md → registry_inv cy tr md.
Proof using json_clients.
  induction 1 as [|tr md l md' _ IH Hs]; [|by eapply registry_step_inv].
  assert (clients_ok cy (Init now ∅).(mg_clients)) as Hc.
  { rewrite Init_clients, lookup_empty. intros id c. cbn. by rewrite lookup_empty. }
  constructor; cbn [fst snd]; [done|by rewrite lookup_empty|].
  intros _ id c ni Hid. rewrite Init_clients, lookup_empty in Hid. cbn in Hid.
  by rewrite lookup_empty in Hid.
Qed.

(** ** Properties *)

(** C9. Over any run from an empty directory, restarts included, in which
    codes are not drawn twice and a write that fails leaves its file alone, a
    voucher is never used more often than it allows: neither a failed save
    nor a restart nor a deletion that was not saved gives a use back.  A
    voucher in memory counts the uses made of it. *)
Theorem vouchers_bounded now tr md :
  voucher_run (Init now ∅, ∅) tr md →
  (∀ code max, VCreated code max ∈ tr → (0 < max → uses code tr <= max)%Z)
  ∧ (∀ code v, md.1.(mg_vouchers) !! code = Some v → (0 < v.(vc_MaxUses))%Z →
       v.(vc_UsedCount) = uses code tr).
Proof using json_vouchers.
  intros Hrun. destruct (voucher_run_inv _ _ _ Hrun) as [H1 _ H3 _ _]. split.
  - intros code max Hin. by apply H3.
  - intros code v Hv Hpos. destruct (H1 code v Hv) as [Hc Hu]. apply Hu.
    destruct (H3 _ _ Hc) as [Hi Hle]. specialize (Hle Hpos).
    unfold in_int64 in Hi. lia.
Qed.

(** Over any run of the registry, every client is pending without a
    certificate, or approved with a certificate signed for its name and its
    present public key.  Until the first restart an approved client is listed
    by its namespace; namespaces are not saved, and after a restart every
    namespace is empty. *)
Theorem registry_lifecycle cy now tr md :
  registry_run cy (Init now ∅, ∅) tr md →
  (∀ id c, md.1.(mg_clients) !! id = Some c → record_ok cy id c)
  ∧ (RRestart ∉ tr → ∀ id c ni, md.1.(mg_clients) !! id = Some c → c.(cr_Status) = "approved" →
       md.1.(mg_namespaces) !! c.(cr_Namespace) = Some ni → id ∈ ni.(ns_Clients))
  ∧ (∀ now' name, GetClientsByNamespace (Init now' md.2) name = []).
Proof using json_clients.
  intros Hrun. destruct (registry_run_inv _ _ _ _ Hrun) as [H1 _ H3]. split_and!; [done|done|].
  intros now' name. unfold GetClientsByNamespace.
  destruct (mg_namespaces (Init now' md.2) !! name) as [ni|] eqn:E; [|done].
  by rewrite (Init_namespaces _ _ _ _ E).
Qed.
End auth.

(** ** Concrete runs, with the concrete codec *)

#[local] Instance ClientRecord_countable : Countable ClientRecord.
Proof.
  apply (inj_countable
    (λ c, ([c.(cr_ClientID); c.(cr_PublicKey); c.(cr_Certificate); c.(cr_Status); c.(cr_Namespace);
            c.(cr_Role)], [c.(cr_CreatedAt); c.(cr_ApprovedAt)]))
    (λ p, match p with
          | ([a; b; c; d; e; f], [g; h]) => Some (mkClientRecord a b c d e f g h)
          | _ => None
          end)).
  by intros [].
Defined.
#[local] Instance Voucher_countable : Countable Voucher.
Proof.
  apply (inj_countable
    (λ v, ([v.(vc_Code); v.(vc_Namespace); v.(vc_Role)],
           [v.(vc_MaxUses); v.(vc_UsedCount); v.(vc_ExpiresAt); v.(vc_CreatedAt)]))
    (λ p, match p with
          | ([a; e; f], [b; c; d; g]) => Some (mkVoucher a b c d e f g)
          | _ => None
          end)).
  by intros [].
Defined.
#[local] Existing Instance toy_codec.

Lemma toy_view {A} `{Countable A} (v : A) : @json_view A toy_codec v = v.
Proof. reflexivity. Qed.

Definition md_empty : Manager * directory := (Init 0 ∅, ∅).

(** A voucher for one use, used, and tried again after a restart. *)
Definition md_voucher : Manager * directory :=
  snd (CreateVoucher "00" 5 1 0 "permanent" "node" WriteDone md_empty).
Definition md_used : Manager * directory := snd (UseVoucher "vch_00" 6 WriteDone md_voucher).

Lemma vouchers_bounded_witness :
  is_ok (fst (UseVoucher "vch_00" 6 WriteDone md_voucher)) = true
  ∧ is_ok (fst (UseVoucher "vch_00" 8 WriteDone (Init 7 md_used.2, md_used.2))) = false
  ∧ (uses "vch_00" [VCreated "vch_00" 1; VUsed "vch_00"; VTau] <= 1)%Z.
Proof.
  split; [vm_compute; reflexivity|]. split; [vm_compute; reflexivity|].
  assert (voucher_run (Init 0 ∅, ∅) [VCreated "vch_00" 1; VUsed "vch_00"; VTau]
    (Init 7 md_used.2, md_used.2)) as Hrun.
  { apply (vr_step _ [VCreated "vch_00" 1; VUsed "vch_00"] md_used);
      [|rewrite (surjective_pairing md_used) at 1; apply vs_restart].
    apply (vr_step _ [VCreated "vch_00" 1] md_voucher).
    - apply (vr_step _ [] md_empty); [constructor|].
      apply (vs_create [] "00" 5 1 0 "permanent" "node" WriteDone md_empty
        (Ok (mkVoucher "vch_00" 1 0 0 "permanent" "node" 5)));
        [reflexivity|intros max; apply not_elem_of_nil|by left|vm_compute; reflexivity].
    - apply (vs_use _ "vch_00" 6 WriteDone md_voucher
        (Ok (mkVoucher "vch_00" 1 1 0 "permanent" "node" 5))); [by left|vm_compute; reflexivity]. }
  apply (vouchers_bounded toy_view 0 _ _ Hrun); [by left|reflexivity].
Defined.

(** A library that accepts every key. *)
Definition toy_crypto : Crypto :=
  mkCrypto (λ s, Some (list_ascii_of_string s)) bytes Ok (λ _ _ _ _ k, Ok k)
    (λ b, "CERTIFICATE " +:+ string_of_list_ascii b).

Definition md_pending : Manager * directory := snd (AddApplication "cam" "key" 1 WriteDone md_empty).
Definition md_approved : Manager * directory :=
  snd (Approve toy_crypto "cam" "permanent" "node" 7 2 WriteDone md_pending).

Lemma md_approved_run : registry_run toy_crypto (Init 0 ∅, ∅) [RTau; RTau] md_approved.
Proof.
  apply (rr_step _ _ [RTau] md_pending).
  - apply (rr_step _ _ [] md_empty); [constructor|].
    apply (rs_add _ "cam" "key" 1 WriteDone _ (Ok tt)); [by left|vm_compute; reflexivity].
  - apply (rs_approve _ "cam" "permanent" "node" 7 2 WriteDone _ (Ok "CERTIFICATE key"));
      [by left|vm_compute; reflexivity].
Qed.

Definition cam_approved : ClientRecord :=
  mkClientRecord "cam" "key" "CERTIFICATE key" "approved" "permanent" "node" 1 2.

Lemma md_approved_cam : md_approved.1.(mg_clients) !! "cam" = Some cam_approved.
Proof. vm_compute. reflexivity. Qed.

Lemma cam_reloaded : is_Some (GetByClientID (Init 3 md_approved.2) "cam").
Proof. vm_compute. by eexists. Qed.

Lemma registry_lifecycle_witness :
  is_Some (GetByClientID (Init 3 md_approved.2) "cam")
  ∧ (∀ ni, md_approved.1.(mg_namespaces) !! cam_approved.(cr_Namespace) = Some ni → "cam" ∈ ni.(ns_Clients))
  ∧ GetClientsByNamespace (Init 3 md_approved.2) "permanent" = [].
Proof.
  destruct (registry_lifecycle toy_view toy_crypto 0 _ _ md_approved_run) as (_ & Hlisted & Hempty).
  split; [exact cam_reloaded|]. split; [|apply Hempty].
  intros ni. refine (Hlisted _ "cam" cam_approved ni md_approved_cam eq_refl).
  rewrite !not_elem_of_cons. split; [discriminate|]. split; [discriminate|]. apply not_elem_of_nil.
Defined.

(** A client approved twice is listed twice, and its name stays in the
    namespace when it is deleted: registered again, it counts as a member
    while it is pending. *)
Example approved_twice_stays_listed :
  let md := ResetClientStatus "cam" WriteDone md_approved in
  let md := snd (Approve toy_crypto "cam" "permanent" "node" 8 3 WriteDone md) in
  let md := snd (Delete "cam" WriteDone md) in
  let md := snd (AddApplication "cam" "other" 4 WriteDone md) in
  cr_Status <$> GetClientsByNamespace md.1 "permanent" = ["pending"].
Proof. vm_compute. reflexivity. Qed.
