(* ===== verification/Path.v ===== *)
(** * Slash-separated paths (path/filepath on Unix)

    [Clean], [Join], [Abs], [Dir] and [Base] as the standard library defines
    them: a path is split at its slashes, empty and [.] elements are dropped
    and [..] removes the element before it.  [resolve] is what a path means:
    the names walked from the root, without symbolic links. *)

From S2P Require Import Prelude.

(** ** Elements *)

(** [strings.Split(s, "/")] *)
Fixpoint split (s : string) : list string :=
  match s with
  | "" => [""]
  | String c s' =>
      if decide (c = "/"%char) then "" :: split s'
      else match split s' with e :: l => String c e :: l | [] => [String c ""] end
  end.

(** [strings.Join(l, "/")] *)
Fixpoint join (l : list string) : string :=
  match l with
  | [] => ""
  | [e] => e
  | e :: l' => e +:+ String "/" (join l')
  end.

(** An element is put on the elements kept so far, the last one first. *)
Definition push (rooted : bool) (st : list string) (e : string) : list string :=
  if decide (e = "" ∨ e = ".") then st
  else if decide (e = "..") then
    match st with
    | x :: st' => if decide (x = "..") then ".." :: st else st'
    | [] => if rooted then [] else [".."]
    end
  else e :: st.

Definition IsAbs (p : string) : bool :=
  match p with String c _ => bool_decide (c = "/"%char) | "" => false end.

Definition Clean (p : string) : string :=
  let out := rev (foldl (push (IsAbs p)) [] (split p)) in
  if IsAbs p then String "/" (join out)
  else if decide (out = []) then "." else join out.

(** [filepath.Join(l...)]: empty elements at the front are left out. *)
Fixpoint JoinAll (l : list string) : string :=
  match l with
  | [] => ""
  | e :: l' => if decide (e = "") then JoinAll l' else Clean (join l)
  end.
Definition Join (a b : string) : string := JoinAll [a; b].

(** [wd] is the working directory, [None] when it cannot be told; the callers
    ignore the error. *)
Definition Abs (wd : option string) (p : string) : string :=
  if IsAbs p then Clean p else match wd with Some d => Join d p | None => "" end.

(** [p[:i+1]] for the last slash [i] of [p]; [""] without one. *)
Fixpoint upto_slash (p : string) : string :=
  match p with
  | "" => ""
  | String c p' =>
      match upto_slash p' with
      | "" => if decide (c = "/"%char) then "/" else ""
      | d => String c d
      end
  end.
Definition Dir (p : string) : string := Clean (upto_slash p).

(** The last element that is not empty; [.] for the empty path and [/] for
    slashes only. *)
Definition Base (p : string) : string :=
  if decide (p = "") then "."
  else match last (filter (λ e, e ≠ "") (split p)) with Some e => e | None => "/" end.

(** ** What a path means *)

(** The names walked from [st], the last one first. *)
Definition walk (st : list string) (p : string) : list string := foldl (push true) st (split p).

(** The names a path leads to from the root, the working directory being
    [wd]; names are listed last first. *)
Definition resolve (wd : list string) (p : string) : list string :=
  walk (if IsAbs p then [] else wd) p.

(** The text of an absolute path. *)
Definition abs_text (st : list string) : string := String "/" (join (rev st)).

(** A name a directory can hold. *)
Definition name (e : string) : Prop := e ≠ "" ∧ e ≠ "." ∧ e ≠ ".." ∧ no_char "/" e = true.
#[export] Instance name_dec e : Decision (name e).
Proof. unfold name. apply _. Defined.

(** ** Splitting and joining *)

Lemma split_ne s : split s ≠ [].
Proof. destruct s as [|c s]; cbn; [done|]. case_decide; [done|]. by destruct (split s). Qed.

Lemma split_no_slash s : Forall (λ e, no_char "/" e = true) (split s).
Proof.
  induction s as [|c s IH]; cbn; [by repeat constructor|]. case_decide; [by constructor|].
  destruct (split s) as [|e l] eqn:E; [by apply split_ne in E|].
  apply Forall_cons in IH as [He Hl]. constructor; [|done]. unfold no_char in *. cbn.
  by rewrite bool_decide_eq_true_2.
Qed.

Lemma split_single e : no_char "/" e = true → split e = [e].
Proof.
  induction e as [|c e IH]; [done|]. unfold no_char. cbn. intros [Hc He]%andb_true_iff.
  apply bool_decide_eq_true_1 in Hc. rewrite decide_False by done. by rewrite IH.
Qed.

Lemma split_app a b : split (a +:+ String "/" b) = split a ++ split b.
Proof.
  induction a as [|c a IH]; autorewrite with strings; cbn; [done|].
  case_decide; [by rewrite IH|]. rewrite IH.
  destruct (split a) as [|e l] eqn:E; [by apply split_ne in E|done].
Qed.

Lemma split_join l : l ≠ [] → Forall (λ e, no_char "/" e = true) l → split (join l) = l.
Proof.
  induction l as [|e l IH]; [done|]. intros _ [He Hl]%Forall_cons.
  destruct l as [|e' l]; [by apply split_single|].
  change (join (e :: e' :: l)) with (e +:+ String "/" (join (e' :: l))).
  rewrite split_app, split_single, IH by done. done.
Qed.

Lemma split_inj a b : split a = split b → a = b.
Proof.
  revert b. induction a as [|c a IH]; intros [|d b]; [done| | |]; cbn.
  - case_decide as Hd; [intros [=]; by destruct (split_ne b)|].
    by destruct (split b).
  - case_decide as Hc; [intros [=]; by destruct (split_ne a)|]. by destruct (split a).
  - destruct (split a) as [|ea la] eqn:Ea; [by apply split_ne in Ea|].
    destruct (split b) as [|eb lb] eqn:Eb; [by apply split_ne in Eb|].
    case_decide as Hc; case_decide as Hd; intros H; simplify_eq; f_equal; by apply IH.
Qed.

(** ** Normal forms *)

(** Kept elements, the last one first: names on a possible run of [..]. *)
Fixpoint kept (rooted : bool) (st : list string) : Prop :=
  match st with
  | [] => True
  | x :: st' => (x = ".." ∧ rooted = false ∧ Forall (λ e, e = "..") st') ∨ (name x ∧ kept rooted st')
  end.

Lemma kept_rooted st : kept true st ↔ Forall name st.
Proof.
  induction st as [|x st IH]; cbn; [by split|]. rewrite Forall_cons, IH.
  split; [by intros [(_ & ? & _)|]|]. by right.
Qed.

Lemma kept_tail rooted x st : kept rooted (x :: st) → kept rooted st.
Proof.
  cbn. intros [(-> & -> & Hst)|[_ Hst]]; [|done].
  induction Hst as [|y st -> Hst IH]; [done|]. left. by split_and!.
Qed.

Lemma push_kept rooted st e :
  no_char "/" e = true → kept rooted st → kept rooted (push rooted st e).
Proof.
  intros He Hst. unfold push. case_decide as H0; [done|]. case_decide as H1.
  - destruct st as [|x st].
    + destruct rooted; cbn; [done|]. left. by split_and!.
    + case_decide as Hx; [|by eapply kept_tail]. subst x.
      destruct Hst as [(_ & -> & Hst)|[(_ & _ & Hn & _) _]]; [|done].
      left. split_and!; [done..|]. by constructor.
  - right. split; [|done]. split_and!; naive_solver.
Qed.

Lemma pushes_kept rooted l st :
  Forall (λ e, no_char "/" e = true) l → kept rooted st → kept rooted (foldl (push rooted) st l).
Proof.
  revert st. induction l as [|e l IH]; intros st; cbn; [done|].
  intros [He Hl]%Forall_cons Hst. apply IH; [done|]. by apply push_kept.
Qed.

Lemma kept_no_slash rooted st : kept rooted st → Forall (λ e, no_char "/" e = true) st.
Proof.
  induction st as [|x st IH]; [by constructor|]. intros Hst. constructor.
  - by destruct Hst as [(-> & _)|[(_ & _ & _ & Hx) _]].
  - apply IH. by eapply kept_tail.
Qed.

Lemma walk_names st p : Forall name st → Forall name (walk st p).
Proof. rewrite <-!kept_rooted. apply pushes_kept, split_no_slash. Qed.

Lemma walk_app st a b : walk st (a +:+ String "/" b) = walk (walk st a) b.
Proof. unfold walk. by rewrite split_app, foldl_app. Qed.

Lemma push_name rooted st e : name e → push rooted st e = e :: st.
Proof.
  intros (H1 & H2 & H3 & _). unfold push. by rewrite decide_False by tauto; rewrite decide_False.
Qed.

(** Pushing what a list leaves on the empty stack is pushing the list. *)
Lemma push_kept_again rooted st l :
  Forall name st → Forall (λ e, no_char "/" e = true) l → (rooted = true → st = []) →
  foldl (push true) st (rev (foldl (push rooted) [] l)) = foldl (push true) st l.
Proof.
  intros Hst Hl Hr. induction l as [|e l IH] using rev_ind; [done|].
  apply Forall_app in Hl as [Hl He]. rewrite !foldl_app. cbn. rewrite <-IH by done.
  pose proof (pushes_kept rooted l [] Hl ltac:(by destruct rooted)) as Hk.
  set (u := foldl (push rooted) [] l) in *. clearbody u. clear IH Hl l.
  unfold push at 2. case_decide as H0.
  { unfold push at 2. by rewrite decide_True. }
  case_decide as H1; [|cbn; by rewrite foldl_app].
  subst e. destruct u as [|x u].
  - destruct rooted; cbn; [|done]. by rewrite Hr.
  - case_decide as Hx.
    + cbn. by rewrite !foldl_app.
    + destruct Hk as [(-> & _)|[Hx' _]]; [done|]. cbn. rewrite foldl_app. cbn.
      rewrite (push_name _ _ x) by done. unfold push at 2.
      rewrite decide_False by naive_solver. rewrite decide_True by done. by rewrite decide_False.
Qed.

Lemma names_no_slash l : Forall name l → Forall (λ e, no_char "/" e = true) l.
Proof. intros Hl. eapply Forall_impl; [done|]. by intros e (_ & _ & _ & ?). Qed.

Lemma walk_abs_text l : Forall name l → walk [] (abs_text l) = l.
Proof.
  intros Hl. unfold walk, abs_text. cbn [split]. rewrite decide_True by done. cbn [foldl].
  unfold push at 2. rewrite decide_True by tauto.
  assert (∀ st, Forall name st → foldl (push true) [] (rev st) = st) as Hpush.
  { clear. induction st as [|x st IH]; [done|]. intros [Hx Hst]%Forall_cons. cbn.
    rewrite foldl_app, IH by done. cbn. by apply push_name. }
  destruct l as [|x l]; [done|].
  rewrite split_join; [by apply Hpush| |].
  - cbn. by destruct (rev l).
  - apply Forall_rev. by apply names_no_slash.
Qed.

(** [Clean] does not change what a path means. *)
Lemma walk_Clean st p :
  Forall name st → (IsAbs p = true → st = []) → walk st (Clean p) = walk st p.
Proof.
  intros Hst Hp. unfold walk at 2. unfold Clean.
  rewrite <-(push_kept_again (IsAbs p) st (split p)) by (try apply split_no_slash; done).
  pose proof (pushes_kept (IsAbs p) (split p) [] (split_no_slash p) ltac:(by destruct (IsAbs p))) as Hk.
  set (u := foldl _ [] _) in *. clearbody u. destruct (IsAbs p) eqn:Ep.
  - rewrite Hp by done. apply kept_rooted in Hk. change (String "/" (join (rev u))) with (abs_text u).
    rewrite walk_abs_text by done. rewrite <-(walk_abs_text u) at 1 by done.
    unfold walk, abs_text. cbn [split]. rewrite decide_True by done. cbn [foldl].
    unfold push at 2. rewrite decide_True by tauto.
    destruct u as [|x u]; [done|]. rewrite split_join; [done| |].
    + cbn. by destruct (rev u).
    + apply Forall_rev. by apply names_no_slash.
  - case_decide as Hu; unfold walk.
    + by rewrite Hu.
    + rewrite split_join; [done..|]. apply Forall_rev. by eapply kept_no_slash.
Qed.

(** ** Absolute paths *)

Lemma IsAbs_Clean p : IsAbs (Clean p) = IsAbs p.
Proof.
  unfold Clean. destruct (IsAbs p) eqn:Ep; [done|].
  pose proof (pushes_kept false (split p) [] (split_no_slash p) I) as Hk.
  set (u := foldl _ [] _) in *. clearbody u. case_decide as Hu; [done|].
  destruct (rev u) as [|e l] eqn:E; [done|].
  assert (e ∈ u) as He by (apply list_elem_of_In, in_rev; rewrite E; by left).
  assert (e ≠ "" ∧ no_char "/" e = true) as [Hne Hs].
  { clear -Hk He. induction u as [|x u IH]; [by apply not_elem_of_nil in He|].
    apply elem_of_cons in He as [->|He].
    - destruct Hk as [(-> & _)|[(? & _ & _ & ?) _]]; done.
    - apply IH; [|done]. by eapply kept_tail. }
  destruct e as [|c e]; [done|]. unfold no_char in Hs. cbn in Hs.
  apply andb_true_iff in Hs as [Hc _]. apply bool_decide_eq_true_1 in Hc.
  destruct l; cbn; by apply bool_decide_eq_false_2.
Qed.

Lemma resolve_Clean wd p : Forall name wd → resolve wd (Clean p) = resolve wd p.
Proof.
  intros Hwd. unfold resolve. rewrite IsAbs_Clean. destruct (IsAbs p) eqn:Ep.
  - by apply walk_Clean.
  - apply walk_Clean; [done|]. by rewrite Ep.
Qed.

Lemma IsAbs_app a b : a ≠ "" → IsAbs (a +:+ b) = IsAbs a.
Proof. by destruct a. Qed.

Lemma resolve_Join wd a b :
  Forall name wd → a ≠ "" → resolve wd (Join a b) = walk (resolve wd a) b.
Proof.
  intros Hwd Ha. unfold Join, JoinAll. rewrite decide_False, resolve_Clean by done. cbn [join].
  unfold resolve. by rewrite IsAbs_app, walk_app.
Qed.

Lemma resolve_names wd p : Forall name wd → Forall name (resolve wd p).
Proof. intros Hwd. unfold resolve. destruct (IsAbs p); apply walk_names; [by constructor|done]. Qed.

Lemma Clean_rooted p : IsAbs p = true → Clean p = abs_text (walk [] p).
Proof. intros Hp. unfold Clean. by rewrite Hp. Qed.

(** [Abs] is the text of what the path means. *)
Lemma Abs_resolve wd p :
  Forall name wd → Abs (Some (abs_text wd)) p = abs_text (resolve wd p).
Proof.
  intros Hwd. unfold Abs, resolve. destruct (IsAbs p) eqn:Ep; [by apply Clean_rooted|].
  unfold Join, JoinAll. rewrite decide_False by done. cbn [join]. rewrite Clean_rooted by done.
  by rewrite walk_app, walk_abs_text.
Qed.

Lemma prefix_spec s t : String.prefix s t = true ↔ ∃ r, t = s +:+ r.
Proof.
  revert t. induction s as [|c s IH]; intros t.
  { split; [by exists t|]. by destruct t. }
  destruct t as [|d t]; cbn.
  { split; [done|]. by intros (r & Hr). }
  destruct (Ascii.ascii_dec c d) as [->|Hcd].
  - rewrite IH. split; intros (r & Hr); exists r; autorewrite with strings in *; [by rewrite Hr|].
    by injection Hr.
  - split; [done|]. intros (r & Hr). autorewrite with strings in Hr. by injection Hr.
Qed.

Lemma split_abs_text l : Forall name l → l ≠ [] → split (abs_text l) = "" :: rev l.
Proof.
  intros Hl Hne. unfold abs_text. cbn [split]. rewrite decide_True by done. f_equal.
  apply split_join; [|by apply Forall_rev, names_no_slash].
  destruct l; [done|]. cbn. by destruct (rev l).
Qed.

(** One absolute path is below another exactly when its text continues the
    other's with a slash. *)
Lemma below_text a b :
  Forall name a → Forall name b → a ≠ [] →
  String.prefix (abs_text a +:+ "/") (abs_text b) = true ↔ ∃ k, k ≠ [] ∧ b = k ++ a.
Proof.
  intros Ha Hb Hne. rewrite prefix_spec. split.
  - intros (r & Hr). rewrite string_app_assoc in Hr. autorewrite with strings in Hr.
    apply (f_equal split) in Hr. rewrite split_app, (split_abs_text a) in Hr by done.
    destruct b as [|x b].
    { cbn in Hr. injection Hr as Hr. apply (f_equal length) in Hr.
      rewrite length_app, length_rev in Hr. destruct a; [done|].
      pose proof (split_ne r). destruct (split r); [done|]. cbn in Hr. lia. }
    rewrite split_abs_text in Hr by done. injection Hr as Hr.
    exists (rev (split r)). split.
    + intros H. apply (f_equal (@rev string)) in H. rewrite rev_involutive in H. by apply split_ne in H.
    + rewrite <-(rev_involutive (x :: b)). cbn [rev]. by rewrite Hr, rev_app_distr, rev_involutive.
  - intros (k & Hk & ->). pose proof (proj1 (proj1 (Forall_app _ _ _) Hb)) as Hbk.
    exists (join (rev k)). apply split_inj.
    rewrite string_app_assoc. autorewrite with strings.
    assert (k ++ a ≠ []) as Hka by by destruct k.
    rewrite split_app, (split_abs_text a), (split_abs_text (k ++ a)) by done.
    rewrite split_join; [by rewrite rev_app_distr| |].
    + destruct k; [done|]. cbn. by destruct (rev k).
    + by apply Forall_rev, names_no_slash.
Qed.

(** ** The directory of a path *)

Lemma upto_slash_none x : no_char "/" x = true → upto_slash x = "".
Proof.
  induction x as [|c x IH]; [done|]. unfold no_char. cbn. intros [Hc Hx]%andb_true_iff.
  apply bool_decide_eq_true_1 in Hc. rewrite IH by done. by rewrite decide_False.
Qed.

Lemma upto_slash_last a x : no_char "/" x = true → upto_slash (a +:+ String "/" x) = a +:+ "/".
Proof.
  intros Hx. induction a as [|c a IH]; autorewrite with strings; cbn.
  - by rewrite upto_slash_none.
  - rewrite IH. by destruct (a +:+ "/") eqn:E; [destruct a|].
Qed.

Lemma join_snoc l x : l ≠ [] → join (l ++ [x]) = join l +:+ String "/" x.
Proof.
  induction l as [|y l IH]; [done|]. intros _. destruct l as [|z l]; [done|].
  change (join ((y :: z :: l) ++ [x])) with (y +:+ String "/" (join ((z :: l) ++ [x]))).
  rewrite IH by done. change (join (y :: z :: l)) with (y +:+ String "/" (join (z :: l))).
  by rewrite string_app_assoc.
Qed.

Lemma kept_text rooted u : kept rooted u → u ≠ [] → join (rev u) ≠ "".
Proof.
  intros Hk Hu Hj. assert (split (join (rev u)) = [""]) as Hs by by rewrite Hj.
  rewrite split_join in Hs.
  - apply (f_equal (@rev string)) in Hs. rewrite rev_involutive in Hs. subst u.
    by destruct Hk as [(? & _)|[(? & _) _]].
  - intros H. apply Hu. apply (f_equal (@rev string)) in H. by rewrite rev_involutive in H.
  - apply Forall_rev. by eapply kept_no_slash.
Qed.

Lemma rev_ne {A} (u : list A) : u ≠ [] → rev u ≠ [].
Proof. intros Hu H. apply Hu. apply (f_equal (@rev A)) in H. by rewrite rev_involutive in H. Qed.

(** A clean path whose last element is a name: its directory means the names
    before it. *)
Lemma walk_Dir_Clean st p x u :
  Forall name st → (IsAbs p = true → st = []) →
  foldl (push (IsAbs p)) [] (split p) = x :: u → name x →
  walk st (Dir (Clean p)) = walk st (join (rev u)).
Proof.
  intros Hst Hp Hu (_ & _ & _ & Hns).
  assert (∀ a, walk st (a +:+ "/") = walk st a) as Hsl.
  { intros a. change "/" with (String "/" ""). by rewrite walk_app. }
  pose proof (pushes_kept (IsAbs p) (split p) [] (split_no_slash p) ltac:(by destruct (IsAbs p))) as Hk.
  rewrite Hu in Hk. apply kept_tail in Hk. pose proof (IsAbs_Clean p) as HC.
  unfold Dir. unfold Clean at 2. unfold Clean in HC. rewrite Hu in HC |- *. cbn [rev] in HC |- *.
  destruct (IsAbs p) eqn:Ep.
  - rewrite Hp by done. destruct u as [|y u].
    + cbn [rev app join]. change (String "/" x) with ("" +:+ String "/" x).
      by rewrite upto_slash_last.
    + rewrite join_snoc by by apply rev_ne.
      rewrite <-(string_app_cons "/" (join (rev (y :: u)))), upto_slash_last by done.
      rewrite walk_Clean by done. rewrite Hp in Hsl by done. rewrite Hsl. done.
  - rewrite decide_False in HC |- * by (by destruct (rev u)). destruct u as [|y u].
    + cbn [rev app join]. by rewrite upto_slash_none.
    + pose proof (kept_text _ _ Hk ltac:(done)) as Hj.
      rewrite join_snoc in HC |- * by by apply rev_ne. rewrite upto_slash_last by done.
      rewrite walk_Clean, Hsl; [done..|].
      by rewrite IsAbs_app in HC |- * by done; rewrite HC.
Qed.

(** ** Climbing

    The [..] a relative path keeps in front are never taken back, so what is
    joined behind a path cannot lead between it and the working directory. *)

Definition ups (st : list string) : nat := length (filter (λ e, e = "..") st).

Lemma push_ups rooted st e : ups st ≤ ups (push rooted st e).
Proof.
  unfold push, ups. case_decide; [done|]. case_decide as He.
  - destruct st as [|x st]; [cbn; lia|]. case_decide as Hx; rewrite !filter_cons;
      repeat case_decide; cbn; lia || done.
  - rewrite filter_cons. by rewrite decide_False.
Qed.

Lemma pushes_ups rooted l st : ups st ≤ ups (foldl (push rooted) st l).
Proof.
  revert st. induction l as [|e l IH]; intros st; [done|]. cbn.
  etrans; [apply push_ups|apply IH].
Qed.

Lemma walk_ups_length st v : length st ≤ length (foldl (push true) st (rev v)) + ups v.
Proof.
  induction v as [|x v IH]; [cbn; lia|]. cbn [rev]. rewrite foldl_app. cbn [foldl].
  set (w := foldl _ _ _) in *. clearbody w. unfold ups in *. rewrite filter_cons. unfold push.
  repeat case_decide; subst; try tauto; destruct w; cbn in *; repeat case_decide; cbn; lia.
Qed.

Lemma walk_only_ups st v :
  Forall name st → Forall (λ e, e = "..") v →
  Forall name (foldl (push true) st (rev v)) ∧
  length (foldl (push true) st (rev v)) = length st - length v.
Proof.
  intros Hst Hv. induction Hv as [|x v -> Hv [IHn IHl]]; [split; [done|cbn; lia]|].
  cbn [rev]. rewrite foldl_app. cbn [foldl]. set (w := foldl _ _ _) in *. clearbody w.
  unfold push. rewrite decide_False by naive_solver. rewrite decide_True by done.
  destruct IHn as [|y w (_ & _ & Hy & _) IHn]; [split; [by constructor|cbn in *; lia]|].
  rewrite decide_False by done. split; [done|]. cbn in *. lia.
Qed.

Lemma kept_top rooted u :
  kept rooted u → Forall (λ e, e = "..") u ∨ ∃ x u', u = x :: u' ∧ name x.
Proof.
  destruct u as [|x u]; [left; constructor|]. intros [(-> & _ & Hu)|[Hx _]].
  - left. by constructor.
  - right. by exists x, u.
Qed.

Lemma ups_all u : Forall (λ e, e = "..") u → ups u = length u.
Proof. unfold ups. induction 1 as [|x u -> Hu IH]; [done|]. rewrite filter_cons, decide_True by done. cbn. by f_equal. Qed.

(** The elements kept of a path, the last one first. *)
Definition elems (p : string) : list string := foldl (push (IsAbs p)) [] (split p).

Lemma elems_kept p : kept (IsAbs p) (elems p).
Proof. apply pushes_kept; [apply split_no_slash|]. by destruct (IsAbs p). Qed.

Lemma elems_app a b : a ≠ "" → elems (a +:+ String "/" b) = foldl (push (IsAbs a)) (elems a) (split b).
Proof. intros Ha. unfold elems. by rewrite IsAbs_app, split_app, foldl_app. Qed.

Lemma walk_elems st p :
  Forall name st → (IsAbs p = true → st = []) → foldl (push true) st (rev (elems p)) = walk st p.
Proof. intros Hst Hp. apply push_kept_again; [done|apply split_no_slash|done]. Qed.

Lemma IsAbs_Dir_Clean p x u :
  elems p = x :: u → name x → IsAbs (Dir (Clean p)) = IsAbs p.
Proof.
  intros Hu (_ & _ & _ & Hx). pose proof (elems_kept p) as Hk. rewrite Hu in Hk. apply kept_tail in Hk.
  pose proof (IsAbs_Clean p) as HC. unfold Dir. rewrite IsAbs_Clean. unfold Clean in *.
  fold (elems p) in *. rewrite Hu in *. cbn [rev] in *. destruct (IsAbs p) eqn:Ep.
  - cbn [upto_slash]. destruct (upto_slash _); [|done]. by rewrite decide_True.
  - rewrite decide_False in HC |- * by (by destruct (rev u)). destruct u as [|y u].
    + cbn [rev app join]. by rewrite upto_slash_none.
    + pose proof (kept_text _ _ Hk ltac:(done)) as Hj.
      rewrite join_snoc in HC |- * by by apply rev_ne. rewrite upto_slash_last by done.
      by rewrite IsAbs_app in HC |- *.
Qed.

(** What lies strictly below [a] when [b] is joined to it has a name as its
    last element, ... *)
Lemma below_top st a b k :
  Forall name st → (IsAbs a = true → st = []) → a ≠ "" → k ≠ [] →
  walk (walk st a) b = k ++ walk st a →
  ∃ x u, elems (a +:+ String "/" b) = x :: u ∧ name x.
Proof.
  intros Hst Hst0 Ha Hk Hw. set (p := a +:+ String "/" b).
  destruct (kept_top _ _ (elems_kept p)) as [Hup|?]; [exfalso|done].
  assert (IsAbs p = true → st = []) as Hp by (unfold p; by rewrite IsAbs_app).
  pose proof (proj2 (walk_only_ups st _ Hst Hup)) as Hlen.
  rewrite walk_elems in Hlen by done. unfold p in Hlen at 1. rewrite walk_app, Hw, length_app in Hlen.
  pose proof (walk_ups_length st (elems a)) as Ha_len. rewrite walk_elems in Ha_len by done.
  pose proof (ups_all _ Hup) as Hups. unfold p in Hups. rewrite elems_app in Hups by done.
  pose proof (pushes_ups (IsAbs a) (split b) (elems a)) as Hmono.
  unfold p in Hlen. rewrite elems_app in Hlen by done.
  destruct k; [done|]. cbn [length] in Hlen. lia.
Qed.

(** ... and [Dir] leads to the directory that holds it. *)
Lemma resolve_Dir_Join wd a b k :
  Forall name wd → a ≠ "" → k ≠ [] → walk (resolve wd a) b = k ++ resolve wd a →
  resolve wd (Dir (Join a b)) = tail (k ++ resolve wd a).
Proof.
  intros Hwd Ha Hk Hw. set (p := a +:+ String "/" b).
  assert (Join a b = Clean p) as -> by (unfold Join, JoinAll; by rewrite decide_False).
  set (st := if IsAbs a then [] else wd).
  assert (Forall name st) as Hst by (unfold st; destruct (IsAbs a); [constructor|done]).
  assert (IsAbs a = true → st = []) as Hst0 by (unfold st; by intros ->).
  change (resolve wd a) with (walk st a) in *.
  destruct (below_top st a b k Hst Hst0 Ha Hk Hw) as (x & u & Hu & Hx). fold p in Hu.
  assert (IsAbs p = IsAbs a) as Hpa by by apply IsAbs_app. rewrite <-Hpa in Hst0.
  unfold resolve. rewrite (IsAbs_Dir_Clean p x u), Hpa by done. fold st.
  rewrite (walk_Dir_Clean st p x u) by done.
  pose proof (walk_elems st p Hst Hst0) as Hwp. rewrite Hu in Hwp. cbn [rev] in Hwp.
  rewrite foldl_app in Hwp. cbn [foldl] in Hwp. rewrite push_name in Hwp by done.
  unfold p in Hwp at 1. rewrite walk_app, Hw in Hwp. rewrite <-Hwp. cbn [tail].
  pose proof (elems_kept p) as Hkp. rewrite Hu in Hkp. apply kept_tail in Hkp.
  destruct u as [|y u]; [done|]. unfold walk. rewrite split_join; [done|by apply rev_ne|].
  by eapply Forall_rev, kept_no_slash.
Qed.
