(* ===== verification/File.v ===== *)
(** * The file plugin (plugins/file/file.go)

    The plugin keeps the files of the clients below its data directory.  The
    file system is a tree without symbolic links: a map from paths to nodes,
    a path being its names from the last to the first, so that the tail of a
    path is its directory and the root is the empty path.  Which system calls
    are refused, and how much of a file is copied, are arguments. *)

From S2P Require Import Prelude Types Disk Path Core.

(** ** The file system *)

Abbreviation path := (list string).
Inductive node := Folder | Regular (content : bytes).
Abbreviation tree := (gmap path node).

#[export] Instance node_eq_dec : EqDecision node.
Proof. solve_decision. Defined.

Inductive syscall := SysMkdir | SysCreate | SysOpen | SysRemove | SysStat | SysReadDir.

(** The working directory, whether it can be told, the calls the system
    refuses (permissions, a full disk), and the size it gives a directory. *)
Record os_env := mkOs {
  os_wd : path;
  os_wd_known : bool;
  os_refuse : syscall → path → bool;
  os_dirsize : Z;
}.
Definition Getwd (e : os_env) : option string :=
  if e.(os_wd_known) then Some (abs_text e.(os_wd)) else None.

(** What a reader delivers until it ends or fails. *)
Record Reader := mkReader { rd_data : bytes; rd_err : option string }.

Definition stat (q : path) (t : tree) : option node :=
  match q with [] => Some Folder | _ => t !! q end.
Definition Stat (e : os_env) (q : path) (t : tree) : Res node :=
  if e.(os_refuse) SysStat q then Err "stat: permission denied"
  else match stat q t with Some n => Ok n | None => Err "stat: no such file or directory" end.
Definition Open (e : os_env) (q : path) (t : tree) : Res node :=
  if e.(os_refuse) SysOpen q then Err "open: permission denied"
  else match stat q t with Some n => Ok n | None => Err "open: no such file or directory" end.

(** [os.MkdirAll]: the missing directories are made from the top; those made
    before a failure stay. *)
Fixpoint MkdirAll (e : os_env) (q : path) (t : tree) : Res unit * tree :=
  match q with
  | [] => (Ok tt, t)
  | _ :: dir =>
      match t !! q with
      | Some Folder => (Ok tt, t)
      | Some (Regular _) => (Err "mkdir: not a directory", t)
      | None =>
          match MkdirAll e dir t with
          | (Err msg, t') => (Err msg, t')
          | (Ok _, t') =>
              if e.(os_refuse) SysMkdir q then (Err "mkdir: permission denied", t')
              else (Ok tt, <[q := Folder]> t')
          end
      end
  end.

(** [os.Create] makes an empty file or empties the one that is there. *)
Definition Create (e : os_env) (q : path) (t : tree) : Res unit * tree :=
  match q with
  | [] => (Err "open: is a directory", t)
  | _ :: dir =>
      if e.(os_refuse) SysCreate q then (Err "open: permission denied", t)
      else match stat dir t, t !! q with
      | Some Folder, Some Folder => (Err "open: is a directory", t)
      | Some Folder, _ => (Ok tt, <[q := Regular []]> t)
      | Some (Regular _), _ => (Err "open: not a directory", t)
      | None, _ => (Err "open: no such file or directory", t)
      end
  end.

(** What the reader delivers goes into the file that was created. *)
Definition Copy (q : path) (r : Reader) (t : tree) : Res unit * tree :=
  (match r.(rd_err) with Some msg => Err msg | None => Ok tt end, <[q := Regular r.(rd_data)]> t).

Definition Remove (e : os_env) (q : path) (t : tree) : Res unit * tree :=
  if e.(os_refuse) SysRemove q then (Err "remove: permission denied", t)
  else match q with
  | [] => (Err "remove: device or resource busy", t)
  | _ =>
      match t !! q with
      | None => (Err "remove: no such file or directory", t)
      | Some (Regular _) => (Ok tt, delete q t)
      | Some Folder =>
          if decide (filter (λ kv, tail kv.1 = q ∧ kv.1 ≠ []) (map_to_list t) = [])
          then (Ok tt, delete q t) else (Err "remove: directory not empty", t)
      end
  end.

(** The entries of a directory in the order of their names. *)
Definition entry_of (q : path) (kv : path * node) : option (string * node) :=
  match kv.1 with
  | x :: q' => if decide (q' = q) then Some (x, kv.2) else None
  | [] => None
  end.
Definition entry_le (a b : string * node) : Prop := str_le a.1 b.1.
#[export] Instance entry_le_dec a b : Decision (entry_le a b).
Proof. unfold entry_le. apply _. Defined.
Definition ReadDir (e : os_env) (q : path) (t : tree) : Res (list (string * node)) :=
  if e.(os_refuse) SysReadDir q then Err "open: permission denied"
  else match stat q t with
  | Some Folder => Ok (merge_sort entry_le (omap (entry_of q) (map_to_list t)))
  | Some (Regular _) => Err "readdirent: not a directory"
  | None => Err "open: no such file or directory"
  end.

(** ** The plugin *)

Record FilePlugin := mkFilePlugin { fp_dataDir : string }.

(** The directory [Init] takes from the configuration. *)
Definition Init (config : gmap string any) : FilePlugin :=
  match as_string (config !! "data_dir") with
  | Some dir => mkFilePlugin (if decide (dir = "") then "data" else dir)
  | None => mkFilePlugin "data"
  end.

(** What an action answers: a result, a file to download, or a listing. *)
Record FileEntry := mkFileEntry { fe_path : string; fe_is_dir : bool; fe_size : Z }.
Inductive FileReply :=
| Reply (r : Capability.ActionResult)
| ReplyBody (code : Z) (body : node) (body_name : string)
| ReplyFiles (code : Z) (files : list FileEntry).

Section file.
Context (e : os_env).

(** The path of a text, as the system calls see it. *)
Definition at_path (p : string) : path := resolve e.(os_wd) p.

(** The text test both [SaveFile] and [safePath] make. *)
Definition inside (dataDir fullPath : string) : bool :=
  String.prefix (Abs (Getwd e) dataDir +:+ "/") (Abs (Getwd e) fullPath).

Definition safePath (p : FilePlugin) (subPath : string) : Res string :=
  let fullPath := Join p.(fp_dataDir) subPath in
  if inside p.(fp_dataDir) fullPath then Ok fullPath
  else Err ("path traversal detected: " +:+ subPath).

(** The directory is made, the file created and filled. *)
Definition put_file (fullPath : string) (reader : Reader) (t : tree) : Res unit * tree :=
  match MkdirAll e (at_path (Dir fullPath)) t with
  | (Err msg, t') => (Err msg, t')
  | (Ok _, t') =>
      match Create e (at_path fullPath) t' with
      | (Err msg, t'') => (Err msg, t'')
      | (Ok _, t'') => Copy (at_path fullPath) reader t''
      end
  end.

Definition SaveFile (p : FilePlugin) (subPath : string) (reader : Reader) (t : tree) : Res unit * tree :=
  let fullPath := Join p.(fp_dataDir) subPath in
  if negb (inside p.(fp_dataDir) fullPath) then (Err ("path traversal detected: " +:+ subPath), t)
  else put_file fullPath reader t.

Definition LoadFile (p : FilePlugin) (subPath : string) (t : tree) : Res node :=
  match safePath p subPath with
  | Err msg => Err msg
  | Ok fullPath => Open e (at_path fullPath) t
  end.

Definition DeleteFile (p : FilePlugin) (subPath : string) (t : tree) : Res unit * tree :=
  match safePath p subPath with
  | Err msg => (Err msg, t)
  | Ok fullPath => Remove e (at_path fullPath) t
  end.

Definition FileExists (p : FilePlugin) (subPath : string) (t : tree) : bool :=
  match safePath p subPath with
  | Err _ => false
  | Ok fullPath => is_ok (Stat e (at_path fullPath) t)
  end.

Definition GetFilePath (p : FilePlugin) (subPath : string) : string := Join p.(fp_dataDir) subPath.

(** [MkdirAll] and [ReadFile] of the plugin do not look where the path leads. *)
Definition PluginMkdirAll (p : FilePlugin) (subPath : string) (t : tree) : Res unit * tree :=
  MkdirAll e (at_path (Join p.(fp_dataDir) subPath)) t.

Definition ReadFile (p : FilePlugin) (subPath : string) (t : tree) : Res bytes :=
  match Open e (at_path (Join p.(fp_dataDir) subPath)) t with
  | Err msg => Err msg
  | Ok Folder => Err "read: is a directory"
  | Ok (Regular b) => Ok b
  end.

(** [wrote] is what [os.WriteFile] gets onto the disk. *)
Definition PluginWriteFile (p : FilePlugin) (subPath : string) (wrote : Reader) (t : tree) : Res unit * tree :=
  match safePath p subPath with
  | Err msg => (Err msg, t)
  | Ok fullPath => put_file fullPath wrote t
  end.

(** ** Actions *)

Definition fail_reply (code : Z) (msg : string) : FileReply := Reply (Capability.mkResult code msg ANil).

(** data/{client_id}/{type}s/{filename} *)
Definition save_path (clientID fileType filename : string) : string :=
  if decide (clientID = "") then filename
  else if decide (fileType = "") then JoinAll [clientID; filename]
  else JoinAll [clientID; fileType +:+ "s"; filename].

(** [file] is [ctx.Params["file"]] when it is a reader. *)
Definition handlePush (p : FilePlugin) (ctx : Capability.ActionContext) (file : option Reader) (t : tree) :
    FileReply * tree :=
  let params := ctx.(Capability.ctx_Params) in
  let filename := default "" (as_string (params !! "filename")) in
  if decide (filename = "") then (fail_reply 400 "missing filename", t)
  else
    let clientID := default "" (as_string (params !! "client_id")) in
    let fileType := default "" (as_string (params !! "type")) in
    let savePath := save_path clientID fileType filename in
    match file with
    | None => (fail_reply 400 "missing file content", t)
    | Some r =>
        match SaveFile p savePath r t with
        | (Err msg, t') => (fail_reply 500 ("failed to save file: " +:+ msg), t')
        | (Ok _, t') =>
            (Reply (Capability.mkResult 200 "file uploaded successfully"
                      (AMap (<["filename" := AString filename]> $ <["path" := AString savePath]> ∅))), t')
        end
    end.

Definition handlePull (p : FilePlugin) (ctx : Capability.ActionContext) (t : tree) : FileReply :=
  let filename := default "" (as_string (ctx.(Capability.ctx_Params) !! "path")) in
  if decide (filename = "") then fail_reply 400 "missing path parameter"
  else
    match Open e (at_path (Join p.(fp_dataDir) filename)) t with
    | Err _ => fail_reply 404 "file not found"
    | Ok file => ReplyBody 200 file (Base filename)
    end.

(** [fuel] is at least the depth of the tree (see [walkEntries_complete]). *)
Fixpoint walkEntries (fuel : nat) (baseDir prefix : string) (entries : list (string * node)) (t : tree) :
    list FileEntry :=
  match fuel with
  | O => []
  | S fuel' =>
      entries ≫= λ en,
        let relPath := prefix +:+ en.1 in
        if e.(os_refuse) SysStat (at_path (Join baseDir relPath)) then []
        else match en.2 with
        | Folder =>
            let subEntries := match ReadDir e (at_path (Join baseDir relPath)) t with
                              | Ok l => l | Err _ => [] end in
            mkFileEntry (relPath +:+ "/") true e.(os_dirsize) ::
              walkEntries fuel' baseDir (relPath +:+ "/") subEntries t
        | Regular b => [mkFileEntry relPath false (Z.of_nat (length b))]
        end
  end.

Definition height (t : tree) : nat := max_list (length ∘ fst <$> map_to_list t).

Definition listFiles (dir : string) (t : tree) : FileReply :=
  match ReadDir e (at_path dir) t with
  | Err msg => fail_reply 500 msg
  | Ok entries => ReplyFiles 200 (walkEntries (height t) dir "" entries t)
  end.

Definition handleAction (p : FilePlugin) (ctx : Capability.ActionContext) (file : option Reader) (t : tree) :
    FileReply * tree :=
  if decide (ctx.(Capability.ctx_Action) = "file.push") then handlePush p ctx file t
  else if decide (ctx.(Capability.ctx_Action) = "file.pull") then (handlePull p ctx t, t)
  else if decide (ctx.(Capability.ctx_Action) = "file.list") then
    let dir := match as_string (ctx.(Capability.ctx_Params) !! "path") with
               | Some sub => if decide (sub = "") then p.(fp_dataDir) else Join p.(fp_dataDir) sub
               | None => p.(fp_dataDir)
               end in
    (listFiles dir t, t)
  else (fail_reply 404 "unknown action", t).

(** The operations with which the rest of the program reaches the tree. *)
Inductive file_op :=
| FSave (subPath : string) (reader : Reader)
| FWrite (subPath : string) (wrote : Reader)
| FDelete (subPath : string)
| FAction (ctx : Capability.ActionContext) (file : option Reader).
Definition file_step (p : FilePlugin) (t : tree) (op : file_op) : tree :=
  match op with
  | FSave sub r => (SaveFile p sub r t).2
  | FWrite sub r => (PluginWriteFile p sub r t).2
  | FDelete sub => (DeleteFile p sub t).2
  | FAction ctx file => (handleAction p ctx file t).2
  end.
End file.

(** ** What the system calls do to the tree *)

(** Every node lies in a directory and has a name. *)
Definition wf_tree (t : tree) : Prop :=
  t !! [] = None ∧
  ∀ x q nd, t !! (x :: q) = Some nd → name x ∧ stat q t = Some Folder.

(** [below base q]: [q] lies strictly below [base]. *)
Definition below (base q : path) : Prop := base `suffix_of` q ∧ q ≠ base.
#[export] Instance below_dec base q : Decision (below base q).
Proof. unfold below. apply _. Defined.

Lemma below_iff base q : below base q ↔ ∃ k, k ≠ [] ∧ q = k ++ base.
Proof.
  split.
  - intros [[k ->] Hne]. exists k. split; [by intros ->|done].
  - intros (k & Hk & ->). split; [by exists k|]. intros H. apply (f_equal length) in H.
    rewrite length_app in H. destruct k; [done|]. cbn in H. lia.
Qed.

(** [t'] differs from [t] only below [base], or by a directory that leads to
    [base] and was missing. *)
Definition confined (base : path) (t t' : tree) : Prop :=
  ∀ q, t' !! q = t !! q ∨ below base q ∨
       (q `suffix_of` base ∧ t !! q = None ∧ t' !! q = Some Folder).

#[export] Instance confined_refl base : Reflexive (confined base).
Proof. intros t q. by left. Qed.
#[export] Instance confined_trans base : Transitive (confined base).
Proof.
  intros t1 t2 t3 H12 H23 q. destruct (H12 q) as [E12|[?|(? & ? & E12)]], (H23 q) as [E23|[?|(? & E23 & ?)]];
    rewrite ?E12 in *; try tauto; try congruence; auto.
Qed.

Lemma stat_insert_folder q q' t :
  q ≠ [] → t !! q = None → stat q' t = Some Folder → stat q' (<[q := Folder]> t) = Some Folder.
Proof.
  intros Hq Hnone. destruct q' as [|y q']; [done|]. cbn.
  destruct (decide (q = y :: q')) as [->|]; [by rewrite lookup_insert_eq|by rewrite lookup_insert_ne].
Qed.

Lemma MkdirAll_effect e q t r t' :
  MkdirAll e q t = (r, t') →
  (∀ q', t' !! q' = t !! q' ∨ (q' `suffix_of` q ∧ q' ≠ [] ∧ t !! q' = None ∧ t' !! q' = Some Folder)) ∧
  (is_ok r = true → stat q t' = Some Folder).
Proof.
  revert r t'. induction q as [|x q IH]; intros r t'; cbn.
  { intros [= <- <-]. split; [|done]. intros q'. by left. }
  destruct (t !! (x :: q)) as [[|b]|] eqn:E.
  - intros [= <- <-]. split; [by left|done].
  - intros [= <- <-]. split; [by left|done].
  - destruct (MkdirAll e q t) as [[u|msg] t1] eqn:E1; destruct (IH _ _ eq_refl) as [Heff Hok].
    + assert (∀ q', t1 !! q' = t !! q' ∨ q' `suffix_of` x :: q ∧ q' ≠ [] ∧ t !! q' = None
        ∧ t1 !! q' = Some Folder) as Hw.
      { intros q'. destruct (Heff q') as [?|(? & ?)]; [by left|right]. split; [by apply suffix_cons_r|done]. }
      case_match; intros [= <- <-]; [by split|]. split; [|by rewrite lookup_insert_eq].
      intros q'. destruct (decide (q' = x :: q)) as [->|Hne]; [|rewrite lookup_insert_ne by done; apply Hw].
      right. by rewrite lookup_insert_eq.
    + intros [= <- <-]. split; [|done]. intros q'. destruct (Heff q') as [?|(? & ?)]; [by left|right].
      split; [by apply suffix_cons_r|done].
Qed.

Lemma stat_mono t t' q :
  (∀ q', t !! q' = Some Folder → t' !! q' = Some Folder) → stat q t = Some Folder → stat q t' = Some Folder.
Proof. destruct q; [done|]. cbn. auto. Qed.

Lemma MkdirAll_wf e q t r t' :
  Forall name q → wf_tree t → MkdirAll e q t = (r, t') → wf_tree t'.
Proof.
  revert r t'. induction q as [|x q IH]; intros r t' Hq Hwf; cbn; [by intros [= <- <-]|].
  apply Forall_cons in Hq as [Hx Hq].
  destruct (t !! (x :: q)) as [[|b]|] eqn:E; [by intros [= <- <-]..|].
  destruct (MkdirAll e q t) as [[u|msg] t1] eqn:E1; [|intros [= <- <-]; by eapply IH].
  pose proof (IH _ _ Hq Hwf eq_refl) as [Hroot Hwf1]. destruct (MkdirAll_effect _ _ _ _ _ E1) as [Heff Hok].
  specialize (Hok eq_refl). case_match; intros [= <- <-]; [by split|]. split; [by rewrite lookup_insert_ne|].
  assert (t1 !! (x :: q) = None) as Hnone.
  { destruct (Heff (x :: q)) as [->|(Hs & _)]; [done|]. apply suffix_length in Hs. cbn in Hs. lia. }
  intros y q' nd. destruct (decide (x :: q = y :: q')) as [[= <- <-]|Hne].
  - intros _. split; [done|]. by apply stat_insert_folder.
  - rewrite lookup_insert_ne by done. intros Hl. destruct (Hwf1 _ _ _ Hl) as [Hy Hd].
    split; [done|]. by apply stat_insert_folder.
Qed.

Lemma Create_cases e q t r t' :
  Create e q t = (r, t') →
  (is_ok r = false ∧ t' = t) ∨
  (is_ok r = true ∧ q ≠ [] ∧ stat (tail q) t = Some Folder ∧ t !! q ≠ Some Folder ∧ t' = <[q := Regular []]> t).
Proof.
  unfold Create. destruct q as [|x q]; [intros [= <- <-]; by left|].
  repeat case_match; intros [= <- <-]; try (by left); right; split_and!; done || congruence.
Qed.

Lemma put_regular_wf x q b t :
  wf_tree t → name x → stat q t = Some Folder → t !! (x :: q) ≠ Some Folder →
  wf_tree (<[x :: q := Regular b]> t).
Proof.
  intros [Hroot Hwf] Hx Hq Hnf.
  assert (∀ q', stat q' t = Some Folder → stat q' (<[x :: q := Regular b]> t) = Some Folder) as Hst.
  { intros [|y q'] Hs; [done|]. cbn in *. by rewrite lookup_insert_ne by congruence. }
  split; [by rewrite lookup_insert_ne|]. intros y q' nd.
  destruct (decide (x :: q = y :: q')) as [[= <- <-]|Hne]; [by auto|].
  rewrite lookup_insert_ne by done. intros Hl. destruct (Hwf _ _ _ Hl). auto.
Qed.

Lemma Remove_cases e q t r t' :
  Remove e q t = (r, t') → t' = t ∨
  (is_ok r = true ∧ q ≠ [] ∧ t' = delete q t ∧ (∀ x nd, t !! q = Some Folder → t !! (x :: q) = Some nd → False)
   ∧ is_Some (t !! q)).
Proof.
  unfold Remove. destruct (os_refuse e SysRemove q); [intros [= <- <-]; by left|].
  destruct q as [|y q]; [intros [= <- <-]; by left|].
  destruct (t !! (y :: q)) as [[|b]|] eqn:E; [|intros [= <- <-]; by right|intros [= <- <-]; by left].
  case_decide as Hf; intros [= <- <-]; [|by left]. right. split_and!; [done..| |done].
  intros x nd _ Hl. apply elem_of_map_to_list in Hl.
  assert ((x :: y :: q, nd) ∈ filter (λ kv, tail kv.1 = y :: q ∧ kv.1 ≠ []) (map_to_list t)) as H
    by by apply list_elem_of_filter. by rewrite Hf in H; apply not_elem_of_nil in H.
Qed.

Lemma Remove_wf e q t r t' : wf_tree t → Remove e q t = (r, t') → wf_tree t'.
Proof.
  intros [Hroot Hwf] [->|(_ & _ & -> & Hleaf & nd0 & Hnd)]%Remove_cases; [done|].
  split; [by rewrite lookup_delete_None; right|]. intros x q' nd [Hne Hl]%lookup_delete_Some.
  destruct (Hwf _ _ _ Hl) as [Hx Hs]. split; [done|]. destruct q' as [|y q']; [done|]. cbn in *.
  rewrite lookup_delete_ne; [done|]. intros ->. by eapply Hleaf.
Qed.

(** ** Where a path of the plugin leads *)

Lemma Init_dataDir config : (Init config).(fp_dataDir) ≠ "".
Proof. unfold Init. repeat case_match; simplify_eq; cbn; try case_decide; done. Qed.

Lemma IsAbs_Join a b : a ≠ "" → IsAbs (Join a b) = IsAbs a.
Proof. intros Ha. unfold Join, JoinAll. rewrite decide_False, IsAbs_Clean by done. by apply IsAbs_app. Qed.

Section plugin.
Context (e : os_env) (p : FilePlugin).
Hypothesis Hwd : Forall name e.(os_wd).
Hypothesis Hdir : p.(fp_dataDir) ≠ "".

(** The data directory. *)
Let base : path := at_path e p.(fp_dataDir).
(** Where [sub] leads from it. *)
Let target (sub : string) : path := walk base sub.

Lemma base_names : Forall name base.
Proof. by apply resolve_names. Qed.

Lemma at_path_Join sub : at_path e (Join p.(fp_dataDir) sub) = target sub.
Proof. by apply resolve_Join. Qed.

(** Whether the texts compared are those of the paths. *)
Let told : Prop := e.(os_wd_known) = true ∨ IsAbs p.(fp_dataDir) = true.

Lemma Abs_told q :
  told → IsAbs q = IsAbs p.(fp_dataDir) → Abs (Getwd e) q = abs_text (at_path e q).
Proof.
  intros Ht Hq. unfold at_path. destruct Ht as [Ht|Ht].
  - unfold Getwd. rewrite Ht. by apply Abs_resolve.
  - rewrite <-Abs_resolve by done. unfold Abs. by rewrite Hq, Ht.
Qed.

Lemma inside_exact sub :
  inside e p.(fp_dataDir) (Join p.(fp_dataDir) sub) = true ↔ told ∧ base ≠ [] ∧ below base (target sub).
Proof.
  destruct (decide (e.(os_wd_known) = true ∨ IsAbs p.(fp_dataDir) = true)) as [Ht|Ht].
  - unfold inside. rewrite !Abs_told by (try apply IsAbs_Join; done). rewrite at_path_Join. fold base.
    destruct (decide (base = [])) as [Hb|Hb].
    + rewrite Hb. split; [|naive_solver]. intros Hp. exfalso.
      destruct (proj1 (prefix_spec _ _) Hp) as (r & Hr). cbn in Hr.
      assert (Forall name (target sub)) as Hn by (apply walk_names, base_names).
      unfold abs_text in Hr. injection Hr as Hr.
      destruct (target sub) as [|x u]; [done|].
      assert (split (join (rev (x :: u))) = "" :: split r) as Hs by by rewrite Hr.
      rewrite split_join in Hs; [|by apply rev_ne|by apply Forall_rev, names_no_slash].
      apply Forall_rev in Hn. rewrite Hs in Hn. by apply Forall_cons in Hn as [(? & _) _].
    + rewrite (below_text base (target sub) base_names (walk_names _ _ base_names) Hb), below_iff.
      naive_solver.
  - split; [|by intros []]. intros Hp. exfalso.
    assert (IsAbs p.(fp_dataDir) = false) as Ha by (destruct (IsAbs _); tauto).
    unfold inside, Abs, Getwd in Hp. rewrite IsAbs_Join, Ha in Hp by done.
    destruct (os_wd_known e); [tauto|]. done.
Qed.

Lemma safePath_cases sub :
  (safePath e p sub = Ok (Join p.(fp_dataDir) sub) ∧ below base (target sub)) ∨
  safePath e p sub = Err ("path traversal detected: " +:+ sub).
Proof.
  unfold safePath. destruct (inside _ _ _) eqn:E; [left|by right]. split; [done|].
  by apply inside_exact in E as (_ & _ & ?).
Qed.

Lemma at_path_Dir sub :
  below base (target sub) → at_path e (Dir (Join p.(fp_dataDir) sub)) = tail (target sub).
Proof.
  intros (k & Hk & Heq)%below_iff. unfold at_path. rewrite Heq. by apply resolve_Dir_Join.
Qed.

(** Making the directory of an accepted path, and its file, stays confined. *)
Lemma below_tail_suffix q q' :
  below base q → q' `suffix_of` tail q → below base q' ∨ q' `suffix_of` base.
Proof.
  intros (k & Hk & ->)%below_iff Hq'. destruct k as [|x k]; [done|]. cbn in Hq'.
  destruct (decide (base `suffix_of` q')) as [Hb|Hb].
  - destruct (decide (q' = base)) as [->|]; [by right|by left].
  - right. destruct (suffix_weak_total q' base (k ++ base)) as [?|?]; try done. by exists k.
Qed.

Lemma put_file_cases sub rd t r t' :
  below base (target sub) → wf_tree t →
  put_file e (Join p.(fp_dataDir) sub) rd t = (r, t') →
  ∃ t1, wf_tree t1 ∧ confined base t t1 ∧
    (∀ q, t1 !! q = t !! q ∨ (q `suffix_of` tail (target sub) ∧ t !! q = None ∧ t1 !! q = Some Folder)) ∧
    ((is_ok r = false ∧ t' = t1) ∨
     (stat (tail (target sub)) t1 = Some Folder ∧ t1 !! target sub ≠ Some Folder ∧
      r = match rd.(rd_err) with Some msg => Err msg | None => Ok tt end ∧
      t' = <[target sub := Regular rd.(rd_data)]> t1)).
Proof.
  intros Hb Hwf. unfold put_file. rewrite at_path_Dir, at_path_Join by done.
  assert (Forall name (target sub)) as Hn by (apply walk_names, base_names).
  assert (Forall name (tail (target sub))) as Hnt by (destruct Hn; [constructor|done]).
  destruct (MkdirAll e (tail (target sub)) t) as [r1 t1] eqn:Hmk.
  pose proof (MkdirAll_wf _ _ _ _ _ Hnt Hwf Hmk) as Hwf1.
  destruct (MkdirAll_effect _ _ _ _ _ Hmk) as [Heff Hok].
  intros Hput. exists t1. split_and!; [done|..].
  - intros q. destruct (Heff q) as [?|(Hs & Hne & Hnone & Hf)]; [by left|right].
    destruct (below_tail_suffix _ _ Hb Hs); [by left|by right].
  - intros q. destruct (Heff q) as [?|(? & _ & ? & ?)]; auto.
  - destruct r1 as [u|msg]; [|injection Hput as <- <-; by left].
    destruct (Create e (target sub) t1) as [r2 t2] eqn:Hcr.
    apply Create_cases in Hcr as [[Hr ->]|(Hr & Hne & Hd & Hnf & ->)].
    + left. destruct r2; [done|]. by injection Hput as <- <-.
    + right. destruct r2; [|done]. unfold Copy in Hput. injection Hput as <- <-.
      by rewrite insert_insert_eq.
Qed.

Lemma put_file_confined sub rd t :
  below base (target sub) → wf_tree t →
  let t' := (put_file e (Join p.(fp_dataDir) sub) rd t).2 in wf_tree t' ∧ confined base t t'.
Proof.
  intros Hb Hwf. destruct (put_file e (Join p.(fp_dataDir) sub) rd t) as [r t'] eqn:E. cbn.
  destruct (put_file_cases sub rd t r t' Hb Hwf E) as (t1 & Hwf1 & Hc & _ & [[_ ->]|(Hd & Hnf & _ & ->)]);
    [done|].
  assert (Forall name (target sub)) as Hn by (apply walk_names, base_names).
  destruct (target sub) as [|x u] eqn:Etg.
  { apply below_iff in Hb as (k & Hk & Heq). by destruct k. }
  apply Forall_cons in Hn as [Hx _]. split; [by apply put_regular_wf|].
  etrans; [exact Hc|]. intros q. destruct (decide (q = x :: u)) as [->|Hq]; [by right; left|].
  left. by rewrite lookup_insert_ne.
Qed.

Lemma Remove_confined q t : below base q → confined base t (Remove e q t).2.
Proof.
  intros Hb. destruct (Remove e q t) as [r t'] eqn:E.
  apply Remove_cases in E as [->|(_ & _ & -> & _)]; cbn; [done|].
  intros q'. destruct (decide (q' = q)) as [->|]; [by right; left|]. left. by rewrite lookup_delete_ne.
Qed.

Lemma file_step_ok t op :
  wf_tree t → wf_tree (file_step e p t op) ∧ confined base t (file_step e p t op).
Proof.
  intros Hwf.
  assert (∀ sub rd, wf_tree (SaveFile e p sub rd t).2 ∧ confined base t (SaveFile e p sub rd t).2) as Hsave.
  { intros sub rd. unfold SaveFile. destruct (inside _ _ _) eqn:E; cbn; [|done].
    apply put_file_confined; [|done]. by apply inside_exact in E as (_ & _ & ?). }
  destruct op as [sub rd|sub rd|sub|ctx file]; cbn; [done|..].
  - unfold PluginWriteFile. destruct (safePath_cases sub) as [[-> Hb]| ->]; [|done].
    by apply put_file_confined.
  - unfold DeleteFile. destruct (safePath_cases sub) as [[-> Hb]| ->]; [|done].
    rewrite at_path_Join. split; [|by apply Remove_confined].
    destruct (Remove e (target sub) t) eqn:E. by eapply Remove_wf.
  - unfold handleAction. repeat (case_decide; [|try done]); [|done|done].
    unfold handlePush. case_decide; [done|]. destruct file as [rd|]; [|done].
    match goal with |- context [SaveFile e p ?s rd t] => specialize (Hsave s rd);
      destruct (SaveFile e p s rd t) as [[u|msg] t'] end; done.
Qed.
End plugin.

(** ** The listing *)

Definition rel_text (k : path) : string := join (rev k).
Definition prefix_text (k : path) : string := match k with [] => "" | _ => rel_text k +:+ "/" end.

Lemma rel_text_cons x k : prefix_text k +:+ x = rel_text (x :: k).
Proof.
  unfold prefix_text, rel_text. destruct k as [|y k]; [done|].
  change (rev (x :: y :: k)) with (rev (y :: k) ++ [x]).
  rewrite join_snoc by by apply rev_ne. by rewrite string_app_assoc.
Qed.

Lemma walk_rel_text base k : Forall name k → walk base (rel_text k) = k ++ base.
Proof.
  intros Hk. unfold rel_text, walk. destruct k as [|x k]; [done|].
  rewrite split_join by (try apply rev_ne; try apply Forall_rev, names_no_slash; done).
  induction Hk as [|y l Hy Hl IH]; [done|]. cbn. rewrite foldl_app, IH. cbn. by apply push_name.
Qed.

Lemma elem_of_ReadDir e q t l x nd :
  ReadDir e q t = Ok l → (x, nd) ∈ l ↔ t !! (x :: q) = Some nd.
Proof.
  unfold ReadDir. destruct (os_refuse _ _ _); [done|]. repeat case_match; [|done..].
  intros [= <-]. rewrite merge_sort_Permutation, list_elem_of_omap. unfold entry_of. split.
  - intros ([k nd'] & Hk & He). apply elem_of_map_to_list in Hk. cbn in He.
    destruct k as [|y k]; [done|]. case_decide; simplify_eq. done.
  - intros Hl. exists (x :: q, nd). split; [by apply elem_of_map_to_list|]. cbn. by rewrite decide_True.
Qed.

Lemma height_bound t k nd : t !! k = Some nd → length k ≤ height t.
Proof.
  intros Hk. apply max_list_elem_of_le, list_elem_of_fmap. exists (k, nd). split; [done|].
  by apply elem_of_map_to_list.
Qed.

(** The line of the listing for the node at [k] below the directory listed. *)
Definition entry_for (e : os_env) (k : path) (nd : node) : FileEntry :=
  match nd with
  | Folder => mkFileEntry (rel_text k +:+ "/") true e.(os_dirsize)
  | Regular b => mkFileEntry (rel_text k) false (Z.of_nat (length b))
  end.

Section listing.
Context (e : os_env) (t : tree) (dir : string).
Hypothesis Hwd : Forall name e.(os_wd).
Hypothesis Hdir : dir ≠ "".
Hypothesis Hwf : wf_tree t.
Hypothesis Hallow : ∀ s q, e.(os_refuse) s q = false.
Let base : path := at_path e dir.

Lemma ReadDir_folder q : stat q t = Some Folder → ∃ l, ReadDir e q t = Ok l.
Proof. intros Hs. unfold ReadDir. rewrite Hallow, Hs. by eexists. Qed.

(** From the directory at [k] on, with fuel for the levels below it. *)
Lemma walkEntries_below fuel k l fe :
  Forall name k → ReadDir e (k ++ base) t = Ok l → height t ≤ length (k ++ base) + fuel →
  fe ∈ walkEntries e fuel dir (prefix_text k) l t ↔
  ∃ j nd, j ≠ [] ∧ t !! (j ++ k ++ base) = Some nd ∧ fe = entry_for e (j ++ k) nd.
Proof.
  revert k l fe. induction fuel as [|fuel IH]; intros k l fe Hk Hl Hfuel.
  { split; [by intros ?%not_elem_of_nil|]. intros (j & nd & Hj & Hn & _). exfalso.
    apply height_bound in Hn. rewrite length_app in Hn. destruct j; [done|]. cbn in *. lia. }
  cbn [walkEntries]. rewrite list_elem_of_bind. split.
  - intros ([x nd] & Hfe & Hx). apply (elem_of_ReadDir _ _ _ _ _ _ Hl) in Hx.
    cbn [fst snd] in Hfe. rewrite rel_text_cons, Hallow in Hfe. destruct nd as [|b].
    + apply elem_of_cons in Hfe as [->|Hfe]; [by exists [x], Folder|].
      assert (Forall name (x :: k)) as Hxk.
      { constructor; [|done]. destruct Hwf as [_ Hw]. by destruct (Hw _ _ _ Hx). }
      destruct (ReadDir_folder ((x :: k) ++ base) Hx) as [l' Hl'].
      rewrite (at_path_Join e (mkFilePlugin dir) Hwd Hdir), walk_rel_text in Hfe by done. cbn [fp_dataDir] in Hfe.
      fold base in Hfe. rewrite Hl' in Hfe.
      change (rel_text (x :: k) +:+ "/") with (prefix_text (x :: k)) in Hfe.
      apply IH in Hfe as (j & nd & Hj & Hn & ->); [|done..|cbn in *; lia].
      exists (j ++ [x]), nd. rewrite <-!(assoc_L (++)). split_and!; [by destruct j|done..].
    + apply list_elem_of_singleton in Hfe as ->. by exists [x], (Regular b).
  - intros (j & nd & Hj & Hn & ->).
    destruct (exists_last Hj) as (j' & x & ->). rewrite <-!(assoc_L (++)) in *. cbn [app] in *.
    assert (∃ nx, t !! (x :: k ++ base) = Some nx ∧ (j' ≠ [] → nx = Folder)) as (nx & Hnx & Hfold).
    { clear Hj. revert nd Hn. induction j' as [|y j' IHj]; intros nd Hn; [by exists nd|].
      destruct Hwf as [_ Hw]. destruct (Hw _ _ _ Hn) as [_ Hs].
      destruct j' as [|z j']; [by exists Folder|]. cbn in Hs.
      destruct (IHj _ Hs) as (nx & ? & HF). exists nx. split; [done|]. intros _. by apply HF. }
    exists (x, nx). split; [|by apply (elem_of_ReadDir _ _ _ _ _ _ Hl)].
    cbn [fst snd]. rewrite rel_text_cons, Hallow.
    destruct j' as [|y j'].
    { cbn in *. assert (nx = nd) as -> by congruence. destruct nd; cbn; [by left|by apply list_elem_of_singleton]. }
    rewrite Hfold in Hnx |- * by done. right.
    assert (Forall name (x :: k)) as Hxk.
    { constructor; [|done]. destruct Hwf as [_ Hw]. by destruct (Hw _ _ _ Hnx). }
    destruct (ReadDir_folder ((x :: k) ++ base) Hnx) as [l' Hl'].
    rewrite (at_path_Join e (mkFilePlugin dir) Hwd Hdir), walk_rel_text by done. cbn [fp_dataDir].
    fold base. rewrite Hl'. change (rel_text (x :: k) +:+ "/") with (prefix_text (x :: k)).
    apply IH; [done..|cbn in *; lia|]. by exists (y :: j'), nd.
Qed.

(** More fuel than the levels below a directory changes nothing. *)
Lemma walkEntries_more fuel n k l :
  Forall name k → ReadDir e (k ++ base) t = Ok l → height t ≤ length (k ++ base) + fuel →
  walkEntries e (fuel + n) dir (prefix_text k) l t = walkEntries e fuel dir (prefix_text k) l t.
Proof.
  revert k l. induction fuel as [|fuel IH]; intros k l Hk Hl Hfuel.
  { destruct l as [|[x nd] l]; [by destruct n|]. exfalso.
    assert (t !! (x :: k ++ base) = Some nd) as Hn by (eapply elem_of_ReadDir; [done|left]).
    apply height_bound in Hn. cbn in Hn. lia. }
  cbn [walkEntries Nat.add]. apply bind_ext_in. intros [x nd] Hx.
  apply (elem_of_ReadDir _ _ _ _ _ _ Hl) in Hx. cbn [fst snd]. rewrite rel_text_cons, Hallow.
  destruct nd as [|b]; [|done]. f_equal.
  assert (Forall name (x :: k)) as Hxk.
  { constructor; [|done]. destruct Hwf as [_ Hw]. by destruct (Hw _ _ _ Hx). }
  destruct (ReadDir_folder ((x :: k) ++ base) Hx) as [l' Hl'].
  rewrite (at_path_Join e (mkFilePlugin dir) Hwd Hdir), walk_rel_text by done. cbn [fp_dataDir].
  fold base. rewrite Hl'. change (rel_text (x :: k) +:+ "/") with (prefix_text (x :: k)).
  apply IH; [done..|]. cbn in *. lia.
Qed.
End listing.

(** ** What holds of the plugin *)

(** The text test of [safePath] decides where a path leads: with the data
    directory any directory but the root, a path is accepted exactly when
    walking it from the data directory ends strictly below it (and the working
    directory is known where the data directory is relative to it); the path
    returned then leads there.  With the root as data directory everything is
    refused. *)
Theorem safePath_exact (e : os_env) (config : gmap string any) (sub : string) :
  Forall name e.(os_wd) →
  let p := Init config in
  let base := at_path e p.(fp_dataDir) in
  at_path e (GetFilePath p sub) = walk base sub ∧
  safePath e p sub =
    if decide ((e.(os_wd_known) = true ∨ IsAbs p.(fp_dataDir) = true) ∧
               base ≠ [] ∧ below base (walk base sub))
    then Ok (GetFilePath p sub) else Err ("path traversal detected: " +:+ sub).
Proof.
  intros Hwd p base. pose proof (Init_dataDir config : p.(fp_dataDir) ≠ "") as Hdir.
  split; [by apply at_path_Join|]. pose proof (inside_exact e p Hwd Hdir sub) as Hin.
  unfold safePath. case_decide as Hd.
  - by rewrite (proj2 Hin Hd).
  - destruct (inside _ _ _); [|done]. by apply proj1, (λ H, H eq_refl) in Hin.
Qed.

(** C14. Whatever files are pushed, saved, written, deleted, listed or pulled,
    under whatever names and with whatever calls refused, the tree stays well
    formed, and it changes only strictly below the data directory, except for
    the missing directories that lead to it. *)
Theorem file_run_confined (e : os_env) (config : gmap string any) (ops : list file_op) (t : tree) :
  Forall name e.(os_wd) → wf_tree t →
  let p := Init config in
  let t' := foldl (file_step e p) t ops in
  wf_tree t' ∧ confined (at_path e p.(fp_dataDir)) t t'.
Proof.
  intros Hwd Hwf p. pose proof (Init_dataDir config : p.(fp_dataDir) ≠ "") as Hdir. cbn zeta.
  revert t Hwf. induction ops as [|op ops IH]; intros t Hwf; [done|]. cbn [foldl].
  destruct (file_step_ok e p Hwd Hdir t op Hwf) as [Hwf1 Hc1].
  destruct (IH _ Hwf1) as [Hwf2 Hc2]. split; [done|]. by etrans.
Qed.

(** A file that was saved is there: loading the path gives what the reader
    delivered, the file exists, everything else is as it was except
    directories that were missing, and once it is deleted it is gone. *)
Theorem save_then_load (e : os_env) (config : gmap string any) (sub : string) (rd : Reader) (t t' : tree) :
  Forall name e.(os_wd) → wf_tree t →
  (∀ s q, e.(os_refuse) s q = false) →
  let p := Init config in
  SaveFile e p sub rd t = (Ok tt, t') →
  rd.(rd_err) = None ∧
  LoadFile e p sub t' = Ok (Regular rd.(rd_data)) ∧
  FileExists e p sub t' = true ∧
  (∀ q, q ≠ at_path e (GetFilePath p sub) →
     t' !! q = t !! q ∨ (t !! q = None ∧ t' !! q = Some Folder)) ∧
  let '(r, t'') := DeleteFile e p sub t' in
  r = Ok tt ∧ FileExists e p sub t'' = false ∧ (∀ q, q ≠ at_path e (GetFilePath p sub) → t'' !! q = t' !! q).
Proof.
  intros Hwd Hwf Hallow p Hsave. pose proof (Init_dataDir config : p.(fp_dataDir) ≠ "") as Hdir.
  unfold SaveFile in Hsave. destruct (inside e p.(fp_dataDir) (Join p.(fp_dataDir) sub)) eqn:Hin; [|done].
  pose proof Hin as (_ & _ & Hb)%(inside_exact e p Hwd Hdir).
  destruct (put_file_cases e p Hwd Hdir sub rd t _ _ Hb Hwf Hsave)
    as (t1 & Hwf1 & Hc & Hmk & [[? _]|(Hd & Hnf & Hr & ->)]); [done|].
  assert (Hat : at_path e (Join p.(fp_dataDir) sub) = walk (at_path e p.(fp_dataDir)) sub)
    by by apply at_path_Join.
  unfold GetFilePath, LoadFile, FileExists, DeleteFile, safePath, Open, Stat, Remove.
  rewrite Hin, !Hallow, Hat. set (q0 := walk _ _) in *.
  assert (∃ x q1, q0 = x :: q1) as (x & q1 & Hq0).
  { apply below_iff in Hb as (k & Hk & ->). destruct k as [|x k]; [done|]. by eexists _, _. }
  rewrite Hq0 in *. unfold stat at 1 2. rewrite lookup_insert_eq. split_and!; try done.
  - by destruct (rd_err rd).
  - intros q Hq. rewrite lookup_insert_ne by done. destruct (Hmk q) as [?|(_ & ? & ?)]; auto.
  - cbn. by rewrite lookup_delete_eq.
  - intros q Hq. by rewrite lookup_delete_ne.
Qed.

(** The path that climbs to the root and goes down to [q]. *)
Definition climb (n : nat) (q : path) : string := join (replicate n ".." ++ rev q).

Lemma walk_climb base q : Forall name base → Forall name q → q ≠ [] → walk base (climb (length base) q) = q.
Proof.
  intros Hb Hq Hne. unfold walk, climb. rewrite split_join.
  - rewrite foldl_app. replace (foldl (push true) base (replicate (length base) "..")) with (@nil string).
    + rewrite <-(app_nil_r q) at 2. rewrite <-(walk_rel_text [] q) by done.
      unfold walk, rel_text. by rewrite split_join by (try apply rev_ne; try apply Forall_rev, names_no_slash; done).
    + induction Hb as [|x b (_ & _ & Hx & _) Hb IH]; [done|]. cbn. unfold push at 2.
      rewrite decide_False by naive_solver. by rewrite decide_True, decide_False.
  - intros [_ H]%app_eq_nil. by apply rev_ne in H.
  - apply Forall_app. split; [by apply Forall_replicate|]. by apply Forall_rev, names_no_slash.
Qed.

Lemma climb_ne n q : Forall name q → q ≠ [] → climb n q ≠ "".
Proof.
  intros Hq Hne Hc. assert (split (climb n q) = [""]) as Hs by by rewrite Hc. unfold climb in Hs.
  rewrite split_join in Hs.
  - destruct n as [|n]; [|done]. cbn in Hs. apply Forall_rev in Hq. rewrite Hs in Hq.
    by apply Forall_cons in Hq as [(? & _) _].
  - intros [_ H]%app_eq_nil. by apply rev_ne in H.
  - apply Forall_app. split; [by apply Forall_replicate|]. by apply Forall_rev, names_no_slash.
Qed.

(** [file.pull] does not make the test: for every file of the machine that
    the server may open there is a path under which the action hands it out,
    also when the file lies outside the data directory, where [safePath]
    refuses the same path. *)
Theorem pull_reads_anything (e : os_env) (config : gmap string any) (t : tree) (q : path) (content : bytes) :
  Forall name e.(os_wd) → Forall name q → q ≠ [] →
  t !! q = Some (Regular content) → e.(os_refuse) SysOpen q = false →
  let p := Init config in
  ¬ below (at_path e p.(fp_dataDir)) q →
  ∃ sub,
    safePath e p sub = Err ("path traversal detected: " +:+ sub) ∧
    handleAction e p (Capability.mkCtx "file.pull" {["path" := AString sub]} ∅) None t =
      (ReplyBody 200 (Regular content) (Base sub), t).
Proof.
  intros Hwd Hq Hne Hl Hopen p Hout. pose proof (Init_dataDir config : p.(fp_dataDir) ≠ "") as Hdir.
  set (base := at_path e p.(fp_dataDir)) in *.
  assert (Forall name base) as Hb by by apply resolve_names.
  exists (climb (length base) q). pose proof (walk_climb base q Hb Hq Hne) as Hw. split.
  - destruct (safePath_cases e p Hwd Hdir (climb (length base) q)) as [[_ Hbelow]|?]; [|done].
    fold base in Hbelow. by rewrite Hw in Hbelow.
  - unfold handleAction. cbn [Capability.ctx_Action]. dec_eval. unfold handlePull.
    cbn [Capability.ctx_Params]. rewrite lookup_singleton_eq. cbn [as_string default]. unfold id.
    rewrite decide_False.
    2: by apply climb_ne.
    rewrite at_path_Join by done. fold base. rewrite Hw. unfold Open. rewrite Hopen.
    destruct q; [done|]. cbn [stat]. by rewrite Hl.
Qed.

(** [file.list] ends: with the fuel given it lists exactly the nodes below
    the directory, each with its path relative to it, and more fuel lists the
    same. *)
Theorem list_complete (e : os_env) (t : tree) (dir : string) :
  Forall name e.(os_wd) → dir ≠ "" → wf_tree t → (∀ s q, e.(os_refuse) s q = false) →
  stat (at_path e dir) t = Some Folder →
  ∃ entries,
    ReadDir e (at_path e dir) t = Ok entries ∧
    listFiles e dir t = ReplyFiles 200 (walkEntries e (height t) dir "" entries t) ∧
    (∀ n, walkEntries e (height t + n) dir "" entries t = walkEntries e (height t) dir "" entries t) ∧
    (∀ fe, fe ∈ walkEntries e (height t) dir "" entries t ↔
       ∃ k nd, k ≠ [] ∧ t !! (k ++ at_path e dir) = Some nd ∧ fe = entry_for e k nd).
Proof.
  intros Hwd Hdir Hwf Hallow Hst. destruct (ReadDir_folder e t Hallow _ Hst) as [l Hl].
  exists l. split_and!; [done| | |].
  - unfold listFiles. by rewrite Hl.
  - intros n. apply (walkEntries_more e t dir Hwd Hdir Hwf Hallow (height t) n [] l); [done..|lia].
  - intros fe.
    rewrite (walkEntries_below e t dir Hwd Hdir Hwf Hallow (height t) [] l fe) by (done || cbn; lia).
    by setoid_rewrite app_nil_r.
Qed.

(** ** Concrete instances *)

(** The server runs in /srv/app; its data directory is the default. *)
Definition example_os : os_env := mkOs ["app"; "srv"] true (λ _ _, false) 4096.
Definition example_tree : tree :=
  <[["passwd"; "etc"] := Regular (list_ascii_of_string "root")]> $ <[["etc"] := Folder]> $
  <[["a.txt"; "c1"; "data"; "app"; "srv"] := Regular (list_ascii_of_string "hello")]> $
  <[["c1"; "data"; "app"; "srv"] := Folder]> $ <[["data"; "app"; "srv"] := Folder]> $
  <[["app"; "srv"] := Folder]> $ <[["srv"] := Folder]> ∅.

Lemma example_wd : Forall name example_os.(os_wd).
Proof. by apply (bool_decide_unpack _). Qed.

Definition wf_treeb (t : tree) : bool :=
  bool_decide (t !! [] = None) &&
  forallb (λ kv, match kv.1 with
                 | x :: q => bool_decide (name x) && bool_decide (stat q t = Some Folder)
                 | [] => true
                 end) (map_to_list t).
Lemma wf_treeb_sound t : wf_treeb t = true → wf_tree t.
Proof.
  unfold wf_treeb. rewrite andb_true_iff, forallb_forall. intros [Hroot%bool_decide_eq_true_1 Hall].
  split; [done|]. intros x q nd Hl.
  specialize (Hall (x :: q, nd) (proj1 (list_elem_of_In _ _) (proj2 (elem_of_map_to_list _ _ _) Hl))).
  cbn in Hall. apply andb_true_iff in Hall as [?%bool_decide_eq_true_1 ?%bool_decide_eq_true_1]. done.
Qed.
Lemma example_wf : wf_tree example_tree.
Proof. by apply wf_treeb_sound. Qed.

Lemma safePath_exact_witness :
  safePath example_os (Init ∅) "c1/../c2/x" = Ok "data/c2/x" ∧
  safePath example_os (Init ∅) "c1/../../y" = Err "path traversal detected: c1/../../y".
Proof.
  pose proof (safePath_exact example_os ∅ "c1/../c2/x" example_wd) as [_ H1].
  pose proof (safePath_exact example_os ∅ "c1/../../y" example_wd) as [_ H2].
  split; [rewrite H1|rewrite H2]; vm_compute; reflexivity.
Defined.

Definition example_ops : list file_op :=
  [FSave "c1/files/b.txt" (mkReader (list_ascii_of_string "new") None);
   FAction (Capability.mkCtx "file.push"
     (<["filename" := AString "../../../etc/passwd"]> $ <["client_id" := AString "c1"]> ∅) ∅)
     (Some (mkReader [] None));
   FDelete "c1/a.txt"].
Lemma file_run_confined_witness :
  let t' := foldl (file_step example_os (Init ∅)) example_tree example_ops in
  wf_tree t' ∧
  t' !! ["b.txt"; "files"; "c1"; "data"; "app"; "srv"] = Some (Regular (list_ascii_of_string "new")) ∧
  t' !! ["a.txt"; "c1"; "data"; "app"; "srv"] = None ∧
  t' !! ["passwd"; "etc"] = Some (Regular (list_ascii_of_string "root")).
Proof.
  split; [exact (proj1 (file_run_confined example_os ∅ example_ops example_tree example_wd example_wf))|].
  vm_compute. split; [reflexivity|split; reflexivity].
Defined.

Lemma save_then_load_witness :
  let t' := (SaveFile example_os (Init ∅) "c2/n.txt" (mkReader (list_ascii_of_string "hi") None) example_tree).2 in
  LoadFile example_os (Init ∅) "c2/n.txt" t' = Ok (Regular (list_ascii_of_string "hi")).
Proof.
  cbn zeta.
  refine (proj1 (proj2 (save_then_load example_os ∅ "c2/n.txt" (mkReader (list_ascii_of_string "hi") None)
    example_tree _ example_wd example_wf (λ _ _, eq_refl) _))).
  apply injective_projections; [vm_compute; reflexivity|reflexivity].
Defined.

Lemma pull_reads_anything_witness :
  ∃ sub,
    safePath example_os (Init ∅) sub = Err ("path traversal detected: " +:+ sub) ∧
    handleAction example_os (Init ∅) (Capability.mkCtx "file.pull" {["path" := AString sub]} ∅) None example_tree =
      (ReplyBody 200 (Regular (list_ascii_of_string "root")) (Base sub), example_tree).
Proof.
  apply (pull_reads_anything example_os ∅ example_tree ["passwd"; "etc"] (list_ascii_of_string "root") example_wd).
  - by apply (bool_decide_unpack _).
  - discriminate.
  - vm_compute; reflexivity.
  - reflexivity.
  - by apply (bool_decide_unpack _).
Defined.

Lemma list_complete_witness :
  mkFileEntry "c1/a.txt" false 5 ∈
    walkEntries example_os (height example_tree) "data" "" [("c1", Folder)] example_tree.
Proof.
  destruct (list_complete example_os example_tree "data" example_wd ltac:(discriminate) example_wf
    (λ _ _, eq_refl) ltac:(vm_compute; reflexivity)) as (entries & Hread & _ & _ & Hall).
  assert (entries = [("c1", Folder)]) as -> by (vm_compute in Hread; congruence).
  apply Hall. exists ["a.txt"; "c1"], (Regular (list_ascii_of_string "hello")).
  split; [discriminate|]. split; vm_compute; reflexivity.
Defined.
