(* ===== verification/Tag.v ===== *)
(** * The tag plugin (plugins/tag/tag.go)

    Tags of clients in a map of maps.  Its promise is a flat map from client
    and key to value ([tag_refines]); the nesting shows only in that a client
    whose last tag is deleted disappears.  A map is ranged over in an
    unspecified order; the lists here are meant up to order. *)

From S2P Require Import Prelude Types Proto Core.

Record TagPlugin := mkTagPlugin { tp_tags : gmap string (gmap string string) }.
Definition New : TagPlugin := mkTagPlugin ∅.

Record ClientTags := mkClientTags { ct_ClientID : string; ct_Tags : gmap string string }.

(** ** Operations *)

Definition SetTag (clientID key value : string) (p : TagPlugin) : TagPlugin :=
  let tags := default ∅ (p.(tp_tags) !! clientID) in
  mkTagPlugin (<[clientID := <[key := value]> tags]> p.(tp_tags)).

Definition DeleteTag (clientID key : string) (p : TagPlugin) : bool * TagPlugin :=
  match p.(tp_tags) !! clientID with
  | None => (false, p)
  | Some tags =>
      match tags !! key with
      | None => (false, p)
      | Some _ =>
          let tags' := delete key tags in
          (true, mkTagPlugin (if decide (size tags' = 0) then delete clientID p.(tp_tags)
                              else <[clientID := tags']> p.(tp_tags)))
      end
  end.

(** [nil] for a client without tags. *)
Definition GetTags (clientID : string) (p : TagPlugin) : option (gmap string string) :=
  p.(tp_tags) !! clientID.

(** The key and the value a filter asks for; [""] asks for nothing. *)
Definition filter_parts (flt : string) : string * string :=
  if decide (flt = "") then ("", "")
  else match SplitN 2 flt "=" with
  | [k; v] => (k, v)
  | k :: _ => (k, "")
  | [] => ("", "")
  end.

Definition ListByTag (flt : string) (p : TagPlugin) : list ClientTags :=
  let '(filterKey, filterVal) := filter_parts flt in
  omap (λ ct : string * gmap string string,
    let keep := Some (mkClientTags ct.1 ct.2) in
    if decide (filterKey = "") then keep
    else match ct.2 !! filterKey with
    | None => None
    | Some val => if decide (filterVal ≠ "" ∧ val ≠ filterVal) then None else keep
    end) (map_to_list p.(tp_tags)).

Definition Export (p : TagPlugin) : gmap string (gmap string string) := p.(tp_tags).

(** What comes back of an exported value from a file: JSON objects. *)
Definition json_tags (t : gmap string (gmap string string)) : any :=
  AMap ((λ m : gmap string string, AMap (AString <$> m)) <$> t).

Definition Import (data : any) (p : TagPlugin) : TagPlugin :=
  match data with
  | AMap raw =>
      mkTagPlugin (omap (λ tagsRaw, match tagsRaw with
                                    | AMap tagsMap => Some (omap (λ v, as_string (Some v)) tagsMap)
                                    | _ => None
                                    end) raw)
  | _ => p
  end.

(** The data of a result is given as JSON makes it. *)
Inductive TagReply :=
| TagResult (r : Capability.ActionResult)
| TagList (code : Z) (l : list ClientTags).

Definition reply (code : Z) (msg : string) (data : any) : TagReply :=
  TagResult (Capability.mkResult code msg data).

Definition handleAction (ctx : Capability.ActionContext) (p : TagPlugin) : TagReply * TagPlugin :=
  let param k := default "" (as_string (ctx.(Capability.ctx_Params) !! k)) in
  let action := ctx.(Capability.ctx_Action) in
  let clientID := param "client_id" in
  let key := param "key" in
  if decide (action = "tag.set") then
    let value := param "value" in
    if decide (clientID = "" ∨ key = "" ∨ value = "") then
      (reply 400 "client_id, key, value are required" ANil, p)
    else
      (reply 200 "" (AMap (<["client_id" := AString clientID]> $ <["key" := AString key]> $
                           <["value" := AString value]> ∅)), SetTag clientID key value p)
  else if decide (action = "tag.delete") then
    if decide (clientID = "" ∨ key = "") then (reply 400 "client_id and key are required" ANil, p)
    else match DeleteTag clientID key p with
    | (false, p') => (reply 404 "tag not found" ANil, p')
    | (true, p') =>
        (reply 200 "" (AMap (<["client_id" := AString clientID]> $ <["key" := AString key]> ∅)), p')
    end
  else if decide (action = "tag.get") then
    if decide (clientID = "") then (reply 400 "client_id is required" ANil, p)
    else
      let tags := default ∅ (GetTags clientID p) in
      (reply 200 "" (AMap (<["client_id" := AString clientID]> $ <["tags" := AMap (AString <$> tags)]> ∅)), p)
  else if decide (action = "tag.list") then
    match ListByTag (param "tag") p with
    | [] => (reply 200 "没有标签" ANil, p)
    | result => (TagList 200 result, p)
    end
  else (reply 404 "unknown action" ANil, p).

(** ** The flat map *)

Definition flat (p : TagPlugin) (ck : string * string) : option string :=
  p.(tp_tags) !! ck.1 ≫= λ tags, tags !! ck.2.

(** No client is kept without a tag. *)
Definition tags_ok (p : TagPlugin) : Prop := ∀ c m, p.(tp_tags) !! c = Some m → m ≠ ∅.

Inductive tag_op := TSet (clientID key value : string) | TDelete (clientID key : string) | TGet (clientID key : string).

Definition tag_step (p : TagPlugin) (op : tag_op) : TagPlugin :=
  match op with
  | TSet c k v => SetTag c k v p
  | TDelete c k => (DeleteTag c k p).2
  | TGet _ _ => p
  end.
(** What the caller learns: whether the tag was there, its value. *)
Definition tag_out (p : TagPlugin) (op : tag_op) : option string :=
  match op with
  | TSet _ _ _ => None
  | TDelete c k => if (DeleteTag c k p).1 then Some "" else None
  | TGet c k => GetTags c p ≫= λ tags, tags !! k
  end.

(** The specification, on a flat map. *)
Definition spec_step (m : gmap (string * string) string) (op : tag_op) : gmap (string * string) string :=
  match op with
  | TSet c k v => <[(c, k) := v]> m
  | TDelete c k => delete (c, k) m
  | TGet _ _ => m
  end.
Definition spec_out (m : gmap (string * string) string) (op : tag_op) : option string :=
  match op with
  | TSet _ _ _ => None
  | TDelete c k => if decide (is_Some (m !! (c, k))) then Some "" else None
  | TGet c k => m !! (c, k)
  end.

Definition related (p : TagPlugin) (m : gmap (string * string) string) : Prop :=
  tags_ok p ∧ ∀ ck, m !! ck = flat p ck.

Lemma flat_lookup p c k tags : p.(tp_tags) !! c = Some tags → flat p (c, k) = tags !! k.
Proof. unfold flat. cbn. by intros ->. Qed.

Lemma SetTag_flat c k v p ck :
  flat (SetTag c k v p) ck = if decide (ck = (c, k)) then Some v else flat p ck.
Proof.
  destruct ck as [c' k']. unfold SetTag, flat. cbn. destruct (decide (c' = c)) as [->|Hc].
  - rewrite lookup_insert_eq. cbn. destruct (decide (k' = k)) as [->|Hk].
    + by rewrite lookup_insert_eq, decide_True.
    + rewrite lookup_insert_ne, decide_False by congruence. by destruct (_ !! c).
  - rewrite lookup_insert_ne, decide_False by congruence. done.
Qed.

Lemma DeleteTag_found c k p : (DeleteTag c k p).1 = bool_decide (is_Some (flat p (c, k))).
Proof.
  unfold DeleteTag, flat. cbn. destruct (_ !! c) as [tags|]; cbn; [|done].
  by destruct (tags !! k).
Qed.

Lemma DeleteTag_flat c k p ck :
  flat (DeleteTag c k p).2 ck = if decide (ck = (c, k)) then None else flat p ck.
Proof.
  destruct ck as [c' k']. unfold DeleteTag, flat. cbn.
  destruct (p.(tp_tags) !! c) as [tags|] eqn:Hc; cbn.
  2: { case_decide as Hd; [|done]. injection Hd as -> ->. by rewrite Hc. }
  destruct (tags !! k) as [v|] eqn:Hk; cbn.
  2: { case_decide as Hd; [|done]. injection Hd as -> ->. by rewrite Hc. }
  destruct (decide (c' = c)) as [->|Hne].
  - rewrite Hc. cbn. case_decide as Hs.
    + rewrite lookup_delete_eq. cbn. apply map_size_empty_inv in Hs.
      case_decide as Hd; [done|]. assert (delete k tags !! k' = None) as Hd' by by rewrite Hs.
      by rewrite lookup_delete_ne in Hd' by congruence.
    + rewrite lookup_insert_eq. cbn. case_decide as Hd.
      * injection Hd as ->. by rewrite lookup_delete_eq.
      * by rewrite lookup_delete_ne by congruence.
  - rewrite (decide_False (P := (c', k') = (c, k))) by congruence.
    case_decide; [by rewrite lookup_delete_ne|by rewrite lookup_insert_ne].
Qed.

Lemma tag_step_ok p op : tags_ok p → tags_ok (tag_step p op).
Proof.
  intros Hok. destruct op as [c k v|c k|c k]; [| |done]; intros c' m; cbn.
  - destruct (decide (c' = c)) as [->|Hc]; [|rewrite lookup_insert_ne by done; apply Hok].
    rewrite lookup_insert_eq. intros [= <-]. apply insert_non_empty.
  - unfold DeleteTag. destruct (p.(tp_tags) !! c) as [tags|] eqn:Hc; [|apply Hok].
    destruct (tags !! k); [|apply Hok]. cbn. case_decide as Hs.
    + rewrite lookup_delete_Some. intros [_ Hm]. by eapply Hok.
    + rewrite lookup_insert_Some. intros [[_ <-]|[_ Hm]]; [|by eapply Hok].
      intros He. by rewrite He, map_size_empty in Hs.
Qed.

Lemma tag_step_related p m op : related p m → related (tag_step p op) (spec_step m op).
Proof.
  intros [Hok Hm]. split; [by apply tag_step_ok|]. intros ck.
  destruct op as [c k v|c k|c k]; cbn [tag_step spec_step]; [| |apply Hm].
  - rewrite SetTag_flat, lookup_insert. repeat case_decide; simplify_eq; done || apply Hm.
  - rewrite DeleteTag_flat, lookup_delete. repeat case_decide; simplify_eq; done || apply Hm.
Qed.

Lemma tag_out_related p m op : related p m → tag_out p op = spec_out m op.
Proof.
  intros [_ Hm]. destruct op as [c k v|c k|c k]; cbn; [done| |symmetry; apply Hm].
  rewrite DeleteTag_found, Hm. by case_bool_decide; case_decide.
Qed.

Lemma related_run p m ops : related p m → related (foldl tag_step p ops) (foldl spec_step m ops).
Proof.
  revert p m. induction ops as [|op ops IH]; intros p m Hr; [done|]. cbn. apply IH.
  by apply tag_step_related.
Qed.

(** ** Listing by a filter *)

Lemma filter_parts_Cut flt : filter_parts flt = (Cut flt "=").1.
Proof.
  unfold filter_parts. case_decide as H0; [by subst|]. cbn.
  destruct (Cut flt "=") as [[k v] []] eqn:E; [done|]. by apply Cut_not_found in E as (-> & -> & _).
Qed.

(** The filters ["key"], ["key=value"], and [""] for every client. *)
Definition selects (flt : string) (tags : string → option string) : Prop :=
  let '(k, v) := (Cut flt "=").1 in
  k = "" ∨ ∃ val, tags k = Some val ∧ (v = "" ∨ val = v).

Lemma elem_of_ListByTag flt p ct :
  ct ∈ ListByTag flt p ↔
  p.(tp_tags) !! ct.(ct_ClientID) = Some ct.(ct_Tags) ∧ selects flt (λ k, ct.(ct_Tags) !! k).
Proof.
  unfold ListByTag, selects. rewrite filter_parts_Cut. destruct (Cut flt "=").1 as [k v].
  rewrite list_elem_of_omap. split.
  - intros ([c m] & Hin%elem_of_map_to_list & Hct). cbn in Hct.
    repeat case_match; simplify_eq/=; (split; [done|]); [by left|right].
    eexists; split; [eassumption|].
    match goal with |- _ ∨ ?val = v => destruct (decide (v = "")), (decide (val = v)) end;
      [by left..|by right|]. exfalso. auto.
  - intros [Hl Hsel]. exists (ct.(ct_ClientID), ct.(ct_Tags)).
    split; [by apply elem_of_map_to_list|]. cbn. destruct ct as [c m]. cbn in *.
    case_decide; [done|]. destruct Hsel as [?|(val & -> & Hv)]; [done|].
    rewrite decide_False; [done|]. naive_solver.
Qed.

Lemma NoDup_omap_key {A B} (f : string * A → option B) (g : B → string) l :
  (∀ x y, f x = Some y → g y = x.1) → NoDup l.*1 → NoDup (g <$> omap f l).
Proof.
  intros Hf. induction l as [|x l IH]; intros Hnd; [constructor|].
  apply NoDup_cons in Hnd as [Hx Hnd]. specialize (IH Hnd). cbn.
  destruct (f x) as [y|] eqn:Hy; [|done]. cbn. apply NoDup_cons. split; [|done].
  rewrite (Hf _ _ Hy). intros (y' & Heq & (x' & Hx' & Hy')%list_elem_of_omap)%list_elem_of_fmap.
  apply Hx. rewrite Heq, (Hf _ _ Hy'). apply list_elem_of_fmap. by exists x'.
Qed.

Lemma ListByTag_NoDup flt p : NoDup (ct_ClientID <$> ListByTag flt p).
Proof.
  unfold ListByTag. destruct (filter_parts flt) as [fk fv].
  apply NoDup_omap_key; [|apply NoDup_fst_map_to_list]. intros x y Hy. cbn in Hy.
  repeat case_match; simplify_eq; done.
Qed.

(** The plugin is a flat map from client and key to value: after any
    history of setting, deleting and reading, every operation answers what the
    flat map answers, no client is kept without a tag, and a filter lists
    exactly the clients that have a tag it selects, each once with all its
    tags. *)
Theorem tag_refines (ops : list tag_op) (op : tag_op) (flt : string) :
  let p := foldl tag_step New ops in
  let m := foldl spec_step ∅ ops in
  tag_out p op = spec_out m op ∧
  NoDup (ct_ClientID <$> ListByTag flt p) ∧
  (∀ c tags, mkClientTags c tags ∈ ListByTag flt p ↔
     (∃ ck, ck.1 = c ∧ is_Some (m !! ck)) ∧ (∀ k, tags !! k = m !! (c, k)) ∧ selects flt (λ k, m !! (c, k))).
Proof.
  intros p m. assert (related p m) as Hr.
  { apply related_run. by split. }
  split; [by apply tag_out_related|]. split; [apply ListByTag_NoDup|].
  destruct Hr as [Hok Hm]. intros c tags. rewrite elem_of_ListByTag. cbn. split.
  - intros [Hc Hsel]. assert (∀ k, m !! (c, k) = tags !! k) as Hk.
    { intros k. rewrite Hm. by apply flat_lookup. }
    split_and!; [|by intros k; rewrite Hk|].
    + destruct (map_choose tags (Hok _ _ Hc)) as (k & v & Hv). exists (c, k). split; [done|].
      by rewrite Hk, Hv.
    + unfold selects in *. destruct (Cut flt "=").1. by rewrite Hk.
  - intros ((ck & <- & v & Hv) & Htags & Hsel). rewrite Hm in Hv. unfold flat in Hv.
    destruct (p.(tp_tags) !! ck.1) as [tags'|] eqn:Hc; [|done]. cbn in Hv.
    assert (tags' = tags) as ->.
    { apply map_eq. intros k. rewrite Htags, Hm. symmetry. by apply flat_lookup. }
    split; [done|]. unfold selects in *. destruct (Cut flt "=").1. by rewrite Htags.
Qed.

(** The tags that were exported and written as JSON are imported again,
    whatever the plugin held before. *)
Theorem Import_json_Export (p p' : TagPlugin) : Import (json_tags (Export p)) p' = p.
Proof.
  destruct p as [t]. unfold Import, json_tags, Export. cbn. f_equal.
  apply map_eq. intros c. rewrite lookup_omap, lookup_fmap.
  destruct (t !! c) as [m|]; cbn; [|done]. f_equal. apply map_eq. intros k.
  rewrite lookup_omap, lookup_fmap. by destruct (m !! k).
Qed.
