(* ===== verification/Latency.v ===== *)
(** * The latency plugin (plugins/latency/latency.go)

    The last latency every client reported, forgotten after a while.  The
    events come from the worker of the client type, the ticks from the
    plugin's own ticker; both take the lock, so a run is a sequence of timed
    steps.  Instants and durations are nanoseconds. *)

From S2P Require Import Prelude Types Proto StateStore Core.

Record LatencyRecord := mkLatencyRecord { lr_ClientID : string; lr_Latency : Z; lr_UpdatedAt : Z }.
Record LatencyPlugin := mkLatencyPlugin { lp_latencyMap : gmap string LatencyRecord }.
Definition New : LatencyPlugin := mkLatencyPlugin ∅.

Definition five_minutes : Z := 300000000000.

(** The report in an event: who, and how many milliseconds. *)
Definition latency_of (event : GenericEvent) : option Z :=
  if decide (event.(ge_EventType) = EventModified) then
    match event.(ge_Payload) with
    | AMap payload =>
        match payload !! "latency" with
        | Some (AInt64 v) => Some v
        | Some (AFloat64 v) => Some (int_of_float64 v)
        | _ => None
        end
    | _ => None
    end
  else None.

Definition handleClientEvent (now : Z) (event : GenericEvent) (p : LatencyPlugin) : LatencyPlugin :=
  match latency_of event with
  | None => p
  | Some latencyMs =>
      let clientID := event.(ge_Resource).(rk_Name) in
      mkLatencyPlugin (<[clientID := mkLatencyRecord clientID (millis latencyMs) now]> p.(lp_latencyMap))
  end.

Definition cleanupExpired (now : Z) (p : LatencyPlugin) : LatencyPlugin :=
  let cutoff := (now - five_minutes)%Z in
  mkLatencyPlugin (filter (λ kr : string * LatencyRecord, ¬ (kr.2.(lr_UpdatedAt) < cutoff)%Z) p.(lp_latencyMap)).

Definition GetLatency (clientID : string) (p : LatencyPlugin) : option LatencyRecord :=
  p.(lp_latencyMap) !! clientID.
Definition GetAllLatency (p : LatencyPlugin) : list LatencyRecord := (map_to_list p.(lp_latencyMap)).*2.

Inductive LatencyReply :=
| LatencyResult (r : Capability.ActionResult)
| LatencyOne (code : Z) (r : LatencyRecord)
| LatencyList (code : Z) (l : list LatencyRecord).

Definition handleAction (ctx : Capability.ActionContext) (p : LatencyPlugin) : LatencyReply :=
  if decide (ctx.(Capability.ctx_Action) = "latency.get") then
    let clientID := default "" (as_string (ctx.(Capability.ctx_Params) !! "client_id")) in
    if decide (clientID = "") then LatencyResult (Capability.mkResult 400 "missing client_id" ANil)
    else match GetLatency clientID p with
    | None => LatencyResult (Capability.mkResult 404 "no latency record" ANil)
    | Some record => LatencyOne 200 record
    end
  else if decide (ctx.(Capability.ctx_Action) = "latency.list") then
    match GetAllLatency p with
    | [] => LatencyResult (Capability.mkResult 200 "没有延迟记录" ANil)
    | records => LatencyList 200 records
    end
  else LatencyResult (Capability.mkResult 404 "unknown action" ANil).

(** ** Runs *)

Inductive latency_step := LEvent (now : Z) (event : GenericEvent) | LTick (now : Z).
Definition step_time (s : latency_step) : Z := match s with LEvent t _ | LTick t => t end.

(** One round of [Run], or a call of the handler. *)
Definition do_step (p : LatencyPlugin) (s : latency_step) : LatencyPlugin :=
  match s with LEvent now ev => handleClientEvent now ev p | LTick now => cleanupExpired now p end.

(** Time goes on, and a tick comes within five minutes of the one before. *)
Fixpoint on_schedule (last clock : Z) (l : list latency_step) : Prop :=
  match l with
  | [] => True
  | s :: l' =>
      (clock <= step_time s <= last + five_minutes)%Z ∧
      on_schedule (match s with LTick t => t | LEvent _ _ => last end) (step_time s) l'
  end.

(** The clock and the last tick at the end of a run. *)
Definition end_times (lc : Z * Z) (l : list latency_step) : Z * Z :=
  foldl (λ lc s, (match s with LTick t => t | LEvent _ _ => lc.1 end, step_time s)) lc l.

Definition reports (s : latency_step) (c : string) : option (Z * Z) :=
  match s with
  | LEvent t ev => if decide (ev.(ge_Resource).(rk_Name) = c) then (λ ms, (t, ms)) <$> latency_of ev else None
  | LTick _ => None
  end.
(** The last report of a client in a run. *)
Definition last_report (c : string) (l : list latency_step) : option (Z * Z) :=
  foldl (λ o s, match reports s c with Some r => Some r | None => o end) None l.

Lemma last_report_snoc c l s :
  last_report c (l ++ [s]) = match reports s c with Some r => Some r | None => last_report c l end.
Proof. unfold last_report. by rewrite foldl_app. Qed.

Lemma on_schedule_snoc last clock l s :
  on_schedule last clock (l ++ [s]) ↔
  on_schedule last clock l ∧
  ((end_times (last, clock) l).2 <= step_time s <= (end_times (last, clock) l).1 + five_minutes)%Z.
Proof.
  revert last clock. induction l as [|s' l IH]; intros last clock; cbn; [tauto|].
  rewrite IH. unfold end_times. cbn. tauto.
Qed.

(** What is known of the record of a client at the end of a run. *)
Definition record_ok (c : string) (l : list latency_step) (lc : Z * Z) (p : LatencyPlugin) : Prop :=
  match GetLatency c p with
  | Some r => ∃ ms, last_report c l = Some (r.(lr_UpdatedAt), ms) ∧ r.(lr_ClientID) = c ∧
                r.(lr_Latency) = millis ms ∧ (lc.1 - five_minutes <= r.(lr_UpdatedAt) <= lc.2)%Z
  | None => match last_report c l with
            | Some (t, _) => (t < lc.1 - five_minutes)%Z
            | None => True
            end
  end.

Lemma GetLatency_handle c now ev p :
  GetLatency c (handleClientEvent now ev p) =
  match reports (LEvent now ev) c with
  | Some (_, ms) => Some (mkLatencyRecord c (millis ms) now)
  | None => GetLatency c p
  end.
Proof.
  unfold handleClientEvent, GetLatency, reports. destruct (latency_of ev) as [ms|].
  - cbn. case_decide as Hc; [subst; by rewrite lookup_insert_eq|by rewrite lookup_insert_ne].
  - by case_decide.
Qed.

Lemma GetLatency_cleanup c now p :
  GetLatency c (cleanupExpired now p) =
  match GetLatency c p with
  | Some r => if decide (r.(lr_UpdatedAt) < now - five_minutes)%Z then None else Some r
  | None => None
  end.
Proof.
  unfold cleanupExpired, GetLatency. cbn. rewrite map_lookup_filter.
  destruct (_ !! c) as [r|]; cbn; [|done]. unfold guard. cbn. by repeat case_decide.
Qed.

Lemma record_step c l s last clock p :
  on_schedule last clock (l ++ [s]) →
  ((end_times (last, clock) l).1 <= (end_times (last, clock) l).2)%Z →
  record_ok c l (end_times (last, clock) l) p →
  record_ok c (l ++ [s]) (end_times (last, clock) (l ++ [s])) (do_step p s).
Proof.
  rewrite on_schedule_snoc. intros [_ Ht] Hle Hr. unfold end_times. rewrite foldl_app.
  fold (end_times (last, clock) l). cbn [foldl]. set (lc := end_times _ _) in *. clearbody lc.
  unfold record_ok in *. rewrite last_report_snoc. unfold five_minutes in *.
  destruct s as [now ev|now]; cbn [do_step step_time] in *; cbn [fst snd].
  - rewrite GetLatency_handle. destruct (reports (LEvent now ev) c) as [[t ms]|] eqn:E.
    + cbn in E. case_decide; [|done]. destruct (latency_of ev); [|done]. injection E as <- <-.
      eexists. split_and!; [done..|cbn; lia|cbn; lia].
    + destruct (GetLatency c p) as [r|]; [|done]. destruct Hr as (ms & ? & ? & ? & ?).
      exists ms. split_and!; [done..|lia|lia].
  - rewrite GetLatency_cleanup. cbn [reports]. destruct (GetLatency c p) as [r|].
    + destruct Hr as (ms & Hl & ? & ? & ?). unfold five_minutes. case_decide; [by rewrite Hl|].
      exists ms. split_and!; [done..|lia|lia].
    + destruct (last_report c l) as [[t ms]|]; [lia|done].
Qed.

(** While the ticker keeps its schedule, the record of a client is its
    last report, at most ten minutes old; and a client without a record has
    not reported in the five minutes before the last tick or since.  Time
    starts at [t0], when the plugin is run. *)
Theorem latency_last_report (t0 : Z) (l : list latency_step) (c : string) :
  on_schedule t0 t0 l →
  let '(tick, now) := end_times (t0, t0) l in
  match GetLatency c (foldl do_step New l) with
  | Some r => ∃ ms, last_report c l = Some (r.(lr_UpdatedAt), ms) ∧ r.(lr_ClientID) = c ∧
                r.(lr_Latency) = millis ms ∧ (now - 2 * five_minutes <= r.(lr_UpdatedAt) <= now)%Z
  | None => match last_report c l with
            | Some (t, _) => (t < tick - five_minutes)%Z
            | None => True
            end
  end.
Proof.
  intros Hs.
  assert (record_ok c l (end_times (t0, t0) l) (foldl do_step New l) ∧
    ((end_times (t0, t0) l).1 <= (end_times (t0, t0) l).2 <= (end_times (t0, t0) l).1 + five_minutes)%Z)
    as [Hr Ht].
  { induction l as [|s l IH] using rev_ind.
    { unfold record_ok, five_minutes. cbn. split; [done|lia]. }
    pose proof Hs as [Hl Hsn]%on_schedule_snoc. destruct (IH Hl) as [Hr Ht].
    split; [rewrite foldl_app; apply record_step; [done|lia|done]|].
    unfold end_times in *. rewrite foldl_app. destruct s; cbn in *; unfold five_minutes in *; lia. }
  unfold record_ok in Hr. destruct (end_times (t0, t0) l) as [tick now]. cbn in *.
  destruct (GetLatency _ _) as [r|]; [|done]. destruct Hr as (ms & ? & ? & ? & ?).
  exists ms. split_and!; [done..|lia|lia].
Qed.

(** ** A concrete run *)

Definition latency_event (c : string) (v : any) : GenericEvent :=
  NewGenericEvent "id" 0 (mkResourceKey ResourceTypeClient NamespaceDefault c) EventModified (AMap {["latency" := v]}).
Definition example_run : list latency_step :=
  [LEvent 100 (latency_event "a" (AInt64 20)); LTick five_minutes;
   LEvent (five_minutes + 1) (latency_event "b" (AFloat64 (float64_of_Z 7)));
   LTick (2 * five_minutes)].

Lemma latency_last_report_witness :
  on_schedule 0 0 example_run ∧
  GetLatency "a" (foldl do_step New example_run) = None ∧
  ∃ r ms, GetLatency "b" (foldl do_step New example_run) = Some r ∧ r.(lr_Latency) = millis ms ∧ ms = 7%Z.
Proof.
  assert (Hs : on_schedule 0 0 example_run) by (unfold five_minutes; cbn; unfold five_minutes; lia).
  split; [exact Hs|]. split; [vm_compute; reflexivity|].
  pose proof (latency_last_report 0 example_run "b" Hs) as H.
  assert (Hg : GetLatency "b" (foldl do_step New example_run) =
    Some (mkLatencyRecord "b" 7000000 (five_minutes + 1))) by (vm_compute; reflexivity).
  assert (He : end_times (0%Z, 0%Z) example_run = ((2 * five_minutes)%Z, (2 * five_minutes)%Z))
    by (vm_compute; reflexivity).
  rewrite He, Hg in H. destruct H as (ms & Hl & _ & Hms & _).
  exists (mkLatencyRecord "b" 7000000 (five_minutes + 1)), ms. split; [exact Hg|]. split; [exact Hms|].
  assert (Hl' : last_report "b" example_run = Some ((five_minutes + 1)%Z, 7%Z)) by (vm_compute; reflexivity).
  rewrite Hl' in Hl. injection Hl as <-. reflexivity.
Defined.
