(* ===== verification/ProxyPlugin.v ===== *)
(** * The proxy plugin (plugins/proxy/proxy.go)

    For every proxy of the store the plugin keeps a TCP listener.  It is
    subscribed to the same events as the store, so a history of proxy events
    drives both ([both_step]).  The sockets of the machine are a map from
    listeners to the addresses they are bound to; whether the system refuses
    an address is an argument. *)

From S2P Require Import Prelude Types Proto StateStore SnapshotStore.

(** ** Sockets *)

Definition ListenerId := nat.
Record Net := mkNet { net_open : gmap ListenerId string; net_next : ListenerId }.

(** [net.Listen]: an address is not bound twice. *)
Definition Listen (refuse : string → bool) (addr : string) (n : Net) : Res ListenerId * Net :=
  if refuse addr || bool_decide (map_Exists (λ _ a, a = addr) n.(net_open)) then
    (Err ("listen " +:+ addr +:+ ": address already in use"), n)
  else (Ok n.(net_next), mkNet (<[n.(net_next) := addr]> n.(net_open)) (S n.(net_next))).
Definition CloseListener (l : ListenerId) (n : Net) : Net := mkNet (delete l n.(net_open)) n.(net_next).

(** ** Keys *)

(** [cutString]; both callers pass a one-byte separator. *)
Fixpoint cutString (s : string) (sep : ascii) : string * string * bool :=
  match s with
  | "" => ("", "", false)
  | String c s' =>
      if decide (c = sep) then ("", s', true)
      else let '(b, a, f) := cutString s' sep in (String c b, (if f then a else ""), f)
  end.

(** White space before a number is skipped by [fmt.Sscanf]. *)
Fixpoint skip_space (s : string) : string :=
  match s with
  | String c s' => if decide (c = " " ∨ c = "009" ∨ c = "011" ∨ c = "012" ∨ c = "013")%char
                   then skip_space s' else s
  | "" => ""
  end.

Definition parseProxyResourceKey (key : string) : option (string * Z) :=
  let '(clientID, portText, ok) := cutString key ":" in
  if negb ok || bool_decide (clientID = "") || bool_decide (portText = "") then None
  else
    let port := Sscanf_d (skip_space portText) in
    if decide (port = 0%Z) then None else Some (clientID, port).

Definition parseProxyFromMap (m : gmap string any) : ProxyState :=
  mkProxyState (field_string m "client_id") (field_int m "remote_port") (field_int m "local_port")
    (field_string m "local_ip") (field_string m "protocol") (field_string m "bind_addr").

(** ** The provider *)

Record TCPProvider := mkTCPProvider { listeners : gmap string ListenerId }.
Definition NewTCPProvider : TCPProvider := mkTCPProvider ∅.

Section provider.
Context (refuse : string → bool).

Definition listen_addr (bindAddr : string) (port : Z) : string :=
  (if decide (bindAddr = "") then "0.0.0.0" else bindAddr) +:+ ":" +:+ pretty port.

Definition Create (req : ProxyCreateRequest) (pn : TCPProvider * Net) : Res unit * (TCPProvider * Net) :=
  let '(p, n) := pn in
  match Listen refuse (listen_addr req.(pcr_BindAddr) req.(pcr_RemotePort)) n with
  | (Err e, n') => (Err e, (p, n'))
  | (Ok ln, n') =>
      let key := proxyKey req.(pcr_ClientID) req.(pcr_RemotePort) in
      (Ok tt, (mkTCPProvider (<[key := ln]> p.(listeners)), n'))
  end.

Definition Delete (clientID : string) (port : Z) (pn : TCPProvider * Net) : TCPProvider * Net :=
  let '(p, n) := pn in
  let key := proxyKey clientID port in
  match p.(listeners) !! key with
  | Some ln => (mkTCPProvider (delete key p.(listeners)), CloseListener ln n)
  | None => (p, n)
  end.

Definition GetListener (clientID : string) (port : Z) (p : TCPProvider) : option ListenerId :=
  p.(listeners) !! proxyKey clientID port.

(** ** Events *)

(** The proxy of an added event; a payload of another type is ignored. *)
Definition added_proxy (event : GenericEvent) : option ProxyState :=
  match event.(ge_Payload) with
  | AProxyState p => Some p
  | AMap m => Some (parseProxyFromMap m)
  | _ => None
  end.

Definition handleProxyAdded (event : GenericEvent) (pn : TCPProvider * Net) : TCPProvider * Net :=
  match added_proxy event with
  | None => pn
  | Some proxy =>
      if decide (proxy.(ps_ClientID) = "" ∨ proxy.(ps_RemotePort) = 0%Z) then pn
      else
        (Create (mkProxyCreateRequest proxy.(ps_ClientID) proxy.(ps_RemotePort) proxy.(ps_LocalPort)
                   proxy.(ps_LocalIP) proxy.(ps_Protocol) proxy.(ps_BindAddr)) pn).2
  end.

Definition handleProxyDeleted (event : GenericEvent) (pn : TCPProvider * Net) : TCPProvider * Net :=
  match parseProxyResourceKey event.(ge_Resource).(rk_Name) with
  | None => pn
  | Some (clientID, port) => Delete clientID port pn
  end.

Definition handleProxyEvent (event : GenericEvent) (pn : TCPProvider * Net) : TCPProvider * Net :=
  if decide (event.(ge_EventType) = EventAdded) then handleProxyAdded event pn
  else if decide (event.(ge_EventType) = EventDeleted) then handleProxyDeleted event pn
  else pn.

(** The store and the plugin on one event of the proxy type, in the order of
    their subscriptions. *)
Record world := mkWorld { w_store : StateStoreImpl; w_prov : TCPProvider; w_net : Net }.
Definition both_step (w : world) (event : GenericEvent) : world :=
  let '(p, n) := handleProxyEvent event (w.(w_prov), w.(w_net)) in
  mkWorld (applyProxyEvent event w.(w_store)) p n.
Definition both_run (evs : list GenericEvent) (w : world) : world := foldl both_step w evs.
End provider.

(** ** Keys are read back *)

Lemma cutString_Cut s sep : cutString s sep = Cut s sep.
Proof.
  induction s as [|c s IH]; cbn; [done|]. case_decide; [done|]. rewrite IH.
  destruct (Cut s sep) as [[b a] []] eqn:E; [done|]. by apply Cut_not_found in E as (_ & -> & _).
Qed.

Lemma digit_prefix_all s : string_forall is_digit s = true → digit_prefix s = s.
Proof. induction s as [|c s IH]; cbn; [done|]. intros [-> ?]%andb_true_iff. f_equal. by apply IH. Qed.

Lemma Sscanf_pretty z : (0 < z <= int64_max)%Z → Sscanf_d (skip_space (pretty z)) = z.
Proof.
  intros Hz. pose proof (pretty_nonneg_digits z ltac:(lia)) as Hd.
  pose proof (Atoi_pretty z ltac:(lia)) as Ha. destruct (pretty z) as [|c s] eqn:E; [done|].
  pose proof Hd as [Hc _]%andb_true_iff. cbn [skip_space].
  rewrite decide_False by (by intros [->|[->|[->|[->| ->]]]]).
  destruct (digit_not_sep _ Hc) as (Hm & _). unfold Sscanf_d.
  rewrite decide_False by done. rewrite decide_False by (by intros ->).
  rewrite digit_prefix_all by done. by rewrite Ha.
Qed.

Lemma Cut_proxyKey c z :
  no_char ":" c = true → Cut (proxyKey c z) ":" = (c, pretty z, true).
Proof. intros Hc. apply Cut_found. split; [done|]. exact Hc. Qed.

Lemma pretty_ne (z : Z) : (0 <= z)%Z → pretty z ≠ "".
Proof. intros Hz He. pose proof (parse_digits_pretty z Hz) as H. rewrite He in H. cbn in H.
  injection H as <-. done. Qed.

Lemma parse_proxyKey c z :
  no_char ":" c = true → c ≠ "" → (0 < z <= int64_max)%Z →
  parseProxyResourceKey (proxyKey c z) = Some (c, z).
Proof.
  intros Hc Hne Hz. unfold parseProxyResourceKey. rewrite cutString_Cut, Cut_proxyKey by done.
  rewrite !bool_decide_eq_false_2 by (try apply pretty_ne; done || lia). cbn [negb orb].
  rewrite Sscanf_pretty by done. by rewrite decide_False by lia.
Qed.

(** ** The listeners follow the store *)

(** An added proxy of the usual form: a client id without a colon, a port in
    range.  Deleted events and other payloads may be anything. *)
Definition usual (event : GenericEvent) : Prop :=
  event.(ge_EventType) = EventAdded →
  match added_proxy event with
  | Some p => no_char ":" p.(ps_ClientID) = true ∧ (0 <= p.(ps_RemotePort) <= int64_max)%Z
  | None => True
  end.

Definition usual_key (k : string) : Prop :=
  ∃ c z, k = proxyKey c z ∧ no_char ":" c = true ∧ c ≠ "" ∧ (0 < z <= int64_max)%Z.

Record following (w : world) : Prop := mkFollowing {
  f_usual : ∀ k l, w.(w_prov).(listeners) !! k = Some l → usual_key k;
  f_proxy : ∀ k l, w.(w_prov).(listeners) !! k = Some l → is_Some (w.(w_store).(proxies) !! k);
  f_open : ∀ k l, w.(w_prov).(listeners) !! k = Some l → is_Some (w.(w_net).(net_open) !! l);
  f_inj : ∀ k k' l, w.(w_prov).(listeners) !! k = Some l → w.(w_prov).(listeners) !! k' = Some l → k = k';
  f_next : ∀ l a, w.(w_net).(net_open) !! l = Some a → l < w.(w_net).(net_next);
}.

Lemma Listen_cases refuse addr n r n' :
  Listen refuse addr n = (r, n') →
  (∃ e, r = Err e ∧ n' = n) ∨
  (r = Ok n.(net_next) ∧ n' = mkNet (<[n.(net_next) := addr]> n.(net_open)) (S n.(net_next)) ∧
   refuse addr = false).
Proof.
  unfold Listen. destruct (refuse addr); cbn; [intros [= <- <-]; left; by eexists|].
  case_bool_decide; intros [= <- <-]; [left; by eexists|by right].
Qed.

(** The proxy both subscribers put, when it is one. *)
Lemma added_parse event : parseProxyFromPayload event.(ge_Payload) = added_proxy event.
Proof. unfold added_proxy. by destruct (ge_Payload event). Qed.

Lemma following_put refuse (w : world) k a (s : StateStoreImpl) proxy :
  following w → usual_key k → refuse a = false →
  s.(proxies) = <[k := proxy]> w.(w_store).(proxies) →
  following (mkWorld s (mkTCPProvider (<[k := w.(w_net).(net_next)]> w.(w_prov).(listeners)))
    (mkNet (<[w.(w_net).(net_next) := a]> w.(w_net).(net_open)) (S w.(w_net).(net_next)))).
Proof.
  intros [Hu Hp Ho Hi Hn] Hk _ Hs. split; cbn.
  - intros k' l. rewrite lookup_insert_Some. intros [[<- _]|[_ Hl]]; [done|by eapply Hu].
  - intros k' l. rewrite Hs, lookup_insert_Some. intros [[<- _]|[Hne Hl]]; [by rewrite lookup_insert_eq|].
    rewrite lookup_insert_ne by done. by eapply Hp.
  - intros k' l. rewrite lookup_insert_Some. intros [[<- <-]|[Hne Hl]]; [by rewrite lookup_insert_eq|].
    rewrite lookup_insert_is_Some'. right. by eapply Ho.
  - intros k1 k2 l. rewrite !lookup_insert_Some.
    intros [[<- <-]|[Hne1 H1]] [[<- H2]|[Hne2 H2]]; [done| | |by eapply Hi].
    + destruct (Ho _ _ H2) as [a' Ha']. apply Hn in Ha'. lia.
    + subst. destruct (Ho _ _ H1) as [a' Ha']. apply Hn in Ha'. lia.
  - intros l a'. rewrite lookup_insert_Some. intros [[<- _]|[_ Hl]]; [lia|]. apply Hn in Hl. lia.
Qed.

Lemma following_store (w : world) (s : StateStoreImpl) :
  following w → (∀ k l, w.(w_prov).(listeners) !! k = Some l → is_Some (s.(proxies) !! k)) →
  following (mkWorld s w.(w_prov) w.(w_net)).
Proof. intros [Hu Hp Ho Hi Hn] Hs. by split. Qed.

Lemma following_delete (w : world) k l (s : StateStoreImpl) :
  following w → w.(w_prov).(listeners) !! k = Some l →
  (∀ k', k' ≠ k → s.(proxies) !! k' = w.(w_store).(proxies) !! k' ∨ w.(w_prov).(listeners) !! k' = None) →
  following (mkWorld s (mkTCPProvider (delete k w.(w_prov).(listeners))) (CloseListener l w.(w_net))).
Proof.
  intros [Hu Hp Ho Hi Hn] Hk Hs. split; cbn.
  - intros k' l' [_ Hl]%lookup_delete_Some. by eapply Hu.
  - intros k' l' [Hne Hl]%lookup_delete_Some. destruct (Hs k' ltac:(done)) as [->|?]; [by eapply Hp|congruence].
  - intros k' l' [Hne Hl]%lookup_delete_Some. rewrite lookup_delete_ne; [by eapply Ho|].
    intros ->. by apply Hne, (Hi _ _ _ Hk Hl).
  - intros k1 k2 l' [_ H1]%lookup_delete_Some [_ H2]%lookup_delete_Some. by eapply Hi.
  - intros l' a [_ Hl]%lookup_delete_Some. by eapply Hn.
Qed.

Lemma following_step refuse w event :
  usual event → following w → following (both_step refuse w event).
Proof.
  intros Hus Hw. unfold both_step, handleProxyEvent, applyProxyEvent.
  destruct (decide (event.(ge_EventType) = EventAdded)) as [Ha|Ha].
  - specialize (Hus Ha). rewrite added_parse. unfold handleProxyAdded.
    destruct (added_proxy event) as [proxy|]; [|by destruct w].
    assert (Hsame : following (mkWorld (putProxy (proxyKey proxy.(ps_ClientID) proxy.(ps_RemotePort)) proxy
      w.(w_store)) w.(w_prov) w.(w_net))).
    { apply following_store; [done|]. intros k l Hl. cbn. rewrite lookup_insert_is_Some'. right.
      by eapply f_proxy. }
    case_decide as H0; [done|]. cbn [Create pcr_ClientID pcr_RemotePort pcr_BindAddr].
    destruct (Listen _ _ _) as [r n'] eqn:HL.
    apply Listen_cases in HL as [(e & -> & ->)|(-> & -> & Href)]; [done|]. cbn [snd].
    eapply following_put; [done| |done|done]. destruct Hus as [Hc Hz]. eexists _, _.
    split_and!; [done..|tauto|lia|lia].
  - destruct (decide (event.(ge_EventType) = EventDeleted)) as [Hd|Hd]; [|by destruct w].
    set (name := rk_Name _). unfold handleProxyDeleted. fold name.
    assert (Hkey : ∀ k l, w.(w_prov).(listeners) !! k = Some l → k = name →
      ∃ c z, parseProxyResourceKey name = Some (c, z) ∧ proxyKey c z = k).
    { intros k l Hl <-. destruct (f_usual _ Hw _ _ Hl) as (c & z & -> & Hc & Hne & Hz).
      exists c, z. by rewrite parse_proxyKey. }
    destruct (parseProxyResourceKey name) as [[c z]|] eqn:Hp.
    + unfold Delete. destruct (listeners (w_prov w) !! proxyKey c z) as [l|] eqn:Hl.
      * apply following_delete; [done..|]. intros k' Hne. cbn.
        destruct (decide (k' = name)) as [->|]; [right|left; by rewrite lookup_delete_ne].
        apply eq_None_not_Some. intros [l' Hl']. destruct (Hkey _ _ Hl' eq_refl) as (? & ? & [= <- <-] & ?).
        done.
      * apply following_store; [done|]. intros k l' Hl'. cbn.
        rewrite lookup_delete_ne; [by eapply f_proxy|]. intros <-.
        destruct (Hkey _ _ Hl' eq_refl) as (? & ? & [= <- <-] & <-). congruence.
    + apply following_store; [done|]. intros k l' Hl'. cbn.
      rewrite lookup_delete_ne; [by eapply f_proxy|]. intros <-. by destruct (Hkey _ _ Hl' eq_refl) as (? & ? & ? & _).
Qed.

Lemma following_run refuse w evs :
  Forall usual evs → following w → following (both_run refuse evs w).
Proof.
  intros Hevs. revert w. induction Hevs as [|ev evs Hev _ IH]; intros w Hw; [done|]. cbn.
  by apply IH, following_step.
Qed.

(** ** Sockets that nobody closes *)

(** A listener that is not in the map stays open for ever. *)
Lemma lost_stays refuse evs (w : world) l :
  (∀ k l', w.(w_prov).(listeners) !! k = Some l' → l' ≠ l) →
  l < w.(w_net).(net_next) →
  let w' := both_run refuse evs w in
  (∀ k l', w'.(w_prov).(listeners) !! k = Some l' → l' ≠ l) ∧
  w'.(w_net).(net_open) !! l = w.(w_net).(net_open) !! l.
Proof.
  revert w. induction evs as [|ev evs IH]; intros w Hout Hlt; [done|]. cbn.
  assert ((∀ k l', (both_step refuse w ev).(w_prov).(listeners) !! k = Some l' → l' ≠ l) ∧
    l < (both_step refuse w ev).(w_net).(net_next) ∧
    (both_step refuse w ev).(w_net).(net_open) !! l = w.(w_net).(net_open) !! l) as (Hout' & Hlt' & Ho).
  2: { destruct (IH _ Hout' Hlt') as [? Heq]. split; [done|]. by rewrite <-Ho. }
  unfold both_step, handleProxyEvent. repeat case_decide; [| |done].
  - unfold handleProxyAdded. destruct (added_proxy ev) as [proxy|]; [|done]. case_decide; [done|].
    cbn [Create]. destruct (Listen _ _ _) as [r n'] eqn:HL.
    apply Listen_cases in HL as [(e & -> & ->)|(-> & -> & _)]; [done|]. cbn. split_and!.
    + intros k l' [[_ <-]|[_ Hl]]%lookup_insert_Some; [lia|by eapply Hout].
    + lia.
    + by rewrite lookup_insert_ne by lia.
  - unfold handleProxyDeleted. destruct (parseProxyResourceKey _) as [[c z]|]; [|done].
    unfold Delete. destruct (_ !! proxyKey c z) as [l0|] eqn:Hl0; [|done]. cbn. split_and!.
    + intros k l' [_ Hl]%lookup_delete_Some. by eapply Hout.
    + done.
    + rewrite lookup_delete_ne; [done|]. by eapply Hout.
Qed.

(** Every added proxy has a key that has no listener yet. *)
Fixpoint adds_fresh (refuse : string → bool) (w : world) (evs : list GenericEvent) : Prop :=
  match evs with
  | [] => True
  | ev :: evs' =>
      (ev.(ge_EventType) = EventAdded →
       match added_proxy ev with
       | Some p => GetListener p.(ps_ClientID) p.(ps_RemotePort) w.(w_prov) = None
       | None => True
       end) ∧ adds_fresh refuse (both_step refuse w ev) evs'
  end.

(** No socket is open beside the listeners of the map. *)
Definition no_leak (w : world) : Prop :=
  ∀ l, is_Some (w.(w_net).(net_open) !! l) → ∃ k, w.(w_prov).(listeners) !! k = Some l.

Lemma no_leak_step refuse w ev :
  adds_fresh refuse w [ev] → following w → no_leak w → no_leak (both_step refuse w ev).
Proof.
  intros [Hfresh _] Hf Hw. unfold both_step, handleProxyEvent. repeat case_decide; [| |by destruct w].
  - specialize (Hfresh ltac:(done)). unfold handleProxyAdded.
    destruct (added_proxy ev) as [proxy|]; [|by destruct w]. case_decide; [by destruct w|].
    cbn [Create pcr_ClientID pcr_RemotePort pcr_BindAddr].
    destruct (Listen _ _ _) as [r n'] eqn:HL.
    apply Listen_cases in HL as [(e & -> & ->)|(-> & -> & _)]; [by destruct w|].
    intros l. cbn. rewrite lookup_insert_is_Some. intros [<-|[Hne Hl]].
    + eexists. by rewrite lookup_insert_eq.
    + destruct (Hw _ Hl) as [k Hk]. exists k. rewrite lookup_insert_ne; [done|].
      intros <-. unfold GetListener in Hfresh. congruence.
  - unfold handleProxyDeleted. destruct (parseProxyResourceKey _) as [[c z]|]; [|by destruct w].
    unfold Delete. destruct (_ !! proxyKey c z) as [l0|] eqn:Hl0; [|by destruct w].
    intros l. cbn. rewrite lookup_delete_is_Some. intros [Hne Hl].
    destruct (Hw _ Hl) as [k Hk]. exists k. rewrite lookup_delete_ne; [done|]. intros <-. congruence.
Qed.

Lemma no_leak_run refuse evs w :
  Forall usual evs → adds_fresh refuse w evs → following w → no_leak w → no_leak (both_run refuse evs w).
Proof.
  intros Hus. revert w. induction Hus as [|ev evs Hev _ IH]; intros w Ha Hf Hw; [done|].
  destruct Ha as [Hev' Ha]. cbn. apply IH; [done|by apply following_step|].
  by apply no_leak_step.
Qed.

(** ** What holds of the plugin *)

Definition start (publicIP : string) : world := mkWorld (NewStateStore publicIP) NewTCPProvider (mkNet ∅ 0).
Lemma following_start ip : following (start ip).
Proof. by split; intros *; cbn; rewrite ?lookup_empty. Qed.

(** The deleted event of a proxy. *)
Definition deleted_event (id : string) (now : Z) (c : string) (port : Z) : GenericEvent :=
  NewGenericEvent id now (mkResourceKey ResourceTypeProxy NamespaceDefault (proxyKey c port)) EventDeleted ANil.


(** A proxy that is added again with another bind address loses its first
    listener: the socket stays open whatever events follow, and the plugin
    never finds it again. *)
Theorem readd_leaks_listener (refuse : string → bool) (w : world) (ev : GenericEvent) (p : ProxyState) (l : ListenerId) :
  following w →
  ev.(ge_EventType) = EventAdded → added_proxy ev = Some p →
  p.(ps_ClientID) ≠ "" → p.(ps_RemotePort) ≠ 0%Z →
  GetListener p.(ps_ClientID) p.(ps_RemotePort) w.(w_prov) = Some l →
  let addr := listen_addr p.(ps_BindAddr) p.(ps_RemotePort) in
  refuse addr = false → (∀ l' a, w.(w_net).(net_open) !! l' = Some a → a ≠ addr) →
  ∀ evs,
    let w' := both_run refuse (ev :: evs) w in
    w'.(w_net).(net_open) !! l = w.(w_net).(net_open) !! l ∧ is_Some (w.(w_net).(net_open) !! l) ∧
    ∀ k, w'.(w_prov).(listeners) !! k ≠ Some l.
Proof.
  intros Hf Hev Hp Hc Hport Hl addr Href Hfree evs.
  change (both_run refuse (ev :: evs) w) with (both_run refuse evs (both_step refuse w ev)).
  assert (Hopen : is_Some (w.(w_net).(net_open) !! l)) by by eapply f_open.
  assert (Hstep : let w1 := both_step refuse w ev in
    w1.(w_prov).(listeners) = <[proxyKey p.(ps_ClientID) p.(ps_RemotePort) := w.(w_net).(net_next)]> w.(w_prov).(listeners)
    ∧ w1.(w_net) = mkNet (<[w.(w_net).(net_next) := addr]> w.(w_net).(net_open)) (S w.(w_net).(net_next))).
  { unfold both_step, handleProxyEvent. rewrite decide_True by done. unfold handleProxyAdded. rewrite Hp.
    rewrite decide_False by tauto. cbn [Create pcr_ClientID pcr_RemotePort pcr_BindAddr].
    unfold Listen. fold addr. rewrite Href, bool_decide_eq_false_2; [done|].
    intros (l' & a & Ha & ->). by eapply Hfree. }
  cbn zeta in Hstep. destruct Hstep as [Hls Hnet].
  assert (Hlt : l < w.(w_net).(net_next)) by (destruct Hopen; by eapply f_next).
  destruct (lost_stays refuse evs (both_step refuse w ev) l) as [Hout Ho].
  - intros k l'. rewrite Hls, lookup_insert_Some. intros [[_ <-]|[Hne Hk]]; [lia|].
    intros ->. by apply Hne, (f_inj _ Hf _ _ _ Hl Hk).
  - rewrite Hnet. cbn. lia.
  - split_and!; [|done|].
    + etrans; [exact Ho|]. rewrite Hnet. cbn.
      by rewrite lookup_insert_ne by lia.
    + intros k Hk. by eapply Hout.
Qed.

(** A client id with a colon: the deleted event of its proxy ends the row
    of the store, but the plugin reads another key out of the name and keeps
    the listener, which goes on accepting connections. *)
Theorem colon_id_keeps_listener (refuse : string → bool) (w : world) (id : string) (now : Z) (c : string) (port : Z)
    (l : ListenerId) :
  (∀ k k', w.(w_prov).(listeners) !! k = Some l → w.(w_prov).(listeners) !! k' = Some l → k = k') →
  no_char ":" c = false → GetListener c port w.(w_prov) = Some l →
  let w' := both_step refuse w (deleted_event id now c port) in
  GetProxy w'.(w_store) c port = None ∧ GetListener c port w'.(w_prov) = Some l ∧
  w'.(w_net).(net_open) !! l = w.(w_net).(net_open) !! l.
Proof.
  intros Hinj Hc Hl. unfold both_step, handleProxyEvent, handleProxyDeleted, applyProxyEvent, deleted_event.
  cbn [ge_EventType NewGenericEvent ge_Resource rk_Name]. dec_eval.
  destruct (parseProxyResourceKey (proxyKey c port)) as [[c1 z1]|] eqn:Hp.
  2: { cbn. unfold GetProxy. cbn. by rewrite lookup_delete_eq. }
  assert (Hne : proxyKey c1 z1 ≠ proxyKey c port).
  { intros Heq. apply last_sep_inj in Heq as [-> _]; [|apply pretty_no_colon..].
    unfold parseProxyResourceKey in Hp. rewrite cutString_Cut in Hp.
    destruct (Cut (proxyKey c port) ":") as [[b a] f] eqn:E.
    destruct f; [|done]. apply Cut_found in E as [_ Hb]. repeat case_match; simplify_eq.
    unfold no_char in Hc. congruence. }
  unfold Delete. destruct (listeners (w_prov w) !! proxyKey c1 z1) as [l1|] eqn:Hl1; cbn;
    unfold GetProxy, GetListener in *; cbn; rewrite lookup_delete_eq; [|done].
  rewrite lookup_delete_ne by done. split_and!; [done..|]. rewrite lookup_delete_ne; [done|].
  intros ->. by apply Hne, Hinj.
Qed.

(** ** Concrete histories *)

Definition added_event (p : ProxyState) : GenericEvent :=
  NewGenericEvent "e" 0 (mkResourceKey ResourceTypeProxy NamespaceDefault (proxyKey p.(ps_ClientID) p.(ps_RemotePort)))
    EventAdded (AProxyState p).
Definition example_proxy (c : string) (port : Z) (bind : string) : ProxyState :=
  mkProxyState c port 22 "127.0.0.1" "tcp" bind.
Definition example_history : list GenericEvent :=
  [added_event (example_proxy "a" 8080 ""); added_event (example_proxy "b" 8081 ""); deleted_event "e" 0 "a" 8080].

Lemma usual_added p :
  no_char ":" p.(ps_ClientID) = true → (0 <= p.(ps_RemotePort) <= int64_max)%Z → usual (added_event p).
Proof. intros Hc Hz _. by split. Qed.
Lemma usual_deleted id now c port : usual (deleted_event id now c port).
Proof. intros H. discriminate H. Qed.


(** The proxy of "a" is moved from one address of the machine to another. *)
Definition example_world : world :=
  both_run (λ _, false) [added_event (example_proxy "a" 8080 "10.0.0.1")] (start "1.2.3.4").
Lemma example_world_following : following example_world.
Proof.
  apply following_run; [|apply following_start]. apply Forall_cons_2; [by apply usual_added|constructor].
Qed.
Lemma readd_leaks_listener_witness :
  let w' := both_run (λ _, false) [added_event (example_proxy "a" 8080 "10.0.0.2"); deleted_event "e" 0 "a" 8080]
              example_world in
  w'.(w_net).(net_open) !! 0 = Some "10.0.0.1:8080" ∧ ∀ k, w'.(w_prov).(listeners) !! k ≠ Some 0.
Proof.
  assert (Hl : GetListener "a" 8080 example_world.(w_prov) = Some 0) by (vm_compute; reflexivity).
  assert (Hfree : ∀ (l' : ListenerId) (a : string), example_world.(w_net).(net_open) !! l' = Some a →
    a ≠ listen_addr "10.0.0.2" 8080).
  { intros l' a Ha Heq. assert (Hall : map_Forall (λ (_ : ListenerId) x, x ≠ listen_addr "10.0.0.2" 8080)
      example_world.(w_net).(net_open)) by (apply (bool_decide_unpack _); vm_compute; reflexivity).
    exact (Hall _ _ Ha Heq). }
  pose proof (readd_leaks_listener (λ _, false) example_world (added_event (example_proxy "a" 8080 "10.0.0.2"))
    (example_proxy "a" 8080 "10.0.0.2") 0 example_world_following eq_refl eq_refl ltac:(discriminate) ltac:(discriminate)
    Hl eq_refl Hfree [deleted_event "e" 0 "a" 8080]) as (Ho & _ & Hout).
  cbn zeta. split; [|exact Hout]. etrans; [exact Ho|]. vm_compute; reflexivity.
Defined.

Definition colon_world : world :=
  both_run (λ _, false) [added_event (example_proxy "site:a" 8080 "")] (start "1.2.3.4").
Lemma colon_id_keeps_listener_witness :
  let w' := both_step (λ _, false) colon_world (deleted_event "e" 0 "site:a" 8080) in
  GetProxy w'.(w_store) "site:a" 8080 = None ∧ GetListener "site:a" 8080 w'.(w_prov) = Some 0.
Proof.
  assert (Hinj : ∀ k k', colon_world.(w_prov).(listeners) !! k = Some 0 →
    colon_world.(w_prov).(listeners) !! k' = Some 0 → k = k').
  { assert (Hone : ∀ k, colon_world.(w_prov).(listeners) !! k = Some 0 → k = proxyKey "site:a" 8080).
    { intros k Hk. assert (Hall : map_Forall (λ (k : string) (_ : ListenerId), k = proxyKey "site:a" 8080)
        colon_world.(w_prov).(listeners)) by (apply (bool_decide_unpack _); vm_compute; reflexivity).
      exact (Hall _ _ Hk). }
    intros k k' Hk Hk'. rewrite (Hone _ Hk), (Hone _ Hk'). reflexivity. }
  destruct (colon_id_keeps_listener (λ _, false) colon_world "e" 0 "site:a" 8080 0 Hinj
    ltac:(reflexivity) ltac:(vm_compute; reflexivity)) as (H1 & H2 & _).
  split; [exact H1|exact H2].
Defined.
