(* ===== verification/Message.v ===== *)
(** * Messages to the clients (common/model/message.go)

    What the session server, the relay plugin and the client say to each
    other over a WebSocket: a type and data, which is a struct of the package,
    a map, or nothing. *)

From S2P Require Import Prelude Types.

Record RegisteredData := mkRegisteredData { rg_ClientID : string; rg_ServerHost : string }.
Record CommandData := mkCommandData {
  cm_RequestID : string;
  cm_RemotePort : Z;
  cm_LocalPort : Z;
  cm_Protocol : string;
  cm_BindAddr : string;
  cm_Command : string;
  cm_ServerHost : string;
  cm_TunnelPort : Z;
  cm_Token : string;
  cm_LocalIP : string;
}.
Record ErrorData := mkErrorData { er_Code : Z; er_Message : string }.
Record ProxyClosedData := mkProxyClosedData { pc_Key : string }.
Record TunnelRequestData := mkTunnelRequestData { tr_Key : string; tr_Token : string }.
(** [handler.ProxyOutboundData] *)
Record ProxyOutboundData := mkProxyOutboundData {
  po_ServerHost : string;
  po_TunnelPort : Z;
  po_Token : string;
  po_LocalPort : Z;
}.
Record RelaySignalData := mkRelaySignalData {
  sg_SessionID : string;
  sg_Protocol : string;
  sg_Role : string;
  sg_PeerClientID : string;
  sg_SourcePort : Z;
  sg_TargetPort : Z;
  sg_TargetLocalIP : string;
  sg_SourceLocalIP : string;
  sg_ServerHost : string;
  sg_Token : string;
}.
Record RelayStatusData := mkRelayStatusData { st_SessionID : string; st_Status : string; st_Message : string }.

Inductive WSData :=
| DNil
| DMap (m : gmap string any)
| DOther (v : any)
| DRegistered (d : RegisteredData)
| DCommand (d : CommandData)
| DError (d : ErrorData)
| DProxyClosed (d : ProxyClosedData).

Record WSMessage := mkWSMessage { ws_Type : string; ws_Data : WSData }.

(** [data.(map[string]any)] *)
Definition data_map (d : WSData) : option (gmap string any) :=
  match d with DMap m => Some m | _ => None end.

(** The relay signal for one end of a relay; [role] names that end. *)
Definition relay_signal (msgType role peer publicIP : string) (session : RelaySession) : WSMessage :=
  mkWSMessage msgType $ DMap $
    <["session_id" := AString session.(rs_ID)]> $
    <["protocol" := AString session.(rs_Protocol)]> $
    <["role" := AString role]> $
    <["peer_client_id" := AString peer]> $
    <["source_port" := AInt session.(rs_SourcePort)]> $
    <["target_port" := AInt session.(rs_TargetPort)]> $
    <["target_local_ip" := AString session.(rs_TargetLocalIP)]> $
    <["source_local_ip" := AString session.(rs_SourceLocalIP)]> $
    <["server_host" := AString publicIP]> $
    <["token" := AString session.(rs_Token)]> ∅.

(** What the tunnel loop of the server sends for a connection it accepted. *)
Definition tunnel_request_message (clientKey tunnelToken : string) (proxy : ProxyState) : WSMessage :=
  mkWSMessage "tunnel_request" $ DMap $
    <["key" := AString clientKey]> $
    <["token" := AString tunnelToken]> $
    <["local_port" := AInt proxy.(ps_LocalPort)]> $
    <["local_ip" := AString proxy.(ps_LocalIP)]> $
    <["protocol" := AString proxy.(ps_Protocol)]> ∅.
