(* ===== verification/RelayPlugin.v ===== *)
(** * The relay plugin (plugins/relay/relay.go)

    The plugin tells both ends of a relay that it was made or removed, and
    offers the operations that make and remove one by publishing events.  The
    messages handed to [notifyFn] are listed in order with their addressee;
    [notifyFn] is absent until somebody sets it. *)

From S2P Require Import Prelude Types Proto StateStore Message.

Section relay.
(** The callback: the message and what it answers; [None] is [nil]. *)
Context (notifyFn : option (string → WSMessage → Res unit)).

(** The calls of [notifyFn] of one notification. *)
Definition notifyRelayClients (s : StateStoreImpl) (session : RelaySession) (msgType : string) :
    list (string * WSMessage) :=
  match notifyFn with
  | None => []
  | Some _ =>
      [(session.(rs_SourceClient),
        relay_signal msgType "source" session.(rs_TargetClient) s.(publicIP) session);
       (session.(rs_TargetClient),
        relay_signal msgType "target" session.(rs_SourceClient) s.(publicIP) session)]
  end.

Definition handleRelayAdded (restoring : bool) (s : StateStoreImpl) (event : GenericEvent) :
    list (string * WSMessage) :=
  match event.(ge_Payload) with
  | ARelaySession session =>
      if restoring then [] else notifyRelayClients s session "relay_signal"
  | _ => []
  end.

Definition handleRelayDeleted (s : StateStoreImpl) (event : GenericEvent) : list (string * WSMessage) :=
  match GetRelaySession s event.(ge_Resource).(rk_Name) with
  | None => []
  | Some sess => notifyRelayClients s sess "relay_closed"
  end.

Definition handleRelayEvent (restoring : bool) (s : StateStoreImpl) (event : GenericEvent) :
    list (string * WSMessage) :=
  if decide (event.(ge_EventType) = EventAdded) then handleRelayAdded restoring s event
  else if decide (event.(ge_EventType) = EventDeleted) then handleRelayDeleted s event
  else [].

(** The handlers of the relay type run in the order of their subscription:
    the store's first, as [NewCore] subscribes before any plugin is made. *)
Definition relay_step (restoring : bool) (s : StateStoreImpl) (event : GenericEvent) :
    StateStoreImpl * list (string * WSMessage) :=
  let s' := applyRelayEvent event s in (s', handleRelayEvent restoring s' event).
End relay.

(** ** The provider *)

(** [id], [token] and [evid] are what [GenerateID] gives, [now] the clock; the
    event is published. *)
Definition Create (id token evid : string) (now : Z) (req : RelayCreateRequest) :
    string * string * GenericEvent :=
  (id, token,
   NewGenericEvent evid now (mkResourceKey ResourceTypeRelay NamespaceDefault id) EventAdded
     (ARelaySession (mkRelaySession id req.(rcr_SourceClient) req.(rcr_TargetClient) req.(rcr_Protocol)
        req.(rcr_SourcePort) req.(rcr_TargetPort) req.(rcr_TargetLocalIP) req.(rcr_SourceLocalIP)
        token 0 "" ""))).

Definition Delete (evid : string) (now : Z) (sessionID : string) (s : StateStoreImpl) : Res GenericEvent :=
  match GetRelaySession s sessionID with
  | None => Err ("relay session not found: " +:+ sessionID)
  | Some _ => Ok (NewGenericEvent evid now (mkResourceKey ResourceTypeRelay NamespaceDefault sessionID)
                    EventDeleted ANil)
  end.

(** ** The two events *)

Lemma relay_added notifyFn restoring s id now key session :
  relay_step notifyFn restoring s (NewGenericEvent id now key EventAdded (ARelaySession session)) =
  (putRelay session.(rs_ID) session s,
   if restoring then [] else notifyRelayClients notifyFn (putRelay session.(rs_ID) session s) session "relay_signal").
Proof. done. Qed.

Lemma relay_deleted notifyFn restoring s id now key payload :
  let event := NewGenericEvent id now key EventDeleted payload in
  relay_step notifyFn restoring s event = (applyRelayEvent event s, []) ∧
  GetRelaySession (applyRelayEvent event s) key.(rk_Name) = None.
Proof.
  assert (H : GetRelaySession (applyRelayEvent (NewGenericEvent id now key EventDeleted payload) s) key.(rk_Name) = None).
  { unfold GetRelaySession, applyRelayEvent. cbn [ge_EventType NewGenericEvent ge_Resource]. dec_eval. cbn.
    apply lookup_delete_eq. }
  split; [|exact H]. unfold relay_step, handleRelayEvent. cbn [ge_EventType NewGenericEvent]. dec_eval.
  unfold handleRelayDeleted. cbn [ge_Resource NewGenericEvent]. by rewrite H.
Qed.

Lemma Delete_found evid now sid s x :
  GetRelaySession s sid = Some x →
  Delete evid now sid s = Ok (NewGenericEvent evid now (mkResourceKey ResourceTypeRelay NamespaceDefault sid)
                                EventDeleted ANil).
Proof. unfold Delete. by intros ->. Qed.
Lemma Delete_missing evid now sid s :
  GetRelaySession s sid = None → Delete evid now sid s = Err ("relay session not found: " +:+ sid).
Proof. unfold Delete. by intros ->. Qed.

(** No event makes the plugin say "relay_closed". *)
Lemma relay_closed_never notifyFn restoring s event :
  Forall (λ am : string * WSMessage, am.2.(ws_Type) = "relay_signal") (relay_step notifyFn restoring s event).2.
Proof.
  unfold relay_step, handleRelayEvent. cbn [snd]. repeat case_decide; [| |constructor].
  - unfold handleRelayAdded. destruct (ge_Payload event); try constructor. destruct restoring; [constructor|].
    unfold notifyRelayClients. destruct notifyFn; by repeat constructor.
  - unfold handleRelayDeleted, GetRelaySession, applyRelayEvent. rewrite decide_False by congruence.
    rewrite decide_True by done. cbn. rewrite lookup_delete_eq. constructor.
Qed.

(** ** What holds *)

(** The life of a relay: the event [Create] publishes files the session
    with its token and, outside of a restore, tells the source and the target
    once each with their roles; [Delete] finds it and its event removes it.
    The ends are never told that the relay is closed, here or by any other
    event: when the plugin's handler looks for the session the store's handler
    has already removed it. *)
Theorem relay_lifecycle (notifyFn : string → WSMessage → Res unit) (s : StateStoreImpl)
    (id token evid evid' : string) (now now' : Z) (req : RelayCreateRequest) :
  let '(_, _, added) := Create id token evid now req in
  let '(s1, told1) := relay_step (Some notifyFn) false s added in
  let session := mkRelaySession id req.(rcr_SourceClient) req.(rcr_TargetClient) req.(rcr_Protocol)
    req.(rcr_SourcePort) req.(rcr_TargetPort) req.(rcr_TargetLocalIP) req.(rcr_SourceLocalIP) token 0 "" "" in
  GetRelaySession s1 id = Some session ∧
  told1 = [(req.(rcr_SourceClient), relay_signal "relay_signal" "source" req.(rcr_TargetClient) s.(publicIP) session);
           (req.(rcr_TargetClient), relay_signal "relay_signal" "target" req.(rcr_SourceClient) s.(publicIP) session)] ∧
  (relay_step (Some notifyFn) true s added).2 = [] ∧
  ∃ deleted, Delete evid' now' id s1 = Ok deleted ∧
    let '(s2, told2) := relay_step (Some notifyFn) false s1 deleted in
    GetRelaySession s2 id = None ∧ told2 = [] ∧ is_ok (Delete evid' now' id s2) = false ∧
    (∀ restoring s' event, Forall (λ am, am.2.(ws_Type) = "relay_signal") (relay_step (Some notifyFn) restoring s' event).2).
Proof.
  cbn [Create]. rewrite !relay_added. set (session := mkRelaySession _ _ _ _ _ _ _ _ _ _ _ _).
  assert (H1 : GetRelaySession (putRelay id session s) id = Some session)
    by (unfold GetRelaySession; apply lookup_insert_eq).
  split; [exact H1|]. split; [done|]. split; [done|].
  eexists. split; [eapply Delete_found; exact H1|].
  edestruct relay_deleted as [Hs Hnone]. rewrite Hs. cbn [rk_Name] in Hnone.
  split; [exact Hnone|]. split; [done|].
  split; [by rewrite Delete_missing|]. intros. apply relay_closed_never.
Qed.
