(* ===== verification/Pairing.v ===== *)
(** * Pairing connections (session/server.go: tunnels)

    A connection to a public port is answered in two halves.  The tunnel loop
    registers a token with a channel of capacity one, sends the token to the
    client and starts a goroutine that waits on the channel for a minute; the
    client opens a tunnel connection that presents the token, and
    [AcceptTunnel] hands it over through the channel.  A third goroutine
    removes what is older than a minute and puts nil into its channel, with
    the lock held.  [pair_step] interleaves their critical sections and
    channel operations in any order.

    Public connections, tunnel connections and channels are numbers; two maps
    record, for the statements only, which token was issued for which public
    connection and which token a tunnel connection presented. *)

From S2P Require Import Prelude.

Definition PubConn := nat.
Definition TunnelConn := nat.
Definition ChanId := nat.

(** [pendingEntry]; instants are in nanoseconds. *)
Record pendingEntry := mkPending { pe_ch : ChanId; pe_createdAt : Z }.

(** A channel of capacity one and the token it was made for. *)
Record tunnelChan := mkChan { tc_token : string; tc_buf : list (option TunnelConn) }.

(** The goroutine that serves a public connection: it waits, it pipes, or it
    has closed the connection. *)
Inductive waiter := Waiting (ch : ChanId) (since : Z) | Piped (conn : TunnelConn) | Gone.

Record PairState := mkPair {
  pendingMap : gmap string pendingEntry;
  chans : gmap ChanId tunnelChan;
  waiters : gmap PubConn waiter;
  handing : gmap TunnelConn ChanId;
  closed : gset TunnelConn;
  clock : Z;
  stopped : bool;
  issued : gmap string PubConn;
  presented : gmap TunnelConn string;
}.
Definition NewPairing (now : Z) : PairState := mkPair ∅ ∅ ∅ ∅ ∅ now false ∅ ∅.

Definition minute : Z := 60000000000.
Definition sends (c : tunnelChan) (x : option TunnelConn) : tunnelChan := mkChan c.(tc_token) (c.(tc_buf) ++ [x]).
(** Whether a send on the channel goes through. *)
Definition has_room (s : PairState) (ch : ChanId) : Prop :=
  match s.(chans) !! ch with Some c => c.(tc_buf) = [] | None => False end.

(** ** Operations *)

(** [registerPending]: a new channel under the token. *)
Definition registerPending (t : string) (ch : ChanId) (s : PairState) : PairState :=
  mkPair (<[t := mkPending ch s.(clock)]> s.(pendingMap)) (<[ch := mkChan t []]> s.(chans))
    s.(waiters) s.(handing) s.(closed) s.(clock) s.(stopped) s.(issued) s.(presented).

(** One round of the tunnel loop: [pub] was accepted, [t] generated; [sent]
    is whether the client could be told.  If not the connection is closed and
    the entry stays. *)
Definition request (pub : PubConn) (t : string) (ch : ChanId) (sent : bool) (s : PairState) : PairState :=
  let s1 := registerPending t ch s in
  mkPair s1.(pendingMap) s1.(chans) (<[pub := if sent then Waiting ch s.(clock) else Gone]> s1.(waiters))
    s1.(handing) s1.(closed) s1.(clock) s1.(stopped) (<[t := pub]> s1.(issued)) s1.(presented).

(** The first half of [AcceptTunnel]: the entry is taken out under the lock. *)
Definition AcceptTunnel_take (t : string) (conn : TunnelConn) (s : PairState) : PairState :=
  match s.(pendingMap) !! t with
  | Some e =>
      mkPair (delete t s.(pendingMap)) s.(chans) s.(waiters) (<[conn := e.(pe_ch)]> s.(handing)) s.(closed)
        s.(clock) s.(stopped) s.(issued) (<[conn := t]> s.(presented))
  | None =>
      mkPair s.(pendingMap) s.(chans) s.(waiters) s.(handing) ({[conn]} ∪ s.(closed))
        s.(clock) s.(stopped) s.(issued) (<[conn := t]> s.(presented))
  end.

(** The second half: the acknowledgement is written, [acked] or not, and the
    connection is sent into the channel. *)
Definition AcceptTunnel_send (conn : TunnelConn) (ch : ChanId) (acked : bool) (s : PairState) : PairState :=
  if acked then
    mkPair s.(pendingMap) (alter (λ c, sends c (Some conn)) ch s.(chans)) s.(waiters) (delete conn s.(handing))
      s.(closed) s.(clock) s.(stopped) s.(issued) s.(presented)
  else
    mkPair s.(pendingMap) s.(chans) s.(waiters) (delete conn s.(handing)) ({[conn]} ∪ s.(closed))
      s.(clock) s.(stopped) s.(issued) s.(presented).

Definition set_waiter (pub : PubConn) (w : waiter) (s : PairState) : PairState :=
  mkPair s.(pendingMap) s.(chans) (<[pub := w]> s.(waiters)) s.(handing) s.(closed) s.(clock) s.(stopped)
    s.(issued) s.(presented).

(** The waiting goroutine receives [x]. *)
Definition receive (pub : PubConn) (ch : ChanId) (x : option TunnelConn) (s : PairState) : PairState :=
  set_waiter pub (match x with Some conn => Piped conn | None => Gone end)
    (mkPair s.(pendingMap) (alter (λ c, mkChan c.(tc_token) (tail c.(tc_buf))) ch s.(chans)) s.(waiters) s.(handing)
       s.(closed) s.(clock) s.(stopped) s.(issued) s.(presented)).

(** The pipe has ended: both connections are closed. *)
Definition pipe_end (pub : PubConn) (conn : TunnelConn) (s : PairState) : PairState :=
  set_waiter pub Gone
    (mkPair s.(pendingMap) s.(chans) s.(waiters) s.(handing) ({[conn]} ∪ s.(closed)) s.(clock) s.(stopped)
       s.(issued) s.(presented)).

Definition expired (s : PairState) (e : pendingEntry) : Prop := (minute < s.(clock) - e.(pe_createdAt))%Z.
#[export] Instance expired_dec s e : Decision (expired s e).
Proof. unfold expired. apply _. Defined.

(** The channels of the expired entries; every entry has a channel of its own. *)
Definition expired_chans (s : PairState) : gset ChanId :=
  list_to_set (pe_ch <$> filter (λ e, expired s e) (map_to_list s.(pendingMap)).*2).

Definition cleanupExpired (s : PairState) : PairState :=
  mkPair (filter (λ te : string * pendingEntry, ¬ expired s te.2) s.(pendingMap))
    (map_imap (λ ch c, Some (if decide (ch ∈ expired_chans s) then sends c None else c)) s.(chans))
    s.(waiters) s.(handing) s.(closed) s.(clock) s.(stopped) s.(issued) s.(presented).

Definition unregisterPending (t : string) (s : PairState) : PairState :=
  mkPair (delete t s.(pendingMap)) s.(chans) s.(waiters) s.(handing) s.(closed) s.(clock) s.(stopped)
    s.(issued) s.(presented).

(** ** Steps *)

(** A token, a connection and a channel are new when they are made; a send
    needs room.  [unregisterPending] is not called. *)
Inductive pair_step (s : PairState) : PairState → Prop :=
| PRequest pub t ch sent :
    s.(waiters) !! pub = None → s.(issued) !! t = None → s.(chans) !! ch = None →
    pair_step s (request pub t ch sent s)
| PTake t conn :
    s.(presented) !! conn = None → pair_step s (AcceptTunnel_take t conn s)
| PSend conn ch acked :
    s.(handing) !! conn = Some ch → (acked = true → has_room s ch) →
    pair_step s (AcceptTunnel_send conn ch acked s)
| PReceive pub ch since x :
    s.(waiters) !! pub = Some (Waiting ch since) →
    (∃ c, s.(chans) !! ch = Some c ∧ head c.(tc_buf) = Some x) →
    pair_step s (receive pub ch x s)
| PTimeout pub ch since :
    s.(waiters) !! pub = Some (Waiting ch since) → (since + minute <= s.(clock))%Z →
    pair_step s (set_waiter pub Gone s)
| PStopWaiter pub ch since :
    s.(waiters) !! pub = Some (Waiting ch since) → s.(stopped) = true →
    pair_step s (set_waiter pub Gone s)
| PEnd pub conn :
    s.(waiters) !! pub = Some (Piped conn) → pair_step s (pipe_end pub conn s)
| PCleanup :
    (∀ ch, ch ∈ expired_chans s → has_room s ch) → pair_step s (cleanupExpired s)
| PTick d :
    (0 <= d)%Z →
    pair_step s (mkPair s.(pendingMap) s.(chans) s.(waiters) s.(handing) s.(closed) (s.(clock) + d) s.(stopped)
                   s.(issued) s.(presented))
| PStop :
    pair_step s (mkPair s.(pendingMap) s.(chans) s.(waiters) s.(handing) s.(closed) s.(clock) true
                   s.(issued) s.(presented)).

(** ** The invariant *)

(** At most one value in a channel, a connection that presented its token. *)
Definition buf_ok (presented : gmap TunnelConn string) (c : tunnelChan) : Prop :=
  c.(tc_buf) = [] ∨ c.(tc_buf) = [None] ∨
  ∃ conn, c.(tc_buf) = [Some conn] ∧ presented !! conn = Some c.(tc_token).

Record pair_inv (s : PairState) : Prop := mkPairInv {
  i_entry : ∀ t e, s.(pendingMap) !! t = Some e →
    s.(chans) !! e.(pe_ch) = Some (mkChan t []);
  i_handing : ∀ conn ch, s.(handing) !! conn = Some ch →
    ∃ t, s.(presented) !! conn = Some t ∧ s.(chans) !! ch = Some (mkChan t []) ∧ s.(pendingMap) !! t = None;
  i_handing_inj : ∀ conn conn' ch, s.(handing) !! conn = Some ch → s.(handing) !! conn' = Some ch → conn = conn';
  i_buf : ∀ ch c, s.(chans) !! ch = Some c → buf_ok s.(presented) c;
  i_issued : ∀ ch c, s.(chans) !! ch = Some c → is_Some (s.(issued) !! c.(tc_token));
  i_token : ∀ ch ch' c c', s.(chans) !! ch = Some c → s.(chans) !! ch' = Some c' →
    c.(tc_token) = c'.(tc_token) → ch = ch';
  i_waiting : ∀ pub ch since, s.(waiters) !! pub = Some (Waiting ch since) →
    ∃ c, s.(chans) !! ch = Some c ∧ s.(issued) !! c.(tc_token) = Some pub;
  i_piped : ∀ pub conn, s.(waiters) !! pub = Some (Piped conn) →
    ∃ t, s.(presented) !! conn = Some t ∧ s.(issued) !! t = Some pub;
}.

Lemma pair_inv_new now : pair_inv (NewPairing now).
Proof. split; intros *; cbn; by rewrite ?lookup_empty. Qed.

Lemma elem_of_expired_chans s ch :
  ch ∈ expired_chans s ↔ ∃ t e, s.(pendingMap) !! t = Some e ∧ expired s e ∧ e.(pe_ch) = ch.
Proof.
  unfold expired_chans. rewrite elem_of_list_to_set, list_elem_of_fmap. split.
  - intros (e & -> & [He Hin]%list_elem_of_filter).
    apply list_elem_of_fmap in Hin as ([t e'] & -> & Hin%elem_of_map_to_list). by exists t, e'.
  - intros (t & e & Ht & He & <-). exists e. split; [done|]. apply list_elem_of_filter. split; [done|].
    apply list_elem_of_fmap. exists (t, e). split; [done|]. by apply elem_of_map_to_list.
Qed.

Lemma request_inv pub t ch sent s :
  pair_inv s → s.(waiters) !! pub = None → s.(issued) !! t = None → s.(chans) !! ch = None →
  pair_inv (request pub t ch sent s).
Proof.
  intros [He Hh Hhi Hb Hi Ht Hw Hp] Hpub Hnt Hch.
  assert (Htok : ∀ ch' c, s.(chans) !! ch' = Some c → c.(tc_token) ≠ t).
  { intros ch' c Hc <-. destruct (Hi _ _ Hc). congruence. }
  split; cbn.
  - intros t' e [[<- <-]|[Hne Hl]]%lookup_insert_Some; [by rewrite lookup_insert_eq|].
    specialize (He _ _ Hl). rewrite lookup_insert_ne; [done|]. congruence.
  - intros conn ch' Hc. destruct (Hh _ _ Hc) as (t' & Hpr & Hc' & Hnone). exists t'.
    rewrite lookup_insert_ne by congruence. rewrite lookup_insert_ne; [done|].
    intros <-. by apply (Htok _ _ Hc').
  - done.
  - intros ch' c [[<- <-]|[Hne Hl]]%lookup_insert_Some; [by left|by eapply Hb].
  - intros ch' c [[<- <-]|[Hne Hl]]%lookup_insert_Some; cbn; [by rewrite lookup_insert_eq|].
    rewrite lookup_insert_is_Some'. right. by eapply Hi.
  - intros ch1 ch2 c1 c2 [[<- <-]|[Hne1 H1]]%lookup_insert_Some [[<- <-]|[Hne2 H2]]%lookup_insert_Some; cbn;
      [done| | |by eapply Ht]; intros Heq; exfalso; [by apply (Htok _ _ H2)|by apply (Htok _ _ H1)].
  - intros pub' ch' since [[<- Hw']|[Hne Hl]]%lookup_insert_Some.
    + destruct sent; [|done]. injection Hw' as <- <-. exists (mkChan t []). by rewrite !lookup_insert_eq.
    + destruct (Hw _ _ _ Hl) as (c & Hc & Hic). exists c. rewrite lookup_insert_ne by congruence.
      rewrite lookup_insert_ne; [done|]. intros ->. by apply (Htok _ _ Hc).
  - intros pub' conn [[<- Hw']|[Hne Hl]]%lookup_insert_Some; [by destruct sent|].
    destruct (Hp _ _ Hl) as (t' & Hpr & Hit). exists t'. rewrite lookup_insert_ne; [done|]. congruence.
Qed.

Lemma take_inv t conn s :
  pair_inv s → s.(presented) !! conn = None → pair_inv (AcceptTunnel_take t conn s).
Proof.
  intros [He Hh Hhi Hb Hi Ht Hw Hp] Hnew.
  assert (Hpr : ∀ conn' t', s.(presented) !! conn' = Some t' → <[conn := t]> s.(presented) !! conn' = Some t').
  { intros conn' t' Hc. rewrite lookup_insert_ne; [done|]. congruence. }
  unfold AcceptTunnel_take. destruct (s.(pendingMap) !! t) as [e|] eqn:Hl; split; cbn; try done.
  - intros t' e' [_ Hl']%lookup_delete_Some. by eapply He.
  - intros conn' ch' [[<- <-]|[Hne Hl']]%lookup_insert_Some.
    + exists t. rewrite lookup_insert_eq, lookup_delete_eq. split_and!; [done|by apply He|done].
    + destruct (Hh _ _ Hl') as (t' & H1 & H2 & H3). exists t'.
      split_and!; [by apply Hpr|done|by rewrite lookup_delete_None; right].
  - intros c1 c2 ch [[<- <-]|[Hne1 H1]]%lookup_insert_Some [[<- E2]|[Hne2 H2]]%lookup_insert_Some;
      [done| | |by eapply Hhi].
    + destruct (Hh _ _ H2) as (t' & _ & Hc & Hn). rewrite (He _ _ Hl) in Hc. congruence.
    + subst ch. destruct (Hh _ _ H1) as (t' & _ & Hc & Hn). rewrite (He _ _ Hl) in Hc. congruence.
  - intros ch c Hc. destruct (Hb _ _ Hc) as [?|[?|(conn' & ? & ?)]]; [by left|by right; left|].
    right; right. exists conn'. by split; [|apply Hpr].
  - intros pub conn' Hl'. destruct (Hp _ _ Hl') as (t' & ? & ?). exists t'. by split; [apply Hpr|].
  - intros conn' ch' Hl'. destruct (Hh _ _ Hl') as (t' & H1 & H2 & H3). exists t'. by split; [apply Hpr|].
  - intros ch c Hc. destruct (Hb _ _ Hc) as [?|[?|(conn' & ? & ?)]]; [by left|by right; left|].
    right; right. exists conn'. by split; [|apply Hpr].
  - intros pub conn' Hl'. destruct (Hp _ _ Hl') as (t' & ? & ?). exists t'. by split; [apply Hpr|].
Qed.

(** Putting a value into, or taking one out of, a channel that is neither an
    entry's nor about to be sent into. *)
Lemma chan_update_inv (s s' : PairState) ch0 c0 c1 :
  pair_inv s → s.(chans) !! ch0 = Some c0 → c1.(tc_token) = c0.(tc_token) →
  buf_ok s.(presented) c1 →
  s'.(chans) = <[ch0 := c1]> s.(chans) →
  s'.(pendingMap) = s.(pendingMap) → s.(pendingMap) !! c0.(tc_token) = None →
  (∀ conn ch, s'.(handing) !! conn = Some ch → s.(handing) !! conn = Some ch ∧ ch ≠ ch0) →
  s'.(issued) = s.(issued) → s'.(presented) = s.(presented) →
  (∀ pub ch since, s'.(waiters) !! pub = Some (Waiting ch since) → s.(waiters) !! pub = Some (Waiting ch since)) →
  (∀ pub conn, s'.(waiters) !! pub = Some (Piped conn) → s.(waiters) !! pub = Some (Piped conn) ∨
     ∃ t, s.(presented) !! conn = Some t ∧ s.(issued) !! t = Some pub) →
  pair_inv s'.
Proof.
  intros [He Hh Hhi Hb Hi Ht Hw Hp] Hc0 Htok Hbuf E1 E2 Hnone Hhand E3 E4 Hwait Hpipe.
  split; rewrite ?E1, ?E2, ?E3, ?E4.
  - intros t e Hl. rewrite lookup_insert_ne; [by apply He|]. intros ->.
    rewrite (He _ _ Hl) in Hc0. injection Hc0 as <-. cbn in Hnone. congruence.
  - intros conn ch Hl. destruct (Hhand _ _ Hl) as [Hl' Hne]. rewrite lookup_insert_ne by done. by apply Hh.
  - intros c1' c2' ch H1 H2. apply Hhand in H1 as [H1 _]. apply Hhand in H2 as [H2 _]. by eapply Hhi.
  - intros ch c [[<- <-]|[Hne Hl]]%lookup_insert_Some; [done|by eapply Hb].
  - intros ch c [[<- <-]|[Hne Hl]]%lookup_insert_Some; [rewrite Htok|]; by eapply Hi.
  - intros ch1 ch2 c c' [[<- <-]|[Hne1 H1]]%lookup_insert_Some [[<- <-]|[Hne2 H2]]%lookup_insert_Some;
      rewrite ?Htok; [done|by eapply Ht..].
  - intros pub ch since Hl. destruct (Hw _ _ _ (Hwait _ _ _ Hl)) as (c & Hc & Hic).
    destruct (decide (ch = ch0)) as [->|Hne].
    + exists c1. rewrite lookup_insert_eq, Htok. split; [done|]. congruence.
    + exists c. by rewrite lookup_insert_ne.
  - intros pub conn Hl. destruct (Hpipe _ _ Hl) as [?|?]; [by apply Hp|done].
Qed.

Lemma send_inv conn ch acked s :
  pair_inv s → s.(handing) !! conn = Some ch → pair_inv (AcceptTunnel_send conn ch acked s).
Proof.
  intros Hs Hc. pose proof Hs as [He Hh Hhi Hb Hi Ht Hw Hp]. destruct (Hh _ _ Hc) as (t & Hpr & Hch & Hnone).
  unfold AcceptTunnel_send. destruct acked.
  - eapply (chan_update_inv s _ ch _ (mkChan t [Some conn])); [done|exact Hch|..]; cbn; try done.
    + right; right. by exists conn.
    + apply map_eq. intros ch'. destruct (decide (ch' = ch)) as [->|].
      * by rewrite lookup_alter_eq, lookup_insert_eq, Hch.
      * by rewrite lookup_alter_ne, lookup_insert_ne.
    + intros conn' ch' [Hne Hl]%lookup_delete_Some. split; [done|]. intros ->. by apply Hne, (Hhi _ _ ch).
    + auto.
  - split; cbn; try done.
    + intros conn' ch' [_ Hl]%lookup_delete_Some. by apply Hh.
    + intros c1 c2 ch' [_ H1]%lookup_delete_Some [_ H2]%lookup_delete_Some. by eapply Hhi.
Qed.

Lemma set_waiter_inv pub w s :
  pair_inv s → w = Gone → pair_inv (set_waiter pub w s).
Proof.
  intros [He Hh Hhi Hb Hi Ht Hw Hp] ->. split; cbn; try done.
  - intros pub' ch since [[_ ?]|[_ Hl]]%lookup_insert_Some; [done|by eapply Hw].
  - intros pub' conn [[_ ?]|[_ Hl]]%lookup_insert_Some; [done|by eapply Hp].
Qed.

Lemma pipe_closed_inv s (x : gset TunnelConn) (d : Z) (b : bool) :
  pair_inv s →
  pair_inv (mkPair s.(pendingMap) s.(chans) s.(waiters) s.(handing) x d b s.(issued) s.(presented)).
Proof. intros [He Hh Hhi Hb Hi Ht Hw Hp]. by split. Qed.

Lemma receive_inv pub ch since x c s :
  pair_inv s → s.(waiters) !! pub = Some (Waiting ch since) →
  s.(chans) !! ch = Some c → head c.(tc_buf) = Some x → pair_inv (receive pub ch x s).
Proof.
  intros Hs Hl Hc Hx. pose proof Hs as [He Hh Hhi Hb Hi Ht Hw Hp].
  destruct (Hw _ _ _ Hl) as (c' & Hc' & Hic). assert (c' = c) as -> by congruence.
  destruct c as [t buf]. cbn in *. destruct buf as [|y buf]; [done|]. injection Hx as ->.
  eapply (chan_update_inv s _ ch _ (mkChan t buf)); [done|exact Hc|..]; cbn; try done.
  - left. by destruct (Hb _ _ Hc) as [?|[?|(conn' & ? & ?)]]; simplify_eq/=.
  - apply map_eq. intros ch'. destruct (decide (ch' = ch)) as [->|].
    + by rewrite lookup_alter_eq, lookup_insert_eq, Hc.
    + by rewrite lookup_alter_ne, lookup_insert_ne.
  - apply eq_None_not_Some. intros [e Hpe]. pose proof (He _ _ Hpe) as Hce.
    assert (e.(pe_ch) = ch) as Hch by by eapply Ht. congruence.
  - intros conn ch' Hh'. split; [done|]. intros ->. destruct (Hh _ _ Hh') as (t' & _ & Hc'' & _). congruence.
  - intros pub' ch' since' [[_ ?]|[_ ?]]%lookup_insert_Some; [by destruct x|done].
  - intros pub' conn [[<- Hx]|[_ ?]]%lookup_insert_Some; [|by left]. right. destruct x as [conn0|]; [|done].
    injection Hx as ->. exists t. destruct (Hb _ _ Hc) as [?|[?|(conn' & ? & ?)]]; by simplify_eq/=.
Qed.

Lemma cleanup_inv s :
  pair_inv s → pair_inv (cleanupExpired s).
Proof.
  intros [He Hh Hhi Hb Hi Ht Hw Hp].
  assert (Hc : ∀ ch c', (cleanupExpired s).(chans) !! ch = Some c' → ∃ c, s.(chans) !! ch = Some c ∧
    c'.(tc_token) = c.(tc_token) ∧ (c' = c ∧ ch ∉ expired_chans s ∨ c' = sends c None ∧ ch ∈ expired_chans s)).
  { intros ch c'. cbn. rewrite map_lookup_imap. destruct (s.(chans) !! ch) as [c|]; [|done]. cbn.
    intros [= <-]. exists c. case_decide; split_and!; auto. }
  assert (Hc' : ∀ ch c, s.(chans) !! ch = Some c →
    (cleanupExpired s).(chans) !! ch = Some (if decide (ch ∈ expired_chans s) then sends c None else c)).
  { intros ch c Hl. cbn. by rewrite map_lookup_imap, Hl. }
  split.
  - cbn [pendingMap cleanupExpired]. intros t e [Hl Hne]%map_lookup_filter_Some.
    rewrite (Hc' _ _ (He _ _ Hl)), decide_False; [done|].
    intros (t' & e' & Hl' & Hex & Heq)%elem_of_expired_chans. cbn in Hne.
    pose proof (He _ _ Hl) as H1. pose proof (He _ _ Hl') as H2. rewrite Heq, H1 in H2.
    injection H2 as <-. congruence.
  - intros conn ch Hl. destruct (Hh _ _ Hl) as (t & Hpr & Hch & Hn). exists t. split; [done|].
    rewrite (Hc' _ _ Hch), decide_False.
    + split; [done|]. cbn. rewrite map_lookup_filter, Hn. done.
    + intros (t' & e' & Hl' & Hex & Heq)%elem_of_expired_chans. pose proof (He _ _ Hl') as H2.
      rewrite Heq, Hch in H2. injection H2 as <-. congruence.
  - done.
  - intros ch c' (c & Hl & _ & [[-> _]|[-> (t & e & Ht' & _ & <-)%elem_of_expired_chans]])%Hc; [by eapply Hb|].
    right; left. rewrite (He _ _ Ht') in Hl. injection Hl as <-. done.
  - intros ch c' (c & Hl & -> & _)%Hc. by eapply Hi.
  - intros ch1 ch2 c1 c2 (d1 & H1 & -> & _)%Hc (d2 & H2 & -> & _)%Hc. by eapply Ht.
  - intros pub ch since Hl. destruct (Hw _ _ _ Hl) as (c & Hlc & Hic). eexists. split; [by apply Hc'|].
    by case_decide.
  - done.
Qed.

Lemma pair_step_inv s s' : pair_inv s → pair_step s s' → pair_inv s'.
Proof.
  intros Hs [pub t ch sent|t conn|conn ch acked|pub ch since x ? (c & ? & ?)|pub ch since|pub ch since|pub conn| |d|].
  - by apply request_inv.
  - by apply take_inv.
  - by apply send_inv.
  - by eapply receive_inv.
  - by apply set_waiter_inv.
  - by apply set_waiter_inv.
  - apply set_waiter_inv; [|done]. by apply pipe_closed_inv.
  - by apply cleanup_inv.
  - by apply pipe_closed_inv.
  - by apply pipe_closed_inv.
Qed.

Definition pair_reachable (now : Z) : PairState → Prop := rtc pair_step (NewPairing now).

Lemma pair_reachable_inv now s : pair_reachable now s → pair_inv s.
Proof.
  intros Hr. unfold pair_reachable in Hr. assert (Hn := pair_inv_new now). revert Hn.
  induction Hr as [s|s1 s2 s3 Hstep _ IH]; [done|]. intros Hn. by apply IH, (pair_step_inv s1).
Qed.

Lemma has_room_handing s conn ch : pair_inv s → s.(handing) !! conn = Some ch → has_room s ch.
Proof. intros [_ Hh _ _ _ _ _ _] Hl. destruct (Hh _ _ Hl) as (t & _ & Hc & _). unfold has_room. by rewrite Hc. Qed.

Lemma has_room_entry s t e : pair_inv s → s.(pendingMap) !! t = Some e → has_room s e.(pe_ch).
Proof. intros [He _ _ _ _ _ _ _] Hl. unfold has_room. by rewrite (He _ _ Hl). Qed.

(** ** A value nobody will take *)

(** [conn] lies in a channel on which no goroutine waits. *)
Definition waiter_away (conn : TunnelConn) (ch : ChanId) (w : waiter) : Prop :=
  match w with Waiting ch' _ => ch' ≠ ch | Piped conn' => conn' ≠ conn | Gone => True end.
Record stranded (conn : TunnelConn) (ch : ChanId) (s : PairState) : Prop := mkStranded {
  st_chan : ∃ t, s.(chans) !! ch = Some (mkChan t [Some conn]);
  st_waiters : ∀ pub w, s.(waiters) !! pub = Some w → waiter_away conn ch w;
  st_closed : conn ∉ closed s;
}.

Lemma stranded_intro conn ch s s' :
  stranded conn ch s →
  s'.(chans) !! ch = s.(chans) !! ch →
  (∀ pub w, s'.(waiters) !! pub = Some w → s.(waiters) !! pub = Some w ∨ waiter_away conn ch w) →
  (s'.(closed) = s.(closed) ∨ ∃ c, s'.(closed) = {[c]} ∪ s.(closed) ∧ c ≠ conn) →
  stranded conn ch s'.
Proof.
  intros [Hc Hw Hcl] E1 Hw' Hcl'. split; [by rewrite E1| |].
  - intros pub w Hl. destruct (Hw' _ _ Hl) as [?|?]; [by eapply Hw|done].
  - destruct Hcl' as [->|(c & -> & Hne)]; [done|]. set_solver.
Qed.

Section stranded.
Context (conn : TunnelConn) (ch : ChanId) (s : PairState).
Hypothesis Hinv : pair_inv s.
Hypothesis Hst : stranded conn ch s.

Lemma stranded_presented : ∃ t, s.(presented) !! conn = Some t ∧ s.(chans) !! ch = Some (mkChan t [Some conn]).
Proof.
  destruct (st_chan _ _ _ Hst) as (t & Hc). exists t. split; [|done].
  destruct (i_buf _ Hinv _ _ Hc) as [?|[?|(c & Hb & Hp)]]; by simplify_eq/=.
Qed.

Lemma stranded_room ch' : has_room s ch' → ch' ≠ ch.
Proof. intros Hr ->. destruct (st_chan _ _ _ Hst) as (t & Hc). unfold has_room in Hr. by rewrite Hc in Hr. Qed.

Lemma stranded_handing : s.(handing) !! conn = None.
Proof.
  apply eq_None_not_Some. intros [ch' Hl]. destruct (i_handing _ Hinv _ _ Hl) as (t' & Hp' & Hc' & _).
  destruct stranded_presented as (t & Hp & Hc). assert (t' = t) as -> by congruence.
  assert (ch' = ch) as -> by by eapply (i_token _ Hinv). congruence.
Qed.

Lemma stranded_received ch' c x :
  s.(chans) !! ch' = Some c → head c.(tc_buf) = Some x → ch' ≠ ch → x ≠ Some conn.
Proof.
  intros Hc' Hx Hne ->. apply Hne. destruct stranded_presented as (t & Hp & Hc).
  eapply (i_token _ Hinv); [done..|]. cbn.
  destruct (i_buf _ Hinv _ _ Hc') as [Hb|[Hb|(c' & Hb & Hp')]]; rewrite Hb in Hx; [done..|].
  cbn in Hx. congruence.
Qed.

Lemma set_waiter_away pub w (s0 : PairState) pub' w' :
  s0.(waiters) = s.(waiters) → waiter_away conn ch w →
  (set_waiter pub w s0).(waiters) !! pub' = Some w' → s.(waiters) !! pub' = Some w' ∨ waiter_away conn ch w'.
Proof. cbn. intros -> Hw [[_ <-]|[_ ?]]%lookup_insert_Some; auto. Qed.

Lemma stranded_step s' : pair_step s s' → stranded conn ch s'.
Proof.
  destruct stranded_presented as (t & Hpr & Hc).
  intros [pub t1 ch1 sent Hpub Hnt Hch1|t1 conn1 Hnew|conn1 ch1 acked Hl Hr|
    pub ch1 since x Hl (c & Hlc & Hx)|pub ch1 since Hl|pub ch1 since Hl|pub conn1 Hl|Hroom|d|];
    apply (stranded_intro _ _ s); try done; auto;
    try (by intros pub' w'; apply set_waiter_away).
  - cbn. rewrite lookup_insert_ne; [done|congruence].
  - intros pub' w'. apply (set_waiter_away pub (if sent then Waiting ch1 s.(clock) else Gone) s); [done|].
    destruct sent; cbn; [congruence|done].
  - unfold AcceptTunnel_take. by case_match.
  - unfold AcceptTunnel_take. case_match; auto.
  - unfold AcceptTunnel_take. case_match; [by left|right]. exists conn1. split; [done|congruence].
  - unfold AcceptTunnel_send. destruct acked; [|done]. cbn. rewrite lookup_alter_ne; [done|].
    apply stranded_room. auto.
  - unfold AcceptTunnel_send. destruct acked; auto.
  - unfold AcceptTunnel_send. destruct acked; [by left|right]. exists conn1. split; [done|].
    intros ->. pose proof stranded_handing. congruence.
  - pose proof (st_waiters _ _ _ Hst _ _ Hl) as Hne. cbn in *. by rewrite lookup_alter_ne.
  - intros pub' w'. apply set_waiter_away; [done|]. pose proof (st_waiters _ _ _ Hst _ _ Hl) as Hne.
    pose proof (stranded_received _ _ _ Hlc Hx Hne). destruct x; cbn; [congruence|done].
  - right. exists conn1. split; [done|]. exact (st_waiters _ _ _ Hst _ _ Hl).
  - cbn. rewrite map_lookup_imap, Hc. cbn. rewrite decide_False; [done|].
    intros Hin. by eapply stranded_room; [apply Hroom|].
Qed.
End stranded.

Lemma stranded_run conn ch s s' :
  pair_inv s → stranded conn ch s → rtc pair_step s s' → stranded conn ch s'.
Proof.
  intros Hinv Hst Hr. revert Hinv Hst. induction Hr as [s|s1 s2 s3 Hstep _ IH]; [done|].
  intros Hinv Hst. apply IH; [by eapply pair_step_inv|by eapply stranded_step].
Qed.

(** ** What holds of the pairing *)

(** C15. In every interleaving: a public connection is joined only to a tunnel
    that presented the token issued for it, so no tunnel serves two of them;
    and no send into a channel ever waits, neither that of [AcceptTunnel] nor
    those the cleanup makes with the lock held. *)
Theorem tunnel_pairing (now : Z) (s : PairState) :
  pair_reachable now s →
  (∀ pub conn, s.(waiters) !! pub = Some (Piped conn) →
     ∃ t, s.(presented) !! conn = Some t ∧ s.(issued) !! t = Some pub) ∧
  (∀ pub pub' conn, s.(waiters) !! pub = Some (Piped conn) → s.(waiters) !! pub' = Some (Piped conn) → pub = pub') ∧
  (∀ conn ch, s.(handing) !! conn = Some ch → has_room s ch) ∧
  (∀ ch, ch ∈ expired_chans s → has_room s ch).
Proof.
  intros Hinv%pair_reachable_inv. split_and!.
  - apply (i_piped _ Hinv).
  - intros pub pub' conn Hl Hl'. destruct (i_piped _ Hinv _ _ Hl) as (t & ? & ?).
    destruct (i_piped _ Hinv _ _ Hl') as (t' & ? & ?). congruence.
  - intros conn ch. by apply has_room_handing.
  - intros ch (t & e & Hl & _ & <-)%elem_of_expired_chans. by eapply has_room_entry.
Qed.

(** A client that answers in time is served: while the goroutine of a
    public connection waits on the channel of a token that is still
    registered, a tunnel that presents the token and can be acknowledged is
    joined to it. *)
Theorem tunnel_served (now : Z) (s : PairState) (pub : PubConn) (ch : ChanId) (since : Z) (t : string)
    (e : pendingEntry) (conn : TunnelConn) :
  pair_reachable now s →
  s.(waiters) !! pub = Some (Waiting ch since) → tc_token <$> s.(chans) !! ch = Some t →
  s.(pendingMap) !! t = Some e → s.(presented) !! conn = None →
  ∃ s', rtc pair_step s s' ∧ s'.(waiters) !! pub = Some (Piped conn) ∧
        s'.(pendingMap) !! t = None ∧ s'.(closed) = s.(closed).
Proof.
  intros Hinv%pair_reachable_inv Hw Hch He Hnew.
  destruct (s.(chans) !! ch) as [c|] eqn:Hc; [|done]. injection Hch as Htok.
  assert (e.(pe_ch) = ch) as Hech by (eapply (i_token _ Hinv); [by apply i_entry|done|done]).
  pose proof (i_entry _ Hinv _ _ He) as Hce. rewrite Hech in Hce.
  set (s1 := AcceptTunnel_take t conn s). set (s2 := AcceptTunnel_send conn ch true s1).
  assert (H1 : s1.(handing) !! conn = Some ch ∧ s1.(chans) = s.(chans) ∧ s1.(waiters) = s.(waiters) ∧
    s1.(closed) = s.(closed) ∧ s1.(pendingMap) !! t = None).
  { unfold s1, AcceptTunnel_take. rewrite He. cbn. by rewrite lookup_insert_eq, Hech, lookup_delete_eq. }
  destruct H1 as (Hh1 & Hc1 & Hw1 & Hcl1 & Hp1).
  assert (Hc2 : s2.(chans) !! ch = Some (mkChan t [Some conn])).
  { unfold s2, AcceptTunnel_send. cbn. by rewrite lookup_alter_eq, Hc1, Hce. }
  exists (receive pub ch (Some conn) s2). split_and!; [|cbn; by rewrite lookup_insert_eq|done|done].
  eapply rtc_l; [by apply (PTake s t conn)|]. fold s1. eapply rtc_l.
  { apply (PSend s1 conn ch true Hh1). intros _. unfold has_room. by rewrite Hc1, Hce. }
  fold s2. apply rtc_once. apply (PReceive s2 pub ch since); [by rewrite <-Hw1 in Hw|].
  eexists. split; [exact Hc2|done].
Qed.

(** A client that answers late is lost: when a token is still registered
    though nobody waits on its channel any more (the minute of the waiting
    goroutine is over, the entry is removed only by the next tick of the
    cleanup), a tunnel that presents it is acknowledged and then neither
    joined nor closed in any continuation. *)
Theorem late_tunnel_lost (now : Z) (s : PairState) (t : string) (e : pendingEntry) (conn : TunnelConn) :
  pair_reachable now s →
  s.(pendingMap) !! t = Some e → s.(presented) !! conn = None →
  (∀ pub since, s.(waiters) !! pub ≠ Some (Waiting e.(pe_ch) since)) →
  (∀ pub, s.(waiters) !! pub ≠ Some (Piped conn)) → conn ∉ closed s →
  let s2 := AcceptTunnel_send conn e.(pe_ch) true (AcceptTunnel_take t conn s) in
  rtc pair_step s s2 ∧
  ∀ s', rtc pair_step s2 s' → (conn ∉ closed s') ∧ (∀ pub, s'.(waiters) !! pub ≠ Some (Piped conn)).
Proof.
  intros Hinv%pair_reachable_inv He Hnew Hw Hp Hcl. pose proof (i_entry _ Hinv _ _ He) as Hce.
  set (s1 := AcceptTunnel_take t conn s).
  assert (H1 : s1.(handing) !! conn = Some e.(pe_ch) ∧ s1.(chans) = s.(chans) ∧ s1.(waiters) = s.(waiters) ∧
    s1.(closed) = s.(closed)).
  { unfold s1, AcceptTunnel_take. rewrite He. cbn. by rewrite lookup_insert_eq. }
  destruct H1 as (Hh1 & Hc1 & Hw1 & Hcl1). cbn zeta. set (s2 := AcceptTunnel_send _ _ _ _).
  assert (Hsteps : rtc pair_step s s2).
  { eapply rtc_l; [by apply (PTake s t conn)|]. apply rtc_once, PSend; [done|].
    intros _. unfold has_room. by rewrite Hc1, Hce. }
  assert (Hinv2 : pair_inv s2).
  { apply send_inv; [|done]. by apply take_inv. }
  assert (Hst : stranded conn e.(pe_ch) s2).
  { split.
    - exists t. unfold s2, AcceptTunnel_send. cbn. by rewrite lookup_alter_eq, Hc1, Hce.
    - unfold s2, AcceptTunnel_send. cbn. rewrite Hw1. intros pub w Hl. destruct w as [ch' since|c'|]; cbn; [| |done].
      + intros ->. by eapply Hw.
      + intros ->. by eapply Hp.
    - unfold s2, AcceptTunnel_send. cbn. by rewrite Hcl1. }
  split; [done|]. intros s' Hr. pose proof (stranded_run _ _ _ _ Hinv2 Hst Hr) as [_ Hw' Hcl'].
  split; [done|]. intros pub Hl. by apply (Hw' _ _ Hl).
Qed.

(** ** Concrete runs *)

Definition example_request : PairState := request 1 "t1" 7 true (NewPairing 0).
Lemma example_request_reachable : pair_reachable 0 example_request.
Proof. apply rtc_once. by apply PRequest. Qed.

Lemma tunnel_pairing_witness :
  ∃ s, pair_reachable 0 s ∧ s.(waiters) !! 1 = Some (Piped 5) ∧
    ∃ t, s.(presented) !! 5 = Some t ∧ s.(issued) !! t = Some 1.
Proof.
  set (s2 := AcceptTunnel_send 5 7 true (AcceptTunnel_take "t1" 5 example_request)).
  assert (Hr : pair_reachable 0 (receive 1 7 (Some 5) s2)).
  { unfold pair_reachable. etrans; [exact example_request_reachable|].
    eapply rtc_l; [by apply (PTake _ "t1" 5)|].
    eapply rtc_l; [apply (PSend _ 5 7 true); [reflexivity|intros _; reflexivity]|].
    apply rtc_once. apply (PReceive _ 1 7 0%Z); [reflexivity|]. eexists. split; reflexivity. }
  exists (receive 1 7 (Some 5) s2). split; [exact Hr|]. split; [reflexivity|].
  exact (proj1 (tunnel_pairing 0 _ Hr) 1 5 ltac:(reflexivity)).
Defined.

Lemma tunnel_served_witness :
  ∃ s', rtc pair_step example_request s' ∧ s'.(waiters) !! 1 = Some (Piped 5).
Proof.
  destruct (tunnel_served 0 example_request 1 7 0 "t1" (mkPending 7 0) 5 example_request_reachable
    ltac:(reflexivity) ltac:(reflexivity) ltac:(reflexivity) ltac:(reflexivity)) as (s' & Hr & Hp & _).
  exists s'. split; [exact Hr|exact Hp].
Defined.

(** A minute passes, the waiting goroutine gives up, and the tunnel comes. *)
Definition example_late : PairState :=
  set_waiter 1 Gone (mkPair example_request.(pendingMap) example_request.(chans) example_request.(waiters)
    example_request.(handing) example_request.(closed) minute false example_request.(issued) example_request.(presented)).
Lemma example_late_reachable : pair_reachable 0 example_late.
Proof.
  unfold pair_reachable. etrans; [exact example_request_reachable|].
  eapply rtc_l; [apply (PTick _ minute); unfold minute; lia|].
  apply rtc_once. by apply (PTimeout _ 1 7 0%Z).
Qed.
Definition example_lost : PairState := AcceptTunnel_send 5 7 true (AcceptTunnel_take "t1" 5 example_late).
(** The clean-up has run since. *)
Definition example_cleaned : PairState := cleanupExpired example_lost.

Lemma late_tunnel_lost_witness :
  rtc pair_step example_late example_lost ∧
  (5 ∉ closed example_cleaned) ∧ example_cleaned.(waiters) !! 1 ≠ Some (Piped 5).
Proof.
  assert (Hw : ∀ (pub : PubConn) (w : waiter), example_late.(waiters) !! pub = Some w → w = Gone).
  { assert (Heq : example_late.(waiters) = {[1 := Gone]}) by (vm_compute; reflexivity).
    intros pub w. rewrite Heq. intros [_ Hg]%lookup_singleton_Some. symmetry. exact Hg. }
  destruct (late_tunnel_lost 0 example_late "t1" (mkPending 7 0) 5 example_late_reachable eq_refl eq_refl)
    as [Hsteps Hlost].
  - intros pub since Hl. discriminate (Hw _ _ Hl).
  - intros pub Hl. discriminate (Hw _ _ Hl).
  - apply not_elem_of_empty.
  - split; [exact Hsteps|]. destruct (Hlost example_cleaned) as [Hc Hp]; [|by split].
    apply rtc_once, PCleanup. intros ch Hch. apply elem_of_expired_chans in Hch as (t & e & He & _ & _).
    assert (Heq : example_lost.(pendingMap) = ∅) by (vm_compute; reflexivity).
    pose proof (eq_trans (eq_sym He) (f_equal (lookup t) Heq)) as Hn. rewrite lookup_empty in Hn. discriminate Hn.
Defined.
