(* ===== verification/RelayPairing.v ===== *)
(** * Pairing the ends of a relay (session/server.go: HandleRelay)

    Both ends of a relay open a WebSocket with the identifier and the token of
    the relay session.  The first to come leaves a channel under the
    identifier and waits a minute; the second takes the channel out and sends
    its connection into it.  [relay_step] interleaves what the requests do
    between taking and releasing the lock; giving up is two steps, for the
    timer fires before the lock is taken.  AcceptRelay of plugins/relay is the
    same code without the checks of [HandleRelay_admit]. *)

From S2P Require Import Prelude Types StateStore.

Definition RelayConn := nat.
Definition RelayChan := nat.

(** ** Admission *)

Record RelayParams := mkRelayParams { rq_session : string; rq_token : string; rq_role : string; rq_client : string }.

(** The status a request is refused with, or the relay session. *)
Definition HandleRelay_admit (s : StateStoreImpl) (q : RelayParams) : Z * string + RelaySession :=
  if decide (q.(rq_session) = "" ∨ q.(rq_token) = "" ∨ q.(rq_role) = "" ∨ q.(rq_client) = "") then
    inl (400%Z, "missing required parameters")
  else match GetRelaySession s q.(rq_session) with
  | None => inl (404%Z, "session not found")
  | Some r => if decide (r.(rs_Token) = q.(rq_token)) then inr r else inl (401%Z, "invalid token")
  end.

(** ** State *)

(** A request waits on its channel, its timer has fired, it pipes to its peer,
    or it has closed its connection. *)
Inductive relay_waiter :=
| RWaiting (sid : string) (ch : RelayChan) (since : Z)
| RTimedOut (sid : string)
| RPiped (peer : RelayConn)
| RGone.

Record RelayState := mkRelayState {
  relayPending : gmap string RelayChan;
  rchans : gmap RelayChan (string * list RelayConn);
  rwaiters : gmap RelayConn relay_waiter;
  rhanding : gmap RelayConn RelayChan;
  rclock : Z;
  admitted : gmap RelayConn RelayParams;
}.
Definition NewRelayPairing (now : Z) : RelayState := mkRelayState ∅ ∅ ∅ ∅ now ∅.
Definition relay_minute : Z := 60000000000.

(** The identifier an admitted connection came with. *)
Definition session_of (s : RelayState) (conn : RelayConn) : option string := rq_session <$> s.(admitted) !! conn.

Definition rchan_room (s : RelayState) (ch : RelayChan) : Prop :=
  match s.(rchans) !! ch with Some (_, b) => b = [] | None => False end.

(** ** Operations *)

(** The request holds the lock: it leaves a new channel [ch], or takes the
    one that is there. *)
Definition HandleRelay_enter (q : RelayParams) (conn : RelayConn) (ch : RelayChan) (s : RelayState) : RelayState :=
  let sid := q.(rq_session) in
  match s.(relayPending) !! sid with
  | None =>
      mkRelayState (<[sid := ch]> s.(relayPending)) (<[ch := (sid, [])]> s.(rchans))
        (<[conn := RWaiting sid ch s.(rclock)]> s.(rwaiters)) s.(rhanding) s.(rclock) (<[conn := q]> s.(admitted))
  | Some ch0 =>
      mkRelayState (delete sid s.(relayPending)) s.(rchans) s.(rwaiters) (<[conn := ch0]> s.(rhanding)) s.(rclock)
        (<[conn := q]> s.(admitted))
  end.

(** [ch <- conn] after the lock was released. *)
Definition HandleRelay_send (conn : RelayConn) (ch : RelayChan) (s : RelayState) : RelayState :=
  mkRelayState s.(relayPending) (alter (λ c, (c.1, c.2 ++ [conn])) ch s.(rchans)) s.(rwaiters)
    (delete conn s.(rhanding)) s.(rclock) s.(admitted).

Definition set_rwaiter (conn : RelayConn) (w : relay_waiter) (s : RelayState) : RelayState :=
  mkRelayState s.(relayPending) s.(rchans) (<[conn := w]> s.(rwaiters)) s.(rhanding) s.(rclock) s.(admitted).

Definition HandleRelay_receive (conn : RelayConn) (ch : RelayChan) (peer : RelayConn) (s : RelayState) : RelayState :=
  set_rwaiter conn (RPiped peer)
    (mkRelayState s.(relayPending) (alter (λ c, (c.1, tail c.2)) ch s.(rchans)) s.(rwaiters) s.(rhanding) s.(rclock)
       s.(admitted)).

(** The timer has fired and the lock is taken: whatever is filed under the
    identifier is removed. *)
Definition HandleRelay_giveup (conn : RelayConn) (sid : string) (s : RelayState) : RelayState :=
  set_rwaiter conn RGone
    (mkRelayState (delete sid s.(relayPending)) s.(rchans) s.(rwaiters) s.(rhanding) s.(rclock) s.(admitted)).

Section steps.
Context (store : StateStoreImpl).

Inductive relay_step (s : RelayState) : RelayState → Prop :=
| REnter q conn ch r :
    HandleRelay_admit store q = inr r → s.(admitted) !! conn = None → s.(rchans) !! ch = None →
    relay_step s (HandleRelay_enter q conn ch s)
| RSend conn ch :
    s.(rhanding) !! conn = Some ch → rchan_room s ch → relay_step s (HandleRelay_send conn ch s)
| RReceive conn sid ch since peer :
    s.(rwaiters) !! conn = Some (RWaiting sid ch since) →
    (∃ c, s.(rchans) !! ch = Some c ∧ head c.2 = Some peer) →
    relay_step s (HandleRelay_receive conn ch peer s)
| RFire conn sid ch since :
    s.(rwaiters) !! conn = Some (RWaiting sid ch since) → (since + relay_minute <= s.(rclock))%Z →
    relay_step s (set_rwaiter conn (RTimedOut sid) s)
| RGiveUp conn sid :
    s.(rwaiters) !! conn = Some (RTimedOut sid) → relay_step s (HandleRelay_giveup conn sid s)
| REnd conn peer :
    s.(rwaiters) !! conn = Some (RPiped peer) → relay_step s (set_rwaiter conn RGone s)
| RTick d :
    (0 <= d)%Z →
    relay_step s (mkRelayState s.(relayPending) s.(rchans) s.(rwaiters) s.(rhanding) (s.(rclock) + d) s.(admitted)).

Definition relay_reachable (now : Z) : RelayState → Prop := rtc relay_step (NewRelayPairing now).

(** ** The invariant *)

Definition rbuf_ok (s : RelayState) (sid : string) (b : list RelayConn) : Prop :=
  b = [] ∨ ∃ conn, b = [conn] ∧ session_of s conn = Some sid.

Record relay_inv (s : RelayState) : Prop := mkRelayInv {
  r_entry : ∀ sid ch, s.(relayPending) !! sid = Some ch → s.(rchans) !! ch = Some (sid, []);
  r_handing : ∀ conn ch, s.(rhanding) !! conn = Some ch →
    ∃ sid, session_of s conn = Some sid ∧ s.(rchans) !! ch = Some (sid, []) ∧
           ∀ sid', s.(relayPending) !! sid' ≠ Some ch;
  r_inj : ∀ c1 c2 ch, s.(rhanding) !! c1 = Some ch → s.(rhanding) !! c2 = Some ch → c1 = c2;
  r_buf : ∀ ch sid b, s.(rchans) !! ch = Some (sid, b) → rbuf_ok s sid b ∧
    (b ≠ [] → ∀ sid', s.(relayPending) !! sid' ≠ Some ch);
  r_wait : ∀ conn sid ch since, s.(rwaiters) !! conn = Some (RWaiting sid ch since) →
    session_of s conn = Some sid ∧ ∃ b, s.(rchans) !! ch = Some (sid, b);
  r_piped : ∀ conn peer, s.(rwaiters) !! conn = Some (RPiped peer) →
    ∃ sid, session_of s conn = Some sid ∧ session_of s peer = Some sid;
  r_admitted : ∀ conn q, s.(admitted) !! conn = Some q → ∃ r, HandleRelay_admit store q = inr r;
}.

Lemma relay_inv_new now : relay_inv (NewRelayPairing now).
Proof. split; intros *; cbn; by rewrite ?lookup_empty. Qed.

Lemma session_of_enter (s : RelayState) q conn conn' sid :
  s.(admitted) !! conn = None → session_of s conn' = Some sid →
  rq_session <$> <[conn := q]> s.(admitted) !! conn' = Some sid.
Proof.
  unfold session_of. intros Hnew Hs. rewrite lookup_insert_ne; [done|]. intros ->. by rewrite Hnew in Hs.
Qed.

Lemma enter_inv q conn ch r s :
  relay_inv s → HandleRelay_admit store q = inr r → s.(admitted) !! conn = None → s.(rchans) !! ch = None →
  relay_inv (HandleRelay_enter q conn ch s).
Proof.
  intros [He Hh Hi Hb Hw Hp Ha] Hq Hnew Hch.
  assert (Hne : ∀ ch' c, s.(rchans) !! ch' = Some c → ch ≠ ch') by congruence.
  assert (Hadm : ∀ conn' q', <[conn := q]> s.(admitted) !! conn' = Some q' → ∃ r', HandleRelay_admit store q' = inr r').
  { intros conn' q' [[_ <-]|[_ ?]]%lookup_insert_Some; [by eexists|by eapply Ha]. }
  assert (Hbuf : ∀ s' sid b, s'.(admitted) = <[conn := q]> s.(admitted) → rbuf_ok s sid b → rbuf_ok s' sid b).
  { intros s' sid b Heq [->|(c & -> & Hs)]; [by left|right]. exists c. split; [done|].
    unfold session_of. rewrite Heq. by apply session_of_enter. }
  unfold HandleRelay_enter. destruct (s.(relayPending) !! q.(rq_session)) as [ch0|] eqn:El;
    split; cbn; try done; unfold session_of; cbn.
  - intros sid ch' [_ Hl]%lookup_delete_Some. by apply He.
  - intros conn' ch' [[<- <-]|[_ Hl]]%lookup_insert_Some.
    + exists q.(rq_session). rewrite lookup_insert_eq. split_and!; [done|by apply He|].
      intros sid' [Hne' Hl]%lookup_delete_Some. pose proof (He _ _ Hl) as H1. rewrite (He _ _ El) in H1. congruence.
    + destruct (Hh _ _ Hl) as (sid & Hs & Hc & Hn). exists sid. split_and!; [by apply session_of_enter|done|].
      intros sid' [_ ?]%lookup_delete_Some. by eapply Hn.
  - intros c1 c2 ch' [[<- E1]|[_ H1]]%lookup_insert_Some [[<- E2]|[_ H2]]%lookup_insert_Some;
      [done| | |by eapply Hi]; subst; exfalso.
    + destruct (Hh _ _ H2) as (_ & _ & _ & Hn). by eapply Hn.
    + destruct (Hh _ _ H1) as (_ & _ & _ & Hn). by eapply Hn.
  - intros ch' sid b Hl. destruct (Hb _ _ _ Hl) as [H1 H2]. split; [by apply (Hbuf (mkRelayState _ _ _ _ _ _))|].
    intros Hne' sid' [_ ?]%lookup_delete_Some. by eapply H2.
  - intros conn' sid ch' since Hl. destruct (Hw _ _ _ _ Hl). split; [by apply session_of_enter|done].
  - intros conn' peer Hl. destruct (Hp _ _ Hl) as (sid & ? & ?). exists sid. by split; apply session_of_enter.
  - intros sid ch' [[<- <-]|[_ Hl]]%lookup_insert_Some; [by rewrite lookup_insert_eq|].
    rewrite lookup_insert_ne; [by apply He|]. by eapply Hne, He.
  - intros conn' ch' Hl. destruct (Hh _ _ Hl) as (sid & Hs & Hc & Hn). exists sid.
    split_and!; [by apply session_of_enter|by rewrite lookup_insert_ne by by eapply Hne|].
    intros sid' [[_ ->]|[_ ?]]%lookup_insert_Some; [congruence|by eapply Hn].
  - intros ch' sid b [[<- [= <- <-]]|[Hne' Hl]]%lookup_insert_Some; [split; [by left|done]|].
    destruct (Hb _ _ _ Hl) as [H1 H2]. split; [by apply (Hbuf (mkRelayState _ _ _ _ _ _))|].
    intros Hne'' sid' [[_ ?]|[_ ?]]%lookup_insert_Some; [congruence|by eapply H2].
  - intros conn' sid ch' since [[<- [= <- <- <-]]|[_ Hl]]%lookup_insert_Some.
    + rewrite !lookup_insert_eq. split; [done|]. by eexists.
    + destruct (Hw _ _ _ _ Hl) as [? [b ?]]. split; [by apply session_of_enter|]. exists b.
      rewrite lookup_insert_ne; [done|]. by eapply Hne.
  - intros conn' peer [[_ ?]|[_ Hl]]%lookup_insert_Some; [done|].
    destruct (Hp _ _ Hl) as (sid & ? & ?). exists sid. by split; apply session_of_enter.
Qed.

(** Changing the buffer of a channel that is no entry's. *)
Lemma rchan_update_inv (s s' : RelayState) ch0 sid0 b0 b1 :
  relay_inv s → s.(rchans) !! ch0 = Some (sid0, b0) → rbuf_ok s sid0 b1 →
  (∀ sid, s.(relayPending) !! sid ≠ Some ch0) →
  s'.(rchans) = <[ch0 := (sid0, b1)]> s.(rchans) → s'.(relayPending) = s.(relayPending) →
  s'.(admitted) = s.(admitted) →
  (∀ conn ch, s'.(rhanding) !! conn = Some ch → s.(rhanding) !! conn = Some ch ∧ ch ≠ ch0) →
  (∀ conn sid ch since, s'.(rwaiters) !! conn = Some (RWaiting sid ch since) →
     s.(rwaiters) !! conn = Some (RWaiting sid ch since)) →
  (∀ conn peer, s'.(rwaiters) !! conn = Some (RPiped peer) → s.(rwaiters) !! conn = Some (RPiped peer) ∨
     ∃ sid, session_of s conn = Some sid ∧ session_of s peer = Some sid) →
  relay_inv s'.
Proof.
  intros [He Hh Hi Hb Hw Hp Ha] Hc0 Hb1 Hno E1 E2 E3 Hhand Hwait Hpipe.
  assert (Hs : ∀ c, session_of s' c = session_of s c) by (intros c; unfold session_of; by rewrite E3).
  split; rewrite ?E1, ?E2, ?E3.
  - intros sid ch Hl. rewrite lookup_insert_ne; [by apply He|]. intros ->. by eapply Hno.
  - intros conn ch [Hl Hne]%Hhand. rewrite Hs, lookup_insert_ne by done. by apply Hh.
  - intros c1 c2 ch [H1 _]%Hhand [H2 _]%Hhand. by eapply Hi.
  - intros ch sid b Hl. unfold rbuf_ok. setoid_rewrite Hs.
    apply lookup_insert_Some in Hl as [[<- [= <- <-]]|[Hne Hl]]; [done|by apply Hb].
  - intros conn sid ch since Hl. rewrite Hs. destruct (Hw _ _ _ _ (Hwait _ _ _ _ Hl)) as [? [b Hb']].
    split; [done|]. destruct (decide (ch = ch0)) as [->|Hne].
    + exists b1. rewrite lookup_insert_eq. congruence.
    + exists b. by rewrite lookup_insert_ne.
  - intros conn peer Hl. setoid_rewrite Hs. destruct (Hpipe _ _ Hl) as [?|?]; [by apply Hp|done].
  - done.
Qed.

Lemma rsend_inv conn ch s :
  relay_inv s → s.(rhanding) !! conn = Some ch → relay_inv (HandleRelay_send conn ch s).
Proof.
  intros Hs Hl. pose proof Hs as [He Hh Hi Hb Hw Hp Ha]. destruct (Hh _ _ Hl) as (sid & Hsid & Hc & Hno).
  eapply (rchan_update_inv s _ ch sid [] [conn]); [exact Hs|exact Hc| |exact Hno| |reflexivity|reflexivity| | |]; cbn.
  - right. by exists conn.
  - apply map_eq. intros ch'. destruct (decide (ch' = ch)) as [->|].
    + by rewrite lookup_alter_eq, lookup_insert_eq, Hc.
    + by rewrite lookup_alter_ne, lookup_insert_ne.
  - intros conn' ch' [Hne Hl']%lookup_delete_Some. split; [done|]. intros ->. by apply Hne, (Hi _ _ ch).
  - done.
  - auto.
Qed.

Lemma rreceive_inv conn sid ch since peer c s :
  relay_inv s → s.(rwaiters) !! conn = Some (RWaiting sid ch since) →
  s.(rchans) !! ch = Some c → head c.2 = Some peer → relay_inv (HandleRelay_receive conn ch peer s).
Proof.
  intros Hs Hl Hc Hx. pose proof Hs as [He Hh Hi Hb Hw Hp Ha]. destruct c as [sid' b]. cbn in *.
  destruct (Hw _ _ _ _ Hl) as [Hsid [b' Hb']]. rewrite Hc in Hb'. injection Hb' as -> <-.
  destruct b as [|y b]; [done|]. injection Hx as ->. destruct (Hb _ _ _ Hc) as [Hbuf Hno].
  assert (b = [] ∧ session_of s peer = Some sid) as [-> Hpeer].
  { destruct Hbuf as [?|(c & Hb' & ?)]; [done|]. by injection Hb' as -> ->. }
  eapply (rchan_update_inv s _ ch sid [peer] []); [exact Hs|exact Hc|by left|by apply Hno| |reflexivity|reflexivity| | |]; cbn.
  - apply map_eq. intros ch'. destruct (decide (ch' = ch)) as [->|].
    + by rewrite lookup_alter_eq, lookup_insert_eq, Hc.
    + by rewrite lookup_alter_ne, lookup_insert_ne.
  - intros conn' ch' Hl'. split; [done|]. intros ->. destruct (Hh _ _ Hl') as (? & _ & Hc' & _). congruence.
  - intros conn' sid' ch' since' [[_ ?]|[_ ?]]%lookup_insert_Some; [done|done].
  - intros conn' peer' [[<- [= <-]]|[_ ?]]%lookup_insert_Some; [right; by exists sid|by left].
Qed.

(** Giving up, or any other change of one request to a state that neither
    waits nor pipes. *)
Lemma rquiet_inv conn w (pending : gmap string RelayChan) d s :
  relay_inv s → (∀ sid ch, pending !! sid = Some ch → s.(relayPending) !! sid = Some ch) →
  match w with RWaiting _ _ _ | RPiped _ => False | _ => True end →
  relay_inv (set_rwaiter conn w (mkRelayState pending s.(rchans) s.(rwaiters) s.(rhanding) d s.(admitted))).
Proof.
  intros [He Hh Hi Hb Hw Hp Ha] Hpend Hquiet. split; cbn; try done.
  - intros sid ch Hl. by apply He, Hpend.
  - intros c ch Hl. destruct (Hh _ _ Hl) as (sid & ? & ? & Hn). exists sid. split_and!; [done..|].
    intros sid' ?%Hpend. by eapply Hn.
  - intros ch sid b Hl. destruct (Hb _ _ _ Hl) as [? Hn]. split; [done|]. intros ? sid' ?%Hpend. by eapply Hn.
  - intros c sid ch since [[_ ->]|[_ Hl]]%lookup_insert_Some; [done|by eapply Hw].
  - intros c peer [[_ ->]|[_ Hl]]%lookup_insert_Some; [done|by eapply Hp].
Qed.

Lemma relay_step_inv s s' : relay_inv s → relay_step s s' → relay_inv s'.
Proof.
  intros Hs [q conn ch r|conn ch|conn sid ch since peer ? (c & ? & ?)|conn sid ch since|conn sid|conn peer|d].
  - by eapply enter_inv.
  - by apply rsend_inv.
  - by eapply rreceive_inv.
  - by apply (rquiet_inv conn (RTimedOut sid) s.(relayPending) s.(rclock) s).
  - apply rquiet_inv; [done| |done]. by intros ? ? [_ ?]%lookup_delete_Some.
  - by apply (rquiet_inv conn RGone s.(relayPending) s.(rclock) s).
  - destruct Hs as [He Hh Hi Hb Hw Hp Ha]. by split.
Qed.

Lemma relay_reachable_inv now s : relay_reachable now s → relay_inv s.
Proof.
  intros Hr. unfold relay_reachable in Hr. assert (Hn := relay_inv_new now). revert Hn.
  induction Hr as [s|s1 s2 s3 Hstep _ IH]; [done|]. intros Hn. by apply IH, (relay_step_inv s1).
Qed.

(** In every interleaving two connections are joined only when both were
    admitted to the same relay session with its token, and no send into a
    channel waits. *)
Theorem relay_pairing (now : Z) (s : RelayState) :
  relay_reachable now s →
  (∀ conn peer, s.(rwaiters) !! conn = Some (RPiped peer) →
     ∃ q q' r r', s.(admitted) !! conn = Some q ∧ s.(admitted) !! peer = Some q' ∧
       q.(rq_session) = q'.(rq_session) ∧
       HandleRelay_admit store q = inr r ∧ HandleRelay_admit store q' = inr r' ∧
       GetRelaySession store q.(rq_session) = Some r ∧ r.(rs_Token) = q.(rq_token) ∧ q'.(rq_token) = q.(rq_token)) ∧
  (∀ conn ch, s.(rhanding) !! conn = Some ch → rchan_room s ch).
Proof.
  intros Hinv%relay_reachable_inv. split.
  - intros conn peer Hl. destruct (r_piped _ Hinv _ _ Hl) as (sid & Hs & Hs').
    unfold session_of in *. destruct (s.(admitted) !! conn) as [q|] eqn:Hq; [|done].
    destruct (s.(admitted) !! peer) as [q'|] eqn:Hq'; [|done]. injection Hs as Hs. injection Hs' as Hs'.
    destruct (r_admitted _ Hinv _ _ Hq) as [r Hr], (r_admitted _ Hinv _ _ Hq') as [r' Hr'].
    exists q, q', r, r'. split_and!; [done..|congruence|done|done| | |];
      unfold HandleRelay_admit in *; rewrite Hs, Hs' in *; repeat case_decide; try done;
      destruct (GetRelaySession store sid) as [r0|]; try done; repeat case_decide; congruence.
  - intros conn ch Hl. destruct (r_handing _ Hinv _ _ Hl) as (sid & _ & Hc & _). unfold rchan_room. by rewrite Hc.
Qed.
End steps.

(** ** Ends that miss each other *)

(** No sender can reach the channel any more. *)
Definition abandoned (ch : RelayChan) (sid : string) (s : RelayState) : Prop :=
  s.(rchans) !! ch = Some (sid, []) ∧ (∀ sid', s.(relayPending) !! sid' ≠ Some ch) ∧
  (∀ conn, s.(rhanding) !! conn ≠ Some ch).

Lemma abandoned_step store ch sid s s' :
  abandoned ch sid s → relay_step store s s' → abandoned ch sid s'.
Proof.
  intros (Hc & Hp & Hh) [q conn ch1 r Hq Hnew Hch1|conn ch1 Hl _|conn sid1 ch1 since peer Hl (c & Hlc & Hx)|
    conn sid1 ch1 since Hl|conn sid1 Hl|conn peer Hl|d]; try done.
  - assert (ch1 ≠ ch) as Hne by congruence. unfold HandleRelay_enter.
    destruct (s.(relayPending) !! q.(rq_session)) as [ch0|] eqn:El; unfold abandoned; cbn.
    + split; [done|]. split.
      * intros sid' [_ ?]%lookup_delete_Some. by eapply Hp.
      * intros conn' [[_ ?]|[_ ?]]%lookup_insert_Some; [subst; by eapply Hp|by eapply Hh].
    + rewrite lookup_insert_ne by done. split; [done|]. split; [|done].
      intros sid' [[_ ?]|[_ ?]]%lookup_insert_Some; [done|by eapply Hp].
  - assert (ch1 ≠ ch) as Hne by (intros ->; by eapply Hh). unfold abandoned. cbn.
    rewrite lookup_alter_ne by done. split; [done|]. split; [done|].
    intros conn' [_ ?]%lookup_delete_Some. by eapply Hh.
  - assert (ch1 ≠ ch) as Hne by (intros ->; rewrite Hc in Hlc; by injection Hlc as <-).
    unfold abandoned. cbn. by rewrite lookup_alter_ne.
  - unfold abandoned. cbn. split; [done|]. split; [|done]. intros sid' [_ ?]%lookup_delete_Some. by eapply Hp.
Qed.

(** The two requests of one relay. *)
Definition source_of (c : string) : RelayParams := mkRelayParams "r1" "tok" "source" c.
Definition target_of (c : string) : RelayParams := mkRelayParams "r1" "tok" "target" c.
Definition relay_store : StateStoreImpl :=
  putRelay "r1" (mkRelaySession "r1" "a" "b" "tcp" 1 2 "" "" "tok" 0 "" "") (NewStateStore "1.2.3.4").

(** Source 1 waits a minute; its timer fires; target 2 takes its entry; source
    3 comes; 1 gives up and removes the entry of 3; target 4 comes. *)
Definition late (s : RelayState) : RelayState :=
  mkRelayState s.(relayPending) s.(rchans) s.(rwaiters) s.(rhanding) (s.(rclock) + relay_minute) s.(admitted).
Definition missed : RelayState :=
  HandleRelay_enter (target_of "b") 4 13 $ HandleRelay_giveup 1 "r1" $
  HandleRelay_enter (source_of "a") 3 12 $ HandleRelay_enter (target_of "b") 2 11 $
  set_rwaiter 1 (RTimedOut "r1") $ late $ HandleRelay_enter (source_of "a") 1 10 $ NewRelayPairing 0.

Lemma missed_reachable : relay_reachable relay_store 0 missed.
Proof.
  assert (Hs : ∃ r, HandleRelay_admit relay_store (source_of "a") = inr r) by by eexists.
  assert (Ht : ∃ r, HandleRelay_admit relay_store (target_of "b") = inr r) by by eexists.
  destruct Hs as [rs Hs], Ht as [rt Ht]. unfold relay_reachable.
  eapply rtc_l; [by apply (REnter _ _ (source_of "a") 1 10 rs)|].
  eapply rtc_l; [by apply (RTick _ _ relay_minute)|].
  eapply rtc_l; [by apply (RFire _ _ 1 "r1" 10 0%Z)|].
  eapply rtc_l; [by apply (REnter _ _ (target_of "b") 2 11 rt)|].
  eapply rtc_l; [by apply (REnter _ _ (source_of "a") 3 12 rs)|].
  eapply rtc_l; [by apply (RGiveUp _ _ 1 "r1")|].
  apply rtc_once. by apply (REnter _ _ (target_of "b") 4 13 rt).
Qed.

(** A request that gives up removes whatever is filed under the
    identifier, also the entry of another: a run of the protocol ends with a
    source and a target of one relay that both wait, and the source is never
    joined to anybody in any continuation. *)
Theorem relay_ends_miss :
  relay_reachable relay_store 0 missed ∧
  missed.(rwaiters) !! 3 = Some (RWaiting "r1" 12 relay_minute) ∧
  missed.(rwaiters) !! 4 = Some (RWaiting "r1" 13 relay_minute) ∧
  ∀ s', rtc (relay_step relay_store) missed s' →
    s'.(rchans) !! 12 = Some ("r1", []) ∧ (∀ sid, s'.(relayPending) !! sid ≠ Some 12) ∧
    (∀ conn, s'.(rhanding) !! conn ≠ Some 12).
Proof.
  split; [exact missed_reachable|]. split; [done|]. split; [done|].
  intros s' Hr. assert (Hm : abandoned 12 "r1" missed).
  { split; [done|]. split.
    - intros sid. assert (missed.(relayPending) = {["r1" := 13]}) as -> by (vm_compute; reflexivity).
      by intros [_ ?]%lookup_singleton_Some.
    - intros conn. assert (missed.(rhanding) = {[2 := 10]}) as -> by (vm_compute; reflexivity).
      by intros [_ ?]%lookup_singleton_Some. }
  revert Hm. induction Hr as [s|s1 s2 s3 Hstep _ IH]; [done|].
  intros Hm. by apply IH, (abandoned_step relay_store _ _ s1).
Qed.

(** ** A concrete pairing *)

Definition paired : RelayState :=
  HandleRelay_receive 1 10 2 $ HandleRelay_send 2 10 $ HandleRelay_enter (target_of "b") 2 11 $
  HandleRelay_enter (source_of "a") 1 10 $ NewRelayPairing 0.
Lemma relay_pairing_witness :
  relay_reachable relay_store 0 paired ∧ paired.(rwaiters) !! 1 = Some (RPiped 2) ∧
  ∃ q q' r r', paired.(admitted) !! 1 = Some q ∧ paired.(admitted) !! 2 = Some q' ∧
    q.(rq_session) = q'.(rq_session) ∧
    HandleRelay_admit relay_store q = inr r ∧ HandleRelay_admit relay_store q' = inr r' ∧
    GetRelaySession relay_store q.(rq_session) = Some r ∧ r.(rs_Token) = q.(rq_token) ∧ q'.(rq_token) = q.(rq_token).
Proof.
  assert (Hr : relay_reachable relay_store 0 paired).
  { assert (Hs : ∃ r, HandleRelay_admit relay_store (source_of "a") = inr r) by by eexists.
    assert (Ht : ∃ r, HandleRelay_admit relay_store (target_of "b") = inr r) by by eexists.
    destruct Hs as [rs Hs], Ht as [rt Ht]. unfold relay_reachable.
    eapply rtc_l; [by apply (REnter _ _ (source_of "a") 1 10 rs)|].
    eapply rtc_l; [by apply (REnter _ _ (target_of "b") 2 11 rt)|].
    eapply rtc_l; [by apply (RSend _ _ 2 10)|].
    apply rtc_once. apply (RReceive _ _ 1 "r1" 10 0%Z 2); [reflexivity|]. eexists. split; reflexivity. }
  split; [exact Hr|]. split; [reflexivity|].
  exact (proj1 (relay_pairing relay_store 0 paired Hr) 1 2 ltac:(reflexivity)).
Defined.
