(* ===== verification/Session.v ===== *)
(** * Client sessions (session/server.go)

    A session is the server's end of a client's WebSocket.  Its goroutines
    read messages, write what is queued and wait for it to end; the server
    keeps the sessions by client id and follows the proxy events.
    [sess_step] interleaves what these goroutines and the event bus do;
    a handler is one step, and events published to the client type wait in
    their queue until the bus delivers them to the store.

    A connection is the number of its session; [ClientToken] is the token of
    the configuration; identifiers, clock and the results of file writes are
    arguments.  The pairing of tunnels and relays is in Pairing and
    RelayPairing. *)

From S2P Require Import Prelude Types Proto StateStore EventBus Reconcile Disk Auth ProxyPlugin Message.

(** ** Keys *)

Definition proxyClientKey (clientID : string) (remotePort : Z) : string :=
  clientID +:+ "-" +:+ pretty remotePort.

Definition parseProxyResourceKey (key : string) : option (string * Z) :=
  let '(clientID, portText, ok) := Cut key ":" in
  if negb ok || bool_decide (clientID = "") || bool_decide (portText = "") then None
  else match Atoi portText with
  | Some port => Some (clientID, port)
  | None => None
  end.

(** ** State *)

Record Session := mkSession {
  se_clientID : string;
  se_isTemp : bool;
  se_remoteAddr : string;
  se_host : string;
  se_latency : Z;
  se_send : list WSMessage;
  se_done : bool;
  se_registered : bool;
  (* the reading goroutine runs *)
  se_reading : bool;
  (* for the statements: the name in the certificate, whether a
     "temp_register" was accepted, the token accepted last *)
  se_cert : string;
  se_temp_used : bool;
  se_token : option string;
}.

Definition send_cap : nat := 256.

(** [trackSession]: it waits for the registration, or for the end of a session
    it has stored under an id. *)
Inductive phase := TWaiting | TTracked (clientID : string) | TEnded.

Record SessState := mkSess {
  ss_table : gmap nat Session;
  ss_sessions : gmap string nat;
  ss_store : StateStoreImpl;
  ss_prov : TCPProvider;
  ss_net : Net;
  ss_active : gset string;
  ss_running : gmap string ListenerId;
  ss_queue : list GenericEvent;
  ss_track : gmap nat phase;
  ss_auth : Manager * directory;
}.

Definition set_table (f : gmap nat Session → gmap nat Session) (s : SessState) : SessState :=
  mkSess (f s.(ss_table)) s.(ss_sessions) s.(ss_store) s.(ss_prov) s.(ss_net) s.(ss_active) s.(ss_running)
    s.(ss_queue) s.(ss_track) s.(ss_auth).
Definition set_sessions (f : gmap string nat → gmap string nat) (s : SessState) : SessState :=
  mkSess s.(ss_table) (f s.(ss_sessions)) s.(ss_store) s.(ss_prov) s.(ss_net) s.(ss_active) s.(ss_running)
    s.(ss_queue) s.(ss_track) s.(ss_auth).
Definition set_store (st : StateStoreImpl) (s : SessState) : SessState :=
  mkSess s.(ss_table) s.(ss_sessions) st s.(ss_prov) s.(ss_net) s.(ss_active) s.(ss_running)
    s.(ss_queue) s.(ss_track) s.(ss_auth).
Definition set_prov (p : TCPProvider) (n : Net) (s : SessState) : SessState :=
  mkSess s.(ss_table) s.(ss_sessions) s.(ss_store) p n s.(ss_active) s.(ss_running)
    s.(ss_queue) s.(ss_track) s.(ss_auth).
Definition set_loops (a : gset string) (r : gmap string ListenerId) (s : SessState) : SessState :=
  mkSess s.(ss_table) s.(ss_sessions) s.(ss_store) s.(ss_prov) s.(ss_net) a r
    s.(ss_queue) s.(ss_track) s.(ss_auth).
Definition set_queue (q : list GenericEvent) (s : SessState) : SessState :=
  mkSess s.(ss_table) s.(ss_sessions) s.(ss_store) s.(ss_prov) s.(ss_net) s.(ss_active) s.(ss_running)
    q s.(ss_track) s.(ss_auth).
Definition set_track (sid : nat) (p : phase) (s : SessState) : SessState :=
  mkSess s.(ss_table) s.(ss_sessions) s.(ss_store) s.(ss_prov) s.(ss_net) s.(ss_active) s.(ss_running)
    s.(ss_queue) (<[sid := p]> s.(ss_track)) s.(ss_auth).
Definition set_auth (a : Manager * directory) (s : SessState) : SessState :=
  mkSess s.(ss_table) s.(ss_sessions) s.(ss_store) s.(ss_prov) s.(ss_net) s.(ss_active) s.(ss_running)
    s.(ss_queue) s.(ss_track) a.

(** ** A session *)

Definition NewSession (remoteAddr clientID : string) (isTemp : bool) : Session :=
  mkSession clientID isTemp remoteAddr "" 0 [] false false true clientID false None.

Definition se_with_id (clientID host token : string) (temp : bool) (se : Session) : Session :=
  mkSession clientID se.(se_isTemp) se.(se_remoteAddr) host se.(se_latency) se.(se_send) se.(se_done)
    se.(se_registered) se.(se_reading) se.(se_cert) (se.(se_temp_used) || temp) (Some token).
Definition se_with_latency (l : Z) (se : Session) : Session :=
  mkSession se.(se_clientID) se.(se_isTemp) se.(se_remoteAddr) se.(se_host) l se.(se_send) se.(se_done)
    se.(se_registered) se.(se_reading) se.(se_cert) se.(se_temp_used) se.(se_token).
Definition se_with_send (b : list WSMessage) (se : Session) : Session :=
  mkSession se.(se_clientID) se.(se_isTemp) se.(se_remoteAddr) se.(se_host) se.(se_latency) b se.(se_done)
    se.(se_registered) se.(se_reading) se.(se_cert) se.(se_temp_used) se.(se_token).
Definition se_with_flags (done registered reading : bool) (se : Session) : Session :=
  mkSession se.(se_clientID) se.(se_isTemp) se.(se_remoteAddr) se.(se_host) se.(se_latency) se.(se_send)
    done registered reading se.(se_cert) se.(se_temp_used) se.(se_token).

(** A send waits three seconds for room: here, the buffer is still full then. *)
Definition WriteJSON (msg : WSMessage) (se : Session) : Res unit * Session :=
  if decide (length se.(se_send) < send_cap) then (Ok tt, se_with_send (se.(se_send) ++ [msg]) se)
  else (Err "send timeout", se).

Definition sendError (code : Z) (message : string) (se : Session) : Session :=
  (WriteJSON (mkWSMessage "error" (DError (mkErrorData code message))) se).2.

(** ** Events *)

Definition client_key (clientID : string) : ResourceKey :=
  mkResourceKey ResourceTypeClient NamespaceDefault clientID.
Definition newClientEvent (id : string) (now : Z) (clientID remoteAddr host : string) : GenericEvent :=
  NewGenericEvent id now (client_key clientID) EventAdded
    (AMap (<["remote_addr" := AString remoteAddr]> $ <["host" := AString host]> ∅)).
(** [latency.Milliseconds()] truncates towards zero. *)
Definition newClientModifiedEvent (id : string) (now : Z) (clientID : string) (latency : Z) : GenericEvent :=
  NewGenericEvent id now (client_key clientID) EventModified
    (AMap {["latency" := AInt64 (latency `quot` 1000000)]}).
Definition newClientDeletedEvent (id : string) (now : Z) (clientID : string) : GenericEvent :=
  NewGenericEvent id now (client_key clientID) EventDeleted ANil.

(** [Publish] drops an event the queue has no room for (see EventBus). *)
Definition Publish (e : GenericEvent) (s : SessState) : SessState :=
  if decide (length s.(ss_queue) < queue_cap) then set_queue (s.(ss_queue) ++ [e]) s else s.

(** ** The server *)

Definition upd_session (sid : nat) (f : Session → Session) : SessState → SessState := set_table (alter f sid).

Definition SendToClient (clientID : string) (msg : WSMessage) (s : SessState) : Res unit * SessState :=
  match s.(ss_sessions) !! clientID with
  | None => (Err ("client not found: " +:+ clientID), s)
  | Some sid =>
      match s.(ss_table) !! sid with
      | None => (Err ("client not found: " +:+ clientID), s)
      | Some se => let '(r, se') := WriteJSON msg se in (r, set_table <[sid := se']> s)
      end
  end.

Section server.
Context `{!JsonCodec (gmap string ClientRecord)} `{!JsonCodec (gmap string Voucher)}.
Context (ClientToken : string) (tunnelPort : Z) (refuse : string → bool).
(** [time.Parse(time.RFC3339Nano, s)] *)
Context (parse_time : string → option Z).

Definition ValidateClientToken (token : string) : bool := bool_decide (token = ClientToken).

(** Identifier and clocks of a step: milliseconds, seconds, nanoseconds; and
    what a write to the registry file does. *)
Record step_env := mkEnv { ev_id : string; ev_ms : Z; ev_s : Z; ev_ns : Z; ev_write : WriteFault }.

(** What both kinds of registration do once the request is accepted. *)
Definition accept_registration (env : step_env) (sid : nat) (clientID host namespace token : string) (temp : bool)
    (s : SessState) : SessState :=
  match s.(ss_table) !! sid with
  | None => s
  | Some se =>
      let s1 := set_table <[sid := se_with_id clientID host token temp se]> s in
      let s2 := Publish (newClientEvent env.(ev_id) env.(ev_ms) clientID se.(se_remoteAddr)
                           (if temp then "" else host)) s1 in
      let s3 := set_store (SetClientConn env.(ev_s) clientID (Some sid) s2.(ss_store)) s2 in
      let s4 := set_auth (SetClientNamespace clientID namespace "node" env.(ev_write) s3.(ss_auth)).2 s3 in
      let resp := mkWSMessage "registered" (DRegistered (mkRegisteredData clientID s4.(ss_store).(publicIP))) in
      upd_session sid (λ se, let se' := (WriteJSON resp se).2 in
                             se_with_flags se'.(se_done) true se'.(se_reading) se') s4
  end.

Definition handleRegister (env : step_env) (sid : nat) (data : WSData) (s : SessState) : SessState :=
  match data_map data, s.(ss_table) !! sid with
  | Some regData, Some se =>
      let token := field_string regData "token" in
      let clientID := field_string regData "client_id" in
      if decide (token = "" ∨ clientID = "") then upd_session sid (sendError 400 "missing token or client_id") s
      else if negb (ValidateClientToken token) then upd_session sid (sendError 401 "invalid token") s
      else if negb se.(se_isTemp) && bool_decide (se.(se_clientID) ≠ "") && bool_decide (se.(se_clientID) ≠ clientID)
      then upd_session sid (sendError 403 "client_id does not match certificate") s
      else accept_registration env sid clientID (field_string regData "host")
             (if se.(se_isTemp) then "temporary" else "permanent") token false s
  | _, _ => s
  end.

(** The host is left as it is, and the published event has none. *)
Definition handleTempRegister (env : step_env) (sid : nat) (data : WSData) (s : SessState) : SessState :=
  match data_map data, s.(ss_table) !! sid with
  | Some regData, Some se =>
      let token := field_string regData "token" in
      let clientID := field_string regData "client_id" in
      if decide (token = "" ∨ clientID = "") then upd_session sid (sendError 400 "missing token or client_id") s
      else if negb (ValidateClientToken token) then upd_session sid (sendError 401 "invalid token") s
      else accept_registration env sid clientID se.(se_host) "temporary" token true s
  | _, _ => s
  end.

Definition handlePong (env : step_env) (sid : nat) (data : WSData) (s : SessState) : SessState :=
  let ts := pongData ← data_map data; tsStr ← as_string (pongData !! "timestamp"); parse_time tsStr in
  match ts, s.(ss_table) !! sid with
  | Some ts, Some se =>
      let latency := time_Sub env.(ev_ns) ts in
      Publish (newClientModifiedEvent env.(ev_id) env.(ev_ms) se.(se_clientID) latency)
        (upd_session sid (se_with_latency latency) s)
  | _, _ => s
  end.

Definition handleMessage (env : step_env) (sid : nat) (msg : WSMessage) (s : SessState) : SessState :=
  if decide (msg.(ws_Type) = "register") then handleRegister env sid msg.(ws_Data) s
  else if decide (msg.(ws_Type) = "temp_register") then handleTempRegister env sid msg.(ws_Data) s
  else if decide (msg.(ws_Type) = "pong") then handlePong env sid msg.(ws_Data) s
  else s.

(** Only the first call has an effect. *)
Definition Close (env : step_env) (sid : nat) (s : SessState) : SessState :=
  match s.(ss_table) !! sid with
  | None => s
  | Some se =>
      if se.(se_done) then s
      else
        let s1 := upd_session sid (λ se, se_with_flags true se.(se_registered) se.(se_reading) se) s in
        if decide (se.(se_clientID) = "") then s1
        else Publish (newClientDeletedEvent env.(ev_id) env.(ev_ms) se.(se_clientID)) s1
  end.

(** ** Tunnel loops *)

(** The flag of the key is set first; without a listener it stays set. *)
Definition startTunnelLoop (clientID : string) (port : Z) (s : SessState) : SessState :=
  let key := proxyKey clientID port in
  if decide (key ∈ s.(ss_active)) then s
  else
    match GetListener clientID port s.(ss_prov) with
    | None => set_loops ({[key]} ∪ s.(ss_active)) s.(ss_running) s
    | Some ln => set_loops ({[key]} ∪ s.(ss_active)) (<[key := ln]> s.(ss_running)) s
    end.

(** [Accept] fails for good: the loop ends and clears the flag. *)
Definition loop_exit (key : string) (s : SessState) : SessState :=
  set_loops (s.(ss_active) ∖ {[key]}) (delete key s.(ss_running)) s.

(** ** Synchronisation and events *)

Definition proxy_message (s : SessState) (remotePort localPort : Z) (localIP protocol bindAddr : string) : WSMessage :=
  mkWSMessage "proxy" (DCommand (mkCommandData "" remotePort localPort protocol bindAddr ""
    s.(ss_store).(publicIP) tunnelPort "" localIP)).

Definition sync_proxy (clientID : string) (s : SessState) (p : ProxyInfo) : SessState :=
  if decide (p.(pi_ClientID) = clientID) then
    let s1 := (SendToClient clientID (proxy_message s p.(pi_RemotePort) p.(pi_LocalPort) p.(pi_LocalIP)
                                       p.(pi_Protocol) p.(pi_BindAddr)) s).2 in
    startTunnelLoop p.(pi_ClientID) p.(pi_RemotePort) s1
  else s.
Definition syncClientProxies (clientID : string) (s : SessState) : SessState :=
  foldl (sync_proxy clientID) s (ListProxies s.(ss_store)).

Definition sync_relay (clientID : string) (s : SessState) (r : RelaySession) : SessState :=
  if decide (r.(rs_SourceClient) ≠ clientID ∧ r.(rs_TargetClient) ≠ clientID) then s
  else
    let '(role, peer) := if decide (r.(rs_TargetClient) = clientID) then ("target", r.(rs_SourceClient))
                         else ("source", r.(rs_TargetClient)) in
    (SendToClient clientID (relay_signal "relay_signal" role peer s.(ss_store).(publicIP) r) s).2.
Definition syncClientRelays (clientID : string) (s : SessState) : SessState :=
  foldl (sync_relay clientID) s (ListRelaySessions s.(ss_store)).

(** What [trackSession] does when the wait for the registration is over; the
    map of pending relay signals is never filled. *)
Definition track_start (env : step_env) (sid : nat) (timeout : bool) (s : SessState) : SessState :=
  match s.(ss_table) !! sid with
  | None => s
  | Some se =>
      if timeout && bool_decide (se.(se_clientID) = "") then set_track sid TEnded (Close env sid s)
      else if decide (se.(se_clientID) = "") then set_track sid (TTracked "") s
      else
        let clientID := se.(se_clientID) in
        set_track sid (TTracked clientID) $ syncClientRelays clientID $ syncClientProxies clientID $
        set_sessions <[clientID := sid]> s
  end.

Definition track_end (sid : nat) (clientID : string) (s : SessState) : SessState :=
  set_track sid TEnded (if decide (clientID = "") then s else set_sessions (delete clientID) s).

Definition handleProxyAdded (restoring : bool) (event : GenericEvent) (s : SessState) : SessState :=
  match added_proxy event with
  | None => s
  | Some p =>
      if decide (p.(ps_ClientID) = "" ∨ p.(ps_RemotePort) = 0%Z) then s
      else
        let s1 := if restoring then s
                  else (SendToClient p.(ps_ClientID) (proxy_message s p.(ps_RemotePort) p.(ps_LocalPort)
                          p.(ps_LocalIP) p.(ps_Protocol) p.(ps_BindAddr)) s).2 in
        startTunnelLoop p.(ps_ClientID) p.(ps_RemotePort) s1
  end.

Definition handleProxyDeleted (event : GenericEvent) (s : SessState) : SessState :=
  match parseProxyResourceKey event.(ge_Resource).(rk_Name) with
  | None => s
  | Some (clientID, port) =>
      (SendToClient clientID (mkWSMessage "proxy_closed"
         (DProxyClosed (mkProxyClosedData (proxyClientKey clientID port)))) s).2
  end.

Definition handleProxyEvent (restoring : bool) (event : GenericEvent) (s : SessState) : SessState :=
  if decide (event.(ge_EventType) = EventAdded) then handleProxyAdded restoring event s
  else if decide (event.(ge_EventType) = EventDeleted) then handleProxyDeleted event s
  else s.

(** The handlers of a proxy event, in the order of their subscriptions: the
    core, the plugin, the sessions. *)
Definition deliver_proxy (restoring : bool) (event : GenericEvent) (s : SessState) : SessState :=
  let w := both_step refuse (mkWorld s.(ss_store) s.(ss_prov) s.(ss_net)) event in
  handleProxyEvent restoring event (set_prov w.(w_prov) w.(w_net) (set_store w.(w_store) s)).

(** ** Steps *)

Inductive sess_step (s : SessState) : SessState → Prop :=
| SConnect sid remoteAddr clientID isTemp :
    s.(ss_table) !! sid = None → s.(ss_track) !! sid = None → (isTemp = true → clientID = "") →
    sess_step s (set_track sid TWaiting (set_table <[sid := NewSession remoteAddr clientID isTemp]> s))
| SMessage env sid se msg :
    s.(ss_table) !! sid = Some se → se.(se_reading) = true → sess_step s (handleMessage env sid msg s)
| SHangup env sid se :
    s.(ss_table) !! sid = Some se → se.(se_reading) = true →
    sess_step s (Close env sid (upd_session sid (λ se, se_with_flags se.(se_done) se.(se_registered) false se) s))
| SWrite sid se :
    s.(ss_table) !! sid = Some se → se.(se_done) = false →
    sess_step s (upd_session sid (λ se, se_with_send (tail se.(se_send)) se) s)
| STrack env sid se timeout :
    s.(ss_track) !! sid = Some TWaiting → s.(ss_table) !! sid = Some se →
    (timeout = true ∨ se.(se_registered) = true) → sess_step s (track_start env sid timeout s)
| STrackDone sid se :
    s.(ss_track) !! sid = Some TWaiting → s.(ss_table) !! sid = Some se → se.(se_done) = true →
    sess_step s (set_track sid TEnded s)
| STrackEnd sid se clientID :
    s.(ss_track) !! sid = Some (TTracked clientID) → s.(ss_table) !! sid = Some se → se.(se_done) = true →
    sess_step s (track_end sid clientID s)
| SDeliver now e q :
    s.(ss_queue) = e :: q → sess_step s (set_store (Apply now e s.(ss_store)) (set_queue q s))
| SProxyEvent restoring event : sess_step s (deliver_proxy restoring event s)
| SLoopExit key ln :
    s.(ss_running) !! key = Some ln → s.(ss_net).(net_open) !! ln = None → sess_step s (loop_exit key s).

Definition sess_start (publicIP : string) (a : Manager * directory) : SessState :=
  mkSess ∅ ∅ (NewStateStore publicIP) NewTCPProvider (mkNet ∅ 0) ∅ ∅ [] ∅ a.
Definition sess_reachable (publicIP : string) (a : Manager * directory) : SessState → Prop :=
  rtc sess_step (sess_start publicIP a).
End server.

(** ** Who a session is *)

(** What identifies a session: its id, whether it is temporary, its
    certificate, whether it used "temp_register", its token. *)
Definition identity : Type := string * bool * string * bool * option string.
Definition ident (se : Session) : identity :=
  (se.(se_clientID), se.(se_isTemp), se.(se_cert), se.(se_temp_used), se.(se_token)).
Definition idents (s : SessState) : gmap nat identity := ident <$> s.(ss_table).

(** The connections of the store. *)
Definition conn_of (st : StateStoreImpl) (c : string) : option ConnId := st.(clients) !! c ≫= ce_Conn.

Lemma idents_upd sid f s : (∀ se, ident (f se) = ident se) → idents (upd_session sid f s) = idents s.
Proof.
  intros Hf. unfold idents. cbn. apply map_eq. intros i. rewrite !lookup_fmap.
  destruct (decide (i = sid)) as [->|]; [rewrite lookup_alter_eq|by rewrite lookup_alter_ne].
  destruct (_ !! sid); cbn; [by rewrite Hf|done].
Qed.

Lemma ident_WriteJSON msg se : ident (WriteJSON msg se).2 = ident se.
Proof. unfold WriteJSON. by case_decide. Qed.
Lemma ident_sendError code msg se : ident (sendError code msg se) = ident se.
Proof. apply ident_WriteJSON. Qed.

Lemma SendToClient_same c msg s :
  let s' := (SendToClient c msg s).2 in
  idents s' = idents s ∧ s'.(ss_sessions) = s.(ss_sessions) ∧ s'.(ss_store) = s.(ss_store) ∧
  s'.(ss_active) = s.(ss_active) ∧ s'.(ss_running) = s.(ss_running) ∧ s'.(ss_prov) = s.(ss_prov).
Proof.
  unfold SendToClient. destruct (_ !! c) as [sid|]; [|done].
  destruct (s.(ss_table) !! sid) as [se|] eqn:E; [|done].
  destruct (WriteJSON msg se) as [r se'] eqn:EW. split_and!; try done. unfold idents. cbn.
  rewrite fmap_insert. apply insert_id. rewrite lookup_fmap, E. cbn. f_equal.
  by rewrite <-(ident_WriteJSON msg se), EW.
Qed.

Lemma startTunnelLoop_same c port s :
  let s' := startTunnelLoop c port s in
  idents s' = idents s ∧ s'.(ss_sessions) = s.(ss_sessions) ∧ s'.(ss_store) = s.(ss_store) ∧
  s'.(ss_table) = s.(ss_table).
Proof. unfold startTunnelLoop. case_decide; [done|]. by case_match. Qed.

Lemma Publish_same e s :
  let s' := Publish e s in
  idents s' = idents s ∧ s'.(ss_sessions) = s.(ss_sessions) ∧ s'.(ss_store) = s.(ss_store) ∧
  s'.(ss_table) = s.(ss_table) ∧ s'.(ss_running) = s.(ss_running) ∧ s'.(ss_active) = s.(ss_active).
Proof. unfold Publish. by case_decide. Qed.

(** Events bring no connection into the store. *)
Lemma Apply_conn now e st c sid :
  conn_of (Apply now e st) c = Some sid → conn_of st c = Some sid.
Proof.
  unfold conn_of, Apply. repeat case_decide; try done.
  - unfold applyClientEvent. repeat case_decide; try done.
    + destruct (ge_Payload e) as [| | | | | |payload| | | |]; try done. cbn.
      destruct (decide (rk_Name (ge_Resource e) = c)) as [<-|]; [|by rewrite lookup_insert_ne].
      rewrite lookup_insert_eq. cbn. destruct (clients st !! _) as [x|]; cbn; [|done].
      by destruct (ce_Conn x).
    + destruct (clients st !! rk_Name (ge_Resource e)) as [x|] eqn:Ex; [|done].
      destruct (ge_Payload e) as [| | | | | |payload| | | |]; try done. cbn.
      destruct (decide (rk_Name (ge_Resource e) = c)) as [<-|]; [|by rewrite lookup_insert_ne].
      rewrite lookup_insert_eq, Ex. cbn. unfold modifyClient. by repeat case_match.
    + cbn. destruct (decide (rk_Name (ge_Resource e) = c)) as [<-|]; [by rewrite lookup_delete_eq|].
      by rewrite lookup_delete_ne.
  - unfold applyProxyEvent. repeat case_decide; try done. by case_match.
  - unfold applyRelayEvent. repeat case_decide; try done. by case_match.
Qed.

Lemma applyProxyEvent_clients e st : (applyProxyEvent e st).(clients) = st.(clients).
Proof. unfold applyProxyEvent. repeat case_decide; try done. by case_match. Qed.

Lemma SetClientConn_conn now c sid st c' :
  conn_of (SetClientConn now c (Some sid) st) c' = if decide (c' = c) then Some sid else conn_of st c'.
Proof.
  unfold conn_of, SetClientConn. cbn. case_decide as Hd; [subst; by rewrite lookup_insert_eq|].
  by rewrite lookup_insert_ne.
Qed.

Section identity.
Context `{!JsonCodec (gmap string ClientRecord)} `{!JsonCodec (gmap string Voucher)}.
Context (ClientToken : string) (tunnelPort : Z) (refuse : string → bool) (parse_time : string → option Z).

(** A session bound to its certificate. *)
Definition bound (i : identity) : Prop :=
  let '(_, isTemp, cert, temp_used, _) := i in isTemp = false ∧ cert ≠ "" ∧ temp_used = false.
Definition id_cert (i : identity) : string := let '(_, _, cert, _, _) := i in cert.
Definition accepted (i : identity) : Prop := let '(_, _, _, _, token) := i in token = Some ClientToken.
Definition ident_ok (i : identity) : Prop :=
  let '(c, _, cert, _, _) := i in (bound i → c = cert) ∧ (c = cert ∨ accepted i).

(** A session goes on: the certificate stays, what was accepted stays. *)
Definition goes_on (i i' : identity) : Prop :=
  id_cert i' = id_cert i ∧ (bound i' → bound i) ∧ (accepted i → accepted i').
Definition table_on (t t' : gmap nat identity) : Prop :=
  ∀ sid i, t !! sid = Some i → ∃ i', t' !! sid = Some i' ∧ goes_on i i'.

(** Session [sid] may answer for client [c]. *)
Definition answers (t : gmap nat identity) (c : string) (sid : nat) : Prop :=
  ∃ i, t !! sid = Some i ∧ (bound i → c = id_cert i) ∧ (c = id_cert i ∨ accepted i).

Record ident_inv (s : SessState) : Prop := mkIdentInv {
  id_ok : ∀ sid i, idents s !! sid = Some i → ident_ok i;
  id_sessions : ∀ c sid, s.(ss_sessions) !! c = Some sid → answers (idents s) c sid;
  id_conn : ∀ c sid, conn_of s.(ss_store) c = Some sid → answers (idents s) c sid;
}.

#[local] Instance goes_on_refl : Reflexive goes_on.
Proof. by intros i. Qed.
Lemma table_on_refl t : table_on t t.
Proof. intros sid i Hi. exists i. by split. Qed.

Lemma answers_on t t' c sid : table_on t t' → answers t c sid → answers t' c sid.
Proof.
  intros Ht (i & Hi & Hb & Ha). destruct (Ht _ _ Hi) as (i' & Hi' & Hc & Hbb & Haa).
  exists i'. rewrite Hc. split_and!; [done|auto|]. destruct Ha; auto.
Qed.

(** A step that keeps identities, or lets them go on, and adds no answers. *)
Lemma ident_inv_on s s' :
  ident_inv s → table_on (idents s) (idents s') →
  (∀ sid i, idents s' !! sid = Some i → ident_ok i) →
  (∀ c sid, s'.(ss_sessions) !! c = Some sid → s.(ss_sessions) !! c = Some sid ∨ answers (idents s') c sid) →
  (∀ c sid, conn_of s'.(ss_store) c = Some sid → conn_of s.(ss_store) c = Some sid ∨ answers (idents s') c sid) →
  ident_inv s'.
Proof.
  intros [Hok Hs Hc] Hon Hok' Hs' Hc'. split; [done|..].
  - intros c sid Hl. destruct (Hs' _ _ Hl) as [?|?]; [eapply answers_on; [done|by apply Hs]|done].
  - intros c sid Hl. destruct (Hc' _ _ Hl) as [?|?]; [eapply answers_on; [done|by apply Hc]|done].
Qed.

Lemma ident_inv_same s s' :
  ident_inv s → idents s' = idents s →
  (∀ c sid, s'.(ss_sessions) !! c = Some sid → s.(ss_sessions) !! c = Some sid) →
  (∀ c sid, conn_of s'.(ss_store) c = Some sid → conn_of s.(ss_store) c = Some sid) → ident_inv s'.
Proof.
  intros Hi E Hs Hc. apply (ident_inv_on s); [done|rewrite E; apply table_on_refl|rewrite E; apply Hi|..].
  - intros c sid Hl. left. by apply Hs.
  - intros c sid Hl. left. by apply Hc.
Qed.

Lemma accept_ident env sid c host ns temp (s : SessState) se :
  ident_inv s → s.(ss_table) !! sid = Some se →
  (se.(se_isTemp) = false → se.(se_cert) ≠ "" → se.(se_temp_used) || temp = false → c = se.(se_cert)) →
  ident_inv (accept_registration env sid c host ns ClientToken temp s).
Proof.
  intros Hinv Hl Hbound. unfold accept_registration. rewrite Hl.
  set (se1 := se_with_id c host ClientToken temp se).
  match goal with |- ident_inv (upd_session sid ?f ?s4) => set (f' := f); set (s4' := s4) end.
  assert (Hids : idents (upd_session sid f' s4') = <[sid := ident se1]> (idents s)).
  { rewrite idents_upd by (intros x; unfold f'; cbn; apply (ident_WriteJSON _ x)).
    unfold s4'. change (idents (set_auth ?a (set_store ?st ?s))) with (idents s).
    match goal with |- idents (Publish ?e ?s1) = _ => change (idents (Publish e s1)) with (idents (Publish e s1));
      rewrite (proj1 (Publish_same e s1)) end.
    unfold idents. cbn. by rewrite fmap_insert. }
  assert (Hi : idents s !! sid = Some (ident se)) by (unfold idents; by rewrite lookup_fmap, Hl).
  assert (Hans : answers (<[sid := ident se1]> (idents s)) c sid).
  { exists (ident se1). rewrite lookup_insert_eq. split; [done|]. split; [|by right].
    cbn. intros (? & ? & ?). by apply Hbound. }
  apply (ident_inv_on s); [done|rewrite Hids..| |].
  - intros sid' i Hl'. destruct (decide (sid' = sid)) as [->|Hne].
    + exists (ident se1). rewrite lookup_insert_eq. split; [done|]. rewrite Hi in Hl'. injection Hl' as <-.
      unfold goes_on. cbn. split_and!; [done| |done]. intros (? & ? & H). by destruct se.(se_temp_used).
    + exists i. by rewrite lookup_insert_ne.
  - intros sid' i [[<- <-]|[_ Hl']]%lookup_insert_Some; [|by eapply id_ok].
    cbn. split; [|by right]. intros (? & ? & ?). by apply Hbound.
  - intros c' sid' Hl'. left. revert Hl'. unfold s4'. cbn.
    by rewrite (proj1 (proj2 (Publish_same _ _))).
  - intros c' sid' Hl'. rewrite Hids. revert Hl'. cbn. unfold s4'. cbn [ss_store set_auth set_store].
    rewrite SetClientConn_conn. case_decide as Hd; [intros [= <-]; subst; by right|].
    rewrite (proj1 (proj2 (proj2 (Publish_same _ _)))). by left.
Qed.

(** Operations that only send messages and start loops. *)
Definition quiet (s s' : SessState) : Prop :=
  idents s' = idents s ∧ s'.(ss_sessions) = s.(ss_sessions) ∧ s'.(ss_store) = s.(ss_store).
#[local] Instance quiet_trans : Transitive quiet.
Proof. intros s1 s2 s3 (A1 & A2 & A3) (B1 & B2 & B3). split_and!; congruence. Qed.

Lemma quiet_send c msg s : quiet s (SendToClient c msg s).2.
Proof. destruct (SendToClient_same c msg s) as (? & ? & ? & _). done. Qed.
Lemma quiet_loop c port s : quiet s (startTunnelLoop c port s).
Proof. destruct (startTunnelLoop_same c port s) as (? & ? & ? & _). done. Qed.

Lemma quiet_foldl {A} (f : SessState → A → SessState) l s :
  (∀ s x, quiet s (f s x)) → quiet s (foldl f s l).
Proof.
  intros Hf. revert s. induction l as [|x l IH]; intros s; [done|]. cbn. etrans; [apply Hf|apply IH].
Qed.

Lemma quiet_sync c s : quiet s (syncClientRelays c (syncClientProxies tunnelPort c s)).
Proof.
  etrans; [eapply (quiet_foldl (sync_proxy tunnelPort c))|apply (quiet_foldl (sync_relay c))].
  - intros s' p. unfold sync_proxy. case_decide; [|done]. etrans; [apply quiet_send|apply quiet_loop].
  - intros s' r. unfold sync_relay. case_decide; [done|]. case_match. apply quiet_send.
Qed.

Lemma quiet_proxy_event restoring e s : quiet s (handleProxyEvent tunnelPort restoring e s).
Proof.
  unfold handleProxyEvent. repeat case_decide; [| |done].
  - unfold handleProxyAdded. destruct (added_proxy e) as [p|]; [|done]. case_decide; [done|].
    etrans; [|apply quiet_loop]. destruct restoring; [done|apply quiet_send].
  - unfold handleProxyDeleted. destruct (parseProxyResourceKey _) as [[c p]|]; [|done]. apply quiet_send.
Qed.

Lemma ident_quiet s s' : quiet s s' → ident_inv s → ident_inv s'.
Proof.
  intros (E1 & E2 & E3) Hi. apply (ident_inv_same s); [done..| |]; intros c sid; by rewrite ?E2, ?E3.
Qed.

Lemma ident_upd sid f s : (∀ se, ident (f se) = ident se) → ident_inv s → ident_inv (upd_session sid f s).
Proof. intros Hf Hi. apply (ident_quiet s); [|done]. split; [by apply idents_upd|done]. Qed.

Lemma ident_publish e s : ident_inv s → ident_inv (Publish e s).
Proof.
  intros Hi. apply (ident_quiet s); [|done]. destruct (Publish_same e s) as (? & ? & ? & _). done.
Qed.

Lemma ident_close env sid s : ident_inv s → ident_inv (Close env sid s).
Proof.
  intros Hi. unfold Close. destruct (_ !! sid) as [se|]; [|done]. case_match; [done|].
  case_decide; [by apply ident_upd|]. by apply ident_publish, ident_upd.
Qed.

Lemma ident_message env sid se msg s :
  ident_inv s → s.(ss_table) !! sid = Some se → ident_inv (handleMessage ClientToken parse_time env sid msg s).
Proof.
  intros Hi Hl. pose proof Hi as [Hok _ _].
  assert (Hse : ident_ok (ident se)) by (apply (Hok sid); unfold idents; by rewrite lookup_fmap, Hl).
  assert (Herr : ∀ code m, ident_inv (upd_session sid (sendError code m) s)).
  { intros code m. apply ident_upd; [|done]. apply ident_sendError. }
  unfold handleMessage. repeat case_decide; [| | |done].
  - unfold handleRegister. rewrite Hl. destruct (data_map _) as [d|]; [|done].
    case_decide; [apply Herr|]. destruct (ValidateClientToken _ _) eqn:Hv; [|apply Herr].
    apply bool_decide_eq_true_1 in Hv. rewrite Hv. cbn [negb].
    destruct (negb _ && _ && _) eqn:Hc; [apply Herr|]. apply (accept_ident _ _ _ _ _ _ _ se); [done..|].
    intros Ht Hcert Hu. rewrite orb_false_r in Hu. rewrite Ht in Hc. cbn in Hc.
    destruct Hse as [Hb _]. cbn in Hb. rewrite Hb in Hc by done.
    rewrite bool_decide_eq_true_2 in Hc by done. cbn in Hc. apply bool_decide_eq_false_1 in Hc.
    symmetry. by apply dec_stable.
  - unfold handleTempRegister. rewrite Hl. destruct (data_map _) as [d|]; [|done].
    case_decide; [apply Herr|]. destruct (ValidateClientToken _ _) eqn:Hv; [|apply Herr].
    apply bool_decide_eq_true_1 in Hv. rewrite Hv. cbn [negb].
    apply (accept_ident _ _ _ _ _ _ _ se); [done..|]. intros _ _ Hu. by rewrite orb_true_r in Hu.
  - unfold handlePong. rewrite Hl. case_match; [|done]. apply ident_publish. by apply ident_upd.
Qed.

Lemma ident_track env sid timeout s :
  ident_inv s → ident_inv (track_start tunnelPort env sid timeout s).
Proof.
  intros Hi. unfold track_start. destruct (s.(ss_table) !! sid) as [se|] eqn:Hl; [|done].
  case_match; [apply (ident_quiet (Close env sid s)); [done|by apply ident_close]|].
  case_decide; [by apply (ident_quiet s)|].
  apply (ident_quiet (set_sessions <[se.(se_clientID) := sid]> s)); [apply quiet_sync|].
  pose proof Hi as [Hok _ _]. assert (Hi' : idents s !! sid = Some (ident se)) by (unfold idents; by rewrite lookup_fmap, Hl).
  apply (ident_inv_on s); [done|apply table_on_refl|apply Hi| |by left].
  intros c sid'. cbn. intros [[<- <-]|[_ Hs]]%lookup_insert_Some; [right|by left].
  exists (ident se). split; [done|]. destruct (Hok _ _ Hi') as [Hb Ha]. by split.
Qed.

Lemma ident_step s s' :
  ident_inv s → sess_step ClientToken tunnelPort refuse parse_time s s' → ident_inv s'.
Proof.
  intros Hi [sid addr c isTemp Hnew _ Hc|env sid se msg Hl _|env sid se Hl _|sid se Hl _|env sid se timeout _ _ _|
    sid se _ _ _|sid se c _ _ _|now e q Hq|restoring e|key ln _ _].
  - set (se := NewSession addr c isTemp).
    assert (Hids : idents (set_track sid TWaiting (set_table <[sid := se]> s)) = <[sid := ident se]> (idents s))
      by (unfold idents; cbn; by rewrite fmap_insert).
    assert (Hnone : idents s !! sid = None) by (unfold idents; by rewrite lookup_fmap, Hnew).
    apply (ident_inv_on s); [done|rewrite Hids..|by left|by left].
    + intros sid' i Hl. exists i. rewrite lookup_insert_ne by congruence. by split.
    + intros sid' i [[_ <-]|[_ Hl]]%lookup_insert_Some; [|by eapply id_ok]. cbn. split; [done|by left].
  - by eapply ident_message.
  - apply ident_close. by apply ident_upd.
  - by apply ident_upd.
  - by apply ident_track.
  - by apply (ident_quiet s).
  - unfold track_end. case_decide; [by apply (ident_quiet s)|].
    apply (ident_inv_same s); [done..| |done]. intros c' sid'. cbn. by intros [_ ?]%lookup_delete_Some.
  - apply (ident_inv_same s); [done..|]. intros c sid. apply Apply_conn.
  - unfold deliver_proxy. eapply ident_quiet; [apply quiet_proxy_event|].
    apply (ident_inv_same s); [done..|]. intros c sid. cbn. unfold conn_of, both_step.
    destruct (ProxyPlugin.handleProxyEvent _ _ _). cbn. by rewrite applyProxyEvent_clients.
  - by apply (ident_quiet s).
Qed.

Lemma ident_reachable ip a s :
  sess_reachable ClientToken tunnelPort refuse parse_time ip a s → ident_inv s.
Proof.
  unfold sess_reachable. intros Hr. assert (Hn : ident_inv (sess_start ip a)).
  { split; intros *; cbn; unfold idents, conn_of; cbn; rewrite ?lookup_fmap, ?lookup_empty; done. }
  revert Hn. induction Hr as [s|s1 s2 s3 Hstep _ IH]; [done|]. intros Hn. by apply IH, (ident_step s1).
Qed.

(** C7. Whoever answers for a client id, in the server's table of sessions or
    as the connection of the store, either bears the id in its certificate or
    has presented the client token; and a session with a certificate that has
    not used "temp_register" answers for the name in it only. *)
Theorem session_identity (publicIP : string) (a : Manager * directory) (s : SessState) (c : string) (sid : nat) :
  sess_reachable ClientToken tunnelPort refuse parse_time publicIP a s →
  s.(ss_sessions) !! c = Some sid ∨ conn_of s.(ss_store) c = Some sid →
  ∃ se, s.(ss_table) !! sid = Some se ∧
    (c = se.(se_cert) ∨ se.(se_token) = Some ClientToken) ∧
    (se.(se_isTemp) = false → se.(se_cert) ≠ "" → se.(se_temp_used) = false → c = se.(se_cert)).
Proof.
  intros [_ Hs Hc]%ident_reachable Hor.
  assert (answers (idents s) c sid) as (i & Hi & Hb & Ha) by (destruct Hor; auto).
  unfold idents in Hi. rewrite lookup_fmap in Hi. destruct (_ !! sid) as [se|]; [|done].
  injection Hi as <-. exists se. split; [done|]. split; [exact Ha|]. intros ???. apply Hb. by split_and!.
Qed.
End identity.

(** ** Witness *)

#[local] Existing Instances Auth.ClientRecord_countable Auth.Voucher_countable toy_codec.
Definition example_env : step_env := mkEnv "ev" 1 2 3 WriteDone.
Definition example_auth : Manager * directory := (Init 0 ∅, ∅).
Definition temp_message (token clientID : string) : WSMessage :=
  mkWSMessage "temp_register" (DMap (<["token" := AString token]> $ <["client_id" := AString clientID]> ∅)).
Definition connected (addr c : string) (isTemp : bool) (sid : nat) (s : SessState) : SessState :=
  set_track sid TWaiting (set_table <[sid := NewSession addr c isTemp]> s).

(** A session with the certificate of "dev" that registers as "cam". *)
Definition example_sess : SessState :=
  handleMessage "t" (λ _, None) example_env 0 (temp_message "t" "cam")
    (connected "10.0.0.1:5" "dev" false 0 (sess_start "1.2.3.4" example_auth)).

Lemma session_identity_witness :
  conn_of example_sess.(ss_store) "cam" = Some 0 ∧
  ∃ se, example_sess.(ss_table) !! 0 = Some se ∧ ("cam" = se.(se_cert) ∨ se.(se_token) = Some "t") ∧
    (se.(se_isTemp) = false → se.(se_cert) ≠ "" → se.(se_temp_used) = false → "cam" = se.(se_cert)).
Proof.
  assert (conn_of example_sess.(ss_store) "cam" = Some 0) as Hc by (vm_compute; reflexivity).
  split; [exact Hc|]. refine (session_identity "t" 7001 (λ _, false) (λ _, None) "1.2.3.4" example_auth _ _ _ _ (or_intror Hc)).
  eapply rtc_l; [by apply (SConnect _ _ _ _ _ 0 "10.0.0.1:5" "dev" false)|].
  eapply rtc_l; [|apply rtc_refl].
  eapply (SMessage _ _ _ _ _ example_env 0 _ (temp_message "t" "cam")); [apply lookup_insert_eq|reflexivity].
Defined.
