(* ===== verification/Registration.v ===== *)
(** * Registrations, reconnections and tunnel loops (session/server.go)

    What a registration answers on every branch, what a client is sent when
    it is tracked, what a reconnection can lose, and how the tunnel loops and
    the two parsers of proxy keys relate to the proxy plugin. *)

From S2P Require Import Prelude Types Proto StateStore EventBus SnapshotStore Disk Auth ProxyPlugin Message Session.

(** ** The two parsers of proxy keys *)

Lemma parse_digits_prefix acc s z : parse_digits acc s = Some z → digit_prefix s = s.
Proof.
  revert acc. induction s as [|c s IH]; intros acc; cbn; [done|]. unfold is_digit.
  destruct (Ascii.is_nat c) as [d|] eqn:E; [|done]. intros H. cbn. f_equal. by eapply IH.
Qed.

Lemma parse_digits_head c s acc z :
  parse_digits acc (String c s) = Some z → c ≠ "-"%char ∧ c ≠ "+"%char ∧ skip_space (String c s) = String c s.
Proof.
  cbn. destruct (Ascii.is_nat c) as [d|] eqn:E; [|done]. intros _.
  split; [by intros ->|]. split; [by intros ->|]. apply decide_False. by intros [->|[->|[->|[->| ->]]]].
Qed.

Lemma Atoi_unsigned s z :
  parse_digits 0 s = Some z → s ≠ "" → Atoi s = if in_int64 z then Some z else None.
Proof.
  intros Hz Hs. destruct s as [|c s]; [done|]. destruct (parse_digits_head _ _ _ _ Hz) as (Hm & Hp & _).
  unfold Atoi. by rewrite decide_False, decide_False, Hz.
Qed.

Lemma Atoi_Sscanf s z : Atoi s = Some z → Sscanf_d (skip_space s) = z.
Proof.
  destruct s as [|c s]; [done|]. intros Ha. pose proof Ha as Hb. unfold Atoi in Hb. unfold Sscanf_d.
  case_decide as Hm; [subst; cbn [skip_space]|case_decide as Hp; [subst; cbn [skip_space]|]].
  - case_decide as Hs; [done|]. destruct (parse_digits 0 s) as [y|] eqn:E; [|done].
    rewrite decide_False by (by intros [?|[?|[?|[?|?]]]]). rewrite decide_True by done.
    rewrite (parse_digits_prefix _ _ _ E). change ("-" +:+ s) with (String "-" s). by rewrite Ha.
  - case_decide as Hs; [done|]. destruct (parse_digits 0 s) as [y|] eqn:E; [|done].
    rewrite decide_False by (by intros [?|[?|[?|[?|?]]]]). rewrite decide_False, decide_True by done.
    rewrite (parse_digits_prefix _ _ _ E), (Atoi_unsigned _ _ E Hs). cbn in Hb. by rewrite Hb.
  - destruct (parse_digits 0 (String c s)) as [y|] eqn:E; [|done].
    destruct (parse_digits_head _ _ _ _ E) as (_ & _ & ->). rewrite decide_False, decide_False by done.
    by rewrite (parse_digits_prefix _ _ _ E), Ha.
Qed.

Definition nonzero_port (cp : string * Z) : option (string * Z) := if decide (cp.2 = 0%Z) then None else Some cp.

(** The parser of the session server and the parser of the proxy plugin
    agree: what the first accepts the second accepts with the same result,
    unless the port is zero, which only the second refuses; and both read
    back every key the store makes for a client id without a colon. *)
Theorem key_parsers_agree (key c : string) (port : Z) :
  (Session.parseProxyResourceKey key = Some (c, port) →
    ProxyPlugin.parseProxyResourceKey key = nonzero_port (c, port)) ∧
  (no_char ":" c = true → c ≠ "" → (0 < port <= int64_max)%Z →
    Session.parseProxyResourceKey (proxyKey c port) = Some (c, port) ∧
    ProxyPlugin.parseProxyResourceKey (proxyKey c port) = Some (c, port)).
Proof.
  split.
  - unfold Session.parseProxyResourceKey, ProxyPlugin.parseProxyResourceKey. rewrite cutString_Cut.
    destruct (Cut key ":") as [[b a] ok]. case_match; [done|]. destruct (Atoi a) as [z|] eqn:Ha; [|done].
    intros [= -> ->]. by rewrite (Atoi_Sscanf _ _ Ha).
  - intros Hc Hne Hp. split; [|by apply parse_proxyKey]. unfold Session.parseProxyResourceKey.
    rewrite Cut_proxyKey by done. rewrite !bool_decide_eq_false_2 by (try apply pretty_ne; done || lia).
    cbn [negb orb]. by rewrite Atoi_pretty by lia.
Qed.

Lemma key_parsers_agree_witness :
  ProxyPlugin.parseProxyResourceKey "dev:+80" = Some ("dev", 80%Z) ∧
  ProxyPlugin.parseProxyResourceKey "dev:0" = None ∧
  Session.parseProxyResourceKey (proxyKey "dev" 8080) = Some ("dev", 8080%Z).
Proof.
  split; [exact (proj1 (key_parsers_agree "dev:+80" "dev" 80) eq_refl)|].
  split; [exact (proj1 (key_parsers_agree "dev:0" "dev" 0) eq_refl)|].
  apply (proj2 (key_parsers_agree "" "dev" 8080)); by vm_compute.
Defined.

(** ** The event and the connection of a registration *)

(** The entry of a registered client; [old] is the one before. *)
Definition registered_entry (now : Z) (c : string) (sid : nat) (addr host : string) (old : option clientEntry) : clientEntry :=
  mkClientEntry c (Some sid) addr (default now (ce_ConnectedAt <$> old)) host (default 0%Z (ce_Latency <$> old)).

(** A registration publishes the event of the client and stores its
    connection; the event is applied later, in any order with the
    connection.  For a client that is new or has a connection both orders
    give the same store: one entry, with the new connection, the address and
    the host of the event. *)
Theorem register_order_irrelevant (now : Z) (id : string) (ms : Z) (c addr host : string) (sid : nat)
    (st : StateStoreImpl) :
  (∀ e, st.(clients) !! c = Some e → is_Some e.(ce_Conn) ∧ e.(ce_ClientID) = c) →
  let ev := newClientEvent id ms c addr host in
  let st' := Apply now ev (SetClientConn now c (Some sid) st) in
  SetClientConn now c (Some sid) (Apply now ev st) = st' ∧
  st'.(clients) !! c = Some (registered_entry now c sid addr host (st.(clients) !! c)) ∧
  (∀ c', c' ≠ c → st'.(clients) !! c' = st.(clients) !! c').
Proof.
  intros Hc ev st'. subst ev st'.
  unfold Apply, newClientEvent, NewGenericEvent, client_key, ResourceTypeClient. cbn [ge_Resource rk_Type].
  rewrite !decide_True by done. unfold applyClientEvent. cbn [ge_EventType ge_Payload ge_Resource rk_Name].
  rewrite !decide_True by done. unfold SetClientConn, StateStore.set_clients. cbn [clients proxies relays portIndex desiredProxies desiredRelays tunnelTokens StateStore.publicIP]. rewrite !lookup_insert_eq.
  cbn [ce_Conn]. destruct (st.(clients) !! c) as [e|] eqn:E; cbn.
  - destruct (Hc e eq_refl) as [[y Hy] Hid]. rewrite Hy. cbn. rewrite Hid, !insert_insert_eq.
    split_and!; [done..|]. intros c' Hne. by rewrite lookup_insert_ne.
  - rewrite !insert_insert_eq. split_and!; [done..|].
    intros c' Hne. by rewrite lookup_insert_ne.
Qed.

Lemma register_order_irrelevant_witness :
  ((Apply 5 (newClientEvent "a" 5 "dev" "10.0.0.1:9" "h")
     (SetClientConn 5 "dev" (Some 7) (NewStateStore "1.2.3.4"))).(clients) !! "dev")
  = Some (mkClientEntry "dev" (Some 7) "10.0.0.1:9" 5 "h" 0).
Proof. apply (register_order_irrelevant 5 "a" 5 "dev" "10.0.0.1:9" "h" 7 (NewStateStore "1.2.3.4")). done. Defined.

Section answers.
Context `{!JsonCodec (gmap string ClientRecord)} `{!JsonCodec (gmap string Voucher)}.
Context (ClientToken : string) (tunnelPort : Z) (refuse : string → bool) (parse_time : string → option Z).

(** ** What a registration answers *)

(** The code of the error a registration is answered with, if any. *)
Definition reg_error (temp : bool) (se : Session) (token clientID : string) : option Z :=
  if decide (token = "" ∨ clientID = "") then Some 400%Z
  else if decide (token ≠ ClientToken) then Some 401%Z
  else if decide (temp = false ∧ se.(se_isTemp) = false ∧ se.(se_clientID) ≠ "" ∧ se.(se_clientID) ≠ clientID)
  then Some 403%Z else None.

Lemma WriteJSON_room msg se :
  length se.(se_send) < send_cap → WriteJSON msg se = (Ok tt, se_with_send (se.(se_send) ++ [msg]) se).
Proof. intros H. unfold WriteJSON. by rewrite decide_True. Qed.

Lemma Publish_room e (s : SessState) :
  length s.(ss_queue) < queue_cap → (Publish e s).(ss_queue) = s.(ss_queue) ++ [e].
Proof. intros H. unfold Publish. by rewrite decide_True. Qed.

(** A registration refused. *)
Definition refused (code : Z) (sid : nat) (se : Session) (s s' : SessState) : Prop :=
  ∃ m, s' = set_table (alter (se_with_send (se.(se_send) ++ [mkWSMessage "error" (DError (mkErrorData code m))])) sid) s.

(** A registration accepted. *)
Record registered_as (env : step_env) (sid : nat) (se : Session) (c host : string) (s s' : SessState) : Prop := mkRegistered {
  ra_session : ∃ se', s'.(ss_table) !! sid = Some se' ∧ se'.(se_clientID) = c ∧ se'.(se_registered) = true ∧
    se'.(se_send) = se.(se_send) ++ [mkWSMessage "registered" (DRegistered (mkRegisteredData c s.(ss_store).(publicIP)))];
  ra_others : ∀ sid', sid' ≠ sid → s'.(ss_table) !! sid' = s.(ss_table) !! sid';
  ra_conn : ∀ c', conn_of s'.(ss_store) c' = if decide (c' = c) then Some sid else conn_of s.(ss_store) c';
  ra_event : length s.(ss_queue) < queue_cap →
    s'.(ss_queue) = s.(ss_queue) ++ [newClientEvent env.(ev_id) env.(ev_ms) c se.(se_remoteAddr) host];
}.

Lemma refuse_outcome code m sid se (s : SessState) :
  s.(ss_table) !! sid = Some se → length se.(se_send) < send_cap →
  refused code sid se s (upd_session sid (sendError code m) s).
Proof.
  intros Hl Hroom. exists m. unfold upd_session. unfold set_table. f_equal. apply map_eq. intros i.
  destruct (decide (i = sid)) as [->|Hne]; [|by rewrite !lookup_alter_ne].
  rewrite !lookup_alter_eq, Hl. cbn. unfold sendError. by rewrite WriteJSON_room.
Qed.

Lemma accept_outcome env sid se c host ns (temp : bool) (s : SessState) :
  s.(ss_table) !! sid = Some se → length se.(se_send) < send_cap →
  registered_as env sid se c (if temp then "" else host) s
    (accept_registration env sid c host ns ClientToken temp s).
Proof.
  intros Hl Hroom. unfold accept_registration. rewrite Hl. split.
  - eexists. unfold upd_session. cbn [ss_table set_table set_auth set_store]. rewrite lookup_alter_eq.
    destruct (Publish_same (newClientEvent (ev_id env) (ev_ms env) c (se_remoteAddr se) (if temp then "" else host))
      (set_table <[sid:=se_with_id c host ClientToken temp se]> s)) as (_ & _ & E3 & E4 & _).
    rewrite E4. cbn [ss_table set_table]. rewrite lookup_insert_eq. cbn [fmap option_fmap option_map].
    split; [done|]. rewrite WriteJSON_room by done. cbn [se_with_flags snd se_with_send se_with_id se_clientID se_registered se_send].
    split_and!; try done. cbn [ss_store set_store set_auth]. by rewrite E3.
  - intros sid' Hne. unfold upd_session. cbn [ss_table set_table set_auth set_store].
    rewrite lookup_alter_ne by done. 
    match goal with |- context [ss_table (Publish ?e ?s1)] =>
      rewrite (proj1 (proj2 (proj2 (proj2 (Publish_same e s1))))) end.
    cbn. by rewrite lookup_insert_ne.
  - intros c'. cbn [ss_store upd_session set_table set_auth set_store]. rewrite SetClientConn_conn.
    match goal with |- context [ss_store (Publish ?e ?s1)] =>
      by rewrite (proj1 (proj2 (proj2 (Publish_same e s1)))) end.
  - intros Hq. cbn [ss_queue upd_session set_table set_auth set_store]. by rewrite Publish_room.
Qed.

(** What "register" and "temp_register" answer, on every branch: a missing
    field is refused with 400, a wrong token with 401, another id than the
    session's with 403 when the session is not temporary; a refusal sends the
    error and changes nothing else.  Otherwise the session has the id, its
    connection is the client's in the store, the event is published and the
    answer sent.  A "temp_register" is never refused with 403: a session with
    a certificate takes any other id with it. *)
Theorem registration_outcome (env : step_env) (sid : nat) (se : Session) (reg : gmap string any) (temp : bool)
    (s : SessState) :
  s.(ss_table) !! sid = Some se → length se.(se_send) < send_cap →
  let token := field_string reg "token" in
  let c := field_string reg "client_id" in
  let s' := handleMessage ClientToken parse_time env sid
              (mkWSMessage (if temp then "temp_register" else "register") (DMap reg)) s in
  match reg_error temp se token c with
  | Some code => refused code sid se s s'
  | None => registered_as env sid se c (if temp then "" else field_string reg "host") s s'
  end.
Proof.
  intros Hl Hroom token c s'. subst s'. unfold handleMessage. cbn [ws_Type ws_Data].
  assert ((if temp then handleTempRegister ClientToken env sid (DMap reg) s
           else handleRegister ClientToken env sid (DMap reg) s)
          = handleMessage ClientToken parse_time env sid
              (mkWSMessage (if temp then "temp_register" else "register") (DMap reg)) s) as Ht0.
  { by destruct temp. }
  unfold handleMessage in Ht0. cbn [ws_Type ws_Data] in Ht0. rewrite <-Ht0. clear Ht0.
  unfold reg_error, handleTempRegister, handleRegister. rewrite Hl. cbn [data_map]. fold token c.
  unfold ValidateClientToken. case_decide as Hf.
  { destruct temp; by apply refuse_outcome. }
  destruct (decide (token ≠ ClientToken)) as [Ht|Ht].
  { rewrite bool_decide_eq_false_2 by done. cbn [negb]. destruct temp; by apply refuse_outcome. }
  apply dec_stable in Ht. rewrite Ht. rewrite bool_decide_eq_true_2 by done. cbn [negb].
  destruct temp; [rewrite decide_False by (by intros [? _])|].
  - exact (accept_outcome env sid se c (se_host se) "temporary" true s Hl Hroom).
  - case_decide as Hb.
    + destruct Hb as (_ & -> & Hn & Hne). rewrite !bool_decide_eq_true_2 by done. by apply refuse_outcome.
    + destruct (negb _ && _ && _) eqn:E; [|exact (accept_outcome env sid se c _ _ false s Hl Hroom)].
      exfalso. apply Hb. apply andb_true_iff in E as [[E1 E2]%andb_true_iff E3].
      apply bool_decide_eq_true_1 in E2, E3. apply negb_true_iff in E1. done.
Qed.
End answers.

(** ** What a client is sent when it is tracked *)

Section tracked.
Context (tunnelPort : Z).

(** The client's session takes what is sent to it while there is room. *)
Definition reaches (c : string) (sid : nat) (se : Session) (s : SessState) : Prop :=
  s.(ss_sessions) !! c = Some sid ∧ s.(ss_table) !! sid = Some se.

Lemma SendToClient_reaches c sid se msg s :
  reaches c sid se s → length se.(se_send) < send_cap →
  let s' := (SendToClient c msg s).2 in
  reaches c sid (se_with_send (se.(se_send) ++ [msg]) se) s' ∧ s'.(ss_store) = s.(ss_store) ∧
  s'.(ss_prov) = s.(ss_prov) ∧ s'.(ss_active) = s.(ss_active) ∧ s'.(ss_running) = s.(ss_running).
Proof.
  intros [Hs Ht] Hroom s'. destruct (SendToClient_same c msg s) as (_ & E2 & E3 & E4 & E5 & E6).
  split; [|by split_and!]. split; [by subst s'; rewrite E2|]. subst s'. unfold SendToClient.
  rewrite Hs, Ht, WriteJSON_room by done. cbn. by rewrite lookup_insert_eq.
Qed.

Definition message_of (s : SessState) (p : ProxyInfo) : WSMessage :=
  proxy_message tunnelPort s p.(pi_RemotePort) p.(pi_LocalPort) p.(pi_LocalIP) p.(pi_Protocol) p.(pi_BindAddr).
Definition of_client (c : string) (l : list ProxyInfo) : list ProxyInfo := filter (λ p, p.(pi_ClientID) = c) l.

Lemma message_of_store s s' p : s'.(ss_store) = s.(ss_store) → message_of s' p = message_of s p.
Proof. intros E. unfold message_of, proxy_message. by rewrite E. Qed.

Lemma startTunnelLoop_reaches c sid se port s :
  reaches c sid se s →
  let s' := startTunnelLoop c port s in
  reaches c sid se s' ∧ s'.(ss_store) = s.(ss_store) ∧ s'.(ss_prov) = s.(ss_prov).
Proof. intros H. unfold startTunnelLoop. case_decide; [done|]. by case_match. Qed.

Lemma sync_proxies_send c sid l : ∀ s se,
  reaches c sid se s → length se.(se_send) + length (of_client c l) <= send_cap →
  let s' := foldl (sync_proxy tunnelPort c) s l in
  reaches c sid (se_with_send (se.(se_send) ++ (message_of s <$> of_client c l)) se) s' ∧
  s'.(ss_store) = s.(ss_store) ∧ s'.(ss_prov) = s.(ss_prov).
Proof.
  induction l as [|p l IH]; intros s se Hr Hlen.
  { cbn. rewrite app_nil_r. by destruct se. }
  cbn [foldl]. unfold of_client in *. rewrite filter_cons in Hlen |- *. unfold sync_proxy at 2 4 6.
  case_decide as Hc; [|by apply IH].
  cbn [length fmap list_fmap] in Hlen |- *.
  destruct (SendToClient_reaches c sid se (message_of s p) s Hr ltac:(lia)) as (Hr1 & E1 & E2 & _).
  rewrite Hc. destruct (startTunnelLoop_reaches _ _ _ p.(pi_RemotePort) _ Hr1) as (Hr2 & E3 & E4).
  destruct (IH _ _ Hr2) as (Hr3 & E5 & E6).
  { cbn. rewrite length_app. cbn. lia. }
  cbn [se_with_send se_send] in Hr3. rewrite <-app_assoc in Hr3.
  rewrite E3 in E5. rewrite E1 in E5. rewrite E4 in E6. rewrite E2 in E6. split; [|done].
  erewrite (list_fmap_ext _ (message_of s)) in Hr3; [exact Hr3|].
  intros _ p' _. apply message_of_store. by rewrite E3.
Qed.

Definition relay_of (c publicIP : string) (r : RelaySession) : WSMessage :=
  if decide (r.(rs_TargetClient) = c) then relay_signal "relay_signal" "target" r.(rs_SourceClient) publicIP r
  else relay_signal "relay_signal" "source" r.(rs_TargetClient) publicIP r.
Definition ends_at (c : string) (l : list RelaySession) : list RelaySession :=
  filter (λ r, ¬ (r.(rs_SourceClient) ≠ c ∧ r.(rs_TargetClient) ≠ c)) l.

Lemma sync_relays_send c sid l : ∀ s se,
  reaches c sid se s → length se.(se_send) + length (ends_at c l) <= send_cap →
  let s' := foldl (sync_relay c) s l in
  reaches c sid (se_with_send (se.(se_send) ++ (relay_of c s.(ss_store).(publicIP) <$> ends_at c l)) se) s'.
Proof.
  induction l as [|r l IH]; intros s se Hr Hlen.
  { cbn. rewrite app_nil_r. by destruct se. }
  cbn [foldl]. unfold ends_at in *. rewrite filter_cons in Hlen |- *. unfold sync_relay at 2.
  destruct (decide (r.(rs_SourceClient) ≠ c ∧ r.(rs_TargetClient) ≠ c)) as [Hd|Hd].
  { rewrite decide_False in Hlen |- * by tauto. by apply IH. }
  rewrite decide_True in Hlen |- * by done. cbn [length fmap list_fmap] in Hlen |- *.
  assert (∃ role peer, (if decide (r.(rs_TargetClient) = c) then ("target", r.(rs_SourceClient))
                         else ("source", r.(rs_TargetClient))) = (role, peer) ∧
    relay_of c s.(ss_store).(publicIP) r = relay_signal "relay_signal" role peer s.(ss_store).(publicIP) r)
    as (role & peer & E & Em) by (unfold relay_of; case_decide; eauto).
  rewrite E. rewrite Em.
  destruct (SendToClient_reaches c sid se (relay_signal "relay_signal" role peer s.(ss_store).(publicIP) r) s Hr
    ltac:(lia)) as (Hr1 & E1 & _).
  specialize (IH _ _ Hr1). cbn [se_with_send se_send] in IH. rewrite length_app in IH. cbn [length] in IH.
  specialize (IH ltac:(lia)). rewrite <-app_assoc, E1 in IH. exact IH.
Qed.

(** The loop of a key runs, or it can still be started. *)
Definition runs_or_can (key : string) (ln : ListenerId) (later : Prop) (s : SessState) : Prop :=
  s.(ss_running) !! key = Some ln ∨ ((key ∉ ss_active s) ∧ later).

Lemma startTunnelLoop_other c port key ln later s :
  key ≠ proxyKey c port → runs_or_can key ln later s → runs_or_can key ln later (startTunnelLoop c port s).
Proof.
  intros Hne Hr. unfold startTunnelLoop. case_decide; [done|].
  destruct Hr as [Hr|[Hr Hl]]; case_match; cbn;
    [left; cbn; by rewrite lookup_insert_ne|by left|right; split; [set_solver|done]..].
Qed.

Lemma startTunnelLoop_starts c port ln later s :
  GetListener c port s.(ss_prov) = Some ln → runs_or_can (proxyKey c port) ln later s →
  (startTunnelLoop c port s).(ss_running) !! proxyKey c port = Some ln.
Proof.
  intros Hg Hr. unfold startTunnelLoop. case_decide as Ha.
  - destruct Hr as [Hr|[Hr _]]; [done|by destruct Hr].
  - rewrite Hg. cbn. by rewrite lookup_insert_eq.
Qed.

Lemma sync_proxies_run c key ln l : ∀ s,
  s.(ss_prov).(listeners) !! key = Some ln →
  runs_or_can key ln (∃ p, p ∈ of_client c l ∧ key = proxyKey c p.(pi_RemotePort)) s →
  (foldl (sync_proxy tunnelPort c) s l).(ss_running) !! key = Some ln.
Proof.
  induction l as [|p l IH]; intros s Hg Hr.
  { destruct Hr as [Hr|(_ & p & Hp & _)]; [done|]. by apply not_elem_of_nil in Hp. }
  cbn [foldl]. unfold of_client in *. rewrite filter_cons in Hr. unfold sync_proxy at 2.
  case_decide as Hc; [|by apply IH]. rewrite Hc.
  match goal with |- context [startTunnelLoop c _ ?s1] => set (s1' := s1) end.
  destruct (SendToClient_same c (message_of s p) s) as (_ & _ & _ & E4 & E5 & E6).
  fold (message_of s p) in s1'. assert (E4' : s1'.(ss_active) = s.(ss_active)) by exact E4.
  assert (E5' : s1'.(ss_running) = s.(ss_running)) by exact E5.
  assert (E6' : s1'.(ss_prov) = s.(ss_prov)) by exact E6.
  assert (Hprov : (startTunnelLoop c p.(pi_RemotePort) s1').(ss_prov) = s.(ss_prov)).
  { unfold startTunnelLoop. case_decide; [done|]. by case_match. }
  apply IH; [by rewrite Hprov|]. destruct (decide (key = proxyKey c p.(pi_RemotePort))) as [->|Hne].
  - left. apply (startTunnelLoop_starts _ _ _ True); [unfold GetListener; by rewrite E6'|].
    unfold runs_or_can. rewrite E4', E5'. destruct Hr as [?|[? _]]; [by left|by right].
  - apply startTunnelLoop_other; [done|]. unfold runs_or_can. rewrite E4', E5'.
    destruct Hr as [?|[Ha (p' & Hp & Hk)]]; [by left|right; split; [done|]].
    exists p'. split; [|done]. apply elem_of_cons in Hp as [->|Hp]; [by destruct Hne|done].
Qed.

Lemma sync_relays_same c l : ∀ s, (foldl (sync_relay c) s l).(ss_running) = s.(ss_running).
Proof.
  induction l as [|r l IH]; intros s; [done|]. cbn [foldl]. rewrite IH. unfold sync_relay.
  case_decide; [done|]. case_match. apply SendToClient_same.
Qed.

(** A session with an id is tracked: it becomes the session of the client,
    and is sent the configuration of each proxy of the client in the store and
    the signal of each relay that ends at it, in that order, after what was
    sent before; and for each of the proxies whose listener is open the tunnel
    loop runs, unless the key was marked before. *)
Theorem tracked_client_synced (env : step_env) (sid : nat) (timeout : bool) (s : SessState) (se : Session) :
  let c := se.(se_clientID) in
  let own := of_client c (ListProxies s.(ss_store)) in
  let rel := ends_at c (ListRelaySessions s.(ss_store)) in
  s.(ss_table) !! sid = Some se → c ≠ "" → length se.(se_send) + length own + length rel <= send_cap →
  let s' := track_start tunnelPort env sid timeout s in
  s'.(ss_sessions) !! c = Some sid ∧
  se_send <$> (s'.(ss_table) !! sid) =
    Some (se.(se_send) ++ (message_of s <$> own) ++ (relay_of c s.(ss_store).(publicIP) <$> rel)) ∧
  ∀ p ln, p ∈ own → GetListener c p.(pi_RemotePort) s.(ss_prov) = Some ln →
    proxyKey c p.(pi_RemotePort) ∉ ss_active s →
    s'.(ss_running) !! proxyKey c p.(pi_RemotePort) = Some ln.
Proof.
  intros c own rel Hl Hne Hlen s'. subst s'. unfold track_start. rewrite Hl. fold c.
  rewrite bool_decide_eq_false_2, andb_false_r, decide_False by done.
  set (s1 := set_sessions <[c := sid]> s).
  assert (reaches c sid se s1) as Hr1 by (split; [apply lookup_insert_eq|done]).
  destruct (sync_proxies_send c sid (ListProxies s.(ss_store)) s1 se Hr1) as (Hr2 & E2 & E3).
  { fold own. lia. }
  fold own in Hr2. change (foldl _ s1 _) with (syncClientProxies tunnelPort c s1) in Hr2, E2, E3.
  set (s2 := syncClientProxies tunnelPort c s1) in *.
  pose proof (sync_relays_send c sid (ListRelaySessions s2.(ss_store)) s2 _ Hr2) as Hr3.
  rewrite E2 in Hr3. cbn zeta in Hr3. destruct Hr3 as [H3 H4].
  { change (ss_store s1) with (ss_store s). fold rel. cbn. rewrite length_app, length_fmap. lia. }
  unfold syncClientRelays at 1 2. cbn [ss_sessions ss_table ss_running set_track]. rewrite E2.
  split; [exact H3|]. split; [rewrite H4; cbn; by rewrite <-app_assoc|].
  intros p ln Hp Hln Ha. unfold syncClientRelays. rewrite sync_relays_same.
  apply sync_proxies_run; [exact Hln|]. right. split; [exact Ha|]. by exists p.
Qed.
End tracked.

Section races.
Context `{!JsonCodec (gmap string ClientRecord)} `{!JsonCodec (gmap string Voucher)}.
Context (ClientToken : string) (tunnelPort : Z) (refuse : string → bool) (parse_time : string → option Z).
Abbreviation step := (sess_step ClientToken tunnelPort refuse parse_time).

(** ** Reconnections *)

(** Neither the table of sessions nor the store knows the client. *)
Definition unknown (c : string) (s : SessState) : Prop :=
  s.(ss_sessions) !! c = None ∧ s.(ss_store).(clients) !! c = None.

(** A client that connects again before its old session has ended: when
    the old one ends, its DELETED event and the end of its tracking remove
    the client from the store and from the table of sessions, although the
    new session goes on; nothing can be sent to the client any more. *)
Theorem old_session_removes_client (s : SessState) (c : string) (old new : nat) (se_old se_new : Session) :
  old ≠ new → c ≠ "" →
  s.(ss_table) !! old = Some se_old → se_old.(se_clientID) = c → se_old.(se_done) = false →
  se_old.(se_reading) = true → s.(ss_track) !! old = Some (TTracked c) →
  s.(ss_table) !! new = Some se_new → se_new.(se_clientID) = c → s.(ss_queue) = [] →
  ∃ s', rtc step s s' ∧ s'.(ss_table) !! new = Some se_new ∧ unknown c s' ∧
    (∀ msg, (SendToClient c msg s').1 = Err ("client not found: " +:+ c)) ∧
    (∀ write cmd, SendCommand write s'.(ss_store) c cmd = Err ("client not found: " +:+ c)).
Proof.
  intros Hne Hc Hold Hid Hd Hr Htr Hnew Hnid Hq.
  set (env := mkEnv "" 0 0 0 WriteDone).
  set (s1 := Close env old (upd_session old (λ se, se_with_flags se.(se_done) se.(se_registered) false se) s)).
  assert (step s s1) as Hs1 by (by eapply SHangup).
  set (ev := newClientDeletedEvent "" 0 c).
  assert (s1.(ss_queue) = [ev] ∧ s1.(ss_track) = s.(ss_track) ∧ s1.(ss_table) !! new = Some se_new ∧
    (∃ se, s1.(ss_table) !! old = Some se ∧ se.(se_done) = true)) as (Eq & Et & En & se1 & Eo & Ed).
  { subst s1. unfold Close, upd_session. cbn [ss_table set_table]. rewrite lookup_alter_eq, Hold.
    cbn [fmap option_fmap option_map se_with_flags se_done se_clientID]. rewrite Hd, Hid.
    rewrite decide_False by done. unfold Publish. cbn [ss_queue set_table]. rewrite Hq.
    rewrite decide_True by (cbn; unfold queue_cap; lia). cbn [ss_queue ss_track ss_table set_queue set_table].
    split_and!; [done|done|by rewrite !lookup_alter_ne|].
    rewrite !lookup_alter_eq, Hold. cbn. by eexists. }
  set (s2 := track_end old c s1).
  assert (step s1 s2) as Hs2 by (eapply STrackEnd; [by rewrite Et|done|done]).
  set (s3 := set_store (Apply 0 ev s2.(ss_store)) (set_queue [] s2)).
  assert (step s2 s3) as Hs3.
  { apply SDeliver. subst s2. unfold track_end. by rewrite decide_False. }
  assert (s3.(ss_sessions) !! c = None) as E1.
  { subst s3 s2. unfold track_end. rewrite decide_False by done. cbn. by rewrite lookup_delete_eq. }
  assert (s3.(ss_store).(clients) !! c = None) as E2.
  { assert (∀ st, (Apply 0 ev st).(clients) = delete c st.(clients)) as Hdel by reflexivity.
    subst s3. cbn [ss_store set_store]. by rewrite Hdel, lookup_delete_eq. }
  exists s3. split; [by eapply rtc_l, rtc_l, rtc_once; eauto|]. split_and!.
  - subst s3 s2. unfold track_end. by rewrite decide_False.
  - by split.
  - intros msg. unfold SendToClient. by rewrite E1.
  - intros w cmd. unfold SendCommand. by rewrite E2.
Qed.

(** ** Tunnel loops *)

(** A key is marked and its loop does not run. *)
Definition dead (key : string) (s : SessState) : Prop :=
  key ∈ s.(ss_active) ∧ s.(ss_running) !! key = None.

Definition loops_of (s : SessState) : gset string * gmap string ListenerId := (s.(ss_active), s.(ss_running)).

Lemma dead_loops key s s' : loops_of s' = loops_of s → dead key s → dead key s'.
Proof. unfold loops_of, dead. by intros [= -> ->]. Qed.

Lemma dead_start key c port s : dead key s → dead key (startTunnelLoop c port s).
Proof.
  intros [Ha Hr]. unfold startTunnelLoop. case_decide as Hin; [done|].
  assert (key ≠ proxyKey c port) by (by intros ->).
  case_match; (split; [set_solver|]); cbn; [by rewrite lookup_insert_ne|done].
Qed.

Lemma loops_Publish e s : loops_of (Publish e s) = loops_of s.
Proof. unfold Publish. by case_decide. Qed.
Lemma loops_Send c msg s : loops_of (SendToClient c msg s).2 = loops_of s.
Proof. unfold SendToClient. repeat case_match; try done. Qed.
Lemma loops_Close env sid s : loops_of (Close env sid s) = loops_of s.
Proof. unfold Close. repeat case_match; try done. by rewrite loops_Publish. Qed.

Lemma dead_foldl {A} key (f : SessState → A → SessState) l s :
  (∀ s x, dead key s → dead key (f s x)) → dead key s → dead key (foldl f s l).
Proof. intros Hf. revert s. induction l as [|x l IH]; intros s Hd; [done|]. cbn. apply IH. by apply Hf. Qed.

Lemma loops_message env sid msg s :
  loops_of (handleMessage ClientToken parse_time env sid msg s) = loops_of s.
Proof.
  assert (∀ c host ns tok temp, loops_of (accept_registration env sid c host ns tok temp s) = loops_of s) as Hacc.
  { intros. unfold accept_registration. case_match; [|done].
    unfold upd_session, set_table, set_auth, set_store, loops_of. cbn [ss_active ss_running].
    change (ss_active ?x, ss_running ?x) with (loops_of x). by rewrite loops_Publish. }
  unfold handleMessage, handleRegister, handleTempRegister, handlePong.
  repeat case_match; try done; try apply Hacc. by rewrite loops_Publish.
Qed.

Lemma dead_step key s s' : step s s' → dead key s → dead key s'.
Proof.
  intros [sid addr c isTemp Hnew _ Hc|env sid se msg Hl _|env sid se Hl _|sid se Hl _|env sid se timeout _ _ _|
    sid se _ _ _|sid se c _ _ _|now e q Hq|restoring e|k ln Hrun _] Hd.
  - done.
  - eapply dead_loops; [apply loops_message|done].
  - eapply dead_loops; [apply loops_Close|done].
  - done.
  - unfold track_start. case_match; [|done]. case_match.
    { eapply dead_loops; [exact (loops_Close env sid s)|done]. }
    case_decide; [done|].
    assert (dead key (syncClientRelays (se_clientID s0) (syncClientProxies tunnelPort (se_clientID s0)
      (set_sessions <[se_clientID s0:=sid]> s)))) as Hsync; [|done].
    apply (dead_foldl key (sync_relay _)); [|apply (dead_foldl key (sync_proxy _ _)); [|done]].
    + intros s1 r Hd1. unfold sync_relay. case_decide; [done|]. case_match.
      eapply dead_loops; [apply loops_Send|done].
    + intros s1 p Hd1. unfold sync_proxy. case_decide; [|done].
      apply dead_start. eapply dead_loops; [apply loops_Send|done].
  - done.
  - unfold track_end. by case_decide.
  - done.
  - unfold deliver_proxy. set (s1 := set_prov _ _ _). assert (dead key s1) as Hd1 by done.
    unfold handleProxyEvent. case_decide; [|case_decide; [|done]].
    + unfold handleProxyAdded. case_match; [|done]. case_decide; [done|]. apply dead_start.
      case_match; [done|]. eapply dead_loops; [apply loops_Send|done].
    + unfold handleProxyDeleted. repeat case_match; try done.
      eapply dead_loops; [apply loops_Send|done].
  - destruct Hd as [Ha Hr]. assert (k ≠ key) by congruence. split; cbn; [set_solver|by rewrite lookup_delete_ne].
Qed.

(** A loop that is asked for when the plugin has no listener for the proxy
    never runs again: the key stays marked, and every later request, also
    after the proxy is deleted and created with success, finds it marked. *)
Theorem dead_loop_stays (s s' : SessState) (c : string) (port : Z) :
  GetListener c port s.(ss_prov) = None → s.(ss_running) !! proxyKey c port = None →
  rtc step (startTunnelLoop c port s) s' → dead (proxyKey c port) s'.
Proof.
  intros Hg Hr Hsteps. assert (dead (proxyKey c port) (startTunnelLoop c port s)) as Hd.
  { unfold startTunnelLoop. case_decide; [done|]. rewrite Hg. split; [set_solver|done]. }
  revert Hd. induction Hsteps as [s1|s1 s2 s3 Hs _ IH]; intros Hd; [done|].
  apply IH. by eapply dead_step.
Qed.
End races.

(** ** Witnesses *)

#[local] Existing Instances Auth.ClientRecord_countable Auth.Voucher_countable toy_codec.

Definition dev_session : SessState :=
  connected "10.0.0.1:5" "dev" false 0 (sess_start "1.2.3.4" example_auth).
Definition reg_map (token clientID : string) : gmap string any :=
  <["token" := AString token]> $ <["client_id" := AString clientID]> ∅.

Lemma registration_outcome_witness :
  reg_error "t" false (NewSession "10.0.0.1:5" "dev" false) "t" "cam" = Some 403%Z ∧
  refused 403 0 (NewSession "10.0.0.1:5" "dev" false) dev_session
    (handleMessage "t" (λ _, None) example_env 0 (mkWSMessage "register" (DMap (reg_map "t" "cam"))) dev_session) ∧
  registered_as example_env 0 (NewSession "10.0.0.1:5" "dev" false) "cam" "" dev_session
    (handleMessage "t" (λ _, None) example_env 0 (mkWSMessage "temp_register" (DMap (reg_map "t" "cam"))) dev_session).
Proof.
  split; [vm_compute; reflexivity|]. split.
  - exact (registration_outcome "t" (λ _, None) example_env 0 _ (reg_map "t" "cam") false dev_session
             (lookup_insert_eq _ _ _) ltac:(vm_compute; lia)).
  - exact (registration_outcome "t" (λ _, None) example_env 0 _ (reg_map "t" "cam") true dev_session
             (lookup_insert_eq _ _ _) ltac:(vm_compute; lia)).
Defined.

(** "dev" has a proxy with a listener and one the plugin could not open. *)
Definition proxied : SessState :=
  deliver_proxy 7001 (λ addr, bool_decide (addr = "0.0.0.0:81")) false (added_event (example_proxy "dev" 81 ""))
    (deliver_proxy 7001 (λ addr, bool_decide (addr = "0.0.0.0:81")) false (added_event (example_proxy "dev" 8080 "")) dev_session).
(** The same, before any tunnel loop was asked for. *)
Definition proxied_fresh : SessState := set_loops ∅ ∅ proxied.

Lemma tracked_client_synced_witness :
  let s' := track_start 7001 example_env 0 true proxied_fresh in
  s'.(ss_sessions) !! "dev" = Some 0 ∧
  (length ∘ se_send <$> (s'.(ss_table) !! 0)) = Some 2 ∧
  s'.(ss_running) !! proxyKey "dev" 8080 = Some 0.
Proof.
  destruct (tracked_client_synced 7001 example_env 0 true proxied_fresh (NewSession "10.0.0.1:5" "dev" false))
    as (H1 & H2 & H3); [vm_compute; reflexivity|discriminate|vm_compute; lia|].
  split; [exact H1|]. split; [vm_compute; reflexivity|].
  apply (H3 (mkProxyInfo "dev" 8080 22 "127.0.0.1" "tcp" "" "1.2.3.4:8080")); [|vm_compute; reflexivity|].
  - apply list_elem_of_In. vm_compute. tauto.
  - apply not_elem_of_empty.
Defined.

(** The proxy whose listener failed is created with success later. *)
Definition proxied_again : SessState :=
  deliver_proxy 7001 (λ _, false) false (added_event (example_proxy "dev" 81 "")) (startTunnelLoop "dev" 81 proxied_fresh).

Lemma dead_loop_stays_witness :
  GetListener "dev" 81 proxied_again.(ss_prov) = Some 1 ∧ dead (proxyKey "dev" 81) proxied_again.
Proof.
  split; [vm_compute; reflexivity|].
  apply (dead_loop_stays "t" 7001 (λ _, false) (λ _, None) proxied_fresh _ "dev" 81); [vm_compute; reflexivity..|].
  apply rtc_once. apply SProxyEvent.
Defined.

(** "cam" is tracked on session 0 and connects again as session 1. *)
Definition reconnected : SessState :=
  let register sid := handleMessage "t" (λ _, None) example_env sid (temp_message "t" "cam") in
  let s1 := track_start 7001 example_env 0 false (register 0 (connected "10.0.0.1:5" "" true 0 (sess_start "1.2.3.4" example_auth))) in
  let s2 := track_start 7001 example_env 1 false (register 1 (connected "10.0.0.1:6" "" true 1 s1)) in
  set_queue [] s2.

Lemma old_session_removes_client_witness :
  reconnected.(ss_sessions) !! "cam" = Some 1 ∧
  ∃ s', rtc (sess_step "t" 7001 (λ _, false) (λ _, None)) reconnected s' ∧
    s'.(ss_table) !! 1 = reconnected.(ss_table) !! 1 ∧ s'.(ss_sessions) !! "cam" = None.
Proof.
  split; [vm_compute; reflexivity|].
  set (of_sid i := default (NewSession "" "" false) (reconnected.(ss_table) !! i)).
  destruct (old_session_removes_client "t" 7001 (λ _, false) (λ _, None) reconnected "cam" 0 1 (of_sid 0) (of_sid 1))
    as (s' & Hs & Ht & [Hn _] & _); try discriminate; try (vm_compute; reflexivity).
  exists s'. split; [exact Hs|]. split; [|exact Hn]. rewrite Ht. vm_compute. reflexivity.
Defined.
