(* ===== verification/Credentials.v ===== *)
(** * Certificates and tokens (auth/auth.go, main.go, session/server.go)

    The certificate authority and the secret of the tokens with their files,
    the tokens of the control API, and what the TLS configuration of the
    server makes of the certificate a client presents.  The certificate and
    token libraries are records of the functions the code calls, with what it
    relies on as classes of laws; keys and random bytes drawn, the clock and
    what a write does to its file are arguments. *)

From S2P Require Import Prelude Types Disk Auth Session.

(** ** Libraries *)

(** The template of the authority's own certificate. *)
Record CATemplate := mkCATemplate {
  ct_SerialNumber : Z;
  ct_CommonName : string;
  ct_Organization : list string;
  ct_NotBefore : Z;
  ct_NotAfter : Z;
  ct_KeyUsage : Z;
  ct_IsCA : bool;
  ct_MaxPathLen : Z;
}.

Record X509 := mkX509 {
  xc_cert : Type;
  xc_key : Type;
  xc_pem_decode : bytes → option bytes;
  xc_pem_encode : string → bytes → bytes;
  xc_ParseCertificate : bytes → Res xc_cert;
  xc_ParseECPrivateKey : bytes → Res xc_key;
  xc_MarshalECPrivateKey : xc_key → Res bytes;
  (* a certificate signed by itself *)
  xc_CreateCertificate : CATemplate → xc_key → Res bytes;
  xc_AppendCertsFromPEM : bytes → option (list xc_cert);
  xc_CommonName : xc_cert → string;
}.

Class X509Laws (x : X509) := {
  pem_roundtrip ty b : x.(xc_pem_decode) (x.(xc_pem_encode) ty b) = Some b;
  key_roundtrip k der : x.(xc_MarshalECPrivateKey) k = Ok der → x.(xc_ParseECPrivateKey) der = Ok k;
}.

(** Times are in seconds, the precision of a token. *)
Record JWTClaims := mkJWTClaims { jc_APIKey : string; jc_ExpiresAt : Z; jc_IssuedAt : Z }.
Record JWT := mkJWT {
  jw_SignedString : bytes → JWTClaims → Res string;
  jw_ParseWithClaims : bytes → Z → string → option JWTClaims;
}.

(** A token signed with the secret is valid until it expires. *)
Class JWTLaws (j : JWT) := {
  jwt_expires secret claims t now : j.(jw_SignedString) secret claims = Ok t →
    is_Some (j.(jw_ParseWithClaims) secret now t) ↔ (now < claims.(jc_ExpiresAt))%Z;
}.

(** ** The certificate authority *)

Definition fileExists (name : string) (d : directory) : bool := bool_decide (is_Some (d !! name)).
Definition ReadFile (name : string) (d : directory) : Res bytes :=
  match d !! name with Some data => Ok data | None => Err ("open " +:+ name) end.

Definition ca_cert_file : string := "ca.crt".
Definition ca_key_file : string := "ca.key".
Definition jwt_file : string := "jwt.secret".

(** [x509.KeyUsageCertSign | x509.KeyUsageCRLSign], ten years. *)
Definition ca_template (now : Z) : CATemplate :=
  mkCATemplate 1 "Aether CA" ["Aether"] now (now + 365 * 24 * 3600 * 10) (Z.lor 32 64) true 1.

Section authority.
Context (x : X509).
Definition CA : Type := x.(xc_cert) * x.(xc_key).

Definition loadCA (d : directory) : Res CA :=
  certPEM ← ReadFile ca_cert_file d;
  match x.(xc_pem_decode) certPEM with
  | None => Err "invalid CA cert PEM"
  | Some block =>
      cert ← x.(xc_ParseCertificate) block;
      keyPEM ← ReadFile ca_key_file d;
      match x.(xc_pem_decode) keyPEM with
      | None => Err "invalid CA key PEM"
      | Some keyBlock => key ← x.(xc_ParseECPrivateKey) keyBlock; Ok (cert, key)
      end
  end.

(** The certificate is written first, with [w0], then the key, with [w1]. *)
Definition generateCA (newKey : Res x.(xc_key)) (now : Z) (w0 w1 : WriteFault) (d : directory) :
    Res CA * directory :=
  match (key ← newKey; certDER ← x.(xc_CreateCertificate) (ca_template now) key;
         cert ← x.(xc_ParseCertificate) certDER; Ok (key, certDER, cert)) with
  | Err e => (Err e, d)
  | Ok (key, certDER, cert) =>
      match WriteFile ca_cert_file (x.(xc_pem_encode) "CERTIFICATE" certDER) w0 d with
      | (Err e, d1) => (Err ("save CA cert: " +:+ e), d1)
      | (Ok _, d1) =>
          match x.(xc_MarshalECPrivateKey) key with
          | Err e => (Err e, d1)
          | Ok keyDER =>
              match WriteFile ca_key_file (x.(xc_pem_encode) "EC PRIVATE KEY" keyDER) w1 d1 with
              | (Err e, d2) => (Err ("save CA key: " +:+ e), d2)
              | (Ok _, d2) => (Ok (cert, key), d2)
              end
          end
      end
  end.

Definition initCA (newKey : Res x.(xc_key)) (now : Z) (w0 w1 : WriteFault) (d : directory) : Res CA * directory :=
  if fileExists ca_cert_file d && fileExists ca_key_file d then (loadCA d, d)
  else generateCA newKey now w0 w1 d.

Definition GetCA (ca : CA) : x.(xc_cert) := ca.1.
End authority.

(** ** Tokens *)

Definition initJWT (rand : Res bytes) (w : WriteFault) (d : directory) : Res bytes * directory :=
  match ReadFile jwt_file d with
  | Ok data => (Ok data, d)
  | Err _ =>
      match rand with
      | Err e => (Err ("generate JWT secret: " +:+ e), d)
      | Ok secret =>
          match WriteFile jwt_file secret w d with
          | (Err e, d') => (Err ("save JWT secret: " +:+ e), d')
          | (Ok _, d') => (Ok secret, d')
          end
      end
  end.

(** The clock is read for each of the two times. *)
Definition GenerateToken (j : JWT) (jwtSecret : bytes) (apiKey : string) (now now' : Z) : Res string :=
  j.(jw_SignedString) jwtSecret (mkJWTClaims apiKey (now + 24 * 3600) now').
Definition ValidateToken (j : JWT) (jwtSecret : bytes) (now : Z) (tokenString : string) : option JWTClaims :=
  j.(jw_ParseWithClaims) jwtSecret now tokenString.

(** ** [Init] *)

Section start.
Context (x : X509).
Context `{!JsonCodec (gmap string ClientRecord)} `{!JsonCodec (gmap string Voucher)}.

(** What one start of the program draws and meets: the key, the random bytes,
    the clock and the results of the three writes. *)
Record start_env := mkStartEnv {
  sv_key : Res x.(xc_key);
  sv_rand : Res bytes;
  sv_now : Z;
  sv_cert_write : WriteFault;
  sv_key_write : WriteFault;
  sv_secret_write : WriteFault;
}.

(** The registry part is [Auth.Init]. *)
Definition Init (env : start_env) (d : directory) : Res (CA x * bytes * Manager) * directory :=
  match initCA x env.(sv_key) env.(sv_now) env.(sv_cert_write) env.(sv_key_write) d with
  | (Err e, d1) => (Err ("init CA: " +:+ e), d1)
  | (Ok ca, d1) =>
      match initJWT env.(sv_rand) env.(sv_secret_write) d1 with
      | (Err e, d2) => (Err ("init JWT: " +:+ e), d2)
      | (Ok secret, d2) => (Ok (ca, secret, Auth.Init env.(sv_now) d2), d2)
      end
  end.
End start.
Arguments sv_key {x}.
Arguments sv_rand {x}.
Arguments sv_now {x}.
Arguments sv_cert_write {x}.
Arguments sv_key_write {x}.
Arguments sv_secret_write {x}.

(** ** TLS *)

(** [tls.ClientAuthType] *)
Inductive ClientAuthType :=
| NoClientCert | RequestClientCert | RequireAnyClientCert | VerifyClientCertIfGiven | RequireAndVerifyClientCert.

Record tls_Config (Cert : Type) := mkTLSConfig { tc_ClientCAs : option (list Cert); tc_ClientAuth : ClientAuthType }.
Arguments mkTLSConfig {Cert}.
Arguments tc_ClientCAs {Cert}.
Arguments tc_ClientAuth {Cert}.

(** What the handshake of [crypto/tls] makes of the certificates a client
    sends: [PeerCertificates], or the refusal.  [verify] checks a chain
    against the authorities of the configuration. *)
Definition tls_handshake {Cert} (verify : option (list Cert) → list Cert → bool) (cfg : tls_Config Cert)
    (sent : list Cert) : Res (list Cert) :=
  let verified := if verify cfg.(tc_ClientCAs) sent then Ok sent else Err "certificate verify failed" in
  match cfg.(tc_ClientAuth), sent with
  | NoClientCert, _ => Ok []
  | RequestClientCert, _ => Ok sent
  | RequireAnyClientCert, [] | RequireAndVerifyClientCert, [] => Err "client didn't provide a certificate"
  | RequireAnyClientCert, _ => Ok sent
  | VerifyClientCertIfGiven, [] => Ok []
  | VerifyClientCertIfGiven, _ | RequireAndVerifyClientCert, _ => verified
  end.

Definition TLSConfig (x : X509) (ca : CA x) : tls_Config x.(xc_cert) := mkTLSConfig (Some [ca.1]) RequestClientCert.

(** The configuration [main] gives to [RunTLS]. *)
Definition main_tlsConfig (x : X509) (d : directory) : tls_Config x.(xc_cert) :=
  mkTLSConfig
    (match ReadFile ca_cert_file d with
     | Ok caCert => x.(xc_AppendCertsFromPEM) caCert
     | Err _ => None
     end) RequestClientCert.

(** [peers] is [None] on a connection without TLS. *)
Definition extractClientID (x : X509) (peers : option (list x.(xc_cert))) : string :=
  match peers with
  | Some (cert :: _) => x.(xc_CommonName) cert
  | _ => ""
  end.

(** [Handle] of the session server, up to the goroutine of [trackSession]. *)
Definition Handle (x : X509) (sid : nat) (remoteAddr : string) (peers : option (list x.(xc_cert))) (s : SessState) :
    SessState :=
  set_track sid TWaiting (set_table <[sid := NewSession remoteAddr (extractClientID x peers) false]> s).

(** ** Restarts *)

Lemma WriteFile_ok name data w d u d' : WriteFile name data w d = (Ok u, d') → w = WriteDone ∧ d' = <[name := data]> d.
Proof. destruct w; cbn; by intros [= <-]. Qed.

Lemma initJWT_ok rand w d secret d' :
  initJWT rand w d = (Ok secret, d') →
  d' !! jwt_file = Some secret ∧ ∀ name, name ≠ jwt_file → d' !! name = d !! name.
Proof.
  unfold initJWT, ReadFile. destruct (d !! jwt_file) as [data|] eqn:E; [by intros [= <- <-]|].
  destruct rand as [data|e]; [|done]. destruct (WriteFile _ _ _ _) as [[u|e] d1] eqn:EW; [|done].
  intros [= <- <-]. apply WriteFile_ok in EW as [_ ->]. split; [apply lookup_insert_eq|].
  intros name Hne. by apply lookup_insert_ne.
Qed.

Section restart.
Context (x : X509) `{!X509Laws x}.
Context `{!JsonCodec (gmap string ClientRecord)} `{!JsonCodec (gmap string Voucher)}.

(** What [generateCA] leaves can be loaded. *)
Lemma generateCA_loads newKey now w0 w1 d ca d' :
  generateCA x newKey now w0 w1 d = (Ok ca, d') →
  fileExists ca_cert_file d' && fileExists ca_key_file d' = true ∧ loadCA x d' = Ok ca ∧
  ∀ name, name ≠ ca_cert_file → name ≠ ca_key_file → d' !! name = d !! name.
Proof.
  unfold generateCA. destruct newKey as [key|e]; [|done]. cbn -[WriteFile].
  destruct (xc_CreateCertificate x _ key) as [der|e]; [|done]. cbn -[WriteFile].
  destruct (xc_ParseCertificate x der) as [cert|e] eqn:EP; [|done]. cbn -[WriteFile].
  destruct (WriteFile ca_cert_file _ w0 d) as [[u|e] d1] eqn:E0; [|done]. apply WriteFile_ok in E0 as [_ ->].
  destruct (xc_MarshalECPrivateKey x key) as [kder|e] eqn:EM; [|done].
  destruct (WriteFile ca_key_file _ w1 _) as [[u1|e] d2] eqn:E1; [|done]. apply WriteFile_ok in E1 as [_ ->].
  intros [= <- <-]. unfold fileExists, loadCA, ReadFile.
  rewrite lookup_insert_eq, !(lookup_insert_ne _ ca_key_file ca_cert_file), !lookup_insert_eq by done. cbn.
  rewrite !pem_roundtrip. cbn. rewrite EP. cbn. rewrite (key_roundtrip _ _ EM). split_and!; [done..|].
  intros name H1 H2. by rewrite !lookup_insert_ne.
Qed.

Lemma initCA_ok newKey now w0 w1 d ca d' :
  initCA x newKey now w0 w1 d = (Ok ca, d') →
  (∀ newKey' now' w0' w1' d2, (∀ name, name ≠ jwt_file → d2 !! name = d' !! name) →
     initCA x newKey' now' w0' w1' d2 = (Ok ca, d2)) ∧
  d' !! jwt_file = d !! jwt_file.
Proof.
  intros Hi. assert (Hl : fileExists ca_cert_file d' && fileExists ca_key_file d' = true ∧ loadCA x d' = Ok ca ∧
    d' !! jwt_file = d !! jwt_file).
  { unfold initCA in Hi. destruct (_ && _) eqn:E.
    - injection Hi as Hl <-. by rewrite E.
    - destruct (generateCA_loads _ _ _ _ _ _ _ Hi) as (H1 & H2 & H3). split_and!; [done..|]. by apply H3. }
  destruct Hl as (He & Hl & Hj). split; [|exact Hj]. intros newKey' now' w0' w1' d2 Hsame.
  unfold initCA, fileExists, loadCA, ReadFile in *. rewrite (Hsame ca_cert_file), (Hsame ca_key_file) by done.
  rewrite He. by rewrite Hl.
Qed.

(** C13. After one start that succeeded every later one succeeds with the same
    authority and the same secret and changes no file, whatever keys and
    bytes it would draw; and a token made with the secret is valid for 24
    hours and no longer, also after restarts. *)
Theorem credentials_survive_restart (j : JWT) `{!JWTLaws j} (env : start_env x) (d d' : directory)
    (ca : CA x) (secret : bytes) (m : Manager) :
  Init x env d = (Ok (ca, secret, m), d') →
  (∀ env', ∃ m', Init x env' d' = (Ok (ca, secret, m'), d')) ∧
  ∀ apiKey now now' t, GenerateToken j secret apiKey now now' = Ok t →
    ∀ later, is_Some (ValidateToken j secret later t) ↔ (later < now + 86400)%Z.
Proof.
  unfold Init. destruct (initCA _ _ _ _ _ d) as [[ca1|e] d1] eqn:E1; [|done].
  destruct (initJWT _ _ d1) as [[s1|e] d2] eqn:E2; [|done]. intros [= <- <- <- <-].
  apply initCA_ok in E1 as [H1 _]. pose proof (initJWT_ok _ _ _ _ _ E2) as [H2 H3]. split.
  - intros env'. rewrite H1 by done. unfold initJWT, ReadFile. rewrite H2. by eexists.
  - intros apiKey now now' t Ht later. unfold GenerateToken in Ht. unfold ValidateToken.
    rewrite (jwt_expires _ _ _ later Ht). cbn. lia.
Qed.

(** A start that finds both files of the authority and no key in one of them
    fails and changes nothing. *)
Lemma bad_key_fails (env : start_env x) d data :
  fileExists ca_cert_file d = true → d !! ca_key_file = Some data → x.(xc_pem_decode) data = None →
  is_ok (Init x env d).1 = false ∧ (Init x env d).2 = d.
Proof.
  intros Hc Hk Hn. assert (Hl : is_ok (loadCA x d) = false).
  { unfold loadCA. destruct (ReadFile ca_cert_file d) as [c|e]; [|done]. cbn.
    destruct (xc_pem_decode x c) as [b|]; [|done]. destruct (xc_ParseCertificate x b); [|done]. cbn.
    unfold ReadFile. rewrite Hk. cbn. by rewrite Hn. }
  assert (Hk' : fileExists ca_key_file d = true) by (unfold fileExists; by rewrite Hk).
  unfold Init, initCA. rewrite Hc, Hk'. cbn. by destruct (loadCA x d).
Qed.

(** The files are written in place.  When the first start stops in the
    middle of the key file, and what it has written is no PEM block, it and
    every later start fail, and none repairs the file.  When it stops in the
    middle of the secret, every later start takes the part that was written
    as the secret. *)
Theorem torn_credentials (env : start_env x) (d : directory) (n : nat) :
  d !! ca_cert_file = None → d !! jwt_file = None →
  (∀ key der certDER cert, env.(sv_key) = Ok key → x.(xc_MarshalECPrivateKey) key = Ok der →
     x.(xc_CreateCertificate) (ca_template env.(sv_now)) key = Ok certDER → x.(xc_ParseCertificate) certDER = Ok cert →
     env.(sv_cert_write) = WriteDone → env.(sv_key_write) = WriteCut n →
     x.(xc_pem_decode) (take n (x.(xc_pem_encode) "EC PRIVATE KEY" der)) = None →
     let d' := (Init x env d).2 in
     is_ok (Init x env d).1 = false ∧ ∀ env', is_ok (Init x env' d').1 = false ∧ (Init x env' d').2 = d') ∧
  (∀ ca d1 secret, initCA x env.(sv_key) env.(sv_now) env.(sv_cert_write) env.(sv_key_write) d = (Ok ca, d1) →
     env.(sv_rand) = Ok secret → env.(sv_secret_write) = WriteCut n →
     let d' := (Init x env d).2 in
     is_ok (Init x env d).1 = false ∧ ∀ env', ∃ m', Init x env' d' = (Ok (ca, take n secret, m'), d')).
Proof.
  intros Hc Hj. split.
  - intros key der certDER cert Hk Hm HC HP H0 H1 Hn d'.
    assert (Hg : ∃ e, initCA x env.(sv_key) env.(sv_now) env.(sv_cert_write) env.(sv_key_write) d =
      (Err e, <[ca_key_file := take n (x.(xc_pem_encode) "EC PRIVATE KEY" der)]>
                (<[ca_cert_file := x.(xc_pem_encode) "CERTIFICATE" certDER]> d))).
    { unfold initCA, fileExists at 1. rewrite Hc. unfold generateCA. rewrite Hk, H0, H1. cbn. rewrite HC. cbn.
      rewrite HP. cbn. rewrite Hm. by eexists. }
    destruct Hg as [e Hg]. assert (d' = (initCA x env.(sv_key) env.(sv_now) env.(sv_cert_write) env.(sv_key_write) d).2)
      as Hd' by (unfold d', Init; by rewrite Hg). rewrite Hg in Hd'. cbn in Hd'.
    split; [unfold Init; by rewrite Hg|]. intros env'. eapply bad_key_fails; [|rewrite Hd'; apply lookup_insert_eq|exact Hn].
    rewrite Hd'. unfold fileExists. by rewrite lookup_insert_ne, lookup_insert_eq.
  - intros ca d1 secret Hi Hr Hw d'. pose proof (initCA_ok _ _ _ _ _ _ _ Hi) as [H1 Hj1]. rewrite Hj in Hj1.
    assert (Hi' : ∃ e, Init x env d = (Err e, <[jwt_file := take n secret]> d1)).
    { unfold Init. rewrite Hi. unfold initJWT, ReadFile. rewrite Hj1, Hr, Hw. by eexists. }
    destruct Hi' as [e Hi']. unfold d'. rewrite Hi'. split; [done|]. intros env'. unfold Init. cbn [snd].
    rewrite H1 by (intros; by apply lookup_insert_ne). unfold initJWT, ReadFile. rewrite lookup_insert_eq. by eexists.
Qed.
End restart.

(** ** Whose certificate it is *)

Section identity.
Context `{!JsonCodec (gmap string ClientRecord)} `{!JsonCodec (gmap string Voucher)}.
Context (ClientToken : string) (tunnelPort : Z) (refuse : string → bool) (parse_time : string → option Z).

(** Neither sessions nor their identities change. *)
Definition same_ids (s s' : SessState) : Prop := idents s' = idents s ∧ s'.(ss_sessions) = s.(ss_sessions).

Lemma foldl_same {A} (f : SessState → A → SessState) l :
  (∀ s a, same_ids s (f s a)) → ∀ s, same_ids s (foldl f s l).
Proof.
  intros Hf. induction l as [|a l IH]; intros s; [done|]. destruct (IH (f s a)) as [H1 H2].
  destruct (Hf s a) as [H3 H4]. split; cbn [foldl]; congruence.
Qed.

Lemma send_same c msg s : same_ids s (SendToClient c msg s).2.
Proof. destruct (SendToClient_same c msg s) as (H1 & H2 & _). by split. Qed.

Lemma sync_same c (s : SessState) : same_ids s (syncClientRelays c (syncClientProxies tunnelPort c s)).
Proof.
  assert (Hp : same_ids s (syncClientProxies tunnelPort c s)).
  { apply foldl_same. intros s0 p. unfold sync_proxy. case_decide; [|done].
    match goal with |- context [startTunnelLoop ?a ?b ?s1] => destruct (startTunnelLoop_same a b s1) as (H1 & H2 & _) end.
    destruct (send_same c (proxy_message tunnelPort s0 (pi_RemotePort p) (pi_LocalPort p) (pi_LocalIP p)
                             (pi_Protocol p) (pi_BindAddr p)) s0) as [H3 H4].
    split; congruence. }
  assert (Hr : ∀ s, same_ids s (syncClientRelays c s)).
  { intros s0. apply foldl_same. intros s1 r. unfold sync_relay. case_decide; [done|]. case_match. apply send_same. }
  destruct Hp as [H1 H2], (Hr (syncClientProxies tunnelPort c s)) as [H3 H4]. split; congruence.
Qed.

(** The TLS configurations of the server ask for a certificate and check
    it against no authority, and nothing checks it afterwards: whoever
    presents a certificate with a client's name, signed by anyone, is after
    the wait for the registration the session of that client, without having
    presented the token; the session the client had loses its place. *)
Theorem certificate_not_checked (x : X509) (ca : CA x) (d : directory) (cert : x.(xc_cert)) (rest : list x.(xc_cert))
    (env : step_env) (sid : nat) (remoteAddr : string) (s : SessState) :
  (∀ verify, tls_handshake verify (TLSConfig x ca) (cert :: rest) = Ok (cert :: rest) ∧
             tls_handshake verify (main_tlsConfig x d) (cert :: rest) = Ok (cert :: rest)) ∧
  (x.(xc_CommonName) cert ≠ "" → s.(ss_table) !! sid = None → s.(ss_track) !! sid = None →
   let c := x.(xc_CommonName) cert in
   let s' := track_start tunnelPort env sid true (Handle x sid remoteAddr (Some (cert :: rest)) s) in
   rtc (sess_step ClientToken tunnelPort refuse parse_time) s s' ∧ s'.(ss_sessions) !! c = Some sid ∧
   ∃ se, s'.(ss_table) !! sid = Some se ∧ se.(se_clientID) = c ∧ se.(se_token) = None).
Proof.
  split; [done|]. intros Hne Ht Htr c s'.
  set (s1 := Handle x sid remoteAddr (Some (cert :: rest)) s) in *.
  assert (Hl : s1.(ss_table) !! sid = Some (NewSession remoteAddr c false)) by apply lookup_insert_eq.
  assert (Hs' : s' = set_track sid (TTracked c) (syncClientRelays c (syncClientProxies tunnelPort c
    (set_sessions <[c := sid]> s1)))).
  { unfold s', track_start. rewrite Hl. cbn [se_clientID NewSession].
    by rewrite bool_decide_eq_false_2, decide_False by exact Hne. }
  destruct (sync_same c (set_sessions <[c := sid]> s1)) as [Hid Hss]. split_and!.
  - eapply rtc_l; [by apply (SConnect _ _ _ _ _ sid remoteAddr c false)|].
    apply rtc_once. eapply (STrack _ _ _ _ _ env sid _ true); [apply lookup_insert_eq|exact Hl|by left].
  - rewrite Hs'. cbn [ss_sessions set_track]. rewrite Hss. apply lookup_insert_eq.
  - assert (Hi : idents s' !! sid = Some (ident (NewSession remoteAddr c false))).
    { rewrite Hs'. change (idents (set_track sid (TTracked c) ?y)) with (idents y). rewrite Hid.
      unfold idents. rewrite lookup_fmap. cbn [ss_table set_sessions]. by rewrite Hl. }
    unfold idents in Hi. rewrite lookup_fmap in Hi. destruct (s'.(ss_table) !! sid) as [se|]; [|done].
    injection Hi as H1 H2 H3 H4 H5. by exists se.
Qed.
End identity.

(** ** Witnesses *)

#[local] Existing Instances Auth.ClientRecord_countable Auth.Voucher_countable toy_codec.

(** A block with one byte before it; a certificate is the name in it. *)
Definition toy_x509 : X509 :=
  mkX509 string bytes (λ b, match b with [] => None | _ :: b' => Some b' end) (λ _ b, "045"%char :: b)
    (λ der, Ok (string_of_list_ascii der)) Ok Ok (λ tp _, Ok (list_ascii_of_string tp.(ct_CommonName)))
    (λ b, Some [string_of_list_ascii b]) id.
#[export] Instance toy_x509_laws : X509Laws toy_x509.
Proof. split; [done|]. intros k der [= ->]. done. Qed.

(** A token is the time it expires. *)
Definition toy_jwt : JWT :=
  mkJWT (λ _ c, if decide (0 <= c.(jc_ExpiresAt) <= int64_max)%Z then Ok (pretty c.(jc_ExpiresAt)) else Err "time")
    (λ _ now t, e ← Atoi t; if (now <? e)%Z then Some (mkJWTClaims "" e 0) else None).
#[export] Instance toy_jwt_laws : JWTLaws toy_jwt.
Proof.
  split. intros secret c t now. cbn. case_decide as He; [|done]. intros [= <-].
  rewrite Atoi_pretty by lia. cbn. destruct (Z.ltb_spec now c.(jc_ExpiresAt)); [|by split; [intros []|lia]].
  split; [done|by eexists].
Qed.

Definition first_start : start_env toy_x509 :=
  mkStartEnv toy_x509 (Ok ["007"%char]) (Ok ["001"%char; "002"%char]) 100 WriteDone WriteDone WriteDone.
Definition cut_start (key secret : WriteFault) : start_env toy_x509 :=
  mkStartEnv toy_x509 (Ok ["007"%char]) (Ok ["001"%char; "002"%char]) 100 WriteDone key secret.

Definition first_dir : directory := (Init toy_x509 first_start ∅).2.
Lemma first_start_ok :
  Init toy_x509 first_start ∅ = (Ok (("Aether CA", ["007"%char]), ["001"%char; "002"%char], Auth.Init 100 first_dir), first_dir).
Proof. vm_compute. reflexivity. Qed.

Lemma credentials_survive_restart_witness :
  (∃ m, (Init toy_x509 (cut_start WriteNotOpen WriteNotOpen) first_dir).1
      = Ok (("Aether CA", ["007"%char]), ["001"%char; "002"%char], m)) ∧
  is_Some (ValidateToken toy_jwt ["001"%char; "002"%char] 86499 "86500").
Proof.
  pose proof (credentials_survive_restart toy_x509 toy_jwt first_start ∅ _ _ _ _ first_start_ok) as [H1 H2]. split.
  - destruct (H1 (cut_start WriteNotOpen WriteNotOpen)) as [m Hm]. exists m. exact (f_equal fst Hm).
  - refine (proj2 (H2 "key" 100%Z 101%Z "86500" _ 86499%Z) _); [vm_compute; reflexivity|lia].
Defined.

Lemma torn_credentials_witness :
  is_ok (Init toy_x509 first_start (Init toy_x509 (cut_start (WriteCut 0) WriteDone) ∅).2).1 = false ∧
  (∃ m, (Init toy_x509 first_start (Init toy_x509 (cut_start WriteDone (WriteCut 0)) ∅).2).1
      = Ok (("Aether CA", ["007"%char]), [], m)).
Proof.
  split.
  - destruct (torn_credentials toy_x509 (cut_start (WriteCut 0) WriteDone) ∅ 0 (lookup_empty _) (lookup_empty _)) as [H _].
    apply (H ["007"%char] ["007"%char] (list_ascii_of_string "Aether CA") "Aether CA" eq_refl eq_refl eq_refl eq_refl
             eq_refl eq_refl eq_refl).
  - destruct (torn_credentials toy_x509 (cut_start WriteDone (WriteCut 0)) ∅ 0 (lookup_empty _) (lookup_empty _)) as [_ H].
    destruct (H ("Aether CA", ["007"%char]) _ ["001"%char; "002"%char] ltac:(vm_compute; reflexivity) eq_refl eq_refl)
      as [_ H']. destruct (H' first_start) as [m Hm]. exists m. exact (f_equal fst Hm).
Defined.

(** Anyone is "cam". *)
Lemma certificate_not_checked_witness :
  let s' := track_start 7001 example_env 0 true
              (Handle toy_x509 0 "6.6.6.6:6" (Some ["cam"]) (sess_start "1.2.3.4" example_auth)) in
  s'.(ss_sessions) !! "cam" = Some 0.
Proof.
  destruct (certificate_not_checked "t" 7001 (λ _, false) (λ _, None) toy_x509 ("Aether CA", []) ∅ "cam" []
    example_env 0 "6.6.6.6:6" (sess_start "1.2.3.4" example_auth)) as [_ H].
  exact (proj1 (proj2 (H ltac:(discriminate) (lookup_empty _) (lookup_empty _)))).
Defined.
