(* ===== verification/Http.v ===== *)
(** * The control API (BBgrid_Server/http/server.go)

    Every request of the router with its handler, behind the check of
    credentials.  Requests work on the registry, the state store, the
    capability registry and the event bus ([ap_published] is what they hand
    to [Core.Publish], in order).

    A handler takes the request as the router and the binding of gin give it:
    path and query parameters, headers and, for a JSON body, the record it
    was decoded to or the error of the decoder.  Identifiers, clocks, serial
    numbers and the results of the file writes of a request are its
    [req_env]. *)

From S2P Require Import Prelude Types Proto StateStore Disk Core Auth Credentials.

(** ** Text *)

(** [strings.Contains] *)
Fixpoint Contains (s sub : string) : bool :=
  String.prefix sub s || match s with "" => false | String _ s' => Contains s' sub end.

(** [strings.TrimPrefix] *)
Fixpoint TrimPrefix (s pre : string) {struct pre} : string :=
  match pre with
  | "" => s
  | String a pre' => if String.prefix pre s then
                       match s with String _ s' => TrimPrefix s' pre' | "" => s end
                     else s
  end.

Definition quote : string := String "034" "".
Definition second : Z := 1000000000.
Definition unit_text (n : Z) (unit : string) : string := pretty n +:+ unit.

(** [d.Round(time.Second)] for [d >= 0], below the largest duration. *)
Definition round_second (d : Z) : Z :=
  let r := (d mod second)%Z in if (r + r <? second)%Z then (d - r)%Z else (d + second - r)%Z.

Definition hms (d : Z) : Z * Z * Z :=
  let s := (round_second d / second)%Z in (s / 3600, s / 60 mod 60, s mod 60)%Z.

Definition formatDuration (d : Z) : string :=
  let '(h, m, s) := hms d in
  if (0 <? h)%Z then unit_text h "h" +:+ unit_text m "m" +:+ unit_text s "s"
  else if (0 <? m)%Z then unit_text m "m" +:+ unit_text s "s"
  else unit_text s "s".

(** ** Requests and answers *)

Record ApplyReq := mkApplyReq { ay_ClientID : string; ay_PublicKey : string; ay_Token : string }.
Record VoucherReq := mkVoucherReq { vr_ClientID : string; vr_PublicKey : string; vr_Voucher : string }.
Record AssignReq := mkAssignReq { as_ClientID : string; as_Namespace : string; as_Role : string }.
Record NewVoucherReq := mkNewVoucherReq { nv_MaxUses : Z; nv_ExpiresIn : Z; nv_Namespace : string; nv_Role : string }.
Abbreviation Query := (string → string).
Abbreviation JsonCall := (string * gmap string any)%type.
(** The values of a multipart form, the name and the size of its file.  The
    reader in [params["file"]] stays outside the map (see File). *)
Abbreviation FormCall := (gmap string (list string) * option (string * Z))%type.

(** Headers by their canonical names. *)
Definition Header := gmap string (list string).
Definition GetHeader (h : Header) (name : string) : string := default "" (h !! name ≫= head).
Definition extractHeaders (h : Header) : gmap string string := (λ l, default "" (head l)) <$> h.

Inductive Route :=
| GetPing | GetStatus | GetHealth
| PostLogin (body : Res string)
| PostRegisterApply (body : Res ApplyReq)
| PostRegisterVoucher (body : Res VoucherReq)
| GetRegisterList
| GetNodes | GetNode (id : string)
| PostApprove (body : Res AssignReq)
| PostRevoke (body : Res string)
| GetPendingNodes
| PostVoucher (body : Res NewVoucherReq) | GetVouchers | DeleteVoucherCode (code : string)
| GetProxies | PostProxy (body : Res ProxyCreateRequest) | DeleteProxyPort (port : string)
| GetRelays | PostRelay (body : Res RelayCreateRequest) | DeleteRelayId (id : string)
| GetNamespaces | GetNamespaceName (name : string) | GetNamespaceClients (name : string)
| PostAssign (body : Res AssignReq)
| GetTask (id : string)
| GetCapabilities | PostCall (query : Query) (json : Res JsonCall) (form : Res FormCall)
| GetQuery (query : Query).

(** The group behind [requireJWT]. *)
Definition protected (r : Route) : bool :=
  match r with
  | GetPing | GetStatus | GetHealth | PostLogin _ | PostRegisterApply _ | PostRegisterVoucher _ | GetRegisterList => false
  | _ => true
  end.

Record NodeInfo := mkNodeInfo { nd_id : string; nd_remote_addr : string; nd_online : bool; nd_host : string; nd_proxy_count : Z }.

Inductive Data :=
| DNone | DStr (s : string)
| DToken (token : string) (expires_in : Z)
| DServer (version publicIP uptime : string) (clients proxies relays : nat)
| DClients (l : list ClientRecord) | DCert (cert : string) | DCertFor (cert namespace role : string)
| DNodes (l : list NodeInfo) | DNode (n : NodeInfo)
| DClientInfo (i : ClientInfo) | DClientInfos (l : list ClientInfo)
| DProxies (l : list ProxyInfo) | DRelays (l : list RelaySession) | DSessionId (id : string)
| DNamespaces (l : list NamespaceInfo) | DNamespace (n : NamespaceInfo)
| DVouchers (l : list Voucher) | DVoucher (v : Voucher)
| DCapabilities (l : list Capability.Capability) | DResult (r : Capability.ActionResult)
| DTask (id status : string).

(** The HTTP status, and the fields "code", "msg" and "data" of the answer; a
    download has a body of bytes instead. *)
Inductive Response :=
| Json (status code : Z) (msg : string) (data : Data)
| Text (s : string) | Health (status : string)
| Body (data : bytes) (disposition : option string) (content_length : option Z).

Definition ok (data : Data) : Response := Json 200 0 "success" data.
Definition fail (code : Z) (msg : string) : Response := Json code code msg DNone.
Definition status_of (r : Response) : Z := match r with Json st _ _ _ => st | _ => 200 end.

(** ** The server *)

Section server.
Context {W Provider : Type}.
Context `{!JsonCodec (gmap string ClientRecord)} `{!JsonCodec (gmap string Voucher)}.
(** The configuration, the secret of the tokens, and the libraries. *)
Context (APIKey ClientToken version : string) (jwtSecret : bytes) (j : JWT) (cy : Crypto).

Record Api := mkApi {
  ap_auth : Manager * directory;
  ap_store : StateStoreImpl;
  ap_caps : @Capability.CapabilityRegistryImpl W Provider;
  ap_world : W;
  ap_published : list GenericEvent;
}.

Record req_env := mkReqEnv {
  rv_id : nat → string;
  rv_serial : nat → Z;
  rv_write : nat → WriteFault;
  rv_rand : string;
  rv_ms : Z;
  rv_ns : Z;
  rv_uptime : Z;
}.
(** [time.Now().Unix()] *)
Definition rv_s (env : req_env) : Z := (env.(rv_ns) / second)%Z.

Definition with_auth (a : Manager * directory) (s : Api) : Api :=
  mkApi a s.(ap_store) s.(ap_caps) s.(ap_world) s.(ap_published).
Definition with_world (w : W) (s : Api) : Api := mkApi s.(ap_auth) s.(ap_store) s.(ap_caps) w s.(ap_published).
Definition publish (e : GenericEvent) (s : Api) : Api :=
  mkApi s.(ap_auth) s.(ap_store) s.(ap_caps) s.(ap_world) (s.(ap_published) ++ [e]).
Definition manager (s : Api) : Manager := s.(ap_auth).1.

Definition ValidateAPIKey (key : string) : bool := bool_decide (key = APIKey).
Definition ValidateClientToken (token : string) : bool := bool_decide (token = ClientToken).

(** What [requireJWT] answers when it stops the request. *)
Definition requireJWT (env : req_env) (h : Header) : option Response :=
  let authHeader := GetHeader h "Authorization" in
  let apiKey := GetHeader h "X-Api-Key" in
  let clientToken := GetHeader h "X-Client-Token" in
  if decide (authHeader ≠ "") then
    if negb (String.prefix "Bearer " authHeader) then Some (fail 401 "invalid authorization format")
    else match ValidateToken j jwtSecret (rv_s env) (TrimPrefix authHeader "Bearer ") with
    | Some _ => None
    | None => Some (fail 401 "invalid token")
    end
  else if decide (apiKey ≠ "") then
    if ValidateAPIKey apiKey then None else Some (fail 401 "invalid api key")
  else if decide (clientToken ≠ "") then
    if ValidateClientToken clientToken then None else Some (fail 401 "invalid client token")
  else Some (fail 401 "missing authorization").

(** *** Runtime *)

(** [params[key] = values[0]] for the keys that have values. *)
Definition form_params (values : gmap string (list string)) : gmap string any :=
  AString <$> omap head values.

Definition query_params (query : Query) : gmap string any :=
  let p := if decide (query "client_id" ≠ "") then {["client_id" := AString (query "client_id")]} else ∅ in
  if decide (query "type" ≠ "") then <["type" := AString (query "type")]> p else p.

Definition call_params (query : Query) (form : FormCall) : gmap string any :=
  let p := form_params form.1 ∪ query_params query in
  match form.2 with
  | Some (filename, size) => <["filesize" := AInt64 size]> $ <["filename" := AString filename]> p
  | None => p
  end.

(** The action and the parameters of a call, or the answer. *)
Definition call_request (query : Query) (h : Header) (json : Res JsonCall) (form : Res FormCall) :
    Response + JsonCall :=
  if String.prefix "multipart/form-data" (GetHeader h "Content-Type") then
    match form with
    | Err e => inl (fail 400 ("failed to parse multipart form: " +:+ e))
    | Ok f => if decide (query "action" = "") then inl (fail 400 "missing action parameter")
              else inr (query "action", call_params query f)
    end
  else match json with
  | Err e => inl (fail 400 e)
  | Ok (action, params) => if decide (action = "") then inl (fail 400 "missing action") else inr (action, params)
  end.

Definition body_answer (b : Capability.ResultBody) : Response :=
  Body b.(Capability.rb_data)
    (if decide (b.(Capability.rb_Name) ≠ "")
     then Some ("attachment; filename=" +:+ quote +:+ b.(Capability.rb_Name) +:+ quote) else None)
    (if (0 <? b.(Capability.rb_Size))%Z then Some b.(Capability.rb_Size) else None).

Definition handleCall (query : Query) (h : Header) (json : Res JsonCall) (form : Res FormCall) (s : Api) :
    Response * Api :=
  match call_request query h json form with
  | inl r => (r, s)
  | inr (action, params) =>
      let ctx := Capability.mkCtx action params (extractHeaders h) in
      match Capability.Execute ctx s.(ap_caps) s.(ap_world) with
      | (Err e, w) => (fail 500 e, with_world w s)
      | (Ok result, w) =>
          (match result.(Capability.ar_Body) with
           | Some b => body_answer b
           | None => ok (DResult result)
           end, with_world w s)
      end
  end.

Definition handleQuery (query : Query) (s : Api) : Response :=
  let st := s.(ap_store) in
  if decide (query "type" = "client") then
    if decide (query "id" ≠ "") then
      match GetClientInfo st (query "id") with
      | Some c => ok (DClientInfo c)
      | None => fail 404 "client not found"
      end
    else ok (DClientInfos (ListClients st))
  else if decide (query "type" = "proxy") then ok (DProxies (ListProxies st))
  else if decide (query "type" = "relay") then ok (DRelays (ListRelaySessions st))
  else fail 400 "unknown query type".

Definition handleCapabilities (s : Api) : Response := ok (DCapabilities (Capability.List s.(ap_caps))).

Definition handleStatus (env : req_env) (s : Api) : Response :=
  let st := s.(ap_store) in
  ok (DServer version st.(publicIP) (formatDuration env.(rv_uptime)) (length (ListClients st))
        (length (ListProxies st)) (length (ListRelaySessions st))).

(** *** Registration *)

Definition handleLogin (env : req_env) (body : Res string) : Response :=
  match body with
  | Err e => fail 400 e
  | Ok key =>
      if negb (ValidateAPIKey key) then fail 401 "invalid api key"
      else match GenerateToken j jwtSecret key (rv_s env) (rv_s env) with
      | Err _ => fail 500 "failed to generate token"
      | Ok token => Json 200 0 "success" (DToken token 86400)
      end
  end.

Definition handleRegisterApply (env : req_env) (body : Res ApplyReq) (s : Api) : Response * Api :=
  match body with
  | Err e => (fail 400 e, s)
  | Ok req =>
      if negb (ValidateClientToken req.(ay_Token)) then (fail 401 "invalid token", s)
      else
        let '(r, a) := AddApplication req.(ay_ClientID) req.(ay_PublicKey) (rv_s env) (rv_write env 0) s.(ap_auth) in
        (match r with Err e => fail 400 e | Ok _ => Json 200 0 "applied" DNone end, with_auth a s)
  end.

(** The client is added, or gets the new key when it exists. *)
Definition put_application (env : req_env) (clientID publicKey : string) (a : Manager * directory) :
    Res unit * (Manager * directory) :=
  match AddApplication clientID publicKey (rv_s env) (rv_write env 1) a with
  | (Ok _, a1) => (Ok tt, a1)
  | (Err e, a1) =>
      if decide (e ≠ "client already exists") then (Err e, a1)
      else UpdatePublicKey clientID publicKey (rv_write env 2) a1
  end.

(** The client is approved, again when it already was. *)
Definition force_approve (env : req_env) (clientID namespace role : string) (a : Manager * directory) :
    Res string * (Manager * directory) :=
  match Approve cy clientID namespace role (rv_serial env 0) (rv_s env) (rv_write env 3) a with
  | (Ok cert, a1) => (Ok cert, a1)
  | (Err e, a1) =>
      if Contains e "already approved" || Contains e "already" then
        Approve cy clientID namespace role (rv_serial env 1) (rv_s env) (rv_write env 5)
          (ResetClientStatus clientID (rv_write env 4) a1)
      else (Err e, a1)
  end.

Definition handleRegisterVoucher (env : req_env) (body : Res VoucherReq) (s : Api) : Response * Api :=
  match body with
  | Err e => (fail 400 e, s)
  | Ok req =>
      if decide (req.(vr_ClientID) = "" ∨ req.(vr_PublicKey) = "" ∨ req.(vr_Voucher) = "") then
        (fail 400 "client_id, public_key, voucher 都是必填", s)
      else
        match UseVoucher req.(vr_Voucher) (rv_s env) (rv_write env 0) s.(ap_auth) with
        | (Err e, a) => (fail 400 e, with_auth a s)
        | (Ok voucher, a) =>
            match put_application env req.(vr_ClientID) req.(vr_PublicKey) a with
            | (Err e, a1) => (fail 400 e, with_auth a1 s)
            | (Ok _, a1) =>
                let namespace := if decide (voucher.(vc_Namespace) = "") then "permanent" else voucher.(vc_Namespace) in
                let role := if decide (voucher.(vc_Role) = "") then "node" else voucher.(vc_Role) in
                match force_approve env req.(vr_ClientID) namespace role a1 with
                | (Err e, a2) => (fail 500 e, with_auth a2 s)
                | (Ok cert, a2) => (ok (DCertFor cert namespace role), with_auth a2 s)
                end
            end
        end
  end.

Definition handleRegisterList (s : Api) : Response := ok (DClients (GetApproved (manager s))).

(** *** Nodes *)

Definition offline_node (id : string) : NodeInfo := mkNodeInfo id "" false "" 0.
Definition online_node (c : ClientInfo) : NodeInfo :=
  mkNodeInfo c.(ci_ID) c.(ci_RemoteAddr) true c.(ci_Host) c.(ci_ProxyCount).

(** [onlineMap[a.ClientID]] holds exactly when the inner loop finds a client. *)
Definition node_of (online : list ClientInfo) (a : ClientRecord) : NodeInfo :=
  match List.find (λ oc, bool_decide (oc.(ci_ID) = a.(cr_ClientID))) online with
  | Some oc => online_node oc
  | None => offline_node a.(cr_ClientID)
  end.

Definition handleListNodes (s : Api) : Response :=
  ok (DNodes (node_of (ListClients s.(ap_store)) <$> GetApproved (manager s))).

Definition handleGetNode (id : string) (s : Api) : Response :=
  match GetClientInfo s.(ap_store) id with
  | Some client => ok (DClientInfo client)
  | None =>
      match List.find (λ a, bool_decide (a.(cr_ClientID) = id)) (GetApproved (manager s)) with
      | Some a => ok (DNode (offline_node a.(cr_ClientID)))
      | None => fail 404 "client not found"
      end
  end.

Definition handleRegisterApprove (env : req_env) (body : Res AssignReq) (s : Api) : Response * Api :=
  match body with
  | Err e => (fail 400 e, s)
  | Ok req =>
      let '(r, a) := Approve cy req.(as_ClientID) req.(as_Namespace) req.(as_Role) (rv_serial env 0) (rv_s env)
                       (rv_write env 0) s.(ap_auth) in
      (match r with Err e => fail 400 e | Ok cert => ok (DCert cert) end, with_auth a s)
  end.

Definition handleRegisterRevoke (env : req_env) (body : Res string) (s : Api) : Response * Api :=
  match body with
  | Err e => (fail 400 e, s)
  | Ok id =>
      let '(found, a) := Auth.Delete id (rv_write env 0) s.(ap_auth) in
      (if found then ok (DStr "revoked") else fail 404 "client not found", with_auth a s)
  end.

Definition handleRegisterPending (s : Api) : Response := ok (DClients (GetPending (manager s))).

(** *** Proxies *)

Definition handleListProxies (s : Api) : Response := ok (DProxies (ListProxies s.(ap_store))).

Definition bad_port (p : Z) : bool := (p <? 1)%Z || (65535 <? p)%Z.
Definition or_default (x d : string) : string := if decide (x = "") then d else x.

(** The proxy a request asks for, with its defaults, or the answer. *)
Definition proxy_request (req : ProxyCreateRequest) : Response + ProxyState :=
  if decide (req.(pcr_ClientID) = "") then inl (fail 400 "client_id is required")
  else if bad_port req.(pcr_RemotePort) then inl (fail 400 "remote_port must be between 1 and 65535")
  else if bad_port req.(pcr_LocalPort) then inl (fail 400 "local_port must be between 1 and 65535")
  else
    let protocol := or_default req.(pcr_Protocol) "tcp" in
    if decide (protocol ≠ "tcp" ∧ protocol ≠ "udp") then inl (fail 400 "protocol must be tcp or udp")
    else inr (mkProxyState req.(pcr_ClientID) req.(pcr_RemotePort) req.(pcr_LocalPort)
                (or_default req.(pcr_LocalIP) "127.0.0.1") protocol (or_default req.(pcr_BindAddr) "0.0.0.0")).

Definition proxy_event (env : req_env) (name eventType : string) (payload : any) : GenericEvent :=
  NewGenericEvent (rv_id env 2) env.(rv_ms) (mkResourceKey ResourceTypeProxy NamespaceDefault name) eventType payload.

Definition handleCreateProxy (env : req_env) (body : Res ProxyCreateRequest) (s : Api) : Response * Api :=
  match body with
  | Err e => (fail 400 e, s)
  | Ok req =>
      match proxy_request req with
      | inl r => (r, s)
      | inr p => (ok (DStr "created"),
          publish (proxy_event env (proxyKey p.(ps_ClientID) p.(ps_RemotePort)) EventAdded (AProxyState p)) s)
      end
  end.

Definition handleDeleteProxy (env : req_env) (portStr : string) (s : Api) : Response * Api :=
  match Atoi portStr with
  | None => (fail 400 "invalid port", s)
  | Some port =>
      match List.find (λ p, (p.(pi_RemotePort) =? port)%Z) (ListProxies s.(ap_store)) with
      | None => (fail 404 "proxy not found", s)
      | Some p => (ok (DStr "deleted"),
          publish (proxy_event env (proxyKey p.(pi_ClientID) p.(pi_RemotePort)) EventDeleted ANil) s)
      end
  end.

(** *** Relays *)

Definition handleListRelays (s : Api) : Response := ok (DRelays (ListRelaySessions s.(ap_store))).

Definition relay_request (id token : string) (req : RelayCreateRequest) : Response + RelaySession :=
  if decide (req.(rcr_SourceClient) = "" ∨ req.(rcr_TargetClient) = "") then
    inl (fail 400 "source_client_id and target_client_id are required")
  else if bad_port req.(rcr_SourcePort) || bad_port req.(rcr_TargetPort) then
    inl (fail 400 "source_port and target_port must be between 1 and 65535")
  else
    let protocol := or_default req.(rcr_Protocol) "tcp" in
    if decide (protocol ≠ "tcp" ∧ protocol ≠ "udp") then inl (fail 400 "protocol must be tcp or udp")
    else inr (mkRelaySession id req.(rcr_SourceClient) req.(rcr_TargetClient) protocol req.(rcr_SourcePort)
                req.(rcr_TargetPort) (or_default req.(rcr_TargetLocalIP) "127.0.0.1")
                (or_default req.(rcr_SourceLocalIP) "0.0.0.0") token 0 "" "").

Definition relay_event (env : req_env) (name eventType : string) (payload : any) : GenericEvent :=
  NewGenericEvent (rv_id env 2) env.(rv_ms) (mkResourceKey ResourceTypeRelay NamespaceDefault name) eventType payload.

Definition handleCreateRelay (env : req_env) (body : Res RelayCreateRequest) (s : Api) : Response * Api :=
  match body with
  | Err e => (fail 400 e, s)
  | Ok req =>
      match relay_request (rv_id env 0) (rv_id env 1) req with
      | inl r => (r, s)
      | inr r => (ok (DSessionId r.(rs_ID)), publish (relay_event env r.(rs_ID) EventAdded (ARelaySession r)) s)
      end
  end.

(** The relay an identifier or its beginning names. *)
Definition find_relay (id : string) (st : StateStoreImpl) : option string :=
  match GetRelaySession st id with
  | Some _ => Some id
  | None => rs_ID <$> List.find (λ r, String.prefix id r.(rs_ID)) (ListRelaySessions st)
  end.

Definition handleDeleteRelay (env : req_env) (id : string) (s : Api) : Response * Api :=
  match find_relay id s.(ap_store) with
  | None => (fail 404 "relay session not found", s)
  | Some fullID => (ok (DStr "deleted"), publish (relay_event env fullID EventDeleted ANil) s)
  end.

(** *** Namespaces, tasks and vouchers *)

Definition handleListNamespaces (s : Api) : Response := ok (DNamespaces (ListNamespaces (manager s))).
Definition handleGetNamespace (name : string) (s : Api) : Response :=
  match GetNamespace (manager s) name with
  | Some ns => ok (DNamespace ns)
  | None => fail 404 "namespace not found"
  end.
Definition handleGetNamespaceClients (name : string) (s : Api) : Response :=
  ok (DClients (GetClientsByNamespace (manager s) name)).

Definition handleAssignNamespace (env : req_env) (body : Res AssignReq) (s : Api) : Response * Api :=
  match body with
  | Err e => (fail 400 e, s)
  | Ok req =>
      let '(r, a) := SetClientNamespace req.(as_ClientID) req.(as_Namespace) req.(as_Role) (rv_write env 0) s.(ap_auth) in
      (match r with Err e => fail 400 e | Ok _ => ok (DStr "assigned") end, with_auth a s)
  end.

Definition handleGetTask (id : string) : Response := Json 404 404 "task not found" (DTask id "not_found").

(** [time.Duration(req.ExpiresIn) * time.Second] wraps around. *)
Definition expires_at (env : req_env) (expiresIn : Z) : Z :=
  if (0 <? expiresIn)%Z then ((env.(rv_ns) + int64_wrap (expiresIn * second)) / second)%Z else 0%Z.

Definition handleCreateVoucher (env : req_env) (body : Res NewVoucherReq) (s : Api) : Response * Api :=
  match body with
  | Err e => (fail 400 e, s)
  | Ok req =>
      let '(r, a) := CreateVoucher env.(rv_rand) (rv_s env) req.(nv_MaxUses) (expires_at env req.(nv_ExpiresIn))
                       (or_default req.(nv_Namespace) "permanent") (or_default req.(nv_Role) "node")
                       (rv_write env 0) s.(ap_auth) in
      (match r with Err e => fail 500 e | Ok v => ok (DVoucher v) end, with_auth a s)
  end.

Definition handleListVouchers (s : Api) : Response := ok (DVouchers (ListVouchers (manager s))).

Definition handleDeleteVoucher (env : req_env) (code : string) (s : Api) : Response * Api :=
  let '(found, a) := DeleteVoucher code (rv_write env 0) s.(ap_auth) in
  (if found then ok (DStr "deleted") else fail 404 "voucher not found", with_auth a s).

(** *** The router *)

Definition handle (env : req_env) (h : Header) (r : Route) (s : Api) : Response * Api :=
  match r with
  | GetPing => (Text "PANG", s)
  | GetStatus => (handleStatus env s, s)
  | GetHealth => (Health "ok", s)
  | PostLogin b => (handleLogin env b, s)
  | PostRegisterApply b => handleRegisterApply env b s
  | PostRegisterVoucher b => handleRegisterVoucher env b s
  | GetRegisterList => (handleRegisterList s, s)
  | GetNodes => (handleListNodes s, s)
  | GetNode id => (handleGetNode id s, s)
  | PostApprove b => handleRegisterApprove env b s
  | PostRevoke b => handleRegisterRevoke env b s
  | GetPendingNodes => (handleRegisterPending s, s)
  | PostVoucher b => handleCreateVoucher env b s
  | GetVouchers => (handleListVouchers s, s)
  | DeleteVoucherCode code => handleDeleteVoucher env code s
  | GetProxies => (handleListProxies s, s)
  | PostProxy b => handleCreateProxy env b s
  | DeleteProxyPort port => handleDeleteProxy env port s
  | GetRelays => (handleListRelays s, s)
  | PostRelay b => handleCreateRelay env b s
  | DeleteRelayId id => handleDeleteRelay env id s
  | GetNamespaces => (handleListNamespaces s, s)
  | GetNamespaceName name => (handleGetNamespace name s, s)
  | GetNamespaceClients name => (handleGetNamespaceClients name s, s)
  | PostAssign b => handleAssignNamespace env b s
  | GetTask id => (handleGetTask id, s)
  | GetCapabilities => (handleCapabilities s, s)
  | PostCall query json form => handleCall query h json form s
  | GetQuery query => (handleQuery query s, s)
  end.

Definition serve (env : req_env) (h : Header) (r : Route) (s : Api) : Response * Api :=
  match (if protected r then requireJWT env h else None) with
  | Some stop => (stop, s)
  | None => handle env h r s
  end.
End server.
