(* ===== verification/HttpFacts.v ===== *)
(** * What the control API guarantees

    Credentials, the requests for proxies and relays, registration with a
    voucher, and what any sequence of requests keeps of the registry. *)

From S2P Require Import Prelude Types Proto StateStore Disk Core Auth Credentials Path Http.

(** ** Credentials *)

Section credentials.
Context {W Provider : Type}.
Context `{!JsonCodec (gmap string ClientRecord)} `{!JsonCodec (gmap string Voucher)}.
Context (APIKey ClientToken version : string) (jwtSecret : bytes) (j : JWT) (cy : Crypto).
Abbreviation Api := (@Api W Provider).
Abbreviation serve := (serve APIKey ClientToken version jwtSecret j cy).
Abbreviation handle := (handle APIKey ClientToken version jwtSecret j cy).

(** A bearer token the library accepts; without an Authorization header, the
    API key; without either, the client token. *)
Definition credentials_ok (env : req_env) (h : Header) : Prop :=
  (∃ t, GetHeader h "Authorization" = "Bearer " +:+ t ∧ is_Some (ValidateToken j jwtSecret (rv_s env) t)) ∨
  (GetHeader h "Authorization" = "" ∧ GetHeader h "X-Api-Key" ≠ "" ∧ GetHeader h "X-Api-Key" = APIKey) ∨
  (GetHeader h "Authorization" = "" ∧ GetHeader h "X-Api-Key" = "" ∧
   GetHeader h "X-Client-Token" ≠ "" ∧ GetHeader h "X-Client-Token" = ClientToken).

Lemma TrimPrefix_app pre s : TrimPrefix (pre +:+ s) pre = s.
Proof.
  induction pre as [|a pre IH]; [done|]. cbn [TrimPrefix].
  assert (String.prefix (String a pre) (String a pre +:+ s) = true) as -> by (apply prefix_spec; by exists s).
  apply IH.
Qed.

Lemma requireJWT_spec env h :
  requireJWT APIKey ClientToken jwtSecret j env h = None ↔ credentials_ok env h.
Proof.
  unfold requireJWT, credentials_ok, ValidateAPIKey, ValidateClientToken.
  case_decide as Ha.
  { destruct (String.prefix _ _) eqn:Hp; cbn [negb].
    - apply prefix_spec in Hp as [t Ht]. rewrite Ht, TrimPrefix_app.
      destruct (ValidateToken j jwtSecret (rv_s env) t) eqn:Et; split; intros Hc; try done; [left; exists t; by rewrite Et|].
      destruct Hc as [(t' & Heq & [? ?])|[[? _]|[? _]]]; [|done..].
      apply (inj (String.append "Bearer ")) in Heq as <-. congruence.
    - split; [done|]. intros [(t & Ht & _)|[[? _]|[? _]]]; [|congruence..].
      assert (String.prefix "Bearer " (GetHeader h "Authorization") = true) by (apply prefix_spec; by exists t).
      congruence. }
  rewrite Ha.
  assert (Hno : ¬ ∃ t, "" = "Bearer " +:+ t ∧ is_Some (ValidateToken j jwtSecret (rv_s env) t)) by (by intros (t & [=] & _)).
  case_decide as Hk; [|rewrite Hk; case_decide as Ht; [|rewrite Ht]].
  - case_bool_decide; split; [intros _; right; left; by split_and!|done|done|].
    intros [?|[(_ & _ & ?)|(_ & ? & _)]]; [by destruct Hno|congruence..].
  - case_bool_decide; split; [intros _; right; right; by split_and!|done|done|].
    intros [?|[(_ & ? & _)|(_ & _ & _ & ?)]]; [by destruct Hno|congruence..].
  - split; [done|]. intros [?|[(_ & ? & _)|(_ & _ & ? & _)]]; [by destruct Hno|congruence..].
Qed.

Lemma requireJWT_stop env h resp :
  requireJWT APIKey ClientToken jwtSecret j env h = Some resp → status_of resp = 401%Z.
Proof. unfold requireJWT. intros E. repeat case_match; by simplify_eq. Qed.

(** C10. A request of the protected group that presents no valid credentials
    is answered 401 and changes nothing; every other request is handled.  The
    first header present decides, in the order Authorization, X-API-KEY,
    X-CLIENT-TOKEN; the token of the clients opens the whole group. *)
Theorem protected_needs_credentials (env : req_env) (h : Header) (r : Route) (s : Api) :
  (protected r = true → ¬ credentials_ok env h → status_of (serve env h r s).1 = 401%Z ∧ (serve env h r s).2 = s) ∧
  (protected r = false ∨ credentials_ok env h → serve env h r s = handle env h r s).
Proof.
  unfold Http.serve. split.
  - intros -> Hc. destruct (requireJWT APIKey ClientToken jwtSecret j env h) as [resp|] eqn:E.
    + split; [by eapply requireJWT_stop|done].
    + by apply requireJWT_spec in E.
  - intros [->|Hc]; [done|]. destruct (protected r); [|done]. by rewrite (proj2 (requireJWT_spec env h) Hc).
Qed.

(** A login with the API key gives a token that opens every route for a day
    and is refused afterwards; any other key gives none. *)
Lemma login_opens `{!JWTLaws j} (env env' : req_env) (key t : string) (h : Header) (r : Route) (s : Api) :
  (key ≠ APIKey → handleLogin APIKey jwtSecret j env (Ok key) = fail 401 "invalid api key") ∧
  (handleLogin APIKey jwtSecret j env (Ok key) = Json 200 0 "success" (DToken t 86400) →
   GetHeader h "Authorization" = "Bearer " +:+ t →
   ((rv_s env' < rv_s env + 86400)%Z → serve env' h r s = handle env' h r s) ∧
   ((rv_s env + 86400 <= rv_s env')%Z → protected r = true →
      status_of (serve env' h r s).1 = 401%Z ∧ (serve env' h r s).2 = s)).
Proof.
  unfold handleLogin, ValidateAPIKey. split; [intros Hne; by rewrite bool_decide_eq_false_2|].
  case_bool_decide; [|done]. cbn. unfold GenerateToken.
  destruct (jw_SignedString j jwtSecret _) as [t'|] eqn:Es; [|done]. intros [= ->] Hh.
  pose proof (jwt_expires _ _ _ (rv_s env') Es) as Hv. cbn in Hv.
  pose proof (requireJWT_spec env' h) as Hspec. unfold Http.serve. split.
  - intros Hlt. destruct (protected r); [|done]. rewrite (proj2 Hspec); [done|].
    left. exists t. split; [done|]. apply Hv. lia.
  - intros Hle ->. destruct (requireJWT APIKey ClientToken jwtSecret j env' h) as [resp|] eqn:E.
    + split; [by eapply requireJWT_stop|done].
    + exfalso. destruct (proj1 Hspec eq_refl) as [(t' & Ht & Hs)|[[Hn _]|[Hn _]]]; rewrite Hh in *; [|done..].
      apply (inj (String.append "Bearer ")) in Ht as <-. apply Hv in Hs. lia.
Qed.

End credentials.

(** ** Proxies and relays *)

Section proxies.
Context {W Provider : Type}.
Abbreviation Api := (@Api W Provider).


Definition valid_proxy (req : ProxyCreateRequest) : Prop :=
  req.(pcr_ClientID) ≠ "" ∧ (1 <= req.(pcr_RemotePort) <= 65535)%Z ∧ (1 <= req.(pcr_LocalPort) <= 65535)%Z ∧
  (req.(pcr_Protocol) = "" ∨ req.(pcr_Protocol) = "tcp" ∨ req.(pcr_Protocol) = "udp").

Definition proxy_of (req : ProxyCreateRequest) : ProxyState :=
  mkProxyState req.(pcr_ClientID) req.(pcr_RemotePort) req.(pcr_LocalPort) (or_default req.(pcr_LocalIP) "127.0.0.1")
    (or_default req.(pcr_Protocol) "tcp") (or_default req.(pcr_BindAddr) "0.0.0.0").

Lemma bad_port_spec p : bad_port p = false ↔ (1 <= p <= 65535)%Z.
Proof. unfold bad_port. rewrite orb_false_iff, !Z.ltb_ge. lia. Qed.

Lemma proxy_request_valid req : valid_proxy req → proxy_request req = inr (proxy_of req).
Proof.
  intros (Hc & Hr%bad_port_spec & Hl%bad_port_spec & Hp). unfold proxy_request.
  rewrite decide_False, Hr, Hl by done. rewrite decide_False; [done|].
  unfold or_default. intros [H1 H2]. destruct Hp as [E|[E|E]]; rewrite E in *; done.
Qed.

Lemma proxy_request_invalid req : ¬ valid_proxy req → ∃ msg, proxy_request req = inl (fail 400 msg).
Proof.
  intros Hv. unfold proxy_request. case_decide as Hc; [by eexists|].
  destruct (bad_port req.(pcr_RemotePort)) eqn:Hr; [by eexists|].
  destruct (bad_port req.(pcr_LocalPort)) eqn:Hl; [by eexists|].
  case_decide as Hp; [by eexists|]. exfalso. apply Hv. split_and!; [done|by apply bad_port_spec..|].
  unfold or_default in Hp. destruct (decide (req.(pcr_Protocol) = "")); [by left|].
  destruct (decide (req.(pcr_Protocol) = "tcp")); [by right; left|].
  destruct (decide (req.(pcr_Protocol) = "udp")); [by right; right|]. tauto.
Qed.

Lemma find_some_iff {A} (f : A → bool) (l : list A) :
  match List.find f l with
  | Some x => x ∈ l ∧ f x = true
  | None => ∀ x, x ∈ l → f x = false
  end.
Proof.
  destruct (List.find f l) eqn:E.
  - apply List.find_some in E as [Hin Hf]. by rewrite list_elem_of_In.
  - intros x Hx%list_elem_of_In. by eapply List.find_none.
Qed.

(** What the list of proxies holds. *)
Lemma elem_of_ListProxies st i :
  store_wf st →
  i ∈ ListProxies st ↔ ∃ p, GetProxy st p.(ps_ClientID) p.(ps_RemotePort) = Some p ∧
    i = mkProxyInfo p.(ps_ClientID) p.(ps_RemotePort) p.(ps_LocalPort) p.(ps_LocalIP) p.(ps_Protocol)
          p.(ps_BindAddr) (st.(publicIP) +:+ ":" +:+ pretty p.(ps_RemotePort)).
Proof.
  intros Hwf. unfold ListProxies, GetProxy. rewrite list_elem_of_fmap. split.
  - intros ([k p] & -> & Hl%elem_of_map_to_list). exists p. split; [|done]. cbn.
    by rewrite <-(wf_proxies _ Hwf _ _ Hl).
  - intros (p & Hp & ->). exists (proxyKey p.(ps_ClientID) p.(ps_RemotePort), p).
    split; [done|]. by apply elem_of_map_to_list.
Qed.

(** A request for a proxy is answered 400 and changes nothing unless it
    names a client, two ports from 1 to 65535 and a known protocol; else it
    publishes one event, and the store that applies it holds exactly the
    proxy asked for, with the defaults, beside the other proxies.  Deleting
    by port is answered 404 when no client has a proxy on that port; else it
    publishes one event, which removes one proxy on that port and no other. *)
Theorem proxy_requests (env : req_env) (req : ProxyCreateRequest) (text : string) (port now : Z) (s : Api) :
  store_wf s.(ap_store) → Atoi text = Some port →
  let st := s.(ap_store) in
  (valid_proxy req → ∃ e, handleCreateProxy env (Ok req) s = (ok (DStr "created"), publish e s) ∧
     (Apply now e st).(proxies) = <[proxyKey req.(pcr_ClientID) req.(pcr_RemotePort) := proxy_of req]> st.(proxies)) ∧
  (¬ valid_proxy req → ∃ msg, handleCreateProxy env (Ok req) s = (fail 400 msg, s)) ∧
  ((∀ c, GetProxy st c port = None) → handleDeleteProxy env text s = (fail 404 "proxy not found", s)) ∧
  ((∃ c, is_Some (GetProxy st c port)) → ∃ e c, handleDeleteProxy env text s = (ok (DStr "deleted"), publish e s) ∧
     is_Some (GetProxy st c port) ∧ (Apply now e st).(proxies) = delete (proxyKey c port) st.(proxies)).
Proof.
  intros Hwf Ht st. split_and!.
  - intros Hv. unfold handleCreateProxy. rewrite proxy_request_valid by done. by eexists.
  - intros [msg Hv]%proxy_request_invalid. exists msg. unfold handleCreateProxy. by rewrite Hv.
  - intros Hno. unfold handleDeleteProxy. rewrite Ht.
    pose proof (find_some_iff (λ p, (p.(pi_RemotePort) =? port)%Z) (ListProxies s.(ap_store))) as Hf.
    destruct (List.find _ _) as [i|]; [|done]. destruct Hf as [(p & Hp & ->)%elem_of_ListProxies Heq%Z.eqb_eq]; [|done].
    cbn in Heq. subst port. fold st in Hp. by rewrite Hno in Hp.
  - intros [c [p Hp]]. unfold handleDeleteProxy. rewrite Ht.
    pose proof (find_some_iff (λ p, (p.(pi_RemotePort) =? port)%Z) (ListProxies s.(ap_store))) as Hf.
    destruct (List.find _ _) as [i|].
    + destruct Hf as [(q & Hq & ->)%elem_of_ListProxies Heq%Z.eqb_eq]; [|done]. cbn in Heq. subst port.
      eexists _, _. split; [done|]. by split.
    + pose proof (wf_proxies _ Hwf _ _ Hp) as Hk. apply (inj2 _) in Hk as [-> ->]. exfalso.
      specialize (Hf (mkProxyInfo p.(ps_ClientID) p.(ps_RemotePort) p.(ps_LocalPort) p.(ps_LocalIP) p.(ps_Protocol)
          p.(ps_BindAddr) (st.(publicIP) +:+ ":" +:+ pretty p.(ps_RemotePort)))).
      rewrite elem_of_ListProxies in Hf by done. apply Z.eqb_neq in Hf; [done|by exists p].
Qed.

(** Which relay a deletion removes: the one with the identifier, else one
    whose identifier begins with it, else none. *)
Lemma find_relay_spec (st : StateStoreImpl) (id : string) :
  store_wf st →
  match find_relay id st with
  | Some full => is_Some (GetRelaySession st full) ∧ String.prefix id full = true ∧
                 (is_Some (GetRelaySession st id) → full = id)
  | None => ∀ full, is_Some (GetRelaySession st full) → String.prefix id full = false
  end.
Proof.
  intros Hwf. unfold find_relay, GetRelaySession, ListRelaySessions.
  destruct (st.(relays) !! id) as [r|] eqn:E.
  { rewrite E. split_and!; [done| |done]. apply prefix_spec. exists "". by rewrite string_app_nil_r. }
  pose proof (find_some_iff (λ r, String.prefix id r.(rs_ID)) (map_to_list st.(relays)).*2) as Hf.
  destruct (List.find _ _) as [r|]; cbn.
  - destruct Hf as [([k r'] & -> & Hl%elem_of_map_to_list)%list_elem_of_fmap Hp]. cbn in *.
    rewrite (wf_relays _ Hwf _ _ Hl) in Hp |- *. split_and!; [by rewrite Hl|done|]. by intros [? ?].
  - intros full [r Hr]. rewrite <-(wf_relays _ Hwf _ _ Hr). apply Hf, list_elem_of_fmap.
    exists (full, r). split; [done|]. by apply elem_of_map_to_list.
Qed.

End proxies.

(** ** Registration with a voucher *)

Section vouchers.
Context {W Provider : Type}.
Context `{!JsonCodec (gmap string ClientRecord)} `{!JsonCodec (gmap string Voucher)}.
Context (cy : Crypto).
Abbreviation Api := (@Api W Provider).


(** What an operation on one client leaves alone. *)
Definition same_but (id : string) (a a' : Manager * directory) : Prop :=
  (∀ id', id' ≠ id → a'.1.(mg_clients) !! id' = a.1.(mg_clients) !! id') ∧ a'.1.(mg_vouchers) = a.1.(mg_vouchers).
Definition key_of (a : Manager * directory) (id : string) : option string :=
  cr_PublicKey <$> (a.1.(mg_clients) !! id).

#[export] Instance same_but_refl id : Reflexive (same_but id).
Proof. by intros a. Qed.
#[export] Instance same_but_trans id : Transitive (same_but id).
Proof.
  intros a b c [H1 H2] [H3 H4]. split; [|congruence]. intros id' Hne. by rewrite H3, H1.
Qed.

Lemma same_but_insert id c m ns d d' :
  same_but id (m, d) (mkManager (<[id := c]> m.(mg_clients)) ns m.(mg_vouchers), d').
Proof. split; [|done]. intros id' Hne. cbn. by rewrite lookup_insert_ne. Qed.

Lemma AddApplication_effect id key now w a r a' :
  AddApplication id key now w a = (r, a') → same_but id a a' ∧ (is_ok r = true → key_of a' id = Some key).
Proof.
  destruct a as [m d]. unfold AddApplication. destruct (m.(mg_clients) !! id) as [c|]; [by intros [= <- <-]|].
  destruct (saveRegistry _ w d) as [[u|e] d']; intros [= <- <-].
  - split; [apply same_but_insert|]. intros _. unfold key_of. cbn. by rewrite lookup_insert_eq.
  - split; [|done]. split; [|done]. intros id' Hne. cbn. by rewrite lookup_delete_ne, lookup_insert_ne.
Qed.

Lemma save_clients_effect id c m w d r a' :
  save_clients (set_clients m (<[id := c]> m.(mg_clients))) w d = (r, a') →
  same_but id (m, d) a' ∧ key_of a' id = Some c.(cr_PublicKey).
Proof.
  unfold save_clients. destruct (saveRegistry _ w d) as [r' d']. intros [= <- <-].
  split; [apply same_but_insert|]. unfold key_of. cbn. by rewrite lookup_insert_eq.
Qed.

Lemma UpdatePublicKey_effect id key w a r a' :
  UpdatePublicKey id key w a = (r, a') → same_but id a a' ∧ (is_ok r = true → key_of a' id = Some key).
Proof.
  destruct a as [m d]. unfold UpdatePublicKey. destruct (m.(mg_clients) !! id) as [c|]; [|by intros [= <- <-]].
  intros [H1 H2]%save_clients_effect. by split.
Qed.

Lemma ResetClientStatus_effect id w a :
  same_but id a (ResetClientStatus id w a) ∧ key_of (ResetClientStatus id w a) id = key_of a id.
Proof.
  destruct a as [m d]. unfold ResetClientStatus. destruct (m.(mg_clients) !! id) as [c|] eqn:E; [|done].
  destruct (save_clients _ w d) as [r a'] eqn:Es. apply save_clients_effect in Es as [H1 H2].
  cbn [snd]. split; [done|]. rewrite H2. unfold key_of. cbn. by rewrite E.
Qed.

(** The client is approved with a certificate for its key. *)
Definition certified (a : Manager * directory) (id key cert namespace role : string) (serial now : Z) : Prop :=
  ∃ c, a.1.(mg_clients) !! id = Some c ∧ c.(cr_Status) = "approved" ∧ c.(cr_PublicKey) = key ∧
    c.(cr_Certificate) = cert ∧ c.(cr_Namespace) = namespace ∧ c.(cr_Role) = role ∧
    signClientCertificate cy serial now key id 365 = Ok cert.

Lemma Approve_effect id namespace role serial now w a r a' :
  Approve cy id namespace role serial now w a = (r, a') →
  same_but id a a' ∧ key_of a' id = key_of a id ∧
  ∀ cert, r = Ok cert → ∃ key, key_of a id = Some key ∧ certified a' id key cert namespace role serial now.
Proof.
  destruct a as [m d]. unfold Approve. destruct (m.(mg_clients) !! id) as [c|] eqn:E; [|by intros [= <- <-]].
  destruct (negb _); [by intros [= <- <-]|].
  destruct (signClientCertificate _ _ _ _ _ _) as [cert|e] eqn:Hs; [|by intros [= <- <-]].
  assert (Hkey : key_of (m, d) id = Some c.(cr_PublicKey)) by (unfold key_of; cbn; by rewrite E).
  destruct (saveRegistry _ w d) as [[u|e] d']; intros [= <- <-]; (split; [apply same_but_insert|]);
    rewrite Hkey; unfold key_of, certified; cbn; rewrite lookup_insert_eq; (split; [done|]); [|done].
  intros cert' [= <-]. exists c.(cr_PublicKey). split; [done|]. by eexists.
Qed.

Lemma put_application_effect env id key a r a' :
  put_application env id key a = (r, a') → same_but id a a' ∧ (is_ok r = true → key_of a' id = Some key).
Proof.
  unfold put_application. destruct (AddApplication _ _ _ _ a) as [[u|e] a1] eqn:Ha;
    apply AddApplication_effect in Ha as [H1 H2].
  { intros [= <- <-]. split; [done|]. intros _. by apply H2. }
  case_decide; [by intros [= <- <-]|]. intros [H3 H4]%UpdatePublicKey_effect.
  split; [by transitivity a1|done].
Qed.

Lemma force_approve_effect env id namespace role a cert a' :
  force_approve cy env id namespace role a = (Ok cert, a') →
  same_but id a a' ∧ ∃ key serial, key_of a id = Some key ∧ certified a' id key cert namespace role serial (rv_s env).
Proof.
  unfold force_approve. destruct (Approve _ _ _ _ _ _ _ a) as [[cert1|e] a1] eqn:Ha;
    apply Approve_effect in Ha as (H1 & H2 & H3).
  { intros [= <- <-]. split; [done|]. destruct (H3 _ eq_refl) as (key & ? & ?). by exists key, (rv_serial env 0). }
  destruct (_ || _); [|done]. destruct (ResetClientStatus_effect id (rv_write env 4) a1) as [H4 H5].
  intros (H6 & _ & H7)%Approve_effect. split; [by etrans; [|etrans]|].
  destruct (H7 _ eq_refl) as (key & Hk & ?). exists key, (rv_serial env 1). split; [|done].
  by rewrite <-H2, <-H5.
Qed.

Lemma UseVoucher_effect code now w a v' a' :
  UseVoucher code now w a = (Ok v', a') →
  a'.1.(mg_clients) = a.1.(mg_clients) ∧
  ∃ v, a.1.(mg_vouchers) !! code = Some v ∧ v' = vc_set_used (int64_wrap (v.(vc_UsedCount) + 1)) v ∧
    a'.1.(mg_vouchers) = <[code := v']> a.1.(mg_vouchers) ∧
    ((0 < v.(vc_ExpiresAt))%Z → (now <= v.(vc_ExpiresAt))%Z) ∧
    ((0 < v.(vc_MaxUses))%Z → (v.(vc_UsedCount) < v.(vc_MaxUses))%Z).
Proof.
  destruct a as [m d]. unfold UseVoucher. destruct (m.(mg_vouchers) !! code) as [v|] eqn:E; [|done].
  destruct (_ && _) eqn:H1; [done|]. destruct (_ && _) eqn:H2 in |- *; [done|].
  destruct (saveVouchers _ w d) as [[u|e] d']; [|done]. intros [= <- <-]. split; [done|].
  exists v. cbn. split_and!; try done; intros Hp.
  - rewrite (proj2 (Z.ltb_lt _ _) Hp) in H1. cbn in H1. lia.
  - rewrite (proj2 (Z.ltb_lt _ _) Hp) in H2. cbn in H2. lia.
Qed.

(** When the registration with a voucher succeeds, the voucher existed,
    was not expired and not used up, and one use more is counted; the client
    is approved with a certificate for the key of the request, which is the
    answer, in the namespace and the role of the voucher; no other client is
    touched.  Nothing is asked of the client as it was before: a voucher
    replaces the key of any client, approved or not. *)
Theorem voucher_registration (env : req_env) (req : VoucherReq) (s s' : Api) (resp : Response) :
  handleRegisterVoucher cy env (Ok req) s = (resp, s') → status_of resp = 200%Z →
  ∃ v cert namespace role serial,
    (manager s).(mg_vouchers) !! req.(vr_Voucher) = Some v ∧
    ((0 < v.(vc_ExpiresAt))%Z → (rv_s env <= v.(vc_ExpiresAt))%Z) ∧
    ((0 < v.(vc_MaxUses))%Z → (v.(vc_UsedCount) < v.(vc_MaxUses))%Z) ∧
    (manager s').(mg_vouchers) =
      <[req.(vr_Voucher) := vc_set_used (int64_wrap (v.(vc_UsedCount) + 1)) v]> (manager s).(mg_vouchers) ∧
    certified s'.(ap_auth) req.(vr_ClientID) req.(vr_PublicKey) cert namespace role serial (rv_s env) ∧
    resp = ok (DCertFor cert namespace role) ∧
    namespace = or_default v.(vc_Namespace) "permanent" ∧ role = or_default v.(vc_Role) "node" ∧
    (∀ id, id ≠ req.(vr_ClientID) → (manager s').(mg_clients) !! id = (manager s).(mg_clients) !! id).
Proof.
  unfold handleRegisterVoucher. case_decide; [by intros [= <- <-]|].
  destruct (UseVoucher _ _ _ _) as [[v'|e] a] eqn:Hu; [|by intros [= <- <-]].
  apply UseVoucher_effect in Hu as (Hc & v & Hv & -> & Hvs & He & Hm).
  destruct (put_application _ _ _ a) as [[u|e] a1] eqn:Hp; [|by intros [= <- <-]].
  apply put_application_effect in Hp as [[Hp1 Hp2] Hk]. specialize (Hk eq_refl).
  destruct (force_approve _ _ _ _ _ a1) as [[cert|e] a2] eqn:Hf; [|by intros [= <- <-]].
  apply force_approve_effect in Hf as [[Hf1 Hf2] (key & serial & Hk' & Hcert)].
  intros [= <- <-] _. rewrite Hk in Hk'. injection Hk' as <-.
  eexists v, cert, _, _, serial. split_and!; [exact Hv|done|done| |exact Hcert|done|done|done|].
  - unfold manager. cbn. by rewrite Hf2, Hp2, Hvs.
  - intros id Hne. unfold manager. cbn. by rewrite Hf1, Hp1, Hc.
Qed.

End vouchers.

(** ** Requests are runs of the registry *)

Section requests.
Context {W Provider : Type}.
Context `{!JsonCodec (gmap string ClientRecord)} `{!JsonCodec (gmap string Voucher)}.
Context (APIKey ClientToken version : string) (jwtSecret : bytes) (j : JWT) (cy : Crypto).
Abbreviation Api := (@Api W Provider).
Abbreviation serve := (serve APIKey ClientToken version jwtSecret j cy).
Abbreviation handle := (handle APIKey ClientToken version jwtSecret j cy).


Definition clean_env (env : req_env) : Prop := ∀ n, clean_write (rv_write env n).

(** Steps of the registry, none of them a restart. *)
Definition registry_steps : Manager * directory → Manager * directory → Prop :=
  rtc (λ a b, registry_step cy a RTau b).

Lemma saveVouchers_registry m w d : (saveVouchers m w d).2 !! registry_file = d !! registry_file.
Proof.
  unfold saveVouchers, WriteFile. destruct (marshalIndent _); [|done]. destruct w; [|done|];
    apply lookup_insert_ne; discriminate.
Qed.

(** An operation on vouchers. *)
Lemma voucher_steps m vs w d :
  registry_steps (m, d) (set_vouchers m vs, (saveVouchers (set_vouchers m vs) w d).2).
Proof. apply rtc_once, rs_other; [done..|]. apply saveVouchers_registry. Qed.

Lemma UseVoucher_steps code now w a : registry_steps a (UseVoucher code now w a).2.
Proof.
  destruct a as [m d]. unfold UseVoucher. destruct (m.(mg_vouchers) !! code) as [v|]; [|apply rtc_refl].
  repeat (case_match; [apply rtc_refl|]). cbn zeta.
  set (vs := <[code := _]> _). pose proof (saveVouchers_registry (set_vouchers m vs) w d) as Hr.
  destruct (saveVouchers (set_vouchers m vs) w d) as [[u|e] d']; cbn [snd] in *; by apply rtc_once, rs_other.
Qed.

Lemma CreateVoucher_steps rand now maxUses expiresAt ns role w a :
  registry_steps a (CreateVoucher rand now maxUses expiresAt ns role w a).2.
Proof.
  destruct a as [m d]. unfold CreateVoucher. cbn zeta. set (vs := <[_ := _]> _).
  pose proof (saveVouchers_registry (set_vouchers m vs) w d) as H.
  destruct (saveVouchers (set_vouchers m vs) w d) as [[u|e] d']; cbn [snd] in *; by apply rtc_once, rs_other.
Qed.

Lemma DeleteVoucher_steps code w a : registry_steps a (DeleteVoucher code w a).2.
Proof.
  destruct a as [m d]. unfold DeleteVoucher. destruct (m.(mg_vouchers) !! code); [|apply rtc_refl].
  apply voucher_steps.
Qed.

Lemma AddApplication_steps id key now w a : clean_write w → registry_steps a (AddApplication id key now w a).2.
Proof. intros Hw. apply rtc_once. destruct (AddApplication id key now w a) eqn:E. by eapply rs_add. Qed.
Lemma UpdatePublicKey_steps id key w a : clean_write w → registry_steps a (UpdatePublicKey id key w a).2.
Proof. intros Hw. apply rtc_once. destruct (UpdatePublicKey id key w a) eqn:E. by eapply rs_update. Qed.
Lemma Approve_steps id ns role serial now w a :
  clean_write w → registry_steps a (Approve cy id ns role serial now w a).2.
Proof. intros Hw. apply rtc_once. destruct (Approve cy id ns role serial now w a) eqn:E. by eapply rs_approve. Qed.
Lemma Delete_steps id w a : clean_write w → registry_steps a (Auth.Delete id w a).2.
Proof. intros Hw. apply rtc_once. destruct (Auth.Delete id w a) eqn:E. by eapply rs_delete. Qed.
Lemma SetClientNamespace_steps id ns role w a :
  clean_write w → registry_steps a (SetClientNamespace id ns role w a).2.
Proof. intros Hw. apply rtc_once. destruct (SetClientNamespace id ns role w a) eqn:E. by eapply rs_set_namespace. Qed.

(** A result taken apart keeps its steps. *)
Lemma steps_pair {A} (x : A * (Manager * directory)) r a a' :
  registry_steps a x.2 → x = (r, a') → registry_steps a a'.
Proof. by intros ? ->. Qed.

Lemma put_application_steps env id key a :
  clean_env env → registry_steps a (put_application env id key a).2.
Proof.
  intros Hw. unfold put_application. destruct (AddApplication _ _ _ _ a) as [[u|e] a1] eqn:E;
    (eapply steps_pair in E; [|by apply AddApplication_steps]); [done|].
  case_decide; [done|]. etrans; [exact E|]. by apply UpdatePublicKey_steps.
Qed.

Lemma force_approve_steps env id ns role a :
  clean_env env → registry_steps a (force_approve cy env id ns role a).2.
Proof.
  intros Hw. unfold force_approve. destruct (Approve _ _ _ _ _ _ _ a) as [[u|e] a1] eqn:E;
    (eapply steps_pair in E; [|by apply Approve_steps]); [done|].
  case_match; [|done]. etrans; [exact E|]. etrans; [by apply rtc_once, (rs_reset _ id (rv_write env 4))|].
  by apply Approve_steps.
Qed.

Lemma voucher_request_steps env body (s : Api) :
  clean_env env → registry_steps s.(ap_auth) (handleRegisterVoucher cy env body s).2.(ap_auth).
Proof.
  intros Hw. unfold handleRegisterVoucher. destruct body as [req|e]; [|apply rtc_refl].
  case_decide; [apply rtc_refl|].
  destruct (UseVoucher _ _ _ _) as [[v|e] a] eqn:E; (eapply steps_pair in E; [|apply UseVoucher_steps]); [|done].
  destruct (put_application _ _ _ a) as [[u|e] a1] eqn:E1;
    (eapply steps_pair in E1; [|by apply put_application_steps]); [|by etrans].
  cbn zeta. set (ns := if decide (vc_Namespace v = "") then _ else _).
  destruct (force_approve _ _ _ ns _ a1) as [[cert|e] a2] eqn:E2;
    (eapply steps_pair in E2; [|by apply force_approve_steps]); (etrans; [exact E|by etrans]).
Qed.

Lemma handle_steps env h r (s : Api) :
  clean_env env → registry_steps s.(ap_auth) (handle env h r s).2.(ap_auth).
Proof.
  intros Hw. destruct r; try apply rtc_refl.
  - destruct body as [req|e]; [|apply rtc_refl]. cbn [Http.handle handleRegisterApply].
    case_match; [apply rtc_refl|]. destruct (AddApplication _ _ _ _ _) as [r a] eqn:E.
    eapply steps_pair in E; [exact E|by apply AddApplication_steps].
  - by apply voucher_request_steps.
  - destruct body as [req|e]; [|apply rtc_refl]. cbn [Http.handle handleRegisterApprove].
    destruct (Approve _ _ _ _ _ _ _ _) as [r a] eqn:E. eapply steps_pair in E; [exact E|by apply Approve_steps].
  - destruct body as [req|e]; [|apply rtc_refl]. cbn [Http.handle handleRegisterRevoke].
    destruct (Auth.Delete _ _ _) as [r a] eqn:E. eapply steps_pair in E; [exact E|by apply Delete_steps].
  - destruct body as [req|e]; [|apply rtc_refl]. cbn [Http.handle handleCreateVoucher].
    destruct (CreateVoucher _ _ _ _ _ _ _ _) as [r a] eqn:E. eapply steps_pair in E; [exact E|apply CreateVoucher_steps].
  - cbn [Http.handle]. unfold handleDeleteVoucher. destruct (DeleteVoucher _ _ _) as [r a] eqn:E.
    eapply steps_pair in E; [exact E|apply DeleteVoucher_steps].
  - cbn [Http.handle]. unfold handleCreateProxy. repeat case_match; apply rtc_refl.
  - cbn [Http.handle]. unfold handleDeleteProxy. repeat case_match; apply rtc_refl.
  - cbn [Http.handle]. unfold handleCreateRelay. repeat case_match; apply rtc_refl.
  - cbn [Http.handle]. unfold handleDeleteRelay. repeat case_match; apply rtc_refl.
  - destruct body as [req|e]; [|apply rtc_refl]. cbn [Http.handle handleAssignNamespace].
    destruct (SetClientNamespace _ _ _ _ _) as [r a] eqn:E.
    eapply steps_pair in E; [exact E|by apply SetClientNamespace_steps].
  - cbn [Http.handle]. unfold handleCall. repeat case_match; apply rtc_refl.
Qed.

Lemma serve_steps env h r (s : Api) : clean_env env → registry_steps s.(ap_auth) (serve env h r s).2.(ap_auth).
Proof. intros Hw. unfold Http.serve. case_match; [apply rtc_refl|by apply handle_steps]. Qed.

Definition request : Type := req_env * Header * Route.
Definition serve_all (reqs : list request) (s : Api) : Api :=
  foldl (λ s '(env, h, r), (serve env h r s).2) s reqs.

Lemma serve_all_steps reqs (s : Api) :
  Forall (λ q, clean_env q.1.1) reqs → registry_steps s.(ap_auth) (serve_all reqs s).(ap_auth).
Proof.
  revert s. induction reqs as [|[[env h] r] reqs IH]; intros s Hf; [apply rtc_refl|].
  apply Forall_cons in Hf as [He Hf]. cbn [serve_all foldl]. etrans; [by apply serve_steps|]. by apply IH.
Qed.

Hypothesis json_clients : ∀ cs : gmap string ClientRecord, json_view cs = cs.

Lemma registry_steps_inv tr a a' :
  registry_steps a a' → RRestart ∉ tr → registry_inv cy tr a → ∃ tr', (RRestart ∉ tr') ∧ registry_inv cy tr' a'.
Proof using json_clients.
  intros Hs. revert tr. induction Hs as [a|a b c Hab _ IH]; intros tr Hr Hi; [by exists tr|].
  apply (IH (tr ++ [RTau])); [|by eapply registry_step_inv].
  rewrite not_elem_of_app, list_elem_of_singleton. by split.
Qed.

(** C11. However many requests the server handles, with credentials or without,
    as long as a write that fails leaves its file alone: every client is
    pending without a certificate or approved with one for its present key,
    in memory and in the file of the registry, and every approved client is
    listed by its namespace when that exists. *)
Theorem requests_keep_registry (now : Z) (st : StateStoreImpl) (caps : Capability.CapabilityRegistryImpl) (w : W)
    (reqs : list request) :
  Forall (λ q, clean_env q.1.1) reqs →
  let a := (serve_all reqs (mkApi (Auth.Init now ∅, ∅) st caps w [])).(ap_auth) in
  (∀ id c, a.1.(mg_clients) !! id = Some c → record_ok cy id c) ∧
  (∀ cs id c, a.2 !! registry_file ≫= unmarshal = Some cs → cs !! id = Some c → record_ok cy id c) ∧
  (∀ id c ni, a.1.(mg_clients) !! id = Some c → c.(cr_Status) = "approved" →
     a.1.(mg_namespaces) !! c.(cr_Namespace) = Some ni → id ∈ ni.(ns_Clients)).
Proof using json_clients.
  intros Hf a. destruct (registry_steps_inv [] (Auth.Init now ∅, ∅) a) as (tr & Hr & [H1 H2 H3]).
  - by apply (serve_all_steps reqs (mkApi (Auth.Init now ∅, ∅) st caps w [])).
  - apply not_elem_of_nil.
  - by eapply registry_run_inv; [|apply rr_nil].
  - split_and!; [exact H1| |by apply H3]. intros cs id c Hcs. by apply H2.
Qed.

End requests.

(** ** Listings and durations *)

Section listings.
Context {W Provider : Type}.
Abbreviation Api := (@Api W Provider).


(** Every approved client is listed once, in the order of the registry, and
    online exactly when the store has it. *)
Lemma list_nodes (s : Api) :
  (∀ k e, s.(ap_store).(clients) !! k = Some e → e.(ce_ClientID) = k) →
  handleListNodes s = ok (DNodes (node_of (ListClients s.(ap_store)) <$> GetApproved (manager s))) ∧
  ∀ a, let n := node_of (ListClients s.(ap_store)) a in
    n.(nd_id) = a.(cr_ClientID) ∧ (n.(nd_online) = true ↔ is_Some (s.(ap_store).(clients) !! a.(cr_ClientID))).
Proof.
  intros Hwf. split; [done|]. intros a. unfold node_of.
  pose proof (find_some_iff (λ oc, bool_decide (oc.(ci_ID) = a.(cr_ClientID))) (ListClients s.(ap_store))) as Hf.
  destruct (List.find _ _) as [oc|]; cbn.
  - destruct Hf as [([k e] & -> & Hl%elem_of_map_to_list)%list_elem_of_fmap Heq%bool_decide_eq_true_1].
    split; [done|]. split; [|done]. cbn in *. rewrite <-Heq, (Hwf _ _ Hl). by eexists.
  - split; [done|]. split; [done|]. intros [e He]. exfalso.
    specialize (Hf (clientInfo s.(ap_store) e)). rewrite bool_decide_eq_false in Hf. apply Hf; [|by apply Hwf in He].
    apply list_elem_of_fmap. exists (a.(cr_ClientID), e). split; [done|]. by apply elem_of_map_to_list.
Qed.

(** The three numbers of [formatDuration] denote the duration rounded to the
    nearest second, minutes and seconds below sixty. *)
Lemma hms_spec d :
  (0 <= d)%Z →
  let '(h, m, s) := hms d in
  (0 <= h ∧ 0 <= m < 60 ∧ 0 <= s < 60 ∧ (h * 3600 + m * 60 + s) * second = round_second d ∧
   2 * Z.abs (round_second d - d) <= second)%Z.
Proof.
  intros Hd. unfold hms, round_second, second. set (r := (d mod 1000000000)%Z).
  pose proof (Z.mod_pos_bound d 1000000000 ltac:(lia)) as Hr. fold r in Hr.
  assert (Hq : d = (1000000000 * (d / 1000000000) + r)%Z) by (apply Z.div_mod; lia).
  set (q := (d / 1000000000)%Z) in *. assert (0 <= q)%Z by lia.
  assert (Hround : ∃ n, (0 <= n)%Z ∧ (if (r + r <? 1000000000)%Z then (d - r)%Z else (d + 1000000000 - r)%Z)
    = (n * 1000000000)%Z ∧ (2 * Z.abs (n * 1000000000 - d) <= 1000000000)%Z).
  { destruct (Z.ltb_spec (r + r) 1000000000); [exists q|exists (q + 1)%Z]; lia. }
  destruct Hround as (n & Hn & -> & Hdist). rewrite Z.div_mul by lia.
  pose proof (Z.div_mod n 60 ltac:(lia)). pose proof (Z.mod_pos_bound n 60 ltac:(lia)).
  pose proof (Z.div_mod (n / 60) 60 ltac:(lia)). pose proof (Z.mod_pos_bound (n / 60) 60 ltac:(lia)).
  assert (n / 3600 = n / 60 / 60)%Z as -> by (rewrite Z.div_div by lia; done).
  split_and!; lia.
Qed.

(** A voucher expires the seconds asked for after now as long as they fit
    a duration in nanoseconds; one second more than 2^63 nanoseconds and the
    multiplication wraps around, so that the new voucher is expired. *)
Theorem voucher_expiry (env : req_env) (e : Z) :
  ((0 < e <= 9223372036)%Z → expires_at env e = (rv_s env + e)%Z) ∧
  ((e <= 0)%Z → expires_at env e = 0%Z) ∧
  (expires_at env 9223372037 < rv_s env)%Z.
Proof.
  unfold expires_at, rv_s, second. split_and!.
  - intros He. rewrite (proj2 (Z.ltb_lt 0 e)) by lia. rewrite int64_wrap_id by (unfold int64_min, int64_max; lia).
    rewrite Z.div_add by lia. lia.
  - intros He. by rewrite (proj2 (Z.ltb_ge 0 e)) by lia.
  - rewrite (proj2 (Z.ltb_lt 0 _)) by lia. assert (int64_wrap (9223372037 * 1000000000) = -9223372036709551616)%Z as ->
      by reflexivity.
    apply Z.div_lt_upper_bound; [lia|]. pose proof (Z.div_mod env.(rv_ns) 1000000000 ltac:(lia)).
    pose proof (Z.mod_pos_bound env.(rv_ns) 1000000000 ltac:(lia)). lia.
Qed.
End listings.

(** ** Witnesses *)

#[local] Existing Instances Auth.ClientRecord_countable Auth.Voucher_countable toy_codec.

Definition example_api : @Api unit unit :=
  mkApi md_voucher (mkStateStore ∅ {[proxyKey "cam" 8080 := mkProxyState "cam" 8080 80 "127.0.0.1" "tcp" "0.0.0.0"]}
    ∅ ∅ ∅ ∅ ∅ "1.2.3.4") Capability.NewCapabilityRegistry tt [].
Definition example_req : req_env := mkReqEnv (λ n, pretty n) (λ n, Z.of_nat n) (λ _, WriteDone) "01" 6000 6000000000 0.
Definition example_voucher_req : VoucherReq := mkVoucherReq "cam" "key" "vch_00".

Definition dev_request : ProxyCreateRequest := mkProxyCreateRequest "dev" 81 22 "" "" "".
Definition wide_request : ProxyCreateRequest := mkProxyCreateRequest "dev" 70000 22 "" "" "".

Lemma proxy_requests_witness :
  (∃ e, handleCreateProxy example_req (Ok dev_request) example_api
      = (ok (DStr "created"), publish e example_api)) ∧
  (∃ msg, handleCreateProxy example_req (Ok wide_request) example_api
      = (fail 400 msg, example_api)) ∧
  (∃ e c, handleDeleteProxy example_req "8080" example_api = (ok (DStr "deleted"), publish e example_api) ∧
     (Apply 0 e example_api.(ap_store)).(proxies) = delete (proxyKey c 8080) example_api.(ap_store).(proxies)).
Proof.
  assert (Hwf : store_wf example_api.(ap_store)).
  { split; cbn; intros *; rewrite ?lookup_empty; try done. intros [<- <-]%lookup_singleton_Some. done. }
  destruct (proxy_requests example_req dev_request "8080" 8080 0 example_api Hwf
    ltac:(vm_compute; reflexivity)) as (H1 & _ & _ & H4).
  destruct (proxy_requests example_req wide_request "8080" 8080 0 example_api Hwf
    ltac:(vm_compute; reflexivity)) as (_ & H2 & _).
  split_and!.
  - destruct H1 as (e & He & _); [|exists e; exact He].
    split; [discriminate|]. cbn. repeat split; try lia. by left.
  - destruct H2 as [msg Hm]; [|exists msg; exact Hm]. intros (_ & Hp & _). cbn in Hp. lia.
  - destruct H4 as (e & c & He & _ & Hd); [|exists e, c; split; [exact He|exact Hd]]. exists "cam". vm_compute. by eexists.
Defined.

(** "cam" is approved with another key before. *)
Definition taken_api : @Api unit unit :=
  mkApi (Approve toy_crypto "cam" "permanent" "node" 7 2 WriteDone
           (AddApplication "cam" "old" 1 WriteDone md_voucher).2).2
    (NewStateStore "1.2.3.4") Capability.NewCapabilityRegistry tt [].

Lemma voucher_registration_witness :
  cr_PublicKey <$> ((manager taken_api).(mg_clients) !! "cam") = Some "old" ∧
  ∃ cert namespace role serial now,
    certified toy_crypto (handleRegisterVoucher toy_crypto example_req (Ok example_voucher_req) taken_api).2.(ap_auth)
      "cam" "key" cert namespace role serial now.
Proof.
  split; [vm_compute; reflexivity|].
  destruct (voucher_registration toy_crypto example_req example_voucher_req taken_api _ _ (surjective_pairing _))
    as (v & cert & namespace & role & serial & _ & _ & _ & _ & Hc & _); [vm_compute; reflexivity|].
  exists cert, namespace, role, serial, (rv_s example_req). exact Hc.
Defined.

Definition example_requests : list request :=
  [(example_req, ∅, PostRegisterApply (Ok (mkApplyReq "cam" "key" "t")));
   (example_req, {["X-Api-Key" := ["k"]]}, PostApprove (Ok (mkAssignReq "cam" "permanent" "node")))].

Lemma requests_keep_registry_witness :
  let s := serve_all "k" "t" "6" [] toy_jwt toy_crypto example_requests
             (mkApi (Auth.Init 0 ∅, ∅) (NewStateStore "1.2.3.4") (@Capability.NewCapabilityRegistry unit unit) tt []) in
  (∃ c, s.(ap_auth).1.(mg_clients) !! "cam" = Some c ∧ c.(cr_Status) = "approved") ∧
  (∀ id c, s.(ap_auth).1.(mg_clients) !! id = Some c → record_ok toy_crypto id c).
Proof.
  split; [vm_compute; by eexists|].
  apply (requests_keep_registry "k" "t" "6" [] toy_jwt toy_crypto toy_view 0 (NewStateStore "1.2.3.4")
    Capability.NewCapabilityRegistry tt example_requests).
  repeat constructor; by left.
Defined.
