(* ===== verification/Log.v ===== *)
(** * The log (common/log/log.go)

    The fields of a line and what of them is hidden, the line, and the way of
    a line to the terminal and through the buffer to the file.  The text of a
    value ([%v]), the time, the caller and the JSON of an entry are
    arguments; keys are ASCII. *)

From S2P Require Import Prelude Disk Http.

(** ** Hiding *)

Definition sensitiveKeys : list string :=
  ["token"; "api_key"; "apikey"; "secret"; "password"; "passwd"; "credential"; "auth"; "private_key"; "privatekey"].

Definition lower_char (c : ascii) : ascii :=
  let z := Z_of_byte c in if (65 <=? z)%Z && (z <=? 90)%Z then byte_of_Z (z + 32) else c.
Fixpoint ToLower (s : string) : string := match s with "" => "" | String c s => String (lower_char c) (ToLower s) end.

Definition is_sensitive (k : string) : bool := existsb (Contains (ToLower k)) sensitiveKeys.

(** The pattern [(token|api_key|apikey|secret)=([^&\s]+)]. *)
Definition keywords : list bytes :=
  [list_ascii_of_string "token"; list_ascii_of_string "api_key"; list_ascii_of_string "apikey"; list_ascii_of_string "secret"].
Definition is_value (c : ascii) : bool :=
  negb (bool_decide (c ∈ ["&"; " "; "009"; "010"; "012"; "013"]%char)).
Definition starts_with (kw l : bytes) : bool :=
  bool_decide (kw ++ ["="%char] `prefix_of` l) &&
  match drop (S (length kw)) l with c :: _ => is_value c | [] => false end.
Definition match_key (l : bytes) : option nat := length <$> List.find (λ kw, starts_with kw l) keywords.

(** [ReplaceAllString] with [${1}=***], as one pass over the text: at a match
    the keyword and its sign are copied, the longest value is replaced, and
    the search goes on behind it. *)
Inductive scan_state := Search | Copy (n : nat) | Skip.
Fixpoint scan (st : scan_state) (l : bytes) : bytes :=
  match l with
  | [] => []
  | c :: l' =>
      let search := match match_key l with Some n => c :: scan (Copy n) l' | None => c :: scan Search l' end in
      match st with
      | Search => search
      | Copy 0 | Copy 1 => c :: list_ascii_of_string "***" ++ scan Skip l'
      | Copy (S n) => c :: scan (Copy n) l'
      | Skip => if is_value c then scan Skip l' else search
      end
  end.

Definition sanitizeURL (s : string) : string :=
  if Contains s "://" then string_of_list_ascii (scan Search (list_ascii_of_string s)) else s.

(** ** Fields *)

Fixpoint parse_pairs (fields : list string) (m : gmap string string) : gmap string string :=
  match fields with
  | k :: v :: rest => parse_pairs rest (<[k := v]> m)
  | [x] => <["_extra" := x]> m
  | [] => m
  end.
Definition parseFields (fields : list string) : gmap string string := parse_pairs fields ∅.
Definition sanitize (pairs : gmap string string) : gmap string string :=
  map_imap (λ k v, Some (if is_sensitive k then "***" else sanitizeURL v)) pairs.

Definition Mask (s : string) : string := if decide (String.length s <= 3) then "***" else slice_to 3 s +:+ "***".
Definition MaskToken (s : string) : string := if decide (String.length s <= 10) then "***" else slice_to 6 s +:+ "***".

(** ** Lines *)

Inductive Level := DEBUG | INFO | WARN | ERROR | FATAL.
Definition level_number (l : Level) : Z := match l with DEBUG => 0 | INFO => 1 | WARN => 2 | ERROR => 3 | FATAL => 4 end.
Definition level_name (l : Level) : string :=
  match l with DEBUG => "DEBUG" | INFO => "INFO" | WARN => "WARN" | ERROR => "ERROR" | FATAL => "FATAL" end.
Definition escape (code : string) : string := String "027" ("[" +:+ code +:+ "m").
Definition level_color (l : Level) : string :=
  escape match l with DEBUG => "36" | INFO => "32" | WARN => "33" | ERROR => "31" | FATAL => "35" end.
Inductive Format := FormatText | FormatJSON.

(** Where a line comes from. *)
Record Origin := mkOrigin { or_time : string; or_file : string; or_line : Z }.

Definition logText (pid : Z) (level : Level) (msg : string) (o : Origin) (sanitized : gmap string string) : string :=
  o.(or_time) +:+ " " +:+ level_color level +:+ "[" +:+ level_name level +:+ "]" +:+ escape "0" +:+ " " +:+
  pretty pid +:+ " " +:+ o.(or_file) +:+ ":" +:+ pretty o.(or_line) +:+ " " +:+ msg +:+
  foldr (λ k rest, " " +:+ k +:+ "=" +:+ default "" (sanitized !! k) +:+ rest) (String "010" "")
    (merge_sort str_le (map_to_list sanitized).*1).

(** ** The logger *)

(** A [bufio.Writer] on a file: the bytes that have not reached the file,
    whether the file is open, and whether a write has failed, which makes
    every later one fail. *)
Record Buf := mkBuf { bf_path : string; bf_pending : bytes; bf_open : bool; bf_err : bool }.

(** The outputs of the [io.MultiWriter]s, in their order: the terminal and
    every buffer since the start; [lg_current] is [l.buf]. *)
Record Logger := mkLogger {
  lg_level : Level;
  lg_format : Format;
  lg_pid : Z;
  lg_stderr : bytes;
  lg_bufs : list Buf;
  lg_current : option nat;
  lg_files : directory;
}.

Definition New (level : Level) (format : Format) (pid : Z) (d : directory) : Logger := mkLogger level format pid [] [] None d.

Definition buf_size : nat := Z.to_nat 65536.

(** One write of the buffer to its file. *)
Definition file_write (b : Buf) (p : bytes) (d : directory) : Buf * directory :=
  if b.(bf_open) then (mkBuf b.(bf_path) [] true b.(bf_err), <[b.(bf_path) := default [] (d !! b.(bf_path)) ++ p]> d)
  else (mkBuf b.(bf_path) b.(bf_pending) false true, d).
Definition buf_Flush (b : Buf) (d : directory) : Buf * directory :=
  if b.(bf_err) then (b, d) else if decide (b.(bf_pending) = []) then (b, d) else file_write b b.(bf_pending) d.

Definition buf_put (p : bytes) (b : Buf) : Buf := mkBuf b.(bf_path) (b.(bf_pending) ++ p) b.(bf_open) b.(bf_err).
(** [bufio.Writer.Write]: a full buffer is written out, what is left goes
    into the empty buffer or, when it is too long for it, to the file. *)
Definition buf_Write (p : bytes) (b : Buf) (d : directory) : Buf * directory :=
  let avail := buf_size - length b.(bf_pending) in
  if b.(bf_err) then (b, d)
  else if decide (length p <= avail) then (buf_put p b, d)
  else if decide (b.(bf_pending) = []) then file_write b p d
  else
    let '(b1, d1) := buf_Flush (buf_put (take avail p) b) d in
    let p1 := drop avail p in
    if b1.(bf_err) then (b1, d1)
    else if decide (length p1 <= buf_size) then (buf_put p1 b1, d1) else file_write b1 p1 d1.

(** The writers in turn, until one fails. *)
Fixpoint multi_Write (p : bytes) (bufs : list Buf) (d : directory) : list Buf * directory :=
  match bufs with
  | [] => ([], d)
  | b :: rest =>
      let '(b1, d1) := buf_Write p b d in
      if b1.(bf_err) then (b1 :: rest, d1)
      else let '(rest', d2) := multi_Write p rest d1 in (b1 :: rest', d2)
  end.

Definition write_line (text : bytes) (l : Logger) : Logger :=
  let '(bufs, d) := multi_Write text l.(lg_bufs) l.(lg_files) in
  mkLogger l.(lg_level) l.(lg_format) l.(lg_pid) (l.(lg_stderr) ++ text) bufs l.(lg_current) d.

Section logger.
(** The JSON of an entry. *)
Context (marshal_entry : Level → Z → string → Origin → gmap string string → bytes).

Definition line_of (l : Logger) (level : Level) (msg : string) (o : Origin) (fields : list string) : bytes :=
  let sanitized := sanitize (parseFields fields) in
  match l.(lg_format) with
  | FormatJSON => marshal_entry level l.(lg_pid) msg o sanitized ++ ["010"%char]
  | FormatText => list_ascii_of_string (logText l.(lg_pid) level msg o sanitized)
  end.
Definition log (level : Level) (msg : string) (o : Origin) (fields : list string) (l : Logger) : Logger :=
  if (level_number level <? level_number l.(lg_level))%Z then l else write_line (line_of l level msg o fields) l.
End logger.

(** [err] is what the directory or the file cannot be made for. *)
Definition SetFile (path : string) (err : option string) (l : Logger) : Res unit * Logger :=
  let closing := match l.(lg_current) with
                 | Some i =>
                     match l.(lg_bufs) !! i with
                     | Some b => let '(b1, d1) := buf_Flush b l.(lg_files) in
                                 (<[i := mkBuf b1.(bf_path) b1.(bf_pending) false b1.(bf_err)]> l.(lg_bufs), d1)
                     | None => (l.(lg_bufs), l.(lg_files))
                     end
                 | None => (l.(lg_bufs), l.(lg_files))
                 end in
  let '(bufs, d) := closing in
  match err with
  | Some e => (Err e, mkLogger l.(lg_level) l.(lg_format) l.(lg_pid) l.(lg_stderr) bufs None d)
  | None => (Ok tt, mkLogger l.(lg_level) l.(lg_format) l.(lg_pid) l.(lg_stderr) (bufs ++ [mkBuf path [] true false])
                      (Some (length bufs)) (<[path := default [] (d !! path)]> d))
  end.

(** Of the ticker, and at the end of [main]. *)
Definition Flush (l : Logger) : Logger :=
  match l.(lg_current) with
  | Some i =>
      match l.(lg_bufs) !! i with
      | Some b => let '(b1, d1) := buf_Flush b l.(lg_files) in
                  mkLogger l.(lg_level) l.(lg_format) l.(lg_pid) l.(lg_stderr) (<[i := b1]> l.(lg_bufs)) l.(lg_current) d1
      | None => l
      end
  | None => l
  end.

(** ** The hidden part makes no difference *)

Abbreviation eq_sign := ("="%char).

Lemma keywords_ok kw : kw ∈ keywords → kw ≠ [] ∧ (eq_sign ∉ kw) ∧ Forall (λ c, is_value c = true) kw.
Proof.
  intros H. assert (Hall : Forall (λ kw, kw ≠ [] ∧ (eq_sign ∉ kw) ∧ Forall (λ c, is_value c = true) kw) keywords).
  { repeat constructor; try done; by apply (bool_decide_unpack _). }
  by eapply Forall_forall in Hall.
Qed.

(** No keyword ends in another. *)
Lemma keywords_suffix P kw kw' : kw ∈ keywords → kw' ∈ keywords → kw' = P ++ kw → P = [].
Proof.
  intros H H' E. assert (Hall : Forall (λ a, Forall (λ b, b `suffix_of` a → length a = length b) keywords) keywords).
  { by apply (bool_decide_unpack _). }
  pose proof (proj1 (Forall_forall _ _) Hall _ H') as Hk. pose proof (proj1 (Forall_forall _ _) Hk _ H) as Hl.
  assert (length kw' = length kw) as Hlen by (apply Hl; by exists P). rewrite E, length_app in Hlen. destruct P; [done|cbn in Hlen; lia].
Qed.

Lemma split_at_sign a b c d :
  eq_sign ∉ a → eq_sign ∉ c → a ++ eq_sign :: b = c ++ eq_sign :: d → a = c ∧ b = d.
Proof.
  revert c. induction a as [|x a IH]; intros [|y c] Ha Hc; cbn.
  - by intros [= ->].
  - intros [= <- _]. by destruct Hc; left.
  - intros [= -> _]. by destruct Ha; left.
  - intros [= <- E]. destruct (IH c) as [-> ->]; [by intros ?; apply Ha; right|by intros ?; apply Hc; right|done|done].
Qed.

Lemma prefix_app_cut {A} (k P X : list A) : length k <= length P → k `prefix_of` (P ++ X) ↔ k `prefix_of` P.
Proof.
  intros Hl. split; [|by apply prefix_app_r]. intros [t E]. exists (drop (length k) P).
  assert (take (length k) (P ++ X) = k) as Ht by (rewrite E; by rewrite take_app_length).
  rewrite take_app_le in Ht by done. rewrite <-Ht at 1. by rewrite take_drop.
Qed.

Section secret.
Context (kw : bytes) (Hkw : kw ∈ keywords).

(** A match that starts before the keyword ends before it. *)
Lemma starts_with_cut P kw' w :
  P ≠ [] → kw' ∈ keywords →
  starts_with kw' (P ++ kw ++ eq_sign :: w) = bool_decide (length kw' < length P) && starts_with kw' (P ++ kw).
Proof using Hkw.
  intros HP H'. destruct (keywords_ok _ Hkw) as (Hne & Hsign & _). destruct (keywords_ok _ H') as (_ & Hsign' & _).
  unfold starts_with. destruct (decide (length kw' < length P)) as [Hlen|Hlen];
    [rewrite (bool_decide_eq_true_2 (length kw' < length P)) by done|rewrite (bool_decide_eq_false_2 (length kw' < length P)) by done]; cbn [andb].
  - assert (Hl : length (kw' ++ [eq_sign]) <= length P) by (rewrite length_app; cbn; lia).
    rewrite !(bool_decide_ext _ _ (prefix_app_cut _ _ _ Hl)). f_equal.
    rewrite !drop_app_le by lia. destruct (drop (S (length kw')) P); [|done]. by destruct kw.
  - rewrite bool_decide_eq_false_2; [done|]. intros [t E]. rewrite <-app_assoc in E. cbn in E.
    assert (HPk : kw' = P ++ drop (length P) kw').
    { rewrite <-(take_drop (length P) kw') at 1. f_equal.
      assert (take (length P) (kw' ++ eq_sign :: t) = P) as Ht by (rewrite <-E; by rewrite take_app_length).
      by rewrite take_app_le in Ht by lia. }
    assert (Hs : eq_sign ∉ drop (length P) kw').
    { intros Hin. apply Hsign'. rewrite HPk. by apply elem_of_app; right. }
    rewrite HPk, <-app_assoc in E. apply app_inv_head in E. apply split_at_sign in E as [E _]; [|exact Hsign|exact Hs].
    apply HP. eapply (keywords_suffix P); [exact Hkw|exact H'|]. by rewrite E.
Qed.

Lemma match_key_cut P w w' :
  P ≠ [] → match_key (P ++ kw ++ eq_sign :: w) = match_key (P ++ kw ++ eq_sign :: w') ∧
  ∀ n, match_key (P ++ kw ++ eq_sign :: w) = Some n → 0 < n < length P.
Proof using Hkw.
  intros HP. unfold match_key. split.
  - f_equal. assert (Hfind : ∀ l f g, (∀ x, x ∈ l → f x = g x) → List.find (A := bytes) f l = List.find g l).
    { induction l as [|x l IH]; intros f g Hfg; [done|]. cbn. rewrite Hfg by by left. destruct (g x); [done|]. apply IH. intros y Hy. apply Hfg. by right. }
    apply Hfind. intros kw' H'. by rewrite !starts_with_cut.
  - intros n (kw' & Hf & ->)%fmap_Some_1. apply List.find_some in Hf as [Hin Hs]. apply list_elem_of_In in Hin.
    rewrite starts_with_cut in Hs by done. apply andb_true_iff in Hs as [Hl _]. apply bool_decide_eq_true in Hl.
    destruct (keywords_ok _ Hin) as (Hne & _). destruct kw'; [done|cbn in *; lia].
Qed.

Lemma skip_values l r : Forall (λ c, is_value c = true) l → scan Skip (l ++ r) = scan Skip r.
Proof. induction 1 as [|c l Hc _ IH]; [done|]. cbn. by rewrite Hc. Qed.

Lemma copy_all l r : l ≠ [] → scan (Copy (length l)) (l ++ r) = l ++ list_ascii_of_string "***" ++ scan Skip r.
Proof.
  induction l as [|c l IH]; [done|]. intros _. destruct l as [|d l]; [done|]. cbn [length app scan]. f_equal.
  by apply IH.
Qed.

Lemma match_here v r : v ≠ [] → Forall (λ c, is_value c = true) v → match_key (kw ++ eq_sign :: v ++ r) = Some (length kw).
Proof using Hkw.
  intros Hv Hvs. unfold match_key.
  assert (Hs : ∀ kw', kw' ∈ keywords → starts_with kw' (kw ++ eq_sign :: v ++ r) = bool_decide (kw' = kw)).
  { intros kw' H'. destruct (keywords_ok _ Hkw) as (_ & Hsign & _). destruct (keywords_ok _ H') as (_ & Hsign' & _).
    unfold starts_with. case_bool_decide as Hp.
    - destruct Hp as [t E]. rewrite <-app_assoc in E. cbn in E. apply split_at_sign in E as [<- _]; [|done..].
      rewrite bool_decide_eq_true_2 by done. rewrite drop_app_ge by lia. replace (S (length kw) - length kw) with 1 by lia.
      destruct v as [|a v]; [done|]. apply Forall_cons in Hvs as [Ha _]. cbn. by rewrite ?drop_0, Ha.
    - symmetry. apply bool_decide_eq_false_2. intros ->. apply Hp. exists (v ++ r). by rewrite <-app_assoc. }
  assert (Hfind : ∀ l, (∀ x, x ∈ l → x ∈ keywords) → kw ∈ l → List.find (λ k, starts_with k (kw ++ eq_sign :: v ++ r)) l = Some kw).
  { induction l as [|x l IH]; intros Hl Hin; [by apply not_elem_of_nil in Hin|]. cbn. rewrite Hs by (apply Hl; by left).
    case_bool_decide as E; [by subst|]. apply IH; [intros y Hy; apply Hl; by right|].
    apply elem_of_cons in Hin as [->|?]; [by destruct E|done]. }
  rewrite Hfind; [done|by intros|exact Hkw].
Qed.

Lemma scan_here v r : v ≠ [] → Forall (λ c, is_value c = true) v →
  scan Search (kw ++ eq_sign :: v ++ r) = kw ++ eq_sign :: list_ascii_of_string "***" ++ scan Skip r.
Proof using Hkw.
  intros Hv Hvs. destruct (keywords_ok _ Hkw) as (Hne & _ & _). pose proof (match_here v r Hv Hvs) as Hm.
  destruct kw as [|c k] eqn:Ek; [done|]. cbn [app]. cbn [scan]. cbn [app] in Hm. rewrite Hm. cbn [length]. f_equal.
  replace (k ++ eq_sign :: v ++ r) with ((k ++ [eq_sign]) ++ v ++ r) by by rewrite <-app_assoc.
  replace (S (length k)) with (length (k ++ [eq_sign])) by (rewrite length_app; cbn; lia).
  rewrite copy_all by (by destruct k). rewrite skip_values by done. by rewrite <-app_assoc.
Qed.

Lemma scan_secret v1 v2 r pre st :
  v1 ≠ [] → v2 ≠ [] → Forall (λ c, is_value c = true) v1 → Forall (λ c, is_value c = true) v2 →
  (∀ n, st = Copy n → 0 < n <= length pre) →
  scan st (pre ++ kw ++ eq_sign :: v1 ++ r) = scan st (pre ++ kw ++ eq_sign :: v2 ++ r).
Proof using Hkw.
  intros N1 N2 F1 F2. revert st. induction pre as [|c pre IH]; intros st Hst.
  - cbn [app]. destruct st as [|n|].
    + by rewrite !scan_here.
    + specialize (Hst n eq_refl). cbn in Hst. lia.
    + destruct (keywords_ok _ Hkw) as (_ & _ & Hv). rewrite !(skip_values kw) by done. cbn. by rewrite !skip_values.
  - destruct (match_key_cut (c :: pre) (v1 ++ r) (v2 ++ r)) as [Hm Hn]; [done|].
    assert (Hsearch : match match_key (c :: pre ++ kw ++ eq_sign :: v1 ++ r) with
        | Some n => c :: scan (Copy n) (pre ++ kw ++ eq_sign :: v1 ++ r) | None => c :: scan Search (pre ++ kw ++ eq_sign :: v1 ++ r) end =
      match match_key (c :: pre ++ kw ++ eq_sign :: v2 ++ r) with
        | Some n => c :: scan (Copy n) (pre ++ kw ++ eq_sign :: v2 ++ r) | None => c :: scan Search (pre ++ kw ++ eq_sign :: v2 ++ r) end).
    { cbn [app] in Hm, Hn. rewrite <-Hm. destruct (match_key (c :: pre ++ kw ++ eq_sign :: v1 ++ r)) as [n|]; f_equal; apply IH; [|done].
      intros m [= <-]. specialize (Hn _ eq_refl). cbn in Hn. lia. }
    cbn [app scan]. destruct st as [|n|]; [exact Hsearch| |].
    + specialize (Hst n eq_refl). cbn in Hst. destruct n as [|[|n]]; [lia|do 2 f_equal; by apply IH|].
      f_equal. apply IH. intros m [= <-]. lia.
    + destruct (is_value c); [by apply IH|exact Hsearch].
Qed.
End secret.

(** Two texts that differ in what one parameter of an address is. *)
Inductive alike : string → string → Prop :=
| AlikeSame s : alike s s
| AlikeSecret kw pre v1 v2 rest :
    kw ∈ keywords → Contains (string_of_list_ascii pre) "://" = true →
    v1 ≠ [] → v2 ≠ [] → Forall (λ c, is_value c = true) v1 → Forall (λ c, is_value c = true) v2 →
    alike (string_of_list_ascii (pre ++ kw ++ eq_sign :: v1 ++ rest)) (string_of_list_ascii (pre ++ kw ++ eq_sign :: v2 ++ rest))
| AlikeTrans a b c : alike a b → alike b c → alike a c.

Lemma prefix_of_app (p s t : string) : String.prefix p s = true → String.prefix p (s +:+ t) = true.
Proof.
  revert s. induction p as [|c p IH]; intros s H; [by destruct (s +:+ t)|]. destruct s as [|d s]; [done|].
  rewrite string_app_cons. cbn in *. destruct (ascii_dec c d); [|done]. by apply IH.
Qed.
Lemma Contains_app s t sub : Contains s sub = true → Contains (s +:+ t) sub = true.
Proof.
  induction s as [|c s IH].
  - cbn. rewrite orb_false_r. intros Hp. destruct sub; [|done]. by destruct t.
  - rewrite string_app_cons. cbn [Contains]. intros [Hp|Hc]%orb_true_iff; apply orb_true_iff; [left|right; by apply IH].
    rewrite <-string_app_cons. by apply prefix_of_app.
Qed.
Lemma string_of_app a b : string_of_list_ascii (a ++ b) = string_of_list_ascii a +:+ string_of_list_ascii b.
Proof. induction a as [|c a IH]; [done|]. cbn. by rewrite IH. Qed.

Lemma sanitizeURL_alike a b : alike a b → sanitizeURL a = sanitizeURL b.
Proof.
  induction 1 as [s|kw pre v1 v2 rest Hkw Hc N1 N2 F1 F2|a b c _ IH1 _ IH2]; [done| |congruence].
  unfold sanitizeURL. rewrite !(string_of_app pre), !Contains_app by done. rewrite <-!string_of_app, !list_ascii_of_string_of_list_ascii.
  f_equal. by apply scan_secret.
Qed.

(** Two lists of fields that differ in nothing but what is hidden. *)
Inductive fields_alike : list string → list string → Prop :=
| FieldsNil : fields_alike [] []
| FieldsExtra a b : alike a b → fields_alike [a] [b]
| FieldsPair k a b l l' : is_sensitive k = true ∨ alike a b → fields_alike l l' → fields_alike (k :: a :: l) (k :: b :: l').

Lemma sanitize_alike l l' : fields_alike l l' → sanitize (parseFields l) = sanitize (parseFields l').
Proof.
  intros H. unfold parseFields.
  assert (Hgen : ∀ m m', sanitize m = sanitize m' → sanitize (parse_pairs l m) = sanitize (parse_pairs l' m')).
  { induction H as [|a b Hab|k a b l l' Hab _ IH]; intros m m' Hm; cbn [parse_pairs]; [done| |];
      [|apply IH]; unfold sanitize in *; rewrite !map_imap_insert_Some with (y := _) by reflexivity; rewrite Hm; f_equal.
    - by rewrite (sanitizeURL_alike _ _ Hab).
    - destruct (is_sensitive k); [done|]. destruct Hab; [done|]. by apply sanitizeURL_alike. }
  by apply Hgen.
Qed.

(** ** The way to the file *)

(** The one file of a logger: its buffer is open and has not failed. *)
Definition one_file (path : string) (l : Logger) : Prop :=
  ∃ pending, l.(lg_bufs) = [mkBuf path pending true false] ∧ l.(lg_current) = Some 0 ∧ length pending <= buf_size ∧
    is_Some (l.(lg_files) !! path).
(** What the file holds with what is on its way to it. *)
Definition reached (path : string) (l : Logger) : bytes :=
  default [] (l.(lg_files) !! path) ++ concat (bf_pending <$> l.(lg_bufs)).

Lemma write_line_one path text l :
  one_file path l →
  one_file path (write_line text l) ∧ reached path (write_line text l) = reached path l ++ text ∧
  (write_line text l).(lg_stderr) = l.(lg_stderr) ++ text ∧
  (∀ p, l.(lg_bufs) = [mkBuf path p true false] → length (p ++ text) <= buf_size → (write_line text l).(lg_files) = l.(lg_files)).
Proof.
  intros (p & Hb & Hc & Hl & [c Hf]). unfold write_line, reached, one_file. rewrite Hb. cbn [multi_Write].
  unfold buf_Write. cbn [bf_err bf_pending bf_path bf_open].
  destruct (decide (length text <= buf_size - length p)) as [Hfit|Hfit].
  - cbn. split_and!; [|by rewrite !app_nil_r, (assoc_L (++))|done|done].
    exists (p ++ text). rewrite length_app. split_and!; [done..|lia|by eexists].
  - assert (Hno : ∀ p', [mkBuf path p true false] = [mkBuf path p' true false] → length (p' ++ text) <= buf_size → False).
    { intros p' [= <-]. rewrite length_app. lia. }
    destruct (decide (p = [])) as [->|Hp].
    + cbn. rewrite lookup_insert_eq. cbn. split_and!; [|by rewrite !app_nil_r|done|by intros p' ? ?; destruct (Hno p')].
      exists []. split_and!; [done..|lia|by eexists].
    + unfold buf_Flush. cbn [bf_err bf_pending buf_put bf_path bf_open]. rewrite decide_False by (by destruct p).
      cbn. set (r := drop (buf_size - length p) text).
      assert (Ht : take (buf_size - length p) text ++ r = text) by apply take_drop.
      destruct (decide (length r <= buf_size)) as [Hr|Hr]; cbn.
      * rewrite !lookup_insert_eq. cbn. split_and!; [| |done|by intros p' ? ?; destruct (Hno p')].
        -- exists r. split_and!; [done..|by eexists].
        -- rewrite Hf. cbn. rewrite !app_nil_r. rewrite <-Ht at 2. by rewrite !(assoc_L (++)).
      * rewrite !lookup_insert_eq. cbn. split_and!; [| |done|by intros p' ? ?; destruct (Hno p')].
        -- exists []. split_and!; [done..|cbn; lia|by eexists].
        -- rewrite Hf. cbn. rewrite !app_nil_r. rewrite <-Ht at 2. by rewrite !(assoc_L (++)).
Qed.

Lemma Flush_one path l :
  one_file path l → one_file path (Flush l) ∧ (Flush l).(lg_files) !! path = Some (reached path l) ∧
  (Flush l).(lg_stderr) = l.(lg_stderr).
Proof.
  intros (p & Hb & Hc & Hl & [c Hf]). unfold Flush, reached. rewrite Hc, Hb. cbn. unfold buf_Flush. cbn.
  case_decide as Hp; cbn.
  - subst. rewrite Hf. cbn. split_and!; [|by rewrite app_nil_r|done]. exists []. split_and!; try done; try (by eexists); cbn; lia.
  - rewrite lookup_insert_eq, Hf. cbn. split_and!; [|by rewrite app_nil_r|done].
    exists []. split_and!; [done..|cbn; lia|]. cbn. rewrite lookup_insert_eq. by eexists.
Qed.

(** ** Lines with a context *)

(** [Entry.With]: the fields of both, the new ones winning. *)
Definition Entry_With (base : gmap string string) (fields : list string) : gmap string string := parseFields fields ∪ base.

(** [order] is the order in which the context's map is iterated. *)
Definition mergeFields (order : list (string * string)) (extra : list string) : list string :=
  concat ((λ kv, [kv.1; kv.2]) <$> order) ++ extra.

Lemma parse_pairs_union l m : parse_pairs l m = parseFields l ∪ m.
Proof.
  unfold parseFields. revert m. induction l as [l IH] using (induction_ltof1 _ (@length string)). unfold ltof in IH.
  destruct l as [|k [|v l]]; intros m; cbn [parse_pairs].
  - by rewrite (left_id_L ∅ (∪)).
  - by rewrite insert_union_singleton_l.
  - assert (Hl : length l < length (k :: v :: l)) by (cbn; lia).
    rewrite (IH l Hl), (IH l Hl (<[k:=v]> ∅)).
    rewrite <-(assoc_L (∪)). by rewrite (insert_union_singleton_l m).
Qed.

Lemma parse_context order extra m :
  NoDup order.*1 → parse_pairs (mergeFields order extra) m = parse_pairs extra (list_to_map order ∪ m).
Proof.
  revert m. induction order as [|[k v] order IH]; intros m Hnd; cbn.
  - by rewrite (left_id_L ∅ (∪)).
  - apply NoDup_cons in Hnd as [Hk Hnd]. unfold mergeFields in IH. cbn in IH. rewrite IH by done. f_equal.
    rewrite <-insert_union_l, <-insert_union_r; [done|]. by apply not_elem_of_list_to_map_1.
Qed.

Section log_facts.
Context (marshal_entry : Level → Z → string → Origin → gmap string string → bytes).
Abbreviation log := (Log.log marshal_entry).
Abbreviation line_of := (Log.line_of marshal_entry).

(** A call of the log: its level, message, place and fields. *)
Abbreviation entry := (Level * string * Origin * list string)%type.
Definition log_entry (l : Logger) (e : entry) : Logger := let '(level, msg, o, fields) := e in log level msg o fields l.
Definition enabled (l : Logger) (e : entry) : bool :=
  negb (level_number e.1.1.1 <? level_number l.(lg_level))%Z.
Definition lines (l : Logger) (es : list entry) : bytes :=
  concat ((λ e : entry, let '(level, msg, o, fields) := e in line_of l level msg o fields) <$> filter (λ e, enabled l e = true) es).

Lemma log_entry_settings l e :
  (log_entry l e).(lg_level) = l.(lg_level) ∧ (log_entry l e).(lg_format) = l.(lg_format) ∧ (log_entry l e).(lg_pid) = l.(lg_pid).
Proof.
  destruct e as [[[level msg] o] fields]. cbn. unfold Log.log, write_line. destruct (_ <? _)%Z; [done|].
  by destruct (multi_Write _ _ _).
Qed.
Lemma lines_settings l l' es :
  l.(lg_level) = l'.(lg_level) → l.(lg_format) = l'.(lg_format) → l.(lg_pid) = l'.(lg_pid) → lines l es = lines l' es.
Proof. intros H1 H2 H3. unfold lines, enabled, Log.line_of. by rewrite H1, H2, H3. Qed.

Lemma logged_one path l es :
  one_file path l →
  let l' := foldl log_entry l es in
  one_file path l' ∧ reached path l' = reached path l ++ lines l es ∧ l'.(lg_stderr) = l.(lg_stderr) ++ lines l es.
Proof.
  revert l. induction es as [|e es IH]; intros l H; cbn [foldl].
  - cbn. by rewrite !app_nil_r.
  - destruct (log_entry_settings l e) as (S1 & S2 & S3).
    assert (He : one_file path (log_entry l e) ∧ reached path (log_entry l e) = reached path l ++ lines l [e] ∧
      (log_entry l e).(lg_stderr) = l.(lg_stderr) ++ lines l [e]).
    { unfold lines, enabled. destruct e as [[[level msg] o] fields]. cbn [log_entry]. unfold Log.log. rewrite filter_cons, filter_nil. cbn.
      destruct (_ <? _)%Z; cbn [negb]; [rewrite !decide_False by done|rewrite !decide_True by done]; cbn; rewrite !app_nil_r; [done|].
      by destruct (write_line_one path (line_of l level msg o fields) l H) as (? & ? & ? & _). }
    destruct He as (H1 & H2 & H3). destruct (IH _ H1) as (I1 & I2 & I3).
    assert (Hl : lines l (e :: es) = lines l [e] ++ lines (log_entry l e) es).
    { rewrite (lines_settings (log_entry l e) l) by done. unfold lines. rewrite <-concat_app, <-fmap_app, <-filter_app. done. }
    rewrite Hl, I2, I3, H2, H3, !(assoc_L (++)). done.
Qed.


(** With one log file, however the lines are cut by the buffer: after any
    calls and a [Flush] the file holds what it held and was to hold, then
    the lines of the calls at the level or above, whole and in their order,
    and so does the terminal. *)
Theorem log_file_complete path l es :
  one_file path l →
  let l' := Flush (foldl log_entry l es) in
  l'.(lg_files) !! path = Some (reached path l ++ lines l es) ∧ l'.(lg_stderr) = l.(lg_stderr) ++ lines l es.
Proof.
  intros H. destruct (logged_one path l es H) as (H1 & H2 & H3). destruct (Flush_one _ _ H1) as (_ & F1 & F2). cbn.
  by rewrite F1, F2, H2, H3.
Qed.

(** [Fatal] ends the process right after the call: a last line that fits
    the buffer, with all that was in it, never reaches the file, while the
    terminal has it. *)
Theorem fatal_line_lost path l pending msg o fields :
  l.(lg_bufs) = [mkBuf path pending true false] → l.(lg_current) = Some 0 → is_Some (l.(lg_files) !! path) →
  length (pending ++ line_of l FATAL msg o fields) <= buf_size →
  let l' := log FATAL msg o fields l in
  l'.(lg_files) = l.(lg_files) ∧ l'.(lg_stderr) = l.(lg_stderr) ++ line_of l FATAL msg o fields.
Proof.
  intros Hb Hc Hf Hl. cbn. unfold Log.log. replace (level_number FATAL <? level_number (lg_level l))%Z with false by by destruct (lg_level l).
  destruct (write_line_one path (line_of l FATAL msg o fields) l) as (_ & _ & He & Hk).
  - exists pending. rewrite length_app in Hl. split_and!; [done..|lia|done].
  - split; [by eapply Hk|done].
Qed.

(** The order in which the map of a context is iterated makes no
    difference, and the fields of the call win over the context's. *)
Theorem context_order_irrelevant base order level msg o extra l :
  order ≡ₚ map_to_list base →
  log level msg o (mergeFields order extra) l =
  log level msg o (mergeFields (map_to_list (Entry_With base extra)) []) l.
Proof.
  intros Ho. unfold Log.log, Log.line_of.
  assert (parseFields (mergeFields order extra) = parseFields (mergeFields (map_to_list (Entry_With base extra)) [])) as ->; [|done].
  unfold parseFields. assert (Hnd : NoDup order.*1) by (rewrite Ho; apply NoDup_fst_map_to_list).
  rewrite !parse_context by (try done; apply NoDup_fst_map_to_list). cbn [parse_pairs]. rewrite list_to_map_to_list, !(right_id_L ∅ (∪)).
  rewrite (list_to_map_proper order (map_to_list base)) by done. rewrite list_to_map_to_list.
  apply parse_pairs_union.
Qed.
End log_facts.

(** ** At work *)

Definition plain_entry (level : Level) (pid : Z) (msg : string) (o : Origin) (m : gmap string string) : bytes := list_ascii_of_string msg.
Definition a_place : Origin := mkOrigin "2026-05-17 15:38:19" "client.go" 12.
Definition a_logger : Logger := mkLogger INFO FormatText 7 [] [mkBuf "client.log" (list_ascii_of_string "b") true false] (Some 0)
  {[ "client.log" := list_ascii_of_string "a" ]}.

Lemma a_logger_one : one_file "client.log" a_logger.
Proof. eexists. split_and!; [done..|unfold buf_size; cbn [length list_ascii_of_string]; lia|by eexists]. Qed.


Lemma log_file_complete_witness :
  let es := [(DEBUG, "hidden", a_place, []); (WARN, "slow", a_place, ["ms"; "31"])] in
  (Flush (foldl (log_entry plain_entry) a_logger es)).(lg_files) !! "client.log" = Some (list_ascii_of_string "ab" ++ lines plain_entry a_logger es).
Proof.
  intros es. destruct (log_file_complete plain_entry "client.log" a_logger es) as [H _]; [exact a_logger_one|exact H].
Defined.

Lemma fatal_line_lost_witness :
  (log plain_entry FATAL "cannot start" a_place [] a_logger).(lg_files) = a_logger.(lg_files).
Proof.
  apply (fatal_line_lost plain_entry "client.log" a_logger (list_ascii_of_string "b") "cannot start" a_place []); [done|done|by eexists|].
  unfold buf_size. transitivity 200; [apply Nat.leb_le; vm_compute; reflexivity|lia].
Defined.

Lemma context_order_irrelevant_witness :
  log plain_entry INFO "m" a_place (mergeFields [("b", "1"); ("a", "2")] ["a"; "3"]) a_logger =
  log plain_entry INFO "m" a_place (mergeFields (map_to_list (Entry_With {[ "a" := "2"; "b" := "1" ]} ["a"; "3"])) []) a_logger.
Proof.
  apply (context_order_irrelevant plain_entry {[ "a" := "2"; "b" := "1" ]} [("b", "1"); ("a", "2")] INFO "m" a_place ["a"; "3"] a_logger).
  apply NoDup_Permutation; [apply (bool_decide_unpack _); vm_compute; reflexivity|apply NoDup_map_to_list|].
  intros [k v]. rewrite elem_of_map_to_list, lookup_insert_Some, lookup_singleton_Some. rewrite !elem_of_cons, elem_of_nil. naive_solver.
Defined.
