(* ===== verification/Dataplane.v ===== *)
(** * The data plane (BBgrid_Server/dataplane/server.go)

    The listener for tunnels: its handshake, and how [Run] and [Stop] meet.
    A connection is the bytes it delivers until it ends; a listener is a
    number; whether the port can be bound is an outcome of the step. *)

From S2P Require Import Prelude Proto.

(** ** The handshake *)

(** The token and the rest of the connection that are handed on; [None] when
    the connection is closed.  [handler] is whether one was set. *)
Definition handleTunnelConn (handler : bool) (conn : bytes) : option (string * bytes) :=
  match ReadFull 4 conn with
  | (Err _, _) => None
  | (Ok header, c1) =>
      if decide (string_of_list_ascii header ≠ "TUNL") then None
      else match ReadFull 2 c1 with
      | (Err _, _) => None
      | (Ok len, c2) =>
          match ReadFull (Z.to_nat (be_decode len)) c2 with
          | (Err _, _) => None
          | (Ok token, c3) => if handler then Some (string_of_list_ascii token, c3) else None
          end
      end
  end.

(** ** The server *)

Definition ListenerId := nat.

(** Where [Run] is: before [Listen], between [Listen] and the map of
    listeners, in the loop of [Accept], or returned. *)
Inductive run_phase := RunStart | RunListening (ln : ListenerId) | RunAccepting (ln : ListenerId) | RunReturned (r : Res unit).

Record Server := mkServer {
  listeners : gmap string ListenerId;
  stopped : bool;
  onTunnelConn : bool;
  run : run_phase;
  (* the sockets that are open, the connections whose goroutine has yet to
     read them, and what was handed to the handler *)
  open : gset ListenerId;
  handling : list bytes;
  handed : list (string * bytes);
  (* every connection accepted, for the statements *)
  accepted : list bytes;
}.

Definition NewServer : Server := mkServer ∅ false false RunStart ∅ [] [] [].
Definition SetTunnelHandler (s : Server) : Server :=
  mkServer s.(listeners) s.(stopped) true s.(run) s.(open) s.(handling) s.(handed) s.(accepted).

Definition with_run (r : run_phase) (s : Server) : Server :=
  mkServer s.(listeners) s.(stopped) s.(onTunnelConn) r s.(open) s.(handling) s.(handed) s.(accepted).

Definition Run_listen (ln : option ListenerId) (s : Server) : Server :=
  match ln with
  | Some l =>
      mkServer s.(listeners) s.(stopped) s.(onTunnelConn) (RunListening l) ({[l]} ∪ s.(open)) s.(handling)
        s.(handed) s.(accepted)
  | None => with_run (RunReturned (Err "listen tunnel port")) s
  end.
Definition Run_register (ln : ListenerId) (s : Server) : Server :=
  mkServer (<["tunnel-tcp" := ln]> s.(listeners)) s.(stopped) s.(onTunnelConn) (RunAccepting ln) s.(open)
    s.(handling) s.(handed) s.(accepted).
(** [go s.handleTunnelConn(conn)], and the goroutine. *)
Definition Run_accept (conn : bytes) (s : Server) : Server :=
  mkServer s.(listeners) s.(stopped) s.(onTunnelConn) s.(run) s.(open) (s.(handling) ++ [conn]) s.(handed)
    (s.(accepted) ++ [conn]).
Definition handle_conn (i : nat) (conn : bytes) (s : Server) : Server :=
  mkServer s.(listeners) s.(stopped) s.(onTunnelConn) s.(run) s.(open) (delete i s.(handling))
    (s.(handed) ++ match handleTunnelConn s.(onTunnelConn) conn with Some h => [h] | None => [] end) s.(accepted).
(** [Accept] failed. *)
Definition Run_error (s : Server) : Server :=
  if s.(stopped) then with_run (RunReturned (Ok tt)) s else s.

(** Only the first call has an effect. *)
Definition Stop (s : Server) : Server :=
  if s.(stopped) then s
  else mkServer ∅ true s.(onTunnelConn) s.(run) (s.(open) ∖ list_to_set (map_to_list s.(listeners)).*2)
         s.(handling) s.(handed) s.(accepted).

(** A listener that is closed accepts nothing more. *)
Inductive dp_step (s : Server) : Server → Prop :=
| DHandler : dp_step s (SetTunnelHandler s)
| DListen ln : s.(run) = RunStart → (∀ l, ln = Some l → l ∉ open s) → dp_step s (Run_listen ln s)
| DRegister ln : s.(run) = RunListening ln → dp_step s (Run_register ln s)
| DAccept ln conn : s.(run) = RunAccepting ln → ln ∈ s.(open) → dp_step s (Run_accept conn s)
| DHandle i conn : s.(handling) !! i = Some conn → dp_step s (handle_conn i conn s)
| DError ln : s.(run) = RunAccepting ln → ln ∉ open s → dp_step s (Run_error s)
| DStop : dp_step s (Stop s).

(** ** Lemmas *)

Lemma magic_text h : length h = 4 → string_of_list_ascii h = "TUNL" ↔ h = TunnelMagic.
Proof.
  intros _. split; [|by intros ->]. intros H. apply (f_equal list_ascii_of_string) in H.
  by rewrite list_ascii_of_string_of_list_ascii in H.
Qed.

(** What is handed on: the frame and what follows it. *)
Lemma handleTunnelConn_frame conn token rest :
  handleTunnelConn true conn = Some (token, rest) ↔
  ∃ t, token = string_of_list_ascii t ∧ (Z.of_nat (length t) < 65536)%Z ∧
    conn = TunnelMagic ++ be_encode 2 (Z.of_nat (length t)) ++ t ++ rest.
Proof.
  unfold handleTunnelConn. split.
  - destruct (ReadFull 4 conn) as [[h|e] c1] eqn:E1; [|done]. apply ReadFull_ok in E1 as [-> Hl].
    case_decide as Hm; [done|]. apply magic_text in Hm as ->; [|done].
    destruct (ReadFull 2 c1) as [[l|e] c2] eqn:E2; [|done]. apply ReadFull_ok in E2 as [-> Hl2].
    destruct (ReadFull _ c2) as [[t|e] c3] eqn:E3; [|done]. apply ReadFull_ok in E3 as [-> Ht].
    intros [= <- <-]. exists t. pose proof (be_decode_bounds l) as Hb. rewrite Hl2 in Hb.
    split; [done|]. rewrite Ht. rewrite Z2Nat.id by lia. split; [lia|].
    pose proof (be_encode_decode l) as He. rewrite Hl2 in He. by rewrite He.
  - intros (t & -> & Hlen & ->). rewrite ReadFull_app by done. rewrite decide_False by (intros H; by apply H).
    rewrite ReadFull_app by apply be_encode_length. rewrite be_decode_encode_id by lia.
    rewrite Nat2Z.id. by rewrite ReadFull_app.
Qed.

(** ** Properties *)

(** C34. The data plane and the reader of package proto accept the same frames
    up to the length the protocol allows, which are exactly the frames
    [WriteTunnelAuth] writes, with the same token and the same rest.  Beyond
    that length they differ: every frame that [ReadTunnelAuth] refuses for
    its length is handed on by the data plane once its token has come. *)
Theorem handshake_agrees (conn rest : bytes) (token : string) :
  (ReadTunnelAuth conn = (Ok token, rest) ↔
     handleTunnelConn true conn = Some (token, rest) ∧ String.length token <= MaxTokenLen) ∧
  (handleTunnelConn true conn = Some (token, rest) → String.length token <= MaxTokenLen →
     ∃ frame, WriteTunnelAuth token = Ok frame ∧ conn = frame ++ rest) ∧
  (handleTunnelConn true conn = Some (token, rest) → MaxTokenLen < String.length token →
     is_ok (ReadTunnelAuth conn).1 = false).
Proof.
  assert (Hlen : ∀ t, String.length (string_of_list_ascii t) = length t).
  { intros t. by rewrite <-length_list_ascii_of_string, list_ascii_of_string_of_list_ascii. }
  assert (Hiff : ReadTunnelAuth conn = (Ok token, rest) ↔
     handleTunnelConn true conn = Some (token, rest) ∧ String.length token <= MaxTokenLen).
  { rewrite ReadTunnelAuth_spec, handleTunnelConn_frame. unfold WriteTunnelAuth. split.
    - intros (frame & Hw & ->). case_decide as Hl; [done|]. apply (inj Ok) in Hw as <-.
      rewrite length_list_ascii_of_string in Hl |- *. unfold MaxTokenLen in *. split; [|lia].
      exists (list_ascii_of_string token). rewrite string_of_list_ascii_of_string, length_list_ascii_of_string.
      split_and!; [done|lia|by rewrite <-!app_assoc].
    - intros [(t & -> & _ & ->) Hl]. rewrite Hlen in Hl. rewrite list_ascii_of_string_of_list_ascii.
      rewrite decide_False by lia. eexists. split; [done|]. by rewrite <-!app_assoc. }
  split_and!; [done|..].
  - intros Hc Hl. apply ReadTunnelAuth_spec. by apply Hiff.
  - intros Hc Hl. destruct (ReadTunnelAuth conn) as [[token'|e] rest'] eqn:E; [|done].
    assert (ReadTunnelAuth conn = (Ok token', rest')) as E' by done.
    apply ReadTunnelAuth_spec in E' as (frame & Hw & ->). unfold WriteTunnelAuth in Hw. case_decide; [done|].
    apply (inj Ok) in Hw as <-. rewrite <-!app_assoc in Hc. apply handleTunnelConn_frame in Hc as (t & -> & Hb & Heq).
    rewrite Hlen in Hl. apply (inj (app TunnelMagic)) in Heq. apply app_inj_1 in Heq as [He Hr];
      [|by rewrite !be_encode_length].
    apply (f_equal be_decode) in He. rewrite length_list_ascii_of_string in *. unfold MaxTokenLen in *.
    rewrite !be_decode_encode_id in He by lia. lia.
Qed.

Definition dp_reachable : Server → Prop := rtc dp_step NewServer.

(** [Stop] came before the listener was in the map: the socket stays open. *)
Definition missed_stop (ln : ListenerId) (s : Server) : Prop :=
  s.(stopped) = true ∧ ln ∈ s.(open) ∧ (s.(run) = RunListening ln ∨ s.(run) = RunAccepting ln).

Lemma missed_stop_step ln s s' : dp_step s s' → missed_stop ln s → missed_stop ln s'.
Proof.
  intros Hstep (Hs & Ho & Hr). destruct Hstep as [|ln' Hrun _|ln' Hrun|ln' conn Hrun _|i conn _|ln' Hrun Hn|].
  - done.
  - by destruct Hr; congruence.
  - destruct Hr as [Hr|Hr]; [|congruence]. assert (ln' = ln) as -> by congruence.
    split_and!; [done|done|by right].
  - done.
  - done.
  - destruct Hr as [Hr|Hr]; [congruence|]. assert (ln' = ln) as -> by congruence. by destruct Hn.
  - unfold Stop. by rewrite Hs.
Qed.

Definition dp_inv (s : Server) : Prop :=
  match s.(run) with
  | RunStart => s.(listeners) = ∅
  | RunListening ln => ln ∈ s.(open) ∧ s.(listeners) = ∅
  | RunAccepting ln => s.(stopped) = false → s.(listeners) = {["tunnel-tcp" := ln]}
  | RunReturned _ => True
  end.

Lemma dp_inv_step s s' : dp_inv s → dp_step s s' → dp_inv s'.
Proof.
  unfold dp_inv. intros Hi Hstep. destruct Hstep as [|ln Hrun _|ln Hrun|ln conn Hrun _|i conn _|ln Hrun Hn|].
  - done.
  - rewrite Hrun in Hi. destruct ln as [l|]; cbn; [|done]. split; [set_solver|done].
  - rewrite Hrun in Hi. destruct Hi as [_ Hm]. cbn. intros _. by rewrite Hm.
  - done.
  - done.
  - unfold Run_error. destruct (stopped s) eqn:Hs; [done|]. rewrite Hrun in Hi |- *. intros _. by apply Hi.
  - unfold Stop. destruct (stopped s) eqn:Hs; [destruct (run s); [done..|congruence|done]|]. cbn. destruct (run s) as [|ln|ln|]; try done.
    destruct Hi as [Ho Hm]. split; [|done]. rewrite Hm, map_to_list_empty. set_solver.
Qed.

Lemma dp_reachable_inv s : dp_reachable s → dp_inv s.
Proof.
  intros Hr. assert (Hn : dp_inv NewServer) by done. revert Hn.
  induction Hr as [s|s1 s2 s3 Hs _ IH]; [done|]. intros Hn. by eapply IH, dp_inv_step.
Qed.

(** [Run] is at its end. *)
Definition shut (h : list bytes) (s : Server) : Prop :=
  s.(stopped) = true ∧ s.(accepted) = h ∧
  match s.(run) with RunAccepting ln => ln ∉ s.(open) | RunReturned _ => True | _ => False end.

Lemma shut_step h s s' : dp_step s s' → shut h s → shut h s'.
Proof.
  intros Hstep (Hs & Hh & Hr). destruct Hstep as [|ln Hrun _|ln Hrun|ln conn Hrun Ho|i conn _|ln Hrun Hn|].
  - done.
  - by rewrite Hrun in Hr.
  - by rewrite Hrun in Hr.
  - by rewrite Hrun in Hr.
  - done.
  - unfold Run_error. by rewrite Hs.
  - unfold Stop. by rewrite Hs.
Qed.

(** [Stop] ends [Run] when [Run] accepts: the socket is closed, no
    connection more is accepted, and the failing [Accept] returns without an
    error.  When [Stop] comes between [Listen] and the entry in the map it
    is lost: whatever happens, the socket stays open and [Run] goes on. *)
Theorem stop_ends_run (s : Server) (ln : ListenerId) :
  dp_reachable s → s.(stopped) = false →
  (s.(run) = RunAccepting ln →
     dp_step (Stop s) (Run_error (Stop s)) ∧ (Run_error (Stop s)).(run) = RunReturned (Ok tt) ∧
     ∀ s', rtc dp_step (Stop s) s' → shut s.(accepted) s') ∧
  (s.(run) = RunListening ln → ∀ s', rtc dp_step (Stop s) s' → missed_stop ln s').
Proof.
  intros Hi%dp_reachable_inv Hs. unfold dp_inv in Hi.
  assert (Hall : ∀ (P : Server → Prop) s s', (∀ s s', dp_step s s' → P s → P s') → P s → rtc dp_step s s' → P s').
  { intros P s0 s' Hp H0 Hr. revert H0. induction Hr as [|s1 s2 s3 H12 _ IH]; [done|]. intros H0. by eapply IH, Hp. }
  split; intros Hrun; rewrite Hrun in Hi.
  - specialize (Hi Hs). assert (Hshut : ln ∉ open (Stop s)).
    { unfold Stop. rewrite Hs. cbn. rewrite Hi, map_to_list_singleton. set_solver. }
    assert (Hr' : (Stop s).(run) = RunAccepting ln ∧ (Stop s).(stopped) = true ∧ (Stop s).(accepted) = s.(accepted))
      by (unfold Stop; by rewrite Hs).
    destruct Hr' as (Hr' & Hs' & Hh). split; [by eapply DError|]. split; [unfold Run_error; by rewrite Hs'|].
    intros s' Hsteps. eapply Hall; [by intros; eapply shut_step| |exact Hsteps].
    unfold shut. by rewrite Hr', Hs', Hh.
  - destruct Hi as [Ho Hm]. intros s' Hsteps. eapply Hall; [by intros; eapply missed_stop_step| |exact Hsteps].
    unfold missed_stop, Stop. rewrite Hs. cbn. rewrite Hm, map_to_list_empty. split_and!; [done|set_solver|by left].
Qed.

(** ** Witnesses *)

Definition listening : Server := Run_listen (Some 0) NewServer.
Lemma listening_reachable : dp_reachable listening.
Proof. apply rtc_once, DListen; [done|]. intros l _. apply not_elem_of_empty. Qed.

Lemma stop_ends_run_witness :
  (Run_error (Stop (Run_register 0 listening))).(run) = RunReturned (Ok tt) ∧
  missed_stop 0 (Run_register 0 (Stop listening)).
Proof.
  split.
  - apply (stop_ends_run (Run_register 0 listening) 0); [|done..].
    eapply rtc_r; [apply listening_reachable|by apply DRegister].
  - apply (stop_ends_run listening 0); [apply listening_reachable|done..|].
    by apply rtc_once, DRegister.
Defined.
