(* ===== verification/Supervisor.v ===== *)
(** * The supervisor and the dispatcher (BBgrid_Server/supervisor.go, bus.go)

    The supervisor restarts workers that fail.  What a worker's [Run] returns,
    and when, is an outcome of the steps; sleeping and the clock are left
    out, so a step out of a sleep may happen at any time.  [sup_step]
    interleaves the goroutines of [watch] with [Start] and [Stop]; [s.mu] is
    held over several steps only by [Stop]. *)

From S2P Require Import Prelude Proto.

(** ** The supervisor *)

Inductive why := Stopped | Finished | GaveUp.
(** Where a goroutine of [watch] is: at the top of the loop, in [w.Run()],
    about to count a failure, before the next try, returned. *)
Inductive watching := Checking | Running | Failing | Sleeping | Done (w : why).

(** Where [Stop] is: not called, waiting for the goroutines with the lock
    held, returned; or panicked, when the channel was closed already. *)
Inductive stopping := NotCalled | Waiting | Returned | Panicked.

Record Supervisor := mkSupervisor {
  workers : gset string;
  restarts : gmap string nat;
  maxRetry : nat;
  stopChan : bool;
  stop_at : stopping;
  watches : gmap string watching;
  (* how often [Run] was called, for the statements *)
  runs : gmap string nat;
}.

Definition NewSupervisor : Supervisor := mkSupervisor ∅ ∅ 5 false NotCalled ∅ ∅.
Definition SetMaxRetry (n : nat) (s : Supervisor) : Supervisor :=
  mkSupervisor s.(workers) s.(restarts) n s.(stopChan) s.(stop_at) s.(watches) s.(runs).
Definition Add (name : string) (s : Supervisor) : Supervisor :=
  mkSupervisor ({[name]} ∪ s.(workers)) s.(restarts) s.(maxRetry) s.(stopChan) s.(stop_at) s.(watches) s.(runs).

(** [s.mu] is free. *)
Definition unlocked (s : Supervisor) : Prop := s.(stop_at) ≠ Waiting ∧ s.(stop_at) ≠ Panicked.
Definition count_of (name : string) (m : gmap string nat) : nat := default 0 (m !! name).
#[local] Arguments count_of : simpl never.

Definition set_watch (name : string) (p : watching) (s : Supervisor) : Supervisor :=
  mkSupervisor s.(workers) s.(restarts) s.(maxRetry) s.(stopChan) s.(stop_at) (<[name := p]> s.(watches)) s.(runs).

(** Every worker gets a goroutine. *)
Definition Start (s : Supervisor) : Supervisor :=
  mkSupervisor s.(workers) s.(restarts) s.(maxRetry) s.(stopChan) s.(stop_at)
    (gset_to_gmap Checking s.(workers)) s.(runs).

Definition watch_check (name : string) (s : Supervisor) : Supervisor :=
  if s.(stopChan) then set_watch name (Done Stopped) s
  else mkSupervisor s.(workers) s.(restarts) s.(maxRetry) s.(stopChan) s.(stop_at) (<[name := Running]> s.(watches))
         (<[name := S (count_of name s.(runs))]> s.(runs)).
Definition watch_return (name : string) (failed : bool) (s : Supervisor) : Supervisor :=
  set_watch name (if failed then Failing else Done Finished) s.
Definition watch_count (name : string) (s : Supervisor) : Supervisor :=
  let n := S (count_of name s.(restarts)) in
  set_watch name (if decide (s.(maxRetry) < n) then Done GaveUp else Sleeping)
    (mkSupervisor s.(workers) (<[name := n]> s.(restarts)) s.(maxRetry) s.(stopChan) s.(stop_at) s.(watches) s.(runs)).

(** [close(s.stopChan)] panics the second time, which ends the program. *)
Definition Stop_begin (s : Supervisor) : Supervisor :=
  mkSupervisor s.(workers) s.(restarts) s.(maxRetry) true (if s.(stopChan) then Panicked else Waiting)
    s.(watches) s.(runs).
Definition Stop_end (s : Supervisor) : Supervisor :=
  mkSupervisor s.(workers) s.(restarts) s.(maxRetry) s.(stopChan) Returned s.(watches) s.(runs).
Definition Stats (s : Supervisor) : gmap string nat := s.(restarts).

(** The steps of the goroutines of [watch]. *)
Inductive watch_step (s : Supervisor) : Supervisor → Prop :=
| WCheck name : s.(watches) !! name = Some Checking → watch_step s (watch_check name s)
| WReturn name failed : s.(watches) !! name = Some Running → watch_step s (watch_return name failed s)
| WCount name : s.(watches) !! name = Some Failing → unlocked s → watch_step s (watch_count name s)
| WWake name : s.(watches) !! name = Some Sleeping → watch_step s (set_watch name Checking s)
| WWakeStop name :
    s.(watches) !! name = Some Sleeping → s.(stopChan) = true → watch_step s (set_watch name (Done Stopped) s).

(** [Start] is called once. *)
Inductive sup_step (s : Supervisor) : Supervisor → Prop :=
| SAdd name : unlocked s → s.(watches) = ∅ → sup_step s (Add name s)
| SStart : unlocked s → s.(watches) = ∅ → sup_step s (Start s)
| SWatch s' : watch_step s s' → sup_step s s'
| SStopBegin : unlocked s → sup_step s (Stop_begin s)
| SStopEnd :
    s.(stop_at) = Waiting → (∀ name p, s.(watches) !! name = Some p → ∃ w, p = Done w) → sup_step s (Stop_end s).

Definition sup_reachable (n : nat) : Supervisor → Prop := rtc sup_step (SetMaxRetry n NewSupervisor).

(** ** How often a worker is run *)

Definition watch_ok (max : nat) (name : string) (s : Supervisor) (p : watching) : Prop :=
  let r := count_of name s.(restarts) in
  let k := count_of name s.(runs) in
  match p with
  | Checking | Sleeping => k = r ∧ r <= max
  | Running | Failing => k = S r ∧ r <= max
  | Done GaveUp => k = S max
  | Done _ => k <= S max
  end.

Record sup_inv (max : nat) (s : Supervisor) : Prop := mkSupInv {
  si_max : s.(maxRetry) = max;
  si_watch : ∀ name p, s.(watches) !! name = Some p → watch_ok max name s p;
  si_none : ∀ name, s.(watches) !! name = None → count_of name s.(restarts) = 0 ∧ count_of name s.(runs) = 0;
}.

Lemma count_insert name k m name' : count_of name' (<[name := k]> m) = if decide (name' = name) then k else count_of name' m.
Proof.
  unfold count_of. case_decide as Hd; [subst; by rewrite lookup_insert_eq|by rewrite lookup_insert_ne].
Qed.

(** A step of one goroutine: the others are as before. *)
Lemma sup_inv_watch max name q p (s s' : Supervisor) :
  sup_inv max s → s.(watches) !! name = Some q → s'.(maxRetry) = s.(maxRetry) →
  s'.(watches) = <[name := p]> s.(watches) →
  (∀ n, n ≠ name → count_of n s'.(restarts) = count_of n s.(restarts) ∧ count_of n s'.(runs) = count_of n s.(runs)) →
  watch_ok max name s' p → sup_inv max s'.
Proof.
  intros [H1 H2 H3] Hq Hm Hw Hn Hp. split; [congruence|..]; rewrite Hw.
  - intros n p' [[<- <-]|[Hne Hl]]%lookup_insert_Some; [done|].
    destruct (Hn n) as [Er Ek]; [done|]. specialize (H2 _ _ Hl). unfold watch_ok in *. by rewrite Er, Ek.
  - intros n [Hl Hne]%lookup_insert_None. destruct (Hn n) as [-> ->]; [done|]. by apply H3.
Qed.

Lemma watch_step_inv max s s' : sup_inv max s → watch_step s s' → sup_inv max s'.
Proof.
  intros Hi Hs. pose proof Hi as [H1 H2 H3].
  destruct Hs as [name Hl|name failed Hl|name Hl _|name Hl|name Hl Hc]; pose proof (H2 _ _ Hl) as Hok; cbn in Hok.
  - unfold watch_check. destruct (stopChan s).
    + eapply (sup_inv_watch _ name _ (Done Stopped)); [done..|by intros|]. cbn. lia.
    + eapply (sup_inv_watch _ name _ Running); [done..| |].
      * intros n Hn. cbn. rewrite count_insert. by rewrite decide_False.
      * cbn. rewrite count_insert, decide_True by done. lia.
  - eapply (sup_inv_watch _ name _ (if failed then Failing else Done Finished)); [done..|by intros|].
    destruct failed; cbn; lia.
  - unfold watch_count. rewrite H1.
    eapply (sup_inv_watch _ name _ (if decide (max < S (count_of name (restarts s))) then Done GaveUp else Sleeping));
      [done..| |].
    + intros n Hn. cbn. rewrite count_insert. by rewrite decide_False.
    + case_decide; cbn; rewrite ?count_insert, ?(decide_True (P := name = name)) by done; lia.
  - eapply (sup_inv_watch _ name _ Checking); [done..|by intros|]. cbn. lia.
  - eapply (sup_inv_watch _ name _ (Done Stopped)); [done..|by intros|]. cbn. lia.
Qed.

Lemma sup_step_inv max s s' : sup_inv max s → sup_step s s' → sup_inv max s'.
Proof.
  intros Hi Hs. pose proof Hi as [H1 H2 H3]. destruct Hs as [name _ Hw|_ Hw|s' Hs|_|_ _].
  - by split.
  - split; [done|..]; cbn.
    + intros name p [Hin <-]%lookup_gset_to_gmap_Some. destruct (H3 name) as [Er Ek]; [by rewrite Hw|].
      unfold watch_ok. cbn. rewrite Er, Ek. lia.
    + intros name _. apply H3. by rewrite Hw.
  - by eapply watch_step_inv.
  - by split.
  - by split.
Qed.

Lemma sup_reachable_inv max s : sup_reachable max s → sup_inv max s.
Proof.
  intros Hr. assert (Hn : sup_inv max (SetMaxRetry max NewSupervisor)) by by split.
  revert Hn. induction Hr as [s|s1 s2 s3 Hs _ IH]; [done|]. intros Hn. by eapply IH, sup_step_inv.
Qed.

(** ** The goroutines end *)

(** What is left of a goroutine, in steps of its own. *)
Definition left_of (max r : nat) (p : watching) : nat :=
  match p with
  | Running => 4 * (max - r) + 3 | Failing => 4 * (max - r) + 2
  | Checking => 4 * (max - r) + 4 | Sleeping => 4 * (max - r) + 5
  | Done _ => 0
  end.
Definition left_in (s : Supervisor) : nat :=
  map_fold (λ name p n, left_of s.(maxRetry) (count_of name s.(restarts)) p + n) 0 s.(watches).

Lemma map_fold_le {A} (f g : string → A → nat) (m : gmap string A) :
  (∀ k x, m !! k = Some x → f k x = g k x) →
  map_fold (λ k x n, f k x + n) 0 m = map_fold (λ k x n, g k x + n) 0 m.
Proof.
  induction m as [|k x m Hk IH] using map_ind; intros Heq; [done|].
  rewrite !map_fold_insert_L by (done || (intros; lia)). rewrite (Heq k x) by apply lookup_insert_eq.
  f_equal. apply IH. intros k' x' Hl. apply Heq. rewrite lookup_insert_ne; [done|congruence].
Qed.

Lemma map_fold_one {A} (f g : string → A → nat) (m : gmap string A) k x y :
  m !! k = Some x → g k y < f k x → (∀ k' x', k' ≠ k → g k' x' = f k' x') →
  map_fold (λ k x n, g k x + n) 0 (<[k := y]> m) < map_fold (λ k x n, f k x + n) 0 m.
Proof.
  intros Hx Hlt Hother. rewrite <-(insert_delete_id m k x Hx) at 2. rewrite <-(insert_delete_eq m k y).
  rewrite !map_fold_insert_L by (try apply lookup_delete_eq; intros; lia).
  rewrite (map_fold_le g f); [lia|]. intros k' x' [Hne _]%lookup_delete_Some. by apply Hother.
Qed.

Lemma watch_step_less max s s' : sup_inv max s → watch_step s s' → left_in s' < left_in s.
Proof.
  intros [H1 H2 H3] Hs. unfold left_in.
  destruct Hs as [name Hl|name failed Hl|name Hl _|name Hl|name Hl Hc]; pose proof (H2 _ _ Hl) as Hok; cbn in Hok.
  - unfold watch_check. destruct (stopChan s); cbn [set_watch watches maxRetry restarts];
      (eapply (map_fold_one _ _ _ _ _ _ Hl); [cbn; lia|done]).
  - cbn [watch_return set_watch watches maxRetry restarts].
    eapply (map_fold_one _ _ _ _ _ _ Hl); [destruct failed; cbn; lia|done].
  - cbn [watch_count set_watch watches maxRetry restarts]. eapply (map_fold_one _ _ _ _ _ _ Hl).
    + rewrite count_insert, decide_True by done. case_decide; cbn; [lia|]. destruct (maxRetry s); lia.
    + intros k' x' Hne. rewrite count_insert. by rewrite decide_False.
  - cbn [set_watch watches maxRetry restarts]. eapply (map_fold_one _ _ _ _ _ _ Hl); [cbn; lia|done].
  - cbn [set_watch watches maxRetry restarts]. eapply (map_fold_one _ _ _ _ _ _ Hl); [cbn; lia|done].
Qed.

Lemma left_in_bound max s : sup_inv max s → left_in s <= (4 * max + 5) * size s.(watches).
Proof.
  intros [H1 _ _]. unfold left_in. rewrite H1. generalize (watches s).
  induction g as [|k x m Hk IH] using map_ind; [rewrite map_fold_empty; lia|].
  rewrite map_fold_insert_L by (done || (intros; lia)). rewrite map_size_insert_None by done.
  assert (left_of max (count_of k (restarts s)) x <= 4 * max + 5) by (destruct x; cbn; lia). lia.
Qed.

(** A worker that keeps failing is run once and then again as often as
    the limit says, never more, and the supervisor has given up exactly after
    that many runs.  The goroutines come to an end: between the outcomes of
    the workers they can take only so many steps of their own. *)
Theorem restarts_bounded (max : nat) (s : Supervisor) :
  sup_reachable max s →
  (∀ name, count_of name s.(runs) <= S max) ∧
  (∀ name, s.(watches) !! name = Some (Done GaveUp) → count_of name s.(runs) = S max) ∧
  ∀ n s', nsteps watch_step n s s' → n <= (4 * max + 5) * size s.(watches).
Proof.
  intros Hi%sup_reachable_inv. split_and!.
  - intros name. destruct (s.(watches) !! name) as [p|] eqn:E.
    + apply (si_watch _ _ Hi) in E. destruct p as [| | | |[]]; cbn in E; lia.
    + destruct (si_none _ _ Hi _ E) as [_ ->]. lia.
  - intros name E%(si_watch _ _ Hi). exact E.
  - intros n s' Hn. etrans; [|by apply left_in_bound]. revert Hi.
    induction Hn as [s|n s1 s2 s3 Hs _ IH]; intros Hi; [lia|].
    pose proof (watch_step_less _ _ _ Hi Hs). specialize (IH (watch_step_inv _ _ _ Hi Hs)). lia.
Qed.

(** ** Stop *)

(** [Stop] waits while a goroutine wants the lock it holds. *)
Definition deadlocked (name : string) (s : Supervisor) : Prop :=
  s.(stop_at) = Waiting ∧ s.(watches) !! name = Some Failing.

Lemma deadlocked_step name s s' : sup_step s s' → deadlocked name s → deadlocked name s'.
Proof.
  intros Hs [Hw Hf]. destruct Hs as [n [Hu _] _|[Hu _] _|s' Hs|[Hu _]|_ Hall]; try congruence.
  - destruct Hs as [n Hl|n failed Hl|n Hl [Hu _]|n Hl|n Hl Hc]; [| |congruence|..];
      (assert (n ≠ name) as Hne by congruence); unfold deadlocked.
    + unfold watch_check. by destruct (stopChan s); cbn; rewrite lookup_insert_ne.
    + cbn. by rewrite lookup_insert_ne.
    + cbn. by rewrite lookup_insert_ne.
    + cbn. by rewrite lookup_insert_ne.
  - by destruct (Hall _ _ Hf).
Qed.

Definition is_done (p : watching) : bool := match p with Done _ => true | _ => false end.

Lemma waiting_stopped max s : sup_reachable max s → s.(stop_at) = Waiting → s.(stopChan) = true.
Proof.
  intros Hr. assert (Hn : (SetMaxRetry max NewSupervisor).(stop_at) = Waiting →
    (SetMaxRetry max NewSupervisor).(stopChan) = true) by done.
  revert Hn. induction Hr as [s|s1 s2 s3 Hs _ IH]; [done|]. intros Hn. apply IH.
  destruct Hs as [n _ _|_ _|s' Hs|_|_ _]; try done.
  destruct Hs as [n Hl|n failed Hl|n Hl [Hu _]|n Hl|n Hl Hc]; try done.
  unfold watch_check. by destruct (stopChan s1) eqn:E.
Qed.

(** Without a failure on the way [Stop] can return. *)
Lemma stop_can_return k : ∀ s,
  size (filter (λ np : string * watching, is_done np.2 = false) s.(watches)) = k →
  s.(stop_at) = Waiting → s.(stopChan) = true → (∀ name, s.(watches) !! name ≠ Some Failing) →
  ∃ s', rtc sup_step s s' ∧ s'.(stop_at) = Returned.
Proof.
  induction k as [|k IH]; intros s Hk Hw Hc Hf.
  - exists (Stop_end s). split; [|done]. apply rtc_once, SStopEnd; [done|]. intros name p Hl.
    apply map_size_empty_inv in Hk. destruct p as [| | | |w]; [..|by exists w]; exfalso;
      refine (map_filter_empty_not_lookup _ _ name _ Hk _ Hl); done.
  - destruct (map_choose (filter (λ np : string * watching, is_done np.2 = false) (watches s))) as (name & p & Hl).
    { intros E. rewrite E, map_size_empty in Hk. done. }
    apply map_lookup_filter_Some in Hl as [Hl Hnd]. cbn in Hnd.
    assert (∃ w, sup_step s (set_watch name (Done w) s)) as [w Hs].
    { destruct p as [| | | |w]; [exists Stopped|exists Finished|by destruct (Hf name)|exists Stopped|done].
      - pose proof (WCheck s name Hl) as H. unfold watch_check in H. rewrite Hc in H. by apply SWatch.
      - apply SWatch. exact (WReturn s name false Hl).
      - apply SWatch. by apply WWakeStop. }
    destruct (IH (set_watch name (Done w) s)) as (s' & Hsteps & Hret); [|done|done| |].
    + cbn. rewrite map_filter_insert_False by done. rewrite map_filter_delete.
      rewrite map_size_delete, Hk. rewrite (proj2 (map_lookup_filter_Some _ _ _ _) (conj Hl Hnd)). done.
    + intros n. cbn. intros [[_ ?]|[_ Hl']]%lookup_insert_Some; [done|by destruct (Hf n)].
    + exists s'. split; [by eapply rtc_l|done].
Qed.

(** [Stop] keeps the lock while it waits for the goroutines, and a
    goroutine whose worker failed needs the lock: when a worker answers
    [Stop] with an error, neither ever goes on.  When no worker does, [Stop]
    can return. *)
Theorem stop_deadlocks (max : nat) (s : Supervisor) (name : string) :
  sup_reachable max s → s.(stop_at) = Waiting →
  (s.(watches) !! name = Some Failing → ∀ s', rtc sup_step s s' → deadlocked name s') ∧
  ((∀ n, s.(watches) !! n ≠ Some Failing) → ∃ s', rtc sup_step s s' ∧ s'.(stop_at) = Returned).
Proof.
  intros Hr Hw. split.
  - intros Hf s' Hsteps. assert (Hd : deadlocked name s) by done. revert Hd.
    clear - Hsteps. induction Hsteps as [s|s1 s2 s3 Hs _ IH]; [done|]. intros Hd. by eapply IH, deadlocked_step.
  - intros Hf. by eapply stop_can_return; [|done|eapply waiting_stopped|].
Qed.

(** ** The dispatcher (bus.go) *)

Module Dispatcher.

(** A handler: the address of its code, which is what [%p] prints, and which
    closure it is.  Two closures of one function literal have one address. *)
Record Handler := mkHandler { h_code : nat; h_closure : nat }.
Record Dispatcher := mkDispatcher { typeSubs : gmap string (list Handler); closed : bool }.

Definition NewDispatcher : Dispatcher := mkDispatcher ∅ false.
Definition subs (resourceType : string) (d : Dispatcher) : list Handler := default [] (d.(typeSubs) !! resourceType).

Definition SubscribeByType (resourceType : string) (handler : Handler) (d : Dispatcher) : Dispatcher :=
  mkDispatcher (<[resourceType := subs resourceType d ++ [handler]]> d.(typeSubs)) d.(closed).

Fixpoint remove_code (code : nat) (l : list Handler) : list Handler :=
  match l with
  | [] => []
  | h :: l' => if decide (h.(h_code) = code) then l' else h :: remove_code code l'
  end.
Definition UnsubscribeByType (resourceType : string) (handler : Handler) (d : Dispatcher) : Dispatcher :=
  match d.(typeSubs) !! resourceType with
  | None => d
  | Some l => mkDispatcher (<[resourceType := remove_code handler.(h_code) l]> d.(typeSubs)) d.(closed)
  end.

(** The handlers an event is given to, each in a goroutine of its own. *)
Definition Dispatch (event : GenericEvent) (d : Dispatcher) : list Handler :=
  if d.(closed) then [] else subs event.(ge_Resource).(rk_Type) d.
Definition Close (d : Dispatcher) : Dispatcher := mkDispatcher ∅ true.

Inductive disp_op := DSubscribe (t : string) (h : Handler) | DUnsubscribe (t : string) (h : Handler) | DClose.
Definition disp_step (d : Dispatcher) (op : disp_op) : Dispatcher :=
  match op with
  | DSubscribe t h => SubscribeByType t h d
  | DUnsubscribe t h => UnsubscribeByType t h d
  | DClose => Close d
  end.

(** What a history says: per type, the handlers subscribed and not taken out
    again; after [Close] nothing, whatever is subscribed. *)
Fixpoint wanted (t : string) (l : list Handler) (ops : list disp_op) : option (list Handler) :=
  match ops with
  | [] => Some l
  | DSubscribe t' h :: ops => wanted t (if decide (t' = t) then l ++ [h] else l) ops
  | DUnsubscribe t' h :: ops => wanted t (if decide (t' = t) then remove_code h.(h_code) l else l) ops
  | DClose :: _ => None
  end.

Lemma closed_stays ops d : d.(closed) = true → (foldl disp_step d ops).(closed) = true.
Proof.
  revert d. induction ops as [|op ops IH]; intros d Hc; [done|]. apply IH.
  destruct op as [t h|t h|]; cbn; [done| |done]. unfold UnsubscribeByType. by case_match.
Qed.

Lemma dispatch_wanted (ops : list disp_op) : ∀ (d : Dispatcher) (event : GenericEvent),
  d.(closed) = false →
  Dispatch event (foldl disp_step d ops) =
  default [] (wanted event.(ge_Resource).(rk_Type) (subs event.(ge_Resource).(rk_Type) d) ops).
Proof.
  induction ops as [|op ops IH]; intros d event Hc; [cbn; unfold Dispatch; by rewrite Hc|].
  set (t := event.(ge_Resource).(rk_Type)) in *. destruct op as [t' h|t' h|]; cbn [foldl disp_step wanted].
  - rewrite IH by done. f_equal. f_equal. fold t. unfold SubscribeByType, subs. cbn.
    case_decide as Hd; [subst; by rewrite lookup_insert_eq|by rewrite lookup_insert_ne].
  - unfold UnsubscribeByType. destruct (d.(typeSubs) !! t') as [l|] eqn:E; rewrite IH by done; f_equal; f_equal;
      fold t; unfold subs; cbn.
    + case_decide as Hd; [subst; by rewrite lookup_insert_eq, E|by rewrite lookup_insert_ne].
    + case_decide as Hd; [subst; by rewrite E|done].
  - unfold Dispatch. by rewrite closed_stays.
Qed.
End Dispatcher.

(** ** Witnesses *)

Definition one_worker (max : nat) : Supervisor := Start (Add "w" (SetMaxRetry max NewSupervisor)).
Lemma one_worker_reachable max : sup_reachable max (one_worker max).
Proof. eapply rtc_l; [by apply (SAdd _ "w")|]. apply rtc_once. by apply SStart. Qed.

Definition fails (s : Supervisor) : Supervisor := watch_count "w" (watch_return "w" true (watch_check "w" s)).
Lemma fails_steps s :
  s.(watches) !! "w" = Some Checking → s.(stopChan) = false → unlocked s → rtc sup_step s (fails s).
Proof.
  intros Hl Hc Hu. eapply rtc_l; [by apply SWatch, WCheck|]. unfold fails, watch_check. rewrite Hc.
  eapply rtc_l; [apply SWatch, (WReturn _ "w" true), lookup_insert_eq|].
  apply rtc_once, SWatch, WCount; [apply lookup_insert_eq|done].
Qed.

Definition given_up : Supervisor := fails (set_watch "w" Checking (fails (one_worker 1))).

Lemma restarts_bounded_witness :
  given_up.(watches) !! "w" = Some (Done GaveUp) ∧ count_of "w" given_up.(runs) = 2.
Proof.
  assert (Hd : given_up.(watches) !! "w" = Some (Done GaveUp)) by (vm_compute; reflexivity).
  split; [exact Hd|]. apply (restarts_bounded 1 given_up); [|exact Hd].
  unfold sup_reachable. etrans; [exact (one_worker_reachable _)|].
  etrans; [apply fails_steps; [vm_compute; reflexivity..|by split]|].
  eapply rtc_l; [apply SWatch, (WWake _ "w"); vm_compute; reflexivity|].
  apply fails_steps; [vm_compute; reflexivity..|by split].
Defined.

Definition stop_waits : Supervisor := watch_return "w" true (Stop_begin (watch_check "w" (one_worker 5))).

Lemma stop_deadlocks_witness : deadlocked "w" stop_waits.
Proof.
  apply (stop_deadlocks 5 stop_waits "w"); [|vm_compute; reflexivity..|apply rtc_refl].
  unfold sup_reachable. etrans; [exact (one_worker_reachable _)|].
  eapply rtc_l; [apply SWatch, (WCheck _ "w"); vm_compute; reflexivity|].
  eapply rtc_l; [apply SStopBegin; by split|].
  apply rtc_once, SWatch, WReturn. vm_compute. reflexivity.
Defined.
