(* ===== verification/Wire.v ===== *)
(** * The wire and contexts (what the client uses of encoding/json and context)

    The data of a message as the client sees it, and its conversion to the
    structs of package model ([unmarshalData] of handler/handler.go).
    [Contexts] holds the cancellable contexts, which are numbers. *)

From S2P Require Import Prelude Types Message.

(** ** The wire

    Structs and maps become maps, numbers become float64; empty fields marked
    "omitempty" are left out. *)

Definition omit_zero (k : string) (z : Z) (m : gmap string any) : gmap string any :=
  if decide (z = 0%Z) then m else <[k := AFloat64 (float64_of_Z z)]> m.

Definition json_CommandData (c : CommandData) : gmap string any :=
  <["request_id" := AString c.(cm_RequestID)]> $
  omit_zero "remote_port" c.(cm_RemotePort) $
  omit_zero "local_port" c.(cm_LocalPort) $
  omit_empty "protocol" c.(cm_Protocol) $
  omit_empty "bind_addr" c.(cm_BindAddr) $
  omit_empty "command" c.(cm_Command) $
  omit_empty "server_host" c.(cm_ServerHost) $
  omit_zero "tunnel_port" c.(cm_TunnelPort) $
  omit_empty "token" c.(cm_Token) $
  omit_empty "local_ip" c.(cm_LocalIP) ∅.

Definition wire_data (fmt_time : Z → string) (d : WSData) : any :=
  match d with
  | DNil => ANil
  | DMap m => json_norm fmt_time (AMap m)
  | DOther v => json_norm fmt_time v
  | DRegistered r => AMap (<["client_id" := AString r.(rg_ClientID)]> {["server_host" := AString r.(rg_ServerHost)]})
  | DCommand c => AMap (json_CommandData c)
  | DError e => AMap (<["code" := AFloat64 (float64_of_Z e.(er_Code))]> {["message" := AString e.(er_Message)]})
  | DProxyClosed p => AMap {["key" := AString p.(pc_Key)]}
  end.

(** A field of a struct read from JSON: missing and null leave it empty, a
    value of another kind is an error.  Numbers of 2^53 and more, which ports
    and sizes do not reach, count as an error. *)
Definition read_string (m : gmap string any) (k : string) : Res string :=
  match m !! k with
  | None | Some ANil => Ok ""
  | Some (AString s) => Ok s
  | Some _ => Err ("json: cannot unmarshal field " +:+ k)
  end.

Definition integral (f : spec_float) : option Z :=
  v ← float64_trunc f;
  if (Z.abs v <? 2 ^ 53)%Z && match f with
     | S754_finite _ m e => (0 <=? e)%Z || (Zpos m `mod` 2 ^ (- e) =? 0)%Z
     | _ => true
     end then Some v else None.

Definition read_int (m : gmap string any) (k : string) : Res Z :=
  match m !! k with
  | None | Some ANil => Ok 0%Z
  | Some (AFloat64 f) =>
      match integral f with Some v => Ok v | None => Err ("json: cannot unmarshal field " +:+ k) end
  | Some _ => Err ("json: cannot unmarshal field " +:+ k)
  end.

Definition read_CommandData (m : gmap string any) : Res CommandData :=
  rid ← read_string m "request_id"; rp ← read_int m "remote_port"; lp ← read_int m "local_port";
  proto ← read_string m "protocol"; bind ← read_string m "bind_addr"; cmd ← read_string m "command";
  host ← read_string m "server_host"; tp ← read_int m "tunnel_port"; token ← read_string m "token";
  ip ← read_string m "local_ip";
  Ok (mkCommandData rid rp lp proto bind cmd host tp token ip).
Definition read_ProxyClosedData (m : gmap string any) : Res ProxyClosedData :=
  key ← read_string m "key"; Ok (mkProxyClosedData key).
Definition read_TunnelRequestData (m : gmap string any) : Res TunnelRequestData :=
  key ← read_string m "key"; token ← read_string m "token"; Ok (mkTunnelRequestData key token).
Definition read_ProxyOutboundData (m : gmap string any) : Res ProxyOutboundData :=
  host ← read_string m "server_host"; tp ← read_int m "tunnel_port"; token ← read_string m "token";
  lp ← read_int m "local_port"; Ok (mkProxyOutboundData host tp token lp).
Definition read_RelaySignalData (m : gmap string any) : Res RelaySignalData :=
  id ← read_string m "session_id"; proto ← read_string m "protocol"; role ← read_string m "role";
  peer ← read_string m "peer_client_id"; sp ← read_int m "source_port"; tp ← read_int m "target_port";
  tip ← read_string m "target_local_ip"; sip ← read_string m "source_local_ip";
  host ← read_string m "server_host"; token ← read_string m "token";
  Ok (mkRelaySignalData id proto role peer sp tp tip sip host token).
Definition read_RelayStatusData (m : gmap string any) : Res RelayStatusData :=
  id ← read_string m "session_id"; st ← read_string m "status"; msg ← read_string m "message";
  Ok (mkRelayStatusData id st msg).

Section unmarshal.
(** [json.Unmarshal] of a text into an [any]. *)
Context (parse_json : string → Res any).

Definition read_any {T} (read : gmap string any → Res T) (v : any) : Res T :=
  match v with
  | ANil => read ∅
  | AMap m => read m
  | _ => Err "json: cannot unmarshal value"
  end.

Definition unmarshalData {T} (read : gmap string any → Res T) (data : any) : Res T :=
  match data with
  | AString s => v ← parse_json s; read_any read v
  | _ => read_any read data
  end.
End unmarshal.

(** ** Contexts *)

(** Every context is made from the base context of the handler. *)
Record Contexts := mkContexts { cx_next : nat; cx_cancelled : gset nat; cx_base : bool }.

Definition NewContexts : Contexts := mkContexts 0 ∅ false.
Definition WithCancel (c : Contexts) : nat * Contexts :=
  (c.(cx_next), mkContexts (S c.(cx_next)) c.(cx_cancelled) c.(cx_base)).
Definition cancel (i : nat) (c : Contexts) : Contexts := mkContexts c.(cx_next) ({[i]} ∪ c.(cx_cancelled)) c.(cx_base).
Definition baseCancel (c : Contexts) : Contexts := mkContexts c.(cx_next) c.(cx_cancelled) true.
Definition is_cancelled (i : nat) (c : Contexts) : bool := c.(cx_base) || bool_decide (i ∈ c.(cx_cancelled)).

(** ** Lemmas *)

Lemma integral_of_Z z : (Z.abs z < 2 ^ 53)%Z → integral (float64_of_Z z) = Some z.
Proof.
  intros Hz. unfold integral, float64_of_Z. rewrite (proj2 (Z.ltb_lt _ _) Hz).
  destruct z as [|p|p]; [done|..]; cbn -[Z.pow]; rewrite ?Z.mul_1_r; cbn -[Z.pow];
    rewrite (proj2 (Z.ltb_lt _ _)) by exact Hz; done.
Qed.

(** Reading a field past others, and the field itself. *)
Lemma read_string_insert_ne m k k' v : k ≠ k' → read_string (<[k' := v]> m) k = read_string m k.
Proof. intros Hne. unfold read_string. by rewrite lookup_insert_ne. Qed.
Lemma read_int_insert_ne m k k' v : k ≠ k' → read_int (<[k' := v]> m) k = read_int m k.
Proof. intros Hne. unfold read_int. by rewrite lookup_insert_ne. Qed.
Lemma read_string_insert m k s : read_string (<[k := AString s]> m) k = Ok s.
Proof. unfold read_string. by rewrite lookup_insert_eq. Qed.
Lemma read_int_insert m k z : (Z.abs z < 2 ^ 53)%Z → read_int (<[k := AFloat64 (float64_of_Z z)]> m) k = Ok z.
Proof. intros Hz. unfold read_int. rewrite lookup_insert_eq. by rewrite integral_of_Z. Qed.

Lemma read_string_omit_ne m k k' s : k ≠ k' → read_string (omit_empty k' s m) k = read_string m k.
Proof. intros Hne. unfold omit_empty. case_decide; [done|by apply read_string_insert_ne]. Qed.
Lemma read_string_zero_ne m k k' z : k ≠ k' → read_string (omit_zero k' z m) k = read_string m k.
Proof. intros Hne. unfold omit_zero. case_decide; [done|by apply read_string_insert_ne]. Qed.
Lemma read_int_omit_ne m k k' s : k ≠ k' → read_int (omit_empty k' s m) k = read_int m k.
Proof. intros Hne. unfold omit_empty. case_decide; [done|by apply read_int_insert_ne]. Qed.
Lemma read_int_zero_ne m k k' z : k ≠ k' → read_int (omit_zero k' z m) k = read_int m k.
Proof. intros Hne. unfold omit_zero. case_decide; [done|by apply read_int_insert_ne]. Qed.
Lemma read_string_omit m k s : read_string m k = Ok "" → read_string (omit_empty k s m) k = Ok s.
Proof. intros Hm. unfold omit_empty. case_decide; [by subst|apply read_string_insert]. Qed.
Lemma read_int_zero m k z : (Z.abs z < 2 ^ 53)%Z → read_int m k = Ok 0%Z → read_int (omit_zero k z m) k = Ok z.
Proof. intros Hz Hm. unfold omit_zero. case_decide; [by subst|by apply read_int_insert]. Qed.
Lemma read_string_empty k : read_string ∅ k = Ok "".
Proof. unfold read_string. by rewrite lookup_empty. Qed.
Lemma read_int_empty k : read_int ∅ k = Ok 0%Z.
Proof. unfold read_int. by rewrite lookup_empty. Qed.

(** Reads a field of a map written with the four operations. *)
Ltac read_field :=
  repeat first
    [ rewrite read_string_insert | rewrite read_int_insert by lia
    | rewrite read_string_insert_ne by discriminate | rewrite read_int_insert_ne by discriminate
    | rewrite read_string_omit_ne by discriminate | rewrite read_string_zero_ne by discriminate
    | rewrite read_int_omit_ne by discriminate | rewrite read_int_zero_ne by discriminate
    | rewrite read_string_empty | rewrite read_int_empty
    | rewrite read_string_omit by read_field | rewrite read_int_zero by (lia || read_field) ];
  try done.

(** Reads the next field of a struct. *)
Ltac read_next :=
  match goal with
  | |- context [read_string ?m ?k] => let H := fresh in eassert (read_string m k = Ok _) as H by read_field; rewrite H
  | |- context [read_int ?m ?k] => let H := fresh in eassert (read_int m k = Ok _) as H by read_field; rewrite H
  end.
Ltac read_all := repeat (read_next; cbn [mbind res_bind]).

(** Numbers a float64 holds exactly. *)
Definition command_ok (c : CommandData) : Prop :=
  (Z.abs c.(cm_RemotePort) < 2 ^ 53 ∧ Z.abs c.(cm_LocalPort) < 2 ^ 53 ∧ Z.abs c.(cm_TunnelPort) < 2 ^ 53)%Z.

Lemma read_CommandData_json c : command_ok c → read_CommandData (json_CommandData c) = Ok c.
Proof.
  intros (H1 & H2 & H3). unfold read_CommandData, json_CommandData. read_all. by destruct c.
Qed.

(** The signal of a relay arrives as the struct it is read into. *)
Definition signal_data (role peer publicIP : string) (r : RelaySession) : RelaySignalData :=
  mkRelaySignalData r.(rs_ID) r.(rs_Protocol) role peer r.(rs_SourcePort) r.(rs_TargetPort) r.(rs_TargetLocalIP)
    r.(rs_SourceLocalIP) publicIP r.(rs_Token).

Lemma read_relay_signal fmt_time (parse_json : string → Res any) msgType role peer publicIP r :
  (Z.abs r.(rs_SourcePort) < 2 ^ 53)%Z → (Z.abs r.(rs_TargetPort) < 2 ^ 53)%Z →
  unmarshalData parse_json read_RelaySignalData
    (wire_data fmt_time (ws_Data (relay_signal msgType role peer publicIP r))) = Ok (signal_data role peer publicIP r).
Proof.
  intros H1 H2. unfold relay_signal. cbn [ws_Data wire_data json_norm unmarshalData read_any].
  rewrite !fmap_insert, fmap_empty. cbn [json_norm]. unfold read_RelaySignalData. read_all. done.
Qed.
