(* ===== verification/Update.v ===== *)
(** * Remote updates of the client (BBgrid_Client/handler/handler.go: updates)

    The server sends the new executable in chunks; at the end the client
    compares the MD5 sum, writes the file beside the running one and a script
    that moves it into place.  MD5 and base64 are arguments; files are a map
    from paths to contents and every write may fail. *)

From S2P Require Import Prelude Types Path Wire.

Record UpdateState := mkUpdate {
  updateData : bytes;
  updateMD5 : string;
  updateSize : Z;
  updateChunksN : Z;
}.
Definition NoUpdate : UpdateState := mkUpdate [] "" 0 0.

(** What [make([]byte, 0, n)] takes, on a 64-bit Linux. *)
Definition maxAlloc : Z := 2 ^ 48.

Definition float_field (m : gmap string any) (k : string) : Z :=
  match as_float64 (m !! k) with Some f => int_of_float64 f | None => 0%Z end.

(** The fields are set before [make] panics on a capacity out of range; the
    panic is recovered in [Handle]. *)
Definition handleUpdateStart (data : any) (u : UpdateState) : UpdateState :=
  match as_map (Some data) with
  | None => u
  | Some m =>
      let md5Val := default "" (as_string (m !! "md5")) in
      let size := float_field m "size" in
      let chunks := float_field m "chunks" in
      if (size <? 0)%Z || (maxAlloc <? size)%Z then mkUpdate u.(updateData) md5Val size chunks
      else mkUpdate [] md5Val size chunks
  end.

Section update.
(** [base64.StdEncoding.DecodeString] and the MD5 sum in hexadecimal. *)
Context (base64_decode : string → Res bytes) (md5_hex : bytes → string).

Definition handleUpdateChunk (data : any) (u : UpdateState) : UpdateState :=
  match as_map (Some data) with
  | None => u
  | Some m =>
      match base64_decode (default "" (as_string (m !! "data"))) with
      | Err _ => u
      | Ok chunk =>
          if (u.(updateSize) =? 0)%Z then u
          else if (u.(updateSize) <? Z.of_nat (length u.(updateData) + length chunk))%Z then u
          else mkUpdate (u.(updateData) ++ chunk) u.(updateMD5) u.(updateSize) u.(updateChunksN)
      end
  end.

(** ** The restart script *)

(** [strings.ReplaceAll(s, quote, quote backslash quote quote)] *)
Fixpoint replace_quotes (s : string) : string :=
  match s with
  | "" => ""
  | String c s' => if decide (c = "'"%char) then "'\''" +:+ replace_quotes s' else String c (replace_quotes s')
  end.
Definition shellQuote (s : string) : string := "'" +:+ replace_quotes s +:+ "'".

Definition newline : string := String "010" "".
(** On Linux and macOS. *)
Definition scriptContent (execPath tmpPath : string) : string :=
  "#!/bin/sh" +:+ newline +:+ "sleep 2" +:+ newline +:+
  "mv " +:+ shellQuote tmpPath +:+ " " +:+ shellQuote execPath +:+ newline +:+
  "chmod +x " +:+ shellQuote execPath +:+ newline +:+
  "exec " +:+ shellQuote execPath +:+ " &" +:+ newline +:+
  "rm -- " +:+ String "034" "$0" +:+ String "034" "" +:+ newline.

Abbreviation files := (gmap string bytes).

(** The outcome of a write: done, or the part of the file that is there. *)
Definition write_file (path : string) (data : bytes) (r : option (option bytes)) (fs : files) : Res unit * files :=
  match r with
  | None => (Ok tt, <[path := data]> fs)
  | Some part => (Err ("write " +:+ path), match part with Some p => <[path := p]> fs | None => fs end)
  end.

Record update_env := mkUpdateEnv {
  ue_exec : Res string;
  ue_tmp : option (option bytes);
  ue_script : option (option bytes);
}.

Definition createRestartScript (env : update_env) (execPath tmpPath : string) (fs : files) : Res unit * files :=
  write_file (Join (Dir execPath) "aether_restart.sh") (list_ascii_of_string (scriptContent execPath tmpPath))
    env.(ue_script) fs.

(** Whether the process exits to be restarted. *)
Definition handleUpdateEnd (env : update_env) (u : UpdateState) (fs : files) : bool * UpdateState * files :=
  let cleared := mkUpdate [] u.(updateMD5) u.(updateSize) u.(updateChunksN) in
  if decide (u.(updateData) = []) then (false, u, fs)
  else if decide (u.(updateMD5) ≠ "" ∧ md5_hex u.(updateData) ≠ u.(updateMD5)) then (false, cleared, fs)
  else
    match env.(ue_exec) with
    | Err _ => (false, cleared, fs)
    | Ok execPath =>
        let tmpPath := execPath +:+ ".tmp" in
        match write_file tmpPath u.(updateData) env.(ue_tmp) fs with
        | (Err _, fs1) => (false, cleared, fs1)
        | (Ok _, fs1) =>
            match createRestartScript env execPath tmpPath fs1 with
            | (Err _, fs2) => (false, cleared, delete tmpPath fs2)
            | (Ok _, fs2) => (true, cleared, fs2)
            end
        end
    end.
End update.

(** ** Reading a shell script *)

Inductive lexing := Bare | Single | Double | Comment.

(** The simple commands of a script, each the list of its words: quotes,
    backslashes and comments as POSIX has them, without expansion.  [None]:
    a quote is not closed. *)
Definition push_word (w : option string) (ws : list string) : list string :=
  match w with Some x => ws ++ [x] | None => ws end.
Definition add_char (w : option string) (c : ascii) : option string := Some (default "" w +:+ String c "").
Definition add_command (ws : list string) (cmds : list (list string)) : list (list string) :=
  match ws with [] => cmds | _ => ws :: cmds end.

Fixpoint sh_lex (m : lexing) (w : option string) (ws : list string) (s : string) : option (list (list string)) :=
  match s with
  | "" => match m with Single | Double => None | _ => Some (add_command (push_word w ws) []) end
  | String c s' =>
      match m with
      | Bare =>
          if decide (c = "'"%char) then sh_lex Single (Some (default "" w)) ws s'
          else if decide (c = "034"%char) then sh_lex Double (Some (default "" w)) ws s'
          else if decide (c = "\"%char) then
            match s' with
            | String c' s'' => sh_lex Bare (if decide (c' = "010"%char) then w else add_char w c') ws s''
            | "" => None
            end
          else if decide (c = "010"%char) then add_command (push_word w ws) <$> sh_lex Bare None [] s'
          else if decide (c = " "%char ∨ c = "009"%char) then sh_lex Bare None (push_word w ws) s'
          else if decide (c = "#"%char ∧ w = None) then sh_lex Comment None ws s'
          else sh_lex Bare (add_char w c) ws s'
      | Single => if decide (c = "'"%char) then sh_lex Bare w ws s' else sh_lex Single (add_char w c) ws s'
      | Double => if decide (c = "034"%char) then sh_lex Bare w ws s' else sh_lex Double (add_char w c) ws s'
      | Comment =>
          if decide (c = "010"%char) then add_command (push_word w ws) <$> sh_lex Bare None [] s'
          else sh_lex Comment w ws s'
      end
  end.
Definition sh_commands (s : string) : option (list (list string)) := sh_lex Bare None [] s.

Lemma lex_single s : ∀ w ws rest,
  sh_lex Single (Some w) ws (replace_quotes s +:+ "'" +:+ rest) = sh_lex Bare (Some (w +:+ s)) ws rest.
Proof.
  induction s as [|c s IH]; intros w ws rest.
  - cbn [replace_quotes]. autorewrite with strings. done.
  - cbn [replace_quotes]. case_decide as Hc.
    + subst c. rewrite string_app_assoc. specialize (IH (w +:+ "'") ws rest).
      autorewrite with strings in *. exact IH.
    + specialize (IH (w +:+ String c "") ws rest). rewrite string_app_assoc in IH.
      rewrite string_app_cons. cbn [sh_lex]. rewrite decide_False by done. exact IH.
Qed.

Lemma lex_quote s w ws rest :
  sh_lex Bare w ws (shellQuote s +:+ rest) = sh_lex Bare (Some (default "" w +:+ s)) ws rest.
Proof.
  unfold shellQuote. autorewrite with strings. cbn [sh_lex]. rewrite decide_True by done.
  by rewrite <-(lex_single s).
Qed.

Definition plain (c : ascii) : bool :=
  negb (bool_decide (c = "'"%char)) && negb (bool_decide (c = "034"%char)) && negb (bool_decide (c = "\"%char)) &&
  negb (bool_decide (c = "010"%char)) && negb (bool_decide (c = " "%char)) && negb (bool_decide (c = "009"%char)) &&
  negb (bool_decide (c = "#"%char)).

Lemma lex_plain a : ∀ w ws rest,
  string_forall plain a = true →
  sh_lex Bare w ws (a +:+ rest) =
    sh_lex Bare (match a with "" => w | _ => Some (default "" w +:+ a) end) ws rest.
Proof.
  induction a as [|c a IH]; intros w ws rest; [done|]. cbn [string_forall]. intros [Hc Ha]%andb_true_iff.
  rewrite string_app_cons. cbn [sh_lex]. unfold plain in Hc. rewrite !andb_true_iff, !negb_true_iff, !bool_decide_eq_false in Hc.
  destruct Hc as ((((((H1 & H2) & H3) & H4) & H5) & H6) & H7). rewrite !decide_False by tauto.
  rewrite IH by done. unfold add_char. destruct a as [|c' a]; cbn [default]; [done|].
  unfold id. by rewrite string_app_assoc.
Qed.

Lemma lex_space w ws rest : sh_lex Bare w ws (" " +:+ rest) = sh_lex Bare None (push_word w ws) rest.
Proof. done. Qed.
Lemma lex_newline w ws rest :
  sh_lex Bare w ws (newline +:+ rest) = add_command (push_word w ws) <$> sh_lex Bare None [] rest.
Proof. done. Qed.
Lemma lex_comment a ws rest :
  no_char "010" a = true →
  sh_lex Comment None ws (a +:+ newline +:+ rest) = add_command ws <$> sh_lex Bare None [] rest.
Proof.
  induction a as [|c a IH]; [done|]. unfold no_char. cbn [string_forall]. intros [Hc%bool_decide_eq_true Ha]%andb_true_iff.
  rewrite string_app_cons. cbn [sh_lex]. rewrite decide_False by done. by apply IH.
Qed.

Create Rewrite HintDb lex.
#[local] Hint Rewrite lex_quote lex_space lex_newline : lex.

(** Whatever the paths are, the script moves the new file over the executable,
    makes it executable, starts it and removes itself. *)
Lemma script_commands execPath tmpPath :
  sh_commands (scriptContent execPath tmpPath) =
    Some [["sleep"; "2"]; ["mv"; tmpPath; execPath]; ["chmod"; "+x"; execPath]; ["exec"; execPath; "&"];
          ["rm"; "--"; "$0"]].
Proof.
  unfold sh_commands, scriptContent.
  change (sh_lex Bare None [] ("#!/bin/sh" +:+ newline +:+ ?r)) with
    (sh_lex Comment None [] ("!/bin/sh" +:+ newline +:+ r)). rewrite lex_comment by done.
  change "sleep 2" with ("sleep" +:+ " " +:+ "2"). change "mv " with ("mv" +:+ " ").
  change "chmod +x " with ("chmod" +:+ " " +:+ "+x" +:+ " "). change "exec " with ("exec" +:+ " ").
  change " &" with (" " +:+ "&"). change "rm -- " with ("rm" +:+ " " +:+ "--" +:+ " ").
  rewrite !string_app_assoc.
  repeat (autorewrite with lex || rewrite lex_plain by reflexivity).
  cbn. done.
Qed.

(** ** Properties *)

Section properties.
Context (base64_decode : string → Res bytes) (md5_hex : bytes → string).

Abbreviation handleUpdateChunk := (handleUpdateChunk base64_decode).
Abbreviation handleUpdateEnd := (handleUpdateEnd md5_hex).

Definition start_message (md5 : string) (size chunks : Z) : any :=
  AMap (<["md5" := AString md5]> $ <["size" := AFloat64 (float64_of_Z size)]> $
        <["chunks" := AFloat64 (float64_of_Z chunks)]> ∅).
Definition chunk_message (text : string) : any := AMap {["data" := AString text]}.

Definition received (u : UpdateState) (texts : list string) : UpdateState :=
  foldl (λ u t, handleUpdateChunk (chunk_message t) u) u texts.

Lemma start_spec md5 size chunks u :
  (0 < size <= maxAlloc)%Z → (Z.abs chunks < 2 ^ 53)%Z →
  handleUpdateStart (start_message md5 size chunks) u = mkUpdate [] md5 size chunks.
Proof.
  intros Hs Hc. unfold handleUpdateStart, start_message, float_field. cbn [as_map].
  rewrite lookup_insert_eq, !(lookup_insert_ne _ "md5") by done.
  rewrite !(lookup_insert_ne _ "size" "chunks"), !lookup_insert_eq by done. cbn [as_string as_float64 default].
  unfold maxAlloc in *. rewrite !int_of_float64_of_Z by lia.
  by rewrite (proj2 (Z.ltb_ge _ _)), (proj2 (Z.ltb_ge _ _)) by lia.
Qed.

Lemma chunk_spec text u :
  let u' := handleUpdateChunk (chunk_message text) u in
  u'.(updateMD5) = u.(updateMD5) ∧ u'.(updateSize) = u.(updateSize) ∧
  (Z.of_nat (length u.(updateData)) <= u.(updateSize) → Z.of_nat (length u'.(updateData)) <= u'.(updateSize))%Z ∧
  ∀ chunk, base64_decode text = Ok chunk → (0 < u.(updateSize))%Z →
    (Z.of_nat (length u.(updateData) + length chunk) <= u.(updateSize))%Z → u'.(updateData) = u.(updateData) ++ chunk.
Proof.
  unfold Update.handleUpdateChunk, chunk_message. cbn [as_map]. rewrite lookup_singleton_eq. cbn [as_string default]. unfold id.
  destruct (base64_decode text) as [b|e]; [|by split_and!].
  destruct (Z.eqb_spec u.(updateSize) 0) as [Hz|Hz]; [split_and!; [done..|lia]|].
  destruct (Z.ltb_spec u.(updateSize) (Z.of_nat (length u.(updateData) + length b))); cbn.
  - split_and!; [done..|]. intros chunk [= <-] ??. lia.
  - split_and!; [done..| |by intros chunk [= <-]]. intros _. rewrite length_app. lia.
Qed.

Lemma received_spec texts : ∀ u,
  let u' := received u texts in
  u'.(updateMD5) = u.(updateMD5) ∧ u'.(updateSize) = u.(updateSize) ∧
  (Z.of_nat (length u.(updateData)) <= u.(updateSize) → Z.of_nat (length u'.(updateData)) <= u'.(updateSize))%Z.
Proof.
  induction texts as [|t texts IH]; intros u; [done|]. unfold received in *. cbn [foldl].
  destruct (chunk_spec t u) as (H1 & H2 & H3 & _).
  destruct (IH (handleUpdateChunk (chunk_message t) u)) as (H4 & H5 & H6).
  split_and!; [congruence|congruence|]. intros Hl. by apply H6, H3.
Qed.

Lemma received_all texts chunks : ∀ u,
  Forall2 (λ t b, base64_decode t = Ok b) texts chunks → (0 < u.(updateSize))%Z →
  (Z.of_nat (length u.(updateData) + length (concat chunks)) <= u.(updateSize))%Z →
  (received u texts).(updateData) = u.(updateData) ++ concat chunks.
Proof.
  intros u Hf. revert u. induction Hf as [|t b texts chunks Hb _ IH]; intros u H0 Hl; [by rewrite app_nil_r|].
  cbn [concat] in *. rewrite length_app in Hl. unfold received in *. cbn [foldl].
  destruct (chunk_spec t u) as (_ & H2 & _ & H4). specialize (H4 _ Hb H0 ltac:(lia)).
  rewrite IH, H4; [by rewrite app_assoc|by rewrite H2|]. rewrite H2, H4, length_app. lia.
Qed.

(** Every write succeeds, and the running executable is [execPath]. *)
Definition writes (env : update_env) (execPath : string) : Prop :=
  env.(ue_exec) = Ok execPath ∧ env.(ue_tmp) = None ∧ env.(ue_script) = None.

(** After the announcement of an update the client holds at most the bytes
    announced, whatever it is sent.  When the chunks fit, it holds their
    concatenation; at the end this is what it writes beside the executable,
    with a script that, whatever the path, moves exactly this file over the
    executable and starts it; when a sum was announced and another computed,
    it writes nothing.  Neither the number of chunks nor the size is looked at
    again: chunks that were lost are noticed only by the sum, and without one
    not at all. *)
Theorem update_installs (u : UpdateState) (md5 : string) (size n : Z) (texts : list string) (chunks : list bytes)
    (env : update_env) (execPath : string) (fs : gmap string bytes) :
  (0 < size <= maxAlloc)%Z → (Z.abs n < 2 ^ 53)%Z →
  let u1 := handleUpdateStart (start_message md5 size n) u in
  (∀ texts', Z.of_nat (length (received u1 texts').(updateData)) <= size)%Z ∧
  (Forall2 (λ t b, base64_decode t = Ok b) texts chunks → (Z.of_nat (length (concat chunks)) <= size)%Z →
   let data := concat chunks in
   let script := scriptContent execPath (execPath +:+ ".tmp") in
   let r := handleUpdateEnd env (received u1 texts) fs in
   (data ≠ [] → md5 = "" ∨ md5_hex data = md5 → writes env execPath →
      r.1.1 = true ∧ r.2 = <[Join (Dir execPath) "aether_restart.sh" := list_ascii_of_string script]>
                             (<[execPath +:+ ".tmp" := data]> fs) ∧
      sh_commands script = Some [["sleep"; "2"]; ["mv"; execPath +:+ ".tmp"; execPath]; ["chmod"; "+x"; execPath];
                                 ["exec"; execPath; "&"]; ["rm"; "--"; "$0"]]) ∧
   (md5 ≠ "" → md5_hex data ≠ md5 → r.1.1 = false ∧ r.2 = fs)).
Proof.
  intros Hs Hn u1. assert (Hu : u1 = mkUpdate [] md5 size n) by by apply start_spec. rewrite Hu. clear u1 Hu.
  split.
  - intros texts'. destruct (received_spec texts' (mkUpdate [] md5 size n)) as (_ & Hz & Hl).
    cbn in Hz, Hl. rewrite Hz in Hl. apply Hl. lia.
  - intros Hf Hl data script r. destruct (received_spec texts (mkUpdate [] md5 size n)) as (Hm & _ & _).
    pose proof (received_all _ _ (mkUpdate [] md5 size n) Hf) as Hd. cbn in Hd, Hm.
    specialize (Hd ltac:(lia) Hl). fold data in Hd. subst r. unfold Update.handleUpdateEnd. rewrite Hd, Hm.
    split.
    + intros Hne Hmd (H1 & H2 & H3). rewrite H1, H2. rewrite (decide_False (P := data = [])) by done. rewrite decide_False by naive_solver.
      unfold createRestartScript, write_file. rewrite H3. split_and!; [done..|]. apply script_commands.
    + intros H1 H2. case_decide; [done|]. by rewrite decide_True.
Qed.
End properties.

(** ** Witness *)

(** A text stands for its bytes, and the sum for the length. *)
Definition toy_base64 (t : string) : Res bytes := Ok (list_ascii_of_string t).
Definition toy_md5 (b : bytes) : string := pretty (length b).
Definition all_writes : update_env := mkUpdateEnv (Ok "/opt/it's") None None.

Lemma update_installs_witness :
  let u := received toy_base64 (handleUpdateStart (start_message "4" 4 2) NoUpdate) ["ab"; "cd"] in
  let r := handleUpdateEnd toy_md5 all_writes u ∅ in
  r.1.1 = true ∧ r.2 !! "/opt/it's.tmp" = Some (list_ascii_of_string "abcd").
Proof.
  destruct (update_installs toy_base64 toy_md5 NoUpdate "4" 4 2 ["ab"; "cd"]
    [list_ascii_of_string "ab"; list_ascii_of_string "cd"] all_writes "/opt/it's" ∅) as [_ H]; [unfold maxAlloc; lia|lia|].
  destruct H as [H _]; [by repeat constructor|cbn; lia|].
  destruct H as (H1 & H2 & _); [discriminate|right; vm_compute; reflexivity|by split_and!|].
  cbv zeta. split; [exact H1|]. rewrite H2. vm_compute. reflexivity.
Defined.
