(* ===== verification/ClientRelay.v ===== *)
(** * Relays at the client (BBgrid_Client/handler/relay.go)

    The relay manager keeps the relay sessions by id; a goroutine runs each.
    A session is an object with a number, because the map and the goroutine
    hold the same one: the map may already hold another object under its id.
    Dialling, listening and the end of a multiplexer are outcomes of steps;
    what the two ends exchange is in Mux. *)

From S2P Require Import Prelude Types Message Wire.

Record relaySession := mkRelaySess {
  re_id : string;
  re_protocol : string;
  re_role : string;
  re_targetPort : Z;
  re_targetLocalIP : string;
  re_sourceLocalIP : string;
  re_sourcePort : Z;
  re_token : string;
  re_serverHost : string;
  re_cancel : nat;
  re_mx : bool;
  re_ln : bool;
  re_closed : bool;
}.

(** Where the goroutine of a session is: connecting to the server, about to
    listen (only the source), serving, returned. *)
Inductive running := Dialling | Binding | Serving | Ended.

Record relayManager := mkRelayManager {
  rm_sessions : gmap string nat;
  rm_objs : gmap nat relaySession;
  rm_runs : gmap nat running;
  rm_sent : list (string * any);
}.
Definition newRelayManager : relayManager := mkRelayManager ∅ ∅ ∅ [].

Definition rm_put (o : nat) (s : relaySession) (r : running) (rm : relayManager) : relayManager :=
  mkRelayManager rm.(rm_sessions) (<[o := s]> rm.(rm_objs)) (<[o := r]> rm.(rm_runs)) rm.(rm_sent).
Definition rm_set_sessions (f : gmap string nat → gmap string nat) (rm : relayManager) : relayManager :=
  mkRelayManager (f rm.(rm_sessions)) rm.(rm_objs) rm.(rm_runs) rm.(rm_sent).
Definition rm_send (msg : string * any) (rm : relayManager) : relayManager :=
  mkRelayManager rm.(rm_sessions) rm.(rm_objs) rm.(rm_runs) (rm.(rm_sent) ++ [msg]).
Definition rm_alter (o : nat) (f : relaySession → relaySession) (rm : relayManager) : relayManager :=
  mkRelayManager rm.(rm_sessions) (alter f o rm.(rm_objs)) rm.(rm_runs) rm.(rm_sent).
Definition rm_run (o : nat) (r : running) (rm : relayManager) : relayManager :=
  mkRelayManager rm.(rm_sessions) rm.(rm_objs) (<[o := r]> rm.(rm_runs)) rm.(rm_sent).

Definition re_with_conns (mx ln : bool) (s : relaySession) : relaySession :=
  mkRelaySess s.(re_id) s.(re_protocol) s.(re_role) s.(re_targetPort) s.(re_targetLocalIP) s.(re_sourceLocalIP)
    s.(re_sourcePort) s.(re_token) s.(re_serverHost) s.(re_cancel) mx ln s.(re_closed).
Definition re_close (s : relaySession) : relaySession :=
  mkRelaySess s.(re_id) s.(re_protocol) s.(re_role) s.(re_targetPort) s.(re_targetLocalIP) s.(re_sourceLocalIP)
    s.(re_sourcePort) s.(re_token) s.(re_serverHost) s.(re_cancel) s.(re_mx) s.(re_ln) true.

(** The text of a [model.RelayStatusData]; "message" is left out when empty. *)
Definition json_RelayStatusData (d : RelayStatusData) : any :=
  AMap (<["session_id" := AString d.(st_SessionID)]> $ <["status" := AString d.(st_Status)]> $
        omit_empty "message" d.(st_Message) ∅).

Section manager.
(** Reading and writing of JSON texts. *)
Context (parse_json : string → Res any) (print_json : any → string).

Definition relay_ctx : Type := Contexts * relayManager.

(** [sess.closeOnce.Do]: the second call does nothing.  [conns] says whether
    the listener and the multiplexer are closed too. *)
Definition close_session (conns : bool) (o : nat) (x : relay_ctx) : relay_ctx :=
  match x.2.(rm_objs) !! o with
  | Some s =>
      if s.(re_closed) then x
      else (cancel s.(re_cancel) x.1, rm_alter o (λ s, re_close (if conns then re_with_conns false false s else s)) x.2)
  | None => x
  end.

(** [o] is the number of the new object. *)
Definition handleRelaySignal (o : nat) (data : any) (x : relay_ctx) : relay_ctx :=
  match unmarshalData parse_json read_RelaySignalData data with
  | Err _ => x
  | Ok sig =>
      let '(ctx, c) := WithCancel x.1 in
      let sess := mkRelaySess sig.(sg_SessionID) sig.(sg_Protocol) sig.(sg_Role) sig.(sg_TargetPort)
                    sig.(sg_TargetLocalIP) sig.(sg_SourceLocalIP) sig.(sg_SourcePort) sig.(sg_Token)
                    sig.(sg_ServerHost) ctx false false false in
      (c, rm_set_sessions <[sig.(sg_SessionID) := o]> (rm_put o sess Dialling x.2))
  end.

(** The session of the map is taken out and closed. *)
Definition take_session (conns : bool) (id : string) (x : relay_ctx) : relay_ctx :=
  match x.2.(rm_sessions) !! id with
  | Some o => close_session conns o (x.1, rm_set_sessions (delete id) x.2)
  | None => x
  end.

Definition handleRelayClosed (data : any) (x : relay_ctx) : relay_ctx :=
  match unmarshalData parse_json read_RelayStatusData data with
  | Err _ => x
  | Ok status => take_session false status.(st_SessionID) x
  end.

(** [stop], which [Close] calls; the order of a map is one of its own. *)
Definition stop (x : relay_ctx) : relay_ctx :=
  let y := foldr (close_session false) x (map_to_list x.2.(rm_sessions)).*2 in (y.1, rm_set_sessions (λ _, ∅) y.2).

Definition sendEstablished (sessionID : string) (connected : bool) (msg : string) (rm : relayManager) : relayManager :=
  let status := if connected then "connected" else "failed" in
  rm_send ("relay_established", AString (print_json (json_RelayStatusData (mkRelayStatusData sessionID status msg)))) rm.
Definition sendClosed (sessionID : string) (rm : relayManager) : relayManager :=
  rm_send ("relay_closed", AString (print_json (json_RelayStatusData (mkRelayStatusData sessionID "closed" "")))) rm.

Definition cleanupSession (sessionID : string) (x : relay_ctx) : relay_ctx := take_session true sessionID x.

(** The deferred calls of [runSource] and [runTarget]. *)
Definition run_end (o : nat) (x : relay_ctx) : relay_ctx :=
  match x.2.(rm_objs) !! o with
  | None => x
  | Some s => let y := cleanupSession s.(re_id) x in (y.1, rm_run o Ended (sendClosed s.(re_id) y.2))
  end.

Definition relayURL (useHTTP : bool) (clientID : string) (s : relaySession) : string :=
  (if useHTTP then "ws" else "wss") +:+ "://" +:+ s.(re_serverHost) +:+ ":9909/relay?session=" +:+ s.(re_id) +:+
  "&token=" +:+ s.(re_token) +:+ "&role=" +:+ (if decide (s.(re_role) = "source") then "source" else "target") +:+
  "&client_id=" +:+ clientID.

(** [connectRelay] has returned; the target is ready with its multiplexer. *)
Definition run_dial (o : nat) (r : Res unit) (x : relay_ctx) : relay_ctx :=
  match x.2.(rm_objs) !! o with
  | None => x
  | Some s =>
      match r with
      | Err e => run_end o (x.1, sendEstablished s.(re_id) false e x.2)
      | Ok _ =>
          let rm := rm_alter o (re_with_conns true false) x.2 in
          if decide (s.(re_role) = "source") then (x.1, rm_run o Binding rm)
          else (x.1, rm_run o Serving (sendEstablished s.(re_id) true "" rm))
      end
  end.

(** [net.Listen] of the source has returned. *)
Definition run_listen (o : nat) (r : Res unit) (x : relay_ctx) : relay_ctx :=
  match x.2.(rm_objs) !! o with
  | None => x
  | Some s =>
      match r with
      | Err e => run_end o (x.1, sendEstablished s.(re_id) false e x.2)
      | Ok _ => (x.1, rm_run o Serving (sendEstablished s.(re_id) true "" (rm_alter o (re_with_conns true true) x.2)))
      end
  end.

(** ** Steps *)

(** A served session ends when its context is cancelled or its multiplexer
    or listener ends, which may be at any time.  [allowed] says which signals
    may come. *)
Inductive relay_step (allowed : relay_ctx → any → Prop) (x : relay_ctx) : relay_ctx → Prop :=
| RSignal o data : x.2.(rm_objs) !! o = None → allowed x data → relay_step allowed x (handleRelaySignal o data x)
| RClosed data : relay_step allowed x (handleRelayClosed data x)
| RStop : relay_step allowed x (stop (baseCancel x.1, x.2))
| RDial o r : x.2.(rm_runs) !! o = Some Dialling → relay_step allowed x (run_dial o r x)
| RListen o r : x.2.(rm_runs) !! o = Some Binding → relay_step allowed x (run_listen o r x)
| REnd o : x.2.(rm_runs) !! o = Some Serving → relay_step allowed x (run_end o x).
End manager.

(** ** Invariants *)

Definition live (rm : relayManager) (o : nat) : Prop := ∃ r, rm.(rm_runs) !! o = Some r ∧ r ≠ Ended.
(** The id and the context of every session there was. *)
Definition keys (rm : relayManager) : gmap nat (string * nat) := (λ s, (s.(re_id), s.(re_cancel))) <$> rm.(rm_objs).

(** Contexts are drawn in order, each session has its own, and a session is
    closed only with its context cancelled. *)
Record ctx_wf (x : relay_ctx) : Prop := mkCtxWf {
  cw_next o id i : keys x.2 !! o = Some (id, i) → i < x.1.(cx_next);
  cw_cancelled i : i ∈ x.1.(cx_cancelled) → i < x.1.(cx_next);
  cw_own o o' id id' i : keys x.2 !! o = Some (id, i) → keys x.2 !! o' = Some (id', i) → o = o';
  cw_closed o s : x.2.(rm_objs) !! o = Some s → s.(re_closed) = true → is_cancelled s.(re_cancel) x.1 = true;
  cw_runs o : is_Some (x.2.(rm_runs) !! o) → is_Some (keys x.2 !! o);
  cw_filed id o : x.2.(rm_sessions) !! id = Some o → ∃ i, keys x.2 !! o = Some (id, i);
}.

Lemma is_cancelled_true i c : is_cancelled i c = true ↔ c.(cx_base) = true ∨ i ∈ c.(cx_cancelled).
Proof. unfold is_cancelled. by rewrite orb_true_iff, bool_decide_eq_true. Qed.
Lemma is_cancelled_cancel i j c : is_cancelled i (cancel j c) = true ↔ i = j ∨ is_cancelled i c = true.
Proof. rewrite !is_cancelled_true. cbn. set_solver. Qed.
Lemma keys_obj rm o s : rm.(rm_objs) !! o = Some s → keys rm !! o = Some (s.(re_id), s.(re_cancel)).
Proof. intros Ho. unfold keys. by rewrite lookup_fmap, Ho. Qed.
Lemma obj_keys rm o id i :
  keys rm !! o = Some (id, i) → ∃ s, rm.(rm_objs) !! o = Some s ∧ s.(re_id) = id ∧ s.(re_cancel) = i.
Proof. unfold keys. rewrite lookup_fmap. destruct (_ !! o) as [s|]; [|done]. intros [= <- <-]. by exists s. Qed.

(** An object keeps its id and context; what changes beside is the rest. *)
Lemma keys_alter o f rm : (∀ s, re_id (f s) = re_id s ∧ re_cancel (f s) = re_cancel s) → keys (rm_alter o f rm) = keys rm.
Proof.
  intros Hf. unfold keys. cbn. apply map_eq. intros o'. rewrite !lookup_fmap.
  destruct (decide (o' = o)) as [->|Hne]; [rewrite lookup_alter_eq|by rewrite lookup_alter_ne].
  destruct (_ !! o) as [s|]; [|done]. cbn. by destruct (Hf s) as [-> ->].
Qed.

(** What closing a session changes: its context is cancelled. *)
Lemma close_session_spec conns o x s :
  ctx_wf x → x.2.(rm_objs) !! o = Some s →
  let y := close_session conns o x in
  ctx_wf y ∧ (∀ i, is_cancelled i y.1 = true ↔ i = s.(re_cancel) ∨ is_cancelled i x.1 = true) ∧
  keys y.2 = keys x.2 ∧ y.2.(rm_sessions) = x.2.(rm_sessions) ∧ y.2.(rm_runs) = x.2.(rm_runs).
Proof.
  intros Hwf Ho. unfold close_session. rewrite Ho. cbv zeta. destruct (re_closed s) eqn:Hc.
  - pose proof (cw_closed _ Hwf _ _ Ho Hc) as Hd. split_and!; try done.
    intros i. split; [by right|]. intros [->|?]; done.
  - set (f := λ s, re_close (if conns then re_with_conns false false s else s)).
    assert (Hk : keys (rm_alter o f x.2) = keys x.2) by (apply keys_alter; intros s'; by destruct conns).
    destruct Hwf as [H1 H2 H3 H4 H5 H6]. split_and!; [|intros i; apply is_cancelled_cancel|exact Hk|done..].
    split; cbn [fst snd]; rewrite ?Hk; try done.
    + intros i. cbn. rewrite elem_of_union, elem_of_singleton. intros [->|Hi]; [|by apply H2].
      by eapply H1, keys_obj.
    + intros o' s'. destruct (decide (o' = o)) as [->|Hne]; cbn.
      * rewrite lookup_alter_eq, Ho. cbn. intros [= <-] _. rewrite is_cancelled_cancel. left. by destruct conns.
      * rewrite lookup_alter_ne by done. intros Ho' Hcl. rewrite is_cancelled_cancel. right. by eapply H4.
Qed.

Lemma set_sessions_wf f x :
  ctx_wf x → (∀ id o, f x.2.(rm_sessions) !! id = Some o → x.2.(rm_sessions) !! id = Some o) →
  ctx_wf (x.1, rm_set_sessions f x.2).
Proof. intros [H1 H2 H3 H4 H5 H6] Hf. split; try done. intros id o Hl. apply H6. by apply Hf. Qed.

Lemma take_session_spec conns id x :
  ctx_wf x →
  let y := take_session conns id x in
  ctx_wf y ∧ y.2.(rm_sessions) = delete id x.2.(rm_sessions) ∧ keys y.2 = keys x.2 ∧ y.2.(rm_runs) = x.2.(rm_runs) ∧
  ∀ i, is_cancelled i y.1 = true ↔
    (∃ o, x.2.(rm_sessions) !! id = Some o ∧ keys x.2 !! o = Some (id, i)) ∨ is_cancelled i x.1 = true.
Proof.
  intros Hwf. unfold take_session. destruct (_ !! id) as [o|] eqn:Hl; cbv zeta.
  - destruct (cw_filed _ Hwf _ _ Hl) as [i Hi]. destruct (obj_keys _ _ _ _ Hi) as (s & Ho & <- & <-).
    destruct (close_session_spec conns o (x.1, rm_set_sessions (delete s.(re_id)) x.2) s) as (H1 & H2 & H3 & H4 & H5);
      [|done|].
    { apply set_sessions_wf; [done|]. by intros id o' [_ ?]%lookup_delete_Some. }
    split_and!; [exact H1|by rewrite H4|by rewrite H3|by rewrite H5|].
    intros i. rewrite H2. split; intros [H|H]; try by right.
    + subst i. left. exists o. by split.
    + left. destruct H as (o' & Heq & Hk). injection Heq as <-. rewrite Hi in Hk. by injection Hk as ->.
  - split_and!; [done|by rewrite delete_id|done|done|]. intros i. split; [by right|]. intros [(o & ? & _)|?]; done.
Qed.

Lemma close_all_spec l : ∀ x,
  ctx_wf x → (∀ o, o ∈ l → is_Some (keys x.2 !! o)) →
  let y := foldr (close_session false) x l in
  ctx_wf y ∧ keys y.2 = keys x.2 ∧ y.2.(rm_sessions) = x.2.(rm_sessions) ∧ y.2.(rm_runs) = x.2.(rm_runs) ∧
  ∀ i, is_cancelled i x.1 = true → is_cancelled i y.1 = true.
Proof.
  induction l as [|o l IH]; intros x Hwf Hl; [done|]. cbn [foldr].
  destruct (IH x Hwf) as (H1 & H2 & H3 & H4 & H5); [intros; apply Hl; by right|].
  destruct (Hl o) as [[id i] Hk]; [by left|]. rewrite <-H2 in Hk. destruct (obj_keys _ _ _ _ Hk) as (s & Ho & _).
  destruct (close_session_spec false o _ s H1 Ho) as (H6 & H7 & H8 & H9 & H10). cbv zeta.
  split_and!; [exact H6|congruence..|]. intros j Hj. apply H7. right. by apply H5.
Qed.

Lemma stop_spec x :
  ctx_wf x → let y := stop (baseCancel x.1, x.2) in
  ctx_wf y ∧ keys y.2 = keys x.2 ∧ y.2.(rm_sessions) = ∅ ∧ y.2.(rm_runs) = x.2.(rm_runs) ∧
  ∀ i, is_cancelled i y.1 = true.
Proof.
  intros Hwf. cbv zeta. set (b := (baseCancel x.1, x.2)).
  assert (Hb : ctx_wf b).
  { destruct Hwf as [H1 H2 H3 H4 H5 H6]. split; try done. }
  destruct (close_all_spec (map_to_list b.2.(rm_sessions)).*2 b Hb) as (H1 & H2 & H3 & H4 & H5).
  { intros o Ho. apply list_elem_of_fmap in Ho as ([id o'] & -> & Hl%elem_of_map_to_list).
    destruct (cw_filed _ Hwf _ _ Hl) as [i Hi]. by exists (id, i). }
  unfold stop. split_and!; [|exact H2|done|exact H4|].
  - apply set_sessions_wf; [exact H1|]. intros id o. by rewrite lookup_empty.
  - intros i. apply H5, is_cancelled_true. by left.
Qed.

Section steps.
Context (parse_json : string → Res any) (print_json : any → string).
Abbreviation relay_step := (relay_step parse_json print_json).
Abbreviation handleRelaySignal := (handleRelaySignal parse_json).
Abbreviation handleRelayClosed := (handleRelayClosed parse_json).
Abbreviation run_end := (run_end print_json).
Abbreviation run_dial := (run_dial print_json).
Abbreviation run_listen := (run_listen print_json).

(** A signal that is read makes one object, live, with a context of its own,
    and files it. *)
Lemma signal_spec o data x sig :
  unmarshalData parse_json read_RelaySignalData data = Ok sig → ctx_wf x → x.2.(rm_objs) !! o = None →
  let y := handleRelaySignal o data x in
  ctx_wf y ∧ y.2.(rm_sessions) = <[sig.(sg_SessionID) := o]> x.2.(rm_sessions) ∧
  keys y.2 = <[o := (sig.(sg_SessionID), x.1.(cx_next))]> (keys x.2) ∧ y.2.(rm_runs) = <[o := Dialling]> x.2.(rm_runs) ∧
  (∀ i, is_cancelled i y.1 = is_cancelled i x.1) ∧ keys x.2 !! o = None.
Proof.
  intros Hd Hwf Ho. unfold ClientRelay.handleRelaySignal. rewrite Hd. cbn zeta. cbn [WithCancel fst snd].
  assert (Hn : keys x.2 !! o = None) by (unfold keys; by rewrite lookup_fmap, Ho).
  set (sess := mkRelaySess _ _ _ _ _ _ _ _ _ _ _ _ _).
  assert (Hk : keys (rm_set_sessions <[sig.(sg_SessionID) := o]> (rm_put o sess Dialling x.2)) =
               <[o := (sig.(sg_SessionID), x.1.(cx_next))]> (keys x.2)) by (unfold keys; cbn; by rewrite fmap_insert).
  split_and!; [|done|exact Hk|done|done|exact Hn]. destruct Hwf as [H1 H2 H3 H4 H5 H6].
  split; cbn [fst snd cx_next cx_cancelled]; rewrite ?Hk.
  - intros o' id i [[<- [= <- <-]]|[Hne Hl]]%lookup_insert_Some; [lia|]. specialize (H1 _ _ _ Hl). lia.
  - intros i Hi%H2. lia.
  - intros o1 o2 id1 id2 i [[<- [= <- <-]]|[Hne Hl]]%lookup_insert_Some [[<- [= <-]]|[Hne' Hl']]%lookup_insert_Some.
    + done.
    + specialize (H1 _ _ _ Hl'). lia.
    + specialize (H1 _ _ _ Hl). lia.
    + by eapply H3.
  - intros o' s'. cbn. intros [[<- <-]|[Hne Hl]]%lookup_insert_Some; [done|]. by apply H4 with (o := o').
  - intros o'. cbn. intros [r [[<- _]|[Hne Hl]]%lookup_insert_Some]; [rewrite lookup_insert_eq; by eexists|].
    rewrite lookup_insert_ne by done. apply H5. by exists r.
  - intros id o'. cbn. intros [[<- <-]|[Hne Hl]]%lookup_insert_Some; [rewrite lookup_insert_eq; by eexists|].
    destruct (decide (o' = o)) as [->|Hno].
    + destruct (H6 _ _ Hl) as [i Hi]. congruence.
    + rewrite lookup_insert_ne by done. by apply H6.
Qed.

(** The end of a goroutine takes the session of its id out of the map, which
    may be another one. *)
Lemma run_end_spec o x id i :
  ctx_wf x → keys x.2 !! o = Some (id, i) →
  let y := run_end o x in
  ctx_wf y ∧ y.2.(rm_sessions) = delete id x.2.(rm_sessions) ∧ keys y.2 = keys x.2 ∧
  y.2.(rm_runs) = <[o := Ended]> x.2.(rm_runs) ∧
  ∀ j, is_cancelled j y.1 = true ↔
    (∃ o', x.2.(rm_sessions) !! id = Some o' ∧ keys x.2 !! o' = Some (id, j)) ∨ is_cancelled j x.1 = true.
Proof.
  intros Hwf Hk. destruct (obj_keys _ _ _ _ Hk) as (s & Ho & <- & <-). unfold ClientRelay.run_end, cleanupSession.
  rewrite Ho. cbv zeta. destruct (take_session_spec true s.(re_id) x Hwf) as (H1 & H2 & H3 & H4 & H5).
  split_and!; [|exact H2|exact H3|cbn; by rewrite H4|exact H5].
  destruct H1 as [C1 C2 C3 C4 C5 C6]. split; try done. intros o' [r Hr].
  change (is_Some (keys (take_session true (re_id s) x).2 !! o')). cbn in Hr.
  apply lookup_insert_Some in Hr as [[<- _]|[_ Hr]]; [rewrite H3, Hk; by eexists|]. apply C5. by exists r.
Qed.

(** The other steps of a goroutine only move it on, or end it after a
    message. *)
Lemma moved_on o x y id i r :
  ctx_wf x → keys x.2 !! o = Some (id, i) → y.1 = x.1 → keys y.2 = keys x.2 → y.2.(rm_sessions) = x.2.(rm_sessions) →
  y.2.(rm_runs) = <[o := r]> x.2.(rm_runs) →
  (∀ o' s', y.2.(rm_objs) !! o' = Some s' → ∃ s, x.2.(rm_objs) !! o' = Some s ∧ s.(re_closed) = s'.(re_closed)) →
  ctx_wf y.
Proof.
  intros [H1 H2 H3 H4 H5 H6] Hk E1 E2 E3 E4 Hc. split; rewrite ?E1, ?E2, ?E3; try done.
  - intros o' s' Ho' Hcl. destruct (Hc _ _ Ho') as (s & Ho & Heq). rewrite <-Heq in Hcl.
    pose proof (keys_obj _ _ _ Ho) as K1. pose proof (keys_obj _ _ _ Ho') as K2. rewrite E2, K1 in K2.
    injection K2 as _ <-. by eapply H4.
  - intros o' [r' Hr]. rewrite E4 in Hr. apply lookup_insert_Some in Hr as [[<- _]|[_ Hr]]; [by eexists|].
    apply H5. by exists r'.
Qed.

Lemma send_wf msg x : ctx_wf x → ctx_wf (x.1, rm_send msg x.2).
Proof. intros [H1 H2 H3 H4 H5 H6]. by split. Qed.

(** A step of the goroutine of [o]: it goes on, or it ends. *)
Definition goes_on (o : nat) (x y : relay_ctx) : Prop :=
  y.1 = x.1 ∧ y.2.(rm_sessions) = x.2.(rm_sessions) ∧ ∃ r, r ≠ Ended ∧ y.2.(rm_runs) = <[o := r]> x.2.(rm_runs).
Definition ends (o : nat) (id : string) (x y : relay_ctx) : Prop :=
  y.2.(rm_sessions) = delete id x.2.(rm_sessions) ∧ y.2.(rm_runs) = <[o := Ended]> x.2.(rm_runs) ∧
  ∀ j, is_cancelled j y.1 = true ↔
    (∃ o', x.2.(rm_sessions) !! id = Some o' ∧ keys x.2 !! o' = Some (id, j)) ∨ is_cancelled j x.1 = true.

Lemma run_ends o x id i :
  ctx_wf x → keys x.2 !! o = Some (id, i) →
  ctx_wf (run_end o x) ∧ keys (run_end o x).2 = keys x.2 ∧ ends o id x (run_end o x).
Proof. intros Hwf Hk. destruct (run_end_spec o x id i Hwf Hk) as (H1 & H2 & H3 & H4 & H5). by split_and!. Qed.

Lemma conns_goes_on o x s r mx ln rm' :
  ctx_wf x → x.2.(rm_objs) !! o = Some s → r ≠ Ended →
  rm'.(rm_sessions) = x.2.(rm_sessions) → rm'.(rm_objs) = alter (re_with_conns mx ln) o x.2.(rm_objs) →
  rm'.(rm_runs) = <[o := r]> x.2.(rm_runs) →
  ctx_wf (x.1, rm') ∧ keys rm' = keys x.2 ∧ goes_on o x (x.1, rm').
Proof.
  intros Hwf Ho Hr E1 E2 E3.
  assert (Hk : keys rm' = keys x.2).
  { rewrite <-(keys_alter o (re_with_conns mx ln) x.2) by done. unfold keys. by rewrite E2. }
  split_and!; [|exact Hk|split_and!; [done|done|by exists r]].
  eapply (moved_on o x); [exact Hwf|by eapply keys_obj|done|exact Hk|exact E1|exact E3|].
  cbn. rewrite E2. intros o' s'. destruct (decide (o' = o)) as [->|Hne].
  - rewrite lookup_alter_eq, Ho. intros [= <-]. by exists s.
  - rewrite lookup_alter_ne by done. intros Hl. by exists s'.
Qed.

Lemma run_dial_spec o r x id i :
  ctx_wf x → keys x.2 !! o = Some (id, i) →
  let y := run_dial o r x in ctx_wf y ∧ keys y.2 = keys x.2 ∧ (goes_on o x y ∨ ends o id x y).
Proof.
  intros Hwf Hk. pose proof (obj_keys _ _ _ _ Hk) as (s & Ho & Hid & _). unfold ClientRelay.run_dial. rewrite Ho.
  cbv zeta. destruct r as [u|e].
  - case_decide.
    + destruct (conns_goes_on o x s Binding true false (rm_run o Binding (rm_alter o (re_with_conns true false) x.2)))
        as (H1 & H2 & H3); try done. split_and!; [done..|by left].
    + destruct (conns_goes_on o x s Serving true false (rm_run o Serving (sendEstablished print_json s.(re_id) true ""
        (rm_alter o (re_with_conns true false) x.2)))) as (H1 & H2 & H3); try done. split_and!; [done..|by left].
  - destruct (run_ends o (x.1, sendEstablished print_json s.(re_id) false e x.2) id i) as (H1 & H2 & H3);
      [by apply send_wf|done|]. split_and!; [exact H1|exact H2|by right].
Qed.

Lemma run_listen_spec o r x id i :
  ctx_wf x → keys x.2 !! o = Some (id, i) →
  let y := run_listen o r x in ctx_wf y ∧ keys y.2 = keys x.2 ∧ (goes_on o x y ∨ ends o id x y).
Proof.
  intros Hwf Hk. pose proof (obj_keys _ _ _ _ Hk) as (s & Ho & Hid & _). unfold ClientRelay.run_listen. rewrite Ho.
  cbv zeta. destruct r as [u|e].
  - destruct (conns_goes_on o x s Serving true true (rm_run o Serving (sendEstablished print_json s.(re_id) true ""
        (rm_alter o (re_with_conns true true) x.2)))) as (H1 & H2 & H3); try done. split_and!; [done..|by left].
  - destruct (run_ends o (x.1, sendEstablished print_json s.(re_id) false e x.2) id i) as (H1 & H2 & H3);
      [by apply send_wf|done|]. split_and!; [exact H1|exact H2|by right].
Qed.

(** ** Sessions with ids of their own *)

(** No goroutine that still runs has the id of the signal. *)
Definition fresh (x : relay_ctx) (data : any) : Prop :=
  ∀ sig o i, unmarshalData parse_json read_RelaySignalData data = Ok sig → live x.2 o →
    keys x.2 !! o ≠ Some (sig.(sg_SessionID), i).

Record relay_inv (x : relay_ctx) : Prop := mkRelayInv {
  ri_wf : ctx_wf x;
  ri_filed id o : x.2.(rm_sessions) !! id = Some o → live x.2 o;
  ri_live o id i : live x.2 o → keys x.2 !! o = Some (id, i) →
    x.2.(rm_sessions) !! id = Some o ∨ is_cancelled i x.1 = true;
  ri_one o o' id i i' : live x.2 o → live x.2 o' → keys x.2 !! o = Some (id, i) → keys x.2 !! o' = Some (id, i') → o = o';
}.

Lemma live_insert rm runs o r o' :
  rm.(rm_runs) = <[o := r]> runs → live rm o' ↔ if decide (o' = o) then r ≠ Ended else ∃ r', runs !! o' = Some r' ∧ r' ≠ Ended.
Proof.
  intros E. unfold live. rewrite E. case_decide as Hd.
  - subst. rewrite lookup_insert_eq. split; [by intros (r' & [= ->] & ?)|]. intros ?. by exists r.
  - by rewrite lookup_insert_ne by done.
Qed.

Lemma goes_on_inv o x y :
  relay_inv x → live x.2 o → ctx_wf y → keys y.2 = keys x.2 → goes_on o x y → relay_inv y.
Proof.
  intros [H1 H2 H3 H4] Hl Hwf Hk (E1 & E2 & r & Hr & E3).
  assert (Hlive : ∀ o', live y.2 o' ↔ live x.2 o').
  { intros o'. rewrite (live_insert y.2 _ _ _ _ E3). case_decide; [by subst|done]. }
  split; [done|..]; rewrite ?Hk, ?E1, ?E2; setoid_rewrite Hlive; done.
Qed.

Lemma ends_inv o id i x y :
  relay_inv x → live x.2 o → keys x.2 !! o = Some (id, i) → ctx_wf y → keys y.2 = keys x.2 → ends o id x y → relay_inv y.
Proof.
  intros [H1 H2 H3 H4] Hl Ho Hwf Hk (E1 & E2 & E3).
  assert (Hlive : ∀ o', live y.2 o' ↔ o' ≠ o ∧ live x.2 o').
  { intros o'. rewrite (live_insert y.2 _ _ _ _ E2). case_decide as Hd; [|by split; [|intros []]].
    split; [intros Hn; by destruct Hn|intros [? _]; done]. }
  split; [done|..]; rewrite ?Hk.
  - intros id' o'. rewrite E1, Hlive. intros [Hne Hs]%lookup_delete_Some. split; [|by eapply H2].
    intros ->. destruct (cw_filed _ H1 _ _ Hs) as [i' Hi']. congruence.
  - intros o' id' i'. rewrite Hlive, E1, E3. intros [Hne Hl'] Ho'.
    destruct (decide (id' = id)) as [->|Hid]; [by destruct Hne; eapply H4|].
    rewrite lookup_delete_ne by done. destruct (H3 _ _ _ Hl' Ho') as [?|?]; [by left|by right; right].
  - intros o1 o2 id' i1 i2. rewrite !Hlive. intros [_ L1] [_ L2]. by apply H4.
Qed.

Lemma signal_inv o data x :
  relay_inv x → x.2.(rm_objs) !! o = None → fresh x data → relay_inv (handleRelaySignal o data x).
Proof.
  intros [H1 H2 H3 H4] Ho Hf. destruct (unmarshalData parse_json read_RelaySignalData data) as [sig|e] eqn:Hd;
    [|unfold ClientRelay.handleRelaySignal; by rewrite Hd].
  destruct (signal_spec o data x sig Hd H1 Ho) as (Hwf & E1 & E2 & E3 & E4 & Hn). set (y := handleRelaySignal o data x) in *.
  assert (Hlive : ∀ o', live y.2 o' ↔ o' = o ∨ (o' ≠ o ∧ live x.2 o')).
  { intros o'. rewrite (live_insert y.2 _ _ _ _ E3). case_decide as Hd'.
    - split; [by left|done].
    - split; [by right|]. by intros [?|[_ ?]]. }
  assert (Hother : ∀ o' id' i', o' ≠ o → keys y.2 !! o' = Some (id', i') → keys x.2 !! o' = Some (id', i')).
  { intros o' id' i' Hne. rewrite E2. by rewrite lookup_insert_ne. }
  assert (Hself : ∀ id' i', keys y.2 !! o = Some (id', i') → id' = sig.(sg_SessionID)).
  { intros id' i'. rewrite E2, lookup_insert_eq. by intros [= <-]. }
  split; [exact Hwf|..].
  - intros id o'. rewrite E1, Hlive. intros [[<- <-]|[Hne Hl]]%lookup_insert_Some; [by left|].
    destruct (decide (o' = o)); [by left|right; split; [done|by eapply H2]].
  - intros o' id' i'. rewrite Hlive, E1, E4. intros [->|[Hne Hl]] Hk.
    + apply Hself in Hk as ->. left. apply lookup_insert_eq.
    + apply Hother in Hk; [|done]. rewrite lookup_insert_ne; [by apply H3|]. intros <-. by destruct (Hf _ _ i' Hd Hl).
  - intros o1 o2 id' i1 i2. rewrite !Hlive. intros [->|[N1 L1]] [->|[N2 L2]] K1 K2.
    + done.
    + apply Hself in K1 as ->. apply Hother in K2; [|done]. by destruct (Hf _ _ i2 Hd L2).
    + apply Hself in K2 as ->. apply Hother in K1; [|done]. by destruct (Hf _ _ i1 Hd L1).
    + apply Hother in K1, K2; [|done..]. by eapply H4.
Qed.

Lemma take_session_inv conns id x : relay_inv x → relay_inv (take_session conns id x).
Proof.
  intros [H1 H2 H3 H4]. destruct (take_session_spec conns id x H1) as (Hwf & E1 & E2 & E3 & E4).
  assert (Hlive : ∀ o', live (take_session conns id x).2 o' ↔ live x.2 o') by (intros o'; unfold live; by rewrite E3).
  split; [exact Hwf|..]; rewrite ?E1, ?E2; setoid_rewrite Hlive.
  - intros id' o' [_ ?]%lookup_delete_Some. by eapply H2.
  - intros o' id' i' Hl Hk. rewrite E4. destruct (H3 _ _ _ Hl Hk) as [Hs|?]; [|by right; right].
    destruct (decide (id' = id)) as [->|Hne]; [right; left; by exists o'|left; by rewrite lookup_delete_ne].
  - exact H4.
Qed.

Lemma live_keys x o : ctx_wf x → live x.2 o → ∃ id i, keys x.2 !! o = Some (id, i).
Proof. intros Hwf (r & Hr & _). destruct (cw_runs _ Hwf o) as [[id i] Hi]; [by exists r|]. by exists id, i. Qed.

Lemma relay_inv_step x y : relay_inv x → relay_step fresh x y → relay_inv y.
Proof.
  intros Hi Hs. pose proof (ri_wf _ Hi) as Hwf. destruct Hs as [o data Ho Hf|data| |o r Hr|o r Hr|o Hr].
  - by apply signal_inv.
  - unfold ClientRelay.handleRelayClosed. case_match; [by apply take_session_inv|done].
  - destruct (stop_spec x Hwf) as (H1 & H2 & H3 & H4 & H5). destruct Hi as [_ _ _ G4].
    split; [exact H1|..]; rewrite ?H2, ?H3.
    + intros id o. by rewrite lookup_empty.
    + intros o id i _ _. by right.
    + unfold live. rewrite H4. exact G4.
  - assert (Hl : live x.2 o) by (by exists Dialling). destruct (live_keys _ _ Hwf Hl) as (id & i & Hk).
    destruct (run_dial_spec o r x id i Hwf Hk) as (H1 & H2 & [H3|H3]); [by eapply goes_on_inv|by eapply ends_inv].
  - assert (Hl : live x.2 o) by (by exists Binding). destruct (live_keys _ _ Hwf Hl) as (id & i & Hk).
    destruct (run_listen_spec o r x id i Hwf Hk) as (H1 & H2 & [H3|H3]); [by eapply goes_on_inv|by eapply ends_inv].
  - assert (Hl : live x.2 o) by (by exists Serving). destruct (live_keys _ _ Hwf Hl) as (id & i & Hk).
    destruct (run_ends o x id i Hwf Hk) as (H1 & H2 & H3). by eapply ends_inv.
Qed.

Definition relay_reachable (allowed : relay_ctx → any → Prop) : relay_ctx → Prop :=
  rtc (relay_step allowed) (NewContexts, newRelayManager).

Lemma relay_start_wf : ctx_wf (NewContexts, newRelayManager).
Proof.
  split; cbn; unfold keys; cbn; intros *; rewrite ?fmap_empty, ?lookup_empty; try done.
Qed.

Lemma sessions_reachable_inv x : relay_reachable fresh x → relay_inv x.
Proof.
  intros Hr. assert (Hn : relay_inv (NewContexts, newRelayManager)).
  { split; [apply relay_start_wf|..]; unfold live, keys; cbn; intros *; rewrite ?fmap_empty, ?lookup_empty; [done|..];
      by intros (? & [=] & _). }
  unfold relay_reachable in Hr. revert Hn. induction Hr as [x|x y z Hs _ IH]; [done|]. intros Hn. by eapply IH, relay_inv_step.
Qed.

Lemma ctx_wf_step allowed x y : ctx_wf x → relay_step allowed x y → ctx_wf y.
Proof.
  intros Hwf Hs. destruct Hs as [o data Ho Hf|data| |o r Hr|o r Hr|o Hr].
  - destruct (unmarshalData parse_json read_RelaySignalData data) as [sig|e] eqn:Hd;
      [by eapply signal_spec|unfold ClientRelay.handleRelaySignal; by rewrite Hd].
  - unfold ClientRelay.handleRelayClosed. case_match; [by apply take_session_spec|done].
  - by apply stop_spec.
  - destruct (cw_runs _ Hwf o) as [[id i] Hk]; [by exists Dialling|]. by eapply run_dial_spec.
  - destruct (cw_runs _ Hwf o) as [[id i] Hk]; [by exists Binding|]. by eapply run_listen_spec.
  - destruct (cw_runs _ Hwf o) as [[id i] Hk]; [by exists Serving|]. by eapply run_ends.
Qed.

Lemma relay_reachable_wf allowed x : relay_reachable allowed x → ctx_wf x.
Proof.
  intros Hr. pose proof relay_start_wf as Hn. unfold relay_reachable in Hr. revert Hn.
  induction Hr as [x|x y z Hs _ IH]; [done|]. intros Hn. by eapply IH, ctx_wf_step.
Qed.

(** ** Properties *)

(** As long as no signal names the id of a relay that still runs, the map
    holds exactly one session for each id in use: a filed session runs, a
    running one is filed or its context is cancelled, no two that run share
    an id, and when the server closes a relay whatever still runs under its
    id is cancelled. *)
Theorem relay_sessions_follow (x : relay_ctx) :
  relay_reachable fresh x →
  (∀ id o, x.2.(rm_sessions) !! id = Some o → live x.2 o) ∧
  (∀ o id i, live x.2 o → keys x.2 !! o = Some (id, i) →
     x.2.(rm_sessions) !! id = Some o ∨ is_cancelled i x.1 = true) ∧
  (∀ o o' id i i', live x.2 o → live x.2 o' → keys x.2 !! o = Some (id, i) → keys x.2 !! o' = Some (id, i') → o = o') ∧
  (∀ data status, unmarshalData parse_json read_RelayStatusData data = Ok status →
     let y := handleRelayClosed data x in
     y.2.(rm_sessions) !! status.(st_SessionID) = None ∧
     ∀ o i, live y.2 o → keys y.2 !! o = Some (status.(st_SessionID), i) → is_cancelled i y.1 = true).
Proof.
  intros Hi%sessions_reachable_inv. split_and!; [apply Hi..|]. intros data status Hd.
  assert (Hy : relay_inv (handleRelayClosed data x)).
  { unfold ClientRelay.handleRelayClosed. rewrite Hd. by apply take_session_inv. }
  assert (Hn : (handleRelayClosed data x).2.(rm_sessions) !! status.(st_SessionID) = None).
  { unfold ClientRelay.handleRelayClosed. rewrite Hd.
    destruct (take_session_spec false status.(st_SessionID) x (ri_wf _ Hi)) as (_ & -> & _). apply lookup_delete_eq. }
  cbv zeta. split; [exact Hn|]. intros o i Hl Hk. destruct (ri_live _ Hy _ _ _ Hl Hk) as [Hs|?]; [congruence|done].
Qed.

(** A second signal for a relay that runs replaces its session in the map
    and leaves its goroutine alone.  Then closing the relay cancels the new
    session only, and the first runs on, out of reach; and when the first
    goroutine ends by itself, it takes the new session down with it. *)
Theorem relay_signal_twice (allowed : relay_ctx → any → Prop) (x : relay_ctx) (o o' i : nat) (data closed : any)
    (sig : RelaySignalData) (status : RelayStatusData) :
  relay_reachable allowed x →
  x.2.(rm_sessions) !! sig.(sg_SessionID) = Some o → keys x.2 !! o = Some (sig.(sg_SessionID), i) →
  is_cancelled i x.1 = false → x.2.(rm_objs) !! o' = None →
  unmarshalData parse_json read_RelaySignalData data = Ok sig →
  unmarshalData parse_json read_RelayStatusData closed = Ok status → status.(st_SessionID) = sig.(sg_SessionID) →
  let y := handleRelaySignal o' data x in
  ∃ i', keys y.2 !! o' = Some (sig.(sg_SessionID), i') ∧ is_cancelled i' y.1 = false ∧
    (let z := handleRelayClosed closed y in
     is_cancelled i' z.1 = true ∧ is_cancelled i z.1 = false ∧ z.2.(rm_sessions) !! sig.(sg_SessionID) = None) ∧
    is_cancelled i' (run_end o y).1 = true.
Proof.
  intros Hwf%relay_reachable_wf Hs Hk Hi Ho' Hd Hc Hid y.
  destruct (signal_spec o' data x sig Hd Hwf Ho') as (Hy & E1 & E2 & E3 & E4 & Hn). fold y in Hy, E1, E2, E3, E4.
  assert (Hoo : o ≠ o') by congruence. pose proof (cw_next _ Hwf _ _ _ Hk) as Hlt.
  assert (Hky : keys y.2 !! o = Some (sig.(sg_SessionID), i)) by (rewrite E2; by rewrite lookup_insert_ne).
  assert (Hsy : y.2.(rm_sessions) !! sig.(sg_SessionID) = Some o') by (rewrite E1; apply lookup_insert_eq).
  assert (Hk' : keys y.2 !! o' = Some (sig.(sg_SessionID), x.1.(cx_next))) by (rewrite E2; apply lookup_insert_eq).
  exists x.1.(cx_next). split_and!; [exact Hk'|..].
  - rewrite E4. apply not_true_is_false. rewrite is_cancelled_true. intros [Hb|Hm%(cw_cancelled _ Hwf)]; [|lia].
    apply not_true_iff_false in Hi. apply Hi, is_cancelled_true. by left.
  - cbv zeta. unfold ClientRelay.handleRelayClosed. rewrite Hc, Hid.
    destruct (take_session_spec false sig.(sg_SessionID) y Hy) as (_ & F1 & _ & _ & F4). split_and!.
    + apply F4. left. by exists o'.
    + apply not_true_is_false. rewrite F4. intros [(o2 & H1 & H2)|H]; [|rewrite E4 in H; congruence].
      rewrite Hsy in H1. injection H1 as <-. rewrite Hk' in H2. injection H2 as H2. lia.
    + rewrite F1. apply lookup_delete_eq.
  - destruct (run_end_spec o y _ _ Hy Hky) as (_ & _ & _ & _ & F). apply F. left. by exists o'.
Qed.
End steps.

(** ** Witnesses *)

Definition no_json (s : string) : Res any := Err "no text".
Definition signal_message (role : string) (publicIP : string) (r : RelaySession) : any :=
  wire_data (λ _, "") (ws_Data (relay_signal "relay_signal" role "peer" publicIP r)).
Definition closed_message (id : string) : any := json_RelayStatusData (mkRelayStatusData id "closed" "").
Definition example_relay : RelaySession :=
  mkRelaySession "r1" "a" "b" "tcp" 9000 22 "127.0.0.1" "0.0.0.0" "t" 0 "" "".

(** The target has connected. *)
Definition one_relay : relay_ctx :=
  run_dial (λ _, "") 0 (Ok tt)
    (handleRelaySignal no_json 0 (signal_message "target" "1.2.3.4" example_relay) (NewContexts, newRelayManager)).

Lemma one_relay_reachable : relay_reachable no_json (λ _, "") (fresh no_json) one_relay.
Proof.
  unfold relay_reachable. eapply rtc_l; [apply RSignal; [reflexivity|]|apply rtc_once, RDial; vm_compute; reflexivity].
  intros sig o i _ (r & Hr & _). cbn in Hr. by rewrite lookup_empty in Hr.
Qed.

Lemma relay_sessions_follow_witness :
  one_relay.2.(rm_sessions) !! "r1" = Some 0 ∧ live one_relay.2 0 ∧
  (handleRelayClosed no_json (closed_message "r1") one_relay).2.(rm_sessions) !! "r1" = None.
Proof.
  assert (Hs : one_relay.2.(rm_sessions) !! "r1" = Some 0) by (vm_compute; reflexivity).
  destruct (relay_sessions_follow no_json (λ _, "") one_relay one_relay_reachable) as (H1 & _ & _ & H4).
  split_and!; [exact Hs|by eapply H1|].
  exact (proj1 (H4 (closed_message "r1") (mkRelayStatusData "r1" "closed" "") ltac:(vm_compute; reflexivity))).
Defined.

Lemma relay_signal_twice_witness :
  let y := handleRelaySignal no_json 1 (signal_message "target" "1.2.3.4" example_relay) one_relay in
  ∃ i', keys y.2 !! 1 = Some ("r1", i') ∧ is_cancelled i' (run_end (λ _, "") 0 y).1 = true.
Proof.
  destruct (relay_signal_twice no_json (λ _, "") (fresh no_json) one_relay 0 1 0
    (signal_message "target" "1.2.3.4" example_relay) (closed_message "r1")
    (signal_data "target" "peer" "1.2.3.4" example_relay) (mkRelayStatusData "r1" "closed" "") one_relay_reachable)
    as (i' & H1 & _ & _ & H2); [vm_compute; reflexivity..|]. exists i'. split; [exact H1|exact H2].
Defined.
