(* ===== verification/Client.v ===== *)
(** * The client's messages and tunnels (BBgrid_Client/handler/{handler,temp}.go)

    What the client does with the messages of the server: it remembers
    proxies, opens a tunnel when the server asks for one, and keeps a context
    to cancel the tunnels of a proxy.  A message is handled in one step, as
    the reading goroutine handles one at a time; the goroutines it starts are
    entries of [hd_tasks], which end in steps of their own.  Relays are in
    ClientRelay, updates in Update.  [TempHandler] is the handler of a
    temporary client. *)

From S2P Require Import Prelude Types Proto Message Wire Update ClientRelay.

(** [net.JoinHostPort] *)
Definition JoinHostPort (host : string) (port : Z) : string :=
  if no_char ":" host then host +:+ ":" +:+ pretty port else "[" +:+ host +:+ "]:" +:+ pretty port.

(** ** One tunnel *)

(** What the network does: dialling the server, writing to it, what it sends,
    dialling the local service. *)
Record dial_env := mkDialEnv { de_dial : bool; de_write : bool; de_reply : bytes; de_local : bool }.

(** What is written to the tunnel, and whether the two connections are
    piped. *)
Definition connectAndPipe (env : dial_env) (token : string) : bytes * bool :=
  if negb env.(de_dial) then ([], false)
  else match WriteTunnelAuth token with
  | Err _ => ([], false)
  | Ok frame =>
      if negb env.(de_write) then ([], false)
      else match ReadFull 1 env.(de_reply) with
      | (Ok ack, _) => (frame, bool_decide (ack = ["001"%char]) && env.(de_local))
      | (Err _, _) => (frame, false)
      end
  end.

(** ** The handler *)

(** A goroutine with the context it watches.  The first three call
    [stopTunnel] with their key when they end. *)
Inductive Task :=
| TunnelWS (key : string) (ctx : nat) (serverHost token localTarget : string)
| TunnelUDP (key : string) (ctx : nat) (serverHost : string) (remotePort : Z) (token : string) (localPort : Z) (localIP : string)
| Outbound (key : string) (ctx : nat) (tunnelAddr localAddr token : string)
| Connect (key : string) (ctx : option nat) (tunnelAddr localAddr token : string).

Record Handler := mkHandler {
  hd_ClientID : string;
  hd_ctx : Contexts;
  tunnelCtxs : gmap string nat;
  proxyInfo : gmap string CommandData;
  tunnelContexts : gmap string nat;
  hd_tasks : gmap nat Task;
  hd_sent : list (string * any);
  hd_update : UpdateState;
  hd_files : gmap string bytes;
  hd_exited : bool;
  hd_relay : relayManager;
}.
Definition New (clientID : string) (fs : gmap string bytes) : Handler :=
  mkHandler clientID NewContexts ∅ ∅ ∅ ∅ [] NoUpdate fs false newRelayManager.

Definition set_proxies (ctxs : gmap string nat) (info : gmap string CommandData) (contexts : gmap string nat) (h : Handler) : Handler :=
  mkHandler h.(hd_ClientID) h.(hd_ctx) ctxs info contexts h.(hd_tasks) h.(hd_sent) h.(hd_update) h.(hd_files)
    h.(hd_exited) h.(hd_relay).
Definition set_ctx (c : Contexts) (h : Handler) : Handler :=
  mkHandler h.(hd_ClientID) c h.(tunnelCtxs) h.(proxyInfo) h.(tunnelContexts) h.(hd_tasks) h.(hd_sent) h.(hd_update)
    h.(hd_files) h.(hd_exited) h.(hd_relay).
Definition set_tasks (f : gmap nat Task → gmap nat Task) (h : Handler) : Handler :=
  mkHandler h.(hd_ClientID) h.(hd_ctx) h.(tunnelCtxs) h.(proxyInfo) h.(tunnelContexts) (f h.(hd_tasks)) h.(hd_sent)
    h.(hd_update) h.(hd_files) h.(hd_exited) h.(hd_relay).
Definition send (msgType : string) (data : any) (h : Handler) : Handler :=
  mkHandler h.(hd_ClientID) h.(hd_ctx) h.(tunnelCtxs) h.(proxyInfo) h.(tunnelContexts) h.(hd_tasks)
    (h.(hd_sent) ++ [(msgType, data)]) h.(hd_update) h.(hd_files) h.(hd_exited) h.(hd_relay).
Definition set_update (u : UpdateState) (fs : gmap string bytes) (exited : bool) (h : Handler) : Handler :=
  mkHandler h.(hd_ClientID) h.(hd_ctx) h.(tunnelCtxs) h.(proxyInfo) h.(tunnelContexts) h.(hd_tasks) h.(hd_sent)
    u fs exited h.(hd_relay).
Definition set_relay (x : relay_ctx) (h : Handler) : Handler :=
  mkHandler h.(hd_ClientID) x.1 h.(tunnelCtxs) h.(proxyInfo) h.(tunnelContexts) h.(hd_tasks) h.(hd_sent)
    h.(hd_update) h.(hd_files) h.(hd_exited) x.2.

Definition registerTunnel (key : string) (ctx : nat) (h : Handler) : Handler :=
  set_proxies (<[key := ctx]> h.(tunnelCtxs)) h.(proxyInfo) h.(tunnelContexts) h.
Definition stopTunnel (key : string) (h : Handler) : Handler :=
  match h.(tunnelCtxs) !! key with
  | Some ctx => set_ctx (cancel ctx h.(hd_ctx)) (set_proxies (delete key h.(tunnelCtxs)) h.(proxyInfo) h.(tunnelContexts) h)
  | None => h
  end.

(** [context.WithCancel] and [registerTunnel]. *)
Definition openTunnel (key : string) (h : Handler) : nat * Handler :=
  let '(ctx, c) := WithCancel h.(hd_ctx) in (ctx, registerTunnel key ctx (set_ctx c h)).

Section handler.
Context (parse_json : string → Res any) (base64_decode : string → Res bytes) (md5_hex : bytes → string).

Definition with_local_ip (cmd : CommandData) : CommandData :=
  mkCommandData cmd.(cm_RequestID) cmd.(cm_RemotePort) cmd.(cm_LocalPort) cmd.(cm_Protocol) cmd.(cm_BindAddr)
    cmd.(cm_Command) cmd.(cm_ServerHost) cmd.(cm_TunnelPort) cmd.(cm_Token)
    (if decide (cmd.(cm_LocalIP) = "") then "127.0.0.1" else cmd.(cm_LocalIP)).

Definition proxy_key (h : Handler) (remotePort : Z) : string := h.(hd_ClientID) +:+ "-" +:+ pretty remotePort.

(** [t] is the number of the goroutine it may start. *)
Definition handleProxy (t : nat) (data : any) (h : Handler) : Handler :=
  match unmarshalData parse_json read_CommandData data with
  | Err _ => h
  | Ok cmd0 =>
      let cmd := with_local_ip cmd0 in
      let key := proxy_key h cmd.(cm_RemotePort) in
      let '(ctx, h1) := openTunnel key h in
      if decide (cmd.(cm_Protocol) = "websocket") then
        set_tasks <[t := TunnelWS key ctx cmd.(cm_ServerHost) cmd.(cm_Token)
                           (JoinHostPort cmd.(cm_LocalIP) cmd.(cm_LocalPort))]> h1
      else if decide (cmd.(cm_Protocol) = "udp") then
        set_tasks <[t := TunnelUDP key ctx cmd.(cm_ServerHost) cmd.(cm_RemotePort) cmd.(cm_Token) cmd.(cm_LocalPort)
                           cmd.(cm_LocalIP)]> h1
      else set_proxies h1.(tunnelCtxs) (<[key := cmd]> h1.(proxyInfo)) (<[key := ctx]> h1.(tunnelContexts)) h1
  end.

Definition handleProxyClosed (data : any) (h : Handler) : Handler :=
  match unmarshalData parse_json read_ProxyClosedData data with
  | Err _ => h
  | Ok closed =>
      let h1 := stopTunnel closed.(pc_Key) h in
      send "proxy_close_ack" (AString closed.(pc_Key))
        (set_proxies h1.(tunnelCtxs) (delete closed.(pc_Key) h1.(proxyInfo)) (delete closed.(pc_Key) h1.(tunnelContexts)) h1)
  end.

Definition outbound_key (localPort : Z) : string := "outbound-" +:+ pretty localPort.

Definition handleProxyOutbound (t : nat) (data : any) (h : Handler) : Handler :=
  match unmarshalData parse_json read_ProxyOutboundData data with
  | Err _ => h
  | Ok cmd =>
      let key := outbound_key cmd.(po_LocalPort) in
      let '(ctx, h1) := openTunnel key h in
      set_tasks <[t := Outbound key ctx (JoinHostPort cmd.(po_ServerHost) cmd.(po_TunnelPort))
                         (JoinHostPort "127.0.0.1" cmd.(po_LocalPort)) cmd.(po_Token)]> h1
  end.

(** Without a context of its own the tunnel gets [context.Background]. *)
Definition handleTunnelRequest (t : nat) (data : any) (h : Handler) : Handler :=
  match unmarshalData parse_json read_TunnelRequestData data with
  | Err _ => h
  | Ok req =>
      match h.(proxyInfo) !! req.(tr_Key) with
      | None => h
      | Some info =>
          set_tasks <[t := Connect req.(tr_Key) (h.(tunnelContexts) !! req.(tr_Key))
                             (JoinHostPort info.(cm_ServerHost) info.(cm_TunnelPort))
                             (JoinHostPort info.(cm_LocalIP) info.(cm_LocalPort)) req.(tr_Token)]> h
      end
  end.

Definition handlePing (data : any) (h : Handler) : Handler := send "pong" data h.

(** What the handling of one message needs from outside: numbers for a
    goroutine and for a relay session, and the files. *)
Record handle_env := mkHandleEnv { hv_task : nat; hv_relay : nat; hv_update : update_env }.

Definition Handle (env : handle_env) (msgType : string) (data : any) (h : Handler) : Handler :=
  if decide (msgType = "proxy") then handleProxy env.(hv_task) data h
  else if decide (msgType = "proxy_closed") then handleProxyClosed data h
  else if decide (msgType = "proxy_outbound") then handleProxyOutbound env.(hv_task) data h
  else if decide (msgType = "tunnel_request") then handleTunnelRequest env.(hv_task) data h
  else if decide (msgType = "ping") then handlePing data h
  else if decide (msgType = "relay_signal") then
    set_relay (handleRelaySignal parse_json env.(hv_relay) data (h.(hd_ctx), h.(hd_relay))) h
  else if decide (msgType = "relay_closed") then
    set_relay (handleRelayClosed parse_json data (h.(hd_ctx), h.(hd_relay))) h
  else if decide (msgType = "update_start") then
    set_update (handleUpdateStart data h.(hd_update)) h.(hd_files) h.(hd_exited) h
  else if decide (msgType = "update_chunk") then
    set_update (handleUpdateChunk base64_decode data h.(hd_update)) h.(hd_files) h.(hd_exited) h
  else if decide (msgType = "update_end") then
    let '(exits, u, fs) := handleUpdateEnd md5_hex env.(hv_update) h.(hd_update) h.(hd_files) in
    set_update u fs (h.(hd_exited) || exits) h
  else h.

Definition Stop (h : Handler) : Handler := set_relay (stop (baseCancel h.(hd_ctx), h.(hd_relay))) h.

(** The deferred call of a goroutine that ends. *)
Definition task_key (t : Task) : option string :=
  match t with
  | TunnelWS key _ _ _ _ | TunnelUDP key _ _ _ _ _ _ | Outbound key _ _ _ _ => Some key
  | Connect _ _ _ _ _ => None
  end.
Definition task_end (i : nat) (h : Handler) : Handler :=
  match h.(hd_tasks) !! i with
  | None => h
  | Some t =>
      let h1 := set_tasks (delete i) h in
      match task_key t with Some key => stopTunnel key h1 | None => h1 end
  end.

(** ** Steps *)

(** The loops of a WebSocket or UDP tunnel return only when their context is
    cancelled; the others may end at any time. *)
Definition may_end (h : Handler) (t : Task) : Prop :=
  match t with
  | TunnelWS _ ctx _ _ _ | TunnelUDP _ ctx _ _ _ _ _ => is_cancelled ctx h.(hd_ctx) = true
  | _ => True
  end.

Inductive client_step (h : Handler) : Handler → Prop :=
| CHandle env msgType data :
    h.(hd_exited) = false → h.(hd_tasks) !! env.(hv_task) = None → h.(hd_relay).(rm_objs) !! env.(hv_relay) = None →
    client_step h (Handle env msgType data h)
| CTaskEnd i t : h.(hd_tasks) !! i = Some t → may_end h t → client_step h (task_end i h)
| CRelay print_json x :
    relay_step parse_json print_json (λ _ _, False) (h.(hd_ctx), h.(hd_relay)) x → client_step h (set_relay x h)
| CStop : client_step h (Stop h).
End handler.

(** ** A temporary client *)

Record TempHandler := mkTempHandler {
  th_proxyInfo : gmap string CommandData;
  th_udpTunnelKey : string;
  th_tasks : gmap nat (bool * Task);
  th_sent : list (string * any);
}.
Definition NewTempHandler : TempHandler := mkTempHandler ∅ "" ∅ [].
Definition SetUDPTunnelKey (key : string) (h : TempHandler) : TempHandler :=
  mkTempHandler h.(th_proxyInfo) key h.(th_tasks) h.(th_sent).

Section temp.
Context (parse_json : string → Res any).

Definition temp_key (remotePort : Z) : string := "temp-" +:+ pretty remotePort.

Definition temp_handleProxy (data : any) (h : TempHandler) : TempHandler :=
  match unmarshalData parse_json read_CommandData data with
  | Err _ => h
  | Ok cmd0 =>
      let cmd := with_local_ip cmd0 in
      mkTempHandler (<[temp_key cmd.(cm_RemotePort) := cmd]> h.(th_proxyInfo)) h.(th_udpTunnelKey) h.(th_tasks) h.(th_sent)
  end.

Definition temp_handleProxyClosed (data : any) (h : TempHandler) : TempHandler :=
  match unmarshalData parse_json read_ProxyClosedData data with
  | Err _ => h
  | Ok closed =>
      mkTempHandler (delete closed.(pc_Key) h.(th_proxyInfo)) h.(th_udpTunnelKey) h.(th_tasks)
        (h.(th_sent) ++ [("proxy_close_ack", AString closed.(pc_Key))])
  end.

(** The flag of the goroutine says whether it goes over KCP. *)
Definition temp_handleTunnelRequest (t : nat) (data : any) (h : TempHandler) : TempHandler :=
  match unmarshalData parse_json read_TunnelRequestData data with
  | Err _ => h
  | Ok req =>
      match h.(th_proxyInfo) !! req.(tr_Key) with
      | None => h
      | Some info =>
          mkTempHandler h.(th_proxyInfo) h.(th_udpTunnelKey)
            (<[t := (bool_decide (info.(cm_Protocol) = "udp"),
                     Connect req.(tr_Key) None (JoinHostPort info.(cm_ServerHost) info.(cm_TunnelPort))
                       (JoinHostPort info.(cm_LocalIP) info.(cm_LocalPort)) req.(tr_Token))]> h.(th_tasks)) h.(th_sent)
      end
  end.

Definition temp_handlePing (data : any) (h : TempHandler) : TempHandler :=
  mkTempHandler h.(th_proxyInfo) h.(th_udpTunnelKey) h.(th_tasks) (h.(th_sent) ++ [("pong", data)]).

Definition temp_Handle (t : nat) (msgType : string) (data : any) (h : TempHandler) : TempHandler :=
  if decide (msgType = "proxy") then temp_handleProxy data h
  else if decide (msgType = "proxy_closed") then temp_handleProxyClosed data h
  else if decide (msgType = "tunnel_request") then temp_handleTunnelRequest t data h
  else if decide (msgType = "ping") then temp_handlePing data h
  else h.
End temp.
