(* ===== verification/ClientFacts.v ===== *)
(** * Theorems about the client (Client, with Session, Dataplane and Pairing)

    The contexts of the tunnels of a proxy, the way of a connection from the
    server's request to the client's tunnel and back, what UDP proxies and
    temporary clients get of it, and what a ping measures. *)

From S2P Require Import Prelude Types Proto StateStore Disk Message Pairing Dataplane Auth ProxyPlugin Session Wire Update ClientRelay Client.

Abbreviation taskOf h i := (h.(hd_tasks) !! i).

(** ** Contexts only get cancelled *)

Definition later (c c' : Contexts) : Prop :=
  c.(cx_next) <= c'.(cx_next) ∧ ∀ i, is_cancelled i c = true → is_cancelled i c' = true.

#[export] Instance later_preorder : PreOrder later.
Proof. split; [by split|]. intros a b c [H1 H2] [H3 H4]. split; [lia|]. intros i Hi. by apply H4, H2. Qed.

Lemma later_cancel i c : later c (cancel i c).
Proof. split; [done|]. intros j Hj. apply is_cancelled_cancel. by right. Qed.
Lemma later_with c : later c (WithCancel c).2.
Proof. split; [cbn; lia|done]. Qed.
Lemma later_base c : later c (baseCancel c).
Proof. split; [done|]. intros i _. apply is_cancelled_true. by left. Qed.

Lemma later_close conns o x : later x.1 (close_session conns o x).1.
Proof. unfold close_session. destruct (_ !! o) as [s|]; [|done]. destruct (re_closed s); [done|apply later_cancel]. Qed.
Lemma later_take conns id x : later x.1 (take_session conns id x).1.
Proof. unfold take_session. case_match; [|done]. etrans; [|apply later_close]. done. Qed.
Lemma later_stop x : later x.1 (stop x).1.
Proof.
  unfold stop. cbn [fst]. generalize (map_to_list x.2.(rm_sessions)).*2. intros l.
  induction l as [|o l IH]; [done|]. cbn [foldr]. etrans; [exact IH|apply later_close].
Qed.
Lemma later_run_end print_json o x : later x.1 (run_end print_json o x).1.
Proof. unfold run_end. case_match; [|done]. apply later_take. Qed.
Lemma later_signal parse_json o data x : later x.1 (handleRelaySignal parse_json o data x).1.
Proof. unfold handleRelaySignal. case_match; [apply later_with|done]. Qed.
Lemma later_closed parse_json data x : later x.1 (handleRelayClosed parse_json data x).1.
Proof. unfold handleRelayClosed. case_match; [apply later_take|done]. Qed.

Lemma later_relay_step parse_json print_json allowed x y : relay_step parse_json print_json allowed x y → later x.1 y.1.
Proof.
  intros Hs. destruct Hs as [o data Ho Hf|data| |o r Hr|o r Hr|o Hr].
  - apply later_signal.
  - apply later_closed.
  - etrans; [|apply later_stop]. apply later_base.
  - unfold run_dial. case_match; [|done]. case_match; [by case_decide|]. etrans; [|apply later_run_end]. done.
  - unfold run_listen. case_match; [|done]. case_match; [done|]. etrans; [|apply later_run_end]. done.
  - apply later_run_end.
Qed.

(** ** TCP proxies *)

Section tcp.
Context (parse_json : string → Res any) (base64_decode : string → Res bytes) (md5_hex : bytes → string).
Abbreviation Handle := (Handle parse_json base64_decode md5_hex).
Abbreviation client_step := (client_step parse_json base64_decode md5_hex).
Abbreviation handleProxy := (handleProxy parse_json).
Abbreviation handleProxyClosed := (handleProxyClosed parse_json).
Abbreviation handleTunnelRequest := (handleTunnelRequest parse_json).

(** A message that keeps to TCP proxies, each closed before it is announced
    again. *)
Definition tcp_message (h : Handler) (msgType : string) (data : any) : Prop :=
  msgType ≠ "proxy_outbound" ∧
  (msgType = "proxy" → ∀ cmd, unmarshalData parse_json read_CommandData data = Ok cmd →
     cm_Protocol cmd ≠ "websocket" ∧ cm_Protocol cmd ≠ "udp" ∧ h.(tunnelCtxs) !! proxy_key h cmd.(cm_RemotePort) = None).
Inductive tcp_step (h : Handler) : Handler → Prop :=
| TMessage env msgType data : tcp_message h msgType data → tcp_step h (Handle env msgType data h)
| TEnd i t : taskOf h i = Some t → may_end h t → tcp_step h (task_end i h)
| TRelay print_json allowed x :
    relay_step parse_json print_json allowed (h.(hd_ctx), h.(hd_relay)) x → tcp_step h (set_relay x h)
| TStop : tcp_step h (Stop h).

Record tcp_inv (h : Handler) : Prop := mkTcpInv {
  ti_info key : is_Some (h.(proxyInfo) !! key) ↔ is_Some (h.(tunnelCtxs) !! key);
  ti_ctx key : h.(tunnelContexts) !! key = h.(tunnelCtxs) !! key;
  ti_task i t : taskOf h i = Some t → ∃ key ctx tunnelAddr localAddr token, t = Connect key (Some ctx) tunnelAddr localAddr token ∧
    (is_cancelled ctx h.(hd_ctx) = true ∨ h.(tunnelCtxs) !! key = Some ctx);
}.

(** Steps that leave the proxies and the goroutines alone. *)
Lemma tcp_inv_same h h' :
  tcp_inv h → h'.(tunnelCtxs) = h.(tunnelCtxs) → h'.(proxyInfo) = h.(proxyInfo) →
  h'.(tunnelContexts) = h.(tunnelContexts) → h'.(hd_tasks) = h.(hd_tasks) → later h.(hd_ctx) h'.(hd_ctx) → tcp_inv h'.
Proof.
  intros [H1 H2 H3] E1 E2 E3 E4 [_ Hl]. split; rewrite ?E1, ?E2, ?E3, ?E4; try done.
  intros i t Ht. destruct (H3 _ _ Ht) as (key & ctx & ta & la & tok & -> & Hc). exists key, ctx, ta, la, tok.
  split; [done|]. destruct Hc as [?|?]; [left; by apply Hl|by right].
Qed.

Lemma proxy_closed_inv data h : tcp_inv h → tcp_inv (handleProxyClosed data h).
Proof.
  intros [H1 H2 H3]. unfold Client.handleProxyClosed. destruct (unmarshalData _ _ data) as [[key]|e]; [|done].
  unfold stopTunnel. cbn [pc_Key]. destruct (h.(tunnelCtxs) !! key) as [ctx|] eqn:E.
  - split; cbn.
    + intros k. destruct (decide (k = key)) as [->|Hne]; [by rewrite !lookup_delete_eq|by rewrite !lookup_delete_ne].
    + intros k. destruct (decide (k = key)) as [->|Hne]; [by rewrite !lookup_delete_eq|by rewrite !lookup_delete_ne].
    + intros i t Ht. destruct (H3 _ _ Ht) as (k & c & ta & la & tok & -> & Hc). exists k, c, ta, la, tok. split; [done|].
      destruct (decide (k = key)) as [->|Hne]; [|rewrite lookup_delete_ne by done; destruct Hc; [left|by right]].
      * left. apply is_cancelled_cancel. destruct Hc as [?|Hc]; [by right|left; congruence].
      * apply is_cancelled_cancel. by right.
  - assert (Hi : h.(proxyInfo) !! key = None) by (apply eq_None_not_Some; rewrite H1, E; by intros []).
    assert (Hc : h.(tunnelContexts) !! key = None) by by rewrite H2.
    eapply (tcp_inv_same h); [by split|..]; cbn; rewrite ?delete_id by done; done.
Qed.

Lemma proxy_inv t data h : tcp_inv h → tcp_message h "proxy" data → tcp_inv (handleProxy t data h).
Proof.
  intros [H1 H2 H3] [_ Hm]. unfold Client.handleProxy.
  destruct (unmarshalData _ _ data) as [cmd|e] eqn:E; [|done]. destruct (Hm eq_refl cmd eq_refl) as (N1 & N2 & Hn).
  cbn. rewrite !decide_False by done. cbn. set (key := proxy_key h (cm_RemotePort cmd)) in *. split; cbn.
  - intros k. destruct (decide (k = key)) as [->|Hne]; [by rewrite !lookup_insert_eq|by rewrite !lookup_insert_ne].
  - intros k. destruct (decide (k = key)) as [->|Hne]; [by rewrite !lookup_insert_eq|by rewrite !lookup_insert_ne].
  - intros i t' Ht. destruct (H3 _ _ Ht) as (k & c & ta & la & tok & -> & Hc). exists k, c, ta, la, tok. split; [done|].
    destruct Hc as [Hc|Hc]; [by left|right]. rewrite lookup_insert_ne; [done|congruence].
Qed.

Lemma tunnel_request_inv t data h : tcp_inv h → tcp_inv (handleTunnelRequest t data h).
Proof.
  intros Hi. pose proof Hi as [H1 H2 H3]. unfold Client.handleTunnelRequest.
  destruct (unmarshalData _ _ data) as [[key tok]|e]; [|done].
  cbn [tr_Key tr_Token]. destruct (h.(proxyInfo) !! key) as [info|] eqn:E; [|done].
  destruct (proj1 (H1 key)) as [ctx Hctx]; [by exists info|]. split; cbn; [done..|].
  intros i t' [[<- <-]|[Hne Ht]]%lookup_insert_Some; [|by apply H3 in Ht].
  rewrite H2, Hctx. eexists _, _, _, _, _. split; [done|by right].
Qed.

Lemma tcp_inv_step h h' : tcp_inv h → tcp_step h h' → tcp_inv h'.
Proof.
  intros Hi Hs. destruct Hs as [env msgType data Hm|i t Ht Hend|print_json allowed x Hs|].
  - unfold Client.Handle. destruct Hm as [Hout Hp]. repeat case_decide; subst; try done.
    + by apply proxy_inv.
    + by apply proxy_closed_inv.
    + by apply tunnel_request_inv.
    + by apply (tcp_inv_same h).
    + apply (tcp_inv_same h); try done. cbn. apply (later_signal parse_json _ data (_, _)).
    + apply (tcp_inv_same h); try done. cbn. apply (later_closed parse_json data (_, _)).
    + by apply (tcp_inv_same h).
    + by apply (tcp_inv_same h).
    + destruct (handleUpdateEnd _ _ _ _) as [[exits u] fs]. by apply (tcp_inv_same h).
  - unfold task_end. rewrite Ht. destruct Hi as [H1 H2 H3].
    destruct (H3 _ _ Ht) as (key & ctx & ta & la & tok & -> & _). cbn. split; [done..|]. cbn.
    intros i' t' [_ Ht']%lookup_delete_Some. by apply H3 in Ht'.
  - apply (tcp_inv_same h); try done. by apply later_relay_step in Hs.
  - apply (tcp_inv_same h); try done. cbn. etrans; [|apply later_stop]. apply later_base.
Qed.

Definition tcp_reachable (clientID : string) (fs : gmap string bytes) : Handler → Prop := rtc tcp_step (New clientID fs).

Lemma tcp_reachable_inv clientID fs h : tcp_reachable clientID fs h → tcp_inv h.
Proof.
  intros Hr. assert (Hn : tcp_inv (New clientID fs)) by (split; cbn; intros *; rewrite ?lookup_empty; try done; by split; intros []).
  unfold tcp_reachable in Hr. revert Hn. induction Hr as [h|h1 h2 h3 Hs _ IH]; [done|]. intros Hn. by eapply IH, tcp_inv_step.
Qed.

(** C32. With TCP proxies that are closed before they are announced again, the
    client knows a proxy exactly while it has a context for it, every tunnel
    runs under the context of its proxy or a cancelled one, and when the
    server closes a proxy the client forgets it, acknowledges, cancels every
    tunnel of the proxy and starts no new one. *)
Theorem tcp_tunnels_follow (clientID : string) (fs : gmap string bytes) (h : Handler) :
  tcp_reachable clientID fs h →
  (∀ key, is_Some (h.(proxyInfo) !! key) ↔ is_Some (h.(tunnelCtxs) !! key)) ∧
  (∀ i t, taskOf h i = Some t → ∃ key ctx tunnelAddr localAddr token,
     t = Connect key (Some ctx) tunnelAddr localAddr token ∧
     (is_cancelled ctx h.(hd_ctx) = true ∨ h.(tunnelCtxs) !! key = Some ctx)) ∧
  ∀ data key, unmarshalData parse_json read_ProxyClosedData data = Ok (mkProxyClosedData key) →
    let h' := handleProxyClosed data h in
    h'.(proxyInfo) !! key = None ∧ h'.(hd_sent) = h.(hd_sent) ++ [("proxy_close_ack", AString key)] ∧
    (∀ i ctx tunnelAddr localAddr token, taskOf h' i = Some (Connect key (Some ctx) tunnelAddr localAddr token) →
       is_cancelled ctx h'.(hd_ctx) = true) ∧
    (∀ t req token, unmarshalData parse_json read_TunnelRequestData req = Ok (mkTunnelRequestData key token) →
       handleTunnelRequest t req h' = h').
Proof.
  intros Hi%tcp_reachable_inv. split_and!; [apply Hi..|]. intros data key Hd.
  pose proof (proxy_closed_inv data h Hi) as [H1 H2 H3]. set (h' := handleProxyClosed data h) in *. cbv zeta.
  assert (Hn : h'.(proxyInfo) !! key = None).
  { subst h'. unfold Client.handleProxyClosed. rewrite Hd. cbn. apply lookup_delete_eq. }
  assert (Hc : h'.(tunnelCtxs) !! key = None).
  { apply eq_None_not_Some. rewrite <-H1, Hn. by intros []. }
  split_and!; [exact Hn|..].
  - subst h'. unfold Client.handleProxyClosed, stopTunnel. rewrite Hd. cbn. by case_match.
  - intros i ctx ta la tok Ht. destruct (H3 _ _ Ht) as (k & c & ta' & la' & tok' & Heq & Hor).
    injection Heq as <- <- _ _ _. by destruct Hor; [|congruence].
  - intros t req tok Hr. unfold Client.handleTunnelRequest. rewrite Hr. cbn. by rewrite Hn.
Qed.
End tcp.

(** ** UDP and WebSocket tunnels *)

Section other.
Context (parse_json : string → Res any) (base64_decode : string → Res bytes) (md5_hex : bytes → string).
Abbreviation client_step := (client_step parse_json base64_decode md5_hex).
Abbreviation handleProxy := (handleProxy parse_json).
Abbreviation handleProxyClosed := (handleProxyClosed parse_json).
Abbreviation handleTunnelRequest := (handleTunnelRequest parse_json).

(** A context that is not made yet is not cancelled. *)
Definition ctx_ok (c : Contexts) : Prop := c.(cx_base) = false ∧ ∀ i, i ∈ c.(cx_cancelled) → i < c.(cx_next).

Lemma ctx_ok_new c : ctx_ok c → is_cancelled c.(cx_next) c = false.
Proof.
  intros [Hb Hc]. apply not_true_is_false. rewrite is_cancelled_true. intros [?|Hi%Hc]; [congruence|lia].
Qed.

(** What announcing a UDP proxy does. *)
Lemma udp_proxy t data cmd h :
  unmarshalData parse_json read_CommandData data = Ok cmd → cmd.(cm_Protocol) = "udp" →
  let c := with_local_ip cmd in
  let h' := handleProxy t data h in
  let key := proxy_key h cmd.(cm_RemotePort) in
  h'.(tunnelCtxs) = <[key := h.(hd_ctx).(cx_next)]> h.(tunnelCtxs) ∧ h'.(proxyInfo) = h.(proxyInfo) ∧
  h'.(hd_ClientID) = h.(hd_ClientID) ∧ h'.(hd_ctx) = (WithCancel h.(hd_ctx)).2 ∧
  h'.(hd_tasks) = <[t := TunnelUDP key h.(hd_ctx).(cx_next) cmd.(cm_ServerHost) cmd.(cm_RemotePort) cmd.(cm_Token)
                           cmd.(cm_LocalPort) c.(cm_LocalIP)]> h.(hd_tasks).
Proof.
  intros Hd Hp. cbv zeta. unfold Client.handleProxy. rewrite Hd. cbn. rewrite Hp. rewrite decide_False by done.
  by rewrite decide_True.
Qed.

(** A UDP proxy that is closed and announced again is lost when the old
    goroutine has not ended in between: its deferred [stopTunnel] finds the
    new context under the key, cancels it and takes it out, so the new
    goroutine may end too while the server counts the proxy as open. *)
Theorem readded_tunnel_stopped (h : Handler) (data closed : any) (cmd : CommandData) (t t' : nat) :
  unmarshalData parse_json read_CommandData data = Ok cmd → cmd.(cm_Protocol) = "udp" →
  unmarshalData parse_json read_ProxyClosedData closed = Ok (mkProxyClosedData (proxy_key h cmd.(cm_RemotePort))) →
  ctx_ok h.(hd_ctx) → t ≠ t' →
  let key := proxy_key h cmd.(cm_RemotePort) in
  let h1 := handleProxyClosed closed (handleProxy t data h) in
  let h2 := handleProxy t' data h1 in
  ∃ old new ctx, taskOf h2 t = Some old ∧ may_end h2 old ∧ taskOf h2 t' = Some new ∧ h2.(tunnelCtxs) !! key = Some ctx ∧
    is_cancelled ctx h2.(hd_ctx) = false ∧
    (let h3 := task_end t h2 in
     is_cancelled ctx h3.(hd_ctx) = true ∧ h3.(tunnelCtxs) !! key = None ∧ taskOf h3 t' = Some new ∧ may_end h3 new).
Proof.
  intros Hd Hp Hc [Hb Hok] Hne. cbv zeta. set (key := proxy_key h cmd.(cm_RemotePort)) in *.
  destruct (udp_proxy t data cmd h Hd Hp) as (A1 & A2 & A3 & A4 & A5). set (h0 := handleProxy t data h) in *.
  fold key in A1, A5. set (n := h.(hd_ctx).(cx_next)) in *.
  set (h1 := handleProxyClosed closed h0).
  assert (B : h1.(tunnelCtxs) = delete key h0.(tunnelCtxs) ∧ h1.(hd_ctx) = cancel n h0.(hd_ctx) ∧
              h1.(hd_tasks) = h0.(hd_tasks) ∧ h1.(hd_ClientID) = h0.(hd_ClientID)).
  { subst h1. unfold Client.handleProxyClosed, stopTunnel. rewrite Hc. cbn [pc_Key]. by rewrite A1, lookup_insert_eq. }
  destruct B as (B1 & B2 & B3 & B4).
  destruct (udp_proxy t' data cmd h1 Hd Hp) as (C1 & C2 & C3 & C4 & C5). set (h2 := handleProxy t' data h1) in *.
  assert (Hk : proxy_key h1 cmd.(cm_RemotePort) = key) by (unfold proxy_key; by rewrite B4, A3).
  rewrite Hk in C1, C5. assert (Hn : h1.(hd_ctx).(cx_next) = S n) by (rewrite B2; cbn; by rewrite A4).
  rewrite Hn in C1, C5.
  assert (Hcan : h2.(hd_ctx) = mkContexts (S (S n)) ({[n]} ∪ h.(hd_ctx).(cx_cancelled)) false).
  { rewrite C4, B2, A4. cbn. by rewrite Hb. }
  assert (He : task_end t h2 = set_ctx (cancel (S n) h2.(hd_ctx)) (set_proxies (delete key h2.(tunnelCtxs))
    h2.(proxyInfo) h2.(tunnelContexts) (set_tasks (delete t) h2))).
  { unfold task_end. rewrite C5, lookup_insert_ne, B3, A5, lookup_insert_eq by done. cbn [task_key].
    unfold stopTunnel. cbn [tunnelCtxs set_tasks]. by rewrite C1, lookup_insert_eq. }
  eexists (TunnelUDP key n _ _ _ _ _), (TunnelUDP key (S n) _ _ _ _ _), (S n). cbv zeta. split_and!.
  - rewrite C5, lookup_insert_ne by done. rewrite B3, A5. apply lookup_insert_eq.
  - cbn [may_end]. rewrite Hcan. apply is_cancelled_true. right. cbn [cx_cancelled]. set_solver.
  - rewrite C5. apply lookup_insert_eq.
  - rewrite C1. apply lookup_insert_eq.
  - apply not_true_is_false. rewrite Hcan, is_cancelled_true. cbn. rewrite elem_of_union, elem_of_singleton.
    intros [?|[?|Hi%Hok]]; [done|lia|]. fold n in Hi. lia.
  - rewrite He. apply is_cancelled_cancel. by left.
  - rewrite He. apply lookup_delete_eq.
  - rewrite He. cbn [hd_tasks set_ctx set_proxies set_tasks]. rewrite lookup_delete_ne by done. rewrite C5.
    apply lookup_insert_eq.
  - rewrite He. apply is_cancelled_cancel. by left.
Qed.

(** ** The way of a connection *)

Context (ClientToken : string) (tunnelPort : Z).

(** A proxy as the server announces it, and the connection it asks for. *)
Definition announced (s : SessState) (p : ProxyState) : any :=
  wire_data (λ _, "") (ws_Data (proxy_message tunnelPort s p.(ps_RemotePort) p.(ps_LocalPort) p.(ps_LocalIP)
                                  p.(ps_Protocol) p.(ps_BindAddr))).
Definition asked (p : ProxyState) (token : string) : any :=
  wire_data (λ _, "") (ws_Data (tunnel_request_message (proxyClientKey p.(ps_ClientID) p.(ps_RemotePort)) token p)).
Definition ports_ok (p : ProxyState) : Prop :=
  (Z.abs p.(ps_RemotePort) < 2 ^ 53 ∧ Z.abs p.(ps_LocalPort) < 2 ^ 53 ∧ Z.abs tunnelPort < 2 ^ 53)%Z.

Lemma announced_read s p : ports_ok p →
  unmarshalData parse_json read_CommandData (announced s p) =
    Ok (mkCommandData "" p.(ps_RemotePort) p.(ps_LocalPort) p.(ps_Protocol) p.(ps_BindAddr) ""
          s.(ss_store).(publicIP) tunnelPort "" p.(ps_LocalIP)).
Proof. intros (H1 & H2 & H3). unfold announced, proxy_message. cbn. by apply read_CommandData_json. Qed.

Lemma asked_read p token :
  unmarshalData parse_json read_TunnelRequestData (asked p token) =
    Ok (mkTunnelRequestData (proxyClientKey p.(ps_ClientID) p.(ps_RemotePort)) token).
Proof.
  unfold asked, tunnel_request_message. cbn [ws_Data wire_data json_norm unmarshalData read_any].
  rewrite !fmap_insert, fmap_empty. cbn [json_norm]. unfold read_TunnelRequestData. read_all. done.
Qed.

(** C16. The server announces a TCP proxy and asks for a tunnel for a
    connection it has accepted: the client starts one that dials the tunnel
    port of the server, under the context of the proxy, for the local address
    of the proxy.  When the dials succeed and the server acknowledges, the
    two connections are piped, and what the client has written is accepted by
    the data plane as the token of the request, which the pairing hands to
    the goroutine of that very connection. *)
Theorem tunnel_request_served (s : SessState) (p : ProxyState) (h : Handler) (t t' : nat) (token : string)
    (env : dial_env) (rest reply : bytes) (ps : PairState) (pub : PubConn) (ch : ChanId) (conn : TunnelConn) :
  ports_ok p → p.(ps_Protocol) ≠ "websocket" → p.(ps_Protocol) ≠ "udp" → h.(hd_ClientID) = p.(ps_ClientID) →
  String.length token <= MaxTokenLen →
  let h' := handleTunnelRequest t' (asked p token) (handleProxy t (announced s p) h) in
  let ip := if decide (p.(ps_LocalIP) = "") then "127.0.0.1" else p.(ps_LocalIP) in
  taskOf h' t' = Some (Connect (proxyClientKey p.(ps_ClientID) p.(ps_RemotePort)) (Some h.(hd_ctx).(cx_next))
                         (JoinHostPort s.(ss_store).(publicIP) tunnelPort) (JoinHostPort ip p.(ps_LocalPort)) token) ∧
  (env = mkDialEnv true true ("001"%char :: reply) true →
   ∃ frame, connectAndPipe env token = (frame, true) ∧ handleTunnelConn true (frame ++ rest) = Some (token, rest) ∧
     (AcceptTunnel_take token conn (request pub token ch true ps)).(handing) !! conn = Some ch ∧
     (request pub token ch true ps).(waiters) !! pub = Some (Waiting ch ps.(clock))).
Proof.
  intros Hp N1 N2 Hid Hlen h' ip. split.
  - subst h'. unfold Client.handleTunnelRequest. rewrite asked_read. unfold Client.handleProxy.
    rewrite announced_read by done. cbn. rewrite !decide_False by done. cbn.
    assert (Hk : proxyClientKey p.(ps_ClientID) p.(ps_RemotePort) = proxy_key h p.(ps_RemotePort))
      by (unfold proxy_key; by rewrite Hid).
    rewrite Hk, !lookup_insert_eq. cbn. by rewrite lookup_insert_eq.
  - intros ->. unfold connectAndPipe. cbn [de_dial negb de_write de_reply de_local].
    assert (Hw : ∃ frame, WriteTunnelAuth token = Ok frame).
    { unfold WriteTunnelAuth. rewrite length_list_ascii_of_string, decide_False by lia. by eexists. }
    destruct Hw as [frame Hw]. rewrite Hw. exists frame. split_and!; [done|..].
    + unfold WriteTunnelAuth in Hw. case_decide; [done|]. apply (inj Ok) in Hw as <-. apply handleTunnelConn_frame.
      exists (list_ascii_of_string token). rewrite length_list_ascii_of_string in *. unfold MaxTokenLen in *.
      split_and!; [by rewrite string_of_list_ascii_of_string|lia|by rewrite <-!app_assoc].
    + unfold AcceptTunnel_take, request. cbn. rewrite lookup_insert_eq. cbn. apply lookup_insert_eq.
    + cbn. apply lookup_insert_eq.
Qed.

(** A UDP proxy is never served: the client runs the loop of a UDP tunnel,
    without a token, against the public port itself, does not file the proxy,
    and so ignores every request for a tunnel. *)
Theorem udp_never_served (s : SessState) (p : ProxyState) (h : Handler) (t t' : nat) (token : string) :
  ports_ok p → p.(ps_Protocol) = "udp" → h.(hd_ClientID) = p.(ps_ClientID) →
  h.(proxyInfo) !! proxy_key h p.(ps_RemotePort) = None →
  let h1 := handleProxy t (announced s p) h in
  (∃ key ctx localIP, taskOf h1 t =
     Some (TunnelUDP key ctx s.(ss_store).(publicIP) p.(ps_RemotePort) "" p.(ps_LocalPort) localIP)) ∧
  handleTunnelRequest t' (asked p token) h1 = h1.
Proof.
  intros Hp Hu Hid Hn. cbv zeta. destruct (udp_proxy t (announced s p) _ h (announced_read s p Hp) Hu)
    as (_ & A2 & A3 & _ & A5). split.
  - rewrite A5. eexists _, _, _. apply lookup_insert_eq.
  - unfold Client.handleTunnelRequest at 1. rewrite asked_read. cbn [tr_Key tr_Token]. rewrite A2.
    assert (proxyClientKey p.(ps_ClientID) p.(ps_RemotePort) = proxy_key h p.(ps_RemotePort)) as ->
      by (unfold proxy_key; by rewrite Hid). by rewrite Hn.
Qed.

Lemma pretty_no_dash z : (0 <= z)%Z → no_char "-" (pretty z) = true.
Proof.
  intros Hz. eapply string_forall_impl; [|by apply pretty_nonneg_digits].
  intros c Hc. apply bool_decide_eq_true. by intros ->.
Qed.

(** A temporary client files proxies under keys the server does not use:
    it answers the request for a tunnel of a proxy it was told of only when
    its id is "temp". *)
Theorem temp_client_serves (s : SessState) (p : ProxyState) (h : TempHandler) (t : nat) (token : string) :
  ports_ok p → (0 <= p.(ps_RemotePort))%Z → (∀ key info, h.(th_proxyInfo) !! key = Some info → ∃ port, (0 <= port)%Z ∧ key = temp_key port) →
  let h1 := temp_handleProxy parse_json (announced s p) h in
  if decide (p.(ps_ClientID) = "temp")
  then is_Some ((temp_handleTunnelRequest parse_json t (asked p token) h1).(th_tasks) !! t)
  else temp_handleTunnelRequest parse_json t (asked p token) h1 = h1.
Proof.
  intros Hp Hport Hkeys. cbv zeta. set (h1 := temp_handleProxy parse_json (announced s p) h).
  assert (Hh1 : h1.(th_proxyInfo) = <[temp_key p.(ps_RemotePort) := with_local_ip
    (mkCommandData "" p.(ps_RemotePort) p.(ps_LocalPort) p.(ps_Protocol) p.(ps_BindAddr) ""
          s.(ss_store).(publicIP) tunnelPort "" p.(ps_LocalIP))]> h.(th_proxyInfo)).
  { subst h1. unfold temp_handleProxy. by rewrite announced_read. }
  unfold temp_handleTunnelRequest. rewrite asked_read. cbn [tr_Key tr_Token]. case_decide as Hid.
  - assert (proxyClientKey p.(ps_ClientID) p.(ps_RemotePort) = temp_key p.(ps_RemotePort)) as -> by by rewrite Hid.
    rewrite Hh1, lookup_insert_eq. cbn. rewrite lookup_insert_eq. by eexists.
  - destruct (h1.(th_proxyInfo) !! _) as [info|] eqn:E; [|done]. exfalso.
    assert (Hk : ∃ port, (0 <= port)%Z ∧ proxyClientKey p.(ps_ClientID) p.(ps_RemotePort) = temp_key port).
    { rewrite Hh1 in E. apply lookup_insert_Some in E as [[<- _]|[_ E]]; [by exists p.(ps_RemotePort)|by eapply Hkeys]. }
    destruct Hk as (port & Hp0 & Heq). apply Hid. unfold proxyClientKey, temp_key in Heq.
    apply (last_sep_inj "-" _ "temp") in Heq as [Heq _]; [done|by apply pretty_no_dash..].
Qed.

(** A ping of the server carries no data, the client sends back what it
    got, and a pong without a timestamp changes nothing at the server: no
    latency is ever measured, no event published. *)
Theorem ping_measures_nothing (refuse : string → bool) (parse_time : string → option Z) (env : handle_env) (h : Handler)
    (senv : step_env) (sid : nat) (s : SessState)
    `{!JsonCodec (gmap string ClientRecord)} `{!JsonCodec (gmap string Voucher)} :
  (Client.Handle parse_json base64_decode md5_hex env "ping" (wire_data (λ _, "") DNil) h).(hd_sent)
    = h.(hd_sent) ++ [("pong", ANil)] ∧
  handleMessage ClientToken parse_time senv sid (mkWSMessage "pong" DNil) s = s.
Proof. done. Qed.
End other.

(** ** Witnesses *)

Definition http_proxy : ProxyState := mkProxyState "dev" 8080 80 "" "tcp" "0.0.0.0".
Definition dns_proxy : ProxyState := mkProxyState "dev" 53 53 "" "udp" "0.0.0.0".
Definition example_server : SessState := sess_start "1.2.3.4" example_auth.
Definition key_data (key : string) : any := wire_data (λ _, "") (DProxyClosed (mkProxyClosedData key)).
Definition no_update : update_env := mkUpdateEnv (Err "none") None None.

Definition dev_client : Handler := handleProxy no_json 0 (announced 7001 example_server http_proxy) (New "dev" ∅).
Definition dev_serving : Handler := handleTunnelRequest no_json 1 (asked http_proxy "tok") dev_client.

Lemma dev_serving_reachable : tcp_reachable no_json toy_base64 toy_md5 "dev" ∅ dev_serving.
Proof.
  unfold tcp_reachable. eapply rtc_l.
  - apply (TMessage _ _ _ _ (mkHandleEnv 0 0 no_update) "proxy" (announced 7001 example_server http_proxy)).
    split; [discriminate|]. intros _ cmd Hc. vm_compute in Hc. injection Hc as <-. split_and!; [discriminate..|reflexivity].
  - apply rtc_once, (TMessage _ _ _ _ (mkHandleEnv 1 0 no_update) "tunnel_request" (asked http_proxy "tok")).
    split; discriminate.
Qed.

Lemma tcp_tunnels_follow_witness :
  taskOf dev_serving 1 = Some (Connect "dev-8080" (Some 0) "1.2.3.4:7001" "127.0.0.1:80" "tok") ∧
  is_cancelled 0 (handleProxyClosed no_json (key_data "dev-8080") dev_serving).(hd_ctx) = true.
Proof.
  assert (Ht : taskOf dev_serving 1 = Some (Connect "dev-8080" (Some 0) "1.2.3.4:7001" "127.0.0.1:80" "tok"))
    by (vm_compute; reflexivity).
  split; [exact Ht|].
  destruct (tcp_tunnels_follow no_json toy_base64 toy_md5 "dev" ∅ dev_serving dev_serving_reachable) as (_ & _ & H).
  destruct (H (key_data "dev-8080") "dev-8080" ltac:(vm_compute; reflexivity)) as (_ & _ & Hc & _).
  eapply (Hc 1). exact Ht.
Defined.

Lemma readded_tunnel_stopped_witness :
  let h2 := handleProxy no_json 1 (announced 7001 example_server dns_proxy)
              (handleProxyClosed no_json (key_data "dev-53")
                 (handleProxy no_json 0 (announced 7001 example_server dns_proxy) (New "dev" ∅))) in
  ∃ ctx, h2.(tunnelCtxs) !! "dev-53" = Some ctx ∧ is_cancelled ctx h2.(hd_ctx) = false ∧
    is_cancelled ctx (task_end 0 h2).(hd_ctx) = true.
Proof.
  destruct (readded_tunnel_stopped no_json (New "dev" ∅) (announced 7001 example_server dns_proxy)
    (key_data "dev-53")
    (mkCommandData "" 53 53 "udp" "0.0.0.0" "" "1.2.3.4" 7001 "" "") 0 1
    ltac:(vm_compute; reflexivity) ltac:(reflexivity) ltac:(vm_compute; reflexivity))
    as (old & new & ctx & _ & _ & _ & H1 & H2 & H3 & _).
  - split; [reflexivity|]. intros i Hi. by apply not_elem_of_empty in Hi.
  - discriminate.
  - exists ctx. split_and!; [exact H1|exact H2|exact H3].
Defined.

Lemma tunnel_request_served_witness :
  ∃ frame, connectAndPipe (mkDialEnv true true ["001"%char] true) "tok" = (frame, true) ∧
    handleTunnelConn true (frame ++ ["x"%char]) = Some ("tok", ["x"%char]).
Proof.
  destruct (tunnel_request_served no_json 7001 example_server http_proxy (New "dev" ∅) 0 1 "tok"
    (mkDialEnv true true ["001"%char] true) ["x"%char] [] (NewPairing 0) 5 6 7) as [_ H].
  - split_and!; reflexivity.
  - discriminate.
  - discriminate.
  - reflexivity.
  - vm_compute; lia.
  - destruct (H eq_refl) as (frame & H1 & H2 & _). exists frame. split; [exact H1|exact H2].
Defined.

Lemma udp_never_served_witness :
  let h1 := handleProxy no_json 0 (announced 7001 example_server dns_proxy) (New "dev" ∅) in
  handleTunnelRequest no_json 1 (asked dns_proxy "tok") h1 = h1.
Proof.
  exact (proj2 (udp_never_served no_json 7001 example_server dns_proxy (New "dev" ∅) 0 1 "tok"
    ltac:(split_and!; reflexivity) eq_refl eq_refl (lookup_empty _))).
Defined.

Lemma temp_client_serves_witness :
  let h1 := temp_handleProxy no_json (announced 7001 example_server http_proxy) NewTempHandler in
  temp_handleTunnelRequest no_json 1 (asked http_proxy "tok") h1 = h1.
Proof.
  exact (temp_client_serves no_json 7001 example_server http_proxy NewTempHandler 1 "tok"
    ltac:(split_and!; reflexivity) ltac:(vm_compute; discriminate)
    (λ key info H, match eq_trans (eq_sym (lookup_empty key)) H with end)).
Defined.
