(* ===== verification/ClientStart.v ===== *)
(** * Starting a client (BBgrid_Client/client.go, register/register.go)

    How a client comes by its certificate: [LoadClient] of common/config
    makes a key pair, [Client.Run] registers it over HTTP, waits for the
    approval and downloads the certificate, which every connection presents.
    The requests are those of [Http.serve], so the two programs run against
    each other: [enrol_step] interleaves the start of one client, its crashes
    and restarts, and the requests of everybody else.

    The files of the client are a directory; keys, what a write or a request
    does, and the key library are arguments.  Texts of keys and certificates
    are ASCII, so JSON leaves them as they are. *)

From S2P Require Import Prelude Types Disk Core Auth Credentials Http HttpFacts.

(** ** Keys *)

(** [ecdsa.GenerateKey] draws a [kl_key]; the two encoders of register.go
    make the contents of the files; [kl_pair] is [tls.X509KeyPair]. *)
Record KeyLib := mkKeyLib {
  kl_key : Type;
  kl_private : kl_key → Res bytes;
  kl_public : kl_key → Res bytes;
  kl_pair : bytes → bytes → bool;
}.

(** A certificate goes with the private key of the public key it was made
    for; with another key, or when a file is cut short, it does not. *)
Class KeyLaws (cy : Crypto) (kl : KeyLib) := {
  pair_same k serial now id cert pub priv :
    kl.(kl_public) k = Ok pub → kl.(kl_private) k = Ok priv →
    signClientCertificate cy serial now (string_of_list_ascii pub) id 365 = Ok cert →
    cert ≠ "" ∧ kl.(kl_pair) (list_ascii_of_string cert) priv = true;
  pair_other k k' serial now id cert pub priv m n :
    kl.(kl_public) k = Ok pub → kl.(kl_private) k' = Ok priv →
    signClientCertificate cy serial now (string_of_list_ascii pub) id 365 = Ok cert →
    kl.(kl_pair) (take m (list_ascii_of_string cert)) (take n priv) = true → k' = k;
}.

Record ClientConfig := mkClientConfig {
  cc_id : string;
  cc_token : string;
  cc_voucher : string;
  cc_privateKeyPath : string;
  cc_publicKeyPath : string;
  cc_certPath : string;
}.

(** What the system does to a start. *)
Record boot_env {kl : KeyLib} := mkBootEnv {
  bt_mkdir : Res unit;
  bt_key : Res kl.(kl_key);
  bt_write_private : WriteFault;
  bt_write_public : WriteFault;
  bt_write_cert : WriteFault;
  bt_remove_cert : bool;
  bt_remove_key : bool;
}.
Arguments boot_env kl : clear implicits.

(** Where [main] is: before [LoadClient], at the start of [Run], before the
    first question to the server, before the registration, waiting, at
    "connect", gone. *)
Inductive Phase := Loading | Starting | Querying | Applying | Waiting | Connecting | Exited.

(** *** Addresses *)

Definition has_prefix_after (pre s : string) : bool := String.prefix pre s && (String.length pre <? String.length s).
Definition has_suffix_before (suf s : string) : bool := has_suffix suf s && (String.length suf <? String.length s).
Definition slice_from (n : nat) (s : string) : string := String.substring n (String.length s - n) s.

(** The four copies of the rewriting of the WebSocket address. *)
Definition apiURL (serverURL path : string) : string :=
  let u := if has_prefix_after "wss://" serverURL then "https://" +:+ slice_from 6 serverURL
           else if has_prefix_after "ws://" serverURL then "http://" +:+ slice_from 5 serverURL
           else serverURL in
  (if has_suffix_before "/ws" u then String.substring 0 (String.length u - 3) u else u) +:+ path.

Section keys.
Context {kl : KeyLib}.
Context (c : ClientConfig).
Abbreviation boot_env := (boot_env kl).

Definition GenerateKeyPair (key : Res kl.(kl_key)) (w0 w1 : WriteFault) (d : directory) : Res unit * directory :=
  match (k ← key; kl.(kl_private) k) with
  | Err e => (Err e, d)
  | Ok priv =>
      match WriteFile c.(cc_privateKeyPath) priv w0 d with
      | (Err e, d1) => (Err e, d1)
      | (Ok _, d1) =>
          match (k ← key; kl.(kl_public) k) with
          | Err e => (Err e, d1)
          | Ok pub => WriteFile c.(cc_publicKeyPath) pub w1 d1
          end
      end
  end.
Definition generate (env : boot_env) (d : directory) : Res unit * directory :=
  GenerateKeyPair env.(bt_key) env.(bt_write_private) env.(bt_write_public) d.

(** The end of [LoadClient]. *)
Definition load_keys (env : boot_env) (d : directory) : Res unit * directory :=
  match env.(bt_mkdir) with
  | Err e => (Err e, d)
  | Ok _ =>
      if negb (fileExists c.(cc_privateKeyPath) d) || negb (fileExists c.(cc_publicKeyPath) d) then generate env d
      else (Ok tt, d)
  end.

Definition LoadX509KeyPair (d : directory) : Res unit :=
  cert ← ReadFile c.(cc_certPath) d; key ← ReadFile c.(cc_privateKeyPath) d;
  if kl.(kl_pair) cert key then Ok tt else Err "tls: private key does not match public key".

Definition remove_if (b : bool) (name : string) (d : directory) : directory := if b then delete name d else d.

(** The files are removed when they do not belong together. *)
Definition drop_mismatch (env : boot_env) (d : directory) : directory :=
  if fileExists c.(cc_certPath) d && fileExists c.(cc_privateKeyPath) d && negb (is_ok (LoadX509KeyPair d)) then
    remove_if env.(bt_remove_key) c.(cc_privateKeyPath) (remove_if env.(bt_remove_cert) c.(cc_certPath) d)
  else d.

(** The start of [Run], up to the first request; a key pair that was just
    made is not looked up at the server. *)
Definition run_keys (env : boot_env) (d : directory) : Phase * directory :=
  let d1 := drop_mismatch env d in
  let keyPairGenerated := negb (fileExists c.(cc_privateKeyPath) d1) in
  match (if keyPairGenerated then generate env d1 else (Ok tt, d1)) with
  | (Err _, d2) => (Exited, d2)
  | (Ok _, d2) =>
      (if fileExists c.(cc_certPath) d2 then Connecting else if keyPairGenerated then Applying else Querying, d2)
  end.

(** ** Answers of the server *)

Definition decode (a : Res Response) : Res (Z * string * Data) :=
  match a with
  | Err e => Err ("http request: " +:+ e)
  | Ok (Json _ code msg data) => Ok (code, msg, data)
  | Ok _ => Err "unmarshal response"
  end.

Definition checkApprovalStatus (a : Res Response) : Res (string * string) :=
  '(code, _, data) ← decode a;
  if decide (code ≠ 0%Z) then Err "query failed"
  else
    let clients := match data with DClients l => l | _ => [] end in
    match List.find (λ r, bool_decide (r.(cr_ClientID) = c.(cc_id))) clients with
    | Some r => Ok ("approved", r.(cr_Certificate))
    | None => Ok ("pending", "")
    end.

Definition registration_answer (a : Res Response) : Res unit :=
  '(code, msg, _) ← decode a; if decide (code ≠ 0%Z) then Err ("registration failed: " +:+ msg) else Ok tt.

Definition voucher_answer (a : Res Response) : Res string :=
  '(code, msg, data) ← decode a;
  if decide (code ≠ 0%Z) then Err ("voucher registration failed: " +:+ msg)
  else
    let cert := match data with DCertFor cert _ _ => cert | _ => "" end in
    if decide (cert = "") then Err "no certificate returned" else Ok cert.

Definition save_cert (env : boot_env) (cert : string) (d : directory) : Phase * directory :=
  match WriteFile c.(cc_certPath) (list_ascii_of_string cert) env.(bt_write_cert) d with
  | (Ok _, d1) => (Connecting, d1)
  | (Err _, d1) => (Exited, d1)
  end.

(** The question of a client that kept its key: the certificate is taken when
    it is for this key. *)
Definition run_query (env : boot_env) (a : Res Response) (d : directory) : Phase * directory :=
  match checkApprovalStatus a with
  | Ok (status, cert) =>
      if decide (status = "approved" ∧ cert ≠ "") then
        if kl.(kl_pair) (list_ascii_of_string cert) (default [] (d !! c.(cc_privateKeyPath))) then save_cert env cert d
        else (Applying, d)
      else (Applying, d)
  | Err _ => (Applying, d)
  end.

(** One round of [waitForApprovalAndDownloadCert]. *)
Definition run_poll (env : boot_env) (a : Res Response) (d : directory) : Phase * directory :=
  match checkApprovalStatus a with
  | Ok (status, cert) =>
      if decide (status = "approved" ∧ cert ≠ "") then save_cert env cert d else (Waiting, d)
  | Err _ => (Waiting, d)
  end.
End keys.

(** ** Client and server *)

(** A request is not sent, or its answer is lost, or it is answered. *)
Inductive delivery := NotSent | AnswerLost | Answered.

Section enrol.
Context {W Provider : Type}.
Context `{!JsonCodec (gmap string ClientRecord)} `{!JsonCodec (gmap string Voucher)}.
Context (APIKey ClientToken version : string) (jwtSecret : bytes) (j : JWT) (cy : Crypto).
Context {kl : KeyLib}.
Context (c : ClientConfig).
Abbreviation Api := (@Api W Provider).
Abbreviation serve := (serve APIKey ClientToken version jwtSecret j cy).
Abbreviation boot_env := (boot_env kl).

Definition ask (n : delivery) (env : req_env) (r : Route) (s : Api) : Res Response * Api :=
  match n with
  | NotSent => (Err "connection refused", s)
  | AnswerLost => (Err "EOF", (serve env ∅ r s).2)
  | Answered => let '(resp, s') := serve env ∅ r s in (Ok resp, s')
  end.

Definition publicKeyText (d : directory) : Res string := string_of_list_ascii <$> ReadFile c.(cc_publicKeyPath) d.

Definition submitRegistration (n : delivery) (env : req_env) (d : directory) (s : Api) : Res unit * Api :=
  match publicKeyText d with
  | Err e => (Err e, s)
  | Ok pub =>
      let '(a, s') := ask n env (PostRegisterApply (Ok (mkApplyReq c.(cc_id) pub c.(cc_token)))) s in
      (registration_answer a, s')
  end.

Definition submitVoucherRegistration (n : delivery) (env : req_env) (benv : boot_env) (d : directory) (s : Api) :
    Phase * directory * Api :=
  match publicKeyText d with
  | Err _ => (Exited, d, s)
  | Ok pub =>
      let '(a, s') := ask n env (PostRegisterVoucher (Ok (mkVoucherReq c.(cc_id) pub c.(cc_voucher)))) s in
      match voucher_answer a with
      | Err _ => (Exited, d, s')
      | Ok cert => (save_cert c benv cert d, s')
      end
  end.

(** The registration; that the client is known already is no error. *)
Definition run_apply (n : delivery) (env : req_env) (benv : boot_env) (d : directory) (s : Api) :
    Phase * directory * Api :=
  if decide (c.(cc_voucher) ≠ "") then submitVoucherRegistration n env benv d s
  else
    let '(r, s') := submitRegistration n env d s in
    (match r with
     | Ok _ => Waiting
     | Err e => if Contains e "already exists" then Waiting else Exited
     end, d, s').

Record World := mkWorld { wd_phase : Phase; wd_dir : directory; wd_server : Api }.
Definition put (x : Phase * directory) (s : Api) : World := mkWorld x.1 x.2 s.

Definition load_step (env : boot_env) (x : World) : World :=
  let '(r, d) := load_keys c env x.(wd_dir) in mkWorld (if is_ok r then Starting else Exited) d x.(wd_server).
Definition start_step (env : boot_env) (x : World) : World := put (run_keys c env x.(wd_dir)) x.(wd_server).
Definition query_step (n : delivery) (renv : req_env) (env : boot_env) (x : World) : World :=
  let '(a, s) := ask n renv GetRegisterList x.(wd_server) in put (run_query c env a x.(wd_dir)) s.
Definition apply_step (n : delivery) (renv : req_env) (env : boot_env) (x : World) : World :=
  let '(p, d, s) := run_apply n renv env x.(wd_dir) x.(wd_server) in mkWorld p d s.
Definition poll_step (n : delivery) (renv : req_env) (env : boot_env) (x : World) : World :=
  let '(a, s) := ask n renv GetRegisterList x.(wd_server) in put (run_poll c env a x.(wd_dir)) s.

(** [env_ok] says what may happen to the client's files, [allowed] what others
    may ask of the server. *)
Inductive enrol_step (env_ok : boot_env → Prop) (allowed : Route → Prop) (x : World) : World → Prop :=
| ELoad env : x.(wd_phase) = Loading → env_ok env → enrol_step env_ok allowed x (load_step env x)
| EStart env : x.(wd_phase) = Starting → env_ok env → enrol_step env_ok allowed x (start_step env x)
| EQuery n renv env : x.(wd_phase) = Querying → clean_env renv → env_ok env → enrol_step env_ok allowed x (query_step n renv env x)
| EApply n renv env : x.(wd_phase) = Applying → clean_env renv → env_ok env → enrol_step env_ok allowed x (apply_step n renv env x)
| EPoll n renv env : x.(wd_phase) = Waiting → clean_env renv → env_ok env → enrol_step env_ok allowed x (poll_step n renv env x)
| ERestart : enrol_step env_ok allowed x (mkWorld Loading x.(wd_dir) x.(wd_server))
| EStop : enrol_step env_ok allowed x (mkWorld Exited x.(wd_dir) x.(wd_server))
| EServer renv h r : clean_env renv → allowed r →
    enrol_step env_ok allowed x (mkWorld x.(wd_phase) x.(wd_dir) (serve renv h r x.(wd_server)).2).
End enrol.
