(* ===== verification/Enrolment.v ===== *)
(** * Enrolment: clients and server together

    What requests do to one client of the registry, and from it what a client
    that starts (ClientStart) and the control API (Http) guarantee together:
    a client that keeps its files connects with a certificate of its key; one
    that lost its key does not come back without a voucher or the help of the
    administrator. *)

From S2P Require Import Prelude Types StateStore Disk Core Auth Credentials Http HttpFacts ClientStart.

(** ** What requests do to one client of the registry *)

Section registry.
Context {W Provider : Type}.
Context `{!JsonCodec (gmap string ClientRecord)} `{!JsonCodec (gmap string Voucher)}.
Context (APIKey ClientToken version : string) (jwtSecret : bytes) (j : JWT) (cy : Crypto).
Abbreviation Api := (@Api W Provider).
Abbreviation serve := (serve APIKey ClientToken version jwtSecret j cy).
Abbreviation handle := (handle APIKey ClientToken version jwtSecret j cy).

Definition client_of (a : Manager * directory) (id : string) : option ClientRecord := a.1.(mg_clients) !! id.

(** The record of [id] after is one with the key of the record before. *)
Definition keeps (id : string) (a a' : Manager * directory) : Prop :=
  ∀ r', client_of a' id = Some r' →
    ∃ r, client_of a id = Some r ∧ r'.(cr_PublicKey) = r.(cr_PublicKey).
(** An approved client stays, with its key and certificate. *)
Definition stays (id : string) (a a' : Manager * directory) : Prop :=
  ∀ r, client_of a id = Some r → r.(cr_Status) = "approved" →
    ∃ r', client_of a' id = Some r' ∧ r'.(cr_Status) = "approved" ∧ r'.(cr_PublicKey) = r.(cr_PublicKey) ∧
      r'.(cr_Certificate) = r.(cr_Certificate).
Definition gentle (id : string) (a a' : Manager * directory) : Prop := keeps id a a' ∧ stays id a a'.

Lemma gentle_same id a a' : client_of a' id = client_of a id → gentle id a a'.
Proof.
  intros Heq. split.
  - intros r' Hr'. rewrite Heq in Hr'. by exists r'.
  - intros r Hr Hst. rewrite <-Heq in Hr. by exists r.
Qed.
Lemma gentle_but id id' a a' : same_but id' a a' → id' ≠ id → gentle id a a'.
Proof. intros [H _] Hne. apply gentle_same. unfold client_of. by apply H. Qed.

Lemma AddApplication_stays id id' key now w a : stays id a (AddApplication id' key now w a).2.
Proof.
  destruct (AddApplication id' key now w a) as [r a'] eqn:E. cbn [snd].
  destruct (decide (id' = id)) as [->|Hne].
  - destruct a as [m d]. unfold AddApplication in E. intros c Hc Hst. unfold client_of in *. cbn [fst] in Hc.
    rewrite Hc in E. injection E as <- <-. by exists c.
  - apply AddApplication_effect in E as [E _]. by apply (gentle_but id id').
Qed.

Lemma Approve_gentle id id' ns role serial now w a : gentle id a (Approve cy id' ns role serial now w a).2.
Proof.
  destruct (decide (id' = id)) as [->|Hne].
  2:{ destruct (Approve _ _ _ _ _ _ _ a) as [r a'] eqn:E. apply Approve_effect in E as [E _]. by eapply gentle_but. }
  destruct a as [m d]. unfold Approve. destruct (m.(mg_clients) !! id) as [c|] eqn:E; [|by apply gentle_same].
  destruct (negb _) eqn:Hp; [by apply gentle_same|]. apply negb_false_iff, bool_decide_eq_true in Hp.
  destruct (signClientCertificate _ _ _ _ _ _) as [cert|e] eqn:Hs; [|by apply gentle_same].
  set (c' := mkClientRecord _ _ cert _ _ _ _ _).
  assert (H : ∀ d' m1, m1.(mg_clients) = <[id := c']> m.(mg_clients) → gentle id (m, d) (m1, d')).
  { intros d' m1 Hm. unfold gentle, keeps, stays, client_of. cbn [fst]. rewrite Hm, E, lookup_insert_eq. split.
    - intros r' [= <-]. by exists c.
    - intros r [= <-]. congruence. }
  destruct (saveRegistry _ w d) as [[u|e] d']; by apply H.
Qed.

Lemma SetClientNamespace_gentle id id' ns role w a : gentle id a (SetClientNamespace id' ns role w a).2.
Proof.
  destruct a as [m d]. unfold SetClientNamespace. destruct (m.(mg_clients) !! id') as [c|] eqn:E; [|by apply gentle_same].
  destruct (m.(mg_namespaces) !! ns); [|by apply gentle_same].
  unfold save_clients. destruct (saveRegistry _ w d) as [u d']. cbn [snd].
  destruct (decide (id' = id)) as [->|Hne].
  - unfold gentle, keeps, stays, client_of. cbn. rewrite E, lookup_insert_eq. split.
    + intros r' [= <-]. by exists c.
    + intros r [= <-] Hst. by eexists.
  - apply gentle_same. unfold client_of. cbn. by rewrite lookup_insert_ne.
Qed.

Lemma Delete_clients id' w a : (Auth.Delete id' w a).2.1.(mg_clients) = delete id' a.1.(mg_clients).
Proof.
  destruct a as [m d]. unfold Auth.Delete. destruct (m.(mg_clients) !! id') eqn:E; cbn; [done|]. by rewrite delete_id.
Qed.

Lemma voucher_request_but env (req : VoucherReq) (s : Api) :
  ∀ id, id ≠ req.(vr_ClientID) → client_of (handleRegisterVoucher cy env (Ok req) s).2.(ap_auth) id = client_of s.(ap_auth) id.
Proof.
  intros id Hne. unfold handleRegisterVoucher. case_decide; [done|].
  assert (Hu : ∀ code now w a, (UseVoucher code now w a).2.1.(mg_clients) = a.1.(mg_clients)).
  { intros code now w [m d]. unfold UseVoucher. repeat case_match; by simplify_eq/=. }
  specialize (Hu req.(vr_Voucher) (rv_s env) (rv_write env 0) s.(ap_auth)).
  destruct (UseVoucher _ _ _ _) as [[v'|e] a]; unfold client_of in *; cbn in Hu; [|cbn; by rewrite Hu].
  destruct (put_application _ _ _ a) as [[u|e] a1] eqn:Hp; apply put_application_effect in Hp as [[Hp _] _];
    [|cbn; by rewrite Hp, Hu].
  assert (Hf : ∀ ns role, same_but req.(vr_ClientID) a1 (force_approve cy env req.(vr_ClientID) ns role a1).2).
  { intros ns role. unfold force_approve. destruct (Approve _ _ _ _ _ _ _ a1) as [[cert|e] a2] eqn:Ha;
      apply Approve_effect in Ha as [Ha _]; [done|]. destruct (_ || _); [|done].
    destruct (Approve _ _ _ _ _ _ _ (ResetClientStatus _ _ _)) as [r a3] eqn:Hb. apply Approve_effect in Hb as [Hb _].
    destruct (ResetClientStatus_effect req.(vr_ClientID) (rv_write env 4) a2) as [Hr _].
    cbn. etrans; [exact Ha|]. by etrans. }
  cbn zeta. set (ns := if decide (vc_Namespace v' = "") then _ else _). set (role := if decide (vc_Role v' = "") then _ else _).
  destruct (Hf ns role) as [Hf' _]. destruct (force_approve _ _ _ _ _ a1) as [[cert|e] a2]; cbn in *; by rewrite Hf', Hp, Hu.
Qed.

(** Which requests can register [id] anew, or remove it. *)
Definition registers (id : string) (r : Route) : Prop :=
  match r with
  | PostRegisterApply (Ok req) => req.(ay_ClientID) = id
  | PostRegisterVoucher (Ok req) => req.(vr_ClientID) = id
  | _ => False
  end.
Definition rekeys (id : string) (r : Route) : Prop :=
  match r with
  | PostRegisterVoucher (Ok req) => req.(vr_ClientID) = id
  | PostRevoke (Ok id') => id' = id
  | _ => False
  end.

Ltac pair_effect := match goal with |- context [let '(_, _) := ?x in _] => destruct x eqn:? end.

(** Requests that neither register nor remove a client. *)
Lemma handle_other env h r (s : Api) id :
  match r with PostRegisterApply _ | PostRegisterVoucher _ | PostRevoke _ => False | _ => True end →
  gentle id s.(ap_auth) (handle env h r s).2.(ap_auth).
Proof.
  intros Hr. destruct r; try done; try (by apply gentle_same); cbn [Http.handle].
  - unfold handleRegisterApprove. destruct body as [req|e]; [|by apply gentle_same].
    pose proof (Approve_gentle id req.(as_ClientID) req.(as_Namespace) req.(as_Role) (rv_serial env 0) (rv_s env)
      (rv_write env 0) s.(ap_auth)) as H. by destruct (Approve _ _ _ _ _ _ _ _).
  - unfold handleCreateVoucher. destruct body as [req|e]; [|by apply gentle_same].
    unfold CreateVoucher. destruct s.(ap_auth) as [m d] eqn:E. cbn zeta.
    destruct (saveVouchers _ _ d) as [[u|e] d']; by apply gentle_same.
  - unfold handleDeleteVoucher, DeleteVoucher. destruct s.(ap_auth) as [m d] eqn:E.
    destruct (m.(mg_vouchers) !! code); by apply gentle_same.
  - unfold handleCreateProxy. repeat case_match; by apply gentle_same.
  - unfold handleDeleteProxy. repeat case_match; by apply gentle_same.
  - unfold handleCreateRelay. repeat case_match; by apply gentle_same.
  - unfold handleDeleteRelay. repeat case_match; by apply gentle_same.
  - unfold handleAssignNamespace. destruct body as [req|e]; [|by apply gentle_same].
    pose proof (SetClientNamespace_gentle id req.(as_ClientID) req.(as_Namespace) req.(as_Role) (rv_write env 0)
      s.(ap_auth)) as H. by destruct (SetClientNamespace _ _ _ _ _).
  - unfold handleCall. repeat case_match; by apply gentle_same.
Qed.

Lemma apply_but env (req : ApplyReq) (s : Api) id :
  req.(ay_ClientID) ≠ id → gentle id s.(ap_auth) (handleRegisterApply ClientToken env (Ok req) s).2.(ap_auth).
Proof.
  intros Hne. unfold handleRegisterApply. case_match; [by apply gentle_same|].
  destruct (AddApplication _ _ _ _ _) as [r a] eqn:E. apply AddApplication_effect in E as [E _]. by eapply gentle_but.
Qed.

Lemma serve_keeps env h r (s : Api) id : ¬ registers id r → keeps id s.(ap_auth) (serve env h r s).2.(ap_auth).
Proof.
  intros Hr. unfold Http.serve. case_match; [by apply gentle_same|].
  destruct r; try (by apply handle_other); cbn [Http.handle]; (destruct body as [req|e]; [|by apply gentle_same]); cbn in Hr.
  - by apply apply_but.
  - apply gentle_same, voucher_request_but. congruence.
  - unfold handleRegisterRevoke. pose proof (Delete_clients req (rv_write env 0) s.(ap_auth)) as H'.
    destruct (Auth.Delete _ _ _) as [f a]. cbn in *. intros r'. unfold client_of. rewrite H'.
    intros [_ Hl]%lookup_delete_Some. by exists r'.
Qed.

Lemma serve_stays env h r (s : Api) id : ¬ rekeys id r → stays id s.(ap_auth) (serve env h r s).2.(ap_auth).
Proof.
  intros Hr. unfold Http.serve. case_match; [by apply gentle_same|].
  destruct r; try (by apply handle_other); cbn [Http.handle]; (destruct body as [req|e]; [|by apply gentle_same]); cbn in Hr.
  - unfold handleRegisterApply. destruct (negb _); [by apply gentle_same|].
    pose proof (AddApplication_stays id req.(ay_ClientID) req.(ay_PublicKey) (rv_s env) (rv_write env 0) s.(ap_auth)) as H'.
    by destruct (AddApplication _ _ _ _ _).
  - apply gentle_same, voucher_request_but. congruence.
  - unfold handleRegisterRevoke. pose proof (Delete_clients req (rv_write env 0) s.(ap_auth)) as H'.
    destruct (Auth.Delete _ _ _) as [f a]. cbn in *. intros c Hc Hst. exists c. split_and!; [|done..].
    unfold client_of in *. rewrite H'. by rewrite lookup_delete_ne.
Qed.

(** Of a request by [id] itself only its key comes in. *)
Lemma AddApplication_key id key now w a : ∀ r', client_of (AddApplication id key now w a).2 id = Some r' →
  r'.(cr_PublicKey) = key ∨ client_of a id = Some r'.
Proof.
  destruct a as [m d]. unfold AddApplication. destruct (m.(mg_clients) !! id) as [c|] eqn:E; [by right|].
  unfold client_of. destruct (saveRegistry _ w d) as [[u|e] d']; cbn; intros r'.
  - rewrite lookup_insert_eq. intros [= <-]. by left.
  - by rewrite lookup_delete_eq.
Qed.
Lemma save_pending_key id key m c w d : ∀ r',
  client_of (save_clients (set_clients m (<[id := to_pending key c]> m.(mg_clients))) w d).2 id = Some r' →
  r'.(cr_PublicKey) = key.
Proof. unfold save_clients. destruct (saveRegistry _ w d). unfold client_of. cbn. intros r'. rewrite lookup_insert_eq. by intros [= <-]. Qed.

Definition key_in (key : string) (id : string) (a a' : Manager * directory) : Prop :=
  ∀ r', client_of a' id = Some r' →
    r'.(cr_PublicKey) = key ∨ ∃ r, client_of a id = Some r ∧ r'.(cr_PublicKey) = r.(cr_PublicKey).
Lemma key_in_trans key id a b c : key_in key id a b → key_in key id b c → key_in key id a c.
Proof. intros H1 H2 r' [?|(r & Hr & ->)]%H2; [by left|]. by apply H1. Qed.
Lemma keeps_key_in key id a a' : keeps id a a' → key_in key id a a'.
Proof. intros H r' Hr'%H. by right. Qed.

Lemma put_application_key env id key a : key_in key id a (put_application env id key a).2.
Proof.
  unfold put_application. pose proof (AddApplication_key id key (rv_s env) (rv_write env 1) a) as H.
  assert (H1 : key_in key id a (AddApplication id key (rv_s env) (rv_write env 1) a).2).
  { intros r' [?|?]%H; [by left|right; by exists r']. }
  destruct (AddApplication _ _ _ _ a) as [[u|e] a1]; [exact H1|]. case_decide; [exact H1|].
  eapply key_in_trans; [exact H1|]. destruct a1 as [m d]. unfold UpdatePublicKey.
  destruct (m.(mg_clients) !! id) as [c|] eqn:E; [|by apply keeps_key_in, gentle_same].
  intros r' Hr'. left. by eapply save_pending_key.
Qed.

Lemma force_approve_keeps env id ns role a : keeps id a (force_approve cy env id ns role a).2.
Proof.
  assert (Ht : ∀ a b c, keeps id a b → keeps id b c → keeps id a c).
  { intros x y z H1 H2 r' (r & Hr & ->)%H2. by apply H1. }
  unfold force_approve. pose proof (Approve_gentle id id ns role (rv_serial env 0) (rv_s env) (rv_write env 3) a) as [H _].
  destruct (Approve _ _ _ _ _ _ _ a) as [[cert|e] a1]; [exact H|]. destruct (_ || _); [|exact H].
  eapply Ht; [exact H|]. eapply Ht; [|apply Approve_gentle].
  destruct a1 as [m d]. unfold ResetClientStatus. destruct (m.(mg_clients) !! id) as [c|] eqn:E; [|by apply gentle_same].
  intros r' Hr'%save_pending_key. by exists c.
Qed.

(** What the registry promises of its records holds in memory. *)
Lemma registry_step_clients a l b :
  registry_step cy a l b → l = RTau → clients_ok cy a.1.(mg_clients) → clients_ok cy b.1.(mg_clients).
Proof.
  intros Hs Hl Hok. destruct Hs as [id key now w [m d] r md' _ E|id key w [m d] r md' _ E|id w [m d] _
    |id ns role serial now w [m d] r md' _ E|id w [m d] r md' _ E|id ns role w [m d] r md' _ E|m d m' d' E _ _|]; try done.
  - unfold AddApplication in E. destruct (mg_clients m !! id); [by simplify_eq|].
    destruct (saveRegistry _ w d) as [[u|e] d']; injection E as <- <-; cbn; [|by apply clients_ok_delete, clients_ok_insert; [|split; [|left]]].
    apply clients_ok_insert; [done|]. split; [done|by left].
  - unfold UpdatePublicKey, save_clients in E. destruct (mg_clients m !! id) as [c|] eqn:Hc; [|by simplify_eq].
    destruct (saveRegistry _ w d). injection E as <- <-. cbn. apply clients_ok_insert; [done|]. by apply to_pending_ok, Hok.
  - unfold ResetClientStatus, save_clients. destruct (mg_clients m !! id) as [c|] eqn:Hc; [|done].
    destruct (saveRegistry _ w d). cbn. apply clients_ok_insert; [done|]. by apply to_pending_ok, Hok.
  - unfold Approve in E. destruct (mg_clients m !! id) as [c|] eqn:Hc; [|by simplify_eq].
    destruct (negb _); [by simplify_eq|]. destruct (signClientCertificate _ _ _ _ _ _) as [cert|e] eqn:Hs; [|by simplify_eq].
    destruct (Hok id c Hc) as [Hid _].
    destruct (saveRegistry _ w d) as [[u|e] d']; injection E as <- <-; cbn;
      (apply clients_ok_insert; [done|]); (split; [done|]); right; (split; [done|]); by exists serial, now.
  - pose proof (Delete_clients id w (m, d)) as H. rewrite E in H. cbn in H. rewrite H. by apply clients_ok_delete.
  - unfold SetClientNamespace, save_clients in E. destruct (mg_clients m !! id) as [c|] eqn:Hc; [|by simplify_eq].
    destruct (mg_namespaces m !! ns); [|by simplify_eq]. destruct (saveRegistry _ w d). injection E as <- <-. cbn.
    apply clients_ok_insert; [done|]. exact (Hok id c Hc).
  - cbn in *. by rewrite E.
Qed.

Lemma serve_clients env h r (s : Api) :
  clean_env env → clients_ok cy (manager s).(mg_clients) → clients_ok cy (manager (serve env h r s).2).(mg_clients).
Proof.
  intros He. pose proof (serve_steps APIKey ClientToken version jwtSecret j cy env h r s He) as Hs. unfold manager.
  induction Hs as [|a b d Hab _ IH]; [done|]. intros Ha. apply IH. by eapply registry_step_clients.
Qed.
End registry.

(** ** Enrolment *)

Section enrolment.
Context {W Provider : Type}.
Context `{!JsonCodec (gmap string ClientRecord)} `{!JsonCodec (gmap string Voucher)}.
Context (APIKey ClientToken version : string) (jwtSecret : bytes) (j : JWT) (cy : Crypto).
Context {kl : KeyLib} `{!KeyLaws cy kl}.
Context (c : ClientConfig).
Abbreviation Api := (@Api W Provider).
Abbreviation World := (@World W Provider).
Abbreviation serve := (serve APIKey ClientToken version jwtSecret j cy).
Abbreviation ask := (ask APIKey ClientToken version jwtSecret j cy).
Abbreviation query_step := (query_step APIKey ClientToken version jwtSecret j cy c).
Abbreviation apply_step := (apply_step APIKey ClientToken version jwtSecret j cy c).
Abbreviation poll_step := (poll_step APIKey ClientToken version jwtSecret j cy c).
Abbreviation enrol_step := (enrol_step APIKey ClientToken version jwtSecret j cy (kl := kl) c).
Abbreviation boot_env := (boot_env kl).

Record paths_ok : Prop := {
  private_public : c.(cc_privateKeyPath) ≠ c.(cc_publicKeyPath);
  private_cert : c.(cc_privateKeyPath) ≠ c.(cc_certPath);
  public_cert : c.(cc_publicKeyPath) ≠ c.(cc_certPath);
}.
Hypothesis paths : paths_ok.

Lemma ask_server n env r (s : Api) a s' : ask n env r s = (a, s') → s' = s ∨ s' = (serve env ∅ r s).2.
Proof. destruct n; cbn; [by intros [= <- <-]; left|by intros [= <- <-]; right|]. destruct (serve env ∅ r s). intros [= <- <-]. by right. Qed.

Lemma ask_clients n env r (s : Api) a s' :
  ask n env r s = (a, s') → clean_env env → clients_ok cy (manager s).(mg_clients) → clients_ok cy (manager s').(mg_clients).
Proof. intros [->| ->]%ask_server He Hs; [done|]. by apply serve_clients. Qed.

(** The list of the server holds the certificate of the record. *)
Lemma ask_list n env (s : Api) a s' :
  ask n env GetRegisterList s = (a, s') → clients_ok cy (manager s).(mg_clients) →
  s' = s ∧ ∀ status cert, checkApprovalStatus c a = Ok (status, cert) → status = "approved" →
    ∃ r, client_of s.(ap_auth) c.(cc_id) = Some r ∧ r.(cr_Status) = "approved" ∧ r.(cr_Certificate) = cert.
Proof.
  intros Ha Hok. destruct n; cbn in Ha; injection Ha as <- <-; (split; [done|]); [done..|].
  intros status cert. unfold checkApprovalStatus. cbn -[GetApproved].
  destruct (List.find _ _) as [r|] eqn:E; [|by intros [= <- <-]]. intros [= <- <-] _.
  apply List.find_some in E as [Hin Hid%bool_decide_eq_true]. apply list_elem_of_In in Hin.
  unfold GetApproved, with_status in Hin. apply list_elem_of_filter in Hin as [Hst Hin].
  apply list_elem_of_fmap in Hin as ([id' r'] & -> & Hl%elem_of_map_to_list). cbn in *.
  destruct (Hok _ _ Hl) as [Hid' _]. exists r'. split_and!; [|done..]. unfold client_of. unfold manager in Hl. congruence.
Qed.

Lemma approved_listed env (s : Api) r :
  clients_ok cy (manager s).(mg_clients) → client_of s.(ap_auth) c.(cc_id) = Some r → r.(cr_Status) = "approved" →
  ask Answered env GetRegisterList s = (Ok (handleRegisterList s), s) ∧
  checkApprovalStatus c (Ok (handleRegisterList s)) = Ok ("approved", r.(cr_Certificate)).
Proof.
  intros Hok Hr Hst. split; [done|].
  assert (Hin : r ∈ GetApproved (manager s)).
  { apply list_elem_of_filter. split; [done|]. apply list_elem_of_fmap. exists (c.(cc_id), r). split; [done|].
    by apply elem_of_map_to_list. }
  destruct (ask_list Answered env s _ _ eq_refl Hok) as [_ Hl]. cbn -[checkApprovalStatus GetApproved] in Hl.
  destruct (checkApprovalStatus c (Ok (handleRegisterList s))) as [[status cert]|e] eqn:Hc.
  - assert (status = "approved") as ->.
    { unfold checkApprovalStatus in Hc. cbn -[GetApproved] in Hc.
      destruct (List.find _ _) as [r0|] eqn:E; [by injection Hc|].
      eapply List.find_none in E; [|by apply list_elem_of_In]. apply bool_decide_eq_false in E.
      exfalso. apply E. by destruct (Hok c.(cc_id) r Hr) as [? _]. }
    destruct (Hl _ _ eq_refl eq_refl) as (r0 & Hr0 & _ & <-). rewrite Hr in Hr0. by injection Hr0 as ->.
  - unfold checkApprovalStatus in Hc. cbn -[GetApproved] in Hc. by destruct (List.find _ _).
Qed.

(** Files of one key. *)
Definition public_file (d : directory) (k : kl.(kl_key)) : Prop :=
  ∃ pub, kl.(kl_public) k = Ok pub ∧ d !! c.(cc_publicKeyPath) = Some pub.
Definition private_file (d : directory) (k : kl.(kl_key)) : Prop :=
  ∃ priv, kl.(kl_private) k = Ok priv ∧ d !! c.(cc_privateKeyPath) = Some priv.
Definition cert_file (d : directory) (k : kl.(kl_key)) : Prop :=
  ∃ pub serial now cert, kl.(kl_public) k = Ok pub ∧ d !! c.(cc_certPath) = Some (list_ascii_of_string cert) ∧
    signClientCertificate cy serial now (string_of_list_ascii pub) c.(cc_id) 365 = Ok cert.

Lemma load_pair d k : private_file d k → cert_file d k → LoadX509KeyPair (kl := kl) c d = Ok ().
Proof.
  intros (priv & Hp & Hd) (pub & serial & now & cert & Hpub & Hc & Hs). unfold LoadX509KeyPair, ReadFile.
  rewrite Hc. cbn. rewrite Hd. cbn. by destruct (pair_same _ _ _ _ _ _ _ Hpub Hp Hs) as [_ ->].
Qed.

(** *** Every connection has its certificate *)

Definition clean_boot (env : boot_env) : Prop :=
  clean_write env.(bt_write_private) ∧ clean_write env.(bt_write_public) ∧ clean_write env.(bt_write_cert).

(** The files belong to one key, and so does the record at the server. *)
Record enrol_inv (x : World) : Prop := {
  ei_keys : is_Some (x.(wd_dir) !! c.(cc_publicKeyPath)) →
    ∃ k, public_file x.(wd_dir) k ∧ private_file x.(wd_dir) k;
  ei_phase : x.(wd_phase) ∉ [Loading; Exited] → is_Some (x.(wd_dir) !! c.(cc_publicKeyPath));
  ei_cert : is_Some (x.(wd_dir) !! c.(cc_certPath)) →
    ∃ k, public_file x.(wd_dir) k ∧ private_file x.(wd_dir) k ∧ cert_file x.(wd_dir) k;
  ei_conn : x.(wd_phase) = Connecting → is_Some (x.(wd_dir) !! c.(cc_certPath));
  ei_server : ∀ r, client_of x.(wd_server).(ap_auth) c.(cc_id) = Some r →
    ∃ pub, x.(wd_dir) !! c.(cc_publicKeyPath) = Some pub ∧ r.(cr_PublicKey) = string_of_list_ascii pub;
  ei_registry : clients_ok cy (manager x.(wd_server)).(mg_clients);
}.

Lemma clean_result name data w d r d' :
  clean_write w → WriteFile name data w d = (r, d') → (is_ok r = true ∧ d' = <[name := data]> d) ∨ (is_ok r = false ∧ d' = d).
Proof. intros [-> | ->] [= <- <-]; [by left|by right]. Qed.

(** A fresh pair, when nothing depends on the old one. *)
Lemma generate_spec (env : boot_env) d r d' :
  clean_boot env → generate c env d = (r, d') → d !! c.(cc_publicKeyPath) = None →
  d' !! c.(cc_certPath) = d !! c.(cc_certPath) ∧
  ((is_ok r = true ∧ ∃ k, public_file d' k ∧ private_file d' k) ∨
   (is_ok r = false ∧ d' !! c.(cc_publicKeyPath) = None)).
Proof.
  destruct paths as [P1 P2 P3]. intros (W1 & W2 & _) Hg Hn. unfold generate, GenerateKeyPair in Hg.
  destruct env.(bt_key) as [k|e]; cbn in Hg; [|injection Hg as <- <-; split; [done|by right]].
  destruct (kl.(kl_private) k) as [priv|e] eqn:Ep; [|injection Hg as <- <-; split; [done|by right]].
  destruct (WriteFile _ _ _ d) as [r1 d1] eqn:E1. apply clean_result in E1 as [[Hr ->]|[Hr ->]]; [| |done].
  2:{ destruct r1; [done|]. injection Hg as <- <-. split; [done|by right]. }
  destruct r1 as [u|]; [|done]. destruct (kl.(kl_public) k) as [pub|e] eqn:Eq.
  2:{ injection Hg as <- <-. rewrite !lookup_insert_ne by done. split; [done|]. by right. }
  apply clean_result in Hg as [[Hr2 ->]|[Hr2 ->]]; [|by rewrite !lookup_insert_ne by done; split; [done|right]|done].
  rewrite !lookup_insert_ne by done. split; [done|]. left. split; [done|]. exists k. split.
  - exists pub. by rewrite lookup_insert_eq.
  - exists priv. by rewrite lookup_insert_ne, lookup_insert_eq by done.
Qed.

Lemma save_cert_spec (env : boot_env) k r d p d' :
  clean_boot env → clients_ok cy {[c.(cc_id) := r]} → public_file d k → private_file d k →
  (∃ pub, d !! c.(cc_publicKeyPath) = Some pub ∧ r.(cr_PublicKey) = string_of_list_ascii pub) →
  r.(cr_Status) = "approved" → save_cert c env r.(cr_Certificate) d = (p, d') →
  (p = Connecting ∧ d' !! c.(cc_publicKeyPath) = d !! c.(cc_publicKeyPath) ∧
     public_file d' k ∧ private_file d' k ∧ cert_file d' k) ∨ (p = Exited ∧ d' = d).
Proof.
  destruct paths as [P1 P2 P3]. intros (_ & _ & W3) Hok Hpub Hpriv (pub & Hp & Hkey) Hst. unfold save_cert.
  destruct (WriteFile _ _ _ d) as [r1 d1] eqn:E1. apply clean_result in E1 as [[Hr ->]|[Hr ->]]; [|by destruct r1; [done|intros [= <- <-]; right]|done].
  destruct r1; [|done]. intros [= <- <-]. left. unfold public_file, private_file, cert_file.
  rewrite !lookup_insert_ne, lookup_insert_eq by done. split_and!; [done..|].
  destruct (Hok c.(cc_id) r) as [_ [[Hst' _]|[_ (serial & now & Hs)]]]; [by rewrite lookup_singleton_eq|congruence|].
  destruct Hpub as (pub' & Hk & Hd). rewrite Hp in Hd. injection Hd as <-. rewrite Hkey in Hs.
  by exists pub, serial, now, r.(cr_Certificate).
Qed.

(** The files as they are, another phase and server. *)
Lemma inv_same_files x p s :
  enrol_inv x → (p ∉ [Loading; Exited] → x.(wd_phase) ∉ [Loading; Exited]) →
  (p = Connecting → is_Some (x.(wd_dir) !! c.(cc_certPath))) →
  clients_ok cy (manager s).(mg_clients) →
  (∀ r, client_of s.(ap_auth) c.(cc_id) = Some r →
     ∃ pub, x.(wd_dir) !! c.(cc_publicKeyPath) = Some pub ∧ r.(cr_PublicKey) = string_of_list_ascii pub) →
  enrol_inv (mkWorld p x.(wd_dir) s).
Proof. intros [H1 H2 H3 H4 H5 H6] Hp Hc Hs Hr. by split; cbn; auto. Qed.

(** The certificate of the record is stored. *)
Lemma inv_save x (env : boot_env) r p d' s :
  enrol_inv x → clean_boot env → client_of x.(wd_server).(ap_auth) c.(cc_id) = Some r → r.(cr_Status) = "approved" →
  save_cert c env r.(cr_Certificate) x.(wd_dir) = (p, d') → s = x.(wd_server) → enrol_inv (mkWorld p d' s).
Proof.
  intros [H1 H2 H3 H4 H5 H6] He Hr Hst Hs ->. destruct (H5 _ Hr) as (pub & Hp & Hk).
  destruct (H1 ltac:(by exists pub)) as (k & Hpub & Hpriv).
  eapply (save_cert_spec env k r) in Hs; try done.
  - destruct Hs as [(-> & Hsame & A1 & A2 & A3)|[-> ->]].
    + assert (is_Some (d' !! c.(cc_publicKeyPath))) by (rewrite Hsame; by exists pub).
      assert (is_Some (d' !! c.(cc_certPath))) by (destruct A3 as (? & ? & ? & ? & _ & -> & _); by eexists).
      split; cbn; try done; [by exists k|by exists k|]. rewrite Hsame. exact H5.
    + by split; cbn.
  - intros id' r'. rewrite lookup_singleton_Some. intros [<- <-]. by apply H6.
  - by exists pub.
Qed.

Lemma inv_load x (env : boot_env) : enrol_inv x → clean_boot env → x.(wd_phase) = Loading → enrol_inv (load_step c env x).
Proof.
  intros Hi He Hph. pose proof Hi as [H1 H2 H3 H4 H5 H6]. unfold load_step, load_keys.
  destruct env.(bt_mkdir) as [u|e]; [|apply inv_same_files; try done; intros Hn; exfalso; apply Hn; right; by left].
  unfold fileExists. destruct (decide (is_Some (x.(wd_dir) !! c.(cc_publicKeyPath)))) as [Hpub|Hpub].
  - destruct (H1 Hpub) as (k & _ & priv & _ & Hpriv). rewrite (bool_decide_eq_true_2 _ Hpub), Hpriv. cbn.
    by split; cbn; auto.
  - rewrite (bool_decide_eq_false_2 _ Hpub), orb_true_r. destruct (generate c env x.(wd_dir)) as [r d'] eqn:Hg.
    assert (Hn : x.(wd_dir) !! c.(cc_publicKeyPath) = None) by by apply eq_None_not_Some.
    assert (Hncert : x.(wd_dir) !! c.(cc_certPath) = None).
    { apply eq_None_not_Some. intros (k & (pub & _ & Hd) & _)%H3. by rewrite Hn in Hd. }
    assert (Hnr : client_of x.(wd_server).(ap_auth) c.(cc_id) = None).
    { apply eq_None_not_Some. intros [r0 (pub & Hd & _)%H5]. by rewrite Hn in Hd. }
    destruct (generate_spec env _ _ _ He Hg Hn) as [Hc' [[Hr (k & A1 & A2)]|[Hr Hn']]]; rewrite Hr.
    + pose proof A1 as (pub & _ & Hd). split; cbn; rewrite ?Hc', ?Hncert, ?Hnr; try done. by exists k.
    + split; cbn; rewrite ?Hc', ?Hncert, ?Hnr, ?Hn'; try done. intros Hx. exfalso. apply Hx. right. by left.
Qed.

Lemma inv_start x (env : boot_env) : enrol_inv x → x.(wd_phase) = Starting → enrol_inv (start_step c env x).
Proof.
  intros Hi Hph. pose proof Hi as [H1 H2 H3 H4 H5 H6].
  assert (Hpub : is_Some (x.(wd_dir) !! c.(cc_publicKeyPath))) by (apply H2; rewrite Hph; set_solver).
  destruct (H1 Hpub) as (k & _ & priv & _ & Hpriv).
  assert (Hd : drop_mismatch c env x.(wd_dir) = x.(wd_dir)).
  { unfold drop_mismatch. destruct (fileExists c.(cc_certPath) x.(wd_dir)) eqn:Ec; [|done].
    unfold fileExists in Ec. apply bool_decide_eq_true in Ec. destruct (H3 Ec) as (k' & _ & B2 & B3).
    rewrite (load_pair _ _ B2 B3). by rewrite andb_false_r. }
  unfold start_step, run_keys. rewrite Hd. unfold fileExists. rewrite Hpriv. cbn.
  apply (inv_same_files x); try done; [intros _; rewrite Hph; set_solver|].
  by case_bool_decide.
Qed.

Lemma inv_query x n renv (env : boot_env) :
  enrol_inv x → clean_env renv → clean_boot env → x.(wd_phase) = Querying → enrol_inv (query_step n renv env x).
Proof.
  intros Hi Hr He Hph. unfold ClientStart.query_step. destruct (ask n renv GetRegisterList x.(wd_server)) as [a s] eqn:Ha.
  destruct (ask_list _ _ _ _ _ Ha (ei_registry _ Hi)) as [-> Hl]. unfold run_query, put.
  assert (Hsame : enrol_inv (mkWorld Applying x.(wd_dir) x.(wd_server))).
  { apply inv_same_files; try done; [intros _; rewrite Hph; set_solver|apply Hi|apply Hi]. }
  destruct (checkApprovalStatus c a) as [[status cert]|e] eqn:Hc; [|done].
  case_decide as Hd; [|done]. destruct Hd as [-> _]. destruct (kl.(kl_pair) _ _); [|done].
  destruct (Hl _ _ eq_refl eq_refl) as (r & Hcl & Hst & <-).
  destruct (save_cert c env r.(cr_Certificate) x.(wd_dir)) as [p d'] eqn:Hs. by eapply inv_save.
Qed.

Lemma inv_poll x n renv (env : boot_env) :
  enrol_inv x → clean_env renv → clean_boot env → x.(wd_phase) = Waiting → enrol_inv (poll_step n renv env x).
Proof.
  intros Hi Hr He Hph. unfold ClientStart.poll_step. destruct (ask n renv GetRegisterList x.(wd_server)) as [a s] eqn:Ha.
  destruct (ask_list _ _ _ _ _ Ha (ei_registry _ Hi)) as [-> Hl]. unfold run_poll, put.
  assert (Hsame : enrol_inv (mkWorld Waiting x.(wd_dir) x.(wd_server))) by (rewrite <-Hph; by destruct x).
  destruct (checkApprovalStatus c a) as [[status cert]|e] eqn:Hc; [|done].
  case_decide as Hd; [|done]. destruct Hd as [-> _].
  destruct (Hl _ _ eq_refl eq_refl) as (r & Hcl & Hst & <-).
  destruct (save_cert c env r.(cr_Certificate) x.(wd_dir)) as [p d'] eqn:Hs. by eapply inv_save.
Qed.

(** A registration brings in the key of its request, and its answer is the
    certificate of the record. *)
Lemma voucher_request renv req (s s' : Api) resp :
  serve renv ∅ (PostRegisterVoucher (Ok req)) s = (resp, s') →
  key_in req.(vr_PublicKey) req.(vr_ClientID) s.(ap_auth) s'.(ap_auth) ∧
  ∀ cert, voucher_answer (Ok resp) = Ok cert →
    ∃ r, client_of s'.(ap_auth) req.(vr_ClientID) = Some r ∧ r.(cr_Status) = "approved" ∧ r.(cr_Certificate) = cert ∧
      ∃ serial now, signClientCertificate cy serial now req.(vr_PublicKey) req.(vr_ClientID) 365 = Ok cert.
Proof.
  cbn. unfold handleRegisterVoucher. case_decide; [by intros [= <- <-]; split; [apply keeps_key_in, gentle_same|]|].
  assert (Hu : ∀ code now w a, client_of (UseVoucher code now w a).2 req.(vr_ClientID) = client_of a req.(vr_ClientID)).
  { intros code now w [m d]. unfold UseVoucher. repeat case_match; by simplify_eq/=. }
  specialize (Hu req.(vr_Voucher) (rv_s renv) (rv_write renv 0) s.(ap_auth)).
  destruct (UseVoucher _ _ _ _) as [[v'|e] a]; cbn [snd] in Hu; [|intros [= <- <-]; split; [by apply keeps_key_in, gentle_same|done]].
  pose proof (put_application_key renv req.(vr_ClientID) req.(vr_PublicKey) a) as Hk.
  assert (Hk0 : key_in req.(vr_PublicKey) req.(vr_ClientID) s.(ap_auth) a) by by apply keeps_key_in, gentle_same.
  destruct (put_application _ _ _ a) as [[u|e] a1] eqn:Hput; cbn [snd] in Hk;
    [|intros [= <- <-]; split; [by eapply key_in_trans|done]].
  apply put_application_effect in Hput as [_ Hput]. specialize (Hput eq_refl).
  cbn zeta. set (ns := if decide (vc_Namespace v' = "") then _ else _). set (role := if decide (vc_Role v' = "") then _ else _).
  pose proof (force_approve_keeps cy renv req.(vr_ClientID) ns role a1) as Hf.
  destruct (force_approve _ _ _ _ _ a1) as [[cert|e] a2] eqn:E; cbn [snd] in Hf; intros [= <- <-].
  - split; [eapply key_in_trans; [exact Hk0|]; eapply key_in_trans; [exact Hk|by eapply keeps_key_in]|].
    intros cert' Hv. assert (cert' = cert) as -> by 
      (unfold voucher_answer in Hv; cbn in Hv; destruct (decide (0%Z ≠ 0%Z)) in Hv; [done|];
       destruct (decide (cert = "")) in Hv; [done|]; by injection Hv).
    apply force_approve_effect in E as [_ (key & serial & Hkey & r & Hr & Hst & _ & Hc & _ & _ & Hsign)].
    rewrite Hput in Hkey. injection Hkey as <-. exists r. split_and!; [done..|]. by exists serial, (rv_s renv).
  - split; [|done]. eapply key_in_trans; [exact Hk0|]. eapply key_in_trans; [exact Hk|by eapply keeps_key_in].
Qed.

Lemma apply_request renv req (s : Api) :
  key_in req.(ay_PublicKey) req.(ay_ClientID) s.(ap_auth) (serve renv ∅ (PostRegisterApply (Ok req)) s).2.(ap_auth).
Proof.
  cbn. unfold handleRegisterApply. destruct (negb _); [by apply keeps_key_in, gentle_same|].
  pose proof (AddApplication_key req.(ay_ClientID) req.(ay_PublicKey) (rv_s renv) (rv_write renv 0) s.(ap_auth)) as H.
  destruct (AddApplication _ _ _ _ _) as [r a]. cbn in *. intros r' [?|?]%H; [by left|right; by exists r'].
Qed.

Lemma ask_apply n renv req (s : Api) a s' :
  ask n renv (PostRegisterApply (Ok req)) s = (a, s') →
  key_in req.(ay_PublicKey) req.(ay_ClientID) s.(ap_auth) s'.(ap_auth).
Proof. intros [->| ->]%ask_server; [by apply keeps_key_in, gentle_same|apply apply_request]. Qed.

Lemma ask_voucher n renv req (s : Api) a s' :
  ask n renv (PostRegisterVoucher (Ok req)) s = (a, s') →
  key_in req.(vr_PublicKey) req.(vr_ClientID) s.(ap_auth) s'.(ap_auth) ∧
  ∀ cert, voucher_answer a = Ok cert →
    ∃ r, client_of s'.(ap_auth) req.(vr_ClientID) = Some r ∧ r.(cr_Status) = "approved" ∧ r.(cr_Certificate) = cert ∧
      ∃ serial now, signClientCertificate cy serial now req.(vr_PublicKey) req.(vr_ClientID) 365 = Ok cert.
Proof.
  destruct (serve renv ∅ (PostRegisterVoucher (Ok req)) s) as [resp s1] eqn:E.
  pose proof (voucher_request _ _ _ _ _ E) as [H1 H2].
  destruct n; unfold ClientStart.ask; rewrite ?E; intros [= <- <-]; cbn [snd];
    [by split; [apply keeps_key_in, gentle_same|]|by split|by split].
Qed.

Lemma key_in_server x pub s' :
  enrol_inv x → x.(wd_dir) !! c.(cc_publicKeyPath) = Some pub →
  key_in (string_of_list_ascii pub) c.(cc_id) x.(wd_server).(ap_auth) s'.(@ap_auth W Provider) →
  ∀ r, client_of s'.(ap_auth) c.(cc_id) = Some r →
    ∃ pub, x.(wd_dir) !! c.(cc_publicKeyPath) = Some pub ∧ r.(cr_PublicKey) = string_of_list_ascii pub.
Proof.
  intros Hi Hp Hk r [Hr|(r0 & Hr0 & ->)]%Hk; [by exists pub|]. by apply (ei_server _ Hi).
Qed.

Lemma inv_apply x n renv (env : boot_env) :
  enrol_inv x → clean_env renv → clean_boot env → x.(wd_phase) = Applying → enrol_inv (apply_step n renv env x).
Proof.
  intros Hi Hr He Hph. destruct (ei_phase _ Hi) as [pub Hp]; [rewrite Hph; set_solver|].
  assert (Hsame : ∀ p s', (p = Applying ∨ p = Waiting ∨ p = Exited) → clients_ok cy (manager s').(mg_clients) →
    key_in (string_of_list_ascii pub) c.(cc_id) x.(wd_server).(ap_auth) s'.(ap_auth) → enrol_inv (mkWorld p x.(wd_dir) s')).
  { intros p s' Hps Hs Hk. apply (inv_same_files x); try done; [intros _; rewrite Hph; set_solver|naive_solver|].
    by eapply key_in_server. }
  unfold ClientStart.apply_step, run_apply. case_decide as Hv.
  - unfold submitVoucherRegistration, publicKeyText, ReadFile. rewrite Hp. cbn [fmap res_fmap].
    destruct (ask _ _ _ _) as [a s'] eqn:Ha. pose proof (ask_voucher _ _ _ _ _ _ Ha) as [Hk Hc].
    eapply ask_clients in Ha; [|done|apply Hi]. cbn in Hk, Hc.
    destruct (voucher_answer a) as [cert|e]; [|apply Hsame; auto].
    destruct (Hc _ eq_refl) as (r & Hcl & Hst & <- & _).
    destruct (save_cert c env r.(cr_Certificate) x.(wd_dir)) as [p d'] eqn:Hs.
    eapply (inv_save (mkWorld Applying x.(wd_dir) s')); [by apply Hsame; [left|..]|done..].
  - unfold submitRegistration, publicKeyText, ReadFile. rewrite Hp. cbn [fmap res_fmap].
    destruct (ask _ _ _ _) as [a s'] eqn:Ha. pose proof (ask_apply _ _ _ _ _ _ Ha) as Hk. cbn in Hk.
    eapply ask_clients in Ha; [|done|apply Hi].
    destruct (registration_answer a) as [u|e]; [apply Hsame; auto|].
    destruct (Contains e _); apply Hsame; auto.
Qed.

Lemma inv_server x renv h r :
  enrol_inv x → clean_env renv → ¬ registers c.(cc_id) r →
  enrol_inv (mkWorld x.(wd_phase) x.(wd_dir) (serve renv h r x.(wd_server)).2).
Proof.
  intros Hi Hr Hreg. apply (inv_same_files x); try done; [apply Hi|apply serve_clients; [done|apply Hi]|].
  intros r' Hr'. destruct (serve_keeps APIKey ClientToken version jwtSecret j cy renv h r x.(wd_server) c.(cc_id) Hreg r' Hr')
    as (r0 & Hr0 & ->). by apply (ei_server _ Hi).
Qed.

Lemma enrol_step_inv x y :
  enrol_step clean_boot (λ r, ¬ registers c.(cc_id) r) x y → enrol_inv x → enrol_inv y.
Proof.
  intros Hs Hi. destruct Hs; eauto using inv_load, inv_start, inv_query, inv_apply, inv_poll, inv_server.
  - apply (inv_same_files x); try done; [intros Hn; exfalso; apply Hn; by left|apply Hi|apply Hi].
  - apply (inv_same_files x); try done; [intros Hn; exfalso; apply Hn; right; by left|apply Hi|apply Hi].
Qed.

(** A client without files that the server does not know. *)
Definition fresh (x : World) : Prop :=
  x.(wd_phase) = Loading ∧ x.(wd_dir) !! c.(cc_publicKeyPath) = None ∧ x.(wd_dir) !! c.(cc_certPath) = None ∧
  client_of x.(wd_server).(ap_auth) c.(cc_id) = None ∧ clients_ok cy (manager x.(wd_server)).(mg_clients).

Lemma enrol_reachable x0 x :
  fresh x0 → rtc (enrol_step clean_boot (λ r, ¬ registers c.(cc_id) r)) x0 x → enrol_inv x.
Proof.
  intros (F1 & F2 & F3 & F4 & F5) Hs.
  assert (Hi : enrol_inv x0).
  { split; rewrite ?F1, ?F2, ?F3, ?F4; try done; try (by intros [? ?]). intros Hn. exfalso. apply Hn. by left. }
  clear F1 F2 F3 F4 F5. induction Hs as [|a b d Hab _ IH]; [done|]. apply IH. by eapply enrol_step_inv.
Qed.

(** C12. A client that starts without files and registers under an id only it
    uses: however it is stopped and started again and whatever of its
    requests is lost, as long as a write of a file that fails leaves the file
    alone, it connects only with a certificate that goes with its private
    key, and what the server holds of it is its public key.  Once it is
    approved, the next answer of the server brings it there. *)
Theorem enrolment_sound (x0 x : World) :
  fresh x0 → rtc (enrol_step clean_boot (λ r, ¬ registers c.(cc_id) r)) x0 x →
  (x.(wd_phase) = Connecting → LoadX509KeyPair (kl := kl) c x.(wd_dir) = Ok ()) ∧
  (∀ r, client_of x.(wd_server).(ap_auth) c.(cc_id) = Some r →
     publicKeyText c x.(wd_dir) = Ok r.(cr_PublicKey)) ∧
  (∀ renv env r, x.(wd_phase) = Waiting → client_of x.(wd_server).(ap_auth) c.(cc_id) = Some r →
     r.(cr_Status) = "approved" → clean_env renv → clean_boot env → env.(bt_write_cert) = WriteDone →
     let x' := poll_step Answered renv env x in
     x'.(wd_phase) = Connecting ∧ LoadX509KeyPair (kl := kl) c x'.(wd_dir) = Ok ()).
Proof using paths KeyLaws0.
  intros Hf Hs. pose proof (enrol_reachable _ _ Hf Hs) as Hi. split_and!.
  - intros Hc. destruct (ei_cert _ Hi (ei_conn _ Hi Hc)) as (k & _ & A1 & A2). by eapply load_pair.
  - intros r (pub & Hp & ->)%(ei_server _ Hi). unfold publicKeyText, ReadFile. by rewrite Hp.
  - intros renv env r Hw Hr Hst Hre Hbe Hd x'.
    assert (Hp : x'.(wd_phase) = Connecting); [|].
    + subst x'. unfold ClientStart.poll_step. destruct (approved_listed renv _ r (ei_registry _ Hi) Hr Hst) as [-> Hl].
      unfold run_poll. rewrite Hl. destruct (ei_server _ Hi _ Hr) as (pub & Hp & Hk).
      destruct (ei_keys _ Hi) as (k & (pub' & Hpub & Hp') & priv & Hpriv & _); [by exists pub|].
      rewrite Hp in Hp'. injection Hp' as <-. destruct (ei_registry _ Hi _ _ Hr) as [_ [[? _]|[_ (serial & now & Hsign)]]]; [congruence|].
      rewrite Hk in Hsign. destruct (pair_same _ _ _ _ _ _ _ Hpub Hpriv Hsign) as [Hne _].
      rewrite decide_True by done. unfold save_cert. by rewrite Hd.
    + split; [done|]. assert (Hi' : enrol_inv x') by by apply inv_poll.
      destruct (ei_cert _ Hi' (ei_conn _ Hi' Hp)) as (k & _ & A1 & A2). by eapply load_pair.
Qed.

(** *** A client that lost its key *)

Section lost.
(** The key the server knows, and the certificate made for it. *)
Context (k0 : kl.(kl_key)) (pub0 : bytes) (serial0 now0 : Z) (cert0 : string).
Hypothesis public0 : kl.(kl_public) k0 = Ok pub0.
Hypothesis signed0 : signClientCertificate cy serial0 now0 (string_of_list_ascii pub0) c.(cc_id) 365 = Ok cert0.
Hypothesis no_voucher : c.(cc_voucher) = "".

Definition draws_other (env : boot_env) : Prop := ∀ k, env.(bt_key) = Ok k → k ≠ k0.

(** The private key in the file is another one, perhaps cut short, or there is
    none; the certificate is at most that of the server; the server has
    approved the client for the key [k0]. *)
Record lost (x : World) : Prop := {
  lo_key : ∀ b, x.(wd_dir) !! c.(cc_privateKeyPath) = Some b →
    ∃ k priv n, k ≠ k0 ∧ kl.(kl_private) k = Ok priv ∧ b = take n priv;
  lo_cert : ∀ b, x.(wd_dir) !! c.(cc_certPath) = Some b → ∃ m, b = take m (list_ascii_of_string cert0);
  lo_server : ∃ r, client_of x.(wd_server).(ap_auth) c.(cc_id) = Some r ∧ r.(cr_Status) = "approved" ∧
    r.(cr_PublicKey) = string_of_list_ascii pub0 ∧ r.(cr_Certificate) = cert0;
  lo_registry : clients_ok cy (manager x.(wd_server)).(mg_clients);
}.

Lemma lost_no_pair x : lost x → LoadX509KeyPair (kl := kl) c x.(wd_dir) ≠ Ok ().
Proof.
  intros [H1 H2 _ _]. unfold LoadX509KeyPair, ReadFile.
  destruct (x.(wd_dir) !! c.(cc_certPath)) as [b|] eqn:Ec; [|done]. destruct (H2 _ eq_refl) as [m ->]. cbn.
  destruct (x.(wd_dir) !! c.(cc_privateKeyPath)) as [b|] eqn:Ek; [|done].
  destruct (H1 _ eq_refl) as (k & priv & n & Hne & Hp & ->). cbn.
  destruct (kl.(kl_pair) _ _) eqn:E; [|done]. intros _. apply Hne. by eapply pair_other.
Qed.

(** A file after a write: whole, cut, or as it was. *)
Lemma write_result name data w d : ∀ nm b, (WriteFile name data w d).2 !! nm = Some b →
  (nm = name ∧ ∃ n, b = take n data) ∨ (nm ≠ name ∨ w = WriteNotOpen) ∧ d !! nm = Some b.
Proof.
  intros nm b. destruct w as [| |n]; cbn; [| |].
  - rewrite lookup_insert_Some. intros [[<- <-]|[Hne Hl]]; [left|by right; split; [left|]].
    split; [done|]. exists (length data). by rewrite firstn_all.
  - intros Hl. right. by split; [right|].
  - rewrite lookup_insert_Some. intros [[<- <-]|[Hne Hl]]; [left; split; [done|by exists n]|by right; split; [left|]].
Qed.

Lemma lost_generate (env : boot_env) x d' :
  lost x → draws_other env → (generate c env x.(wd_dir)).2 = d' → ∀ p, lost (mkWorld p d' x.(wd_server)).
Proof.
  destruct paths as [P1 P2 P3]. intros [H1 H2 H3 H4] He <- p.
  assert (Hsplit : ∀ nm b, (generate c env x.(wd_dir)).2 !! nm = Some b →
    (nm = c.(cc_privateKeyPath) ∧ ∃ k priv n, k ≠ k0 ∧ kl.(kl_private) k = Ok priv ∧ b = take n priv) ∨
    nm = c.(cc_publicKeyPath) ∨ x.(wd_dir) !! nm = Some b).
  { intros nm b. unfold generate, GenerateKeyPair. unfold draws_other in He. destruct env.(bt_key) as [k|e]; cbn; [|by auto].
    specialize (He k eq_refl). destruct (kl.(kl_private) k) as [priv|e] eqn:Ep; [|by auto].
    pose proof (write_result c.(cc_privateKeyPath) priv env.(bt_write_private) x.(wd_dir)) as Hw.
    assert (Hw' : ∀ nm b, (WriteFile c.(cc_privateKeyPath) priv env.(bt_write_private) x.(wd_dir)).2 !! nm = Some b →
      (nm = c.(cc_privateKeyPath) ∧ ∃ k priv n, k ≠ k0 ∧ kl.(kl_private) k = Ok priv ∧ b = take n priv) ∨
      nm = c.(cc_publicKeyPath) ∨ x.(wd_dir) !! nm = Some b).
    { intros nm' b' [[-> (n & ->)]|[_ Hl]]%Hw; [left; split; [done|by exists k, priv, n]|by auto]. }
    clear Hw. destruct (WriteFile c.(cc_privateKeyPath) _ _ _) as [[u|e] d1]; [|by apply Hw'].
    destruct (kl.(kl_public) k) as [pub|e]; [|by apply Hw'].
    intros [[-> _]|[_ Hl]]%write_result; [by auto|by apply Hw']. }
  split; cbn; [| |done..].
  - intros b [[_ ?]|[?|?]]%Hsplit; [done|done|by apply H1].
  - intros b [[? _]|[?|?]]%Hsplit; [done|done|by apply H2].
Qed.

Lemma lost_same x p s :
  lost x → stays c.(cc_id) x.(wd_server).(ap_auth) s.(@ap_auth W Provider) → clients_ok cy (manager s).(mg_clients) →
  lost (mkWorld p x.(wd_dir) s).
Proof.
  intros [H1 H2 (r & Hr & Hst & Hk & Hc) H4] Hs Hok. split; [done..| |done].
  destruct (Hs r Hr Hst) as (r' & Hr' & Hst' & Hk' & Hc'). exists r'. split_and!; [done..|congruence|congruence].
Qed.

Lemma stays_refl id (s : Api) : stays id s.(ap_auth) s.(ap_auth).
Proof. by apply gentle_same. Qed.

Lemma lost_save (env : boot_env) x p d' :
  lost x → save_cert c env cert0 x.(wd_dir) = (p, d') → lost (mkWorld p d' x.(wd_server)).
Proof.
  destruct paths as [P1 P2 P3]. intros [H1 H2 H3 H4]. unfold save_cert.
  pose proof (write_result c.(cc_certPath) (list_ascii_of_string cert0) env.(bt_write_cert) x.(wd_dir)) as Hw.
  destruct (WriteFile _ _ _ _) as [r d1]. cbn in Hw. intros Hs.
  assert (d' = d1) as -> by (destruct r; by injection Hs).
  split; cbn; [| |done..].
  - intros b [[? _]|[_ ?]]%Hw; [done|by apply H1].
  - intros b [[_ ?]|[_ ?]]%Hw; [done|by apply H2].
Qed.

(** The certificate the list shows. *)
Lemma lost_list n renv x a s status cert :
  lost x → ask n renv GetRegisterList x.(wd_server) = (a, s) →
  s = x.(wd_server) ∧ (checkApprovalStatus c a = Ok (status, cert) → status = "approved" → cert = cert0).
Proof.
  intros Hx Ha. destruct (ask_list _ _ _ _ _ Ha (lo_registry _ Hx)) as [-> Hl]. split; [done|].
  intros Hc Hst. destruct (Hl _ _ Hc Hst) as (r & Hr & _ & <-). destruct (lo_server _ Hx) as (r0 & Hr0 & _ & _ & <-).
  rewrite Hr in Hr0. by injection Hr0 as ->.
Qed.

Lemma lost_query x n renv (env : boot_env) : lost x → lost (query_step n renv env x) ∧ lost (poll_step n renv env x).
Proof.
  intros Hx. unfold ClientStart.query_step, ClientStart.poll_step.
  destruct (ask n renv GetRegisterList x.(wd_server)) as [a s] eqn:Ha.
  destruct (lost_list _ _ _ _ _ "" "" Hx Ha) as [-> _].
  assert (Hsame : ∀ p, lost (mkWorld p x.(wd_dir) x.(wd_server))).
  { intros p. apply lost_same; [done|apply stays_refl|apply Hx]. }
  unfold run_query, run_poll, put. destruct (checkApprovalStatus c a) as [[status cert]|e] eqn:Hc; [|by split].
  case_decide as Hd; [|by split]. destruct Hd as [-> _].
  destruct (lost_list _ _ _ _ _ "approved" cert Hx Ha) as [_ Hl]. specialize (Hl Hc eq_refl) as ->.
  destruct (save_cert c env cert0 x.(wd_dir)) as [p d'] eqn:Hs. pose proof (lost_save _ _ _ _ Hx Hs).
  split; [|done]. by destruct (kl.(kl_pair) _ _).
Qed.

Lemma lost_apply x n renv (env : boot_env) : lost x → clean_env renv → lost (apply_step n renv env x).
Proof.
  intros Hx Hr. unfold ClientStart.apply_step, run_apply. rewrite (decide_False (P := c.(cc_voucher) ≠ "")) by (intros Hv; by apply Hv).
  unfold submitRegistration. destruct (publicKeyText c x.(wd_dir)) as [pub|e].
  - destruct (ask _ _ _ _) as [a s'] eqn:Ha. pose proof Ha as Ha'. apply ask_clients in Ha; [|done|apply Hx].
    apply lost_same; [done| |done]. apply ask_server in Ha' as [->| ->]; [apply stays_refl|apply serve_stays; cbn; tauto].
  - apply lost_same; [done|apply stays_refl|apply Hx].
Qed.

Lemma lost_step x y : enrol_step draws_other (λ r, ¬ rekeys c.(cc_id) r) x y → lost x → lost y.
Proof.
  intros Hs Hx. assert (Hsame : ∀ p, lost (mkWorld p x.(wd_dir) x.(wd_server))).
  { intros p. apply lost_same; [done|apply stays_refl|apply Hx]. }
  destruct Hs as [env _ He|env _ He|n renv env _ Hr _|n renv env _ Hr _|n renv env _ Hr _| | |renv h r Hr Hal].
  - unfold load_step, load_keys. destruct env.(bt_mkdir); [|apply Hsame].
    destruct (_ || _); [|apply Hsame]. destruct (generate c env x.(wd_dir)) as [r d'] eqn:Hg.
    eapply (lost_generate env); [done..|by rewrite Hg].
  - unfold start_step, run_keys, put.
    assert (Hd : lost (mkWorld x.(wd_phase) (drop_mismatch c env x.(wd_dir)) x.(wd_server))).
    { unfold drop_mismatch, remove_if. destruct Hx as [H1 H2 H3 H4]. destruct (_ && _); [|by split].
      destruct (bt_remove_key env), (bt_remove_cert env); split; cbn; try done; intros b; rewrite ?lookup_delete_Some;
        naive_solver. }
    destruct (negb _); cbn [fst snd].
    + destruct (generate c env _) as [r d'] eqn:Hg.
      assert (H : ∀ p, lost (mkWorld p d' x.(wd_server))) by (eapply (lost_generate env _ _ Hd); [done|cbn; by rewrite Hg]).
      destruct r; cbn; apply H.
    + exact (lost_same _ _ x.(wd_server) Hd (stays_refl _ _) (lo_registry _ Hx)).
  - by apply lost_query.
  - by apply lost_apply.
  - by apply lost_query.
  - apply Hsame.
  - apply Hsame.
  - apply lost_same; [done|by apply serve_stays|apply serve_clients; [done|apply Hx]].
Qed.

(** Once the server has approved a client for a key the client no longer
    has, a client without a voucher never connects again: whatever is
    written, asked, approved, restarted or waited for, the certificate it
    downloads is the old one, which no key it makes goes with.  Only removing
    the client at the server, or a voucher for its id, ends this. *)
Theorem lost_key_never_recovers (x0 x : World) :
  lost x0 → rtc (enrol_step draws_other (λ r, ¬ rekeys c.(cc_id) r)) x0 x →
  LoadX509KeyPair (kl := kl) c x.(wd_dir) ≠ Ok () ∧
  ∃ r, client_of x.(wd_server).(ap_auth) c.(cc_id) = Some r ∧ r.(cr_Status) = "approved" ∧ r.(cr_Certificate) = cert0.
Proof using paths KeyLaws0 public0 signed0 no_voucher.
  intros Hx Hs. assert (H : lost x).
  { induction Hs as [|a b d Hab _ IH]; [done|]. apply IH. by eapply lost_step. }
  split; [by apply lost_no_pair|]. destruct (lo_server _ H) as (r & Hr & Hst & _ & Hc). by exists r.
Qed.

(** The client gives its key up itself: when the file of the public key
    is missing, or when the certificate was cut short by a write, the next
    start replaces the private key although it was in order, and the client
    is lost. *)
Theorem key_given_up (x : World) (env : boot_env) :
  private_file x.(wd_dir) k0 → draws_other env → is_ok env.(bt_mkdir) = true →
  is_ok env.(bt_key) = true → (∀ k, is_ok (kl.(kl_private) k) = true) → env.(bt_write_private) = WriteDone →
  (∀ b, x.(wd_dir) !! c.(cc_certPath) = Some b → ∃ m, b = take m (list_ascii_of_string cert0)) →
  (∃ r, client_of x.(wd_server).(ap_auth) c.(cc_id) = Some r ∧ r.(cr_Status) = "approved" ∧
     r.(cr_PublicKey) = string_of_list_ascii pub0 ∧ r.(cr_Certificate) = cert0) →
  clients_ok cy (manager x.(wd_server)).(mg_clients) →
  (x.(wd_dir) !! c.(cc_publicKeyPath) = None → lost (load_step c env x)) ∧
  (is_Some (x.(wd_dir) !! c.(cc_certPath)) → LoadX509KeyPair (kl := kl) c x.(wd_dir) ≠ Ok () → env.(bt_remove_key) = true →
   lost (start_step c env x)).
Proof using paths.
  destruct paths as [P1 P2 P3]. intros (priv & _ & Hpriv) He Hm Hk Hall Hw Hc Hr Hok.
  assert (Hgen : ∀ d, (∀ b, d !! c.(cc_certPath) = Some b → ∃ m, b = take m (list_ascii_of_string cert0)) →
    ∀ p, lost (mkWorld p (generate c env d).2 x.(wd_server))).
  { intros d Hd p. unfold draws_other in He. unfold generate, GenerateKeyPair.
    destruct env.(bt_key) as [k|e]; [|done]. cbn. specialize (Hall k). destruct (kl.(kl_private) k) as [pr|e] eqn:Ep; [|done].
    rewrite Hw. cbn. set (d1 := <[_ := pr]> d).
    assert (H1 : lost (mkWorld p d1 x.(wd_server))).
    { split; cbn; [| |done..].
      - intros b. subst d1. rewrite lookup_insert_eq. intros [= <-]. exists k, pr, (length pr). rewrite firstn_all.
        by split_and!; [apply He|..].
      - intros b. subst d1. rewrite lookup_insert_ne by done. apply Hd. }
    destruct (kl.(kl_public) k) as [pub|e]; [|exact H1].
    destruct H1 as [A1 A2 A3 A4]. split; cbn in *; [| |done..].
    - intros b [[? _]|[_ Hl]]%write_result; [by subst|by apply A1].
    - intros b [[? _]|[_ Hl]]%write_result; [by subst|by apply A2]. }
  split.
  - intros Hn. unfold load_step, load_keys. destruct env.(bt_mkdir); [|done].
    unfold fileExists at 2. rewrite Hn, bool_decide_eq_false_2, orb_true_r by by intros [? ?].
    specialize (Hgen _ Hc). destruct (generate c env x.(wd_dir)) as [r d']. apply Hgen.
  - intros Hcert Hne Hrm. unfold start_step, run_keys, put.
    assert (Hd : drop_mismatch c env x.(wd_dir) = delete c.(cc_privateKeyPath) (remove_if env.(bt_remove_cert) c.(cc_certPath) x.(wd_dir))).
    { unfold drop_mismatch, fileExists. rewrite (bool_decide_eq_true_2 _ Hcert), Hpriv, Hrm. cbn.
      destruct (LoadX509KeyPair c x.(wd_dir)) as [[]|e]; [by destruct Hne|done]. }
    rewrite Hd. set (d1 := delete _ _). specialize (Hgen d1).
    assert (fileExists c.(cc_privateKeyPath) d1 = false) as -> by (unfold fileExists, d1; by rewrite lookup_delete_eq).
    cbn [negb].
    destruct (generate c env d1) as [[u|e] d'] eqn:Hg; cbn; apply Hgen; intros b;
      subst d1; rewrite lookup_delete_ne by done; unfold remove_if; destruct (bt_remove_cert env); try apply Hc;
      rewrite lookup_delete_eq; done.
Qed.
End lost.

(** A voucher brings such a client back: with one the server accepts, the
    next start and its registration end in a certificate for the new key. *)
Theorem voucher_recovers (x : World) (k : kl.(kl_key)) (priv pub : bytes) (renv : req_env) (env env' : boot_env) (cert : string) :
  x.(wd_phase) = Starting → is_Some (x.(wd_dir) !! c.(cc_certPath)) → is_Some (x.(wd_dir) !! c.(cc_privateKeyPath)) →
  LoadX509KeyPair (kl := kl) c x.(wd_dir) ≠ Ok () → c.(cc_voucher) ≠ "" →
  env.(bt_key) = Ok k → kl.(kl_private) k = Ok priv → kl.(kl_public) k = Ok pub →
  env.(bt_write_private) = WriteDone → env.(bt_write_public) = WriteDone → env.(bt_remove_cert) = true →
  env.(bt_remove_key) = true → env'.(bt_write_cert) = WriteDone →
  let req := mkVoucherReq c.(cc_id) (string_of_list_ascii pub) c.(cc_voucher) in
  voucher_answer (Ok (serve renv ∅ (PostRegisterVoucher (Ok req)) x.(wd_server)).1) = Ok cert →
  let x1 := start_step c env x in
  let x2 := apply_step Answered renv env' x1 in
  x1.(wd_phase) = Applying ∧ x2.(wd_phase) = Connecting ∧ LoadX509KeyPair (kl := kl) c x2.(wd_dir) = Ok ().
Proof using paths KeyLaws0.
  destruct paths as [P1 P2 P3]. intros Hph Hc Hp Hne Hv Hk Hpriv Hpub W1 W2 R1 R2 W3 req Ha x1 x2.
  set (d2 := <[c.(cc_publicKeyPath) := pub]> (<[c.(cc_privateKeyPath) := priv]>
               (delete c.(cc_privateKeyPath) (delete c.(cc_certPath) x.(wd_dir))))).
  assert (H1 : x1 = mkWorld Applying d2 x.(wd_server)).
  { subst x1. unfold start_step, run_keys, put.
    assert (Hd : drop_mismatch c env x.(wd_dir) = delete c.(cc_privateKeyPath) (delete c.(cc_certPath) x.(wd_dir))).
    { unfold drop_mismatch, fileExists. rewrite (bool_decide_eq_true_2 _ Hc), (bool_decide_eq_true_2 _ Hp), R1, R2. cbn.
      destruct (LoadX509KeyPair c x.(wd_dir)) as [[]|e]; [by destruct Hne|done]. }
    rewrite Hd. unfold fileExists. rewrite lookup_delete_eq. cbn. unfold generate, GenerateKeyPair.
    rewrite Hk. cbn. rewrite Hpriv, W1. cbn. rewrite Hpub, W2. cbn.
    rewrite !lookup_insert_ne, lookup_delete_ne, lookup_delete_eq by done. done. }
  rewrite H1. split; [done|]. subst x2. rewrite H1. unfold ClientStart.apply_step, run_apply. cbn [wd_dir wd_server].
  rewrite decide_True by done. unfold submitVoucherRegistration, publicKeyText, ReadFile.
  assert (d2 !! c.(cc_publicKeyPath) = Some pub) as -> by apply lookup_insert_eq. cbn [fmap res_fmap].
  fold req. unfold ClientStart.ask.
  destruct (serve renv ∅ (PostRegisterVoucher (Ok req)) x.(wd_server)) as [resp s'] eqn:E. cbn [fst] in Ha. rewrite Ha.
  destruct (voucher_request _ _ _ _ _ E) as [_ Hcert]. destruct (Hcert _ Ha) as (_ & _ & _ & _ & serial & now & Hs).
  unfold save_cert. rewrite W3. cbn. split; [done|]. apply (load_pair _ k).
  - exists priv. split; [done|]. subst d2. by rewrite lookup_insert_ne, lookup_insert_ne, lookup_insert_eq by done.
  - exists pub, serial, now, cert. by rewrite lookup_insert_eq.
Qed.
End enrolment.

(** ** Witnesses *)

#[local] Existing Instances Auth.ClientRecord_countable Auth.Voucher_countable toy_codec.

(** Two keys, and a certificate that shows the public key. *)
Definition example_crypto : Crypto :=
  mkCrypto (λ s, Some (list_ascii_of_string s)) bytes Ok (λ _ _ _ _ k, Ok k)
    (λ b, "<" +:+ string_of_list_ascii b +:+ ">").
Definition example_keys : KeyLib :=
  mkKeyLib bool (λ k, Ok (list_ascii_of_string (if k then "K1." else "K0.")))
    (λ k, Ok (list_ascii_of_string (if k then "P1" else "P0")))
    (λ c p, bool_decide ((c = list_ascii_of_string "<P1>" ∧ p = list_ascii_of_string "K1.") ∨
                         (c = list_ascii_of_string "<P0>" ∧ p = list_ascii_of_string "K0."))).

Lemma take_whole {A} n (l l' : list A) : take n l = l' → length l' = length l → l = l'.
Proof.
  intros <- Hl. rewrite length_take in Hl. by rewrite take_ge by lia.
Qed.

#[local] Instance example_key_laws : KeyLaws example_crypto example_keys.
Proof.
  split.
  - intros [] serial now id cert pub priv [= <-] [= <-] [= <-]; (split; [done|]); by vm_compute.
  - intros [] [] serial now id cert pub priv m n [= <-] [= <-] [= <-] [[H1 H2]|[H1 H2]]%bool_decide_eq_true; try done;
      first [by apply take_whole in H1 | by apply take_whole in H2].
Qed.

Definition example_config (voucher : string) : ClientConfig := mkClientConfig "cam" "t" voucher "key" "pub" "crt".
Lemma example_paths voucher : paths_ok (example_config voucher).
Proof. done. Qed.
Definition boots (k : bool) : boot_env example_keys :=
  mkBootEnv example_keys (Ok ()) (Ok k) WriteDone WriteDone WriteDone true true.
Definition empty_server : @Api unit unit :=
  mkApi md_empty (NewStateStore "1.2.3.4") Capability.NewCapabilityRegistry tt [].
Definition approve_cam : Route := PostApprove (Ok (mkAssignReq "cam" "permanent" "node")).
Definition admin : Header := {["X-Api-Key" := ["k"]]}.
Abbreviation ex_serve := (Http.serve "k" "t" "6" [] toy_jwt example_crypto example_req).

Definition w0 : @World unit unit := mkWorld Loading ∅ empty_server.
Definition w1 := load_step (example_config "") (boots true) w0.
Definition w2 := start_step (example_config "") (boots false) w1.
Definition w3 := query_step "k" "t" "6" [] toy_jwt example_crypto (example_config "") NotSent example_req (boots false) w2.
Definition w4 := apply_step "k" "t" "6" [] toy_jwt example_crypto (example_config "") AnswerLost example_req (boots false) w3.
Definition w5 : @World unit unit := mkWorld Loading w4.(wd_dir) w4.(wd_server).
Definition w6 := load_step (example_config "") (boots false) w5.
Definition w7 := start_step (example_config "") (boots false) w6.
Definition w8 := query_step "k" "t" "6" [] toy_jwt example_crypto (example_config "") Answered example_req (boots false) w7.
Definition w9 := apply_step "k" "t" "6" [] toy_jwt example_crypto (example_config "") Answered example_req (boots false) w8.
Definition w10 : @World unit unit :=
  mkWorld w9.(wd_phase) w9.(wd_dir) (ex_serve admin approve_cam w9.(wd_server)).2.
Definition w11 := poll_step "k" "t" "6" [] toy_jwt example_crypto (example_config "") Answered example_req (boots false) w10.

Lemma clean_example : clean_env example_req.
Proof. intros n. by left. Qed.
Lemma clean_boots k : clean_boot (boots k).
Proof. split_and!; by left. Qed.

Lemma example_run :
  rtc (enrol_step "k" "t" "6" [] toy_jwt example_crypto (kl := example_keys) (example_config "") clean_boot (λ r, ¬ registers "cam" r)) w0 w11.
Proof.
  eapply rtc_l; [apply (ELoad _ _ _ _ _ _ _ _ _ w0 (boots true)); [vm_compute; reflexivity|apply clean_boots]|].
  eapply rtc_l; [apply (EStart _ _ _ _ _ _ _ _ _ w1 (boots false)); [vm_compute; reflexivity|apply clean_boots]|].
  eapply rtc_l; [apply (EQuery _ _ _ _ _ _ _ _ _ w2 NotSent example_req (boots false)); [vm_compute; reflexivity|exact clean_example|apply clean_boots]|].
  eapply rtc_l; [apply (EApply _ _ _ _ _ _ _ _ _ w3 AnswerLost example_req (boots false)); [vm_compute; reflexivity|exact clean_example|apply clean_boots]|].
  eapply rtc_l; [by apply (ERestart _ _ _ _ _ _ _ _ _ w4)|].
  eapply rtc_l; [apply (ELoad _ _ _ _ _ _ _ _ _ w5 (boots false)); [vm_compute; reflexivity|apply clean_boots]|].
  eapply rtc_l; [apply (EStart _ _ _ _ _ _ _ _ _ w6 (boots false)); [vm_compute; reflexivity|apply clean_boots]|].
  eapply rtc_l; [apply (EQuery _ _ _ _ _ _ _ _ _ w7 Answered example_req (boots false)); [vm_compute; reflexivity|exact clean_example|apply clean_boots]|].
  eapply rtc_l; [apply (EApply _ _ _ _ _ _ _ _ _ w8 Answered example_req (boots false)); [vm_compute; reflexivity|exact clean_example|apply clean_boots]|].
  eapply rtc_l; [apply (EServer _ _ _ _ _ _ _ _ _ w9 example_req admin approve_cam); [exact clean_example|by intros []]|].
  apply rtc_once. apply (EPoll _ _ _ _ _ _ _ _ _ w10 Answered example_req (boots false)); [vm_compute; reflexivity|exact clean_example|apply clean_boots].
Qed.

(** The answer to the first registration is lost, the client starts again. *)
Lemma enrolment_sound_witness :
  w11.(wd_phase) = Connecting ∧ LoadX509KeyPair (kl := example_keys) (example_config "") w11.(wd_dir) = Ok ().
Proof.
  assert (Hp : w11.(wd_phase) = Connecting) by (vm_compute; reflexivity). split; [exact Hp|].
  refine (proj1 (enrolment_sound "k" "t" "6" [] toy_jwt example_crypto (example_config "") (example_paths "") w0 w11 _ example_run) Hp).
  split_and!; [reflexivity..|]. intros id r Hr. exfalso. change ((∅ : gmap string ClientRecord) !! id = Some r) in Hr. by rewrite lookup_empty in Hr.
Defined.

(** The server has approved "cam" for the first key; its certificate is there,
    the private key is not. *)
Definition cam_server : @Api unit unit := w11.(wd_server).
Definition cam_lost : @World unit unit :=
  mkWorld Loading (<["crt" := list_ascii_of_string "<P1>"]> ∅) cam_server.
Definition l1 := load_step (example_config "") (boots false) cam_lost.
Definition l2 := start_step (example_config "") (boots false) l1.
Definition l3 := apply_step "k" "t" "6" [] toy_jwt example_crypto (example_config "") Answered example_req (boots false) l2.
Definition l4 := poll_step "k" "t" "6" [] toy_jwt example_crypto (example_config "") Answered example_req (boots false) l3.

Definition cam_record : ClientRecord := mkClientRecord "cam" "P1" "<P1>" "approved" "permanent" "node" 6 6.
Lemma cam_approved_record : client_of cam_server.(ap_auth) "cam" = Some cam_record.
Proof. vm_compute. reflexivity. Qed.
Lemma cam_registry : clients_ok example_crypto (manager cam_server).(mg_clients).
Proof.
  intros id r Hr. assert (Hm : (manager cam_server).(mg_clients) = {["cam" := cam_record]}) by (vm_compute; reflexivity).
  rewrite Hm in Hr. apply lookup_singleton_Some in Hr as [<- <-]. split; [done|]. right. split; [done|]. by exists 0%Z, 0%Z.
Qed.
Abbreviation ex_lost := (lost example_crypto (kl := example_keys) (example_config "") true (list_ascii_of_string "P1") "<P1>").

Lemma draws_false : draws_other (kl := example_keys) true (boots false).
Proof. by intros k [= <-]. Qed.

(** The client waits, downloads the certificate of the lost key, and cannot
    use it. *)
Lemma lost_key_never_recovers_witness :
  l4.(wd_phase) = Connecting ∧ LoadX509KeyPair (kl := example_keys) (example_config "") l4.(wd_dir) ≠ Ok ().
Proof.
  split; [vm_compute; reflexivity|].
  refine (proj1 (lost_key_never_recovers "k" "t" "6" [] toy_jwt example_crypto (example_config "") (example_paths "")
    true (list_ascii_of_string "P1") 0 0 "<P1>" eq_refl eq_refl eq_refl cam_lost l4 _ _)).
  - split; [done| |exists cam_record; split_and!; [exact cam_approved_record|reflexivity..]|exact cam_registry].
    intros b [= <-]. by exists 4.
  - eapply rtc_l; [apply (ELoad _ _ _ _ _ _ _ _ _ cam_lost (boots false)); [vm_compute; reflexivity|apply draws_false]|].
    eapply rtc_l; [apply (EStart _ _ _ _ _ _ _ _ _ l1 (boots false)); [vm_compute; reflexivity|apply draws_false]|].
    eapply rtc_l; [apply (EApply _ _ _ _ _ _ _ _ _ l2 Answered example_req (boots false)); [vm_compute; reflexivity|exact clean_example|apply draws_false]|].
    apply rtc_once. apply (EPoll _ _ _ _ _ _ _ _ _ l3 Answered example_req (boots false)); [vm_compute; reflexivity|exact clean_example|apply draws_false].
Defined.

(** The client above without the file of its public key. *)
Definition no_public : @World unit unit := mkWorld Loading (delete "pub" w11.(wd_dir)) cam_server.
Lemma key_given_up_witness :
  LoadX509KeyPair (kl := example_keys) (example_config "") no_public.(wd_dir) = Ok () ∧
  ex_lost (load_step (example_config "") (boots false) no_public).
Proof.
  split; [vm_compute; reflexivity|].
  refine (proj1 (key_given_up example_crypto (kl := example_keys) (example_config "") (example_paths "") true
    (list_ascii_of_string "P1") "<P1>" no_public (boots false) _ draws_false eq_refl eq_refl (λ _, eq_refl) eq_refl _ _ _) _).
  - exists (list_ascii_of_string "K1."). split; [reflexivity|vm_compute; reflexivity].
  - intros b Hb. vm_compute in Hb. injection Hb as <-. by exists 4.
  - exists cam_record. split_and!; [exact cam_approved_record|reflexivity..].
  - exact cam_registry.
  - vm_compute. reflexivity.
Defined.

(** With a voucher the client with the wrong key gets a certificate for the
    key it has made. *)
Definition voucher_server : @Api unit unit :=
  mkApi (Approve example_crypto "cam" "permanent" "node" 7 2 WriteDone (AddApplication "cam" "P1" 1 WriteDone md_voucher).2).2
    (NewStateStore "1.2.3.4") Capability.NewCapabilityRegistry tt [].
Definition wrong_key : @World unit unit :=
  mkWorld Starting (<["crt" := list_ascii_of_string "<P1>"]> $ <["key" := list_ascii_of_string "K0."]> ∅) voucher_server.

Lemma voucher_recovers_witness :
  let x1 := start_step (example_config "vch_00") (boots false) wrong_key in
  let x2 := apply_step "k" "t" "6" [] toy_jwt example_crypto (example_config "vch_00") Answered example_req (boots false) x1 in
  x2.(wd_phase) = Connecting ∧ LoadX509KeyPair (kl := example_keys) (example_config "vch_00") x2.(wd_dir) = Ok ().
Proof.
  refine (proj2 (voucher_recovers "k" "t" "6" [] toy_jwt example_crypto (example_config "vch_00") (example_paths "vch_00")
    wrong_key false (list_ascii_of_string "K0.") (list_ascii_of_string "P0") example_req (boots false) (boots false) "<P0>"
    eq_refl _ _ _ _ eq_refl eq_refl eq_refl eq_refl eq_refl eq_refl eq_refl eq_refl _)); try by vm_compute.
  - vm_compute. by eexists.
  - vm_compute. by eexists.
Defined.
