(* ===== verification/FileApi.v ===== *)
(** * The file API of the client (BBgrid_Client/api.go, main.go)

    Local programs push files to the server and pull files from it over a
    port of the client.  The requests the client makes are texts; what the
    server reads in them goes through [net/url], and from there through the
    routes, the registry and the file plugin as they are modelled in Http,
    Core and File.  A multipart form is carried as its parts. *)

From S2P Require Import Prelude Types StateStore Disk Path Core Auth Credentials Http HttpFacts File.

(** ** Addresses (net/url) *)

Definition hex_value (c : ascii) : option Z :=
  let z := Z_of_byte c in
  if (48 <=? z)%Z && (z <=? 57)%Z then Some (z - 48)%Z
  else if (97 <=? z)%Z && (z <=? 102)%Z then Some (z - 87)%Z
  else if (65 <=? z)%Z && (z <=? 70)%Z then Some (z - 55)%Z
  else None.

(** [url.QueryUnescape] *)
Fixpoint unescape (s : string) : option string :=
  match s with
  | "" => Some ""
  | String c s' =>
      if decide (c = "%"%char) then
        match s' with
        | String a (String b r) =>
            match hex_value a, hex_value b, unescape r with
            | Some x, Some y, Some u => Some (String (byte_of_Z (16 * x + y)) u)
            | _, _, _ => None
            end
        | _ => None
        end
      else String (if decide (c = "+"%char) then " "%char else c) <$> unescape s'
  end.

Fixpoint split_on (sep : ascii) (s : string) : list string :=
  match s with
  | "" => [""]
  | String c s' =>
      if decide (c = sep) then "" :: split_on sep s'
      else match split_on sep s' with e :: l => String c e :: l | [] => [String c ""] end
  end.

(** A pair that cannot be read is left out. *)
Definition parse_pair (p : string) : option (string * string) :=
  if bool_decide (p = "") || negb (no_char ";" p) then None
  else let '(k, v, _) := Cut p "="%char in
       match unescape k, unescape v with Some k', Some v' => Some (k', v') | _, _ => None end.
Definition ParseQuery (q : string) : list (string * string) := omap parse_pair (split_on "&" q).

Definition before_fragment (url : string) : string := (Cut url "#"%char).1.1.
(** [r.URL.Query().Get(k)] *)
Definition query_of (url : string) : Query := λ k,
  default "" (snd <$> List.find (λ kv, bool_decide (kv.1 = k)) (ParseQuery (Cut (before_fragment url) "?"%char).1.2)).
(** Scheme and host are left out. *)
Definition url_path (url : string) : string :=
  let '(_, rest, _) := Cut (Cut (before_fragment url) "?"%char).1.1 ":"%char in
  let '(_, after, found) := Cut (TrimPrefix rest "//") "/"%char in
  if found then "/" +:+ after else "".

(** ** The routes of the server ([SetupRoutes]) *)

Definition routes : list (string * string) :=
  [("GET", "/PING"); ("GET", "/status"); ("GET", "/health");
   ("POST", "/api/v1/auth/login"); ("POST", "/api/v1/register/apply"); ("POST", "/api/v1/register/voucher");
   ("GET", "/api/v1/register/list");
   ("GET", "/api/v1/nodes"); ("GET", "/api/v1/nodes/:id");
   ("POST", "/api/v1/register/approve"); ("POST", "/api/v1/register/revoke"); ("GET", "/api/v1/register/pending");
   ("POST", "/api/v1/vouchers"); ("GET", "/api/v1/vouchers"); ("DELETE", "/api/v1/vouchers/:code");
   ("GET", "/api/v1/proxies"); ("POST", "/api/v1/proxies"); ("DELETE", "/api/v1/proxies/:port");
   ("GET", "/api/v1/relay"); ("POST", "/api/v1/relay"); ("DELETE", "/api/v1/relay/:id");
   ("GET", "/api/v1/namespaces"); ("GET", "/api/v1/namespaces/:name"); ("GET", "/api/v1/namespaces/:name/clients");
   ("POST", "/api/v1/namespaces/assign");
   ("GET", "/api/v1/tasks/:id");
   ("GET", "/api/v1/runtime/capabilities"); ("POST", "/api/v1/runtime/call"); ("GET", "/api/v1/runtime/query");
   ("GET", "/ws"); ("GET", "/ws/temp"); ("GET", "/tunnel"); ("GET", "/relay")].

Fixpoint segments_match (pattern path : list string) : bool :=
  match pattern, path with
  | [], [] => true
  | p :: pattern', s :: path' =>
      (bool_decide (p = s) || (String.prefix ":" p && bool_decide (s ≠ ""))) && segments_match pattern' path'
  | _, _ => false
  end.
Definition route (method path : string) : option string :=
  snd <$> List.find (λ r : string * string, bool_decide (r.1 = method) && segments_match (split r.2) (split path)) routes.

(** ** The client *)

Definition isSafeFilename (name : string) : bool :=
  negb (bool_decide (name = "" ∨ name = "." ∨ name = "..")) &&
  negb (Contains name "/" || Contains name "\") && negb (Contains name "..").

(** [main]: the address of the control API from that of the WebSocket. *)
Definition TrimSuffix (s suffix : string) : string :=
  let n := String.length s - String.length suffix in
  if bool_decide (String.substring n (String.length suffix) s = suffix ∧ String.length suffix <= String.length s) then slice_to n s else s.
Definition file_server_url (serverURL : string) : string :=
  let url := if String.prefix "wss://" serverURL then "https://" +:+ TrimPrefix serverURL "wss://"
             else if String.prefix "ws://" serverURL then "http://" +:+ TrimPrefix serverURL "ws://"
             else serverURL in
  TrimSuffix url "/ws".

Record FileAPIServer := mkFileAPI { fa_serverURL : string; fa_clientID : string; fa_dataDir : string; fa_apiKey : string }.

(** What the client sends to push a file. *)
Record PushRequest := mkPush { ps_url : string; ps_header : Header; ps_filename : string; ps_content : bytes }.

(** An answer to the local program. *)
Inductive Answer :=
| HttpError (status : Z) (msg : string)
| Created (name type : string)
| Pulled (name type : string) (size : nat) (path : string)
| Listed (files : list (string * Z)).
Definition answer_status (a : Answer) : Z := match a with HttpError st _ => st | Created _ _ => 201 | _ => 200 end.

Definition or_file (type : string) : string := if decide (type = "") then "file" else type.

Definition push_request (s : FileAPIServer) (filename fileType : string) (content : bytes) : PushRequest :=
  mkPush (s.(fa_serverURL) +:+ "/api/v1/runtime/call?action=file.push&client_id=" +:+ s.(fa_clientID) +:+ "&type=" +:+ fileType)
    (<["Content-Type" := ["multipart/form-data; boundary=x"]]>
       (if decide (s.(fa_apiKey) = "") then ∅ else {["X-Client-Token" := [s.(fa_apiKey)]]}))
    filename content.

(** [send] is the server: the status and the text of its answer, and its new
    state. *)
Definition pushToServer {S} (send : PushRequest → S → Res (Z * string) * S) (s : FileAPIServer)
    (filename fileType : string) (file : Reader) (x : S) : Res unit * S :=
  match file.(rd_err) with
  | Some e => (Err ("copy file: " +:+ e), x)
  | None =>
      match send (push_request s filename fileType file.(rd_data)) x with
      | (Err e, x') => (Err ("http request: " +:+ e), x')
      | (Ok (status, body), x') =>
          if decide (status = 200%Z) then (Ok tt, x')
          else (Err ("server returned " +:+ pretty status +:+ ": " +:+ body), x')
      end
  end.

(** [form] is the parsed form: the name of its file and the file. *)
Definition uploadFile {S} (send : PushRequest → S → Res (Z * string) * S) (s : FileAPIServer)
    (form : Res (option (string * Reader))) (type : string) (x : S) : Answer * S :=
  match form with
  | Err _ => (HttpError 400 "Failed to parse form", x)
  | Ok None => (HttpError 400 "File required", x)
  | Ok (Some (filename, file)) =>
      let fileType := or_file type in
      if negb (bool_decide (fileType = "file" ∨ fileType = "log")) then (HttpError 400 "Invalid type, must be 'file' or 'log'", x)
      else if negb (isSafeFilename filename) then (HttpError 400 "Invalid filename", x)
      else match pushToServer send s filename fileType file x with
      | (Err e, x') => (HttpError 502 ("Server unavailable: " +:+ e), x')
      | (Ok _, x') => (Created filename fileType, x')
      end
  end.

Definition pull_url (s : FileAPIServer) (filename fileType : string) : string :=
  s.(fa_serverURL) +:+ "/api/v1/runtime/download?client_id=" +:+ s.(fa_clientID) +:+ "&filename=" +:+ filename +:+ "&type=" +:+ fileType.

(** [bad_url] is what [http.NewRequest] says of an address, [fetch] the
    answer of the server with what comes of its body; [t] is the file system
    of the client. *)
Definition handlePullFromServer (bad_url : string → option string) (fetch : string → Res (Z * bytes)) (e : os_env)
    (s : FileAPIServer) (filename type : string) (t : tree) : Answer * tree :=
  let fileType := or_file type in
  if decide (filename = "") then (HttpError 400 "filename required", t)
  else
    let url := pull_url s filename fileType in
    match bad_url url with
    | Some msg => (HttpError 502 ("Server unavailable: " +:+ msg), t)
    | None =>
        match fetch url with
        | Err msg => (HttpError 502 ("Server unavailable: " +:+ msg), t)
        | Ok (status, body) =>
            if decide (status ≠ 200%Z) then
              (HttpError status ("Server returned " +:+ pretty status +:+ ": " +:+ string_of_list_ascii body), t)
            else
              let saveDir := Join s.(fa_dataDir) "received" in
              match MkdirAll e (at_path e saveDir) t with
              | (Err _, t1) => (HttpError 500 "Failed to create directory", t1)
              | (Ok _, t1) =>
                  let filePath := Join saveDir filename in
                  match Create e (at_path e filePath) t1 with
                  | (Err _, t2) => (HttpError 500 "Failed to create file", t2)
                  | (Ok _, t2) => (Pulled filename fileType (length body) filePath,
                                   (Copy (at_path e filePath) (mkReader body None) t2).2)
                  end
              end
        end
    end.

Definition listLocalFiles (e : os_env) (s : FileAPIServer) (type : string) (t : tree) : Answer :=
  let dir := Join s.(fa_dataDir) (if decide (or_file type = "log") then "logs" else "received") in
  match ReadDir e (at_path e dir) t with
  | Err _ => Listed []
  | Ok entries =>
      Listed (entries ≫= λ en, match en.2 with
                                | Folder => []
                                | Regular b => if e.(os_refuse) SysStat (at_path e (Join dir en.1)) then []
                                               else [(en.1, Z.of_nat (length b))]
                                end)
  end.

Inductive LocalRequest := Upload (form : Res (option (string * Reader))) (type : string) | List (type : string) | OtherMethod.
Definition handleFiles {S} (send : PushRequest → S → Res (Z * string) * S) (e : os_env) (s : FileAPIServer)
    (r : LocalRequest) (x : S) (t : tree) : Answer * S :=
  match r with
  | Upload form type => uploadFile send s form type x
  | List type => (listLocalFiles e s type t, x)
  | OtherMethod => (HttpError 405 "Method not allowed", x)
  end.

(** ** The server behind it *)

Section with_server.
Context {Provider : Type}.
Context `{!JsonCodec (gmap string ClientRecord)} `{!JsonCodec (gmap string Voucher)}.
Context (APIKey ClientToken version : string) (jwtSecret : bytes) (j : JWT) (cy : Crypto).
(** The file system of the server, and how much of a file reaches its disk. *)
Context (e : os_env) (to_disk : bytes → Reader) (p : FilePlugin).

(** The world of the registry: the file of the request, and the tree. *)
Abbreviation FileWorld := (option Reader * tree)%type.
Abbreviation FileServer := (@Api FileWorld Provider).

Definition body_of (nd : node) : bytes := match nd with Regular b => b | Folder => [] end.
Definition entry_value (fe : FileEntry) : any :=
  AMap (<["path" := AString fe.(fe_path)]> $ <["is_dir" := ABool fe.(fe_is_dir)]> $ <["size" := AInt64 fe.(fe_size)]> ∅).
(** The result as the registry knows it; the entries of a list by their
    position. *)
Definition reply_result (r : FileReply) : Capability.ActionResult :=
  match r with
  | Reply res => res
  | ReplyBody code nd name =>
      Capability.mkResultBody code "" ANil
        (Some (Capability.mkBody (body_of nd) name
                 match nd with Regular b => Z.of_nat (length b) | Folder => e.(os_dirsize) end))
  | ReplyFiles code l =>
      Capability.mkResult code "" (AMap {["files" := AMap (list_to_map (imap (λ i fe, (pretty i, entry_value fe)) l))]})
  end.
Definition file_action : @Capability.ActionHandler FileWorld := λ ctx w,
  let '(r, t') := File.handleAction e p ctx w.1 w.2 in (Ok (reply_result r), (w.1, t')).

(** [Init]: the plugin files its actions. *)
Definition file_capability (name description : string) : Capability.Capability :=
  Capability.mkCapability name description "internal"
    (Capability.mkSchema name description
       [Capability.mkParam "path" "string" (negb (bool_decide (name = "file.list"))) ""]).
Definition file_actions : list (string * string) :=
  [("file.push", "上传文件"); ("file.pull", "下载文件"); ("file.list", "列出文件")].
Definition register_file (r : @Capability.CapabilityRegistryImpl FileWorld Provider) :
    @Capability.CapabilityRegistryImpl FileWorld Provider :=
  foldl (λ r a, Capability.Register (file_capability a.1 a.2) file_action r) r file_actions.

Definition server_tree (s : FileServer) : tree := s.(ap_world).2.
Definition with_file (f : option Reader) (s : FileServer) : FileServer := with_world (f, server_tree s) s.

Abbreviation serve := (Http.serve (W := FileWorld) (Provider := Provider) APIKey ClientToken version jwtSecret j cy).

(** A push as the router and [handleCall] get it; a part's file name is read
    as its last element. *)
Definition serve_push (env : req_env) (r : PushRequest) (s : FileServer) : Response * FileServer :=
  if decide (route "POST" (url_path r.(ps_url)) = Some "/api/v1/runtime/call") then
    serve env r.(ps_header)
      (PostCall (query_of r.(ps_url)) (Err "EOF")
         (Ok (∅, Some (Base r.(ps_filename), Z.of_nat (length r.(ps_content))))))
      (with_file (Some (to_disk r.(ps_content))) s)
  else (fail 404 "404 page not found", s).

(** [body_text] is the text of an answer. *)
Definition send_push (body_text : Response → string) (env : req_env) (r : PushRequest) (s : FileServer) :
    Res (Z * string) * FileServer :=
  let '(resp, s') := serve_push env r s in (Ok (status_of resp, body_text resp), s').

(** [file.pull] over the control API. *)
Definition pull_call (path : string) : Route :=
  PostCall (λ _, "") (Ok ("file.pull", {["path" := AString path]})) (Err "").
End with_server.

(** ** Reading the addresses *)

Definition is_plain (c : ascii) : bool :=
  let z := Z_of_byte c in
  ((48 <=? z)%Z && (z <=? 57)%Z) || ((65 <=? z)%Z && (z <=? 90)%Z) || ((97 <=? z)%Z && (z <=? 122)%Z) ||
  bool_decide (c ∈ ["-"; "_"; "."]%char).
(** Letters, digits and the signs that need no escape. *)
Definition plain (s : string) : bool := string_forall is_plain s.

Lemma plain_char c : is_plain c = true → c ∉ ["%"; "+"; ";"; "="; "&"; "#"; "?"; "/"; ":"]%char.
Proof. intros H Hin. repeat (apply elem_of_cons in Hin as [->|Hin]; [done|]). by apply not_elem_of_nil in Hin. Qed.
Lemma plain_no s c : plain s = true → c ∈ ["%"; "+"; ";"; "="; "&"; "#"; "?"; "/"; ":"]%char → no_char c s = true.
Proof.
  intros Hs Hc. eapply string_forall_impl; [|exact Hs]. intros d Hd. apply bool_decide_eq_true_2. intros ->.
  by apply (plain_char c).
Qed.
Lemma plain_app a b : plain (a +:+ b) = plain a && plain b.
Proof. unfold plain. induction a as [|c a IH]; [done|]. rewrite string_app_cons. cbn. by rewrite IH, andb_assoc. Qed.
Lemma plain_unescape s : plain s = true → unescape s = Some s.
Proof.
  induction s as [|c s IH]; [done|]. cbn. intros [Hc Hs]%andb_true_iff. pose proof (plain_char c Hc) as Hn.
  rewrite decide_False by (intros ->; by apply Hn; left). rewrite IH by done. cbn. rewrite decide_False; [done|].
  intros ->. apply Hn. by right; left.
Qed.

Lemma Cut_app a b sep : no_char sep a = true → Cut (a +:+ b) sep = let '(x, y, f) := Cut b sep in (a +:+ x, y, f).
Proof.
  intros Ha. induction a as [|c a IH]; [destruct (Cut b sep) as [[x y] f] eqn:E; by rewrite !string_app_nil_l|].
  rewrite string_app_cons. cbn in Ha.
  apply andb_true_iff in Ha as [Hc%bool_decide_eq_true Ha]. cbn [Cut]. rewrite decide_False by done. rewrite IH by done.
  by destruct (Cut b sep) as [[??]?].
Qed.
Lemma Cut_here a b sep : no_char sep a = true → Cut (a +:+ String sep b) sep = (a, b, true).
Proof. intros Ha. rewrite Cut_app by done. cbn. rewrite decide_True by done. by rewrite string_app_nil_r. Qed.
Lemma Cut_none a sep : no_char sep a = true → Cut a sep = (a, "", false).
Proof. intros Ha. rewrite <-(string_app_nil_r a), Cut_app by done. done. Qed.

Lemma split_on_cut a b sep : no_char sep a = true → split_on sep (a +:+ String sep b) = a :: split_on sep b.
Proof.
  induction a as [|c a IH]; [intros _; rewrite string_app_nil_l; cbn; by rewrite decide_True|].
  rewrite string_app_cons. cbn.
  intros [Hc%bool_decide_eq_true Ha]%andb_true_iff. rewrite decide_False by done. by rewrite IH.
Qed.
Lemma split_on_none a sep : no_char sep a = true → split_on sep a = [a].
Proof.
  induction a as [|c a IH]; [done|]. cbn. intros [Hc%bool_decide_eq_true Ha]%andb_true_iff.
  rewrite decide_False by done. by rewrite IH.
Qed.

Lemma parse_pair_plain k v :
  k ≠ "" → plain k = true → plain v = true → parse_pair (k +:+ String "=" v) = Some (k, v).
Proof.
  intros Hne Hk Hv. unfold parse_pair. rewrite no_char_app.
  assert (no_char ";" (String "=" v) = true) as -> by (cbn; apply (plain_no v); [done|by do 2 right; left]).
  rewrite (plain_no k ";"%char) by (done || by do 2 right; left). rewrite bool_decide_eq_false_2 by by destruct k.
  cbn [andb orb negb]. rewrite Cut_here by (apply plain_no; [done|by do 3 right; left]). by rewrite !plain_unescape.
Qed.

Lemma no_char_cons c d s : no_char c (String d s) = bool_decide (d ≠ c) && no_char c s.
Proof. done. Qed.

(** An address without a path: scheme, host and port. *)
Definition base_url (u : string) : Prop :=
  ∃ scheme host, u = scheme +:+ "://" +:+ host ∧ no_char ":" scheme = true ∧ no_char "/" host = true ∧
    no_char "#" u = true ∧ no_char "?" u = true.

Lemma url_parts u path q :
  base_url u → no_char "#" path = true → no_char "?" path = true →
  Cut (before_fragment (u +:+ "/" +:+ path +:+ "?" +:+ q)) "?"%char = (u +:+ "/" +:+ path, (Cut q "#"%char).1.1, true).
Proof.
  intros (scheme & host & _ & _ & _ & H1 & H2) P1 P2. unfold before_fragment.
  rewrite (Cut_app u), (Cut_app "/"), (Cut_app path), (Cut_app "?") by done.
  destruct (Cut q "#"%char) as [[x y] f]. cbn [fst]. rewrite (Cut_app u), (Cut_app "/") by done.
  change ("?" +:+ x) with (String "?" x). by rewrite Cut_here.
Qed.

Lemma url_path_of u path q :
  base_url u → no_char "#" path = true → no_char "?" path = true →
  url_path (u +:+ "/" +:+ path +:+ "?" +:+ q) = "/" +:+ path.
Proof.
  intros Hu P1 P2. unfold url_path. rewrite url_parts by done. destruct Hu as (scheme & host & -> & Hs & Hh & _ & _).
  cbn [fst]. rewrite !string_app_assoc. change ("://" +:+ ?r) with (String ":" ("//" +:+ r)).
  rewrite Cut_here, TrimPrefix_app by done. change ("/" +:+ path) with (String "/" path). by rewrite Cut_here.
Qed.

Lemma query_of_url u path q k :
  base_url u → no_char "#" path = true → no_char "?" path = true →
  query_of (u +:+ "/" +:+ path +:+ "?" +:+ q) k =
  default "" (snd <$> List.find (λ kv, bool_decide (kv.1 = k)) (ParseQuery (Cut q "#"%char).1.1)).
Proof. intros Hu P1 P2. unfold query_of. by rewrite url_parts. Qed.

(** What the server reads of a push. *)
Lemma push_address s filename type content :
  base_url s.(fa_serverURL) → plain s.(fa_clientID) = true → plain type = true →
  let url := (push_request s filename type content).(ps_url) in
  route "POST" (url_path url) = Some "/api/v1/runtime/call" ∧
  query_of url "action" = "file.push" ∧ query_of url "client_id" = s.(fa_clientID) ∧ query_of url "type" = type.
Proof.
  intros Hu Hc Ht url.
  assert (Hurl : url = s.(fa_serverURL) +:+ "/" +:+ "api/v1/runtime/call" +:+ "?" +:+
    (("action" +:+ String "=" "file.push") +:+ String "&" (("client_id" +:+ String "=" s.(fa_clientID)) +:+
      String "&" ("type" +:+ String "=" type)))) by by rewrite !string_app_assoc.
  assert (Hno : ∀ c, c ∈ ["&"; "#"]%char → no_char c s.(fa_clientID) = true ∧ no_char c type = true).
  { intros c Hin. split; apply plain_no; try done; set_solver. }
  destruct (Hno "&"%char) as [C1 T1]; [set_solver|]. destruct (Hno "#"%char) as [C2 T2]; [set_solver|].
  rewrite Hurl, url_path_of by done. split; [by vm_compute|].
  rewrite !query_of_url by done. rewrite Cut_none by by rewrite !no_char_app, !no_char_cons, !no_char_app, !no_char_cons, !no_char_app, !no_char_cons, C2, T2.
  cbn [fst]. unfold ParseQuery.
  rewrite split_on_cut by done. rewrite split_on_cut by by rewrite no_char_app, !no_char_cons, C1.
  rewrite split_on_none by by rewrite no_char_app, !no_char_cons, T1.
  cbn [omap list_omap]. rewrite !parse_pair_plain by done. done.
Qed.

(** ** Names and directories *)

Lemma Contains_char s c : Contains s (String c "") = negb (no_char c s).
Proof.
  induction s as [|d s IH]; [done|]. cbn [Contains]. rewrite no_char_cons, IH. cbn [String.prefix].
  destruct (ascii_dec c d) as [->|Hne].
  - rewrite bool_decide_eq_false_2 by (intros Hd; by apply Hd). by destruct s.
  - rewrite bool_decide_eq_true_2 by congruence. done.
Qed.

Lemma Base_name x : name x → Base x = x.
Proof.
  intros (Hne & _ & _ & Hs). unfold Base. rewrite decide_False, split_single by done. cbn. by rewrite decide_True.
Qed.

Lemma safe_is_name x : isSafeFilename x = true → name x.
Proof.
  unfold isSafeFilename. intros [[H1%negb_true_iff H2%negb_true_iff]%andb_true_iff _]%andb_true_iff.
  apply bool_decide_eq_false in H1. apply orb_false_iff in H2 as [H2 _]. rewrite Contains_char in H2.
  apply negb_false_iff in H2. unfold name. naive_solver.
Qed.

Lemma walk_JoinAll base k : Forall name k → k ≠ [] → Forall name base → walk base (JoinAll (rev k)) = k ++ base.
Proof.
  intros Hk Hne Hb. assert (Hr : Forall name (rev k)) by by apply Forall_rev.
  destruct (rev k) as [|x l] eqn:E; [by destruct (rev_ne k Hne)|]. cbn [JoinAll].
  apply Forall_cons in Hr as [(Hx & _ & _ & Hxs) _]. rewrite decide_False by done.
  rewrite <-E. rewrite walk_Clean; [by apply walk_rel_text|done|]. rewrite E. intros Ha. exfalso.
  destruct x as [|c x]; [done|]. assert (c ≠ "/"%char) as Hc by by cbn in Hxs; apply andb_true_iff in Hxs as [?%bool_decide_eq_true _].
  destruct l as [|y l]; cbn in Ha; by apply bool_decide_eq_true in Ha.
Qed.

Lemma JoinAll_names l : Forall name l → l ≠ [] → JoinAll l = join l.
Proof.
  intros Hl Hne. destruct l as [|x l]; [done|]. cbn [JoinAll]. pose proof Hl as [(Hx & _ & _ & Hxs) _]%Forall_cons.
  rewrite decide_False by done. unfold Clean.
  assert (Ha : IsAbs (join (x :: l)) = false).
  { destruct x as [|c x]; [done|]. cbn in Hxs. apply andb_true_iff in Hxs as [Hc%bool_decide_eq_true _].
    destruct l; by apply bool_decide_eq_false. }
  rewrite Ha, split_join by (done || by apply names_no_slash).
  assert (Hp : ∀ st, foldl (push false) st (x :: l) = rev (x :: l) ++ st).
  { clear -Hl. induction Hl as [|y l' Hy _ IH]; intros st; [done|]. cbn [foldl]. rewrite push_name, IH by done. cbn. by rewrite <-app_assoc. }
  rewrite Hp, app_nil_r, rev_involutive, decide_False; done.
Qed.

Lemma Base_join l x : Forall name (l ++ [x]) → Base (join (l ++ [x])) = x.
Proof.
  intros Hl. unfold Base. assert (Hne : l ++ [x] ≠ []) by by destruct l.
  assert (Hs : split (join (l ++ [x])) = l ++ [x]) by (apply split_join; [done|by apply names_no_slash]).
  rewrite decide_False.
  - rewrite Hs, filter_app. apply Forall_app in Hl as [_ [(Hx & _) _]%Forall_cons]. rewrite filter_cons_True, filter_nil by done.
    by rewrite last_snoc.
  - intros E. rewrite E in Hs. destruct l as [|y l]; cbn in Hs.
    + injection Hs as <-. by apply Forall_cons in Hl as [(? & _) _].
    + injection Hs as <- Hs. by apply Forall_cons in Hl as [(? & _) _].
Qed.

Lemma MkdirAll_free e q t :
  (∀ s q, e.(os_refuse) s q = false) → (∀ q' b, q' `suffix_of` q → t !! q' ≠ Some (Regular b)) → is_ok (MkdirAll e q t).1 = true.
Proof.
  intros Hallow. revert t. induction q as [|x q IH]; intros t Hf; cbn; [done|].
  destruct (t !! (x :: q)) as [[|b]|] eqn:El; [done|by destruct (Hf (x :: q) b)|].
  specialize (IH t). destruct (MkdirAll e q t) as [[u|msg] t1]; [by rewrite Hallow|]. apply IH.
  intros q' b Hq. apply Hf. by apply suffix_cons_r.
Qed.

(** ** A push, and a pull *)

Section file_facts.
Context {Provider : Type}.
Context `{!JsonCodec (gmap string ClientRecord)} `{!JsonCodec (gmap string Voucher)}.
Context (APIKey ClientToken version : string) (jwtSecret : bytes) (j : JWT) (cy : Crypto).
Context (e : os_env) (to_disk : bytes → Reader) (p : FilePlugin).
Context (body_text : Response → string).
Abbreviation FileServer := (@Api (option Reader * tree)%type Provider).
Abbreviation serve := (Http.serve (W := (option Reader * tree)%type) (Provider := Provider) APIKey ClientToken version jwtSecret j cy).
Abbreviation serve_push := (FileApi.serve_push (Provider := Provider) APIKey ClientToken version jwtSecret j cy to_disk).
Abbreviation send_push := (FileApi.send_push (Provider := Provider) APIKey ClientToken version jwtSecret j cy to_disk body_text).

(** A client that knows the token, of a name that needs no escape, and a
    server with the file plugin. *)
Record set_up (s : FileAPIServer) (x : FileServer) : Prop := mkSetUp {
  su_url : base_url s.(fa_serverURL);
  su_plain : plain s.(fa_clientID) = true;
  su_name : name s.(fa_clientID);
  su_token : s.(fa_apiKey) = ClientToken ∧ ClientToken ≠ "";
  su_actions : ∃ caps, x.(ap_caps) = register_file e p caps;
}.

Definition a_type (fileType : string) : Prop := fileType = "file" ∨ fileType = "log".

Lemma registered_file caps a : a ∈ ["file.push"; "file.pull"; "file.list"] →
  ∃ c, (register_file (Provider := Provider) e p caps).(Capability.entries) !! a = Some (Capability.mkEntry c (file_action e p)).
Proof.
  intros Ha. repeat (apply elem_of_cons in Ha as [->|Ha]; [by eexists; cbn; repeat (rewrite lookup_insert_ne by done); rewrite ?lookup_insert_eq|]).
  by apply not_elem_of_nil in Ha.
Qed.

(** What a push comes to, once it is let in: the file is saved, and the
    result is answered 200, whatever it is. *)
Definition push_result (filename savePath : string) (r : Res unit) : Capability.ActionResult :=
  match r with
  | Err msg => Capability.mkResult 500 ("failed to save file: " +:+ msg) ANil
  | Ok _ => Capability.mkResult 200 "file uploaded successfully"
              (AMap (<["filename" := AString filename]> $ <["path" := AString savePath]> ∅))
  end.

Lemma push_handled (env : req_env) (h : Header) (x : FileServer) caps (query : Query) filename content n :
  x.(ap_caps) = register_file e p caps → String.prefix "multipart/form-data" (GetHeader h "Content-Type") = true →
  query "action" = "file.push" → filename ≠ "" →
  let '(r, t') := SaveFile e p (save_path (query "client_id") (query "type") filename) (to_disk content) (server_tree x) in
  handle APIKey ClientToken version jwtSecret j cy env h (PostCall query (Err "EOF") (Ok (∅, Some (filename, n))))
    (with_file (Some (to_disk content)) x) =
  (ok (DResult (push_result filename (save_path (query "client_id") (query "type") filename) r)),
   with_world (Some (to_disk content), t') x).
Proof.
  intros Hcaps Hct Hq Hne. cbn [handle]. unfold handleCall, call_request. rewrite Hct, Hq, decide_False by done.
  set (params := call_params query _).
  assert (P : default "" (as_string (params !! "filename")) = filename ∧
    default "" (as_string (params !! "client_id")) = query "client_id" ∧ default "" (as_string (params !! "type")) = query "type").
  { unfold params, call_params, query_params, form_params. cbn [fst snd]. rewrite omap_empty, fmap_empty, (left_id_L ∅ (∪)).
    split_and!; rewrite ?(lookup_insert_ne _ "filesize"), ?lookup_insert_eq, ?(lookup_insert_ne _ "filename") by done; [done|..];
      destruct (decide (query "type" ≠ "")) as [H1|H1%dec_stable], (decide (query "client_id" ≠ "")) as [H2|H2%dec_stable];
      rewrite ?(lookup_insert_ne _ "type" "client_id"), ?lookup_insert_eq, ?lookup_singleton_eq, ?lookup_singleton_ne, ?lookup_empty by done; by rewrite ?H1, ?H2. }
  destruct P as (P1 & P2 & P3). unfold Capability.Execute. cbn [Capability.ctx_Action].
  destruct (registered_file caps "file.push") as [c Hc]; [by left|]. cbn [ap_caps with_file with_world]. rewrite Hcaps, Hc.
  cbn [Capability.en_handler ap_world]. unfold file_action, File.handleAction. cbn [Capability.ctx_Action]. rewrite decide_True by done.
  unfold handlePush. cbn [Capability.ctx_Params fst snd]. rewrite P1, P2, P3. unfold id. rewrite decide_False by done.
  unfold server_tree. cbn [with_file with_world ap_world fst snd]. by destruct (SaveFile _ _ _ _ _) as [[u|msg] t'].
Qed.

(** Every push of the client is answered 200, whatever the plugin does. *)
Lemma push_served env s x fileType filename content :
  set_up s x → a_type fileType → isSafeFilename filename = true →
  let t := server_tree x in
  let '(r, t') := SaveFile e p (JoinAll [s.(fa_clientID); fileType +:+ "s"; filename]) (to_disk content) t in
  status_of (serve_push env (push_request s filename fileType content) x).1 = 200%Z ∧
  let x' := (serve_push env (push_request s filename fileType content) x).2 in
  x'.(ap_caps) = x.(ap_caps) ∧ server_tree x' = t'.
Proof.
  intros [Hu Hpl (Hcn & _) [Ht Htn] [caps Hcaps]] Htype Hsafe. pose proof (safe_is_name _ Hsafe) as Hname.
  assert (Hpt : plain fileType = true ∧ fileType ≠ "") by by destruct Htype as [->| ->].
  destruct Hpt as [Hpt Htne]. destruct (push_address s filename fileType content Hu Hpl Hpt) as (Hr & Q1 & Q2 & Q3).
  unfold FileApi.serve_push. rewrite decide_True by done. cbn [ps_header ps_content ps_filename push_request].
  rewrite Base_name by done. set (url := ps_url _) in *. rewrite Ht, decide_False by done. set (h := <["Content-Type" := _]> _).
  unfold Http.serve. cbn [protected].
  assert (Hj : requireJWT APIKey ClientToken jwtSecret j env h = None).
  { apply requireJWT_spec. right; right.
    split_and!; [by vm_compute|by vm_compute|done|by vm_compute]. }
  rewrite Hj.
  pose proof (push_handled env h x caps (query_of url) filename content (Z.of_nat (length content)) Hcaps ltac:(by vm_compute) Q1
    ltac:(by destruct filename)) as Hp.
  rewrite Q2, Q3 in Hp. unfold save_path in Hp. rewrite !decide_False in Hp by done.
  destruct (SaveFile _ _ _ _ _) as [r t']. by rewrite Hp.
Qed.

(** Where the server keeps a file of the client. *)
Definition stored_at (s : FileAPIServer) (fileType filename : string) : path :=
  [filename; fileType +:+ "s"; s.(fa_clientID)] ++ at_path e p.(fp_dataDir).

Lemma place_names s x fileType filename :
  set_up s x → a_type fileType → isSafeFilename filename = true → Forall name [filename; fileType +:+ "s"; s.(fa_clientID)].
Proof.
  intros Hs Ht Hf. repeat apply Forall_cons_2; [by apply safe_is_name| |apply Hs|constructor].
  by destruct Ht as [->| ->].
Qed.

Lemma token_serves env r x :
  ClientToken ≠ "" → serve env {["X-Client-Token" := [ClientToken]]} r x =
  handle APIKey ClientToken version jwtSecret j cy env {["X-Client-Token" := [ClientToken]]} r x.
Proof.
  intros Htn. unfold Http.serve. destruct (protected r); [|done].
  replace (requireJWT APIKey ClientToken jwtSecret j env _) with (@None Response); [done|].
  symmetry. apply requireJWT_spec. right; right. split_and!; [by vm_compute|by vm_compute|done|by vm_compute].
Qed.

(** The plugin's [file.pull] over the control API. *)
Lemma pull_handled (env : req_env) (h : Header) (x : FileServer) caps sub :
  x.(ap_caps) = register_file e p caps → String.prefix "multipart/form-data" (GetHeader h "Content-Type") = false →
  Forall name e.(os_wd) → p.(fp_dataDir) ≠ "" → sub ≠ "" →
  (handle APIKey ClientToken version jwtSecret j cy env h (pull_call sub) x).1 =
  match Open e (walk (at_path e p.(fp_dataDir)) sub) (server_tree x) with
  | Err _ => ok (DResult (Capability.mkResult 404 "file not found" ANil))
  | Ok nd => body_answer (Capability.mkBody (body_of nd) (Base sub)
               match nd with Regular b => Z.of_nat (length b) | Folder => e.(os_dirsize) end)
  end.
Proof.
  intros Hcaps Hct Hwd Hdir Hsub. unfold pull_call. cbn [handle]. unfold handleCall, call_request. rewrite Hct, decide_False by done.
  unfold Capability.Execute. cbn [Capability.ctx_Action].
  destruct (registered_file caps "file.pull") as [c Hc]; [by right; left|]. rewrite Hcaps, Hc. cbn [Capability.en_handler].
  unfold file_action, File.handleAction. cbn [Capability.ctx_Action]. rewrite decide_False, decide_True by done.
  unfold handlePull. cbn [Capability.ctx_Params]. rewrite lookup_singleton_eq. cbn [as_string default]. unfold id.
  rewrite decide_False by done. rewrite at_path_Join by done. unfold server_tree.
  by destruct (Open e (walk _ sub) _).
Qed.

Lemma pull_served env s x fileType filename content :
  set_up s x → a_type fileType → isSafeFilename filename = true →
  Forall name e.(os_wd) → p.(fp_dataDir) ≠ "" → (∀ s q, e.(os_refuse) s q = false) →
  server_tree x !! stored_at s fileType filename = Some (Regular content) →
  (serve env {["X-Client-Token" := [ClientToken]]} (pull_call (JoinAll [s.(fa_clientID); fileType +:+ "s"; filename])) x).1 =
  Body content (Some ("attachment; filename=" +:+ quote +:+ filename +:+ quote))
    (if (0 <? Z.of_nat (length content))%Z then Some (Z.of_nat (length content)) else None).
Proof.
  intros Hs Ht Hf Hwd Hdir Hallow Hl. pose proof (place_names _ _ _ _ Hs Ht Hf) as Hn.
  assert (Hnr : Forall name [s.(fa_clientID); fileType +:+ "s"; filename]).
  { apply Forall_rev in Hn. exact Hn. }
  pose proof Hs as [_ _ _ [_ Htn] [caps Hcaps]]. rewrite token_serves by done.
  assert (Hb : Base (JoinAll [s.(fa_clientID); fileType +:+ "s"; filename]) = filename).
  { rewrite JoinAll_names by done. by apply (Base_join [s.(fa_clientID); fileType +:+ "s"] filename). }
  rewrite (pull_handled _ _ _ caps) by (done || intros E; rewrite E in Hb; by destruct (safe_is_name _ Hf) as (_ & ? & _)).
  rewrite Hb. rewrite (walk_JoinAll _ [filename; fileType +:+ "s"; s.(fa_clientID)]) by (done || by apply resolve_names).
  unfold Open. rewrite Hallow. change (_ ++ _) with (stored_at s fileType filename).
  replace (stat (stored_at s fileType filename) _) with (Some (Regular content)) by by rewrite <-Hl.
  unfold body_answer. cbn. rewrite decide_True; [done|]. by destruct (safe_is_name _ Hf).
Qed.

(** The way to the place of the file is free. *)
Definition free_way (q : path) (t : tree) : Prop :=
  (∀ q' b, q' `suffix_of` tail q → t !! q' ≠ Some (Regular b)) ∧ t !! q ≠ Some Folder.

Lemma SaveFile_works sub rd t :
  Forall name e.(os_wd) → p.(fp_dataDir) ≠ "" → e.(os_wd_known) = true → at_path e p.(fp_dataDir) ≠ [] → wf_tree t →
  (∀ s q, e.(os_refuse) s q = false) → rd.(rd_err) = None →
  let q := walk (at_path e p.(fp_dataDir)) sub in
  below (at_path e p.(fp_dataDir)) q → free_way q t →
  let '(r, t') := SaveFile e p sub rd t in
  r = Ok tt ∧ t' !! q = Some (Regular rd.(rd_data)) ∧
  (∀ q', q' ≠ q → t' !! q' = t !! q' ∨ (q' `suffix_of` tail q ∧ t !! q' = None ∧ t' !! q' = Some Folder)).
Proof.
  intros Hwd Hdir Hk Hroot Hwf Hallow Hrd q Hb [Hway Hnf]. unfold SaveFile.
  assert (inside e p.(fp_dataDir) (Join p.(fp_dataDir) sub) = true) as -> by (apply inside_exact; auto). cbn [negb].
  destruct (put_file e (Join p.(fp_dataDir) sub) rd t) as [r t'] eqn:Hput.
  destruct (put_file_cases e p Hwd Hdir sub rd t r t' Hb Hwf Hput) as (t1 & _ & _ & Hmk & Hcase). fold q in Hcase.
  assert (Hok : is_ok r = true).
  { unfold put_file in Hput. rewrite at_path_Dir in Hput by done. rewrite at_path_Join in Hput by done. fold q in Hput.
    pose proof (MkdirAll_free e (tail q) t Hallow Hway) as Hm. destruct (MkdirAll e (tail q) t) as [rm tm] eqn:Em. cbn in Hm.
    destruct rm as [u|]; [|done]. destruct (MkdirAll_effect _ _ _ _ _ Em) as [Heff Hst]. specialize (Hst Hm).
    assert (Hqm : tm !! q = t !! q).
    { destruct (Heff q) as [->|(Hs & Hne & _)]; [done|]. exfalso. destruct q as [|y q']; [done|]. cbn in Hs. apply suffix_length in Hs. cbn in Hs. lia. }
    unfold Create in Hput. destruct q as [|y q'] eqn:Eq.
    - by apply below_iff in Hb as (k & Hk' & [-> _]%symmetry%app_eq_nil).
    - rewrite Hallow in Hput. cbn [tail] in Hst. rewrite Hst, Hqm in Hput. unfold Copy in Hput. rewrite Hrd in Hput.
      destruct (t !! (y :: q')) as [[|b]|] eqn:El; [done|..]; by injection Hput as <- _. }
  destruct Hcase as [[Hno _]|(_ & _ & -> & ->)]; [congruence|]. rewrite Hrd. split_and!; [done|by rewrite lookup_insert_eq|].
  intros q' Hq'. rewrite lookup_insert_ne by done. apply Hmk.
Qed.


(** C40. When the server cannot store the file, because the disk is full, a
    directory is in the way or a call is refused, the control API still
    answers 200 with the error inside; the client looks at the status only
    and tells the local program that the file was created. *)
Theorem lost_upload_reported (env : req_env) (s : FileAPIServer) (x : FileServer) (filename type : string) (content : bytes)
    (msg : string) (t' : tree) :
  set_up s x → a_type (or_file type) → isSafeFilename filename = true →
  SaveFile e p (JoinAll [s.(fa_clientID); or_file type +:+ "s"; filename]) (to_disk content) (server_tree x) = (Err msg, t') →
  let '(a, x') := uploadFile (send_push env) s (Ok (Some (filename, mkReader content None))) type x in
  a = Created filename (or_file type) ∧ server_tree x' = t'.
Proof.
  intros Hs Ht Hf Herr. unfold uploadFile. rewrite bool_decide_eq_true_2, Hf by exact Ht. cbn [negb]. unfold pushToServer. cbn [rd_err rd_data].
  unfold FileApi.send_push. pose proof (push_served env s x (or_file type) filename content Hs Ht Hf) as Hp. cbn zeta in Hp.
  rewrite Herr in Hp.
  destruct Hp as (Hst & _ & Htree). destruct (serve_push _ _ _) as [resp x']. cbn [fst snd] in *. by rewrite decide_True.
Qed.
End file_facts.

(** ** Pulling *)

Lemma pull_path s filename type :
  base_url s.(fa_serverURL) → url_path (pull_url s filename type) = "/api/v1/runtime/download".
Proof.
  intros Hu. unfold pull_url.
  replace (_ +:+ _) with (s.(fa_serverURL) +:+ "/" +:+ "api/v1/runtime/download" +:+ "?" +:+
    ("client_id=" +:+ s.(fa_clientID) +:+ "&filename=" +:+ filename +:+ "&type=" +:+ type)) by done.
  by rewrite url_path_of.
Qed.

Lemma Clean_ne x : Clean x ≠ "".
Proof.
  unfold Clean. destruct (IsAbs x) eqn:Ea; [done|].
  pose proof (pushes_kept false (split x) [] (split_no_slash x) I) as Hk. set (u := foldl _ [] _) in *. clearbody u.
  case_decide as Hu; [done|]. apply (kept_text false); [done|]. by intros ->.
Qed.

(** Nothing can be pulled: the address the client asks is none of the
    server's routes, so whatever the file, the answer is an error and nothing
    is written. *)
Theorem pull_never_works (bad_url : string → option string) (fetch : string → Res (Z * bytes)) (e : os_env)
    (s : FileAPIServer) (filename type : string) (t : tree) :
  base_url s.(fa_serverURL) →
  (∀ url status body, route "GET" (url_path url) = None → fetch url = Ok (status, body) → (400 <= status)%Z) →
  let '(a, t') := handlePullFromServer bad_url fetch e s filename type t in
  (400 <= answer_status a)%Z ∧ t' = t.
Proof.
  intros Hu Hfetch. unfold handlePullFromServer. case_decide; [by split; [cbn; lia|]|]. destruct (bad_url _); [by split; [cbn; lia|]|].
  destruct (fetch _) as [[status body]|msg] eqn:Ef; [|by split; [cbn; lia|]]. apply Hfetch in Ef.
  - rewrite decide_True by lia. done.
  - rewrite pull_path by done. by vm_compute.
Qed.

(** The name of a pull is not looked at.  A server that does answer the
    address, with some file [name], makes the client write its bytes to any
    place of the client's file system the process may write to: the fragment
    of an address does not reach the server, but it does reach the path. *)
Theorem pull_writes_anywhere (bad_url : string → option string) (fetch : string → Res (Z * bytes)) (e : os_env)
    (s : FileAPIServer) (known : string) (body : bytes) (t : tree) (q : path) :
  base_url s.(fa_serverURL) → plain s.(fa_clientID) = true → plain known = true → known ≠ "" → name known →
  (∀ url, bad_url url = None) →
  (∀ url, query_of url "filename" = known → fetch url = Ok (200%Z, body)) →
  Forall name e.(os_wd) → s.(fa_dataDir) ≠ "" → (∀ s q, e.(os_refuse) s q = false) →
  let saveDir := "received" :: at_path e s.(fa_dataDir) in
  (∀ q' b, q' `suffix_of` saveDir → t !! q' ≠ Some (Regular b)) →
  Forall name q → q ≠ [] → stat (tail q) t = Some Folder → t !! q ≠ Some Folder → ¬ q `suffix_of` saveDir →
  ∃ filename,
    let '(a, t') := handlePullFromServer bad_url fetch e s filename "file" t in
    answer_status a = 200%Z ∧ t' !! q = Some (Regular body).
Proof.
  intros Hu Hc Hk Hkne Hkn Hbad Hfetch Hwd Hdir Hallow saveDir Hway Hq Hqne Hparent Hnf Hout.
  assert (Hb : Forall name (at_path e s.(fa_dataDir))) by by apply resolve_names.
  set (rest := "/../" +:+ climb (length saveDir) q). exists (known +:+ String "#" rest).
  assert (Hn : Forall name saveDir) by by constructor.
  assert (Hcn : ∀ c, c ∈ ["&"; "#"]%char → no_char c s.(fa_clientID) = true ∧ no_char c known = true).
  { intros c Hin. split; apply plain_no; try done; set_solver. }
  destruct (Hcn "&"%char) as [C1 K1]; [set_solver|]. destruct (Hcn "#"%char) as [C2 K2]; [set_solver|].
  unfold handlePullFromServer. rewrite decide_False by by destruct known. rewrite Hbad.
  rewrite (Hfetch _).
  2: { unfold pull_url.
    replace (_ +:+ _) with (s.(fa_serverURL) +:+ "/" +:+ "api/v1/runtime/download" +:+ "?" +:+
      ((("client_id" +:+ String "=" s.(fa_clientID)) +:+ String "&" ("filename" +:+ String "=" known)) +:+ String "#" (rest +:+ "&type=file")))
      by by rewrite !string_app_assoc.
    rewrite query_of_url by done. rewrite Cut_here by by rewrite !no_char_app, !no_char_cons, C2, no_char_app, !no_char_cons, K2.
    cbn [fst]. unfold ParseQuery. rewrite split_on_cut by by rewrite no_char_app, !no_char_cons, C1.
    rewrite split_on_none by by rewrite no_char_app, !no_char_cons, K1.
    cbn [omap list_omap]. by rewrite !parse_pair_plain. }
  cbn iota. rewrite decide_False by lia.
  assert (Hsave : at_path e (Join s.(fa_dataDir) "received") = saveDir) by by apply resolve_Join.
  assert (Hfile : at_path e (Join (Join s.(fa_dataDir) "received") (known +:+ String "#" rest)) = q).
  { unfold at_path. rewrite resolve_Join by (done || unfold Join at 1, JoinAll; rewrite decide_False by done; apply Clean_ne).
    change (resolve _ _) with (at_path e (Join s.(fa_dataDir) "received")). rewrite Hsave. unfold rest.
    replace (known +:+ String "#" ("/../" +:+ climb (length saveDir) q)) with ((known +:+ "#") +:+ String "/" (".." +:+ String "/" (climb (length saveDir) q)))
      by by rewrite string_app_assoc.
    rewrite !walk_app.
    assert (Hkn' : name (known +:+ "#")).
    { destruct Hkn as (_ & _ & _ & Hs). split_and!; [by destruct known| | |by rewrite no_char_app, Hs].
      all: intros E%(f_equal (no_char "#")); rewrite no_char_app, K2 in E; by vm_compute in E. }
    replace (walk (walk saveDir (known +:+ "#")) "..") with saveDir; [by apply walk_climb|].
    unfold walk. rewrite (split_single (known +:+ "#")) by apply Hkn'. cbn [foldl]. rewrite push_name by done.
    change (split "..") with [".."]. cbn [foldl]. unfold push. rewrite decide_False by naive_solver. rewrite decide_True by done.
    by rewrite decide_False by apply Hkn'. }
  rewrite Hsave.
  pose proof (MkdirAll_free e saveDir t Hallow Hway) as Hm. destruct (MkdirAll e saveDir t) as [rm tm] eqn:Em. cbn in Hm.
  destruct rm as [u|]; [|done]. destruct (MkdirAll_effect _ _ _ _ _ Em) as [Heff _]. rewrite Hfile.
  destruct q as [|y q']; [done|]. unfold Create. rewrite Hallow.
  assert (Hst : stat q' tm = Some Folder).
  { apply (stat_mono t); [|done]. intros q1 H1. destruct (Heff q1) as [->|(_ & _ & H2 & _)]; congruence. }
  rewrite Hst. assert (Hnf' : tm !! (y :: q') ≠ Some Folder).
  { destruct (Heff (y :: q')) as [->|(? & _)]; [done|]. by destruct Hout. }
  destruct (tm !! (y :: q')) as [[|b]|] eqn:El; [done|..]; (split; [done|]); cbn; by rewrite lookup_insert_eq.
Qed.

(** ** At work *)

#[local] Existing Instances Auth.ClientRecord_countable Auth.Voucher_countable toy_codec.

Definition a_client : FileAPIServer := mkFileAPI (file_server_url "wss://hub:9909/ws") "cam-1" "data" "tok".
Definition a_server : @Api (option Reader * tree)%type unit :=
  mkApi (Auth.Init 0 ∅, ∅) (NewStateStore "1.2.3.4") (register_file example_os (Init ∅) Capability.NewCapabilityRegistry)
    (None, example_tree) [].
Definition stored_whole (b : bytes) : Reader := mkReader b None.
Definition no_text (r : Response) : string := "".

Lemma a_base_url : base_url a_client.(fa_serverURL).
Proof. exists "https", "hub:9909". split_and!; by vm_compute. Qed.
Lemma a_set_up : set_up "tok" example_os (Init ∅) a_client a_server.
Proof.
  split; [exact a_base_url|by vm_compute|by apply (bool_decide_unpack _)|by split|by eexists].
Qed.

Lemma no_file_on_the_way (q : path) (t : tree) :
  forallb (λ kv : path * node, match kv.2 with Regular _ => negb (bool_decide (kv.1 `suffix_of` q)) | Folder => true end) (map_to_list t) = true →
  ∀ q' b, q' `suffix_of` q → t !! q' ≠ Some (Regular b).
Proof.
  intros H q' b Hs Hl. rewrite forallb_forall in H.
  specialize (H (q', Regular b) (proj1 (list_elem_of_In _ _) (proj2 (elem_of_map_to_list _ _ _) Hl))). cbn in H.
  by rewrite bool_decide_eq_true_2 in H.
Qed.


(** The disk takes nothing. *)
Definition disk_full (b : bytes) : Reader := mkReader [] (Some "no space left on device").

Lemma lost_upload_reported_witness :
  let '(a, x') := uploadFile (send_push "key" "tok" "6" [] toy_jwt toy_crypto disk_full no_text example_req) a_client
                    (Ok (Some ("b.txt", mkReader (list_ascii_of_string "new") None))) "" a_server in
  a = Created "b.txt" "file" ∧
  server_tree x' !! ["b.txt"; "files"; "cam-1"; "data"; "app"; "srv"] = Some (Regular []).
Proof.
  set (r := SaveFile example_os (Init ∅) (JoinAll ["cam-1"; "files"; "b.txt"]) (disk_full (list_ascii_of_string "new")) (server_tree a_server)).
  assert (Hfull : r = (Err "no space left on device", r.2)).
  { by rewrite (surjective_pairing r) at 1. }
  pose proof (lost_upload_reported "key" "tok" "6" [] toy_jwt toy_crypto example_os disk_full (Init ∅) no_text
    example_req a_client a_server "b.txt" "" (list_ascii_of_string "new") _ _ a_set_up ltac:(by left) ltac:(by vm_compute) Hfull) as H.
  destruct (uploadFile _ _ _ _ _) as [a x']. destruct H as [Ha ->]. split; [done|by vm_compute].
Defined.

(** The answers of the modelled server: no route, no file. *)
Definition no_download (url : string) : Res (Z * bytes) :=
  match route "GET" (url_path url) with
  | None => Ok (404%Z, list_ascii_of_string "404 page not found")
  | Some _ => Ok (200%Z, [])
  end.
Lemma pull_never_works_witness :
  let '(a, t') := handlePullFromServer (λ _, None) no_download example_os a_client "b.txt" "" example_tree in
  (400 <= answer_status a)%Z ∧ t' = example_tree.
Proof.
  apply (pull_never_works (λ _, None) no_download example_os a_client "b.txt" "" example_tree a_base_url).
  intros url status body Hr. unfold no_download. rewrite Hr. intros [= <- _]. lia.
Defined.

Definition some_download (url : string) : Res (Z * bytes) :=
  if decide (query_of url "filename" = "a.txt") then Ok (200%Z, list_ascii_of_string "evil") else Ok (404%Z, []).
Lemma pull_writes_anywhere_witness :
  ∃ filename,
    let '(a, t') := handlePullFromServer (λ _, None) some_download example_os a_client filename "file" example_tree in
    answer_status a = 200%Z ∧ t' !! ["passwd"; "etc"] = Some (Regular (list_ascii_of_string "evil")).
Proof.
  pose proof (pull_writes_anywhere (λ _, None) some_download example_os a_client "a.txt" (list_ascii_of_string "evil") example_tree ["passwd"; "etc"]
    a_base_url ltac:(by vm_compute) ltac:(by vm_compute) ltac:(done) ltac:(by apply (bool_decide_unpack _)) ltac:(done)) as H.
  specialize (H ltac:(intros url Hq; unfold some_download; by rewrite decide_True) example_wd ltac:(done) ltac:(done)). cbn zeta in H.
  specialize (H ltac:(apply no_file_on_the_way; by vm_compute) ltac:(by apply (bool_decide_unpack _)) ltac:(done) ltac:(by vm_compute) ltac:(by vm_compute)).
  exact (H ltac:(by apply (bool_decide_unpack _))).
Defined.
