(* ===== verification/ClientConn.v ===== *)
(** * The connection of the client (BBgrid_Client/conn/conn.go, client.go)

    A connection has a queue of 256 messages, a goroutine that writes them
    and pings, and one that reads and calls the handler.  Any number of
    goroutines call [WriteJSON].  The steps are what these goroutines do
    between two channel operations or calls of the WebSocket; a call of the
    handler takes as long as it takes.  The WebSocket takes messages until it
    is closed, and may fail at any time; deadlines are such failures. *)

From S2P Require Import Prelude Types Message Wire.

Definition queue_size : nat := 256.

Section connection.
(** Messages, and [json.Unmarshal] into one. *)
Context {Msg : Type} (unmarshal : bytes → option Msg).

Inductive reader_phase := Reading | Handling (m : Msg) | ReaderLeft.
Inductive writer_phase := Waiting | Writing (m : bytes) | WriterLeft.
Inductive call_phase := Blocked (data : bytes) | Done (r : Res unit).

Record Connection := mkConnection {
  cn_send : list bytes;
  cn_done : bool;
  (* [false] once the WebSocket is closed *)
  cn_open : bool;
  (* the goroutines *)
  cn_reader : reader_phase;
  cn_writer : writer_phase;
  cn_calls : gmap nat call_phase;
  (* the WebSocket: what was written, and what is to be read *)
  cn_written : list bytes;
  cn_incoming : list bytes;
  (* the calls of the handler, and the messages accepted by [WriteJSON] *)
  cn_handled : list Msg;
  cn_accepted : list bytes;
}.

(** [New] and [Start]. *)
Definition New (incoming : list bytes) : Connection := mkConnection [] false true Reading Waiting ∅ [] incoming [] [].

(** [Close] ends [done], and then the WebSocket. *)
Definition Close (c : Connection) : Connection :=
  mkConnection c.(cn_send) true c.(cn_open) c.(cn_reader) c.(cn_writer) c.(cn_calls) c.(cn_written) c.(cn_incoming) c.(cn_handled) c.(cn_accepted).
Definition close_socket (c : Connection) : Connection :=
  mkConnection c.(cn_send) c.(cn_done) false c.(cn_reader) c.(cn_writer) c.(cn_calls) c.(cn_written) c.(cn_incoming) c.(cn_handled) c.(cn_accepted).

(** [WriteJSON] after [json.Marshal]: [select] waits for room or the end. *)
Definition call (i : nat) (data : bytes) (c : Connection) : Connection :=
  mkConnection c.(cn_send) c.(cn_done) c.(cn_open) c.(cn_reader) c.(cn_writer) (<[i := Blocked data]> c.(cn_calls)) c.(cn_written) c.(cn_incoming)
    c.(cn_handled) c.(cn_accepted).
Definition accept (i : nat) (data : bytes) (c : Connection) : Connection :=
  mkConnection (c.(cn_send) ++ [data]) c.(cn_done) c.(cn_open) c.(cn_reader) c.(cn_writer) (<[i := Done (Ok tt)]> c.(cn_calls)) c.(cn_written)
    c.(cn_incoming) c.(cn_handled) (c.(cn_accepted) ++ [data]).
Definition refuse (i : nat) (c : Connection) : Connection :=
  mkConnection c.(cn_send) c.(cn_done) c.(cn_open) c.(cn_reader) c.(cn_writer) (<[i := Done (Err "connection closed")]> c.(cn_calls)) c.(cn_written)
    c.(cn_incoming) c.(cn_handled) c.(cn_accepted).

Definition with_writer (w : writer_phase) (c : Connection) : Connection :=
  mkConnection c.(cn_send) c.(cn_done) c.(cn_open) c.(cn_reader) w c.(cn_calls) c.(cn_written) c.(cn_incoming) c.(cn_handled) c.(cn_accepted).
Definition with_reader (r : reader_phase) (c : Connection) : Connection :=
  mkConnection c.(cn_send) c.(cn_done) c.(cn_open) r c.(cn_writer) c.(cn_calls) c.(cn_written) c.(cn_incoming) c.(cn_handled) c.(cn_accepted).

(** [writePump] *)
Definition writer_take (m : bytes) (rest : list bytes) (c : Connection) : Connection :=
  mkConnection rest c.(cn_done) c.(cn_open) c.(cn_reader) (Writing m) c.(cn_calls) c.(cn_written) c.(cn_incoming) c.(cn_handled) c.(cn_accepted).
Definition writer_wrote (m : bytes) (c : Connection) : Connection :=
  mkConnection c.(cn_send) c.(cn_done) c.(cn_open) c.(cn_reader) Waiting c.(cn_calls) (c.(cn_written) ++ [m]) c.(cn_incoming) c.(cn_handled) c.(cn_accepted).
Definition writer_leave (c : Connection) : Connection := Close (with_writer WriterLeft c).

(** [readPump] *)
Definition reader_read (m : bytes) (rest : list bytes) (c : Connection) : Connection :=
  let r := match unmarshal m with Some msg => Handling msg | None => Reading end in
  let handled := match unmarshal m with Some msg => c.(cn_handled) ++ [msg] | None => c.(cn_handled) end in
  mkConnection c.(cn_send) c.(cn_done) c.(cn_open) r c.(cn_writer) c.(cn_calls) c.(cn_written) rest handled c.(cn_accepted).
Definition reader_leave (c : Connection) : Connection := Close (with_reader ReaderLeft c).

(** The steps of the two goroutines. *)
Inductive pump_step (c : Connection) : Connection → Prop :=
| PTake m rest : c.(cn_writer) = Waiting → c.(cn_send) = m :: rest → pump_step c (writer_take m rest c)
| PWrote m : c.(cn_writer) = Writing m → c.(cn_open) = true → pump_step c (writer_wrote m c)
| PWriteFails m : c.(cn_writer) = Writing m → pump_step c (writer_leave c)
| PPing : c.(cn_writer) = Waiting → c.(cn_open) = true → pump_step c c
| PPingFails : c.(cn_writer) = Waiting → pump_step c (writer_leave c)
| PStop : c.(cn_writer) = Waiting → c.(cn_done) = true → pump_step c (writer_leave c)
| PRead m rest : c.(cn_reader) = Reading → c.(cn_open) = true → c.(cn_incoming) = m :: rest → pump_step c (reader_read m rest c)
| PReadFails : c.(cn_reader) = Reading → pump_step c (reader_leave c)
| PHandled m : c.(cn_reader) = Handling m → pump_step c (with_reader Reading c).

(** The steps of the goroutines that call [WriteJSON], and of [Close]. *)
Inductive conn_step (c : Connection) : Connection → Prop :=
| CPump c' : pump_step c c' → conn_step c c'
| CCall i data : c.(cn_calls) !! i = None → conn_step c (call i data c)
| CAccept i data : c.(cn_calls) !! i = Some (Blocked data) → length c.(cn_send) < queue_size → conn_step c (accept i data c)
| CRefuse i data : c.(cn_calls) !! i = Some (Blocked data) → c.(cn_done) = true → conn_step c (refuse i c)
| CClose : conn_step c (Close c)
| CSocket : c.(cn_done) = true → conn_step c (close_socket c).

(** ** What is sent and what is handled *)

Definition in_writer (c : Connection) : list bytes := match c.(cn_writer) with Writing m => [m] | _ => [] end.

Record conn_ok (received : list bytes) (c : Connection) : Prop := mkConnOk {
  co_bound : length c.(cn_send) <= queue_size;
  co_sent : c.(cn_writer) ≠ WriterLeft → c.(cn_accepted) = c.(cn_written) ++ in_writer c ++ c.(cn_send);
  co_left : c.(cn_writer) = WriterLeft → c.(cn_done) = true ∧ ∃ lost, length lost <= 1 ∧ c.(cn_accepted) = c.(cn_written) ++ lost ++ c.(cn_send);
  co_read : ∃ past, received = past ++ c.(cn_incoming) ∧ c.(cn_handled) = omap unmarshal past;
  co_reader : c.(cn_reader) = ReaderLeft → c.(cn_done) = true;
  co_refused i : c.(cn_calls) !! i = Some (Done (Err "connection closed")) → c.(cn_done) = true;
}.

Lemma conn_ok_start received : conn_ok received (New received).
Proof. split; cbn; try done; [unfold queue_size; lia|by exists []]. Qed.

Lemma pump_step_ok received c c' : pump_step c c' → conn_ok received c → conn_ok received c'.
Proof.
  intros Hs [Hb Hsent Hleft (past & Hp & Hh) Hr Href].
  destruct Hs as [m rest Hw Hq|m Hw Hd|m Hw|Hw Hd|Hw|Hw Hd|m rest Hrd Hd Hi|Hrd|m Hrd]; unfold in_writer in *; split; cbn;
    try done; try (by exists past); try (intros i Hi'; try done; by eapply Href).
  - rewrite Hq in Hb. cbn in Hb. lia.
  - intros _. rewrite Hsent, Hw, Hq by congruence. done.
  - intros _. rewrite Hsent, Hw by congruence. by rewrite <-(assoc_L (++)).
  - intros _. split; [done|]. exists [m]. split; [cbn; lia|]. by rewrite Hsent, Hw by congruence.
  - intros _. split; [done|]. exists []. split; [cbn; lia|]. by rewrite Hsent, Hw by congruence.
  - intros _. split; [done|]. exists []. split; [cbn; lia|]. by rewrite Hsent, Hw by congruence.
  - exists (past ++ [m]). rewrite omap_app, Hp, Hi, <-(assoc_L (++)), Hh. split; [done|]. cbn. destruct (unmarshal m); [done|by rewrite app_nil_r].
  - by destruct (unmarshal m).
  - intros Hw. by destruct (Hleft Hw).
Qed.

Lemma conn_step_ok received c c' : conn_ok received c → conn_step c c' → conn_ok received c'.
Proof.
  intros Hok [c1 Hp|i data Hi|i data Hi Hroom|i data Hi Hd| |Hd]; [by eapply pump_step_ok|..];
    destruct Hok as [Hb Hsent Hleft (past & Hp & Hh) Hr Href]; unfold in_writer in *; split; cbn;
    try done; try (by exists past).
  - intros k. rewrite lookup_insert_Some. intros [[_ ?]|[_ ?]]; [done|by eapply Href].
  - rewrite length_app. cbn. lia.
  - intros Hw. rewrite Hsent by done. by rewrite <-!(assoc_L (++)).
  - intros Hw. destruct (Hleft Hw) as (Hd & lost & Hl & ->). split; [done|]. exists lost. by rewrite <-!(assoc_L (++)).
  - intros k. rewrite lookup_insert_Some. intros [[_ ?]|[_ ?]]; [done|by eapply Href].
  - intros Hw. by destruct (Hleft Hw).
Qed.

Definition reachable (received : list bytes) : Connection → Prop := rtc conn_step (New received).

Lemma reachable_ok received c : reachable received c → conn_ok received c.
Proof. intros H. eapply (rtc_invariant conn_step); [|apply conn_ok_start|exact H]. intros a b Ha. by apply conn_step_ok. Qed.

(** C26. In every interleaving of the two goroutines, the callers and [Close],
    the queue stays within its bound; what was written is a prefix of the
    messages [WriteJSON] accepted, in that order, and until the end nothing
    accepted is missing; and the handler was called once for every message
    received that could be read, in order. *)
Theorem connection_in_order (received : list bytes) (c : Connection) :
  reachable received c →
  length c.(cn_send) <= queue_size ∧
  c.(cn_written) `prefix_of` c.(cn_accepted) ∧
  (c.(cn_done) = false → c.(cn_accepted) = c.(cn_written) ++ in_writer c ++ c.(cn_send)) ∧
  ∃ past, received = past ++ c.(cn_incoming) ∧ c.(cn_handled) = omap unmarshal past.
Proof.
  intros [Hb Hsent Hleft Hread _ _]%reachable_ok. split_and!; [done| |intros Hd; apply Hsent; intros Hw; destruct (Hleft Hw); congruence|done].
  destruct (cn_writer c) eqn:Hw; [by eexists; apply Hsent..|]. destruct (Hleft eq_refl) as (_ & lost & _ & ->). by eexists.
Qed.

(** How far the goroutines are from their end once the WebSocket is closed. *)
Definition to_end (c : Connection) : nat :=
  match c.(cn_writer) with Waiting => 2 | Writing _ => 1 | WriterLeft => 0 end +
  match c.(cn_reader) with Handling _ => 2 | Reading => 1 | ReaderLeft => 0 end.

Lemma pump_step_ends c c' : pump_step c c' → c.(cn_open) = false → to_end c' < to_end c ∧ c'.(cn_open) = false.
Proof.
  unfold to_end. intros [m rest Hw Hq|m Hw Hd|m Hw|Hw Hd|Hw|Hw Hd|m rest Hrd Hd Hi|Hrd|m Hrd] Ho; cbn; split; try congruence;
    rewrite ?Hw, ?Hrd; try lia; congruence.
Qed.


(** No call waits for ever on its own side: whenever one is blocked, the
    writing goroutine can by itself come to where the call may return, with
    the message in the queue or with the end of the connection. *)
Theorem blocked_call_returns (received : list bytes) (c : Connection) (i : nat) (data : bytes) :
  reachable received c → c.(cn_calls) !! i = Some (Blocked data) →
  ∃ c', rtc pump_step c c' ∧ (conn_step c' (accept i data c') ∨ conn_step c' (refuse i c')).
Proof.
  intros [Hb _ Hleft _ _ _]%reachable_ok Hi.
  destruct (decide (length c.(cn_send) < queue_size)) as [Hroom|Hfull]; [exists c; split; [done|left; by constructor]|].
  destruct (cn_writer c) as [|m|] eqn:Hw.
  - destruct (cn_send c) as [|m rest] eqn:Hq; [unfold queue_size in Hfull; cbn in Hfull; lia|].
    exists (writer_take m rest c). split; [apply rtc_once; by constructor|]. left. constructor; cbn; [done|]. cbn in Hb. lia.
  - exists (writer_leave c). split; [apply rtc_once; by eapply PWriteFails|]. right. eapply CRefuse; [exact Hi|done].
  - exists c. split; [done|]. right. eapply CRefuse; [exact Hi|]. by destruct (Hleft eq_refl).
Qed.

Lemma closed_writes_nothing c c' : conn_step c c' → c.(cn_open) = false → c'.(cn_written) = c.(cn_written) ∧ c'.(cn_open) = false.
Proof.
  intros [c1 Hp|i data Hi|i data Hi Hroom|i data Hi Hd| |Hd] Ho; try done.
  destruct Hp; cbn; try done. congruence.
Qed.

(** [nil] from [WriteJSON] does not mean that a message goes out: [select]
    may still choose the queue after the connection has ended, and whatever
    happens from there nothing more is ever written. *)
Theorem accepted_after_the_end (received : list bytes) (c : Connection) (i : nat) (data : bytes) :
  reachable received c → c.(cn_open) = false → c.(cn_calls) !! i = Some (Blocked data) → length c.(cn_send) < queue_size →
  conn_step c (accept i data c) ∧ (accept i data c).(cn_calls) !! i = Some (Done (Ok tt)) ∧
  ∀ c', rtc conn_step (accept i data c) c' → c'.(cn_written) = c.(cn_written).
Proof.
  intros _ Ho Hi Hroom. split_and!; [by constructor|cbn; by rewrite lookup_insert_eq|].
  intros c' Hc. apply (rtc_invariant conn_step (λ d, d.(cn_written) = c.(cn_written) ∧ d.(cn_open) = false)) in Hc; [by destruct Hc| |by split].
  intros a b [Hw Hoa] Hab. destruct (closed_writes_nothing _ _ Hab Hoa) as [H1 H2]. split; [by rewrite H1|done].
Qed.
End connection.

(** ** At work *)

Definition as_text (b : bytes) : option string := if decide (b = []) then None else Some (string_of_list_ascii b).
Definition two_texts : list bytes := [list_ascii_of_string "ping"; []; list_ascii_of_string "pong"].
Definition hello : bytes := list_ascii_of_string "hello".

(** Two messages are read, the second is not JSON; one is sent, another waits. *)
Definition in_use : @Connection string :=
  call 1 [] $ writer_wrote hello $ writer_take hello [] $ accept 0 hello $ call 0 hello $
  reader_read as_text [] [list_ascii_of_string "pong"] $ with_reader Reading $
  reader_read as_text (list_ascii_of_string "ping") [[]; list_ascii_of_string "pong"] $ New two_texts.

Lemma in_use_run : reachable as_text two_texts in_use.
Proof.
  unfold reachable, in_use.
  eapply rtc_l; [by apply CPump, PRead|]. eapply rtc_l; [by eapply CPump, PHandled|]. eapply rtc_l; [by apply CPump, PRead|].
  eapply rtc_l; [by apply (CCall as_text _ 0 hello)|]. eapply rtc_l; [apply (CAccept as_text _ 0 hello); [done|unfold queue_size; cbn; lia]|].
  eapply rtc_l; [by apply CPump, PTake|]. eapply rtc_l; [by eapply CPump, PWrote|]. eapply rtc_l; [by apply (CCall as_text _ 1 [])|]. done.
Qed.

Definition closed : @Connection string := close_socket (Close in_use).
Lemma closed_run : reachable as_text two_texts closed.
Proof.
  unfold reachable. etrans; [exact in_use_run|]. eapply rtc_l; [apply CClose|]. eapply rtc_l; [by apply CSocket|]. done.
Qed.

Lemma connection_in_order_witness :
  in_use.(cn_written) = [hello] ∧ in_use.(cn_handled) = ["ping"] ∧ in_use.(cn_written) `prefix_of` in_use.(cn_accepted).
Proof. destruct (connection_in_order as_text two_texts in_use in_use_run) as (_ & H & _). by split_and!. Defined.


Lemma blocked_call_returns_witness :
  ∃ c', rtc (pump_step as_text) in_use c' ∧ (conn_step as_text c' (accept 1 [] c') ∨ conn_step as_text c' (refuse 1 c')).
Proof. apply (blocked_call_returns as_text two_texts in_use 1 [] in_use_run). by vm_compute. Defined.

Lemma accepted_after_the_end_witness :
  conn_step as_text closed (accept 1 [] closed) ∧
  ∀ c', rtc (conn_step as_text) (accept 1 [] closed) c' → c'.(cn_written) = [hello].
Proof.
  destruct (accepted_after_the_end as_text two_texts closed 1 [] closed_run) as (H1 & _ & H2);
    [done|by vm_compute|unfold queue_size; cbn; lia|by split].
Defined.
