(* ===== verification/Cli.v ===== *)
(** * The command line tool (BBgrid_Cmd/bbgrid-cli/main.go)

    The requests of the commands, how they find their way through the router
    of the server, the credentials they carry, and the commands that push and
    pull files.  A command is what the flags were parsed to.  A JSON body is
    carried as the record it encodes, whose fields have the same names on both
    sides; the texts of answers, and the tables the tool prints, are left
    out. *)

From S2P Require Import Prelude Types StateStore Disk Path Core Auth Credentials Http HttpFacts File FileApi.

(** ** Escaping (net/url) *)

Definition hex_char (z : Z) : ascii := byte_of_Z (if (z <? 10)%Z then z + 48 else z + 55)%Z.
Definition unreserved (c : ascii) : bool := is_plain c || bool_decide (c = "~"%char).

(** [url.QueryEscape] *)
Fixpoint escape (s : string) : string :=
  match s with
  | "" => ""
  | String c s' =>
      if unreserved c then String c (escape s')
      else if decide (c = " "%char) then String "+" (escape s')
      else String "%" (String (hex_char (Z_of_byte c / 16)) (String (hex_char (Z_of_byte c mod 16)) (escape s')))
  end.

Fixpoint join_on (sep : ascii) (l : list string) : string :=
  match l with [] => "" | [e] => e | e :: l' => e +:+ String sep (join_on sep l') end.
Definition pair_text (kv : string * string) : string := escape kv.1 +:+ String "=" (escape kv.2).
(** [Values.Encode]: sorted by key. *)
Definition Encode (m : gmap string string) : string :=
  join_on "&" (pair_text <$> merge_sort (λ a b, str_le a.1 b.1) (map_to_list m)).

Lemma unreserved_char c : unreserved c = true → c ∉ ["%"; "+"; ";"; "="; "&"; "#"]%char.
Proof.
  unfold unreserved. intros [H%plain_char|H%bool_decide_eq_true]%orb_true_iff; [set_solver|subst; by apply (bool_decide_unpack _)].
Qed.
Lemma escaped_char c :
  let a := hex_char (Z_of_byte c / 16) in let b := hex_char (Z_of_byte c mod 16) in
  hex_value a = Some (Z_of_byte c / 16)%Z ∧ hex_value b = Some (Z_of_byte c mod 16)%Z ∧ is_plain a = true ∧ is_plain b = true.
Proof. by destruct c as [[] [] [] [] [] [] [] []]; vm_compute. Qed.

(** [unescape] undoes [escape], for any text. *)
Lemma unescape_escape s : unescape (escape s) = Some s.
Proof.
  induction s as [|c s IH]; [done|]. cbn [escape]. destruct (unreserved c) eqn:Hu.
  - pose proof (unreserved_char c Hu) as Hc. cbn [unescape]. rewrite decide_False by (intros ->; apply Hc; set_solver).
    rewrite IH. cbn. rewrite decide_False; [done|]. intros ->. apply Hc. set_solver.
  - case_decide as Hsp; [subst; cbn [unescape]; by rewrite decide_False, IH by done|].
    destruct (escaped_char c) as (Ha & Hb & _). cbn [unescape]. rewrite decide_True by done. rewrite Ha, Hb, IH.
    do 2 f_equal. rewrite <-(byte_of_Z_of_byte c) at 3. f_equal. pose proof (Z_div_mod_eq_full (Z_of_byte c) 16). lia.
Qed.

Lemma escape_no s c : c ∈ [";"; "="; "&"; "#"]%char → no_char c (escape s) = true.
Proof.
  intros Hc. induction s as [|d s IH]; [done|]. cbn [escape]. destruct (unreserved d) eqn:Hu; [|case_decide]; rewrite !no_char_cons, IH.
  - rewrite bool_decide_eq_true_2; [done|]. intros ->. apply (unreserved_char c Hu). set_solver.
  - rewrite bool_decide_eq_true_2; [done|]. intros <-. set_solver.
  - destruct (escaped_char d) as (_ & _ & Ha%plain_char & Hb%plain_char).
    rewrite !bool_decide_eq_true_2; [done|..]; intros <-; try set_solver.
Qed.

Lemma parse_pair_text kv : parse_pair (pair_text kv) = Some kv.
Proof.
  unfold parse_pair, pair_text. rewrite no_char_app, no_char_cons, !escape_no by set_solver. cbn [andb negb bool_decide].
  rewrite bool_decide_eq_false_2 by by destruct (escape kv.1). rewrite bool_decide_eq_true_2 by done. cbn [andb orb negb].
  rewrite Cut_here by (apply escape_no; set_solver). rewrite !unescape_escape. by destruct kv.
Qed.

Lemma pair_text_no c kv : c ∈ ["&"; "#"]%char → no_char c (pair_text kv) = true.
Proof.
  intros Hc. unfold pair_text. rewrite no_char_app, no_char_cons, !escape_no by set_solver.
  rewrite bool_decide_eq_true_2; [done|]. intros <-. set_solver.
Qed.

Lemma Parse_pairs l : ParseQuery (join_on "&" (pair_text <$> l)) = l.
Proof.
  unfold ParseQuery. induction l as [|kv l IH]; [done|]. destruct l as [|kv' l].
  - cbn [fmap list_fmap join_on]. rewrite split_on_none by (apply pair_text_no; set_solver). cbn [omap list_omap]. by rewrite parse_pair_text.
  - change (join_on "&" (pair_text <$> kv :: kv' :: l)) with (pair_text kv +:+ String "&" (join_on "&" (pair_text <$> kv' :: l))).
    rewrite split_on_cut by (apply pair_text_no; set_solver). cbn [omap list_omap]. rewrite parse_pair_text. f_equal. exact IH.
Qed.

Lemma Encode_no_fragment m : no_char "#" (Encode m) = true.
Proof.
  unfold Encode. generalize (merge_sort (λ a b : string * string, str_le a.1 b.1) (map_to_list m)). intros l.
  induction l as [|kv l IH]; [done|]. destruct l as [|kv' l]; [apply pair_text_no; set_solver|].
  change (join_on "&" (pair_text <$> kv :: kv' :: l)) with (pair_text kv +:+ String "&" (join_on "&" (pair_text <$> kv' :: l))).
  rewrite no_char_app, no_char_cons, pair_text_no by set_solver. exact IH.
Qed.

Lemma find_key (m : gmap string string) l k :
  l ≡ₚ map_to_list m → snd <$> List.find (λ kv, bool_decide (kv.1 = k)) l = m !! k.
Proof.
  intros Hl. destruct (List.find _ l) as [[k' v]|] eqn:E; cbn; symmetry.
  - apply find_some in E as [Hin Hk%bool_decide_eq_true]. cbn in Hk. subst k'. apply list_elem_of_In in Hin. rewrite Hl in Hin.
    by apply elem_of_map_to_list in Hin.
  - destruct (m !! k) as [v|] eqn:Em; [|done]. exfalso. apply elem_of_map_to_list in Em. rewrite <-Hl in Em. apply list_elem_of_In in Em.
    pose proof (find_none _ _ E _ Em) as Hf. cbn in Hf. by rewrite bool_decide_eq_true_2 in Hf.
Qed.

(** The parameters of an upload arrive as they were given, whatever
    characters they are made of: the server reads back every key and value of
    the query the tool encodes, and nothing else. *)
Theorem query_roundtrip (u path : string) (m : gmap string string) (k : string) :
  base_url u → no_char "#" path = true → no_char "?" path = true →
  query_of (u +:+ "/" +:+ path +:+ "?" +:+ Encode m) k = default "" (m !! k).
Proof.
  intros Hu P1 P2. rewrite query_of_url by done. rewrite Cut_none by apply Encode_no_fragment. cbn [fst]. unfold Encode.
  rewrite Parse_pairs. f_equal. apply find_key. apply merge_sort_Permutation.
Qed.

(** ** The router *)

(** The bodies the tool sends. *)
Inductive ReqBody :=
| BApply (r : ApplyReq) | BRegister (r : VoucherReq) | BApprove (r : AssignReq) | BRevoke (id : string) | BVoucher (r : NewVoucherReq)
| BProxy (r : ProxyCreateRequest) | BRelay (r : RelayCreateRequest) | BAssign (r : AssignReq) | BCall (action : string) (params : gmap string any).

(** The segments that stand for the parameters of a pattern. *)
Fixpoint path_args (pattern path : list string) : option (list string) :=
  match pattern, path with
  | [], [] => Some []
  | p :: pattern', s :: path' =>
      if String.prefix ":" p then (if bool_decide (s = "") then None else cons s <$> path_args pattern' path')
      else if bool_decide (p = s) then path_args pattern' path' else None
  | _, _ => None
  end.

Definition arg (l : list string) : string := default "" (head l).
Definition bind {T} (read : ReqBody → option T) (b : option ReqBody) : Res T :=
  match b ≫= read with Some r => Ok r | None => Err "EOF" end.
(** [SetupRoutes], up to the WebSockets and the login. *)
Definition handlers : list (string * string * (list string → option ReqBody → Route)) :=
  [("GET", "/PING", λ _ _, GetPing); ("GET", "/status", λ _ _, GetStatus); ("GET", "/health", λ _ _, GetHealth);
   ("POST", "/api/v1/register/apply", λ _ b, PostRegisterApply (bind (λ b, match b with BApply r => Some r | _ => None end) b));
   ("POST", "/api/v1/register/voucher", λ _ b, PostRegisterVoucher (bind (λ b, match b with BRegister r => Some r | _ => None end) b));
   ("GET", "/api/v1/register/list", λ _ _, GetRegisterList);
   ("GET", "/api/v1/nodes", λ _ _, GetNodes); ("GET", "/api/v1/nodes/:id", λ l _, GetNode (arg l));
   ("POST", "/api/v1/register/approve", λ _ b, PostApprove (bind (λ b, match b with BApprove r => Some r | _ => None end) b));
   ("POST", "/api/v1/register/revoke", λ _ b, PostRevoke (bind (λ b, match b with BRevoke r => Some r | _ => None end) b));
   ("GET", "/api/v1/register/pending", λ _ _, GetPendingNodes);
   ("POST", "/api/v1/vouchers", λ _ b, PostVoucher (bind (λ b, match b with BVoucher r => Some r | _ => None end) b));
   ("GET", "/api/v1/vouchers", λ _ _, GetVouchers); ("DELETE", "/api/v1/vouchers/:code", λ l _, DeleteVoucherCode (arg l));
   ("GET", "/api/v1/proxies", λ _ _, GetProxies);
   ("POST", "/api/v1/proxies", λ _ b, PostProxy (bind (λ b, match b with BProxy r => Some r | _ => None end) b));
   ("DELETE", "/api/v1/proxies/:port", λ l _, DeleteProxyPort (arg l));
   ("GET", "/api/v1/relay", λ _ _, GetRelays);
   ("POST", "/api/v1/relay", λ _ b, PostRelay (bind (λ b, match b with BRelay r => Some r | _ => None end) b));
   ("DELETE", "/api/v1/relay/:id", λ l _, DeleteRelayId (arg l));
   ("GET", "/api/v1/namespaces", λ _ _, GetNamespaces); ("GET", "/api/v1/namespaces/:name", λ l _, GetNamespaceName (arg l));
   ("GET", "/api/v1/namespaces/:name/clients", λ l _, GetNamespaceClients (arg l));
   ("POST", "/api/v1/namespaces/assign", λ _ b, PostAssign (bind (λ b, match b with BAssign r => Some r | _ => None end) b));
   ("GET", "/api/v1/tasks/:id", λ l _, GetTask (arg l));
   ("GET", "/api/v1/runtime/capabilities", λ _ _, GetCapabilities);
   ("POST", "/api/v1/runtime/call",
      λ _ b, PostCall (λ _, "") (bind (λ b, match b with BCall a p => Some (a, p) | _ => None end) b) (Err "no multipart boundary"))].

Fixpoint search (l : list (string * string * (list string → option ReqBody → Route))) (method : string) (segments : list string)
    (body : option ReqBody) : option Route :=
  match l with
  | [] => None
  | (m, pattern, build) :: l' =>
      match (if decide (m = method) then path_args (split pattern) segments else None) with
      | Some args => Some (build args body)
      | None => search l' method segments body
      end
  end.
Definition to_route (method path : string) (body : option ReqBody) : option Route :=
  let '(target, _, _) := Cut path "#"%char in
  let '(target, _, _) := Cut target "?"%char in
  search handlers method (split target) body.

(** ** The commands *)

(** A command that is accepted, as its flags were parsed. *)
Inductive Command :=
| Ping | Status | NodeList | NodeShow (id : string)
| ProxyList | ProxyCreate (clientID : string) (remote loc : Z) (localIP protocol bindAddr : string) | ProxyClose (port : string)
| RelayList | RelayCreate (aSide bSide : string) (aPort bPort : Z) (protocol bIP aIP : string) | RelayClose (id : string)
| RegisterApply (id pubkey token : string) | RegisterApprove (id ns role : string) | RegisterRevoke (id : string)
| RegisterPending | RegisterList | RegisterVoucher (id pubkey voucher : string)
| VoucherCreate (maxUses expiresIn : Z) (ns role : string) | VoucherList | VoucherDelete (code : string)
| NamespaceList | NamespaceInfo (name : string) | NamespaceClients (name : string) | NamespaceAssign (id ns role : string)
| Sync | TaskShow (id : string) | RunAction (action : string) (params : gmap string string).

(** The paths that hold an argument. *)
Definition node_path (id : string) : string := "/api/v1/nodes/" +:+ id.
Definition proxy_path (port : string) : string := "/api/v1/proxies/" +:+ port.
Definition relay_path (id : string) : string := "/api/v1/relay/" +:+ id.
Definition voucher_path (code : string) : string := "/api/v1/vouchers/" +:+ code.
Definition namespace_path (name : string) : string := "/api/v1/namespaces/" +:+ name.
Definition clients_path (name : string) : string := "/api/v1/namespaces/" +:+ name +:+ "/clients".
Definition task_path (id : string) : string := "/api/v1/tasks/" +:+ id.

(** The commands that look at their arguments: the method, the path and the
    body, or [None] where the tool stops. *)
Definition proxy_create (clientID : string) (remote loc : Z) (localIP protocol bindAddr : string) : option (string * string * option ReqBody) :=
  if decide (remote = 0%Z ∨ loc = 0%Z) then None
  else Some ("POST", "/api/v1/proxies", Some (BProxy (mkProxyCreateRequest clientID remote loc localIP protocol bindAddr))).
Definition relay_create (aSide bSide : string) (aPort bPort : Z) (protocol bIP aIP : string) : option (string * string * option ReqBody) :=
  if decide (aPort = 0%Z ∨ bPort = 0%Z) then None
  else Some ("POST", "/api/v1/relay", Some (BRelay (mkRelayCreateRequest aSide bSide protocol aPort bPort bIP aIP))).
(** [keyData] is what was in the file of the key. *)
Definition register_apply (id keyData token : string) : option (string * string * option ReqBody) :=
  if decide (id = "" ∨ token = "") then None
  else Some ("POST", "/api/v1/register/apply", Some (BApply (mkApplyReq id keyData token))).
Definition register_approve (id ns role : string) : option (string * string * option ReqBody) :=
  if decide (id = "") then None else Some ("POST", "/api/v1/register/approve", Some (BApprove (mkAssignReq id ns role))).
Definition register_revoke (id : string) : option (string * string * option ReqBody) :=
  if decide (id = "") then None else Some ("POST", "/api/v1/register/revoke", Some (BRevoke id)).
Definition register_voucher (id keyData voucher : string) : option (string * string * option ReqBody) :=
  if decide (id = "" ∨ voucher = "") then None
  else Some ("POST", "/api/v1/register/voucher", Some (BRegister (mkVoucherReq id keyData voucher))).
Definition voucher_create (maxUses expiresIn : Z) (ns role : string) : option (string * string * option ReqBody) :=
  if decide (maxUses = 0%Z ∧ expiresIn = 0%Z) then None
  else Some ("POST", "/api/v1/vouchers", Some (BVoucher (mkNewVoucherReq maxUses expiresIn ns role))).

Definition request_of (c : Command) : option (string * string * option ReqBody) :=
  match c with
  | Ping => Some ("GET", "/PING", None)
  | Status => Some ("GET", "/status", None)
  | NodeList => Some ("GET", "/api/v1/nodes", None)
  | NodeShow id => Some ("GET", node_path id, None)
  | ProxyList => Some ("GET", "/api/v1/proxies", None)
  | ProxyCreate id r l ip proto bindAddr => proxy_create id r l ip proto bindAddr
  | ProxyClose port => Some ("DELETE", proxy_path port, None)
  | RelayList => Some ("GET", "/api/v1/relay", None)
  | RelayCreate a b ap bp proto bip aip => relay_create a b ap bp proto bip aip
  | RelayClose id => Some ("DELETE", relay_path id, None)
  | RegisterApply id keyData token => register_apply id keyData token
  | RegisterApprove id ns role => register_approve id ns role
  | RegisterRevoke id => register_revoke id
  | RegisterPending => Some ("GET", "/api/v1/register/pending", None)
  | RegisterList => Some ("GET", "/api/v1/register/list", None)
  | RegisterVoucher id keyData voucher => register_voucher id keyData voucher
  | VoucherCreate uses expires ns role => voucher_create uses expires ns role
  | VoucherList => Some ("GET", "/api/v1/vouchers", None)
  | VoucherDelete code => Some ("DELETE", voucher_path code, None)
  | NamespaceList => Some ("GET", "/api/v1/namespaces", None)
  | NamespaceInfo name => Some ("GET", namespace_path name, None)
  | NamespaceClients name => Some ("GET", clients_path name, None)
  | NamespaceAssign id ns role => Some ("POST", "/api/v1/namespaces/assign", Some (BAssign (mkAssignReq id ns role)))
  | Sync => Some ("GET", "/api/v1/runtime/capabilities", None)
  | TaskShow id => Some ("GET", task_path id, None)
  | RunAction action params => Some ("POST", "/api/v1/runtime/call", Some (BCall action (AString <$> params)))
  end.

(** What the command is for. *)
Definition meant (c : Command) : Route :=
  match c with
  | Ping => GetPing | Status => GetStatus | NodeList => GetNodes | NodeShow id => GetNode id
  | ProxyList => GetProxies | ProxyCreate id r l ip proto bindAddr => PostProxy (Ok (mkProxyCreateRequest id r l ip proto bindAddr))
  | ProxyClose port => DeleteProxyPort port
  | RelayList => GetRelays | RelayCreate a b ap bp proto bip aip => PostRelay (Ok (mkRelayCreateRequest a b proto ap bp bip aip))
  | RelayClose id => DeleteRelayId id
  | RegisterApply id pubkey token => PostRegisterApply (Ok (mkApplyReq id pubkey token))
  | RegisterApprove id ns role => PostApprove (Ok (mkAssignReq id ns role))
  | RegisterRevoke id => PostRevoke (Ok id)
  | RegisterPending => GetPendingNodes | RegisterList => GetRegisterList
  | RegisterVoucher id pubkey voucher => PostRegisterVoucher (Ok (mkVoucherReq id pubkey voucher))
  | VoucherCreate uses expires ns role => PostVoucher (Ok (mkNewVoucherReq uses expires ns role))
  | VoucherList => GetVouchers | VoucherDelete code => DeleteVoucherCode code
  | NamespaceList => GetNamespaces | NamespaceInfo name => GetNamespaceName name | NamespaceClients name => GetNamespaceClients name
  | NamespaceAssign id ns role => PostAssign (Ok (mkAssignReq id ns role))
  | Sync => GetCapabilities | TaskShow id => GetTask id
  | RunAction action params => PostCall (λ _, "") (Ok (action, AString <$> params)) (Err "no multipart boundary")
  end.

(** The part of a path a command takes from its arguments. *)
Definition path_arg (c : Command) : option string :=
  match c with
  | NodeShow s | ProxyClose s | RelayClose s | VoucherDelete s | NamespaceInfo s | NamespaceClients s | TaskShow s => Some s
  | _ => None
  end.
(** It is one segment of a path, as it is written. *)
Definition segment (s : string) : Prop := s ≠ "" ∧ ∀ c, c ∈ ["/"; "?"; "#"; "%"]%char → no_char c s = true.

Lemma to_route_path method path body :
  no_char "#" path = true → no_char "?" path = true → to_route method path body = search handlers method (split path) body.
Proof. intros H1 H2. unfold to_route. by rewrite !Cut_none by done. Qed.

Lemma to_route_segment method before s body :
  no_char "#" before = true → no_char "?" before = true → segment s →
  to_route method (before +:+ String "/" s) body = search handlers method (split before ++ [s]) body.
Proof.
  intros H1 H2 [Hne Hs]. assert (Hc : ∀ c, c ∈ ["/"; "?"; "#"]%char → no_char c s = true) by (intros c Hin; apply Hs; set_solver).
  rewrite to_route_path by (rewrite no_char_app, no_char_cons, Hc by set_solver; by rewrite ?H1, ?H2).
  by rewrite split_app, (split_single s) by (apply Hc; set_solver).
Qed.

(** A path that ends in an argument. *)
Ltac segment_case before s :=
  match goal with
  | |- to_route _ ?p _ = _ => change p with (before +:+ String "/" s)
  end;
  rewrite to_route_segment by done; match goal with H : segment s |- _ => destruct H as [? _] end; destruct s; [done|]; vm_compute; reflexivity.


(** ** Credentials *)

Record CLIConfig := mkCLIConfig { ci_Server : string; ci_APIKey : string; ci_Token : string; ci_TokenExp : Z; ci_Insecure : bool }.

(** [strings.TrimRight(u, "/")] *)
Fixpoint TrimSlashes (s : string) : string :=
  match s with
  | "" => ""
  | String c s' => match TrimSlashes s' with "" => if decide (c = "/"%char) then "" else String c "" | t => String c t end
  end.
Definition normalizeServerURL (u : string) : string :=
  let u := TrimSlashes u in
  if decide (u = "") then u
  else if String.prefix "http://" u || String.prefix "https://" u then u else "https://" +:+ u.

Definition json_header (body : option ReqBody) : Header :=
  match body with Some _ => {["Content-Type" := ["application/json"]]} | None => ∅ end.
Definition key_header (cfg : CLIConfig) : Header := {["X-Api-Key" := [cfg.(ci_APIKey)]]}.
Definition api_header (cfg : CLIConfig) (body : option ReqBody) : Header :=
  (if decide (cfg.(ci_Token) ≠ "") then {["Authorization" := ["Bearer " +:+ cfg.(ci_Token)]]}
   else if decide (cfg.(ci_APIKey) ≠ "") then key_header cfg else ∅) ∪ json_header body.
Definition without_token (cfg : CLIConfig) : CLIConfig :=
  mkCLIConfig cfg.(ci_Server) cfg.(ci_APIKey) "" cfg.(ci_TokenExp) cfg.(ci_Insecure).

Section tool.
Context {W Provider : Type}.
Context `{!JsonCodec (gmap string ClientRecord)} `{!JsonCodec (gmap string Voucher)}.
Context (APIKey ClientToken version : string) (jwtSecret : bytes) (j : JWT) (cy : Crypto).
(** The text of an answer. *)
Context (text : Response → string).
Abbreviation serve := (Http.serve (W := W) (Provider := Provider) APIKey ClientToken version jwtSecret j cy).

Definition http_error (r : Response) : string := "HTTP " +:+ pretty (status_of r) +:+ ": " +:+ text r.

(** The request, once it has found its route. *)
Definition send (env : req_env) (h : Header) (method path : string) (body : option ReqBody) (s : Api) : Response * Api :=
  match to_route method path body with
  | Some r => serve env h r s
  | None => (fail 404 "404 page not found", s)
  end.

(** [api], while the server answers: the answer, the configuration, and
    whether it was written to its file.  [env'] is the second request. *)
Definition api (env env' : req_env) (method path : string) (body : option ReqBody) (cfg : CLIConfig) (s : Api) :
    Res Response * CLIConfig * bool * Api :=
  let '(resp, s1) := send env (api_header cfg body) method path body s in
  let '(resp2, cfg2, saved, s2) :=
    if decide (status_of resp = 401%Z ∧ cfg.(ci_Token) ≠ "" ∧ cfg.(ci_APIKey) ≠ "") then
      let '(r, s2) := send env' (key_header cfg ∪ json_header body) method path body s1 in (r, without_token cfg, true, s2)
    else (resp, cfg, false, s1) in
  (if (400 <=? status_of resp2)%Z then Err (http_error resp2) else Ok resp2, cfg2, saved, s2).

(** [cmdLogin]: the key is put into the JSON text as it is, so it must not
    hold a quote. *)
Definition cmdLogin (env : req_env) (server apiKey : string) (now : Z) (insecure : bool) (cfg : CLIConfig) (s : Api) :
    Res unit * CLIConfig * Api :=
  if decide (server = "" ∨ apiKey = "") then (Err "-server and -api-key are required", cfg, s)
  else
    let '(resp, s') := serve env ∅ (PostLogin (Ok apiKey)) s in
    match resp with
    | Json status code msg d =>
        if (400 <=? status)%Z then (Err (http_error resp), cfg, s')
        else if decide (code ≠ 0%Z) then (Err msg, cfg, s')
        else
          let '(token, expires) := match d with DToken t e => (t, e) | _ => ("", 0%Z) end in
          (Ok tt, mkCLIConfig (TrimSlashes (normalizeServerURL server)) cfg.(ci_APIKey) token (now + expires) (cfg.(ci_Insecure) || insecure), s')
    | _ => (Ok tt, mkCLIConfig (TrimSlashes (normalizeServerURL server)) cfg.(ci_APIKey) "" now (cfg.(ci_Insecure) || insecure), s')
    end.

(** [print]: the code the tool exits with. *)
Definition print_exit (r : Response) : Z :=
  match r with Json _ code _ _ => if decide (code ≠ 0%Z) then 1%Z else 0%Z | _ => 0%Z end.

Lemma key_header_ok env body cfg :
  cfg.(ci_APIKey) = APIKey → APIKey ≠ "" →
  requireJWT APIKey ClientToken jwtSecret j env (key_header cfg ∪ json_header body) = None.
Proof.
  intros Hk Hne. apply requireJWT_spec. right; left. unfold key_header. rewrite Hk.
  destruct body; split_and!; try (by vm_compute); done.
Qed.

(** A token that is no longer good costs one refused request: it changes
    nothing at the server, the token is removed from the file of the tool,
    and the same request is served once, with the key.  A good token is used
    as it is. *)
Theorem token_fallback (env env' : req_env) (method path : string) (body : option ReqBody) (cfg : CLIConfig) (s : Api) (r : Route) :
  to_route method path body = Some r → protected r = true →
  cfg.(ci_Token) ≠ "" → cfg.(ci_APIKey) = APIKey → APIKey ≠ "" →
  let served env h := let '(resp, s') := handle APIKey ClientToken version jwtSecret j cy env h r s in
    (if (400 <=? status_of resp)%Z then Err (http_error resp) else Ok resp, s') in
  (ValidateToken j jwtSecret (rv_s env) cfg.(ci_Token) = None →
   let '(a, s') := served env' (key_header cfg ∪ json_header body) in
   api env env' method path body cfg s = (a, without_token cfg, true, s')) ∧
  (is_Some (ValidateToken j jwtSecret (rv_s env) cfg.(ci_Token)) →
   status_of (handle APIKey ClientToken version jwtSecret j cy env (api_header cfg body) r s).1 ≠ 401%Z →
   let '(a, s') := served env (api_header cfg body) in
   api env env' method path body cfg s = (a, cfg, false, s')).
Proof.
  intros Hroute Hp Ht Hk Hne served. unfold api, send. rewrite Hroute. unfold Http.serve. rewrite Hp.
  assert (Hauth : GetHeader (api_header cfg body) "Authorization" = "Bearer " +:+ cfg.(ci_Token)).
  { unfold api_header. rewrite decide_True by done. destruct body; vm_compute; done. }
  split; intros Hv.
  - destruct (requireJWT APIKey ClientToken jwtSecret j env (api_header cfg body)) as [resp|] eqn:E.
    + rewrite (requireJWT_stop _ _ _ _ _ _ _ E). rewrite decide_True by by rewrite Hk. rewrite key_header_ok by done.
      unfold served. by destruct (handle _ _ _ _ _ _ env' _ _ _).
    + apply requireJWT_spec in E as [(t & Heq & Hs)|[[? _]|[? _]]]; [|by rewrite Hauth in *..].
      rewrite Hauth in Heq. apply (inj (String.append "Bearer ")) in Heq as <-. destruct Hs. congruence.
  - intros H401. assert (requireJWT APIKey ClientToken jwtSecret j env (api_header cfg body) = None) as ->
      by (apply requireJWT_spec; left; by eexists).
    unfold served. destruct (handle _ _ _ _ _ _ env _ _ _) as [resp s']. cbn in H401. by rewrite decide_False by naive_solver.
Qed.
End tool.

(** ** [run] *)

(** [strings.TrimLeft(key, "-")] *)
Fixpoint TrimDashes (s : string) : string :=
  match s with String c s' => if decide (c = "-"%char) then TrimDashes s' else s | "" => "" end.

(** The file and the parameters among the arguments: the first argument
    without an equals sign is the file, unless it is empty. *)
Definition run_arg (acc : string * gmap string string) (arg : string) : string * gmap string string :=
  if negb (Contains arg "=") && bool_decide (acc.1 = "") then (arg, acc.2)
  else match Cut arg "="%char with
  | (key, value, true) => (acc.1, <[TrimDashes key := value]> acc.2)
  | _ => acc
  end.
Definition run_args (args : list string) : string * gmap string string := foldl run_arg ("", ∅) args.

Inductive RunPlan :=
| Upload (filePath : string) (params : gmap string string)
| Download (path saveName : string)
| Usage
| Call (params : gmap string string).
Definition cmdRun (action : string) (args : list string) : RunPlan :=
  let '(filePath, params) := run_args args in
  if decide (filePath ≠ "") then Upload filePath params
  else if decide (action = "file.pull") then
    let filename := default "" (params !! "filename") in
    if decide (filename = "" ∨ default "" (params !! "client_id") = "") then Usage else Download filename (Base filename)
  else Call params.

(** [apiUpload] and [apiDownloadStream] use the key only where there is no
    token, and do not try again. *)
Definition stream_header (content_type : string) (cfg : CLIConfig) : Header :=
  <["Content-Type" := [content_type]]>
    (if decide (cfg.(ci_Token) ≠ "") then {["Authorization" := ["Bearer " +:+ cfg.(ci_Token)]]} else key_header cfg).
Definition multipart_type : string := "multipart/form-data; boundary=x".
(** [Query.Set]: a parameter named [action] replaces the action. *)
Definition upload_query (action : string) (params : gmap string string) : gmap string string := params ∪ {["action" := action]}.
Definition upload_request (cfg : CLIConfig) (action filePath : string) (params : gmap string string) (content : bytes) : PushRequest :=
  mkPush (cfg.(ci_Server) +:+ "/api/v1/runtime/call?" +:+ Encode (upload_query action params))
    (stream_header multipart_type cfg) (Base filePath) content.

Section streams.
Context {Provider : Type}.
Context `{!JsonCodec (gmap string ClientRecord)} `{!JsonCodec (gmap string Voucher)}.
Context (APIKey ClientToken version : string) (jwtSecret : bytes) (j : JWT) (cy : Crypto).
(** The machine of the server, and how much of a file reaches its disk. *)
Context (e : os_env) (to_disk : bytes → Reader) (p : FilePlugin).
(** The machine of the tool. *)
Context (local : os_env).
Context (text : Response → string).
Abbreviation FileServer := (@Api (option Reader * tree)%type Provider).
Abbreviation serve := (Http.serve (W := (option Reader * tree)%type) (Provider := Provider) APIKey ClientToken version jwtSecret j cy).
Abbreviation serve_push := (FileApi.serve_push (Provider := Provider) APIKey ClientToken version jwtSecret j cy to_disk).

Definition apiUpload (env : req_env) (cfg : CLIConfig) (action filePath : string) (params : gmap string string) (t : tree)
    (x : FileServer) : Res Response * FileServer :=
  match Open local (at_path local filePath) t with
  | Err msg => (Err ("打开文件失败: " +:+ msg), x)
  | Ok Folder => (Err "read: is a directory", x)
  | Ok (Regular content) =>
      let '(resp, x') := serve_push env (upload_request cfg action filePath params content) x in
      (if (400 <=? status_of resp)%Z then Err (http_error text resp) else Ok resp, x')
  end.

(** What arrives of an answer. *)
Definition answer_bytes (r : Response) : bytes := match r with Body b _ _ => b | _ => list_ascii_of_string (text r) end.
(** The number of bytes saved. *)
Definition apiDownloadStream (env : req_env) (cfg : CLIConfig) (path saveName : string) (t : tree) (x : FileServer) :
    Res nat * tree * FileServer :=
  let '(resp, x') := serve env (stream_header "application/json" cfg) (pull_call path) x in
  if (400 <=? status_of resp)%Z then (Err (http_error text resp), t, x')
  else match Create local (at_path local saveName) t with
  | (Err msg, t1) => (Err ("创建文件失败: " +:+ msg), t1, x')
  | (Ok _, t1) =>
      let '(r, t2) := Copy (at_path local saveName) (mkReader (answer_bytes resp) None) t1 in
      (match r with Ok _ => Ok (length (answer_bytes resp)) | Err msg => Err ("保存失败: " +:+ msg) end, t2, x')
  end.

Lemma stream_header_type content_type cfg : GetHeader (stream_header content_type cfg) "Content-Type" = content_type.
Proof.
  unfold stream_header. generalize (if decide (cfg.(ci_Token) ≠ "") then {["Authorization" := ["Bearer " +:+ cfg.(ci_Token)]]} else key_header cfg).
  intros h. exact (f_equal (λ o, default "" (o ≫= head)) (lookup_insert_eq (h : gmap string (list string)) "Content-Type" [content_type])).
Qed.

Lemma serve_accepted (env : req_env) (h : Header) (r : Route) (x : FileServer) :
  requireJWT APIKey ClientToken jwtSecret j env h = None →
  serve env h r x = handle APIKey ClientToken version jwtSecret j cy env h r x.
Proof. intros Hj. unfold Http.serve. rewrite Hj. by destruct (protected r). Qed.

(** A push of the tool arrives with the parameters it was given. *)
Lemma upload_served (env : req_env) (cfg : CLIConfig) (filePath : string) (params : gmap string string) (content : bytes) (x : FileServer) caps :
  base_url cfg.(ci_Server) → requireJWT APIKey ClientToken jwtSecret j env (stream_header multipart_type cfg) = None →
  x.(ap_caps) = register_file e p caps → params !! "action" = None → name (Base filePath) →
  let client := default "" (params !! "client_id") in
  let type := default "" (params !! "type") in
  let '(r, t') := SaveFile e p (save_path client type (Base filePath)) (to_disk content) (server_tree x) in
  serve_push env (upload_request cfg "file.push" filePath params content) x =
  (ok (DResult (push_result (Base filePath) (save_path client type (Base filePath)) r)),
   with_world (Some (to_disk content), t') x).
Proof.
  intros Hu Hj Hcaps Hact Hname client type. unfold FileApi.serve_push. cbn [ps_url ps_header ps_content ps_filename upload_request].
  set (q := upload_query "file.push" params).
  replace (cfg.(ci_Server) +:+ "/api/v1/runtime/call?" +:+ Encode q) with (cfg.(ci_Server) +:+ "/" +:+ "api/v1/runtime/call" +:+ "?" +:+ Encode q) by done.
  set (url := cfg.(ci_Server) +:+ _). assert (Hurl : ∀ k, query_of url k = default "" (q !! k)).
  { intros k. unfold url. rewrite query_of_url by done. rewrite Cut_none by apply Encode_no_fragment. cbn [fst]. unfold Encode.
    rewrite Parse_pairs. f_equal. apply find_key. apply merge_sort_Permutation. }
  rewrite decide_True; [|unfold url; rewrite url_path_of by done; by vm_compute].
  rewrite serve_accepted by done. rewrite (Base_name (Base filePath)) by done.
  assert (Q : q !! "action" = Some "file.push" ∧ ∀ k, k ≠ "action" → q !! k = params !! k).
  { unfold q, upload_query. split; [by rewrite lookup_union_r by done; rewrite lookup_singleton_eq|].
    intros k Hk. rewrite lookup_union, lookup_singleton_ne by done. by destruct (params !! k). }
  destruct Q as [Qa Qk].
  pose proof (push_handled APIKey ClientToken version jwtSecret j cy e to_disk p env (stream_header multipart_type cfg) x caps (query_of url)
    (Base filePath) content (Z.of_nat (length content)) Hcaps) as Hp.
  rewrite stream_header_type, !Hurl, Qa, !Qk in Hp by done. specialize (Hp eq_refl eq_refl (proj1 Hname)). exact Hp.
Qed.

(** The answer to a pull. *)
Definition pull_answer (sub : string) (t : tree) : Response :=
  match Open e (walk (at_path e p.(fp_dataDir)) sub) t with
  | Err _ => ok (DResult (Capability.mkResult 404 "file not found" ANil))
  | Ok nd => body_answer (Capability.mkBody (body_of nd) (Base sub)
               match nd with Regular b => Z.of_nat (length b) | Folder => e.(os_dirsize) end)
  end.

(** The working directory of the tool takes a file of this name. *)
Definition can_save (name : string) (t : tree) : Prop :=
  stat local.(os_wd) t = Some Folder ∧ t !! (name :: local.(os_wd)) ≠ Some Folder ∧ (∀ s q, local.(os_refuse) s q = false).

Lemma download_saved (env : req_env) (cfg : CLIConfig) (sub saveName : string) (t : tree) (x : FileServer) caps :
  requireJWT APIKey ClientToken jwtSecret j env (stream_header "application/json" cfg) = None →
  x.(ap_caps) = register_file e p caps → Forall name e.(os_wd) → p.(fp_dataDir) ≠ "" → sub ≠ "" → name saveName →
  can_save saveName t →
  let '(r, t', _) := apiDownloadStream env cfg sub saveName t x in
  let b := answer_bytes (pull_answer sub (server_tree x)) in
  r = Ok (length b) ∧ t' !! (saveName :: local.(os_wd)) = Some (Regular b).
Proof.
  intros Hj Hcaps Hwd Hdir Hsub Hname (Hst & Hnf & Hallow). unfold apiDownloadStream. rewrite serve_accepted by done.
  pose proof (pull_handled APIKey ClientToken version jwtSecret j cy e p env (stream_header "application/json" cfg) x caps sub
    Hcaps ltac:(by rewrite stream_header_type) Hwd Hdir Hsub) as Hp.
  destruct (handle _ _ _ _ _ _ _ _ _ _) as [resp x'] eqn:E. cbn [fst] in Hp.
  assert (Hp' : resp = pull_answer sub (server_tree x)) by exact Hp. rewrite <-Hp'. clear Hp.
  assert (Hs : status_of resp = 200%Z) by by rewrite Hp'; unfold pull_answer; destruct (Open _ _ _).
  rewrite Hs. cbn [Z.leb Z.compare Pos.compare Pos.compare_cont].
  assert (Ha : at_path local saveName = saveName :: local.(os_wd)).
  { unfold at_path, resolve. pose proof Hname as (Hne & _ & _ & Hsl). assert (IsAbs saveName = false) as ->.
    { destruct saveName as [|d n]; [done|]. rewrite no_char_cons in Hsl. apply andb_true_iff in Hsl as [Hd%bool_decide_eq_true _].
      by apply bool_decide_eq_false. }
    unfold walk. rewrite split_single by done. cbn [foldl]. by rewrite push_name. }
  rewrite Ha. unfold Create. rewrite Hallow, Hst. destruct (t !! (saveName :: os_wd local)) as [[|b]|] eqn:El; [done|..];
    unfold Copy; cbn [rd_err rd_data]; by rewrite lookup_insert_eq.
Qed.

Lemma run_args_pairs (l : list (string * string)) (acc : string * gmap string string) :
  Forall (λ kv, no_char "=" kv.1 = true ∧ TrimDashes kv.1 = kv.1) l →
  foldl run_arg acc ((λ kv, kv.1 +:+ String "=" kv.2) <$> l) = (acc.1, foldl (λ m kv, <[kv.1 := kv.2]> m) acc.2 l).
Proof.
  intros Hl. revert acc. induction Hl as [|[k v] l [Hk Ht] _ IH]; intros [f m]; [done|]. cbn [fmap list_fmap foldl].
  replace (run_arg (f, m) _) with (f, <[k := v]> m); [exact (IH (f, <[k := v]> m))|].
  cbn [fst snd] in *. unfold run_arg. rewrite Contains_char, no_char_app, no_char_cons, bool_decide_eq_false_2 by naive_solver.
  rewrite andb_false_r. cbn [negb andb]. rewrite Cut_here by done. by rewrite Ht.
Qed.

Lemma cmdRun_pull client name :
  client ≠ "" → name ≠ "" → cmdRun "file.pull" ["client_id=" +:+ client; "filename=" +:+ name] = Download name (Base name).
Proof.
  intros Hcl Hnm. unfold cmdRun, run_args.
  change ["client_id=" +:+ client; "filename=" +:+ name] with
    ((λ kv : string * string, kv.1 +:+ String "=" kv.2) <$> [("client_id", client); ("filename", name)]).
  rewrite run_args_pairs by by repeat constructor. cbn [foldl fst snd]. rewrite decide_False, decide_True by naive_solver.
  rewrite lookup_insert_eq, lookup_insert_ne, lookup_insert_eq by done. cbn [default]. unfold id. by rewrite decide_False by naive_solver.
Qed.

Lemma cmdRun_push filePath client type :
  filePath ≠ "" → no_char "=" filePath = true →
  cmdRun "file.push" [filePath; "client_id=" +:+ client; "type=" +:+ type] =
  Upload filePath (<["type" := type]> {["client_id" := client]}).
Proof.
  intros Hne Heq. unfold cmdRun, run_args.
  change [filePath; "client_id=" +:+ client; "type=" +:+ type] with
    (filePath :: ((λ kv : string * string, kv.1 +:+ String "=" kv.2) <$> [("client_id", client); ("type", type)])).
  cbn [foldl]. replace (run_arg ("", ∅) filePath) with (filePath, ∅ : gmap string string).
  2: { unfold run_arg. rewrite Contains_char, Heq. by rewrite bool_decide_eq_true_2. }
  rewrite run_args_pairs by by repeat constructor. by rewrite decide_True.
Qed.

Lemma walk_name base f : name f → walk base f = f :: base.
Proof. intros Hf. unfold walk. rewrite split_single by apply Hf. cbn [foldl]. by rewrite push_name. Qed.

(** What [run file.pull] makes of a file of this name below the data
    directory, and where there is none. *)
Lemma pull_answer_at (sub : string) (q : path) (t : tree) :
  (∀ s q, e.(os_refuse) s q = false) → walk (at_path e p.(fp_dataDir)) sub = q → q ≠ [] →
  match t !! q with
  | None => pull_answer sub t = ok (DResult (Capability.mkResult 404 "file not found" ANil))
  | Some (Regular b) => answer_bytes (pull_answer sub t) = b
  | Some Folder => True
  end.
Proof.
  intros Hallow Hq Hne. unfold pull_answer, Open. rewrite Hallow, Hq. destruct q as [|y q]; [done|].
  cbn [stat]. by destruct (t !! (y :: q)) as [[|b]|].
Qed.

Lemma not_on_the_way (f ts client : string) (base : path) (t t' : tree) :
  f ≠ client →
  (∀ q', q' ≠ [f; ts; client] ++ base → t' !! q' = t !! q' ∨ (q' `suffix_of` tail ([f; ts; client] ++ base) ∧ t !! q' = None ∧ t' !! q' = Some Folder)) →
  t' !! (f :: base) = t !! (f :: base).
Proof.
  intros Hfc Hrest. destruct (Hrest (f :: base)) as [|([k Hk] & _)]; [|done|].
  { intros Hx. apply (f_equal length) in Hx. cbn in Hx. lia. }
  exfalso. cbn in Hk. destruct k as [|k0 [|k1 k]]; cbn in Hk.
  - apply (f_equal length) in Hk. cbn in Hk. lia.
  - by injection Hk as _ ->.
  - apply (f_equal length) in Hk. cbn in Hk. rewrite length_app in Hk. cbn in Hk. lia.
Qed.

(** A file that [run file.push] uploaded for a client arrives whole,
    whatever characters the names are made of.  [run file.pull] with the same
    client and the name of the file does not get it back: the client is not
    part of the request, the server does not find the name, answers 200 with
    the error inside, and the tool saves that answer under the name of the
    file and reports success.  With the place of the file as its name, and
    any client, the file comes back. *)
Theorem pushed_then_pulled (env env' : req_env) (cfg : CLIConfig) (filePath client type : string) (content : bytes) (t : tree)
    (x : FileServer) caps :
  Forall name e.(os_wd) → p.(fp_dataDir) ≠ "" → e.(os_wd_known) = true → at_path e p.(fp_dataDir) ≠ [] →
  wf_tree (server_tree x) → (∀ s q, e.(os_refuse) s q = false) → (∀ b, to_disk b = mkReader b None) →
  base_url cfg.(ci_Server) → x.(ap_caps) = register_file e p caps →
  requireJWT APIKey ClientToken jwtSecret j env (stream_header multipart_type cfg) = None →
  requireJWT APIKey ClientToken jwtSecret j env' (stream_header "application/json" cfg) = None →
  Open local (at_path local filePath) t = Ok (Regular content) → no_char "=" filePath = true → filePath ≠ "" →
  let f := Base filePath in
  Forall name [f; type +:+ "s"; client] → type ≠ "" → f ≠ client → can_save f t →
  let sub := JoinAll [client; type +:+ "s"; f] in
  let q := [f; type +:+ "s"; client] ++ at_path e p.(fp_dataDir) in
  free_way q (server_tree x) → server_tree x !! (f :: at_path e p.(fp_dataDir)) = None →
  let params := <["type" := type]> {["client_id" := client]} in
  cmdRun "file.push" [filePath; "client_id=" +:+ client; "type=" +:+ type] = Upload filePath params ∧
  cmdRun "file.pull" ["client_id=" +:+ client; "filename=" +:+ f] = Download f f ∧
  cmdRun "file.pull" ["client_id=" +:+ client; "filename=" +:+ sub] = Download sub f ∧
  let '(a, x1) := apiUpload env cfg "file.push" filePath params t x in
  a = Ok (ok (DResult (push_result f sub (Ok tt)))) ∧ server_tree x1 !! q = Some (Regular content) ∧
  (let '(r, t', _) := apiDownloadStream env' cfg f f t x1 in
   let error := list_ascii_of_string (text (ok (DResult (Capability.mkResult 404 "file not found" ANil)))) in
   r = Ok (length error) ∧ t' !! (f :: local.(os_wd)) = Some (Regular error)) ∧
  (let '(r, t', _) := apiDownloadStream env' cfg sub f t x1 in
   r = Ok (length content) ∧ t' !! (f :: local.(os_wd)) = Some (Regular content)).
Proof.
  intros Hwd Hdir Hk Hroot Hwf Hallow Hdisk Hu Hcaps Hj Hj' Hopen Heq Hne f Hn Htype Hfc Hsave sub q Hway Hnone params.
  assert (Hf : name f) by by apply Forall_cons in Hn as [? _].
  assert (Hcl : client ≠ "") by (exact (proj1 (Forall_inv (Forall_inv_tail (Forall_inv_tail Hn))))).
  assert (Hnr : Forall name [client; type +:+ "s"; f]) by (apply Forall_rev in Hn; exact Hn).
  assert (Hb : Base sub = f).
  { unfold sub. rewrite JoinAll_names by done. by apply (Base_join [client; type +:+ "s"] f). }
  assert (Hsub : sub ≠ "") by by intros E; rewrite E in Hb; rewrite <-Hb in Hf; destruct Hf as (_ & ? & _).
  split; [by apply cmdRun_push|]. split; [rewrite cmdRun_pull by (done || apply Hf); by rewrite Base_name|].
  split; [by rewrite cmdRun_pull, Hb|].
  unfold apiUpload. rewrite Hopen.
  pose proof (upload_served env cfg filePath params content x caps Hu Hj Hcaps ltac:(done) Hf) as Hp. cbn zeta in Hp.
  assert (P : default "" (params !! "client_id") = client ∧ default "" (params !! "type") = type).
  { unfold params. by rewrite lookup_insert_ne, lookup_singleton_eq, lookup_insert_eq by done. }
  destruct P as [P1 P2]. rewrite P1, P2 in Hp. unfold save_path in Hp. rewrite !decide_False in Hp by done. fold f sub in Hp.
  assert (Hq : q = walk (at_path e p.(fp_dataDir)) sub).
  { symmetry. apply (walk_JoinAll _ [f; type +:+ "s"; client]); [done..|by apply resolve_names]. }
  pose proof (SaveFile_works e p sub (to_disk content) (server_tree x) Hwd Hdir Hk Hroot Hwf Hallow ltac:(by rewrite Hdisk)) as Hs.
  cbn zeta in Hs. rewrite <-Hq in Hs. specialize (Hs ltac:(apply below_iff; by eexists [_; _; _]) Hway).
  destruct (SaveFile _ _ _ _ _) as [r t1]. destruct Hs as (-> & Hl & Hrest). rewrite Hdisk in Hl. cbn [rd_data] in Hl.
  rewrite Hp. set (x1 := with_world _ x). change (400 <=? _)%Z with false. cbn iota. split_and!; [done|exact Hl|..].
  - pose proof (download_saved env' cfg f f t x1 caps Hj' Hcaps Hwd Hdir (proj1 Hf) Hf Hsave) as Hd.
    pose proof (pull_answer_at f _ t1 Hallow (walk_name _ f Hf) ltac:(done)) as Ha.
    rewrite (not_on_the_way f _ _ _ _ _ Hfc Hrest), Hnone in Ha.
    change (server_tree x1) with t1 in Hd. by rewrite Ha in Hd.
  - pose proof (download_saved env' cfg sub f t x1 caps Hj' Hcaps Hwd Hdir Hsub Hf Hsave) as Hd.
    pose proof (pull_answer_at sub q t1 Hallow (eq_sym Hq) ltac:(done)) as Ha. rewrite Hl in Ha.
    change (server_tree x1) with t1 in Hd. by rewrite Ha in Hd.
Qed.
End streams.

(** ** At work *)

#[local] Existing Instances Auth.ClientRecord_countable Auth.Voucher_countable toy_codec.

Lemma query_roundtrip_witness :
  query_of ("https://hub:9909" +:+ "/" +:+ "api/v1/runtime/call" +:+ "?" +:+ Encode (<["type" := "a&b"]> {["client_id" := "cam #1"]})) "client_id" =
  "cam #1".
Proof. by rewrite (query_roundtrip "https://hub:9909" "api/v1/runtime/call" _ "client_id" a_base_url) by done. Defined.


(** A tool with the key, and a token that ends at 7000. *)
Definition a_tool : CLIConfig := mkCLIConfig "https://hub:9909" "key" "" 0 false.
Definition a_tool_with (token : string) : CLIConfig := mkCLIConfig "https://hub:9909" "key" token 7000 false.

Lemma token_fallback_witness :
  (api "key" "tok" "6" [] toy_jwt toy_crypto no_text example_req example_req "GET" "/api/v1/nodes/cam" None (a_tool_with "5") a_server).1 =
    (Err "HTTP 404: ", without_token (a_tool_with "5"), true) ∧
  (api "key" "tok" "6" [] toy_jwt toy_crypto no_text example_req example_req "GET" "/api/v1/nodes/cam" None (a_tool_with "7000") a_server).1 =
    (Err "HTTP 404: ", a_tool_with "7000", false).
Proof.
  split.
  - pose proof (token_fallback "key" "tok" "6" [] toy_jwt toy_crypto no_text example_req example_req "GET" "/api/v1/nodes/cam" None
      (a_tool_with "5") a_server (GetNode "cam") ltac:(by vm_compute) eq_refl ltac:(done) eq_refl ltac:(done)) as [H _].
    specialize (H ltac:(by vm_compute)). destruct (handle _ _ _ _ _ _ _ _ _ _) as [resp s'] eqn:E.
    assert (Hr : resp = fail 404 "client not found") by by apply (f_equal fst) in E; vm_compute in E; rewrite <-E.
    rewrite H, Hr. by vm_compute.
  - pose proof (token_fallback "key" "tok" "6" [] toy_jwt toy_crypto no_text example_req example_req "GET" "/api/v1/nodes/cam" None
      (a_tool_with "7000") a_server (GetNode "cam") ltac:(by vm_compute) eq_refl ltac:(done) eq_refl ltac:(done)) as [_ H].
    specialize (H ltac:(by vm_compute; eexists) ltac:(by vm_compute)). destruct (handle _ _ _ _ _ _ _ _ _ _) as [resp s'] eqn:E.
    assert (Hr : resp = fail 404 "client not found") by by apply (f_equal fst) in E; vm_compute in E; rewrite <-E.
    rewrite H, Hr. by vm_compute.
Defined.

Lemma pushed_then_pulled_witness :
  let '(a, x1) := apiUpload "key" "tok" "6" [] toy_jwt toy_crypto stored_whole example_os no_text example_req a_tool "file.push"
                    "data/c1/a.txt" (<["type" := "log"]> {["client_id" := "cam & co"]}) example_tree a_server in
  is_ok a = true ∧ server_tree x1 !! ["a.txt"; "logs"; "cam & co"; "data"; "app"; "srv"] = Some (Regular (list_ascii_of_string "hello")) ∧
  let '(r, t', _) := apiDownloadStream "key" "tok" "6" [] toy_jwt toy_crypto example_os no_text example_req a_tool "a.txt" "a.txt" example_tree x1 in
  r = Ok 0 ∧ t' !! ["a.txt"; "app"; "srv"] = Some (Regular []).
Proof.
  pose proof (pushed_then_pulled "key" "tok" "6" [] toy_jwt toy_crypto example_os stored_whole (Init ∅) example_os no_text
    example_req example_req a_tool "data/c1/a.txt" "cam & co" "log" (list_ascii_of_string "hello") example_tree a_server Capability.NewCapabilityRegistry
    example_wd) as H.
  specialize (H ltac:(by vm_compute) ltac:(done) ltac:(by vm_compute) example_wf ltac:(done) ltac:(done) a_base_url ltac:(done)
    ltac:(by vm_compute) ltac:(by vm_compute) ltac:(by vm_compute) ltac:(by vm_compute) ltac:(done)).
  cbn zeta in H. specialize (H ltac:(by apply (bool_decide_unpack _)) ltac:(done) ltac:(by vm_compute)).
  specialize (H ltac:(split; [by vm_compute|split; [by vm_compute|done]])).
  specialize (H ltac:(split; [by apply no_file_on_the_way; vm_compute|by vm_compute]) ltac:(by vm_compute)).
  destruct H as (_ & _ & _ & H). destruct (apiUpload _ _ _ _ _ _ _ _ _ _ _ _ _ _ _ _) as [a x1]. destruct H as (-> & Hl & Hp & _).
  split; [done|split; [exact Hl|]]. destruct (apiDownloadStream _ _ _ _ _ _ _ _ _ _ _ _ _ _) as [[r t'] x2]. exact Hp.
Defined.
