(* ===== verification/Config.v ===== *)
(** * Configuration (BBgrid_Server/main.go, common/config)

    How the configuration of the server and of the client comes from their
    files and the environment, and which plugins the server starts.  A file is
    missing, unreadable or its bytes; [parse] is the parser of JSON texts, the
    keys of an object being those of the struct tags.  Strings of the
    environment are empty where a variable is not set. *)

From S2P Require Import Prelude Types Path Wire File.

(** ** Files *)

(** An error of the os package, or one wrapped by [fmt.Errorf]. *)
Inductive go_error := PathError (not_exist : bool) (msg : string) | Wrapped (prefix : string) (e : go_error) | Plain (msg : string).
(** [os.IsNotExist] does not look into wrapped errors. *)
Definition IsNotExist (e : go_error) : bool := match e with PathError b _ => b | _ => false end.

Inductive file_read := Missing | Unreadable (msg : string) | Found (data : bytes).
Definition os_ReadFile (f : file_read) : bytes + go_error :=
  match f with
  | Missing => inr (PathError true "no such file or directory")
  | Unreadable msg => inr (PathError false msg)
  | Found data => inl data
  end.

(** A value of the file over what is there; [null] changes nothing. *)
Definition over {A} (read : any → option A) (m : gmap string any) (k : string) (d : A) : option A :=
  match m !! k with None | Some ANil => Some d | Some v => read v end.
Definition as_text (v : any) : option string := match v with AString s => Some s | _ => None end.
Definition as_flag (v : any) : option bool := match v with ABool b => Some b | _ => None end.
Definition as_int (v : any) : option Z := match v with AFloat64 f => integral f | _ => None end.
Definition as_object (v : any) : option (gmap string any) := match v with AMap m => Some m | _ => None end.

Section config.
Context (parse : bytes → option any).

(** [json.Unmarshal] into a struct that holds [d]. *)
Definition unmarshal {C} (overlay : gmap string any → C → option C) (data : bytes) (d : C) : C + go_error :=
  match parse data with
  | Some ANil => inl d
  | Some (AMap m) => match overlay m d with Some c => inl c | None => inr (Plain "json: cannot unmarshal") end
  | _ => inr (Plain "json: cannot parse")
  end.

(** ** The server *)

Record PluginConfig := mkPluginConfig { pc_Enabled : bool; pc_Config : gmap string any }.
Record Config := mkConfig {
  cf_Addr : string; cf_Domain : string; cf_TunnelPort : Z; cf_PublicIP : string; cf_DataDir : string; cf_LogPath : string;
  cf_APIKey : string; cf_ClientToken : string; cf_TLSCert : string; cf_TLSKey : string;
  cf_Plugins : gmap string PluginConfig;
}.

Definition read_plugin (v : any) : option PluginConfig :=
  match v with
  | ANil => Some (mkPluginConfig false ∅)
  | AMap m => enabled ← over as_flag m "enabled" false; config ← over as_object m "config" ∅; Some (mkPluginConfig enabled config)
  | _ => None
  end.
Definition as_plugins (v : any) : option (gmap string PluginConfig) :=
  match as_object v with
  | Some m => if bool_decide (map_Forall (λ _ v, is_Some (read_plugin v)) m) then Some (omap read_plugin m) else None
  | None => None
  end.

Definition overlay_Config (m : gmap string any) (c : Config) : option Config :=
  addr ← over as_text m "addr" c.(cf_Addr); domain ← over as_text m "domain" c.(cf_Domain);
  port ← over as_int m "tunnel_port" c.(cf_TunnelPort); ip ← over as_text m "public_ip" c.(cf_PublicIP);
  dir ← over as_text m "data_dir" c.(cf_DataDir); logp ← over as_text m "log_path" c.(cf_LogPath);
  key ← over as_text m "api_key" c.(cf_APIKey); token ← over as_text m "client_token" c.(cf_ClientToken);
  cert ← over as_text m "tls_cert" c.(cf_TLSCert); tkey ← over as_text m "tls_key" c.(cf_TLSKey);
  plugins ← over as_plugins m "plugins" c.(cf_Plugins);
  Some (mkConfig addr domain port ip dir logp key token cert tkey plugins).

Definition default_Config : Config := mkConfig ":9909" "" 9908 "" "data" "" "" "" "" "" ∅.
Definition loadConfig (f : file_read) : Config + go_error :=
  match os_ReadFile f with
  | inr e => inr e
  | inl data =>
      match unmarshal overlay_Config data default_Config with
      | inr e => inr e
      | inl cfg =>
          if decide (cfg.(cf_APIKey) = "") then inr (Plain "api_key is required")
          else if decide (cfg.(cf_ClientToken) = "") then inr (Plain "client_token is required")
          else inl cfg
      end
  end.

(** [initPlugins]: what is started, with the configuration it gets; [fails]
    says whose [Init] returns an error. *)
Definition plugin_names : list string := ["latency"; "persist"; "tag"; "file"; "proxy-provider"; "relay-provider"].
Definition enabled (cfg : Config) (name : string) : bool :=
  match cfg.(cf_Plugins) !! name with Some pc => pc.(pc_Enabled) | None => true end.
Definition finalConfig (cfg : Config) (name : string) : gmap string any :=
  match cfg.(cf_Plugins) !! name with Some pc => pc.(pc_Config) | None => ∅ end ∪ {["data_dir" := AString cfg.(cf_DataDir)]}.
Definition initPlugins (fails : string → gmap string any → bool) (cfg : Config) : list (string * gmap string any) :=
  omap (λ name, if negb (enabled cfg name) || fails name (finalConfig cfg name) then None else Some (name, finalConfig cfg name)) plugin_names.

(** ** The client *)

Record FilesConfig := mkFilesConfig { fc_APIEnabled : bool; fc_APIPort : Z; fc_BatchSizeKB : Z; fc_BatchIntervalSec : Z }.
Record ClientConfig := mkClientConf {
  cl_ServerURL : string; cl_ClientToken : string; cl_ClientID : string; cl_Voucher : string; cl_DataDir : string; cl_LogPath : string;
  cl_PrivateKeyPath : string; cl_PublicKeyPath : string; cl_CertificatePath : string;
  cl_UseHTTP : bool; cl_Insecure : bool; cl_TLSSNI : string; cl_Origin : string; cl_ReconnectDelaySeconds : Z;
  cl_UDPTunnelKey : string; cl_Files : FilesConfig;
}.

Definition defaultClientConfig : ClientConfig :=
  mkClientConf "" "" "raspberry-pi-01" "" "./data" "" "./data/client.key" "./data/client.pub" "./data/server.crt" false false "" "" 5 ""
    (mkFilesConfig false 8080 10240 1800).

Definition overlay_Files (m : gmap string any) (c : FilesConfig) : option FilesConfig :=
  en ← over as_flag m "api_enabled" c.(fc_APIEnabled); port ← over as_int m "api_port" c.(fc_APIPort);
  size ← over as_int m "batch_size_kb" c.(fc_BatchSizeKB); interval ← over as_int m "batch_interval_sec" c.(fc_BatchIntervalSec);
  Some (mkFilesConfig en port size interval).
Definition overlay_Client (m : gmap string any) (c : ClientConfig) : option ClientConfig :=
  url ← over as_text m "server_url" c.(cl_ServerURL); token ← over as_text m "client_token" c.(cl_ClientToken);
  id ← over as_text m "client_id" c.(cl_ClientID); voucher ← over as_text m "voucher" c.(cl_Voucher);
  dir ← over as_text m "data_dir" c.(cl_DataDir); logp ← over as_text m "log_path" c.(cl_LogPath);
  key ← over as_text m "private_key_path" c.(cl_PrivateKeyPath); pub ← over as_text m "public_key_path" c.(cl_PublicKeyPath);
  cert ← over as_text m "certificate_path" c.(cl_CertificatePath); http ← over as_flag m "use_http" c.(cl_UseHTTP);
  insecure ← over as_flag m "insecure" c.(cl_Insecure); sni ← over as_text m "tls_sni" c.(cl_TLSSNI);
  origin ← over as_text m "origin" c.(cl_Origin); delay ← over as_int m "reconnect_delay_seconds" c.(cl_ReconnectDelaySeconds);
  udp ← over as_text m "udp_tunnel_key" c.(cl_UDPTunnelKey);
  files ← over (λ v, fm ← as_object v; overlay_Files fm c.(cl_Files)) m "files" c.(cl_Files);
  Some (mkClientConf url token id voucher dir logp key pub cert http insecure sni origin delay udp files).

Definition loadJSON {C} (overlay : gmap string any → C → option C) (f : file_read) (d : C) : C + go_error :=
  match os_ReadFile f with
  | inr e => inr (Wrapped "read config file" e)
  | inl data => match unmarshal overlay data d with inr e => inr (Wrapped "parse config file" e) | inl c => inl c end
  end.

Section environment.
Context (Getenv : string → string).

Definition envStr (key fallback : string) : string := if decide (Getenv key ≠ "") then Getenv key else fallback.
Definition envInt (key : string) (fallback : Z) : Z :=
  if decide (Getenv key ≠ "") then default fallback (Atoi (Getenv key)) else fallback.
(** [strconv.ParseBool] *)
Definition ParseBool (s : string) : option bool :=
  if bool_decide (s ∈ ["1"; "t"; "T"; "TRUE"; "true"; "True"]) then Some true
  else if bool_decide (s ∈ ["0"; "f"; "F"; "FALSE"; "false"; "False"]) then Some false else None.
Definition envBool (key : string) (fallback : bool) : bool :=
  if decide (Getenv key ≠ "") then default fallback (ParseBool (Getenv key)) else fallback.

Definition env_Client (c : ClientConfig) : ClientConfig :=
  mkClientConf (envStr "BBGRID_WS_URL" c.(cl_ServerURL)) (envStr "BBGRID_CLIENT_TOKEN" c.(cl_ClientToken))
    (envStr "BBGRID_CLIENT_ID" c.(cl_ClientID)) (envStr "BBGRID_VOUCHER" c.(cl_Voucher)) (envStr "BBGRID_DATA_DIR" c.(cl_DataDir))
    (envStr "BBGRID_LOG_PATH" c.(cl_LogPath)) c.(cl_PrivateKeyPath) c.(cl_PublicKeyPath) c.(cl_CertificatePath)
    (envBool "BBGRID_USE_HTTP" c.(cl_UseHTTP)) (envBool "BBGRID_INSECURE" c.(cl_Insecure)) (envStr "BBGRID_TLS_SNI" c.(cl_TLSSNI))
    (envStr "BBGRID_ORIGIN" c.(cl_Origin)) (envInt "BBGRID_RECONNECT_DELAY" c.(cl_ReconnectDelaySeconds))
    (envStr "BBGRID_UDP_TUNNEL_KEY" c.(cl_UDPTunnelKey))
    (mkFilesConfig (envBool "BBGRID_FILES_API_ENABLED" c.(cl_Files).(fc_APIEnabled)) (envInt "BBGRID_FILES_API_PORT" c.(cl_Files).(fc_APIPort))
       (envInt "BBGRID_FILES_BATCH_SIZE_KB" c.(cl_Files).(fc_BatchSizeKB))
       (envInt "BBGRID_FILES_BATCH_INTERVAL_SEC" c.(cl_Files).(fc_BatchIntervalSec))).

(** A path that reads like the default one moves to the data directory. *)
Definition derived (path default dir name : string) : string := if decide (path = default) then Join dir name else path.
Definition derive_paths (c : ClientConfig) : ClientConfig :=
  if decide (c.(cl_DataDir) = "") then c
  else mkClientConf c.(cl_ServerURL) c.(cl_ClientToken) c.(cl_ClientID) c.(cl_Voucher) c.(cl_DataDir) c.(cl_LogPath)
    (derived c.(cl_PrivateKeyPath) "./data/client.key" c.(cl_DataDir) "client.key")
    (derived c.(cl_PublicKeyPath) "./data/client.pub" c.(cl_DataDir) "client.pub")
    (derived c.(cl_CertificatePath) "./data/server.crt" c.(cl_DataDir) "server.crt")
    c.(cl_UseHTTP) c.(cl_Insecure) c.(cl_TLSSNI) c.(cl_Origin) c.(cl_ReconnectDelaySeconds) c.(cl_UDPTunnelKey) c.(cl_Files).

(** [LoadClient] up to the key files (see ClientStart). *)
Definition LoadClient (path : string) (f : file_read) : ClientConfig + go_error :=
  let loaded := if decide (path = "") then inl defaultClientConfig
                else match loadJSON overlay_Client f defaultClientConfig with
                     | inl c => inl c
                     | inr e => if IsNotExist e then inl defaultClientConfig else inr e
                     end in
  match loaded with
  | inr e => inr e
  | inl c0 =>
      let c := env_Client c0 in
      if decide (c.(cl_ServerURL) = "") then inr (Plain "server_url is required")
      else if decide (c.(cl_ClientToken) = "") then inr (Plain "client_token is required")
      else inl (derive_paths c)
  end.
End environment.
End config.

(** ** What comes out *)

Section facts.
Context (parse : bytes → option any).

Lemma loadJSON_error {C} overlay f (d : C) e : loadJSON parse overlay f d = inr e → IsNotExist e = false.
Proof. unfold loadJSON. destruct (os_ReadFile f); [|by intros [= <-]]. destruct (unmarshal _ _ _ _); [done|by intros [= <-]]. Qed.

(** The client does not start without its file, even with everything in
    the environment and although the code looks at [IsNotExist]: the error is
    wrapped before, so the test never succeeds. *)
Theorem missing_file_is_fatal (Getenv : string → string) (path : string) :
  path ≠ "" →
  LoadClient parse Getenv path Missing = inr (Wrapped "read config file" (PathError true "no such file or directory")) ∧
  ∀ f d e, loadJSON parse overlay_Client f d = inr e → IsNotExist e = false.
Proof. intros Hp. split; [unfold LoadClient; by rewrite decide_False|]. intros f d e. by apply loadJSON_error. Qed.

(** A text of the configuration: of the environment, else of the file, else
    the default. *)
Definition text_of (Getenv : string → string) (m : gmap string any) (var key dflt : string) : string :=
  if decide (Getenv var ≠ "") then Getenv var else match m !! key with Some (AString s) => s | _ => dflt end.

Lemma over_text m k d s : over as_text m k d = Some s → s = match m !! k with Some (AString s) => s | _ => d end.
Proof. unfold over. destruct (m !! k) as [[]|]; cbn; congruence. Qed.

(** Whatever the file and the environment, a client that starts has an
    address and a token, each text comes from the environment, else from the
    file, else is the default, and the files of the key lie in the data
    directory unless the file names another place, in a text other than the
    default one. *)
Theorem client_config_sources (Getenv : string → string) (path : string) (data : bytes) (m : gmap string any) (c : ClientConfig) :
  path ≠ "" → parse data = Some (AMap m) → LoadClient parse Getenv path (Found data) = inl c →
  let text := text_of Getenv m in
  let dir := text "BBGRID_DATA_DIR" "data_dir" "./data" in
  let in_dir key dflt name :=
    let p := match m !! key with Some (AString s) => s | _ => dflt end in
    if decide (dir ≠ "" ∧ p = dflt) then Join dir name else p in
  c.(cl_ServerURL) = text "BBGRID_WS_URL" "server_url" "" ∧ c.(cl_ServerURL) ≠ "" ∧
  c.(cl_ClientToken) = text "BBGRID_CLIENT_TOKEN" "client_token" "" ∧ c.(cl_ClientToken) ≠ "" ∧
  c.(cl_ClientID) = text "BBGRID_CLIENT_ID" "client_id" "raspberry-pi-01" ∧
  c.(cl_Voucher) = text "BBGRID_VOUCHER" "voucher" "" ∧
  c.(cl_DataDir) = dir ∧
  c.(cl_PrivateKeyPath) = in_dir "private_key_path" "./data/client.key" "client.key" ∧
  c.(cl_PublicKeyPath) = in_dir "public_key_path" "./data/client.pub" "client.pub" ∧
  c.(cl_CertificatePath) = in_dir "certificate_path" "./data/server.crt" "server.crt".
Proof.
  intros Hp Hparse Hload text dir in_dir. unfold LoadClient in Hload. rewrite decide_False in Hload by done.
  unfold loadJSON, unmarshal in Hload. cbn [os_ReadFile] in Hload. rewrite Hparse in Hload.
  destruct (overlay_Client m defaultClientConfig) as [c0|] eqn:Eo; [|done].
  unfold overlay_Client in Eo. repeat (apply bind_Some in Eo as (? & ?%over_text & Eo) || (apply bind_Some in Eo as (? & _ & Eo))).
  injection Eo as <-. cbn [defaultClientConfig cl_ServerURL cl_ClientToken cl_ClientID cl_Voucher cl_DataDir cl_PrivateKeyPath cl_PublicKeyPath cl_CertificatePath] in *.
  subst. unfold env_Client in Hload. cbn [cl_ServerURL cl_ClientToken] in Hload.
  case_decide as Hurl; [done|]. case_decide as Htok; [done|]. injection Hload as <-.
  unfold derive_paths. cbn [cl_DataDir]. change (envStr Getenv "BBGRID_DATA_DIR" _) with dir.
  assert (Hin : ∀ key dflt name, in_dir key dflt name = let p := match m !! key with Some (AString s) => s | _ => dflt end in
    if decide (dir = "") then p else derived p dflt dir name).
  { intros key dflt name. unfold in_dir, derived. cbn zeta. repeat case_decide; naive_solver. }
  rewrite !Hin. case_decide; split_and!; done.
Qed.

Lemma read_plugin_spec v pc :
  read_plugin v = Some pc →
  (pc.(pc_Enabled) = true ↔ ∃ e, v = AMap e ∧ e !! "enabled" = Some (ABool true)) ∧
  pc.(pc_Config) = match v with AMap e => match e !! "config" with Some (AMap own) => own | _ => ∅ end | _ => ∅ end.
Proof.
  destruct v as [| | | | | |e| | | |]; cbn [read_plugin]; try done.
  - intros [= <-]. split; [|done]. split; [done|by intros (e & [=] & _)].
  - intros (b & Hb & (own & Ho & [= <-])%bind_Some)%bind_Some. cbn. unfold over in *. split.
    + transitivity (e !! "enabled" = Some (ABool true)); [|by split; [eexists|intros (? & [= <-] & ?)]].
      destruct (e !! "enabled") as [[]|]; cbn in Hb; naive_solver.
    + destruct (e !! "config") as [[]|]; cbn in Ho; congruence.
Qed.

Lemma loaded_plugins data m entries cfg :
  parse data = Some (AMap m) → m !! "plugins" = Some (AMap entries) → loadConfig parse (Found data) = inl cfg →
  ∀ name, match entries !! name with
          | Some v => ∃ pc, read_plugin v = Some pc ∧ cfg.(cf_Plugins) !! name = Some pc
          | None => cfg.(cf_Plugins) !! name = None
          end.
Proof.
  intros Hparse Hentries Hload. unfold loadConfig, unmarshal in Hload. cbn [os_ReadFile] in Hload. rewrite Hparse in Hload.
  destruct (overlay_Config m default_Config) as [c0|] eqn:Eo; [|done].
  case_decide; [done|]. case_decide; [done|]. injection Hload as <-.
  unfold overlay_Config in Eo. repeat (apply bind_Some in Eo as (? & ?Hv & Eo)). injection Eo as <-. cbn [cf_Plugins].
  match goal with H : over as_plugins _ _ _ = Some _ |- _ => unfold over in H; rewrite Hentries in H; cbn [as_plugins as_object] in H; rename H into Hp end.
  case_bool_decide as Hall; [|done]. injection Hp as <-. intros name. rewrite lookup_omap.
  destruct (entries !! name) as [v|] eqn:Ev; cbn; [|done]. destruct (Hall _ _ Ev) as [pc Hpc]. by exists pc.
Qed.

(** The server starts its plugins in their order, those without an entry
    or with one that says [enabled], as long as their [Init] works, each with
    its own settings over the data directory.  An entry that does not say so
    switches its plugin off. *)
Theorem plugins_started (fails : string → gmap string any → bool) (data : bytes) (m entries : gmap string any) (cfg : Config) :
  parse data = Some (AMap m) → m !! "plugins" = Some (AMap entries) → loadConfig parse (Found data) = inl cfg →
  (initPlugins fails cfg).*1 `sublist_of` plugin_names ∧
  (∀ name, name ∈ plugin_names →
    (name ∈ (initPlugins fails cfg).*1 ↔
     (entries !! name = None ∨ ∃ e, entries !! name = Some (AMap e) ∧ e !! "enabled" = Some (ABool true)) ∧
     fails name (finalConfig cfg name) = false)) ∧
  (∀ name, File.Init (finalConfig cfg name) =
     File.Init (match entries !! name with
                | Some (AMap e) => match e !! "config" with Some (AMap own) => own | _ => ∅ end
                | _ => ∅
                end ∪ {["data_dir" := AString cfg.(cf_DataDir)]})).
Proof.
  intros Hparse Hentries Hload. pose proof (loaded_plugins _ _ _ _ Hparse Hentries Hload) as Hp. split_and!.
  - unfold initPlugins. assert (Hsub : ∀ l, (omap (λ name, if negb (enabled cfg name) || fails name (finalConfig cfg name) then None
        else Some (name, finalConfig cfg name)) l).*1 `sublist_of` l); [|by apply Hsub].
    induction l as [|x l IH]; cbn; [done|]. destruct (_ || _); cbn; [by constructor|by constructor].
  - intros name Hname. unfold initPlugins. rewrite list_elem_of_fmap. setoid_rewrite list_elem_of_omap.
    specialize (Hp name). transitivity (enabled cfg name = true ∧ fails name (finalConfig cfg name) = false).
    + split.
      * intros ([n conf] & Hn & x & _ & Hx). cbn in Hn. subst n. destruct (enabled cfg x) eqn:He, (fails x _) eqn:Hf; cbn in Hx; try done.
        injection Hx as -> _. by rewrite Hf.
      * intros [He Hf]. exists (name, finalConfig cfg name). split; [done|]. exists name. by rewrite He, Hf.
    + assert (enabled cfg name = true ↔ entries !! name = None ∨ ∃ e, entries !! name = Some (AMap e) ∧ e !! "enabled" = Some (ABool true)) as ->; [|done].
      unfold enabled. destruct (entries !! name) as [v|] eqn:Ev; [|by rewrite Hp; split; [left|]].
      destruct Hp as (pc & Hpc & ->). destruct (read_plugin_spec _ _ Hpc) as [-> _]. naive_solver.
  - intros name. f_equal. unfold finalConfig. f_equal. specialize (Hp name). destruct (entries !! name) as [v|]; [|by rewrite Hp].
    destruct Hp as (pc & Hpc & ->). by destruct (read_plugin_spec _ _ Hpc) as [_ ->].
Qed.
End facts.

(** ** At work *)

Definition client_file : gmap string any :=
  {["server_url" := AString "wss://hub:9909/ws"; "client_token" := AString "tok"; "data_dir" := AString "/var/lib/bbgrid"]}.
(** [examples/server_config.example], with a plugin whose entry only has settings. *)
Definition server_plugins : gmap string any :=
  {["file" := AMap {["enabled" := ABool true; "config" := AMap {["data_dir" := AString "data/data"]}]};
    "tag" := AMap {["config" := AMap ∅]}]}.
Definition server_file : gmap string any :=
  {["api_key" := AString "key"; "client_token" := AString "tok"; "plugins" := AMap server_plugins]}.
Definition parse_example (b : bytes) : option any :=
  if decide (b = list_ascii_of_string "client") then Some (AMap client_file)
  else if decide (b = list_ascii_of_string "server") then Some (AMap server_file) else None.
Definition home_env (k : string) : string := if decide (k = "BBGRID_CLIENT_ID") then "cam" else "".

Lemma missing_file_is_fatal_witness :
  LoadClient parse_example home_env "client.json" Missing = inr (Wrapped "read config file" (PathError true "no such file or directory")).
Proof. by apply (missing_file_is_fatal parse_example home_env "client.json"). Defined.

Lemma client_config_sources_witness :
  ∃ c, LoadClient parse_example home_env "client.json" (Found (list_ascii_of_string "client")) = inl c ∧
    c.(cl_ClientID) = "cam" ∧ c.(cl_PrivateKeyPath) = "/var/lib/bbgrid/client.key".
Proof.
  destruct (LoadClient parse_example home_env "client.json" (Found (list_ascii_of_string "client"))) as [c|e] eqn:E; [|by vm_compute in E].
  exists c. split; [done|].
  destruct (client_config_sources parse_example home_env "client.json" (list_ascii_of_string "client") client_file c)
    as (_ & _ & _ & _ & H1 & _ & _ & H2 & _); [done|by vm_compute|exact E|]. rewrite H1, H2. by vm_compute.
Defined.

Lemma plugins_started_witness :
  ∃ cfg, loadConfig parse_example (Found (list_ascii_of_string "server")) = inl cfg ∧
    "file" ∈ (initPlugins (λ _ _, false) cfg).*1 ∧ "tag" ∉ (initPlugins (λ _ _, false) cfg).*1.
Proof.
  destruct (loadConfig parse_example (Found (list_ascii_of_string "server"))) as [cfg|e] eqn:E; [|by vm_compute in E].
  exists cfg. split; [done|].
  destruct (plugins_started parse_example (λ _ _, false) (list_ascii_of_string "server") server_file server_plugins cfg)
    as (_ & H & _); [by vm_compute|by vm_compute|exact E|]. split.
  - apply H; [by apply (bool_decide_unpack _)|]. split; [|done]. right. eexists. split; [by vm_compute|by vm_compute].
  - intros [[Hn|(e & He & Hen)] _]%H; [|..|by apply (bool_decide_unpack _)]; [by vm_compute in Hn|].
    vm_compute in He. injection He as <-. by vm_compute in Hen.
Defined.
