(* ===== verification/Subscribers.v ===== *)
(** * Streams of the gRPC servers (common/plugin/grpc_server.go, common/runtime/server.go)

    Both servers keep a map of subscribers to channels, push to every channel
    without waiting, and run one goroutine per call of [Subscribe], which
    sends what comes out of its channel.  A stream is one such call: its
    channel and where its goroutine is; it has a number.  The capacity of the
    channels, and what the goroutine sends before its loop, differ between
    the servers.

    Closing a closed channel and sending on one panic, which ends the
    program. *)

From S2P Require Import Prelude.

(** Where the goroutine is: after its registration, at the head of the loop,
    in [stream.Send], before the deferred function, between its unlock and
    [close(updateCh)], returned. *)
Inductive stream_phase {U : Type} := Registered | Receiving | Sending (u : U) | Leaving | Closing | Returned.
Arguments stream_phase U : clear implicits.

Record Stream {U : Type} := mkStream {
  st_id : string;
  st_phase : stream_phase U;
  (* the channel *)
  st_buf : list U;
  st_closed : bool;
  (* what [Send] has taken *)
  st_sent : list U;
}.
Arguments Stream U : clear implicits.
Arguments mkStream {U}.

Record Subs {U : Type} := mkSubs {
  subscribers : gmap string nat;
  streams : gmap nat (Stream U);
  panicked : bool;
}.
Arguments Subs U : clear implicits.
Arguments mkSubs {U}.

Section streams.
Context {U : Type}.
Context (capacity : nat).
Implicit Types s : Subs U.
Implicit Types st : Stream U.
Implicit Types u : U.

Definition no_subs : Subs U := mkSubs ∅ ∅ false.

(** ** Operations *)

Definition in_phase (p : stream_phase U) (st : Stream U) : Stream U :=
  mkStream st.(st_id) p st.(st_buf) st.(st_closed) st.(st_sent).
Definition with_buf (b : list U) (st : Stream U) : Stream U :=
  mkStream st.(st_id) st.(st_phase) b st.(st_closed) st.(st_sent).
Definition with_sent (us : list U) (st : Stream U) : Stream U :=
  mkStream st.(st_id) st.(st_phase) st.(st_buf) st.(st_closed) us.
Definition closed_chan (st : Stream U) : Stream U :=
  mkStream st.(st_id) st.(st_phase) st.(st_buf) true st.(st_sent).

Definition on_stream (f : Stream U → Stream U) (n : nat) (s : Subs U) : Subs U :=
  mkSubs s.(subscribers) (alter f n s.(streams)) s.(panicked).
Definition panic (s : Subs U) : Subs U := mkSubs s.(subscribers) s.(streams) true.

Definition close_chan (n : nat) (s : Subs U) : Subs U :=
  match s.(streams) !! n with
  | Some st => if st.(st_closed) then panic s else on_stream closed_chan n s
  | None => s
  end.

(** The start of [Subscribe], under the lock. *)
Definition register (id : string) (n : nat) (s : Subs U) : Subs U :=
  let s1 := match s.(subscribers) !! id with Some old => close_chan old s | None => s end in
  mkSubs (<[id := n]> s1.(subscribers)) (<[n := mkStream id Registered [] false []]> s1.(streams)) s1.(panicked).

(** What is sent before the loop. *)
Definition begin (us : list U) (ok : bool) (n : nat) : Subs U → Subs U :=
  on_stream (λ st, in_phase (if ok then Receiving else Leaving) (with_sent (if ok then us else []) st)) n.

(** [range updateCh]. *)
Definition receive (n : nat) : Subs U → Subs U :=
  on_stream (λ st, match st.(st_buf) with
                   | u :: rest => in_phase (Sending u) (with_buf rest st)
                   | [] => if st.(st_closed) then in_phase Leaving st else st
                   end) n.
Definition send (ok : bool) (n : nat) : Subs U → Subs U :=
  on_stream (λ st, match st.(st_phase) with
                   | Sending u => if ok then in_phase Receiving (with_sent (st.(st_sent) ++ [u]) st) else in_phase Leaving st
                   | _ => st
                   end) n.

(** The deferred function: first under the lock, then the close. *)
Definition leave (n : nat) (s : Subs U) : Subs U :=
  match s.(streams) !! n with
  | Some st =>
      on_stream (in_phase Closing) n
        (if decide (s.(subscribers) !! st.(st_id) = Some n)
         then mkSubs (delete st.(st_id) s.(subscribers)) s.(streams) s.(panicked) else s)
  | None => s
  end.
Definition finish (n : nat) (s : Subs U) : Subs U := on_stream (in_phase Returned) n (close_chan n s).

(** [select] with a default: a full channel loses the update. *)
Definition push (u : U) (n : nat) (s : Subs U) : Subs U :=
  match s.(streams) !! n with
  | Some st =>
      if st.(st_closed) then panic s
      else if decide (length st.(st_buf) < capacity) then on_stream (λ st, with_buf (st.(st_buf) ++ [u]) st) n s
      else s
  | None => s
  end.
(** The same, for an open channel. *)
Definition deliver (u : U) (st : Stream U) : Stream U :=
  if decide (length st.(st_buf) < capacity) then with_buf (st.(st_buf) ++ [u]) st else st.
Definition notify (u : U) (s : Subs U) : Subs U := foldr (push u) s (map_to_list s.(subscribers)).*2.

(** [allowed] says which ids may be registered. *)
Inductive subs_step (allowed : Subs U → string → Prop) (s : Subs U) : Subs U → Prop :=
| SRegister id n : s.(streams) !! n = None → allowed s id → subs_step allowed s (register id n s)
| SBegin us ok n st : s.(streams) !! n = Some st → st.(st_phase) = Registered → subs_step allowed s (begin us ok n s)
| SReceive n st : s.(streams) !! n = Some st → st.(st_phase) = Receiving → subs_step allowed s (receive n s)
| SSend ok n st u : s.(streams) !! n = Some st → st.(st_phase) = Sending u → subs_step allowed s (send ok n s)
| SLeave n st : s.(streams) !! n = Some st → st.(st_phase) = Leaving → subs_step allowed s (leave n s)
| SFinish n st : s.(streams) !! n = Some st → st.(st_phase) = Closing → subs_step allowed s (finish n s)
| SNotify u : subs_step allowed s (notify u s).

(** The program ends with the first panic. *)
Definition live_step allowed s s' : Prop := s.(panicked) = false ∧ subs_step allowed s s'.

Definition any_id (s : Subs U) (id : string) : Prop := True.
Definition new_id (s : Subs U) (id : string) : Prop := s.(subscribers) !! id = None.

(** ** Invariant *)

(** The goroutine has yet to come to the deferred function. *)
Definition attached (p : stream_phase U) : Prop := p ≠ Closing ∧ p ≠ Returned.
#[export] Instance attached_dec p : Decision (attached p).
Proof. destruct p; try (left; by split); right; by intros []. Defined.

(** The open channels of the goroutines that have not come to their deferred
    function are those of the map. *)
Record subs_ok (s : Subs U) : Prop := mkSubsOk {
  so_map id n : s.(subscribers) !! id = Some n →
    ∃ st, s.(streams) !! n = Some st ∧ st.(st_id) = id ∧ st.(st_closed) = false ∧ attached st.(st_phase);
  so_open n st : s.(streams) !! n = Some st → st.(st_closed) = false → attached st.(st_phase) →
    s.(subscribers) !! st.(st_id) = Some n;
  so_returned n st : s.(streams) !! n = Some st → st.(st_phase) = Returned → st.(st_closed) = true;
}.

Lemma no_subs_ok : subs_ok no_subs.
Proof. split; by intros. Qed.

(** A step of one goroutine that leaves the map and its channel's state
    alone. *)
Lemma on_stream_ok f n (s : Subs U) :
  (∀ st, s.(streams) !! n = Some st →
     (f st).(st_id) = st.(st_id) ∧ (f st).(st_closed) = st.(st_closed) ∧
     (attached (f st).(st_phase) ↔ attached st.(st_phase)) ∧
     ((f st).(st_phase) = Returned → st.(st_phase) = Returned)) →
  subs_ok s → subs_ok (on_stream f n s).
Proof.
  intros Hf [H1 H2 H3]. unfold on_stream. split; cbn.
  - intros id m Hm. destruct (H1 _ _ Hm) as (st & Hst & Hid & Hc & Ha). destruct (decide (m = n)) as [->|Hne].
    + destruct (Hf _ Hst) as (F1 & F2 & F3 & _). exists (f st). rewrite lookup_alter_eq, Hst, F1, F2, F3. done.
    + exists st. by rewrite lookup_alter_ne by done.
  - intros m st [[-> (st' & Hst & ->)]|[Hne Hst]]%lookup_alter_Some Hc Ha; [|by apply H2].
    destruct (Hf _ Hst) as (F1 & F2 & F3 & _). rewrite F1. apply H2; [done|by rewrite <-F2|by apply F3].
  - intros m st [[-> (st' & Hst & ->)]|[Hne Hst]]%lookup_alter_Some Hp; [|by eapply H3].
    destruct (Hf _ Hst) as (_ & F2 & _ & F4). rewrite F2. eapply H3; [done|]. by apply F4.
Qed.

Lemma push_ok u n s : subs_ok s → subs_ok (push u n s).
Proof.
  intros H. unfold push. destruct (streams s !! n) as [st|] eqn:E; [|done]. destruct (st_closed st); [by destruct H|].
  case_decide; [|done]. by apply on_stream_ok.
Qed.

Lemma foldr_push_ok u l s : subs_ok s → subs_ok (foldr (push u) s l).
Proof. intros H. induction l; [done|by apply push_ok]. Qed.

Lemma close_chan_cases n s st :
  s.(streams) !! n = Some st →
  close_chan n s = (if st.(st_closed) then panic s else on_stream closed_chan n s).
Proof. intros E. unfold close_chan. by rewrite E. Qed.

(** What [Subscribe] does to the streams. *)
Lemma register_streams id n s m :
  s.(streams) !! n = None → subs_ok s →
  (register id n s).(streams) !! m =
    if decide (m = n) then Some (mkStream id Registered [] false [])
    else (if decide (s.(subscribers) !! id = Some m) then closed_chan else λ st, st) <$> s.(streams) !! m.
Proof.
  intros Hn H. unfold register. destruct (subscribers s !! id) as [old|] eqn:E.
  - destruct (so_map _ H _ _ E) as (st & Hst & _ & Hc & _). rewrite (close_chan_cases _ _ _ Hst), Hc. cbn.
    case_decide as Hm; [subst; by rewrite lookup_insert_eq|]. rewrite lookup_insert_ne by done.
    case_decide as Ho; [injection Ho as <-; by rewrite lookup_alter_eq|].
    rewrite lookup_alter_ne by congruence. by destruct (streams s !! m).
  - cbn. case_decide as Hm; [subst; by rewrite lookup_insert_eq|]. rewrite lookup_insert_ne by done.
    rewrite decide_False by done. by destruct (streams s !! m).
Qed.

Lemma register_rest id n s :
  subs_ok s → (register id n s).(subscribers) = <[id := n]> s.(subscribers) ∧ (register id n s).(panicked) = s.(panicked).
Proof.
  intros H. unfold register. destruct (subscribers s !! id) as [old|] eqn:E; [|done].
  destruct (so_map _ H _ _ E) as (st & Hst & _ & Hc & _). by rewrite (close_chan_cases _ _ _ Hst), Hc.
Qed.

Lemma register_ok id n s : s.(streams) !! n = None → subs_ok s → subs_ok (register id n s).
Proof.
  intros Hn H. pose proof H as [H1 H2 H3]. destruct (register_rest id n s H) as [Hm _].
  split; rewrite ?Hm.
  - intros id' m [[<- <-]|[Hne Hl]]%lookup_insert_Some; rewrite (register_streams _ _ _ _ Hn H).
    + rewrite decide_True by done. by eexists.
    + destruct (H1 _ _ Hl) as (st & Hst & <- & Hc & Ha). rewrite decide_False by congruence.
      rewrite decide_False, Hst; [by exists st|]. intros Hx. destruct (H1 _ _ Hx) as (? & ? & ? & _). congruence.
  - intros m st. rewrite (register_streams _ _ _ _ Hn H). case_decide as Hd.
    + intros [= <-] _ _. subst. cbn. by rewrite lookup_insert_eq.
    + intros (st' & Hst & ->)%fmap_Some_1. case_decide as Ho; [by intros ?|]. intros Hc Ha.
      pose proof (H2 _ _ Hst Hc Ha) as Hs. rewrite lookup_insert_ne; [done|]. intros Hi. by rewrite Hi in Ho.
  - intros m st. rewrite (register_streams _ _ _ _ Hn H). case_decide as Hd; [by intros [= <-]|].
    intros (st' & Hst & ->)%fmap_Some_1. case_decide; [done|]. by eapply H3.
Qed.

Lemma leave_ok n s : subs_ok s → subs_ok (leave n s).
Proof.
  intros H. pose proof H as [H1 H2 H3]. unfold leave. destruct (streams s !! n) as [st|] eqn:E; [|done].
  split; cbn.
  - intros id m Hl. assert (m ≠ n ∧ s.(subscribers) !! id = Some m) as [Hne Hl'].
    { case_decide as Hd; cbn in Hl.
      - apply lookup_delete_Some in Hl as [Hi Hl]. split; [|done]. intros ->.
        destruct (H1 _ _ Hl) as (? & ? & ? & _). congruence.
      - split; [|done]. intros ->. destruct (H1 _ _ Hl) as (? & ? & ? & _). congruence. }
    destruct (H1 _ _ Hl') as (st' & ? & ?). exists st'. case_decide; cbn; by rewrite lookup_alter_ne.
  - assert (Hs : streams (if decide (s.(subscribers) !! st.(st_id) = Some n)
         then mkSubs (delete st.(st_id) s.(subscribers)) s.(streams) s.(panicked) else s) = s.(streams)) by (by case_decide).
    rewrite Hs. intros m st' [[-> (? & _ & ->)]|[Hne Hst]]%lookup_alter_Some Hc Ha; [by destruct Ha|].
    pose proof (H2 _ _ Hst Hc Ha) as Hl. case_decide as Hd; cbn; [|done].
    rewrite lookup_delete_ne; [done|]. intros Hi. congruence.
  - intros m st'. case_decide; cbn; intros [[-> (? & _ & ->)]|[Hne Hst]]%lookup_alter_Some Hp; try done; by eapply H3.
Qed.

Lemma finish_ok n s st :
  s.(streams) !! n = Some st → st.(st_phase) = Closing → subs_ok s → (finish n s).(panicked) = false → subs_ok (finish n s).
Proof.
  intros E Hp H. unfold finish. rewrite (close_chan_cases _ _ _ E). destruct (st_closed st) eqn:Hc; [done|]. intros _.
  destruct H as [H1 H2 H3]. split; cbn.
  - intros id m Hl. destruct (H1 _ _ Hl) as (st' & Hst & Hi & Hc' & Ha). exists st'.
    rewrite !lookup_alter_ne; [done|..]; intros <-; rewrite E in Hst; injection Hst as <-; by destruct Ha.
  - intros m st' [[-> (? & [[_ (? & _ & ->)]|[? _]]%lookup_alter_Some & ->)]|[Hne Hst]]%lookup_alter_Some; [done|done|].
    rewrite lookup_alter_ne in Hst by done. by apply H2.
  - intros m st' [[-> (? & [[_ (? & _ & ->)]|[? _]]%lookup_alter_Some & ->)]|[Hne Hst]]%lookup_alter_Some; [done|done|].
    rewrite lookup_alter_ne in Hst by done. by eapply H3.
Qed.

(** Pushing to a list of channels of the map. *)
Lemma foldr_push u l s :
  subs_ok s → NoDup l → (∀ n, n ∈ l → ∃ id, s.(subscribers) !! id = Some n) →
  let s' := foldr (push u) s l in
  s'.(panicked) = s.(panicked) ∧ s'.(subscribers) = s.(subscribers) ∧
  ∀ n, s'.(streams) !! n = (if decide (n ∈ l) then deliver u else λ st, st) <$> s.(streams) !! n.
Proof.
  intros H Hnd Hl. induction l as [|m l IH]; cbn.
  - split_and!; [done..|]. intros n. rewrite decide_False by set_solver. by destruct (streams s !! n).
  - apply NoDup_cons in Hnd as [Hm Hnd]. destruct IH as (I1 & I2 & I3); [done|set_solver|].
    destruct (Hl m) as [id Hid]; [set_solver|]. destruct (so_map _ H _ _ Hid) as (st & Hst & _ & Hc & _).
    assert (Hs : (foldr (push u) s l).(streams) !! m = Some st) by (rewrite I3, decide_False, Hst by done; done).
    unfold push at 1 3 5. rewrite Hs, Hc.
    assert (Hd : ∀ n, (if decide (n ∈ m :: l) then deliver u else λ st, st) <$> streams s !! n =
                      if decide (n = m) then Some (deliver u st) else (foldr (push u) s l).(streams) !! n).
    { intros n. case_decide as Hn; case_decide as Hn'; subst; rewrite ?Hst, ?I3; try set_solver.
      - rewrite decide_True by set_solver. done.
      - rewrite decide_False by set_solver. done. }
    case_decide as Hlen; cbn; split_and!; try done; intros n; rewrite Hd.
    + case_decide as Hn; [subst; rewrite lookup_alter_eq, Hs; cbn; unfold deliver; by rewrite decide_True|].
      by rewrite lookup_alter_ne.
    + case_decide as Hn; [subst; rewrite Hs; unfold deliver; by rewrite decide_False|]. done.
Qed.

Lemma subscribed_NoDup s : subs_ok s → NoDup (map_to_list s.(subscribers)).*2.
Proof.
  intros H. apply NoDup_fmap_2_strong; [|apply NoDup_map_to_list].
  intros [id n] [id' n'] Hx%elem_of_map_to_list Hy%elem_of_map_to_list Hn. cbn in Hn. subst.
  destruct (so_map _ H _ _ Hx) as (? & ? & ? & _), (so_map _ H _ _ Hy) as (? & ? & ? & _). congruence.
Qed.

Lemma elem_of_subscribed s n : n ∈ (map_to_list s.(subscribers)).*2 ↔ ∃ id, s.(subscribers) !! id = Some n.
Proof.
  rewrite list_elem_of_fmap. split.
  - intros ([id m] & -> & Hx%elem_of_map_to_list). by exists id.
  - intros [id Hx]. exists (id, n). split; [done|]. by apply elem_of_map_to_list.
Qed.

Lemma notify_exact u s :
  subs_ok s →
  (notify u s).(panicked) = s.(panicked) ∧ (notify u s).(subscribers) = s.(subscribers) ∧
  ∀ n st, s.(streams) !! n = Some st →
    (notify u s).(streams) !! n = Some (if decide (s.(subscribers) !! st.(st_id) = Some n) then deliver u st else st).
Proof.
  intros H. destruct (foldr_push u _ s H (subscribed_NoDup _ H)) as (I1 & I2 & I3).
  { intros n. apply elem_of_subscribed. }
  split_and!; [done..|]. intros n st Hst. unfold notify. rewrite I3, Hst. cbn. f_equal.
  case_decide as Hx; case_decide as Hy; try done.
  - apply elem_of_subscribed in Hx as [id Hid]. destruct (so_map _ H _ _ Hid) as (st' & Hst' & Hi & _).
    rewrite Hst in Hst'. injection Hst' as <-. by rewrite Hi in Hy.
  - destruct Hx. apply elem_of_subscribed. by eexists.
Qed.

Lemma subs_step_ok allowed s s' :
  subs_ok s → live_step allowed s s' → s'.(panicked) = false → subs_ok s'.
Proof.
  intros H [Hn Hs] Hp.
  destruct Hs as [id n Hf _|us ok n st E Hph|n st E Hph|ok n st u E Hph|n st E Hph|n st E Hph|u].
  - by apply register_ok.
  - apply on_stream_ok; [|done]. intros st' E'. assert (st' = st) as -> by congruence. cbn.
    split_and!; try done; destruct ok; by rewrite Hph.
  - apply on_stream_ok; [|done]. intros st' E'. assert (st' = st) as -> by congruence.
    destruct (st_buf st); [destruct (st_closed st) eqn:Hc|]; cbn; split_and!; try done; by rewrite ?Hph, ?Hc.
  - apply on_stream_ok; [|done]. intros st' E'. assert (st' = st) as -> by congruence. rewrite Hph.
    destruct ok; cbn; split_and!; try done; by rewrite Hph.
  - by apply leave_ok.
  - by eapply finish_ok.
  - by apply foldr_push_ok.
Qed.

Lemma subs_reachable_ok allowed s s' :
  subs_ok s → rtc (live_step allowed) s s' → s'.(panicked) = false → subs_ok s'.
Proof.
  intros H Hs. induction Hs as [|a b d Hab Hbd IH]; [done|]. intros Hd. apply IH; [|done].
  eapply subs_step_ok; [done..|]. destruct Hbd as [|b e d [Hb _] _]; done.
Qed.

(** *** Subscriptions under different names *)

(** Only goroutines that have returned have a closed channel. *)
Definition tidy (s : Subs U) : Prop :=
  ∀ n st, s.(streams) !! n = Some st → st.(st_closed) = true → st.(st_phase) = Returned.

Lemma on_stream_tidy f n (s : Subs U) :
  (∀ st, s.(streams) !! n = Some st → (f st).(st_closed) = true → st.(st_closed) = true ∧ (f st).(st_phase) = st.(st_phase)
     ∨ (f st).(st_phase) = Returned) →
  tidy s → tidy (on_stream f n s).
Proof.
  intros Hf Ht m st. cbn. intros [[-> (st' & Hst & ->)]|[Hne Hst]]%lookup_alter_Some Hc; [|by eapply Ht].
  destruct (Hf _ Hst Hc) as [[Hc' ->]|]; [|done]. by eapply Ht.
Qed.

Lemma tidy_step s s' : subs_ok s → tidy s → live_step new_id s s' → s'.(panicked) = false ∧ tidy s'.
Proof.
  intros H Ht [Hn Hs].
  destruct Hs as [id n Hf Hnew|us ok n st E Hph|n st E Hph|ok n st u E Hph|n st E Hph|n st E Hph|u];
    try (split; [done|]; apply on_stream_tidy; [|done]; intros st' E'; assert (st' = st) as -> by congruence).
  - unfold new_id in Hnew. destruct (register_rest id n s H) as [_ ->]. split; [done|]. intros m st.
    rewrite (register_streams _ _ _ _ Hf H). rewrite Hnew. case_decide; [by intros [= <-]|].
    intros (st' & Hst & ->)%fmap_Some_1. by eapply Ht.
  - cbn. intros Hc. by rewrite (Ht _ _ E Hc) in Hph.
  - intros Hc. assert (Hc' : st.(st_closed) = true) by (revert Hc; destruct (st_buf st); [destruct (st_closed st) eqn:?|]; cbn; congruence).
    by rewrite (Ht _ _ E Hc') in Hph.
  - rewrite Hph. intros Hc. assert (Hc' : st.(st_closed) = true) by (destruct ok; done).
    by rewrite (Ht _ _ E Hc') in Hph.
  - unfold leave. rewrite E. split; [by case_decide|]. assert (Hf : ∀ st', s.(streams) !! n = Some st' → (in_phase Closing st').(st_closed) = true →
      st'.(st_closed) = true ∧ (in_phase Closing st').(st_phase) = st'.(st_phase) ∨ (in_phase Closing st').(st_phase) = Returned).
    { intros st' E' Hc. assert (st' = st) as -> by congruence. by rewrite (Ht _ _ E Hc) in Hph. }
    case_decide; [by apply (on_stream_tidy _ _ (mkSubs _ s.(streams) _))|by apply on_stream_tidy].
  - assert (Hc : st.(st_closed) = false).
    { destruct (st_closed st) eqn:Hc; [|done]. by rewrite (Ht _ _ E Hc) in Hph. }
    unfold finish. rewrite (close_chan_cases _ _ _ E), Hc. split; [done|].
    intros m st'. cbn. intros [[-> (? & _ & ->)]|[Hne Hst]]%lookup_alter_Some Hcl; [done|].
    rewrite lookup_alter_ne in Hst by done. by eapply Ht.
  - destruct (notify_exact u s H) as (I1 & _ & I3). rewrite I1. split; [done|].
    intros n st' Hst. destruct (streams s !! n) as [st|] eqn:E.
    + rewrite (I3 _ _ E) in Hst. injection Hst as <-. unfold deliver. repeat case_decide; cbn; apply (Ht _ _ E).
    + exfalso. destruct (foldr_push u _ s H (subscribed_NoDup _ H)) as (_ & _ & I4).
      { intros m. apply elem_of_subscribed. }
      unfold notify in Hst. by rewrite I4, E in Hst.
Qed.

Lemma tidy_run s s' :
  subs_ok s → tidy s → s.(panicked) = false → rtc (live_step new_id) s s' → s'.(panicked) = false.
Proof.
  intros H Ht Hp Hs. induction Hs as [|a b d Hab Hbd IH]; [done|].
  destruct (tidy_step _ _ H Ht Hab) as [Hb Hb']. apply IH; [by eapply subs_step_ok|done..].
Qed.

(** *** A subscription that replaces another *)

(** The channel is closed, the goroutine has yet to close it. *)
Definition doomed (n : nat) (s : Subs U) : Prop :=
  ∃ st, s.(streams) !! n = Some st ∧ st.(st_closed) = true ∧ st.(st_phase) ≠ Returned.

Lemma on_stream_doomed f m n (s : Subs U) :
  (∀ st, s.(streams) !! m = Some st → st.(st_closed) = true → st.(st_phase) ≠ Returned →
     (f st).(st_closed) = true ∧ (f st).(st_phase) ≠ Returned) →
  doomed n s → doomed n (on_stream f m s).
Proof.
  intros Hf (st & Hst & Hc & Hp). unfold doomed, on_stream. cbn. destruct (decide (n = m)) as [->|Hne].
  - rewrite lookup_alter_eq, Hst. exists (f st). split; [done|]. by apply Hf.
  - rewrite lookup_alter_ne by done. by exists st.
Qed.

Lemma doomed_step allowed n s s' : subs_ok s → live_step allowed s s' → s'.(panicked) = false → doomed n s → doomed n s'.
Proof.
  intros H [Hn Hs] Hnp Hd.
  destruct Hs as [id m Hf _|us ok m st E Hph|m st E Hph|ok m st u E Hph|m st E Hph|m st E Hph|u];
    try (apply on_stream_doomed; [|done]; intros st' E' Hc Hr; assert (st' = st) as -> by congruence).
  - destruct Hd as (st & Hst & Hc & Hp). unfold doomed. rewrite (register_streams _ _ _ _ Hf H).
    rewrite decide_False by congruence. rewrite Hst. cbn. eexists. split; [done|]. by case_decide.
  - by destruct ok.
  - destruct (st_buf st); [rewrite Hc|]; done.
  - rewrite Hph. by destruct ok.
  - unfold leave. rewrite E. by case_decide; [apply (on_stream_doomed _ _ _ (mkSubs _ s.(streams) _))|apply on_stream_doomed].
  - unfold finish in *. rewrite (close_chan_cases _ _ _ E) in *. destruct (st_closed st) eqn:Hc; [done|].
    destruct Hd as (st' & Hst & Hc' & Hp). assert (Hne : n ≠ m) by congruence.
    exists st'. cbn. by rewrite !lookup_alter_ne.
  - destruct (notify_exact u s H) as (_ & _ & I3). destruct Hd as (st & Hst & Hc & Hp). unfold doomed.
    rewrite (I3 _ _ Hst). eexists. split; [done|]. unfold deliver. by repeat case_decide.
Qed.

Lemma doomed_run allowed n s s' :
  subs_ok s → doomed n s → rtc (live_step allowed) s s' → s'.(panicked) = false → doomed n s'.
Proof.
  intros H Hd Hs. induction Hs as [|a b d Hab Hbd IH]; [done|]. intros Hp.
  assert (Hb : b.(panicked) = false) by (destruct Hbd as [|b e d [Hb _] _]; done).
  apply IH; [by eapply subs_step_ok|by eapply doomed_step|done].
Qed.

(** Such a goroutine can go on by itself, to the panic. *)
Lemma doomed_end allowed n st s :
  s.(streams) !! n = Some st → st.(st_closed) = true → st.(st_phase) ≠ Returned → s.(panicked) = false →
  ∃ s', rtc (live_step allowed) s s' ∧ s'.(panicked) = true.
Proof.
  assert (Hset : ∀ f s st, s.(streams) !! n = Some st → (on_stream f n s).(streams) !! n = Some (f st)).
  { intros f s0 st0 Hs. cbn. by rewrite lookup_alter_eq, Hs. }
  assert (Hclosing : ∀ s st, s.(streams) !! n = Some st → st.(st_closed) = true → st.(st_phase) = Closing →
    s.(panicked) = false → ∃ s', rtc (live_step allowed) s s' ∧ s'.(panicked) = true).
  { intros s0 st0 E Hc Hp Hn. exists (finish n s0). split; [apply rtc_once; split; [done|by eapply SFinish]|].
    unfold finish. by rewrite (close_chan_cases _ _ _ E), Hc. }
  assert (Hleaving : ∀ s st, s.(streams) !! n = Some st → st.(st_closed) = true → st.(st_phase) = Leaving →
    s.(panicked) = false → ∃ s', rtc (live_step allowed) s s' ∧ s'.(panicked) = true).
  { intros s0 st0 E Hc Hp Hn. edestruct (Hclosing (leave n s0) (in_phase Closing st0)) as (s' & Hs' & Hp'); try done.
    - unfold leave. rewrite E. case_decide; by apply Hset.
    - unfold leave. rewrite E. by case_decide.
    - exists s'. split; [|done]. eapply rtc_l; [split; [done|by eapply SLeave]|done]. }
  assert (Hloop : ∀ b s st, s.(streams) !! n = Some st → st.(st_closed) = true → st.(st_phase) = Receiving → st.(st_buf) = b →
    s.(panicked) = false → ∃ s', rtc (live_step allowed) s s' ∧ s'.(panicked) = true).
  { intros b. induction b as [|u b IH]; intros s0 st0 E Hc Hp Hb Hn.
    - edestruct (Hleaving (receive n s0) (in_phase Leaving st0)) as (s' & Hs' & Hp'); try done.
      + unfold receive. rewrite (Hset _ _ _ E). cbv beta. by rewrite Hb, Hc.
      + exists s'. split; [|done]. eapply rtc_l; [split; [done|by eapply SReceive]|done].
    - set (s1 := receive n s0). set (st1 := in_phase (Sending u) (with_buf b st0)).
      assert (E1 : s1.(streams) !! n = Some st1) by (unfold s1, receive; rewrite (Hset _ _ _ E); cbv beta; by rewrite Hb).
      edestruct (IH (send true n s1)) as (s' & Hs' & Hp'); [unfold send; by rewrite (Hset _ _ _ E1)|done..|].
      exists s'. split; [|done]. eapply rtc_l; [split; [done|by eapply SReceive]|].
      eapply rtc_l; [split; [done|by eapply (SSend _ _ true _ st1)]|done]. }
  intros E Hc Hr Hn. destruct (st_phase st) as [| |u| | |] eqn:Hp.
  - edestruct (Hloop st.(st_buf) (begin [] true n s)) as (s' & Hs' & Hp'); [unfold begin; by rewrite (Hset _ _ _ E)|done..|].
    exists s'. split; [|done]. eapply rtc_l; [split; [done|by eapply SBegin]|done].
  - by eapply Hloop.
  - edestruct (Hloop st.(st_buf) (send true n s)) as (s' & Hs' & Hp');
      [unfold send; rewrite (Hset _ _ _ E); cbv beta; by rewrite Hp|done..|].
    exists s'. split; [|done]. eapply rtc_l; [split; [done|by eapply SSend]|done].
  - by eapply Hleaving.
  - by eapply Hclosing.
  - done.
Qed.

(** ** Properties *)

(** A broadcast never panics: it reaches the open channel of every
    subscriber, at its end when there is room, and nothing else.  As long as
    every subscriber has a name of its own nothing panics; but a second
    subscription under a name in use closes the channel of the first, whose
    goroutine can from then on only end in a panic, which it can always
    reach. *)
Theorem second_subscription_panics :
  (∀ s, rtc (live_step new_id) no_subs s → s.(panicked) = false) ∧
  (∀ s u, rtc (live_step any_id) no_subs s → s.(panicked) = false →
     (notify u s).(panicked) = false ∧
     ∀ n st, s.(streams) !! n = Some st →
       (notify u s).(streams) !! n = Some (if decide (s.(subscribers) !! st.(st_id) = Some n) then deliver u st else st)) ∧
  (∀ s id n m, rtc (live_step any_id) no_subs s → s.(panicked) = false →
     s.(subscribers) !! id = Some n → s.(streams) !! m = None →
     let s1 := register id m s in
     s1.(panicked) = false ∧
     (∀ s2, rtc (live_step any_id) s1 s2 → s2.(panicked) = false →
        ∃ st, s2.(streams) !! n = Some st ∧ st.(st_closed) = true ∧ st.(st_phase) ≠ Returned) ∧
     ∃ s2, rtc (live_step any_id) s1 s2 ∧ s2.(panicked) = true).
Proof.
  split_and!.
  - intros s Hs. apply (tidy_run no_subs); [apply no_subs_ok|by intros ?|done|done].
  - intros s u Hs Hp. assert (H : subs_ok s) by (eapply subs_reachable_ok; [apply no_subs_ok|done..]).
    destruct (notify_exact u s H) as (I1 & _ & I3). split; [by rewrite I1|done].
  - intros s id n m Hs Hp Hid Hm s1. assert (H : subs_ok s) by (eapply subs_reachable_ok; [apply no_subs_ok|done..]).
    assert (Hp1 : s1.(panicked) = false) by (unfold s1; by destruct (register_rest id m s H) as [_ ->]).
    destruct (so_map _ H _ _ Hid) as (st & Hst & Hi & Hc & Ha).
    assert (E1 : s1.(streams) !! n = Some (closed_chan st)).
    { unfold s1. rewrite (register_streams _ _ _ _ Hm H). rewrite decide_False by congruence.
      by rewrite decide_True, Hst. }
    assert (Hr : (closed_chan st).(st_phase) ≠ Returned) by apply Ha.
    split_and!; [done| |by eapply doomed_end].
    intros s2 Hs2 Hp2. eapply (doomed_run any_id n s1); [by apply register_ok|by eexists|done|done].
Qed.
End streams.

Definition one_sub : Subs nat := register "a" 0 no_subs.
Lemma second_subscription_panics_witness :
  let s1 := register "a" 1 one_sub in
  s1.(panicked) = false ∧ ∃ s2, rtc (live_step 16 any_id) s1 s2 ∧ s2.(panicked) = true.
Proof.
  destruct (second_subscription_panics (U := nat) 16) as (_ & _ & H).
  destruct (H one_sub "a" 0 1) as (H1 & _ & H2); [|reflexivity..|by split].
  apply rtc_once. split; [reflexivity|]. by apply SRegister.
Defined.
