(* ===== verification/Topology.v ===== *)
(** * The topology server (common/runtime/server.go)

    [TopologyServer] keeps the topology of each namespace and pushes changes
    to the runtimes that subscribe.  The map of topologies and the map of
    subscribers have locks of their own: a mutator changes the topologies,
    lets go of the lock and then notifies, so several of them may be between
    the two.  Streams are those of [Subscribers], with channels of 16. *)

From S2P Require Import Prelude Subscribers.

(** ** Messages (topology.proto) *)

Inductive Connectivity := MESH | HUB_SPOKE | POINT_TO_POINT.
Inductive Exposure := INTERNAL | EXTERNAL.
Inductive RelayPolicy := AUTO | NEVER | ALWAYS.
Record Intent := mkIntent { it_connectivity : Connectivity; it_exposure : Exposure; it_relayPolicy : RelayPolicy }.
Record Member := mkMember { mb_client_id : string; mb_role : string }.
Record Topology := mkTopology { tp_namespace : string; tp_intent : option Intent; tp_members : list Member }.
Inductive UpdateType := FULL | PATCH.
Record TopologyUpdate := mkUpdate {
  up_type : UpdateType;
  up_topologies : list Topology;
  up_deletedNamespaces : list string;
}.

(** ** The server *)

Record TopologyServer := mkTopologyServer {
  topologies : gmap string Topology;
  ts_subs : Subs TopologyUpdate;
  (* the mutators between the two locks, with what they will push *)
  notifying : gmap nat TopologyUpdate;
}.

Definition NewTopologyServer : TopologyServer := mkTopologyServer ∅ no_subs ∅.
Definition chan_capacity : nat := 16.

Definition default_intent (topo : Topology) : Topology :=
  match topo.(tp_intent) with
  | None => mkTopology topo.(tp_namespace) (Some (mkIntent MESH INTERNAL AUTO)) topo.(tp_members)
  | Some _ => topo
  end.

(** The part of [ApplyTopology] and [DeleteTopology] under [s.mu]; [i] is the
    goroutine. *)
Definition ApplyTopology (i : nat) (topo : Topology) (s : TopologyServer) : TopologyServer :=
  let topo := default_intent topo in
  mkTopologyServer (<[topo.(tp_namespace) := topo]> s.(topologies)) s.(ts_subs)
    (<[i := mkUpdate PATCH [topo] []]> s.(notifying)).
Definition DeleteTopology (i : nat) (namespace : string) (s : TopologyServer) : TopologyServer :=
  mkTopologyServer (delete namespace s.(topologies)) s.(ts_subs)
    (<[i := mkUpdate PATCH [] [namespace]]> s.(notifying)).
Definition notifySubscribers (i : nat) (u : TopologyUpdate) (s : TopologyServer) : TopologyServer :=
  mkTopologyServer s.(topologies) (notify chan_capacity u s.(ts_subs)) (delete i s.(notifying)).

Definition GetTopology (namespace : string) (s : TopologyServer) : option Topology := s.(topologies) !! namespace.
Definition GetAllTopologies (s : TopologyServer) : list Topology := (map_to_list s.(topologies)).*2.
Definition ListTopologies (s : TopologyServer) : list Topology := GetAllTopologies s.

(** The order of a map's elements is any. *)
Definition buildFullUpdate (s : TopologyServer) (u : TopologyUpdate) : Prop :=
  u.(up_type) = FULL ∧ u.(up_topologies) ≡ₚ GetAllTopologies s ∧ u.(up_deletedNamespaces) = [].

Definition runtime_id (id : string) : string := if decide (id = "") then "anonymous" else id.

Definition on_subs (f : Subs TopologyUpdate → Subs TopologyUpdate) (s : TopologyServer) : TopologyServer :=
  mkTopologyServer s.(topologies) (f s.(ts_subs)) s.(notifying).
Definition stream_at (n : nat) (p : stream_phase TopologyUpdate) (s : TopologyServer) : Prop :=
  ∃ st, s.(ts_subs).(streams) !! n = Some st ∧ st.(st_phase) = p.

(** Every subscriber has room in its channel. *)
Definition room (s : TopologyServer) : Prop :=
  ∀ n st, s.(ts_subs).(streams) !! n = Some st → length st.(st_buf) < chan_capacity.

(** [orderly]: one mutator at a time, and no update is dropped. *)
Inductive topo_step (orderly : bool) (s : TopologyServer) : TopologyServer → Prop :=
| TApply i topo :
    s.(notifying) !! i = None → (orderly = true → s.(notifying) = ∅) → topo_step orderly s (ApplyTopology i topo s)
| TDelete i namespace :
    s.(notifying) !! i = None → (orderly = true → s.(notifying) = ∅) → topo_step orderly s (DeleteTopology i namespace s)
| TNotify i u :
    s.(notifying) !! i = Some u → (orderly = true → room s) → topo_step orderly s (notifySubscribers i u s)
| TSubscribe id n : s.(ts_subs).(streams) !! n = None → topo_step orderly s (on_subs (register (runtime_id id) n) s)
| TSnapshot u ok n : stream_at n Registered s → buildFullUpdate s u → topo_step orderly s (on_subs (begin [u] ok n) s)
| TReceive n : stream_at n Receiving s → topo_step orderly s (on_subs (receive n) s)
| TSend ok n u : stream_at n (Sending u) s → topo_step orderly s (on_subs (send ok n) s)
| TLeave n : stream_at n Leaving s → topo_step orderly s (on_subs (leave n) s)
| TFinish n : stream_at n Closing s → topo_step orderly s (on_subs (finish n) s).

Definition topo_live orderly (s s' : TopologyServer) : Prop :=
  s.(ts_subs).(panicked) = false ∧ topo_step orderly s s'.
Definition topo_reachable orderly : TopologyServer → Prop := rtc (topo_live orderly) NewTopologyServer.

(** What a runtime makes of the updates: a full one replaces what it has. *)
Definition apply_update (m : gmap string Topology) (u : TopologyUpdate) : gmap string Topology :=
  let m0 := match u.(up_type) with FULL => ∅ | PATCH => m end in
  foldl (λ m ns, delete ns m) (foldl (λ m t, <[t.(tp_namespace) := t]> m) m0 u.(up_topologies))
    u.(up_deletedNamespaces).
Definition view (us : list TopologyUpdate) : gmap string Topology := foldl apply_update ∅ us.

(** What is on the way to it. *)
Definition in_flight (st : Stream TopologyUpdate) : list TopologyUpdate :=
  match st.(st_phase) with Sending u => u :: st.(st_buf) | _ => st.(st_buf) end.
Definition to_notify (s : TopologyServer) : list TopologyUpdate := (map_to_list s.(notifying)).*2.

(** ** The steps are those of the streams *)

Lemma topo_subs_step orderly s s' :
  topo_step orderly s s' → s'.(ts_subs) = s.(ts_subs) ∨ subs_step chan_capacity any_id s.(ts_subs) s'.(ts_subs).
Proof.
  intros Hs. destruct Hs as [| |i u|id n Hn|u ok n (st & Hst & Hp)|n (st & Hst & Hp)|ok n u (st & Hst & Hp)|n (st & Hst & Hp)|n (st & Hst & Hp)];
    [by left|by left|right; cbn..].
  - apply SNotify.
  - by apply SRegister.
  - by eapply SBegin.
  - by eapply SReceive.
  - by eapply SSend.
  - by eapply SLeave.
  - by eapply SFinish.
Qed.

Lemma topo_subs_run orderly s s' :
  rtc (topo_live orderly) s s' → rtc (live_step chan_capacity any_id) s.(ts_subs) s'.(ts_subs).
Proof.
  intros Hs. induction Hs as [|a b d [Hn Hab] _ IH]; [done|].
  destruct (topo_subs_step _ _ _ Hab) as [<-|Hb]; [done|]. by eapply rtc_l.
Qed.

(** ** Changes *)

(** The updates that are pushed: one topology put, or one deleted. *)
Inductive change := Put (t : Topology) | Del (ns : string).
Definition key_of (c : change) : string := match c with Put t => t.(tp_namespace) | Del ns => ns end.
Definition value_of (c : change) : option Topology := match c with Put t => Some t | Del _ => None end.
Definition update_of (c : change) : TopologyUpdate :=
  match c with Put t => mkUpdate PATCH [t] [] | Del ns => mkUpdate PATCH [] [ns] end.
Definition run_changes (m : gmap string Topology) (cs : list change) : gmap string Topology :=
  foldl apply_update m (update_of <$> cs).

(** What the last change of a namespace makes of it. *)
Definition last_write (cs : list change) (k : string) : option (option Topology) :=
  foldl (λ acc c, if decide (key_of c = k) then Some (value_of c) else acc) None cs.

Lemma lookup_change m c k : apply_update m (update_of c) !! k = if decide (key_of c = k) then value_of c else m !! k.
Proof.
  destruct c; cbn; case_decide; subst; rewrite ?lookup_insert_eq, ?lookup_delete_eq, ?lookup_insert_ne, ?lookup_delete_ne; done.
Qed.

Lemma run_snoc m cs c : run_changes m (cs ++ [c]) = apply_update (run_changes m cs) (update_of c).
Proof. unfold run_changes. by rewrite fmap_app, foldl_app. Qed.

Lemma last_write_snoc cs c k :
  last_write (cs ++ [c]) k = if decide (key_of c = k) then Some (value_of c) else last_write cs k.
Proof. unfold last_write. by rewrite foldl_app. Qed.

Lemma lookup_run cs m k : run_changes m cs !! k = default (m !! k) (last_write cs k).
Proof.
  induction cs as [|c cs IH] using rev_ind; [done|]. rewrite run_snoc, lookup_change, last_write_snoc.
  by case_decide.
Qed.

(** Changes that have been made already change nothing. *)
Definition holds (m : gmap string Topology) (cs : list change) : Prop :=
  ∀ k v, last_write cs k = Some v → m !! k = v.

Lemma run_holds m cs : holds m cs → run_changes m cs = m.
Proof.
  intros H. apply map_eq. intros k. rewrite lookup_run. destruct (last_write cs k) as [v|] eqn:E; [|done].
  symmetry. by apply H.
Qed.

Lemma holds_snoc m cs c : holds m cs → holds (apply_update m (update_of c)) (cs ++ [c]).
Proof.
  intros H k v. rewrite last_write_snoc, lookup_change. case_decide; [by intros [= <-]|]. by apply H.
Qed.

(** A full update is the map it was made from. *)
Definition by_namespace (l : list Topology) : list (string * Topology) := (λ t, (t.(tp_namespace), t)) <$> l.
Lemma foldl_insert_view (l : list Topology) (m : gmap string Topology) :
  foldl (λ m t, <[t.(tp_namespace) := t]> m) m l = list_to_map (M := gmap string Topology) (reverse (by_namespace l)) ∪ m.
Proof.
  revert m. induction l as [|t l IH]; intros m.
  - cbn. by rewrite (left_id_L ∅ (∪)).
  - cbn [foldl]. rewrite IH. change (by_namespace (t :: l)) with ((t.(tp_namespace), t) :: by_namespace l).
    rewrite reverse_cons, list_to_map_app, <-(assoc_L (∪)). f_equal. cbn.
    by rewrite <-insert_union_l, (left_id_L ∅ (∪)).
Qed.

Lemma full_view (s : TopologyServer) u m :
  (∀ ns t, s.(topologies) !! ns = Some t → t.(tp_namespace) = ns) →
  buildFullUpdate s u → apply_update m u = s.(topologies).
Proof.
  intros Hns (Ht & Hp & Hd). unfold apply_update. rewrite Ht, Hd. cbn. rewrite foldl_insert_view, (right_id_L ∅ (∪)).
  assert (Hl : by_namespace (GetAllTopologies s) = map_to_list s.(topologies)).
  { unfold by_namespace, GetAllTopologies. rewrite <-list_fmap_compose. rewrite <-(list_fmap_id (map_to_list s.(topologies))) at 2.
    apply list_fmap_ext. intros i [k t] Hi. cbn. f_equal. apply Hns, elem_of_map_to_list. by eapply list_elem_of_lookup_2. }
  etrans; [|apply list_to_map_to_list]. apply list_to_map_proper.
  - rewrite fmap_reverse, reverse_Permutation. unfold by_namespace. rewrite Hp. fold (by_namespace (GetAllTopologies s)).
    rewrite Hl. apply NoDup_fst_map_to_list.
  - rewrite reverse_Permutation. unfold by_namespace. rewrite Hp. fold (by_namespace (GetAllTopologies s)). by rewrite Hl.
Qed.

(** ** Orderly mutators *)

(** The mutator that has changed the topologies and is to notify. *)
Definition pending (s : TopologyServer) (cs : list change) : Prop :=
  match cs with
  | [] => s.(notifying) = ∅
  | [c] => (∃ i, s.(notifying) = {[i := update_of c]}) ∧ s.(topologies) !! key_of c = value_of c
  | _ => False
  end.

(** What a stream has sent and what is on the way to it make the
    topologies. *)
Definition stream_inv (m : gmap string Topology) (cs : list change) (st : Stream TopologyUpdate) : Prop :=
  st.(st_closed) = false →
  match st.(st_phase) with
  | Registered => st.(st_sent) = [] ∧ ∃ bs, st.(st_buf) = update_of <$> bs ∧ holds m (bs ++ cs)
  | Receiving | Sending _ => ∃ bs, in_flight st = update_of <$> bs ∧ run_changes (view st.(st_sent)) (bs ++ cs) = m
  | _ => True
  end.

Record topo_inv (s : TopologyServer) : Prop := mkTopoInv {
  ti_subs : subs_ok s.(ts_subs);
  ti_keys ns t : s.(topologies) !! ns = Some t → t.(tp_namespace) = ns;
  ti_streams : ∃ cs, pending s cs ∧ ∀ n st, s.(ts_subs).(streams) !! n = Some st → stream_inv s.(topologies) cs st;
}.

Lemma topo_inv_new : topo_inv NewTopologyServer.
Proof. split; [apply no_subs_ok|by intros|]. exists []. split; [done|]. by intros. Qed.

Lemma pending_holds s cs : pending s cs → holds s.(topologies) cs.
Proof.
  destruct cs as [|c [|]]; [by intros _ k v|intros [_ Hc]|done]. intros k v. unfold last_write. cbn.
  case_decide; [|done]. intros [= <-]. by subst.
Qed.

(** A mutator under its lock. *)
Lemma mutate_inv s i c :
  topo_inv s → s.(notifying) = ∅ →
  topo_inv (mkTopologyServer (apply_update s.(topologies) (update_of c)) s.(ts_subs) (<[i := update_of c]> s.(notifying))).
Proof.
  intros [H1 H2 (cs & Hc & H3)] Hn. split; cbn; [done|..].
  - intros ns t. rewrite lookup_change. case_decide as Hd; [|apply H2]. destruct c; [|done]. by intros [= <-].
  - assert (cs = []) as ->.
    { destruct cs as [|c' [|]]; [done| |done]. destruct Hc as [[j Hj] _]. rewrite Hn in Hj.
      apply (f_equal (lookup j)) in Hj. by rewrite lookup_empty, lookup_singleton_eq in Hj. }
    exists [c]. split.
    + cbn. split; [exists i; by rewrite Hn|]. by rewrite lookup_change, decide_True.
    + intros n st Hst Hcl. specialize (H3 _ _ Hst Hcl). destruct (st_phase st); try done.
      * destruct H3 as (Hs & bs & Hb & Hh). rewrite app_nil_r in Hh. split; [done|]. exists bs. split; [done|].
        by apply holds_snoc.
      * destruct H3 as (bs & Hb & Hr). rewrite app_nil_r in Hr. exists bs. split; [done|]. by rewrite run_snoc, Hr.
      * destruct H3 as (bs & Hb & Hr). rewrite app_nil_r in Hr. exists bs. split; [done|]. by rewrite run_snoc, Hr.
Qed.

Lemma notify_inv s i u :
  topo_inv s → s.(notifying) !! i = Some u → room s → topo_inv (notifySubscribers i u s).
Proof.
  intros [H1 H2 (cs & Hc & H3)] Hi Hroom. destruct (notify_exact chan_capacity u _ H1) as (N1 & N2 & N3).
  split; cbn; [by apply foldr_push_ok|done|].
  destruct cs as [|c [|]]; [by rewrite Hc in Hi| |done]. destruct Hc as [[j Hj] Hm]. rewrite Hj in Hi.
  apply lookup_singleton_Some in Hi as [-> <-]. exists []. split; [cbn; by rewrite Hj, delete_singleton_eq|].
  intros n st' Hst' Hcl. destruct (streams (ts_subs s) !! n) as [st|] eqn:Hst.
  - rewrite (N3 _ _ Hst) in Hst'. injection Hst' as <-.
    assert (Hcl' : st.(st_closed) = false) by (revert Hcl; unfold deliver; by repeat case_decide).
    specialize (H3 _ _ Hst Hcl'). destruct (decide (attached st.(st_phase))) as [Ha|Ha].
    + pose proof (so_open _ H1 _ _ Hst Hcl' Ha) as Hsub. rewrite decide_True by done. unfold deliver.
      rewrite decide_True by (by eapply Hroom). unfold in_flight in *. cbn.
      destruct (st_phase st); try done.
      * destruct H3 as (Hs & bs & -> & Hh). split; [done|]. exists (bs ++ [c]).
        rewrite app_nil_r, fmap_app. by split.
      * destruct H3 as (bs & -> & Hr). exists (bs ++ [c]). rewrite app_nil_r, fmap_app. by split.
      * destruct H3 as (bs & Hb & Hr). exists (bs ++ [c]). rewrite app_nil_r, fmap_app, <-Hb. by split.
    + assert (Hp : st_phase (if decide (subscribers (ts_subs s) !! st_id st = Some n)
        then deliver chan_capacity (update_of c) st else st) = st.(st_phase)) by (unfold deliver; by repeat case_decide).
      rewrite Hp. destruct (st_phase st); try exact I; destruct Ha; by split.
  - exfalso. destruct (foldr_push chan_capacity (update_of c) _ _ H1 (subscribed_NoDup _ H1)) as (_ & _ & I4).
    { intros m. apply elem_of_subscribed. }
    unfold notify in Hst'. by rewrite I4, Hst in Hst'.
Qed.

(** A step of one stream. *)
Lemma on_stream_inv s f n :
  topo_inv s → subs_ok (on_stream f n s.(ts_subs)) →
  (∀ st cs, s.(ts_subs).(streams) !! n = Some st → stream_inv s.(topologies) cs st → stream_inv s.(topologies) cs (f st)) →
  topo_inv (on_subs (on_stream f n) s).
Proof.
  intros [H1 H2 (cs & Hc & H3)] Hok Hf. split; cbn; [done..|]. exists cs. split; [done|].
  intros m st [[-> (st' & Hst & ->)]|[Hne Hst]]%lookup_alter_Some; [|by eapply H3]. eapply Hf; [done|by eapply H3].
Qed.

Lemma topo_step_inv s s' :
  topo_inv s → topo_live true s s' → s'.(ts_subs).(panicked) = false → topo_inv s'.
Proof.
  intros Hi [Hn Hs] Hp. pose proof Hi as [H1 H2 (cs & Hc & H3)].
  assert (Hok : subs_ok s'.(ts_subs)).
  { destruct (topo_subs_step _ _ _ Hs) as [->|Hs']; [done|]. by eapply subs_step_ok. }
  destruct Hs as [i topo _ Hz|i ns _ Hz|i u Hu Hr|id n Hf|u ok n (st & Hst & Hph) Hu|n (st & Hst & Hph)
    |ok n u (st & Hst & Hph)|n (st & Hst & Hph)|n (st & Hst & Hph)].
  - exact (mutate_inv s i (Put (default_intent topo)) Hi (Hz eq_refl)).
  - exact (mutate_inv s i (Del ns) Hi (Hz eq_refl)).
  - by apply notify_inv; [..|apply Hr].
  - split; [done..|]. exists cs. split; [done|]. intros m st. cbn [on_subs ts_subs topologies]. rewrite (register_streams _ _ _ _ Hf H1).
    case_decide; [intros [= <-] _; cbn; split; [done|]; exists []; split; [done|]; by apply pending_holds|].
    intros (st' & Hst & ->)%fmap_Some_1. case_decide; [by intros|]. by eapply H3.
  - apply on_stream_inv; [done..|]. intros st' cs' E. assert (st' = st) as -> by congruence. intros Hinv Hcl.
    specialize (Hinv Hcl). rewrite Hph in Hinv. destruct ok; [|done]. cbn.
    destruct Hinv as (_ & bs & -> & Hh). exists bs. split; [done|]. unfold view. cbn.
    rewrite (full_view s) by done. by apply run_holds.
  - apply on_stream_inv; [done..|]. intros st' cs' E. assert (st' = st) as -> by congruence. intros Hinv.
    destruct (st_buf st) as [|u rest] eqn:Hb.
    + destruct (st_closed st) eqn:Hcl; [|done]. intros Hx. cbn in Hx. congruence.
    + intros Hcl. specialize (Hinv Hcl). rewrite Hph in Hinv. unfold in_flight in *. rewrite Hph in Hinv. cbn. by rewrite <-Hb.
  - apply on_stream_inv; [done..|]. intros st' cs' E. assert (st' = st) as -> by congruence. intros Hinv. rewrite Hph.
    destruct ok; [|by intros]. intros Hcl. specialize (Hinv Hcl). unfold in_flight in *. rewrite Hph in Hinv. cbn.
    destruct Hinv as ([|b bs] & Hb & Hr); [done|]. injection Hb as -> ->. exists bs. split; [done|].
    unfold run_changes, view in *. by rewrite foldl_app.
  - unfold on_subs, leave. rewrite Hst. split; cbn; [unfold on_subs, leave in Hok; cbn in Hok; by rewrite Hst in Hok|done|].
    exists cs. split; [done|]. intros m st'. case_decide; cbn;
      (intros [[-> (? & _ & ->)]|[Hne Hst']]%lookup_alter_Some; [by intros|by eapply H3]).
  - split; [done..|]. exists cs. split; [done|]. intros m st'. unfold on_subs, finish. cbn.
    rewrite (close_chan_cases _ _ _ Hst).
    destruct (st_closed st); cbn; intros [[-> (? & _ & ->)]|[Hne Hst']]%lookup_alter_Some; try (by intros).
    + by eapply H3.
    + rewrite lookup_alter_ne in Hst' by done. by eapply H3.
Qed.


Lemma topo_run_inv s s' : topo_inv s → rtc (topo_live true) s s' → s'.(ts_subs).(panicked) = false → topo_inv s'.
Proof.
  intros H Hs. induction Hs as [|a b d Hab Hbd IH]; [done|]. intros Hd. apply IH; [|done].
  eapply topo_step_inv; [done..|]. destruct Hbd as [|b e d [Hb _] _]; done.
Qed.

(** ** Properties *)

(** C21. As long as the mutators come one after the other and no channel is
    full, what a runtime makes of the updates it was sent and of those on
    the way to it is what the server holds, whenever no mutator is at work;
    a runtime that has been sent everything holds just that. *)
Theorem topology_converges (s : TopologyServer) (id : string) (n : nat) (st : Stream TopologyUpdate) :
  topo_reachable true s → s.(ts_subs).(panicked) = false → s.(notifying) = ∅ →
  s.(ts_subs).(subscribers) !! id = Some n → s.(ts_subs).(streams) !! n = Some st →
  st.(st_phase) ≠ Registered → st.(st_phase) ≠ Leaving →
  foldl apply_update (view st.(st_sent)) (in_flight st) = s.(topologies) ∧
  (in_flight st = [] → view st.(st_sent) = s.(topologies)).
Proof.
  intros Hs Hp Hn Hid Hst Hr Hl. pose proof (topo_run_inv _ _ topo_inv_new Hs Hp) as [H1 _ (cs & Hc & H3)].
  destruct (so_map _ H1 _ _ Hid) as (st' & Hst' & _ & Hcl & [A1 A2]). assert (st' = st) as -> by congruence.
  assert (cs = []) as ->.
  { destruct cs as [|c [|]]; [done| |done]. destruct Hc as [[i Hi] _]. rewrite Hn in Hi.
    apply (f_equal (lookup i)) in Hi. by rewrite lookup_empty, lookup_singleton_eq in Hi. }
  assert (Hf : foldl apply_update (view st.(st_sent)) (in_flight st) = s.(topologies)).
  { pose proof (H3 _ _ Hst Hcl) as Hinv. destruct (st_phase st); try done;
      destruct Hinv as (bs & Hb & Hr'); rewrite app_nil_r in Hr'; by rewrite Hb. }
  split; [done|]. intros He. by rewrite He in Hf.
Qed.

Definition example_topology (role : string) : Topology :=
  mkTopology "office" None [mkMember "cam" role].
Definition subscribed : TopologyServer :=
  on_subs (begin [mkUpdate FULL [] []] true 0) (on_subs (register "r" 0) NewTopologyServer).

Lemma subscribed_run orderly : rtc (topo_live orderly) NewTopologyServer subscribed.
Proof.
  eapply rtc_l; [split; [reflexivity|by apply (TSubscribe _ _ "r" 0)]|].
  apply rtc_once. split; [reflexivity|]. apply TSnapshot; [by eexists|by split_and!].
Qed.

Lemma topology_converges_witness :
  let u := mkUpdate PATCH [default_intent (example_topology "peer")] [] in
  let s := notifySubscribers 7 u (ApplyTopology 7 (example_topology "peer") subscribed) in
  ∃ st, s.(ts_subs).(streams) !! 0 = Some st ∧ foldl apply_update (view st.(st_sent)) (in_flight st) = s.(topologies).
Proof.
  intros u s. exists (mkStream "r" Receiving [u] false [mkUpdate FULL [] []]). split; [vm_compute; reflexivity|].
  refine (proj1 (topology_converges s "r" 0 _ _ _ _ _ _ _ _)); try (vm_compute; reflexivity); [|done..].
  unfold topo_reachable. etrans; [apply subscribed_run|].
  eapply rtc_l; [split; [reflexivity|apply (TApply _ _ 7 (example_topology "peer")); [reflexivity|by intros]]|].
  apply rtc_once. split; [reflexivity|]. apply TNotify; [vm_compute; reflexivity|].
  intros _ n st Hst.
  change ((<[0 := mkStream "r" Receiving [] false [mkUpdate FULL [] []]]> (∅ : gmap nat (Stream TopologyUpdate))) !! n = Some st) in Hst.
  apply lookup_insert_Some in Hst as [[_ <-]|[_ Hst]]; [cbn; unfold chan_capacity; lia|by rewrite lookup_empty in Hst].
Defined.

(** Two mutators of one namespace can notify in the other order than
    they changed the map: a runtime is then left with the older topology,
    with nothing on the way to it. *)
Theorem topology_applied_out_of_order (t1 t2 : Topology) :
  t1.(tp_namespace) = t2.(tp_namespace) → default_intent t1 ≠ default_intent t2 →
  ∃ s st, topo_reachable false s ∧ s.(notifying) = ∅ ∧ s.(ts_subs).(streams) !! 0 = Some st ∧
    st.(st_phase) = Receiving ∧ in_flight st = [] ∧
    GetTopology t1.(tp_namespace) s = Some (default_intent t2) ∧
    view st.(st_sent) !! t1.(tp_namespace) = Some (default_intent t1).
Proof.
  intros Hns Hne. set (d1 := default_intent t1). set (d2 := default_intent t2).
  set (u1 := mkUpdate PATCH [d1] []). set (u2 := mkUpdate PATCH [d2] []).
  assert (N1 : d1.(tp_namespace) = t1.(tp_namespace)) by (unfold d1, default_intent; by destruct (tp_intent t1)).
  assert (N2 : d2.(tp_namespace) = t1.(tp_namespace)) by (unfold d2, default_intent; by destruct (tp_intent t2)).
  set (st := λ p b us, @mkStream TopologyUpdate "r" p b false us). set (full := mkUpdate FULL [] []).
  set (m := <[d2.(tp_namespace) := d2]> (<[d1.(tp_namespace) := d1]> (∅ : gmap string Topology))).
  set (x := λ p b us, mkTopologyServer m (mkSubs {["r" := 0]} {[0 := st p b us]} false) ∅).
  exists (x Receiving [] [full; u2; u1]), (st Receiving [] [full; u2; u1]).
  split_and!; try done.
  - unfold topo_reachable. etrans; [apply subscribed_run|].
    eapply rtc_l; [split; [reflexivity|by apply (TApply _ _ 1 t1)]|].
    eapply rtc_l; [split; [reflexivity|by apply (TApply _ _ 2 t2)]|].
    eapply rtc_l; [split; [reflexivity|by apply (TNotify _ _ 2 u2)]|].
    eapply rtc_l; [split; [reflexivity|by apply (TNotify _ _ 1 u1)]|].
    eapply rtc_l; [split; [reflexivity|apply (TReceive _ _ 0); by eexists]|].
    eapply rtc_l; [split; [reflexivity|apply (TSend _ _ true 0 u2); by eexists]|].
    eapply rtc_l; [split; [reflexivity|apply (TReceive _ _ 0); by eexists]|].
    eapply rtc_l; [split; [reflexivity|apply (TSend _ _ true 0 u1); by eexists]|].
    match goal with |- rtc _ ?a ?b => assert (a = b) as -> by reflexivity end. done.
  - unfold GetTopology, x, m. cbn. rewrite <-N2. by rewrite lookup_insert_eq.
  - cbn. rewrite <-N1. by rewrite lookup_insert_eq.
Qed.

Lemma topology_applied_out_of_order_witness :
  ∃ s st, topo_reachable false s ∧ s.(ts_subs).(streams) !! 0 = Some st ∧
    view st.(st_sent) !! "office" = Some (default_intent (example_topology "peer")) ∧
    GetTopology "office" s = Some (default_intent (example_topology "source")).
Proof.
  destruct (topology_applied_out_of_order (example_topology "peer") (example_topology "source")) as (s & st & H);
    [reflexivity|discriminate|]. exists s, st. by destruct_and! H.
Defined.
