(* ===== verification/PluginServer.v ===== *)
(** * External plugins (common/plugin/grpc_server.go, common/sdk/plugin.go)

    The two ends of the plugin protocol: [PluginGRPCServer], which pushes
    events and requests to the plugins that subscribe and takes their
    results, and the [Plugin] of the SDK, which runs its handlers.  Streams
    are those of [Subscribers], with channels of 64; gRPC delivers what
    [Send] took, in order.

    [json] is what an [any] decoded from JSON can be; its text, and the
    handlers of a plugin, are arguments. *)

From S2P Require Import Prelude Proto Types Subscribers.

(** ** JSON values *)

Inductive json : Type :=
| JNull
| JBool (b : bool)
| JNumber (f : spec_float)
| JString (s : string)
| JArray (l : list json)
| JObject (m : gmap string json).

(** The value whose text [json.Marshal] makes of the payload of an event;
    [json_norm] leaves only the five kinds. *)
Fixpoint json_of (v : any) : json :=
  match v with
  | ABool b => JBool b
  | AString s => JString s
  | AFloat64 f => JNumber f
  | AMap m => JObject (json_of <$> m)
  | _ => JNull
  end.
Definition to_json (fmt_time : Z → string) (v : any) : json := json_of (json_norm fmt_time v).

(** ** Messages (plugin.proto) *)

Record PluginEvent := mkPluginEvent {
  pe_Id : string;
  pe_Sequence : Z;
  pe_Timestamp : Z;
  pe_Resource : option ResourceKey;
  pe_EventType : string;
  pe_Payload : bytes;
}.
Record ExecuteRequest := mkExecuteRequest { xr_Action : string; xr_Params : bytes }.
Record EventBatch := mkEventBatch { eb_Events : list PluginEvent; eb_ExecuteRequests : list ExecuteRequest }.

(** ** The server *)

Record pluginState := mkPluginState {
  pl_ID : string;
  pl_Version : string;
  pl_Actions : list (string * string);
  (* the channel of the call that waits, by the number of the call *)
  pl_resultCh : option nat;
}.

Record executeResult := mkExecuteResult { er_Data : json; er_Error : string }.

(** A call of [ExecuteAction]: after its look-up, with the channel of the
    stream and the state of the plugin; after it has filed its result
    channel; waiting; before the deferred function; returned. *)
Inductive call_phase :=
| Looked (ch : nat) (p : nat)
| Filed (ch : nat) (p : nat)
| Waiting (p : nat)
| Ending (p : nat) (r : Res json)
| Done (r : Res json).
Record Call := mkCall {
  ca_plugin : string;
  ca_action : string;
  ca_params : bytes;
  ca_phase : call_phase;
  (* its result channel, which holds one *)
  ca_result : option executeResult;
}.

Record PluginGRPCServer := mkPluginServer {
  pg_plugins : gmap string nat;
  pg_states : gmap nat pluginState;
  pg_subs : Subs EventBatch;
  pg_calls : gmap nat Call;
}.

Definition NewPluginGRPCServer : PluginGRPCServer := mkPluginServer ∅ ∅ no_subs ∅.
Definition queue_capacity : nat := 64.

Definition with_subs (f : Subs EventBatch → Subs EventBatch) (s : PluginGRPCServer) : PluginGRPCServer :=
  mkPluginServer s.(pg_plugins) s.(pg_states) (f s.(pg_subs)) s.(pg_calls).
Definition with_calls (f : gmap nat Call → gmap nat Call) (s : PluginGRPCServer) : PluginGRPCServer :=
  mkPluginServer s.(pg_plugins) s.(pg_states) s.(pg_subs) (f s.(pg_calls)).
Definition at_phase (ph : call_phase) (c : Call) : Call :=
  mkCall c.(ca_plugin) c.(ca_action) c.(ca_params) ph c.(ca_result).
Definition with_result (r : option executeResult) (c : Call) : Call :=
  mkCall c.(ca_plugin) c.(ca_action) c.(ca_params) c.(ca_phase) r.
Definition on_call (i : nat) (f : Call → Call) : PluginGRPCServer → PluginGRPCServer := with_calls (alter f i).

Definition plugin_id (id : string) : string := if decide (id = "") then "anonymous" else id.

(** [Subscribe] up to its loop. *)
Definition Subscribe (id : string) (n : nat) : PluginGRPCServer → PluginGRPCServer :=
  with_subs (λ s, begin [] true n (register (plugin_id id) n s)).

(** [p] is the new state. *)
Definition Register (id version : string) (actions : list (string * string)) (p : nat) (s : PluginGRPCServer) :
    Res unit * PluginGRPCServer :=
  if decide (id = "") then (Err "plugin_id is required", s)
  else (Ok tt, mkPluginServer (<[id := p]> s.(pg_plugins)) (<[p := mkPluginState id version actions None]> s.(pg_states))
                 s.(pg_subs) s.(pg_calls)).

Section wire.
Context (fmt_time : Z → string) (marshal_json : json → bytes) (unmarshal_json : bytes → option json).

Definition event_batch (e : GenericEvent) : EventBatch :=
  mkEventBatch [mkPluginEvent e.(ge_ID) e.(ge_Sequence) e.(ge_Timestamp) (Some e.(ge_Resource)) e.(ge_EventType)
                  (marshal_json (to_json fmt_time e.(ge_Payload)))] [].
Definition BroadcastEvent (e : GenericEvent) : PluginGRPCServer → PluginGRPCServer :=
  with_subs (notify queue_capacity (event_batch e)).

(** A result for which nobody waits, or that is one too many, is lost. *)
Definition handleActionResult (pluginID : string) (e : PluginEvent) (s : PluginGRPCServer) : PluginGRPCServer :=
  let result :=
    if decide (e.(pe_EventType) = "ERROR") then mkExecuteResult JNull (string_of_list_ascii e.(pe_Payload))
    else mkExecuteResult (default JNull (unmarshal_json e.(pe_Payload))) "" in
  match s.(pg_plugins) !! pluginID ≫= λ p, s.(pg_states) !! p ≫= pl_resultCh with
  | Some i =>
      on_call i (λ c, match c.(ca_result) with None => with_result (Some result) c | Some _ => c end) s
  | None => s
  end.

(** Events of other kinds are logged. *)
Definition Publish (pluginID : string) (events : list PluginEvent) (s : PluginGRPCServer) : PluginGRPCServer :=
  foldl (λ s e, match e.(pe_Resource) with
                | Some r => if decide (r.(rk_Type) = "action_result") then handleActionResult pluginID e s else s
                | None => s
                end) s events.

(** [ExecuteAction], one step for each stretch between its locks and
    channels. *)
Definition Execute_lookup (i : nat) (pluginID action : string) (params : json) (s : PluginGRPCServer) : PluginGRPCServer :=
  let ph := match s.(pg_subs).(subscribers) !! pluginID, s.(pg_plugins) !! pluginID with
            | None, _ => Done (Err ("plugin not connected: " +:+ pluginID))
            | Some _, None => Done (Err ("plugin not registered: " +:+ pluginID))
            | Some ch, Some p => Looked ch p
            end in
  with_calls (<[i := mkCall pluginID action (marshal_json params) ph None]>) s.

Definition set_resultCh (r : option nat) (p : nat) (s : PluginGRPCServer) : PluginGRPCServer :=
  mkPluginServer s.(pg_plugins)
    (alter (λ st, mkPluginState st.(pl_ID) st.(pl_Version) st.(pl_Actions) r) p s.(pg_states)) s.(pg_subs) s.(pg_calls).
Definition Execute_file (i ch p : nat) (s : PluginGRPCServer) : PluginGRPCServer :=
  on_call i (at_phase (Filed ch p)) (set_resultCh (Some i) p s).

Definition request_batch (c : Call) : EventBatch := mkEventBatch [] [mkExecuteRequest c.(ca_action) c.(ca_params)].
(** The channel is full. *)
Definition full (ch : nat) (s : PluginGRPCServer) : bool :=
  match s.(pg_subs).(streams) !! ch with
  | Some st => negb st.(st_closed) && bool_decide (queue_capacity ≤ length st.(st_buf))
  | None => false
  end.
Definition Execute_send (i ch p : nat) (s : PluginGRPCServer) : PluginGRPCServer :=
  match s.(pg_calls) !! i with
  | Some c =>
      if full ch s then on_call i (at_phase (Ending p (Err ("plugin stream queue full: " +:+ c.(ca_plugin))))) s
      else on_call i (at_phase (Waiting p)) (with_subs (push queue_capacity (request_batch c) ch) s)
  | None => s
  end.
Definition Execute_result (i p : nat) (s : PluginGRPCServer) : PluginGRPCServer :=
  on_call i (λ c, match c.(ca_result) with
                  | Some r =>
                      at_phase (Ending p (if decide (r.(er_Error) ≠ "") then Err r.(er_Error) else Ok r.(er_Data)))
                        (with_result None c)
                  | None => c
                  end) s.
Definition Execute_timeout (i p : nat) : PluginGRPCServer → PluginGRPCServer :=
  on_call i (λ c, at_phase (Ending p (Err ("execute timeout: " +:+ c.(ca_action)))) c).
Definition Execute_return (i p : nat) (r : Res json) (s : PluginGRPCServer) : PluginGRPCServer :=
  on_call i (at_phase (Done r)) (set_resultCh None p s).

(** ** The SDK *)

Definition ActionHandler : Type := gmap string json → Res json.

(** [handleExecuteRequest]; without a result nothing is published. *)
Definition run_request (actions : gmap string ActionHandler) (req : ExecuteRequest) : option PluginEvent :=
  h ← actions !! req.(xr_Action);
  let params := match unmarshal_json req.(xr_Params) with Some (JObject m) => m | _ => ∅ end in
  match h params with
  | Ok result =>
      Some (mkPluginEvent "" 0 0 (Some (mkResourceKey "action_result" "" req.(xr_Action))) "RESULT" (marshal_json result))
  | Err _ => None
  end.

(** ** The server with its plugins

    [actions] are the handlers of each plugin; the state adds how much of its
    stream each plugin has received and the goroutines that run requests. *)
Context (actions : string → gmap string ActionHandler).

Record System := mkSystem {
  sy_server : PluginGRPCServer;
  sy_received : gmap nat nat;
  sy_running : gmap nat (string * ExecuteRequest);
}.
Definition NewSystem : System := mkSystem NewPluginGRPCServer ∅ ∅.

Definition on_server (f : PluginGRPCServer → PluginGRPCServer) (x : System) : System :=
  mkSystem (f x.(sy_server)) x.(sy_received) x.(sy_running).
Definition received (n : nat) (x : System) : nat := default 0 (x.(sy_received) !! n).

(** [receiveLoop]: the events go to the handlers, every request gets a
    goroutine, with a number of [ks]. *)
Definition receive_batch (n : nat) (id : string) (ks : list nat) (b : EventBatch) (x : System) : System :=
  mkSystem x.(sy_server) (<[n := S (received n x)]> x.(sy_received))
    (list_to_map (zip ks ((λ req, (id, req)) <$> b.(eb_ExecuteRequests))) ∪ x.(sy_running)).
Definition finish_request (k : nat) (id : string) (req : ExecuteRequest) (x : System) : System :=
  mkSystem (match run_request (actions id) req with Some e => Publish id [e] x.(sy_server) | None => x.(sy_server) end)
    x.(sy_received) (delete k x.(sy_running)).

Definition stream_in (n : nat) (p : stream_phase EventBatch) (x : System) : Prop :=
  ∃ st, x.(sy_server).(pg_subs).(streams) !! n = Some st ∧ st.(st_phase) = p.
Definition call_in (i : nat) (ph : call_phase) (x : System) : Prop :=
  ∃ c, x.(sy_server).(pg_calls) !! i = Some c ∧ c.(ca_phase) = ph.
Definition all_done (x : System) : Prop :=
  ∀ i c, x.(sy_server).(pg_calls) !! i = Some c → ∃ r, c.(ca_phase) = Done r.

(** [serial]: one call at a time, and none times out. *)
Inductive sys_step (serial : bool) (x : System) : System → Prop :=
| YSubscribe id n :
    x.(sy_server).(pg_subs).(streams) !! n = None → id ≠ "" → sys_step serial x (on_server (Subscribe id n) x)
| YReceive n : stream_in n Receiving x → sys_step serial x (on_server (with_subs (receive n)) x)
| YSend ok n b : stream_in n (Sending b) x → sys_step serial x (on_server (with_subs (send ok n)) x)
| YLeave n : stream_in n Leaving x → sys_step serial x (on_server (with_subs (leave n)) x)
| YFinish n : stream_in n Closing x → sys_step serial x (on_server (with_subs (finish n)) x)
| YRegister id version acts p :
    x.(sy_server).(pg_states) !! p = None →
    sys_step serial x (on_server (λ s, (Register id version acts p s).2) x)
| YBroadcast e : sys_step serial x (on_server (BroadcastEvent e) x)
| YLookup i id action params :
    x.(sy_server).(pg_calls) !! i = None → (serial = true → all_done x) →
    sys_step serial x (on_server (Execute_lookup i id action params) x)
| YFile i ch p : call_in i (Looked ch p) x → sys_step serial x (on_server (Execute_file i ch p) x)
| YRequest i ch p : call_in i (Filed ch p) x → sys_step serial x (on_server (Execute_send i ch p) x)
| YResult i p : call_in i (Waiting p) x → sys_step serial x (on_server (Execute_result i p) x)
| YTimeout i p : serial = false → call_in i (Waiting p) x → sys_step serial x (on_server (Execute_timeout i p) x)
| YReturn i p r : call_in i (Ending p r) x → sys_step serial x (on_server (Execute_return i p r) x)
| YRecv n st b ks :
    x.(sy_server).(pg_subs).(streams) !! n = Some st → st.(st_sent) !! received n x = Some b →
    length ks = length b.(eb_ExecuteRequests) → NoDup ks → (∀ k, k ∈ ks → x.(sy_running) !! k = None) →
    sys_step serial x (receive_batch n st.(st_id) ks b x)
| YRun k id req : x.(sy_running) !! k = Some (id, req) → sys_step serial x (finish_request k id req x).

Definition sys_live serial (x x' : System) : Prop :=
  x.(sy_server).(pg_subs).(panicked) = false ∧ sys_step serial x x'.
Definition sys_reachable serial : System → Prop := rtc (sys_live serial) NewSystem.

(** ** One call at a time *)

Definition requests (bs : list EventBatch) : list ExecuteRequest := concat (eb_ExecuteRequests <$> bs).
Definition flight (st : Stream EventBatch) : list EventBatch :=
  match st.(st_phase) with Sending b => b :: st.(st_buf) | _ => st.(st_buf) end.
(** The requests on their way through a stream. *)
Definition under_way (x : System) (n : nat) (st : Stream EventBatch) : list ExecuteRequest :=
  requests (drop (received n x) st.(st_sent) ++ flight st).
Definition request_of (c : Call) : ExecuteRequest := mkExecuteRequest c.(ca_action) c.(ca_params).

Definition unfinished (c : Call) : Prop := ∀ r, c.(ca_phase) ≠ Done r.
Definition pointer (c : Call) : option nat :=
  match c.(ca_phase) with Filed _ p | Waiting p | Ending p _ => Some p | _ => None end.

(** What the handler makes of the request of a call. *)
Definition answers (c : Call) (v : json) : Prop :=
  ∃ e, run_request (actions c.(ca_plugin)) (request_of c) = Some e ∧ v = default JNull (unmarshal_json e.(pe_Payload)).
Definition refusal (c : Call) (e : string) : Prop :=
  e = "plugin not connected: " +:+ c.(ca_plugin) ∨ e = "plugin not registered: " +:+ c.(ca_plugin) ∨
  e = "plugin stream queue full: " +:+ c.(ca_plugin).

Definition call_ok (c : Call) : Prop :=
  (∀ r, c.(ca_result) = Some r → answers c r.(er_Data) ∧ r.(er_Error) = "") ∧
  match c.(ca_phase) with
  | Ending _ (Ok v) | Done (Ok v) => answers c v
  | Ending _ (Err e) | Done (Err e) => refusal c e
  | Looked _ _ | Filed _ _ => c.(ca_result) = None
  | Waiting _ => True
  end.

Definition streams_of (x : System) : gmap nat (Stream EventBatch) := x.(sy_server).(pg_subs).(streams).
Definition quiet (x : System) : Prop :=
  (∀ n st, streams_of x !! n = Some st → under_way x n st = []) ∧ x.(sy_running) = ∅.
Definition in_stream (x : System) (id : string) (req : ExecuteRequest) : Prop :=
  (∃ n st, streams_of x !! n = Some st ∧ st.(st_id) = id ∧ under_way x n st = [req] ∧
     ∀ m st', m ≠ n → streams_of x !! m = Some st' → under_way x m st' = []) ∧ x.(sy_running) = ∅.
Definition in_plugin (x : System) (id : string) (req : ExecuteRequest) : Prop :=
  (∀ n st, streams_of x !! n = Some st → under_way x n st = []) ∧ ∃ k, x.(sy_running) = {[k := (id, req)]}.
Definition outstanding (x : System) : Prop :=
  ∃ i c p, x.(sy_server).(pg_calls) !! i = Some c ∧ c.(ca_phase) = Waiting p ∧ c.(ca_result) = None ∧
    (in_stream x c.(ca_plugin) (request_of c) ∨ in_plugin x c.(ca_plugin) (request_of c)).

Definition sent_of (x : System) (n : nat) : nat :=
  match streams_of x !! n with Some st => length st.(st_sent) | None => 0 end.

Record sys_inv (x : System) : Prop := mkSysInv {
  sv_subs : subs_ok x.(sy_server).(pg_subs);
  sv_received n : received n x <= sent_of x n;
  sv_one i j c c' : x.(sy_server).(pg_calls) !! i = Some c → x.(sy_server).(pg_calls) !! j = Some c' →
    unfinished c → unfinished c' → i = j;
  sv_filed p st i : x.(sy_server).(pg_states) !! p = Some st → st.(pl_resultCh) = Some i →
    ∃ c, x.(sy_server).(pg_calls) !! i = Some c ∧ pointer c = Some p;
  sv_requests : quiet x ∨ outstanding x;
  sv_calls i c : x.(sy_server).(pg_calls) !! i = Some c → call_ok c;
  sv_channel i c ch p : x.(sy_server).(pg_calls) !! i = Some c →
    c.(ca_phase) = Looked ch p ∨ c.(ca_phase) = Filed ch p →
    ∃ st, streams_of x !! ch = Some st ∧ st.(st_id) = c.(ca_plugin);
}.

Lemma requests_app a b : requests (a ++ b) = requests a ++ requests b.
Proof. unfold requests. by rewrite fmap_app, concat_app. Qed.

(** A part of at most one request is all of it or nothing. *)
Lemma sublist_one (l l' : list ExecuteRequest) req :
  l' `sublist_of` l → l = [req] → l' = [req] ∨ l' = [].
Proof.
  intros H ->. apply sublist_cons_r in H as [H|(k & -> & H)]; apply sublist_nil_r in H; subst; [by right|by left].
Qed.

(** A step of the streams: no stream gets a request. *)
Lemma streams_step x f :
  let x' := on_server (with_subs f) x in
  subs_ok (f x.(sy_server).(pg_subs)) → (∀ n, received n x <= sent_of x' n) →
  (∀ n st', streams_of x' !! n = Some st' → under_way x' n st' = [] ∨
     ∃ st, streams_of x !! n = Some st ∧ st'.(st_id) = st.(st_id) ∧ under_way x' n st' `sublist_of` under_way x n st) →
  (∀ n st, streams_of x !! n = Some st → ∃ st', streams_of x' !! n = Some st' ∧ st'.(st_id) = st.(st_id)) →
  sys_inv x → sys_inv x'.
Proof.
  intros x' Hok Hr Hs Hid [V1 V2 V3 V4 V5 V6 V7]. split; try done.
  - assert (Hnil : ∀ n st', streams_of x' !! n = Some st' → (∀ st, streams_of x !! n = Some st → under_way x n st = []) →
      under_way x' n st' = []).
    { intros n st' Hst' Hq. destruct (Hs _ _ Hst') as [?|(st & Hst & _ & Hsub)]; [done|].
      rewrite (Hq _ Hst) in Hsub. by apply sublist_nil_r in Hsub. }
    destruct V5 as [[Hq Hrun]|(i & c & p & Hc & Hp & Hres & [[(n & st & Hst & Hi & Hu & Ho) Hrun]|[Hq Hrun]])].
    + left. split; [|done]. intros n st' Hst'. apply Hnil; [done|]. intros st. apply Hq.
    + destruct (Hid _ _ Hst) as (st' & Hst' & Hi').
      assert (Hothers : ∀ m st'', m ≠ n → streams_of x' !! m = Some st'' → under_way x' m st'' = []).
      { intros m st'' Hm Hst''. apply Hnil; [done|]. intros st0 Hst0. by apply (Ho m). }
      assert (Hn : under_way x' n st' = [request_of c] ∨ under_way x' n st' = []).
      { destruct (Hs _ _ Hst') as [?|(st0 & Hst0 & _ & Hsub)]; [by right|].
        assert (st0 = st) as -> by congruence. by eapply sublist_one. }
      destruct Hn as [Hn|Hn].
      * right. exists i, c, p. split_and!; try done. left. split; [|done]. exists n, st'. split_and!; try done. congruence.
      * left. split; [|done]. intros m st'' Hst''. destruct (decide (m = n)) as [->|Hm]; [congruence|by eapply Hothers].
    + right. exists i, c, p. split_and!; try done. right. split; [|done]. intros n st' Hst'. apply Hnil; [done|].
      intros st. apply Hq.
  - intros i c ch p Hc Hph. destruct (V7 i c ch p Hc Hph) as (st & Hst & Hi).
    destruct (Hid _ _ Hst) as (st' & ? & ?). exists st'. split; [done|congruence].
Qed.

(** The same for one stream. *)
Lemma on_stream_sys x f n :
  subs_ok (on_stream f n x.(sy_server).(pg_subs)) →
  (∀ st, streams_of x !! n = Some st → received n x <= length st.(st_sent) →
     (f st).(st_id) = st.(st_id) ∧ length st.(st_sent) <= length (f st).(st_sent) ∧
     requests (drop (received n x) (f st).(st_sent) ++ flight (f st)) `sublist_of` under_way x n st) →
  sys_inv x → sys_inv (on_server (with_subs (on_stream f n)) x).
Proof.
  intros Hok Hf Hi. pose proof (sv_received _ Hi) as Hr. apply streams_step; [done|..|done].
  - intros m. etrans; [apply Hr|]. unfold sent_of, streams_of. cbn. destruct (decide (m = n)) as [->|Hm].
    + rewrite lookup_alter_eq. pose proof (Hr n) as Hrn. unfold sent_of, streams_of in Hrn.
      destruct (streams (pg_subs (sy_server x)) !! n) as [st|] eqn:E; cbn; [|done]. by apply (Hf _ E).
    + by rewrite lookup_alter_ne.
  - intros m st'. unfold streams_of. cbn. intros [[Hn (st & Hst & ->)]|[Hm Hst]]%lookup_alter_Some; right.
    + subst m. exists st. pose proof (Hr n) as Hrn. unfold sent_of, streams_of in Hrn. rewrite Hst in Hrn.
      destruct (Hf _ Hst Hrn) as (F1 & _ & F3). by split_and!.
    + by exists st'.
  - intros m st Hst. unfold streams_of. cbn. destruct (decide (m = n)) as [->|Hm].
    + unfold streams_of in Hst. rewrite lookup_alter_eq, Hst. exists (f st). split; [done|].
      pose proof (Hr n) as Hrn. unfold sent_of, streams_of in Hrn. rewrite Hst in Hrn. by apply (Hf _ Hst Hrn).
    + rewrite lookup_alter_ne by done. by exists st.
Qed.

Lemma alter_as_insert {A} (f : A → A) i (m : gmap nat A) a : m !! i = Some a → alter f i m = <[i := f a]> m.
Proof.
  intros H. apply map_eq. intros j. destruct (decide (j = i)) as [->|Hj].
  - by rewrite lookup_alter_eq, lookup_insert_eq, H.
  - by rewrite lookup_alter_ne, lookup_insert_ne.
Qed.

(** A step of a call whose request is not on its way. *)
Lemma call_step x i c c' states' :
  let s := x.(sy_server) in
  let x' := mkSystem (mkPluginServer s.(pg_plugins) states' s.(pg_subs) (<[i := c']> s.(pg_calls))) x.(sy_received) x.(sy_running) in
  s.(pg_calls) !! i = Some c → (unfinished c' → unfinished c) → call_ok c' → c'.(ca_plugin) = c.(ca_plugin) →
  (∀ p st j, states' !! p = Some st → st.(pl_resultCh) = Some j →
     if decide (j = i) then pointer c' = Some p
     else ∃ st0, s.(pg_states) !! p = Some st0 ∧ st0.(pl_resultCh) = Some j) →
  (∀ ch p, c'.(ca_phase) = Looked ch p ∨ c'.(ca_phase) = Filed ch p → c.(ca_phase) = Looked ch p ∨ c.(ca_phase) = Filed ch p) →
  quiet x → sys_inv x → sys_inv x'.
Proof.
  intros s x' Hc Hu Hok Hpl Hst Hph Hq [V1 V2 V3 V4 V5 V6 V7]. split; cbn; [done|done|..].
  - intros j k c1 c2 [[<- <-]|[Hj Hc1]]%lookup_insert_Some [[<- <-]|[Hk Hc2]]%lookup_insert_Some U1 U2; [done|..].
    + apply (V3 i k c c2); by auto.
    + symmetry. apply (V3 i j c c1); by auto.
    + by apply (V3 j k c1 c2).
  - intros p st j Hp Hr. specialize (Hst _ _ _ Hp Hr). case_decide as Hd.
    + subst. exists c'. by rewrite lookup_insert_eq.
    + destruct Hst as (st0 & Hp0 & Hr0). rewrite lookup_insert_ne by done. by eapply V4.
  - by left.
  - intros j c1 [[<- <-]|[Hj Hc1]]%lookup_insert_Some; [done|]. by eapply V6.
  - intros j c1 ch p [[<- <-]|[Hj Hc1]]%lookup_insert_Some Hp; [|by eapply V7].
    destruct (V7 i c ch p Hc) as (st & ? & ?); [by apply Hph|]. exists st. split; [done|congruence].
Qed.

(** Only a call that waits has its request on its way. *)
Lemma not_waiting_quiet x i c :
  sys_inv x → x.(sy_server).(pg_calls) !! i = Some c → unfinished c →
  (∀ p, c.(ca_phase) = Waiting p → c.(ca_result) ≠ None) → quiet x.
Proof.
  intros Hi Hc Hu Hw. destruct (sv_requests _ Hi) as [|(j & c' & p & Hc' & Hp & Hr & _)]; [done|].
  assert (j = i) as ->. { eapply (sv_one _ Hi); try done. intros r. by rewrite Hp. }
  assert (c' = c) as -> by congruence. by destruct (Hw p).
Qed.

Lemma set_resultCh_states p r s q st j :
  (set_resultCh r p s).(pg_states) !! q = Some st → st.(pl_resultCh) = Some j →
  (q = p ∧ r = Some j) ∨ (q ≠ p ∧ s.(pg_states) !! q = Some st).
Proof.
  cbn. intros [[-> (st0 & _ & ->)]|[Hq Hst]]%lookup_alter_Some Hr; cbn in Hr; [left|right]; done.
Qed.

Lemma execute_inv x x' :
  sys_inv x →
  (∃ i ch p, call_in i (Looked ch p) x ∧ x' = on_server (Execute_file i ch p) x) ∨
  (∃ i p, call_in i (Waiting p) x ∧ x' = on_server (Execute_result i p) x) ∨
  (∃ i p r, call_in i (Ending p r) x ∧ x' = on_server (Execute_return i p r) x) →
  sys_inv x'.
Proof.
  intros Hi. intros [(i & ch & p & (c & Hc & Hp) & ->)|[(i & p & (c & Hc & Hp) & ->)|(i & p & r & (c & Hc & Hp) & ->)]];
    pose proof (sv_calls _ Hi _ _ Hc) as Hok.
  - unfold on_server, Execute_file, on_call, with_calls. cbn [pg_calls set_resultCh pg_plugins pg_states pg_subs].
    rewrite (alter_as_insert _ _ _ _ Hc).
    eapply (call_step x i c); try done.
    + intros _ r. by rewrite Hp.
    + destruct Hok as [H1 H2]. rewrite Hp in H2. split; [done|]. exact H2.
    + intros q st j Hq Hr. destruct (set_resultCh_states p (Some i) (sy_server x) q st j Hq Hr) as [[-> [= <-]]|[Hne Hq']].
      * by rewrite decide_True.
      * rewrite decide_False; [by exists st|]. intros ->. destruct (sv_filed _ Hi _ _ _ Hq' Hr) as (c0 & Hc0 & Hpt).
        assert (c0 = c) as -> by congruence. unfold pointer in Hpt. by rewrite Hp in Hpt.
    + intros ch' p'. cbn. intros [?|[= <- <-]]; [done|by left].
    + eapply not_waiting_quiet; [done..| |]; intros ?; by rewrite Hp.
  - unfold on_server, Execute_result, on_call, with_calls. rewrite (alter_as_insert _ _ _ _ Hc).
    destruct (ca_result c) as [r|] eqn:Hr.
    + destruct Hok as [Ha _]. destruct (Ha _ Hr) as [Hans Herr]. rewrite decide_False by (by intros ?).
      eapply (call_step x i c); try done.
      * intros _ r'. by rewrite Hp.
      * intros q st j Hq Hr'. case_decide as Hd; [|by exists st]. subst. destruct (sv_filed _ Hi _ _ _ Hq Hr') as (c0 & Hc0 & Hpt).
        assert (c0 = c) as -> by congruence. unfold pointer in *. by rewrite Hp in Hpt.
      * intros ch' p'. cbn. by intros [?|?].
      * eapply not_waiting_quiet; [done..| |]; intros ?; by rewrite ?Hp, ?Hr.
    + rewrite insert_id by done. by destruct x as [[] ? ?].
  - unfold on_server, Execute_return, on_call, with_calls. cbn [pg_calls set_resultCh pg_plugins pg_states pg_subs].
    rewrite (alter_as_insert _ _ _ _ Hc).
    eapply (call_step x i c); try done.
    + intros _ r'. by rewrite Hp.
    + destruct Hok as [H1 H2]. rewrite Hp in H2. split; [done|]. exact H2.
    + intros q st j Hq Hr. destruct (set_resultCh_states p None (sy_server x) q st j Hq Hr) as [[_ ?]|[Hne Hq']]; [done|].
      case_decide as Hd; [|by exists st]. subst. destruct (sv_filed _ Hi _ _ _ Hq' Hr) as (c0 & Hc0 & Hpt).
      assert (c0 = c) as -> by congruence. unfold pointer in Hpt. rewrite Hp in Hpt. by injection Hpt as ->.
    + intros ch' p'. cbn. by intros [?|?].
    + eapply not_waiting_quiet; [done..| |]; intros ?; by rewrite Hp.
Qed.

Lemma sent_request_inv x i ch p :
  sys_inv x → call_in i (Filed ch p) x →
  (Execute_send i ch p x.(sy_server)).(pg_subs).(panicked) = false → sys_inv (on_server (Execute_send i ch p) x).
Proof.
  intros Hi (c & Hc & Hp) Hnp. pose proof (sv_calls _ Hi _ _ Hc) as [Hres Hnone]. rewrite Hp in Hnone.
  assert (Hu : unfinished c) by (intros r; by rewrite Hp).
  assert (Hq : quiet x) by (eapply not_waiting_quiet; [done..|]; intros ?; by rewrite Hp).
  assert (Hst : ∀ ph, pointer (at_phase ph c) = Some p → ∀ q st j, x.(sy_server).(pg_states) !! q = Some st → st.(pl_resultCh) = Some j →
    if decide (j = i) then pointer (at_phase ph c) = Some q
    else ∃ st0, x.(sy_server).(pg_states) !! q = Some st0 ∧ st0.(pl_resultCh) = Some j).
  { intros ph Hph q st j Hst Hr. case_decide as Hd; [|by exists st]. subst. destruct (sv_filed _ Hi _ _ _ Hst Hr) as (c0 & Hc0 & Hpt).
    assert (c0 = c) as -> by congruence. unfold pointer in Hpt. rewrite Hp in Hpt. congruence. }
  destruct (sv_channel _ Hi i c ch p Hc) as (st & Hch & Hid); [by right|].
  revert Hnp. unfold on_server, Execute_send. rewrite Hc. destruct (full ch (sy_server x)) eqn:Hfull.
  - intros _. unfold on_call, with_calls. rewrite (alter_as_insert _ _ _ _ Hc).
    eapply (call_step x i c); try done.
    + split; [done|]. cbn. unfold refusal. by right; right.
    + by apply Hst.
    + intros ch' p'. cbn. by intros [?|?].
  - unfold streams_of in Hch. unfold full in Hfull. rewrite Hch in Hfull.
    unfold on_call, with_calls, with_subs. cbn [pg_calls pg_subs pg_plugins pg_states].
    unfold push. rewrite Hch. destruct (st_closed st) eqn:Hcl; [done|]. cbn in Hfull. apply bool_decide_eq_false in Hfull.
    rewrite decide_True by lia. intros _.
    rewrite (alter_as_insert _ _ _ _ Hc).
    set (c' := at_phase (Waiting p) c). set (f := λ st, with_buf (st.(st_buf) ++ [request_batch c]) st).
    assert (Hi2 := call_step x i c c' (sy_server x).(pg_states) Hc). cbv zeta in Hi2.
    specialize (Hi2 (λ _, Hu) (conj Hres I) eq_refl (Hst (Waiting p) eq_refl)).
    assert (Hph : ∀ ch0 p0, ca_phase c' = Looked ch0 p0 ∨ ca_phase c' = Filed ch0 p0 → ca_phase c = Looked ch0 p0 ∨ ca_phase c = Filed ch0 p0)
      by (intros ? ? [?|?]; done).
    specialize (Hi2 Hph Hq Hi).
    destruct Hi2 as [V1 V2 V3 V4 V5 V6 V7]. cbn in *.
    assert (Hlen : received ch x <= length st.(st_sent)).
    { pose proof (sv_received _ Hi ch) as Hr. unfold sent_of, streams_of in Hr. by rewrite Hch in Hr. }
    split; cbn; try done.
    + apply (on_stream_ok f); [|done]. intros st' _. by split_and!.
    + intros n. etrans; [apply V2|]. unfold sent_of, streams_of. cbn. destruct (decide (n = ch)) as [->|Hn].
      * by rewrite lookup_alter_eq, Hch.
      * by rewrite lookup_alter_ne.
    + right. exists i, c', p. cbn. rewrite lookup_insert_eq. split_and!; try done. left. destruct Hq as [Hq Hrun]. split; [|done].
      exists ch, (f st). unfold streams_of. cbn. rewrite lookup_alter_eq, Hch. split_and!; try done.
      * specialize (Hq _ _ Hch). unfold under_way in *. cbn.
        assert (Hfl : flight (f st) = flight st ++ [request_batch c]) by (unfold flight, f; cbn; by destruct (st_phase st)).
        rewrite Hfl. unfold received in *. cbn. rewrite app_assoc, requests_app, Hq. done.
      * intros m st' Hm. rewrite lookup_alter_ne by done. apply Hq.
    + intros j c1 ch' p' Hc1 Hp1. destruct (V7 j c1 ch' p' Hc1 Hp1) as (st' & Hst' & Hid'). unfold streams_of in *. cbn in *.
      destruct (decide (ch' = ch)) as [->|Hne].
      * exists (f st'). rewrite lookup_alter_eq, Hst'. by split.
      * exists st'. by rewrite lookup_alter_ne.
Qed.

Lemma lookup_inv x i id action params :
  sys_inv x → x.(sy_server).(pg_calls) !! i = None → all_done x →
  sys_inv (on_server (Execute_lookup i id action params) x).
Proof.
  intros Hi Hc Hd. pose proof Hi as [V1 V2 V3 V4 V5 V6 V7].
  assert (Hu : ∀ j c, x.(sy_server).(pg_calls) !! j = Some c → unfinished c → False).
  { intros j c Hj U. destruct (Hd _ _ Hj) as [r Hr]. by destruct (U r). }
  assert (Hne : ∀ j c, x.(sy_server).(pg_calls) !! j = Some c → j ≠ i) by (intros j c Hj ->; congruence).
  split; cbn; [done|done|..].
  - intros j k c1 c2 [[<- <-]|[Hj Hc1]]%lookup_insert_Some [[<- <-]|[Hk Hc2]]%lookup_insert_Some U1 U2;
      [done|by destruct (Hu _ _ Hc2)|by destruct (Hu _ _ Hc1)|by destruct (Hu _ _ Hc1)].
  - intros p st j Hp Hr. destruct (V4 _ _ _ Hp Hr) as (c & Hc' & Hpt). exists c.
    rewrite lookup_insert_ne; [done|]. by pose proof (Hne _ _ Hc').
  - destruct V5 as [Hq|(j & c & p & Hc' & Hp & _)]; [by left|]. destruct (Hu _ _ Hc'). intros r. by rewrite Hp.
  - intros j c [[<- <-]|[Hj Hc']]%lookup_insert_Some; [|by eapply V6]. split; [done|]. cbn.
    destruct (subscribers _ !! id); [|by left]. destruct (pg_plugins _ !! id); [done|by right; left].
  - intros j c ch p [[<- <-]|[Hj Hc']]%lookup_insert_Some Hp; [|by eapply V7]. cbn in Hp.
    destruct (subscribers (pg_subs (sy_server x)) !! id) as [ch0|] eqn:Hs; [|by destruct Hp].
    destruct (pg_plugins _ !! id); [|by destruct Hp]. destruct Hp as [[= <- <-]|?]; [|done].
    destruct (so_map _ V1 _ _ Hs) as (st & ? & ? & _). by exists st.
Qed.

Lemma register_plugin_inv x id version acts p :
  sys_inv x → x.(sy_server).(pg_states) !! p = None → sys_inv (on_server (λ s, (Register id version acts p s).2) x).
Proof.
  intros [V1 V2 V3 V4 V5 V6 V7] Hp. unfold on_server, Register. destruct (decide (id = "")); [by split|].
  split; cbn; try done. intros q st j [[<- <-]|[Hq Hst]]%lookup_insert_Some Hr; [done|]. by eapply V4.
Qed.

Lemma recv_inv x n st b ks :
  sys_inv x → streams_of x !! n = Some st → st.(st_sent) !! received n x = Some b →
  length ks = length b.(eb_ExecuteRequests) → sys_inv (receive_batch n st.(st_id) ks b x).
Proof.
  intros Hi Hst Hb Hks. pose proof Hi as [V1 V2 V3 V4 V5 V6 V7]. set (x' := receive_batch _ _ _ _ _).
  assert (Hrn : received n x' = S (received n x)) by (unfold received, x'; cbn; by rewrite lookup_insert_eq).
  assert (Hrm : ∀ m, m ≠ n → received m x' = received m x) by (intros m Hm; unfold received, x'; cbn; by rewrite lookup_insert_ne).
  assert (Hun : under_way x n st = b.(eb_ExecuteRequests) ++ under_way x' n st).
  { unfold under_way. rewrite Hrn, (drop_S _ _ _ Hb). done. }
  assert (Hum : ∀ m st', m ≠ n → under_way x' m st' = under_way x m st') by (intros m st' Hm; unfold under_way; by rewrite Hrm).
  assert (Hnone : b.(eb_ExecuteRequests) = [] → x'.(sy_running) = x.(sy_running)).
  { intros He. rewrite He in Hks. destruct ks; [|done]. unfold x'. cbn. by rewrite (left_id_L ∅ (∪)). }
  assert (Hquiet : (∀ m st', streams_of x !! m = Some st' → under_way x m st' = []) →
     b.(eb_ExecuteRequests) = [] ∧ ∀ m st', streams_of x' !! m = Some st' → under_way x' m st' = []).
  { intros Hq. pose proof (Hq _ _ Hst) as Hq'. rewrite Hun in Hq'. apply app_eq_nil in Hq' as [Hb0 Hq']. split; [done|].
    intros m st' Hst'. destruct (decide (m = n)) as [->|Hm]; [|rewrite Hum by done; by apply Hq].
    unfold streams_of in *. cbn in Hst'. congruence. }
  split; cbn; try done.
  - intros m. destruct (decide (m = n)) as [->|Hm]; [|rewrite Hrm by done; apply V2].
    rewrite Hrn. unfold sent_of, streams_of in *. cbn. rewrite Hst. apply lookup_lt_Some in Hb. lia.
  - destruct V5 as [[Hq Hrun]|(i & c & p & Hc & Hp & Hres & [[(n0 & st0 & Hst0 & Hi0 & Hu & Ho) Hrun]|[Hq (k & Hrun)]])].
    + destruct (Hquiet Hq) as [Hb0 Hq']. left. split; [done|]. by rewrite Hnone.
    + right. exists i, c, p. split_and!; try done. destruct (decide (n0 = n)) as [->|Hn].
      * assert (st0 = st) as -> by (unfold streams_of in *; congruence). rewrite Hun in Hu.
        destruct (eb_ExecuteRequests b) as [|req rest] eqn:Eb.
        -- left. split; [|by rewrite Hnone]. exists n, st. split_and!; try done.
           intros m st' Hm Hst'. rewrite Hum by done. by apply (Ho m).
        -- injection Hu as -> Hrest. apply app_eq_nil in Hrest as [-> Hu]. right. split.
           { intros m st' Hst'. destruct (decide (m = n)) as [->|Hm]; [|rewrite Hum by done; by apply (Ho m)].
             unfold streams_of in *. cbn in Hst'. congruence. }
           destruct ks as [|k [|]]; [done| |done]. exists k. unfold x'. cbn. rewrite Eb, Hrun. cbn.
           rewrite <-Hi0. by rewrite (right_id_L ∅ (∪)).
      * assert (Eb : b.(eb_ExecuteRequests) = []).
        { assert (Hz : under_way x n st = []) by (by apply (Ho n)). rewrite Hun in Hz. by apply app_eq_nil in Hz as [? _]. }
        left. split; [|by rewrite Hnone]. exists n0, st0. split_and!; try done; [by rewrite Hum|].
        intros m st' Hm Hst'. destruct (decide (m = n)) as [->|Hm']; [|rewrite Hum by done; by apply (Ho m)].
        assert (st' = st) as -> by (unfold streams_of in *; cbn in Hst'; congruence).
        assert (Hz : under_way x n st = []) by (by apply (Ho n)). by rewrite Hun, Eb in Hz.
    + destruct (Hquiet Hq) as [Hb0 Hq']. right. exists i, c, p. split_and!; try done. right. split; [done|].
      exists k. by rewrite Hnone.
Qed.

Lemma run_inv x k id req :
  sys_inv x → x.(sy_running) !! k = Some (id, req) → sys_inv (finish_request k id req x).
Proof.
  intros Hi Hk. pose proof Hi as [V1 V2 V3 V4 V5 V6 V7].
  destruct V5 as [[_ Hrun]|(i & c & p & Hc & Hp & Hres & [[_ Hrun]|[Hq (k0 & Hrun)]])]; [by rewrite Hrun in Hk..|].
  rewrite Hrun in Hk. apply lookup_singleton_Some in Hk as [-> [= <- <-]].
  unfold finish_request. rewrite Hrun, delete_singleton_eq.
  set (x1 := mkSystem x.(sy_server) x.(sy_received) ∅).
  assert (Hq1 : quiet x1) by done.
  assert (Hi1 : sys_inv x1) by (split; try done; by left).
  destruct (run_request (actions (ca_plugin c)) (request_of c)) as [e|] eqn:Hr; [|exact Hi1].
  pose proof Hr as Hr'. unfold run_request in Hr'.
  destruct (actions (ca_plugin c) !! _) as [h|]; [|done]. cbn in Hr'. destruct (h _) as [v|]; [|done]. apply (inj Some) in Hr' as <-.
  unfold Publish. cbn [foldl pe_Resource rk_Type]. rewrite decide_True by done. unfold handleActionResult. cbn [pe_EventType].
  rewrite decide_False by done. cbn [pe_Payload].
  destruct (pg_plugins (sy_server x) !! ca_plugin c) as [q|]; [|exact Hi1]. cbn.
  destruct (pg_states (sy_server x) !! q) as [st|] eqn:Hq'; [|exact Hi1]. cbn.
  destruct (pl_resultCh st) as [j|] eqn:Hj; [|exact Hi1].
  destruct (V4 _ _ _ Hq' Hj) as (c0 & Hc0 & Hpt).
  assert (j = i) as ->.
  { eapply V3; [done|done| |]; intros r; [|by rewrite Hp]. unfold pointer in Hpt. by destruct (ca_phase c0). }
  unfold on_call, with_calls. rewrite (alter_as_insert _ _ _ _ Hc), Hres.
  pose proof (call_step x1 i c (with_result (Some (mkExecuteResult (default JNull (unmarshal_json (marshal_json v))) "")) c)
    x.(sy_server).(pg_states)) as Hcs. cbv zeta in Hcs. apply Hcs; try done.
  - split; cbn; [|by rewrite Hp]. intros r [= <-]. split; [|done]. eexists. split; [exact Hr|done].
  - intros q' st' j' Hst' Hj'. case_decide as Hd; [|by exists st']. subst.
    destruct (V4 _ _ _ Hst' Hj') as (c1 & Hc1 & Hpt1). assert (c1 = c) as -> by congruence. exact Hpt1.
Qed.

(** A step that leaves alone what the streams have sent. *)
Lemma mapped_step x f :
  subs_ok (f x.(sy_server).(pg_subs)) →
  (∀ m st', (f x.(sy_server).(pg_subs)).(streams) !! m = Some st' →
     ∃ st, streams_of x !! m = Some st ∧ st'.(st_id) = st.(st_id) ∧ st'.(st_sent) = st.(st_sent) ∧
       requests (flight st') `sublist_of` requests (flight st)) →
  (∀ m, is_Some (streams_of x !! m) → is_Some ((f x.(sy_server).(pg_subs)).(streams) !! m)) →
  sys_inv x → sys_inv (on_server (with_subs f) x).
Proof.
  intros Hok Hf Hd Hi. apply streams_step; [done|..|done].
  - intros n. etrans; [apply (sv_received _ Hi)|]. unfold sent_of. destruct (streams_of x !! n) as [st|] eqn:E; [|lia].
    destruct (Hd n) as [st' Hst']; [by rewrite E|]. unfold streams_of. cbn. rewrite Hst'.
    destruct (Hf _ _ Hst') as (st0 & Hst0 & _ & -> & _). by assert (st0 = st) as -> by congruence.
  - intros n st' Hst'. right. destruct (Hf _ _ Hst') as (st & Hst & Hid & Hsent & Hsub). exists st. split_and!; try done.
    unfold under_way. rewrite Hsent, !requests_app. by apply sublist_app.
  - intros n st Hst. destruct (Hd n) as [st' Hst']; [by rewrite Hst|]. exists st'. split; [done|].
    destruct (Hf _ _ Hst') as (st0 & Hst0 & -> & _). by assert (st0 = st) as -> by congruence.
Qed.

Lemma subscribe_inv x id n :
  sys_inv x → streams_of x !! n = None → sys_inv (on_server (Subscribe id n) x).
Proof.
  intros Hi Hf. pose proof (sv_subs _ Hi) as V1. unfold streams_of in Hf.
  assert (Hs : ∀ m, (begin [] true n (register (plugin_id id) n x.(sy_server).(pg_subs))).(streams) !! m =
    if decide (m = n) then Some (mkStream (plugin_id id) Receiving [] false [])
    else (if decide (x.(sy_server).(pg_subs).(subscribers) !! plugin_id id = Some m) then closed_chan else λ st, st) <$> streams_of x !! m).
  { intros m. unfold begin. cbn [on_stream streams]. case_decide as Hm; [subst|].
    - rewrite lookup_alter_eq, (register_streams _ _ _ _ Hf V1), decide_True by done. done.
    - rewrite lookup_alter_ne by done. rewrite (register_streams _ _ _ _ Hf V1), decide_False by done. done. }
  unfold Subscribe. apply (streams_step x (λ s, begin [] true n (register (plugin_id id) n s))); [|..|done].
  - apply on_stream_ok; [|by apply register_ok]. intros st. rewrite (register_streams _ _ _ _ Hf V1), decide_True by done.
    by intros [= <-].
  - intros m. etrans; [apply (sv_received _ Hi)|]. unfold sent_of at 2. unfold streams_of at 1. cbn [on_server sy_server with_subs pg_subs].
    rewrite Hs. unfold sent_of, streams_of. case_decide as Hm; [subst; rewrite Hf; lia|].
    destruct (streams (pg_subs (sy_server x)) !! m); cbn; [by case_decide|lia].
  - intros m st'. unfold streams_of at 1. cbn [on_server sy_server with_subs pg_subs]. rewrite Hs.
    case_decide as Hm; [intros [= <-]; left|].
    + unfold under_way. cbn. by rewrite drop_nil.
    + intros (st & Hst & ->)%fmap_Some_1. right. exists st. case_decide; by split_and!.
  - intros m st Hst. unfold streams_of at 1. cbn [on_server sy_server with_subs pg_subs]. rewrite Hs.
    rewrite decide_False by (intros ->; unfold streams_of in Hst; congruence). rewrite Hst. cbn. eexists. split; [done|].
    by case_decide.
Qed.

Lemma sys_step_inv x x' :
  sys_inv x → sys_live true x x' → x'.(sy_server).(pg_subs).(panicked) = false → sys_inv x'.
Proof.
  intros Hi [Hn Hs] Hp. pose proof Hi as [V1 V2 V3 V4 V5 V6 V7].
  destruct Hs as [id n Hf Hid|n (st & Hst & Hph)|ok n b (st & Hst & Hph)|n (st & Hst & Hph)|n (st & Hst & Hph)|id v a p Hf|e
    |i id action params Hc Hd|i ch p Hc|i ch p Hc|i p Hc|i p Hfalse Hc|i p r Hc|n st b ks Hst Hb Hks _ _|k id req Hk].
  - by apply subscribe_inv.
  - apply on_stream_sys; [|intros st' E _|done].
    + by eapply subs_step_ok; [|split; [|eapply (SReceive 64 any_id)]|].
    + assert (st' = st) as -> by (unfold streams_of in *; congruence). unfold under_way, flight. rewrite Hph.
      destruct (st_buf st) as [|u rest] eqn:Hb; [|by split_and!].
      destruct (st_closed st); cbn; rewrite ?Hph, ?Hb; by split_and!.
  - apply on_stream_sys; [|intros st' E Hr|done].
    + by eapply subs_step_ok; [|split; [|eapply (SSend 64 any_id)]|].
    + assert (st' = st) as -> by (unfold streams_of in *; congruence). unfold under_way, flight. rewrite Hph.
      destruct ok; cbn; split_and!; try done.
      * rewrite length_app. lia.
      * rewrite drop_app_le by done. by rewrite <-app_assoc.
      * rewrite !requests_app. apply sublist_app; [done|]. change (b :: st_buf st) with ([b] ++ st_buf st).
        rewrite requests_app. by apply sublist_inserts_l.
  - assert (Hl : (leave n x.(sy_server).(pg_subs)).(streams) = alter (in_phase Closing) n (streams_of x)).
    { unfold leave. rewrite Hst. by case_decide. }
    apply mapped_step; [by apply leave_ok|rewrite Hl..|done].
    + intros m st' [[-> (st0 & Hst0 & ->)]|[_ Hst']]%lookup_alter_Some; [|by exists st'].
      assert (st0 = st) as -> by (unfold streams_of in *; congruence). exists st. unfold flight. by rewrite Hph.
    + intros m. by rewrite lookup_alter_is_Some.
  - assert (Hl : (finish n x.(sy_server).(pg_subs)).(streams) = alter (in_phase Returned) n (alter closed_chan n (streams_of x))).
    { revert Hp. cbn. unfold finish. rewrite (close_chan_cases _ _ _ Hst). by destruct (st_closed st). }
    apply mapped_step; [by eapply finish_ok|rewrite Hl..|done].
    + intros m st' [[-> (st0 & [[_ (st1 & Hst1 & ->)]|[? _]]%lookup_alter_Some & ->)]|[Hne Hst']]%lookup_alter_Some; [|done|].
      * assert (st1 = st) as -> by (unfold streams_of in *; congruence). exists st. unfold flight. by rewrite Hph.
      * rewrite lookup_alter_ne in Hst' by done. by exists st'.
    + intros m. by rewrite !lookup_alter_is_Some.
  - by apply register_plugin_inv.
  - destruct (notify_exact queue_capacity (event_batch e) _ V1) as (_ & _ & N3).
    assert (Hnone : ∀ m, streams_of x !! m = None → (notify queue_capacity (event_batch e) x.(sy_server).(pg_subs)).(streams) !! m = None).
    { intros m Hm. destruct (foldr_push queue_capacity (event_batch e) _ _ V1 (subscribed_NoDup _ V1)) as (_ & _ & I4).
      { intros k. apply elem_of_subscribed. }
      unfold notify. unfold streams_of in Hm. by rewrite I4, Hm. }
    apply mapped_step; [by apply foldr_push_ok|..|done].
    + intros m st' Hst'. destruct (streams_of x !! m) as [st|] eqn:Hst; [|by rewrite Hnone in Hst'].
      rewrite (N3 _ _ Hst) in Hst'. injection Hst' as <-. exists st. unfold deliver. repeat case_decide; cbn; split_and!; try done.
      assert (Hfl : ∀ b, flight (with_buf (st_buf st ++ [b]) st) = flight st ++ [b]) by (intros b; unfold flight; cbn; by destruct (st_phase st)).
      rewrite Hfl, requests_app. cbn. by rewrite app_nil_r.
    + intros m [st Hst]. rewrite (N3 _ _ Hst). done.
  - by apply lookup_inv; [..|apply Hd].
  - apply (execute_inv x); [done|]. left. by exists i, ch, p.
  - by apply sent_request_inv.
  - apply (execute_inv x); [done|]. right; left. by exists i, p.
  - done.
  - apply (execute_inv x); [done|]. right; right. by exists i, p, r.
  - by apply recv_inv.
  - by apply run_inv.
Qed.

Lemma sys_run_inv x x' : sys_inv x → rtc (sys_live true) x x' → x'.(sy_server).(pg_subs).(panicked) = false → sys_inv x'.
Proof.
  intros H Hs. induction Hs as [|a b d Hab Hbd IH]; [done|]. intros Hd. apply IH; [|done].
  eapply sys_step_inv; [done..|]. destruct Hbd as [|b e d [Hb _] _]; done.
Qed.

Lemma sys_inv_new : sys_inv NewSystem.
Proof. split; try (by intros). left. split; [by intros|done]. Qed.

(** ** Properties *)

(** C22. As long as calls to plugins come one after the other and none times
    out, a call that returns a value returns what the handler of its action
    made of its parameters, and one that returns an error was refused for a
    plugin that is not connected or not registered, or for a full queue. *)
Theorem execute_returns_result (x : System) (i : nat) (c : Call) (r : Res json) :
  sys_reachable true x → x.(sy_server).(pg_subs).(panicked) = false →
  x.(sy_server).(pg_calls) !! i = Some c → c.(ca_phase) = Done r →
  match r with
  | Ok v => ∃ e, run_request (actions c.(ca_plugin)) (mkExecuteRequest c.(ca_action) c.(ca_params)) = Some e ∧
              v = default JNull (unmarshal_json e.(pe_Payload))
  | Err e => e = "plugin not connected: " +:+ c.(ca_plugin) ∨ e = "plugin not registered: " +:+ c.(ca_plugin) ∨
              e = "plugin stream queue full: " +:+ c.(ca_plugin)
  end.
Proof.
  intros Hs Hp Hc Hr. pose proof (sys_run_inv _ _ sys_inv_new Hs Hp) as Hi.
  pose proof (sv_calls _ Hi _ _ Hc) as [_ H]. rewrite Hr in H. by destruct r.
Qed.

(** ** The runtime as a plugin *)

(** The state a run has come to, computed. *)
Ltac compute_state :=
  match goal with |- rtc _ ?a _ =>
    let v := eval vm_compute in a in
    let E := fresh in assert (E : a = v) by (vm_compute; reflexivity); rewrite E; clear E
  end.
Ltac run_step t := eapply rtc_l; [split; [reflexivity|t]|compute_state].

Definition the_runtime : string := "runtime-1".
Definition registered : System := on_server (λ s, (Register the_runtime "1.0.0" [] 0 s).2) NewSystem.
Definition connected : System := on_server (Subscribe the_runtime 0) registered.

Lemma connected_run serial : rtc (sys_live serial) NewSystem connected.
Proof.
  eapply rtc_l; [split; [reflexivity|by apply (YRegister _ _ the_runtime "1.0.0" [] 0)]|].
  apply rtc_once. split; [reflexivity|]. by apply (YSubscribe _ _ the_runtime 0).
Qed.

(** A result carries no sign of its request: a call can time out and the
    next one return its result, before its own request has left the queue. *)
Theorem execute_takes_stale_result (a1 a2 : string) (p1 p2 : json) (e : PluginEvent) :
  run_request (actions the_runtime) (mkExecuteRequest a1 (marshal_json p1)) = Some e →
  ∃ x c st, sys_reachable false x ∧ x.(sy_server).(pg_calls) !! 2 = Some c ∧
    c.(ca_action) = a2 ∧ c.(ca_params) = marshal_json p2 ∧
    c.(ca_phase) = Done (Ok (default JNull (unmarshal_json e.(pe_Payload)))) ∧
    streams_of x !! 0 = Some st ∧ under_way x 0 st = [request_of c].
Proof.
  intros Hrun. set (req := mkExecuteRequest a1 (marshal_json p1)).
  assert (He : e = mkPluginEvent "" 0 0 (Some (mkResourceKey "action_result" "" a1)) "RESULT" e.(pe_Payload)).
  { unfold run_request in Hrun. destruct (actions the_runtime !! _) as [h|]; [|done]. cbn in Hrun.
    destruct (h _); [|done]. by apply (inj Some) in Hrun as <-. }
  set (x1 := on_server (Execute_lookup 1 the_runtime a1 p1) connected).
  set (x2 := on_server (Execute_file 1 0 0) x1).
  set (x3 := on_server (Execute_send 1 0 0) x2).
  set (x4 := on_server (with_subs (receive 0)) x3).
  set (x5 := on_server (with_subs (send true 0)) x4).
  set (x6 := receive_batch 0 the_runtime [5] (mkEventBatch [] [req]) x5).
  set (x7 := on_server (Execute_timeout 1 0) x6).
  set (x8 := on_server (Execute_return 1 0 (Err ("execute timeout: " +:+ a1))) x7).
  set (x9 := on_server (Execute_lookup 2 the_runtime a2 p2) x8).
  set (x10 := on_server (Execute_file 2 0 0) x9).
  set (x11 := on_server (Execute_send 2 0 0) x10).
  set (v := default JNull (unmarshal_json e.(pe_Payload))).
  set (x13 := on_server (on_call 2 (with_result (Some (mkExecuteResult v "")))) (mkSystem x11.(sy_server) x11.(sy_received) ∅)).
  set (x14 := on_server (Execute_result 2 0) x13).
  set (x15 := on_server (Execute_return 2 0 (Ok v)) x14).
  exists x15, (mkCall the_runtime a2 (marshal_json p2) (Done (Ok v)) None),
    (mkStream the_runtime Receiving [mkEventBatch [] [mkExecuteRequest a2 (marshal_json p2)]] false [mkEventBatch [] [req]]).
  split_and!; try (vm_compute; reflexivity).
  unfold sys_reachable. etrans; [apply connected_run|]. compute_state.
  run_step ltac:(by apply (YLookup _ _ 1 the_runtime a1 p1)).
  run_step ltac:(apply (YFile _ _ 1 0 0); by eexists).
  run_step ltac:(apply (YRequest _ _ 1 0 0); by eexists).
  run_step ltac:(apply (YReceive _ _ 0); by eexists).
  run_step ltac:(apply (YSend _ _ true 0 (mkEventBatch [] [req])); by eexists).
  run_step ltac:(apply (YRecv _ _ 0 (mkStream the_runtime Receiving [] false [mkEventBatch [] [req]]) (mkEventBatch [] [req]) [5]);
    [reflexivity..|apply NoDup_singleton|intros k _; exact (lookup_empty k)]).
  run_step ltac:(apply (YTimeout _ _ 1 0); [done|by eexists]).
  run_step ltac:(apply (YReturn _ _ 1 0 (Err ("execute timeout: " +:+ a1))); by eexists).
  run_step ltac:(by apply (YLookup _ _ 2 the_runtime a2 p2)).
  run_step ltac:(apply (YFile _ _ 2 0 0); by eexists).
  run_step ltac:(apply (YRequest _ _ 2 0 0); by eexists).
  eapply rtc_l; [split; [reflexivity|by apply (YRun _ _ 5 the_runtime req)]|].
  unfold finish_request. unfold req at 1. rewrite Hrun, He. compute_state.
  run_step ltac:(apply (YResult _ _ 2 0); by eexists).
  eapply rtc_l; [split; [reflexivity|apply (YReturn _ _ 2 0 (Ok v)); by eexists]|].
  match goal with |- rtc _ ?a ?b => assert (a = b) as -> by (vm_compute; reflexivity) end. done.
Qed.

(** A call that has looked its plugin up sends on the channel even when
    the plugin has gone meanwhile: one plugin, one subscription and one call
    are enough to end the server. *)
Theorem execute_after_disconnect_panics (action : string) (params : json) (event : GenericEvent) :
  ∃ x, sys_reachable true x ∧ x.(sy_server).(pg_subs).(panicked) = true ∧
    (∀ n, is_Some (streams_of x !! n) → n = 0) ∧ (∀ i, is_Some (x.(sy_server).(pg_calls) !! i) → i = 1).
Proof.
  set (b := event_batch event).
  exists (mkSystem (mkPluginServer {[the_runtime := 0]} {[0 := mkPluginState the_runtime "1.0.0" [] (Some 1)]}
            (mkSubs ∅ {[0 := mkStream the_runtime Returned [] true []]} true)
            {[1 := mkCall the_runtime action (marshal_json params) (Waiting 0) None]}) ∅ ∅).
  split_and!; [|done| |].
  - unfold sys_reachable. etrans; [apply connected_run|].
    eapply rtc_l; [split; [reflexivity|apply (YBroadcast _ _ event)]|].
    eapply rtc_l; [split; [reflexivity|apply (YReceive _ _ 0); by eexists]|].
    eapply rtc_l; [split; [reflexivity|apply (YLookup _ _ 1 the_runtime action params); [reflexivity|intros _ i c Hc]]|].
    { exfalso. change ((∅ : gmap nat Call) !! i = Some c) in Hc. by rewrite lookup_empty in Hc. }
    eapply rtc_l; [split; [reflexivity|apply (YFile _ _ 1 0 0); by eexists]|].
    eapply rtc_l; [split; [reflexivity|apply (YSend _ _ false 0 b); by eexists]|].
    eapply rtc_l; [split; [reflexivity|apply (YLeave _ _ 0); by eexists]|].
    eapply rtc_l; [split; [reflexivity|apply (YFinish _ _ 0); by eexists]|].
    eapply rtc_l; [split; [reflexivity|apply (YRequest _ _ 1 0 0); by eexists]|].
    match goal with |- rtc _ ?a ?b => assert (a = b) as -> by reflexivity end. done.
  - intros n [st Hst]. unfold streams_of in Hst. cbn in Hst. by apply lookup_singleton_Some in Hst as [<- _].
  - intros i [c Hc]. cbn in Hc. by apply lookup_singleton_Some in Hc as [<- _].
Qed.
End wire.

(** *** At concrete inputs *)

Definition echo_actions (id : string) : gmap string ActionHandler := {["vpn.status" := λ _, Ok (JString "up")]}.
Definition text_of (v : json) : bytes := match v with JString s => list_ascii_of_string s | _ => list_ascii_of_string "{}" end.
Definition value_of_text (b : bytes) : option json := Some (JString (string_of_list_ascii b)).
Definition any_time (_ : Z) : string := "".

Definition call_steps : list (System → System) :=
  [on_server (Execute_lookup text_of 1 the_runtime "vpn.status" JNull); on_server (Execute_file 1 0 0);
   on_server (Execute_send 1 0 0); on_server (with_subs (receive 0)); on_server (with_subs (send true 0));
   receive_batch 0 the_runtime [5] (mkEventBatch [] [mkExecuteRequest "vpn.status" (list_ascii_of_string "{}")]);
   finish_request text_of value_of_text echo_actions 5 the_runtime (mkExecuteRequest "vpn.status" (list_ascii_of_string "{}"));
   on_server (Execute_result 1 0); on_server (Execute_return 1 0 (Ok (JString "up")))].
Definition after (k : nat) : System := foldl (λ x f, f x) connected (take k call_steps).

Lemma execute_returns_result_witness :
  ∃ c, (after 9).(sy_server).(pg_calls) !! 1 = Some c ∧ c.(ca_phase) = Done (Ok (JString "up")) ∧
    ∃ e, run_request text_of value_of_text (echo_actions c.(ca_plugin)) (mkExecuteRequest c.(ca_action) c.(ca_params)) = Some e ∧
      JString "up" = default JNull (value_of_text e.(pe_Payload)).
Proof.
  exists (mkCall the_runtime "vpn.status" (list_ascii_of_string "{}") (Done (Ok (JString "up"))) None).
  split; [vm_compute; reflexivity|]. split; [reflexivity|].
  refine (execute_returns_result any_time text_of value_of_text echo_actions (after 9) 1
    (mkCall the_runtime "vpn.status" (list_ascii_of_string "{}") (Done (Ok (JString "up"))) None) (Ok (JString "up")) _ _ _ _);
    [|vm_compute; reflexivity..].
  unfold sys_reachable. etrans; [apply connected_run|].
  eapply rtc_l; [split; [reflexivity|apply (YLookup _ _ _ _ _ connected 1 the_runtime "vpn.status" JNull); [reflexivity|intros _ i c Hc]]|].
  { exfalso. change ((∅ : gmap nat Call) !! i = Some c) in Hc. by rewrite lookup_empty in Hc. }
  eapply rtc_l; [split; [reflexivity|apply (YFile _ _ _ _ _ (after 1) 1 0 0); by eexists]|].
  eapply rtc_l; [split; [reflexivity|apply (YRequest _ _ _ _ _ (after 2) 1 0 0); by eexists]|].
  eapply rtc_l; [split; [reflexivity|apply (YReceive _ _ _ _ _ (after 3) 0); by eexists]|].
  eapply rtc_l; [split; [reflexivity|apply (YSend _ _ _ _ _ (after 4) true 0 (mkEventBatch [] [mkExecuteRequest "vpn.status" (list_ascii_of_string "{}")])); by eexists]|].
  eapply rtc_l; [split; [reflexivity|apply (YRecv _ _ _ _ _ (after 5) 0 (mkStream the_runtime Receiving [] false
    [mkEventBatch [] [mkExecuteRequest "vpn.status" (list_ascii_of_string "{}")]]) (mkEventBatch [] [mkExecuteRequest "vpn.status" (list_ascii_of_string "{}")]) [5]);
    [reflexivity..|apply NoDup_singleton|intros k _; exact (lookup_empty k)]]|].
  eapply rtc_l; [split; [reflexivity|by apply (YRun _ _ _ _ _ (after 6) 5 the_runtime (mkExecuteRequest "vpn.status" (list_ascii_of_string "{}")))]|].
  eapply rtc_l; [split; [reflexivity|apply (YResult _ _ _ _ _ (after 7) 1 0); by eexists]|].
  apply rtc_once. split; [reflexivity|]. apply (YReturn _ _ _ _ _ (after 8) 1 0 (Ok (JString "up"))). by eexists.
Defined.

Lemma execute_takes_stale_result_witness :
  ∃ x c, x.(sy_server).(pg_calls) !! 2 = Some c ∧ c.(ca_action) = "vpn.delete" ∧ c.(ca_phase) = Done (Ok (JString "up")).
Proof.
  destruct (execute_takes_stale_result any_time text_of value_of_text echo_actions "vpn.status" "vpn.delete" JNull JNull
    (mkPluginEvent "" 0 0 (Some (mkResourceKey "action_result" "" "vpn.status")) "RESULT" (list_ascii_of_string "up")))
    as (x & c & st & _ & H1 & H2 & _ & H3 & _); [reflexivity|]. by exists x, c.
Defined.
