(* ===== verification/Vpn.v ===== *)
(** * The runtime (BBgrid_Runtime/runtime.go, main.go)

    [VPNManager] keeps namespaces, WireGuard interfaces and their peers, and
    runs ip and wg to make the machine follow.  The machine is its links with
    their addresses and the keys of their peers; a command fails when the machine does not
    allow it or when [ok], the outcome of the n-th command, says so.  The
    handlers of main.go are the events and actions below; every handler of an
    event runs in a goroutine of its own, every operation under one lock.
    Names of namespaces are ASCII. *)

From S2P Require Import Prelude Proto Types Subscribers PluginServer.

(** ** The machine *)

Record Link := mkLink { ln_addr : option string; ln_up : bool; ln_peers : gset string }.
Abbreviation Machine := (gmap string Link).

(** The commands the manager runs. *)
Inductive Cmd :=
| LinkAdd (iface : string)
| AddrAdd (ip iface : string)
| LinkUp (iface : string)
| LinkDel (iface : string)
| PeerSet (iface publicKey allowedIPs endpoint : string)
| PeerRemove (iface publicKey : string).

Definition iface_of (c : Cmd) : string :=
  match c with LinkAdd i | AddrAdd _ i | LinkUp i | LinkDel i | PeerSet i _ _ _ | PeerRemove i _ => i end.

(** A link is added once; the rest needs it. *)
Definition allowed (c : Cmd) (k : Machine) : bool :=
  match c with
  | LinkAdd i => negb (bool_decide (is_Some (k !! i)))
  | _ => bool_decide (is_Some (k !! iface_of c))
  end.

Definition run_cmd (c : Cmd) (k : Machine) : Machine :=
  match c with
  | LinkAdd i => <[i := mkLink None false ∅]> k
  | AddrAdd ip i => alter (λ l, mkLink (Some ip) l.(ln_up) l.(ln_peers)) i k
  | LinkUp i => alter (λ l, mkLink l.(ln_addr) true l.(ln_peers)) i k
  | LinkDel i => delete i k
  | PeerSet i key _ _ => alter (λ l, mkLink l.(ln_addr) l.(ln_up) ({[key]} ∪ l.(ln_peers))) i k
  | PeerRemove i key => alter (λ l, mkLink l.(ln_addr) l.(ln_up) (l.(ln_peers) ∖ {[key]})) i k
  end.

(** ** The manager *)

Record namespaceState := mkNamespaceState { ns_Name : string; ns_Members : gmap string (gmap string json) }.
Record peerState := mkPeerState { pr_ClientID : string; pr_PublicKey : string; pr_Endpoint : string; pr_AllowedIPs : list string }.
Record ifaceState := mkIfaceState {
  if_Name : string;
  if_Namespace : string;
  if_IP : string;
  if_Peers : gmap string peerState;
}.

Record VPNManager := mkVPN {
  vp_ns : gmap string namespaceState;
  vp_ifaces : gmap string ifaceState;
  vp_dry : bool;
  (* the machine, and how many commands were run *)
  vp_machine : Machine;
  vp_execs : nat;
}.

Definition NewVPNManager (dryRun : bool) (k : Machine) : VPNManager := mkVPN ∅ ∅ dryRun k 0.

Definition set_ns (f : gmap string namespaceState → gmap string namespaceState) (m : VPNManager) : VPNManager :=
  mkVPN (f m.(vp_ns)) m.(vp_ifaces) m.(vp_dry) m.(vp_machine) m.(vp_execs).
Definition set_ifaces (f : gmap string ifaceState → gmap string ifaceState) (m : VPNManager) : VPNManager :=
  mkVPN m.(vp_ns) (f m.(vp_ifaces)) m.(vp_dry) m.(vp_machine) m.(vp_execs).

(** The hash is an [int], its remainder has the sign of the hash. *)
Definition name_hash (namespace : string) : Z :=
  foldl (λ hash c, int64_wrap (int64_wrap (hash * 31) + Z_of_byte c)) 0%Z (list_ascii_of_string namespace).
Definition octet (namespace : string) : Z := (Z.rem (name_hash namespace) 254 + 1)%Z.
Definition allocateIP (namespace : string) : string := "10.0." +:+ pretty (octet namespace) +:+ ".1/24".

Section manager.
Context (ok : nat → bool).

Definition exec (c : Cmd) (m : VPNManager) : bool * VPNManager :=
  if m.(vp_dry) then (true, m)
  else
    let done := allowed c m.(vp_machine) && ok m.(vp_execs) in
    (done, mkVPN m.(vp_ns) m.(vp_ifaces) m.(vp_dry) (if done then run_cmd c m.(vp_machine) else m.(vp_machine)) (S m.(vp_execs))).

Definition createInterface (iface namespace : string) (m : VPNManager) : VPNManager :=
  match exec (LinkAdd iface) m with
  | (false, m1) => m1
  | (true, m1) =>
      let ip := allocateIP namespace in
      match exec (AddrAdd ip iface) m1 with
      | (false, m2) => (exec (LinkDel iface) m2).2
      | (true, m2) =>
          match exec (LinkUp iface) m2 with
          | (false, m3) => (exec (LinkDel iface) m3).2
          | (true, m3) => set_ifaces <[iface := mkIfaceState iface namespace ip ∅]> m3
          end
      end
  end.
Definition deleteInterface (iface : string) (m : VPNManager) : VPNManager :=
  set_ifaces (delete iface) (exec (LinkDel iface) m).2.

Definition wg (namespace : string) : string := "wg-" +:+ namespace.

Definition CreateNamespace (name : string) (m : VPNManager) : VPNManager :=
  match m.(vp_ns) !! name with
  | Some _ => m
  | None => createInterface (wg name) name (set_ns <[name := mkNamespaceState name ∅]> m)
  end.
Definition DeleteNamespace (name : string) (m : VPNManager) : VPNManager :=
  set_ns (delete name) (deleteInterface (wg name) m).

Definition AddPeer (namespace clientID publicKey endpoint allowedIPs : string) (m : VPNManager) : VPNManager :=
  match m.(vp_ifaces) !! wg namespace with
  | None => m
  | Some _ =>
      let peer := mkPeerState clientID publicKey endpoint [allowedIPs] in
      let add := λ i, mkIfaceState i.(if_Name) i.(if_Namespace) i.(if_IP) (<[clientID := peer]> i.(if_Peers)) in
      (exec (PeerSet (wg namespace) publicKey allowedIPs endpoint) (set_ifaces (alter add (wg namespace)) m)).2
  end.
Definition RemovePeer (namespace clientID : string) (m : VPNManager) : VPNManager :=
  match m.(vp_ifaces) !! wg namespace with
  | None => m
  | Some iface =>
      match iface.(if_Peers) !! clientID with
      | None => m
      | Some peer =>
          let remove := λ i, mkIfaceState i.(if_Name) i.(if_Namespace) i.(if_IP) (delete clientID i.(if_Peers)) in
          set_ifaces (alter remove (wg namespace)) (exec (PeerRemove (wg namespace) peer.(pr_PublicKey)) m).2
      end
  end.

(** In any order. *)
Definition Close (m : VPNManager) : VPNManager := foldr deleteInterface m (map_to_list m.(vp_ifaces)).*1.

(** *** Events *)

Record Event := mkSdkEvent { ev_Resource : ResourceKey; ev_EventType : string; ev_Payload : gmap string json }.

Definition HandleNamespaceAdded (e : Event) : VPNManager → VPNManager := CreateNamespace e.(ev_Resource).(rk_Name).
Definition HandleNamespaceDeleted (e : Event) : VPNManager → VPNManager := DeleteNamespace e.(ev_Resource).(rk_Name).
Definition add_member (ms : gmap string (gmap string json)) (member : json) : gmap string (gmap string json) :=
  match member with
  | JObject fields => match fields !! "client_id" with Some (JString id) => <[id := fields]> ms | _ => ms end
  | _ => ms
  end.
Definition HandleNamespaceModified (e : Event) (m : VPNManager) : VPNManager :=
  match e.(ev_Payload) !! "members" with
  | Some (JArray members) =>
      set_ns (alter (λ n, mkNamespaceState n.(ns_Name) (foldl add_member n.(ns_Members) members)) e.(ev_Resource).(rk_Name)) m
  | _ => m
  end.

(** What the SDK makes of an event of the server ([pbToEvent]); a payload that
    is no object is lost. *)
Definition pbToEvent (unmarshal_json : bytes → option json) (e : PluginEvent) : Event :=
  mkSdkEvent (default (mkResourceKey "" "" "") e.(pe_Resource)) e.(pe_EventType)
    (match unmarshal_json e.(pe_Payload) with Some (JObject m) => m | _ => ∅ end).
(** The events of the batches a stream has sent, in their order. *)
Definition received_events (unmarshal_json : bytes → option json) (bs : list EventBatch) : list Event :=
  pbToEvent unmarshal_json <$> concat (eb_Events <$> bs).

(** The handlers [main] registers; those of proxies and relays only log. *)
Definition handle_event (e : Event) (m : VPNManager) : VPNManager :=
  if decide (e.(ev_Resource).(rk_Type) = "namespace") then
    if decide (e.(ev_EventType) = "ADDED") then HandleNamespaceAdded e m
    else if decide (e.(ev_EventType) = "MODIFIED") then HandleNamespaceModified e m
    else if decide (e.(ev_EventType) = "DELETED") then HandleNamespaceDeleted e m
    else m
  else m.

(** *** Actions *)

Definition param (params : gmap string json) (k : string) : string :=
  match params !! k with Some (JString s) => s | _ => "" end.
Definition answer (l : list (string * string)) : json := JObject (JString <$> list_to_map l).
Definition names {A} (m : gmap string A) : json := JArray (JString <$> (map_to_list m).*1).

Definition vpn_action (action : string) (params : gmap string json) (m : VPNManager) : Res json * VPNManager :=
  let name := param params "namespace" in
  let id := param params "client_id" in
  if decide (action = "vpn.status") then
    (Ok (JObject (<["namespaces" := names m.(vp_ns)]> $ <["interfaces" := names m.(vp_ifaces)]> {["dry_run" := JBool m.(vp_dry)]})), m)
  else if decide (action = "vpn.create") then
    if decide (name = "") then (Err "namespace is required", m)
    else (Ok (answer [("namespace", name); ("status", "created")]), CreateNamespace name m)
  else if decide (action = "vpn.delete") then
    if decide (name = "") then (Err "namespace is required", m)
    else (Ok (answer [("namespace", name); ("status", "deleted")]), DeleteNamespace name m)
  else if decide (action = "vpn.join") then
    if decide (name = "" ∨ id = "") then (Err "namespace and client_id are required", m)
    else (Ok (answer [("namespace", name); ("client_id", id); ("status", "joined")]),
          AddPeer name id (param params "public_key") (param params "endpoint") (param params "allowed_ips") m)
  else if decide (action = "vpn.leave") then
    if decide (name = "" ∨ id = "") then (Err "namespace and client_id are required", m)
    else (Ok (answer [("namespace", name); ("client_id", id); ("status", "left")]), RemovePeer name id m)
  else if decide (action = "vpn.interfaces") then
    (Ok (JArray ((λ i, JObject (<["name" := JString i.(if_Name)]> $ <["namespace" := JString i.(if_Namespace)]> $
       <["ip" := JString i.(if_IP)]> {["peers" := JNumber (float64_of_Z (Z.of_nat (size i.(if_Peers))))]})) <$> (map_to_list m.(vp_ifaces)).*2)), m)
  else (Err "action not found", m).

(** [dispatchEvent] starts a goroutine for every event: those that have yet
    to run do so in any order. *)
Inductive dispatch_step : list Event * VPNManager → list Event * VPNManager → Prop :=
| VHandle i e evs m : evs !! i = Some e → dispatch_step (evs, m) (delete i evs, handle_event e m).

(** ** Addresses *)

Lemma name_hash_bound s : String.length s <= 12 → (0 <= name_hash s <= int64_max)%Z.
Proof.
  assert (E12 : (31 ^ 12 = 787662783788549761)%Z) by reflexivity.
  assert (H : ∀ l h k, (0 <= h <= 9 * (31 ^ Z.of_nat k - 1))%Z → length l + k <= 12 →
    (0 <= foldl (λ hash c, int64_wrap (int64_wrap (hash * 31) + Z_of_byte c)) h l <= 9 * (31 ^ 12 - 1))%Z).
  { induction l as [|c l IH]; intros h k Hh Hk; cbn [foldl].
    - assert (31 ^ Z.of_nat k <= 31 ^ 12)%Z by (apply Z.pow_le_mono_r; cbn in Hk; lia). lia.
    - cbn in Hk. pose proof (Z_of_byte_bounds c) as Hc.
      assert (Hpow : (31 ^ Z.of_nat (S k) = 31 * 31 ^ Z.of_nat k)%Z) by (rewrite Nat2Z.inj_succ, Z.pow_succ_r; lia).
      assert (Hle : (31 ^ Z.of_nat (S k) <= 31 ^ 12)%Z) by (apply Z.pow_le_mono_r; lia).
      assert (Hge : (1 <= 31 ^ Z.of_nat k)%Z) by (pose proof (Z.pow_pos_nonneg 31 (Z.of_nat k)); lia).
      rewrite (int64_wrap_id (h * 31)) by (unfold int64_min, int64_max; lia).
      rewrite int64_wrap_id by (unfold int64_min, int64_max; lia).
      apply (IH _ (S k)); lia. }
  intros Hs. unfold name_hash. specialize (H (list_ascii_of_string s) 0%Z 0).
  rewrite length_list_ascii_of_string in H. unfold int64_max. destruct H; cbn; lia.
Qed.

Lemma octet_short s : String.length s <= 12 → (1 <= octet s <= 254)%Z.
Proof.
  intros H. pose proof (name_hash_bound s H) as Hb. unfold octet.
  pose proof (Z.rem_bound_pos (name_hash s) 254). lia.
Qed.

Lemma octet_range s : (-252 <= octet s <= 254)%Z.
Proof. unfold octet. pose proof (Z.rem_bound_abs (name_hash s) 254). lia. Qed.

(** Two elements with the same image, when the images are not distinct. *)
Lemma not_NoDup_fmap {A B} `{EqDecision B} (f : A → B) (l : list A) :
  NoDup l → ¬ NoDup (f <$> l) → ∃ a b, a ∈ l ∧ b ∈ l ∧ a ≠ b ∧ f a = f b.
Proof.
  induction l as [|a l IH]; intros Hl Hf; [by destruct Hf; constructor|].
  apply NoDup_cons in Hl as [Ha Hl]. destruct (decide (f a ∈ f <$> l)) as [Hin|Hnin].
  - apply list_elem_of_fmap in Hin as (b & Hb & Hin). exists a, b. split_and!; [set_solver..|congruence|done].
  - destruct IH as (b & c & ? & ? & ? & ?); [done| |exists b, c; split_and!; set_solver].
    intros Hd. apply Hf. by constructor.
Qed.

(** ** The machine follows the manager *)

#[local] Instance wg_inj : Inj (=) (=) wg.
Proof. intros a b H. unfold wg in H. by injection H. Qed.

Inductive vpn_op :=
| OpCreate (namespace : string)
| OpDelete (namespace : string)
| OpJoin (namespace clientID publicKey endpoint allowedIPs : string)
| OpLeave (namespace clientID : string)
| OpEvent (e : Event).
Definition run_op (op : vpn_op) : VPNManager → VPNManager :=
  match op with
  | OpCreate ns => CreateNamespace ns
  | OpDelete ns => DeleteNamespace ns
  | OpJoin ns id key ep ips => AddPeer ns id key ep ips
  | OpLeave ns id => RemovePeer ns id
  | OpEvent e => handle_event e
  end.

(** The keys of a namespace's clients are their own, and stay. *)
Definition own_key (m : VPNManager) (op : vpn_op) : Prop :=
  match op with
  | OpJoin ns id key _ _ =>
      ∀ i, m.(vp_ifaces) !! wg ns = Some i → ∀ id' p, i.(if_Peers) !! id' = Some p → p.(pr_PublicKey) = key ↔ id' = id
  | _ => True
  end.

Definition same_peers (i : ifaceState) (l : Link) : Prop :=
  (∀ key, key ∈ l.(ln_peers) ↔ ∃ id p, i.(if_Peers) !! id = Some p ∧ p.(pr_PublicKey) = key) ∧
  (∀ id id' p p', i.(if_Peers) !! id = Some p → i.(if_Peers) !! id' = Some p' → p.(pr_PublicKey) = p'.(pr_PublicKey) → id = id').
Definition follows (m : VPNManager) (ns : string) : Prop :=
  match m.(vp_ns) !! ns with
  | Some _ => ∃ i l, m.(vp_ifaces) !! wg ns = Some i ∧ m.(vp_machine) !! wg ns = Some l ∧ same_peers i l ∧
                i.(if_IP) = allocateIP ns ∧ l.(ln_addr) = Some (allocateIP ns) ∧ l.(ln_up) = true
  | None => m.(vp_ifaces) !! wg ns = None ∧ m.(vp_machine) !! wg ns = None
  end.
Record mirrors (m : VPNManager) : Prop := mkMirrors { mi_dry : m.(vp_dry) = false; mi_ns ns : follows m ns }.

(** Only what concerns [ns] changes. *)
Lemma follows_other m m' ns ns' :
  ns' ≠ ns → m'.(vp_ns) !! ns' = m.(vp_ns) !! ns' → m'.(vp_ifaces) !! wg ns' = m.(vp_ifaces) !! wg ns' →
  m'.(vp_machine) !! wg ns' = m.(vp_machine) !! wg ns' → follows m ns' → follows m' ns'.
Proof. intros _ H1 H2 H3. unfold follows. by rewrite H1, H2, H3. Qed.
End manager.

Section all_commands_work.
Abbreviation works := (λ _ : nat, true).

Lemma exec_works c m :
  m.(vp_dry) = false → allowed c m.(vp_machine) = true →
  exec works c m = (true, mkVPN m.(vp_ns) m.(vp_ifaces) false (run_cmd c m.(vp_machine)) (S m.(vp_execs))).
Proof. intros Hd Ha. unfold exec. rewrite Hd, Ha. done. Qed.

Lemma CreateNamespace_mirrors ns m : mirrors m → mirrors (CreateNamespace works ns m).
Proof.
  intros [Hd Hm]. unfold CreateNamespace. destruct (vp_ns m !! ns) as [n|] eqn:Hns; [done|].
  pose proof (Hm ns) as Hn. unfold follows in Hn. rewrite Hns in Hn. destruct Hn as [Hi Hk].
  unfold createInterface. rewrite exec_works; [|done|cbn; by rewrite Hk].
  rewrite exec_works; [|done|cbn; by rewrite lookup_insert_eq].
  rewrite exec_works; [|done|cbn; by rewrite lookup_alter_eq, lookup_insert_eq]. cbn.
  split; [done|]. intros ns'. destruct (decide (ns' = ns)) as [->|Hne].
  - unfold follows. cbn. rewrite !lookup_insert_eq, !lookup_alter_eq, lookup_insert_eq. eexists _, _.
    split_and!; try done. split; cbn; [|done]. intros key. split; [set_solver|]. by intros (? & ? & ? & _).
  - apply (follows_other m _ ns); [done|cbn..|apply Hm].
    + by rewrite lookup_insert_ne.
    + rewrite lookup_insert_ne; [done|]. by intros ?%(inj wg).
    + rewrite !lookup_alter_ne, lookup_insert_ne; [done|..]; by intros ?%(inj wg).
Qed.

Lemma DeleteNamespace_mirrors ns m : mirrors m → mirrors (DeleteNamespace works ns m).
Proof.
  intros [Hd Hm]. unfold DeleteNamespace, deleteInterface.
  assert (He : ∃ n, (exec works (LinkDel (wg ns)) m).2 = mkVPN m.(vp_ns) m.(vp_ifaces) false (delete (wg ns) m.(vp_machine)) n).
  { destruct (vp_machine m !! wg ns) as [l|] eqn:Hk.
    - rewrite exec_works; [by eexists|done|cbn; by rewrite Hk].
    - unfold exec. rewrite Hd. cbn. rewrite Hk. cbn. eexists. f_equal; try done. by rewrite delete_id. }
  destruct He as [n ->]. split; [done|]. intros ns'. destruct (decide (ns' = ns)) as [->|Hne].
  - unfold follows. cbn. by rewrite !lookup_delete_eq.
  - apply (follows_other m _ ns); [done|cbn..|apply Hm]; rewrite lookup_delete_ne; try done; by intros ?%(inj wg).
Qed.

Lemma AddPeer_mirrors ns id key ep ips m :
  mirrors m → own_key m (OpJoin ns id key ep ips) → mirrors (AddPeer works ns id key ep ips m).
Proof.
  intros [Hd Hm] Hown. unfold AddPeer. destruct (vp_ifaces m !! wg ns) as [i|] eqn:Hi; [|done].
  pose proof (Hm ns) as Hn. unfold follows in Hn. destruct (vp_ns m !! ns) as [n|] eqn:Hns; [|destruct Hn; congruence].
  destruct Hn as (i' & l & Hi' & Hk & [Hp Hu] & Hip & Ha & Hup). assert (i' = i) as -> by congruence.
  rewrite exec_works; [|done|cbn; by rewrite Hk]. cbn. specialize (Hown _ Hi).
  split; [done|]. intros ns'. destruct (decide (ns' = ns)) as [->|Hne].
  - unfold follows. cbn. rewrite Hns, !lookup_alter_eq, Hi, Hk. cbn. eexists _, _. split_and!; try done. split; cbn.
    + intros k. rewrite elem_of_union, elem_of_singleton, Hp. split.
      * intros [->|(id' & p & Hid & <-)]; [exists id; eexists; by rewrite lookup_insert_eq|].
        destruct (decide (id' = id)) as [->|Hid'].
        -- exists id. eexists. rewrite lookup_insert_eq. split; [done|]. cbn. symmetry. by apply (Hown _ _ Hid).
        -- exists id', p. by rewrite lookup_insert_ne.
      * intros (id' & p & [[<- <-]|[Hne Hid]]%lookup_insert_Some & <-); [by left|]. right. by exists id', p.
    + intros id1 id2 p1 p2 [[<- <-]|[N1 H1]]%lookup_insert_Some [[<- <-]|[N2 H2]]%lookup_insert_Some; cbn; intros E; [done|..].
      * symmetry. by apply (Hown _ _ H2).
      * by apply (Hown _ _ H1).
      * by eapply Hu.
  - apply (follows_other m _ ns); [done|cbn..|apply Hm]; rewrite ?lookup_alter_ne; try done; by intros ?%(inj wg).
Qed.

Lemma RemovePeer_mirrors ns id m : mirrors m → mirrors (RemovePeer works ns id m).
Proof.
  intros [Hd Hm]. unfold RemovePeer. destruct (vp_ifaces m !! wg ns) as [i|] eqn:Hi; [|done].
  destruct (if_Peers i !! id) as [p|] eqn:Hid; [|done].
  pose proof (Hm ns) as Hn. unfold follows in Hn. destruct (vp_ns m !! ns) as [n|] eqn:Hns; [|destruct Hn; congruence].
  destruct Hn as (i' & l & Hi' & Hk & [Hp Hu] & Hip & Ha & Hup). assert (i' = i) as -> by congruence.
  rewrite exec_works; [|done|cbn; by rewrite Hk]. cbn.
  split; [done|]. intros ns'. destruct (decide (ns' = ns)) as [->|Hne].
  - unfold follows. cbn. rewrite Hns, !lookup_alter_eq, Hi, Hk. cbn. eexists _, _. split_and!; try done. split; cbn.
    + intros k. rewrite elem_of_difference, elem_of_singleton, Hp. split.
      * intros [(id' & p' & Hid' & <-) Hne]. exists id', p'. rewrite lookup_delete_ne; [done|]. intros <-. congruence.
      * intros (id' & p' & [Hne Hid']%lookup_delete_Some & <-). split; [by exists id', p'|]. intros E. apply Hne.
        symmetry. by eapply Hu.
    + intros id1 id2 p1 p2 [N1 H1]%lookup_delete_Some [N2 H2]%lookup_delete_Some. by eapply Hu.
  - apply (follows_other m _ ns); [done|cbn..|apply Hm]; rewrite ?lookup_alter_ne; try done; by intros ?%(inj wg).
Qed.

Lemma run_op_mirrors op m : mirrors m → own_key m op → mirrors (run_op works op m).
Proof.
  intros Hm Ho. destruct op as [ns|ns|ns id key ep ips|ns id|e]; cbn.
  - by apply CreateNamespace_mirrors.
  - by apply DeleteNamespace_mirrors.
  - by apply AddPeer_mirrors.
  - by apply RemovePeer_mirrors.
  - unfold handle_event. repeat case_decide; try done; [by apply CreateNamespace_mirrors| |by apply DeleteNamespace_mirrors].
    unfold HandleNamespaceModified. destruct (ev_Payload e !! "members") as [[]|]; try done.
    destruct Hm as [Hd Hm]. split; [done|]. intros ns. specialize (Hm ns). unfold follows in *. cbn.
    destruct (decide (ns = rk_Name (ev_Resource e))) as [->|Hne]; [|by rewrite lookup_alter_ne].
    rewrite lookup_alter_eq. by destruct (vp_ns m !! _).
Qed.

End all_commands_work.

(** ** Namespaces do not meet *)

Record same_at (ns : string) (m m' : VPNManager) : Prop := mkSameAt {
  sa_dry : m'.(vp_dry) = m.(vp_dry);
  sa_ns : m'.(vp_ns) !! ns = m.(vp_ns) !! ns;
  sa_iface : m'.(vp_ifaces) !! wg ns = m.(vp_ifaces) !! wg ns;
  sa_link : m'.(vp_machine) !! wg ns = m.(vp_machine) !! wg ns;
}.
#[local] Instance same_at_preorder ns : PreOrder (same_at ns).
Proof. split; [by intros m; split|]. intros a b c [] []. split; congruence. Qed.

Definition target (op : vpn_op) : option string :=
  match op with
  | OpCreate ns | OpDelete ns | OpJoin ns _ _ _ _ | OpLeave ns _ => Some ns
  | OpEvent e => if decide (e.(ev_Resource).(rk_Type) = "namespace") then Some e.(ev_Resource).(rk_Name) else None
  end.

Section others.
Context (ok : nat → bool) (ns ns' : string).
Context (other : ns' ≠ ns).

Lemma wg_other : wg ns' ≠ wg ns.
Proof using other. by intros ?%(inj wg). Qed.
#[local] Hint Resolve wg_other : core.

Lemma exec_other c m : iface_of c = wg ns' → same_at ns m (exec ok c m).2.
Proof using other.
  intros Hc. unfold exec. destruct (vp_dry m) eqn:Hd; [done|]. split; try done. cbn.
  destruct (allowed c _ && ok _); [|done].
  destruct c; cbn in *; subst; rewrite ?lookup_insert_ne, ?lookup_alter_ne, ?lookup_delete_ne by done; done.
Qed.

Lemma set_ifaces_other f m :
  f m.(vp_ifaces) !! wg ns = m.(vp_ifaces) !! wg ns → same_at ns m (set_ifaces f m).
Proof. by intros. Qed.

Lemma createInterface_other m : same_at ns m (createInterface ok (wg ns') ns' m).
Proof using other.
  unfold createInterface.
  pose proof (exec_other (LinkAdd (wg ns')) m eq_refl) as H1. destruct (exec ok (LinkAdd (wg ns')) m) as [[] m1]; [|done].
  pose proof (exec_other (AddrAdd (allocateIP ns') (wg ns')) m1 eq_refl) as H2.
  destruct (exec ok (AddrAdd _ _) m1) as [[] m2]; [|by rewrite H1, H2; apply exec_other].
  pose proof (exec_other (LinkUp (wg ns')) m2 eq_refl) as H3.
  destruct (exec ok (LinkUp _) m2) as [[] m3]; [|by rewrite H1, H2, H3; apply exec_other].
  rewrite H1, H2, H3. apply set_ifaces_other. by rewrite lookup_insert_ne by done.
Qed.

Lemma create_other m : same_at ns m (CreateNamespace ok ns' m).
Proof using other.
  unfold CreateNamespace. destruct (vp_ns m !! ns'); [done|]. rewrite <-createInterface_other.
  split; try done. cbn. by rewrite lookup_insert_ne.
Qed.
Lemma delete_other m : same_at ns m (DeleteNamespace ok ns' m).
Proof using other.
  unfold DeleteNamespace, deleteInterface. trans (exec ok (LinkDel (wg ns')) m).2; [by apply exec_other|].
  split; try done; cbn; by rewrite lookup_delete_ne.
Qed.
Lemma add_peer_other id key ep ips m : same_at ns m (AddPeer ok ns' id key ep ips m).
Proof using other.
  unfold AddPeer. destruct (vp_ifaces m !! wg ns'); [|done]. rewrite <-exec_other by done.
  apply set_ifaces_other. by rewrite lookup_alter_ne.
Qed.
Lemma remove_peer_other id m : same_at ns m (RemovePeer ok ns' id m).
Proof using other.
  unfold RemovePeer. destruct (vp_ifaces m !! wg ns') as [i|]; [|done]. destruct (if_Peers i !! id) as [p|]; [|done].
  trans (exec ok (PeerRemove (wg ns') p.(pr_PublicKey)) m).2; [by apply exec_other|].
  apply set_ifaces_other. by rewrite lookup_alter_ne.
Qed.
End others.

Lemma modified_at e ns m :
  e.(ev_Resource).(rk_Name) ≠ ns → same_at ns m (HandleNamespaceModified e m).
Proof.
  intros Hne. unfold HandleNamespaceModified. destruct (ev_Payload e !! "members") as [[]|]; try done.
  split; try done. cbn. by rewrite lookup_alter_ne.
Qed.

Lemma run_op_other ok op ns m : target op ≠ Some ns → same_at ns m (run_op ok op m).
Proof.
  intros Hne. destruct op as [ns'|ns'|ns' id key ep ips|ns' id|e]; cbn in *.
  - apply create_other. congruence.
  - apply delete_other. congruence.
  - apply add_peer_other. congruence.
  - apply remove_peer_other. congruence.
  - unfold handle_event. case_decide; [|done]. repeat case_decide; try done.
    + apply create_other. congruence.
    + apply modified_at. congruence.
    + apply delete_other. congruence.
Qed.

(** What [HandleNamespaceModified] changes. *)
Lemma modified_self e ns m :
  let m' := HandleNamespaceModified e m in
  m'.(vp_dry) = m.(vp_dry) ∧ m'.(vp_ifaces) = m.(vp_ifaces) ∧ m'.(vp_machine) = m.(vp_machine) ∧
  (is_Some (m.(vp_ns) !! ns) → is_Some (m'.(vp_ns) !! ns)).
Proof.
  cbv zeta. unfold HandleNamespaceModified. destruct (ev_Payload e !! "members") as [[]|]; try done.
  split_and!; try done. cbn. by rewrite lookup_alter_is_Some.
Qed.

(** *** What is recorded *)

Lemma exec_ns ok c m : (exec ok c m).2.(vp_ns) = m.(vp_ns).
Proof. unfold exec. by destruct (vp_dry m). Qed.

Lemma createInterface_ns ok iface ns m : (createInterface ok iface ns m).(vp_ns) = m.(vp_ns).
Proof.
  unfold createInterface. pose proof (exec_ns ok (LinkAdd iface) m) as H1.
  destruct (exec ok (LinkAdd iface) m) as [[] m1]; [|done]. cbn in H1.
  pose proof (exec_ns ok (AddrAdd (allocateIP ns) iface) m1) as H2. destruct (exec ok (AddrAdd _ _) m1) as [[] m2]; cbn in H2.
  - pose proof (exec_ns ok (LinkUp iface) m2) as H3. destruct (exec ok (LinkUp _) m2) as [[] m3]; cbn in *; rewrite ?exec_ns; congruence.
  - rewrite exec_ns. congruence.
Qed.

Lemma create_recorded ok ns m : is_Some ((CreateNamespace ok ns m).(vp_ns) !! ns).
Proof.
  unfold CreateNamespace. destruct (vp_ns m !! ns) eqn:E; [by rewrite E|]. rewrite createInterface_ns. cbn.
  by rewrite lookup_insert_eq.
Qed.

(** *** A key nobody has *)

(** The link of [ns] admits [key], which no peer of the manager has. *)
Definition orphan (ns key : string) (m : VPNManager) : Prop :=
  m.(vp_dry) = false ∧ is_Some (m.(vp_ns) !! ns) ∧
  ∃ i l, m.(vp_ifaces) !! wg ns = Some i ∧ m.(vp_machine) !! wg ns = Some l ∧ key ∈ l.(ln_peers) ∧
    ∀ id p, i.(if_Peers) !! id = Some p → p.(pr_PublicKey) ≠ key.

Definition removes (ns : string) (op : vpn_op) : Prop :=
  match op with
  | OpDelete ns' => ns' = ns
  | OpEvent e => e.(ev_Resource).(rk_Type) = "namespace" ∧ e.(ev_EventType) = "DELETED" ∧ e.(ev_Resource).(rk_Name) = ns
  | _ => False
  end.
Definition joins_with (ns key : string) (op : vpn_op) : Prop :=
  match op with OpJoin ns' _ key' _ _ => ns' = ns ∧ key' = key | _ => False end.

Lemma same_at_orphan ns key m m' : same_at ns m m' → orphan ns key m → orphan ns key m'.
Proof. intros [H1 H2 H3 H4]. unfold orphan. by rewrite H1, H2, H3, H4. Qed.

Lemma orphan_step ns key op m :
  orphan ns key m → ¬ removes ns op → ¬ joins_with ns key op → orphan ns key (run_op (λ _, true) op m).
Proof.
  intros Ho Hr Hj. destruct (decide (target op = Some ns)) as [Ht|Ht]; [|by eapply same_at_orphan; [apply run_op_other|]].
  pose proof Ho as (Hd & [n Hn] & i & l & Hi & Hk & Hkey & Hp).
  destruct op as [ns'|ns'|ns' id key' ep ips|ns' id|e]; cbn in *.
  - injection Ht as ->. unfold CreateNamespace. by rewrite Hn.
  - congruence.
  - injection Ht as ->. unfold AddPeer. rewrite Hi, exec_works; [|done|cbn; by rewrite Hk]. split_and!; [done|by eexists|].
    cbn. rewrite !lookup_alter_eq, Hi, Hk. eexists _, _. split_and!; [done..|set_solver|]. cbn.
    intros id' p [[<- <-]|[_ Hid]]%lookup_insert_Some; cbn; [|by eapply Hp]. intros ->. by apply Hj.
  - injection Ht as ->. unfold RemovePeer. rewrite Hi. destruct (if_Peers i !! id) as [p|] eqn:Hid; [|done].
    rewrite exec_works; [|done|cbn; by rewrite Hk]. split_and!; [done|by eexists|].
    cbn. rewrite !lookup_alter_eq, Hi, Hk. eexists _, _. pose proof (Hp _ _ Hid). split_and!; [done..|set_solver|]. cbn.
    intros id' p' [_ Hid']%lookup_delete_Some. by eapply Hp.
  - unfold handle_event. case_decide as Hty; [|done]. injection Ht as Hname. repeat case_decide; try done.
    + unfold HandleNamespaceAdded, CreateNamespace. by rewrite Hname, Hn.
    + destruct (modified_self e ns m) as (M1 & M2 & M3 & M4). unfold orphan. rewrite M1, M2, M3.
      split_and!; [done|apply M4; by eexists|by exists i, l].
    + by destruct Hr.
Qed.

(** *** A namespace without an interface *)

Definition given_up (ns : string) (m : VPNManager) : Prop := is_Some (m.(vp_ns) !! ns) ∧ m.(vp_ifaces) !! wg ns = None.

Lemma given_up_step ok ns op m : given_up ns m → ¬ removes ns op → given_up ns (run_op ok op m).
Proof.
  intros Ho Hr. destruct (decide (target op = Some ns)) as [Ht|Ht].
  2: { destruct (run_op_other ok op ns m Ht) as [_ H2 H3 _]. unfold given_up. by rewrite H2, H3. }
  pose proof Ho as [[n Hn] Hi]. destruct op as [ns'|ns'|ns' id key' ep ips|ns' id|e]; cbn in *.
  - injection Ht as ->. unfold CreateNamespace. by rewrite Hn.
  - congruence.
  - injection Ht as ->. unfold AddPeer. by rewrite Hi.
  - injection Ht as ->. unfold RemovePeer. by rewrite Hi.
  - unfold handle_event. case_decide as Hty; [|done]. injection Ht as Hname. repeat case_decide; try done.
    + unfold HandleNamespaceAdded, CreateNamespace. by rewrite Hname, Hn.
    + destruct (modified_self e ns m) as (_ & M2 & _ & M4). unfold given_up. rewrite M2. split; [apply M4; by eexists|done].
    + by destruct Hr.
Qed.

Lemma handle_added ok e m :
  e.(ev_Resource).(rk_Type) = "namespace" → e.(ev_EventType) = "ADDED" →
  handle_event ok e m = CreateNamespace ok e.(ev_Resource).(rk_Name) m.
Proof. intros H1 H2. unfold handle_event. by rewrite H1, H2. Qed.
Lemma handle_deleted ok e m :
  e.(ev_Resource).(rk_Type) = "namespace" → e.(ev_EventType) = "DELETED" →
  handle_event ok e m = DeleteNamespace ok e.(ev_Resource).(rk_Name) m.
Proof. intros H1 H2. unfold handle_event. by rewrite H1, H2. Qed.

(** ** Properties *)

Definition vpn_run (may : VPNManager → vpn_op → Prop) : VPNManager → VPNManager → Prop :=
  rtc (λ m m', ∃ op, may m op ∧ m' = run_op (λ _, true) op m).

(** C23. On a machine without links of its own making, when the commands work
    and every client keeps a key of its own, the machine is what the manager
    says: exactly its namespaces have a link, which is up with the address
    of the namespace, and its peers are the keys of the clients that have
    joined. *)
Theorem machine_follows_manager (k : Machine) (m : VPNManager) (ns : string) :
  (∀ ns, k !! wg ns = None) → vpn_run own_key (NewVPNManager false k) m →
  match m.(vp_ns) !! ns with
  | Some _ => ∃ i l, m.(vp_ifaces) !! wg ns = Some i ∧ m.(vp_machine) !! wg ns = Some l ∧ l.(ln_up) = true ∧
                l.(ln_addr) = Some (allocateIP ns) ∧
                ∀ key, key ∈ l.(ln_peers) ↔ ∃ id p, i.(if_Peers) !! id = Some p ∧ p.(pr_PublicKey) = key
  | None => m.(vp_ifaces) !! wg ns = None ∧ m.(vp_machine) !! wg ns = None
  end.
Proof.
  intros Hk Hs. assert (H : mirrors m).
  { assert (H0 : mirrors (NewVPNManager false k)) by (split; [done|]; intros n; split; [done|apply Hk]).
    eapply rtc_invariant; [|exact H0|exact Hs]. intros a b Ha (op & Ho & ->). by apply run_op_mirrors. }
  destruct H as [_ H]. specialize (H ns). unfold follows in H. destruct (vp_ns m !! ns); [|done].
  destruct H as (i & l & H1 & H2 & [H3 _] & _ & H5 & H6). by exists i, l.
Qed.

(** A client that joins again with another key leaves its old key in the
    interface: after it has left, the interface admits the old key and the
    manager knows nobody with it, until the namespace is deleted or somebody
    joins with that very key. *)
Theorem rejoin_leaves_old_key (m m' : VPNManager) (ns id key key' ep ips : string) (i : ifaceState) (p : peerState) :
  mirrors m → m.(vp_ifaces) !! wg ns = Some i → i.(if_Peers) !! id = Some p → p.(pr_PublicKey) = key → key' ≠ key →
  vpn_run (λ _ op, ¬ removes ns op ∧ ¬ joins_with ns key op)
    (RemovePeer (λ _, true) ns id (AddPeer (λ _, true) ns id key' ep ips m)) m' →
  ∃ i' l, m'.(vp_ifaces) !! wg ns = Some i' ∧ m'.(vp_machine) !! wg ns = Some l ∧ key ∈ l.(ln_peers) ∧
    ∀ id p, i'.(if_Peers) !! id = Some p → p.(pr_PublicKey) ≠ key.
Proof.
  intros Hm Hi Hid Hkey Hne Hs.
  assert (Ho : orphan ns key (AddPeer (λ _, true) ns id key' ep ips m)).
  { pose proof Hm as [Hd Hf]. specialize (Hf ns). unfold follows in Hf. destruct (vp_ns m !! ns) as [n|] eqn:Hn; [|destruct Hf; congruence].
    destruct Hf as (i' & l & Hi' & Hk & [Hp Hu] & _). assert (i' = i) as -> by congruence.
    unfold AddPeer. rewrite Hi, exec_works; [|done|cbn; by rewrite Hk]. split_and!; [done|by eexists|].
    cbn. rewrite !lookup_alter_eq, Hi, Hk. eexists _, _. split_and!; [done..| |]; cbn.
    - apply elem_of_union_r, Hp. by exists id, p.
    - intros id' p' [[<- <-]|[Hne' Hid']]%lookup_insert_Some; cbn; [done|]. intros E. apply Hne'.
      eapply Hu; [done..|]. by rewrite Hkey. }
  assert (Ho' : orphan ns key m').
  { apply (orphan_step ns key (OpLeave ns id)) in Ho; [|by intros []..].
    eapply rtc_invariant; [|exact Ho|exact Hs]. intros a b Ha (op & [Hr Hj] & ->). by apply orphan_step. }
  destruct Ho' as (_ & _ & i' & l & H1 & H2 & H3 & H4). by exists i', l.
Qed.

(** When the link of a namespace cannot be made, or is there from a
    runtime that ended without cleaning up, the namespace is recorded without
    an interface, and nothing but deleting it makes up for that; meanwhile
    joins are answered as done. *)
Theorem failed_interface_is_final (m m' : VPNManager) (ns : string) (ok : nat → bool) :
  m.(vp_dry) = false → m.(vp_ns) !! ns = None → m.(vp_ifaces) !! wg ns = None →
  is_Some (m.(vp_machine) !! wg ns) ∨ ok m.(vp_execs) = false →
  rtc (λ a b, ∃ ok op, ¬ removes ns op ∧ b = run_op ok op a) (CreateNamespace ok ns m) m' →
  is_Some (m'.(vp_ns) !! ns) ∧ m'.(vp_ifaces) !! wg ns = None ∧
  ∀ ok params, ns ≠ "" → param params "namespace" = ns → param params "client_id" ≠ "" →
    vpn_action ok "vpn.join" params m' =
      (Ok (answer [("namespace", ns); ("client_id", param params "client_id"); ("status", "joined")]), m').
Proof.
  intros Hd Hn Hi Hf Hs. assert (H : given_up ns (CreateNamespace ok ns m)).
  { unfold CreateNamespace. rewrite Hn. unfold createInterface.
    assert (He : (exec ok (LinkAdd (wg ns)) (set_ns <[ns:=mkNamespaceState ns ∅]> m)) =
      (false, mkVPN (<[ns:=mkNamespaceState ns ∅]> m.(vp_ns)) m.(vp_ifaces) false m.(vp_machine) (S m.(vp_execs)))).
    { unfold exec. cbn. rewrite Hd. destruct Hf as [[l ->]| ->]; [done|]. by rewrite andb_false_r. }
    rewrite He. split; cbn; [by rewrite lookup_insert_eq|done]. }
  assert (H' : given_up ns m').
  { eapply rtc_invariant; [|exact H|exact Hs]. intros a b Ha (ok' & op & Hr & ->). by apply given_up_step. }
  destruct H' as [H1 H2]. split_and!; [done..|]. intros ok' params He Hp Hc. unfold vpn_action. rewrite Hp.
  do 3 (rewrite decide_False by done). rewrite decide_True by done. rewrite decide_False by (by intros [?|?]).
  unfold AddPeer. by rewrite H2.
Qed.

(** The third number of an address: in range for names of up to twelve
    bytes, although 255 of them share an address; for longer ones the hash
    overflows and the number can be negative, so that no address comes out. *)
Theorem addresses :
  (∀ ns, String.length ns <= 12 → (1 <= octet ns <= 254)%Z) ∧
  (∀ ns, (-252 <= octet ns <= 254)%Z) ∧
  (∀ l, NoDup l → (∀ ns, ns ∈ l → String.length ns <= 12) → 254 < length l →
     ∃ a b, a ∈ l ∧ b ∈ l ∧ a ≠ b ∧ allocateIP a = allocateIP b) ∧
  allocateIP "production-eu" = "10.0.-147.1/24" ∧ String.length "production-eu" = 13.
Proof.
  split_and!; [apply octet_short|apply octet_range| |vm_compute; reflexivity|reflexivity].
  intros l Hl Hs Hlen. assert (Hd : ¬ NoDup (octet <$> l)).
  { intros Hd. assert (Hsub : octet <$> l ⊆+ seqZ 1 254).
    { apply NoDup_submseteq; [done|]. intros z (ns & -> & Hns)%list_elem_of_fmap.
      apply elem_of_seqZ. pose proof (octet_short ns (Hs _ Hns)). lia. }
    apply submseteq_length in Hsub. rewrite length_fmap, length_seqZ in Hsub. lia. }
  destruct (not_NoDup_fmap _ _ Hl Hd) as (a & b & ? & ? & ? & E). exists a, b. split_and!; try done.
  unfold allocateIP. by rewrite E.
Qed.

(** The events of a namespace that the server adds and deletes arrive in
    that order, but run in goroutines of their own: the runtime can end with
    the link of a namespace that is gone, or without. *)
Theorem namespace_events_race (fmt_time : Z → string) (marshal_json : json → bytes) (unmarshal_json : bytes → option json)
    (added deleted : GenericEvent) (ns space : string) (m : VPNManager) :
  added.(ge_Resource) = mkResourceKey "namespace" space ns → added.(ge_EventType) = "ADDED" →
  deleted.(ge_Resource) = mkResourceKey "namespace" space ns → deleted.(ge_EventType) = "DELETED" →
  mirrors m → m.(vp_ns) !! ns = None →
  let evs := received_events unmarshal_json [event_batch fmt_time marshal_json added; event_batch fmt_time marshal_json deleted] in
  ∃ m1 m2, rtc (dispatch_step (λ _, true)) (evs, m) ([], m1) ∧ rtc (dispatch_step (λ _, true)) (evs, m) ([], m2) ∧
    m1.(vp_machine) !! wg ns = None ∧
    is_Some (m2.(vp_machine) !! wg ns) ∧ is_Some (m2.(vp_ns) !! ns).
Proof.
  intros Ra Ta Rd Td Hm Hn evs. set (ea := pbToEvent unmarshal_json (mkPluginEvent (ge_ID added) (ge_Sequence added) (ge_Timestamp added)
    (Some (ge_Resource added)) (ge_EventType added) (marshal_json (to_json fmt_time (ge_Payload added))))).
  set (ed := pbToEvent unmarshal_json (mkPluginEvent (ge_ID deleted) (ge_Sequence deleted) (ge_Timestamp deleted)
    (Some (ge_Resource deleted)) (ge_EventType deleted) (marshal_json (to_json fmt_time (ge_Payload deleted))))).
  assert (Ha : ∀ m, handle_event (λ _, true) ea m = CreateNamespace (λ _, true) ns m).
  { intros m'. rewrite handle_added by (cbn; by rewrite ?Ra, ?Ta). cbn. by rewrite Ra. }
  assert (Hd : ∀ m, handle_event (λ _, true) ed m = DeleteNamespace (λ _, true) ns m).
  { intros m'. rewrite handle_deleted by (cbn; by rewrite ?Rd, ?Td). cbn. by rewrite Rd. }
  exists (DeleteNamespace (λ _, true) ns (CreateNamespace (λ _, true) ns m)), (CreateNamespace (λ _, true) ns (DeleteNamespace (λ _, true) ns m)).
  assert (H1 : mirrors (DeleteNamespace (λ _, true) ns (CreateNamespace (λ _, true) ns m)))
    by by apply DeleteNamespace_mirrors, CreateNamespace_mirrors.
  assert (H2 : mirrors (CreateNamespace (λ _, true) ns (DeleteNamespace (λ _, true) ns m)))
    by by apply CreateNamespace_mirrors, DeleteNamespace_mirrors.
  assert (N1 : (DeleteNamespace (λ _, true) ns (CreateNamespace (λ _, true) ns m)).(vp_ns) !! ns = None) by (cbn; by rewrite lookup_delete_eq).
  assert (N2 : is_Some ((CreateNamespace (λ _, true) ns (DeleteNamespace (λ _, true) ns m)).(vp_ns) !! ns)).
  { apply create_recorded. }
  split_and!.
  - eapply rtc_l; [apply (VHandle _ 0 ea); reflexivity|]. eapply rtc_l; [apply (VHandle _ 0 ed); reflexivity|]. cbn. by rewrite Ha, Hd.
  - eapply rtc_l; [apply (VHandle _ 1 ed); reflexivity|]. eapply rtc_l; [apply (VHandle _ 0 ea); reflexivity|]. cbn. by rewrite Ha, Hd.
  - pose proof (mi_ns _ H1 ns) as Hf. unfold follows in Hf. rewrite N1 in Hf. apply Hf.
  - pose proof (mi_ns _ H2 ns) as Hf. unfold follows in Hf. destruct N2 as [n E]. rewrite E in Hf.
    destruct Hf as (i & l & _ & -> & _). by eexists.
  - done.
Qed.

(** *** At concrete inputs *)

Abbreviation works := (λ _ : nat, true).
Definition clean : VPNManager := NewVPNManager false ∅.
Definition with_home : VPNManager := CreateNamespace works "home" clean.
Definition with_cam : VPNManager := AddPeer works "home" "cam" "K1" "" "" with_home.

Lemma home_iface : with_home.(vp_ifaces) !! wg "home" = Some (mkIfaceState "wg-home" "home" "10.0.142.1/24" ∅).
Proof. vm_compute. reflexivity. Qed.
Lemma cam_own_key : own_key with_home (OpJoin "home" "cam" "K1" "" "").
Proof. intros i Hi id p Hid. rewrite home_iface in Hi. injection Hi as <-. cbn in Hid. by rewrite lookup_empty in Hid. Qed.
Lemma clean_run : vpn_run own_key clean with_cam.
Proof.
  eapply rtc_l; [exists (OpCreate "home"); by split|]. apply rtc_once. exists (OpJoin "home" "cam" "K1" "" "").
  split; [exact cam_own_key|reflexivity].
Qed.
Lemma clean_mirrors : mirrors clean.
Proof. split; [done|]. by intros. Qed.
Lemma cam_mirrors : mirrors with_cam.
Proof.
  apply AddPeer_mirrors; [by apply CreateNamespace_mirrors, clean_mirrors|exact cam_own_key].
Qed.

Lemma machine_follows_manager_witness :
  ∃ l, with_cam.(vp_machine) !! "wg-home" = Some l ∧ l.(ln_up) = true ∧ "K1" ∈ l.(ln_peers).
Proof.
  pose proof (machine_follows_manager ∅ with_cam "home" (λ _, lookup_empty _) clean_run) as H.
  vm_compute in H. destruct H as (i & l & Hi & Hl & Hu & _ & Hk). exists l. split; [exact Hl|]. split; [exact Hu|].
  apply Hk. injection Hi as <-. by exists "cam", (mkPeerState "cam" "K1" "" [""]).
Defined.

Lemma rejoin_leaves_old_key_witness :
  let m := RemovePeer works "home" "cam" (AddPeer works "home" "cam" "K2" "" "" with_cam) in
  ∃ i l, m.(vp_ifaces) !! "wg-home" = Some i ∧ m.(vp_machine) !! "wg-home" = Some l ∧ "K1" ∈ l.(ln_peers) ∧
    ∀ id p, i.(if_Peers) !! id = Some p → p.(pr_PublicKey) ≠ "K1".
Proof.
  intros m. refine (rejoin_leaves_old_key with_cam m "home" "cam" "K1" "K2" "" "" _ _ cam_mirrors _ _ _ _ (rtc_refl _ _)).
  - vm_compute. reflexivity.
  - vm_compute. reflexivity.
  - reflexivity.
  - discriminate.
Defined.

(** The link of an earlier runtime. *)
Definition left_over : VPNManager := NewVPNManager false {["wg-home" := mkLink None true ∅]}.
Lemma failed_interface_is_final_witness :
  let m := CreateNamespace works "home" left_over in
  is_Some (m.(vp_ns) !! "home") ∧ m.(vp_ifaces) !! "wg-home" = None.
Proof.
  intros m. destruct (failed_interface_is_final left_over m "home" works) as (H1 & H2 & _); [done..| |apply rtc_refl|by split].
  left. vm_compute. by eexists.
Defined.

Lemma namespace_events_race_witness :
  let ev := λ t, NewGenericEvent "" 0 (mkResourceKey "namespace" "default" "home") t ANil in
  let evs := received_events (λ _, None) [event_batch (λ _, "") (λ _, []) (ev "ADDED"); event_batch (λ _, "") (λ _, []) (ev "DELETED")] in
  ∃ m1 m2, rtc (dispatch_step works) (evs, clean) ([], m1) ∧ rtc (dispatch_step works) (evs, clean) ([], m2) ∧
    m1.(vp_machine) !! "wg-home" = None ∧ is_Some (m2.(vp_machine) !! "wg-home").
Proof.
  intros ev evs. destruct (namespace_events_race (λ _, "") (λ _, []) (λ _, None) (ev "ADDED") (ev "DELETED") "home" "default" clean)
    as (m1 & m2 & H1 & H2 & H3 & H4 & _); [reflexivity..|exact clean_mirrors|reflexivity|]. exists m1, m2. by split_and!.
Defined.
