(* ===== verification/Tunnels.v ===== *)
(** * The other tunnels (BBgrid_Client/handler/handler.go, session/server.go)

    Besides the TCP tunnel of [Client] the handler has one for UDP, whose
    connection carries packets with a header of four bytes, and one over a
    WebSocket, which the server answers in [HandleTunnel].  A connection is
    the bytes it still delivers; a WebSocket is the messages. *)

From S2P Require Import Prelude Types Proto Wire Dataplane.

(** ** The UDP tunnel *)

(** What the network does in one round of [runTunnelUDP]: dialling, the three
    writes, and what the server sends until the deadline. *)
Record udp_env := mkUdpEnv {
  ue_dial : bool;
  ue_magic : bool;
  ue_length : bool;
  ue_token : bool;
  ue_reply : bytes;
}.

(** [uint16(len(tokenBytes))] *)
Definition udp_token_length (token : string) : Z := (Z.of_nat (String.length token) `mod` 2 ^ 16)%Z.
Definition udp_auth (token : string) : bytes :=
  list_ascii_of_string "TUNL" ++ be_encode 2 (udp_token_length token) ++ list_ascii_of_string token.

(** One round up to [handleUDPTunnel]: what is written, and what the
    connection still brings when the acknowledgement was right. *)
Definition udp_connect (env : udp_env) (token : string) : bytes * Res bytes :=
  let magic := list_ascii_of_string "TUNL" in
  let header := magic ++ be_encode 2 (udp_token_length token) in
  if negb env.(ue_dial) then ([], Err "dial")
  else if negb env.(ue_magic) then ([], Err "write magic")
  else if negb env.(ue_length) then (magic, Err "write token length")
  else if negb env.(ue_token) then (header, Err "write token")
  else match ReadFull 1 env.(ue_reply) with
  | (Err e, _) => (udp_auth token, Err e)
  | (Ok ack, rest) => (udp_auth token, if decide (ack = ["001"%char]) then Ok rest else Err "invalid ack")
  end.

(** The loop: [None] is the cancelled context, seen before a round.  Each
    round makes a new connection with the same token. *)
Fixpoint runTunnelUDP (token : string) (rounds : list (option udp_env)) : list (bytes * Res bytes) :=
  match rounds with
  | [] | None :: _ => []
  | Some env :: rounds => udp_connect env token :: runTunnelUDP token rounds
  end.

(** *** Packets *)

(** [handleUDPTunnel], the goroutine that reads: the header, the check and
    the data.  The port is read and not used. *)
Definition read_packet (conn : bytes) : Res bytes * bytes :=
  match ReadFull 2 conn with
  | (Err e, c1) => (Err e, c1)
  | (Ok _, c1) =>
      match ReadFull 2 c1 with
      | (Err e, c2) => (Err e, c2)
      | (Ok len, c2) =>
          let dataLen := be_decode len in
          if decide (65535 < dataLen)%Z then (Err "packet too large", c2)
          else ReadFull (Z.to_nat dataLen) c2
      end
  end.

(** The datagrams sent to the local service, and the error that ended the
    loop; [ok i] is whether the [i]th write is taken.  Every packet has a
    header, so there are no more of them than bytes. *)
Fixpoint to_local (ok : nat → bool) (fuel i : nat) (conn : bytes) : list bytes * string :=
  match fuel with
  | 0 => ([], "fuel")
  | S fuel =>
      match read_packet conn with
      | (Err e, _) => ([], e)
      | (Ok data, rest) =>
          let '(sent, e) := to_local ok fuel (S i) rest in
          (if ok i then data :: sent else sent, e)
      end
  end.
Definition udp_to_local (ok : nat → bool) (conn : bytes) : list bytes * string := to_local ok (S (length conn)) 0 conn.

(** [PutUint16] keeps 16 bits. *)
Definition udp_packet (port : Z) (data : bytes) : bytes :=
  be_encode 2 (port `mod` 2 ^ 16)%Z ++ be_encode 2 (Z.of_nat (length data) `mod` 2 ^ 16)%Z ++ data.

Definition udp_buffer : Z := 65535.

(** The loop that answers, for the datagrams the local service sends and
    what becomes of each write: [None] when it is taken, else how much of it
    gets out before the error. *)
Fixpoint to_server (port : Z) (responses : list (bytes * option nat)) : list bytes :=
  match responses with
  | [] => []
  | (datagram, fault) :: responses =>
      let data := take (Z.to_nat udp_buffer) datagram in
      if decide (data = []) then to_server port responses
      else match fault with
      | Some k => [take k (udp_packet port data)]
      | None => udp_packet port data :: to_server port responses
      end
  end.

(** ** The WebSocket tunnel *)

(** The values that are written, and what they are as JSON values: a
    [WSMessage] without data leaves the field out. *)
Inductive tunnel_message := TunnelAuth (token : string) | TunnelError (message : string) | TunnelReady.

Definition tunnel_value (m : tunnel_message) : any :=
  match m with
  | TunnelAuth token =>
      AMap (<["type" := AString "tunnel_auth"]> $ <["data" := AMap (<["token" := AString token]> ∅)]> ∅)
  | TunnelError message =>
      AMap (<["type" := AString "error"]> $
            <["data" := AMap (<["code" := AFloat64 (float64_of_Z 400)]> $ <["message" := AString message]> ∅)]> ∅)
  | TunnelReady => AMap (<["type" := AString "tunnel_ready"]> ∅)
  end.

(** encoding/json on these messages. *)
Record JsonText := mkJsonText { jt_print : tunnel_message → bytes; jt_parse : bytes → Res any }.

(** A control character is not a JSON text. *)
Class JsonTextLaws (jt : JsonText) := {
  parse_print m : jt.(jt_parse) (jt.(jt_print) m) = Ok (tunnel_value m);
  parse_control c : (Z_of_byte c < 32)%Z → is_ok (jt.(jt_parse) [c]) = false;
}.

(** What [HandleTunnel] does when it has told the client that it is ready:
    it reads on, or it fails on [token[:8]]. *)
Inductive handler_end := Returned | Panicked | ReadingOn.

Record tunnel_answer := mkAnswer {
  an_frames : list bytes;
  an_presented : option string;
  an_end : handler_end;
}.

Section websocket.
Context (jt : JsonText).

Definition tunnel_error (message : string) : tunnel_answer :=
  mkAnswer [jt.(jt_print) (TunnelError message)] None Returned.

(** [ReadJSON] into a [WSMessage]. *)
Definition read_WSMessage (v : any) : Res (string * any) :=
  match v with
  | ANil => Ok ("", ANil)
  | AMap m => t ← read_string m "type"; Ok (t, default ANil (m !! "data"))
  | _ => Err "json: cannot unmarshal value"
  end.

(** [pending] is whether the token is in [pendingMap].  [AcceptTunnel] writes
    its acknowledgement first, on the same WebSocket, or closes it, after
    which nothing more is written. *)
Definition HandleTunnel (pending : string → bool) (msg : bytes) : tunnel_answer :=
  match v ← jt.(jt_parse) msg; read_WSMessage v with
  | Err _ => mkAnswer [] None Returned
  | Ok (msgType, data) =>
      if decide (msgType ≠ "tunnel_auth") then tunnel_error "expected tunnel_auth"
      else match data with
      | AMap auth =>
          let token := default "" (as_string (auth !! "token")) in
          if decide (token = "") then tunnel_error "missing token"
          else if pending token then
            mkAnswer [["001"%char]; jt.(jt_print) TunnelReady] (Some token)
              (if decide (String.length token < 8) then Panicked else ReadingOn)
          else mkAnswer [] (Some token) Returned
      | _ => tunnel_error "invalid auth data"
      end
  end.

Definition read_TunnelReadyMsg (v : any) : Res (string * string) :=
  match v with
  | ANil => Ok ("", "")
  | AMap m =>
      t ← read_string m "type";
      status ← match m !! "data" with
               | None | Some ANil => Ok ""
               | Some (AMap d) => read_string d "status"
               | Some _ => Err "json: cannot unmarshal field data"
               end;
      Ok (t, status)
  | _ => Err "json: cannot unmarshal value"
  end.

(** [connectTunnelWS]: [dial] and [write] are whether they succeed, [frames]
    what the server answers; the result is what the multiplexer is left with. *)
Definition connectTunnelWS (dial write : bool) (frames : list bytes) : Res (list bytes) :=
  if negb dial then Err "tunnel ws dial"
  else if negb write then Err "tunnel auth write"
  else match frames with
  | [] => Err "tunnel ready read"
  | frame :: rest =>
      match v ← jt.(jt_parse) frame; read_TunnelReadyMsg v with
      | Err _ => Err "tunnel ready read"
      | Ok (msgType, _) =>
          if decide (msgType ≠ "tunnel_ready") then Err ("tunnel unexpected response type: " +:+ msgType)
          else Ok rest
      end
  end.

(** The address it dials: the port is written into it. *)
Definition tunnelURL (useHTTP : bool) (serverHost : string) : string :=
  (if useHTTP then "ws" else "wss") +:+ "://" +:+ serverHost +:+ ":9909/tunnel".
End websocket.

(** ** Lemmas *)

Lemma udp_length_nat token : Z.of_nat (Z.to_nat (udp_token_length token)) = udp_token_length token.
Proof. apply Z2Nat.id. unfold udp_token_length. apply Z.mod_pos_bound. lia. Qed.

Lemma udp_length_bounds token : (0 <= udp_token_length token < 65536)%Z.
Proof. unfold udp_token_length. apply Z.mod_pos_bound. lia. Qed.

Lemma udp_length_le token : Z.to_nat (udp_token_length token) <= String.length token.
Proof.
  pose proof (udp_length_nat token). unfold udp_token_length in *.
  pose proof (Z.mod_le (Z.of_nat (String.length token)) (2 ^ 16) ltac:(lia) ltac:(lia)). lia.
Qed.

Lemma udp_length_small token : (Z.of_nat (String.length token) < 65536)%Z → udp_token_length token = Z.of_nat (String.length token).
Proof. intros H. unfold udp_token_length. apply Z.mod_small. lia. Qed.

(** What the data plane makes of the frame. *)
Lemma udp_auth_read token rest :
  let n := Z.to_nat (udp_token_length token) in
  let t := list_ascii_of_string token in
  handleTunnelConn true (udp_auth token ++ rest) = Some (string_of_list_ascii (take n t), drop n t ++ rest).
Proof.
  intros n t. apply handleTunnelConn_frame. exists (take n t).
  assert (Hn : length (take n t) = n).
  { rewrite length_take_le; [done|]. unfold t, n. rewrite length_list_ascii_of_string. apply udp_length_le. }
  rewrite Hn. pose proof (udp_length_bounds token). pose proof (udp_length_nat token) as Hz. fold n in Hz.
  split_and!; [done|lia|]. unfold udp_auth. rewrite Hz, <-!app_assoc. do 2 f_equal.
  by rewrite (assoc_L (++)), take_drop.
Qed.

(** *** Packets *)

Lemma ReadFull_short n r : length r < n → ∃ e, ReadFull n r = (Err e, []).
Proof. intros H. unfold ReadFull. rewrite decide_False by lia. by eexists. Qed.

Lemma read_packet_full port data rest :
  (Z.of_nat (length data) <= udp_buffer)%Z → read_packet (udp_packet port data ++ rest) = (Ok data, rest).
Proof.
  unfold udp_buffer. intros Hd. unfold read_packet, udp_packet. rewrite <-!app_assoc.
  rewrite ReadFull_app by apply be_encode_length. rewrite ReadFull_app by apply be_encode_length.
  rewrite be_decode_encode, Z.mod_mod by done. rewrite Z.mod_small by lia.
  rewrite decide_False by lia. rewrite Nat2Z.id. by apply ReadFull_app.
Qed.

Lemma udp_packet_length port data : length (udp_packet port data) = 4 + length data.
Proof. unfold udp_packet. rewrite !length_app, !be_encode_length. lia. Qed.

(** A packet that is cut off is not delivered. *)
Lemma read_packet_cut port data k :
  (Z.of_nat (length data) <= udp_buffer)%Z → k < length (udp_packet port data) →
  ∃ e, read_packet (take k (udp_packet port data)) = (Err e, []).
Proof.
  unfold udp_buffer. intros Hd. rewrite udp_packet_length. intros Hk. unfold read_packet, udp_packet.
  set (h1 := be_encode 2 _). set (h2 := be_encode 2 _).
  assert (H1 : length h1 = 2) by apply be_encode_length. assert (H2 : length h2 = 2) by apply be_encode_length.
  destruct (decide (k < 2)).
  { destruct (ReadFull_short 2 (take k (h1 ++ h2 ++ data))) as [e ->]; [rewrite length_take; lia|by eexists]. }
  rewrite take_app_ge, ReadFull_app by lia. rewrite H1. destruct (decide (k < 4)).
  { destruct (ReadFull_short 2 (take (k - 2) (h2 ++ data))) as [e ->]; [rewrite length_take; lia|by eexists]. }
  rewrite take_app_ge, ReadFull_app by lia. rewrite H2. subst h2.
  rewrite be_decode_encode, Z.mod_mod by done. rewrite Z.mod_small by lia. rewrite decide_False by lia.
  rewrite Nat2Z.id. apply ReadFull_short. rewrite length_take. lia.
Qed.

Definition udp_fits (data : bytes) : Prop := (Z.of_nat (length data) <= udp_buffer)%Z.

Lemma to_local_full port l fuel i :
  Forall udp_fits l → length l < fuel →
  to_local (λ _, true) fuel i (concat (udp_packet port <$> l)) = (l, "EOF").
Proof.
  revert fuel i. induction l as [|d l IH]; intros [|fuel] i Hl Hf; try (cbn in Hf; lia); [done|].
  apply Forall_cons in Hl as [Hd Hl]. cbn [to_local fmap list_fmap concat].
  rewrite read_packet_full by exact Hd. rewrite IH; [done..|cbn in Hf; lia].
Qed.

Lemma to_local_cut port l fuel i k :
  Forall udp_fits l → (to_local (λ _, true) fuel i (take k (concat (udp_packet port <$> l)))).1 `prefix_of` l.
Proof.
  revert fuel i k. induction l as [|d l IH]; intros [|fuel] i k Hl; try apply prefix_nil.
  - cbn. rewrite take_nil. by apply prefix_nil.
  - apply Forall_cons in Hl as [Hd Hl]. cbn [to_local fmap list_fmap concat].
    destruct (decide (k < length (udp_packet port d))) as [Hk|Hk].
    + rewrite take_app_le by lia. destruct (read_packet_cut port d k Hd Hk) as [e ->]. apply prefix_nil.
    + rewrite take_app_ge, read_packet_full by first [lia|exact Hd].
      specialize (IH fuel (S i) (k - length (udp_packet port d)) Hl).
      destruct (to_local _ _ _ _) as [sent e]. by apply prefix_cons.
Qed.

(** What the answering loop takes out of the datagrams. *)
Definition udp_taken (datagrams : list bytes) : list bytes :=
  filter (λ d, d ≠ []) (take (Z.to_nat udp_buffer) <$> datagrams).

Lemma udp_taken_cons d ds :
  udp_taken (d :: ds) =
    if decide (take (Z.to_nat udp_buffer) d = []) then udp_taken ds else take (Z.to_nat udp_buffer) d :: udp_taken ds.
Proof.
  unfold udp_taken. cbn [fmap list_fmap]. rewrite filter_cons. case_decide as H1; case_decide as H2; naive_solver.
Qed.

Lemma udp_taken_fits ds : Forall udp_fits (udp_taken ds).
Proof.
  apply Forall_forall. intros d Hd. apply list_elem_of_filter in Hd as [_ Hd].
  apply list_elem_of_fmap in Hd as (d' & -> & _). unfold udp_fits. rewrite length_take. unfold udp_buffer. lia.
Qed.

Lemma to_server_full port ds :
  to_server port ((λ d, (d, None)) <$> ds) = udp_packet port <$> udp_taken ds.
Proof.
  induction ds as [|d ds IH]; [done|]. rewrite udp_taken_cons. cbn [fmap list_fmap to_server].
  case_decide; [done|]. cbn. by f_equal.
Qed.

(** However it ends, the stream is the beginning of that of all packets. *)
Lemma to_server_prefix port rs :
  concat (to_server port rs) `prefix_of` concat (udp_packet port <$> udp_taken rs.*1).
Proof.
  induction rs as [|[d fault] rs IH]; [done|]. cbn [fmap list_fmap to_server fst]. rewrite udp_taken_cons.
  case_decide; [done|]. cbn [fmap list_fmap concat]. destruct fault as [k|].
  - cbn [concat]. rewrite app_nil_r. apply prefix_app_r. exists (drop k (udp_packet port (take (Z.to_nat udp_buffer) d))).
    by rewrite take_drop.
  - cbn [concat]. by apply prefix_app.
Qed.

(** ** Properties *)

(** C38. The frame of the UDP tunnel is that of the protocol as long as the
    protocol allows the token.  Beyond that it is written all the same, with
    the length taken modulo 65536, so the data plane takes exactly the
    first [length mod 65536] bytes for the token and the others for what the
    client sends through the tunnel; it is the token of the client just
    when its length fits in sixteen bits. *)
Theorem udp_token_length_wraps (token : string) (rest : bytes) :
  let n := Z.to_nat (udp_token_length token) in
  let t := list_ascii_of_string token in
  handleTunnelConn true (udp_auth token ++ rest) = Some (string_of_list_ascii (take n t), drop n t ++ rest) ∧
  (WriteTunnelAuth token = Ok (udp_auth token) ↔ String.length token <= MaxTokenLen) ∧
  (handleTunnelConn true (udp_auth token ++ rest) = Some (token, rest) ↔ (Z.of_nat (String.length token) < 65536)%Z).
Proof.
  intros n t. pose proof (udp_auth_read token rest) as Hr. cbv zeta in Hr. fold n t in Hr. split; [done|split].
  - unfold WriteTunnelAuth, MaxTokenLen. rewrite length_list_ascii_of_string. case_decide as Hl.
    { split; [done|lia]. }
    split; [lia|]. intros _. unfold udp_auth. by rewrite udp_length_small by lia.
  - rewrite Hr. split.
    + intros [= Ht _]. apply (f_equal String.length) in Ht.
      rewrite <-length_list_ascii_of_string, list_ascii_of_string_of_list_ascii, length_take in Ht.
      unfold t in Ht. rewrite length_list_ascii_of_string in Ht. pose proof (udp_length_bounds token). subst n. lia.
    + intros Hl. assert (Hn : n = length t).
      { subst n t. rewrite udp_length_small, length_list_ascii_of_string by done. lia. }
      rewrite take_ge, drop_ge by lia. subst t. by rewrite string_of_list_ascii_of_string.
Qed.

(** C39. The two directions of the UDP tunnel use one format: what the loop
    that answers writes for a sequence of datagrams is read back by the other
    as these datagrams, in order, each cut to the buffer and without the
    empty ones, whatever the port in the header.  When writes fail, or the
    stream is cut anywhere, what is read is a beginning of that: no datagram
    is changed, split or joined with another. *)
Theorem udp_packets_roundtrip (port : Z) (datagrams : list bytes) (rs : list (bytes * option nat)) (k : nat) :
  udp_to_local (λ _, true) (concat (to_server port ((λ d, (d, None)) <$> datagrams))) = (udp_taken datagrams, "EOF") ∧
  (udp_to_local (λ _, true) (take k (concat (to_server port rs)))).1 `prefix_of` udp_taken rs.*1.
Proof.
  split.
  - unfold udp_to_local. rewrite to_server_full. apply to_local_full; [apply udp_taken_fits|].
    induction (udp_taken datagrams) as [|d l IH]; cbn [fmap list_fmap concat length] in *; [lia|].
    rewrite length_app, udp_packet_length. lia.
  - destruct (to_server_prefix port rs) as [more Hmore]. unfold udp_to_local.
    set (stream := concat (to_server port rs)) in *.
    assert (take k stream = take (k `min` length stream) (concat (udp_packet port <$> udp_taken rs.*1))) as ->.
    { rewrite Hmore, take_app_le by lia. destruct (decide (k <= length stream)).
      - by rewrite Nat.min_l.
      - by rewrite Nat.min_r, !take_ge by lia. }
    apply to_local_cut, udp_taken_fits.
Qed.

Section never.
Context (jt : JsonText) `{!JsonTextLaws jt}.

Lemma error_refused dial write message : is_ok (connectTunnelWS jt dial write [jt.(jt_print) (TunnelError message)]) = false.
Proof.
  unfold connectTunnelWS. destruct dial, write; [|done..]. cbn [negb]. rewrite parse_print. cbn. unfold read_string.
  by rewrite lookup_insert_eq.
Qed.

(** A WebSocket tunnel never opens.  Whatever the client sent and
    whatever tokens are pending, the first message of the server is not its
    "tunnel_ready", so the client closes the connection; but a token that was
    sent is presented, and a pending one is used up by it. *)
Theorem websocket_tunnel_never_opens (pending : string → bool) (dial write : bool) (msg : bytes) (token : string) :
  let answer := HandleTunnel jt pending in
  is_ok (connectTunnelWS jt dial write (answer msg).(an_frames)) = false ∧
  (token ≠ "" → (answer (jt.(jt_print) (TunnelAuth token))).(an_presented) = Some token).
Proof.
  intros answer. split.
  - subst answer. unfold HandleTunnel. set (r := mbind _ _). destruct r as [[t data]|e].
    + case_decide; [apply error_refused|]. destruct data as [| | | | | |m| | | |]; try apply error_refused.
      case_decide; [apply error_refused|]. destruct (pending _); cbn [an_frames].
      * unfold connectTunnelWS. destruct dial, write; [|done..]. cbn [negb].
        pose proof (parse_control (jt := jt) "001"%char ltac:(vm_compute; done)) as Hc.
        by destruct (jt.(jt_parse) ["001"%char]).
      * unfold connectTunnelWS. by destruct dial, write.
    + unfold connectTunnelWS. by destruct dial, write.
  - intros Ht. subst answer. unfold HandleTunnel. rewrite parse_print. cbn. unfold read_string.
    rewrite lookup_insert_eq. cbn. rewrite decide_False by (intros H; by apply H).
    rewrite lookup_insert_ne, lookup_insert_eq by done. cbn. rewrite lookup_insert_eq. cbn.
    rewrite decide_False by done. by destruct (pending token).
Qed.
End never.

(** ** Witnesses *)

(** A printer that keeps what is to be read back. *)
Definition plain_json : JsonText := mkJsonText
  (λ m, match m with
        | TunnelAuth t => "a"%char :: list_ascii_of_string t
        | TunnelError e => "e"%char :: list_ascii_of_string e
        | TunnelReady => ["r"%char]
        end)
  (λ b, match b with
        | "a"%char :: t => Ok (tunnel_value (TunnelAuth (string_of_list_ascii t)))
        | "e"%char :: e => Ok (tunnel_value (TunnelError (string_of_list_ascii e)))
        | ["r"%char] => Ok (tunnel_value TunnelReady)
        | _ => Err "invalid character"
        end).
#[export] Instance plain_json_laws : JsonTextLaws plain_json.
Proof.
  split.
  - intros []; cbn; by rewrite ?string_of_list_ascii_of_string.
  - intros [[] [] [] [] [] [] [] []]; vm_compute; done.
Qed.

Example udp_frame : udp_auth "tok" = list_ascii_of_string "TUNL" ++ ["000"; "003"]%char ++ list_ascii_of_string "tok".
Proof. reflexivity. Qed.
Example two_datagrams :
  udp_to_local (λ _, true) (concat (to_server 5353 [(["a"%char], None); ([], None); (["b"; "c"]%char, None)])) =
    ([["a"%char]; ["b"; "c"]%char], "EOF").
Proof. vm_compute. reflexivity. Qed.

Lemma websocket_tunnel_never_opens_witness :
  is_ok (connectTunnelWS plain_json true true
           (HandleTunnel plain_json (λ t, bool_decide (t = "secret-token")) (plain_json.(jt_print) (TunnelAuth "secret-token"))).(an_frames)) = false ∧
  (HandleTunnel plain_json (λ t, bool_decide (t = "secret-token")) (plain_json.(jt_print) (TunnelAuth "secret-token"))).(an_presented)
    = Some "secret-token".
Proof.
  destruct (websocket_tunnel_never_opens plain_json (λ t, bool_decide (t = "secret-token")) true true
              (plain_json.(jt_print) (TunnelAuth "secret-token")) "secret-token") as [H1 H2].
  split; [exact H1|by apply H2].
Defined.
