(* ===== verification/Punch.v ===== *)
(** * Hole punching (common/relay/holepunch.go)

    Two clients that want a direct connection send each other packets with
    the token they share.  A UDP side sends until it is answered; the TCP
    handshake is symmetric.  A datagram and a stream are lists of bytes; the
    network between two UDP sides loses, repeats and reorders. *)

From S2P Require Import Prelude Proto.

Definition PunchMagic : Z := 80.
Definition PunchAckMagic : Z := 65.
Definition MaxPacketSize : Z := 65507.

(** ** UDP *)

(** The packet sent on every tick: the length is one byte. *)
Definition punch_packet (magic : Z) (token : string) : bytes :=
  byte_of_Z magic :: byte_of_Z (Z.of_nat (String.length token)) :: list_ascii_of_string token.

(** [copy] into a slice of length [n]: what does not fit is dropped, what is
    missing stays zero. *)
Definition copy_into (n : nat) (src : bytes) : bytes := take n (src ++ replicate n "000"%char).

(** What a datagram does to a side that is punching: nothing, or it is
    established, with the answer it sends. *)
Inductive punched := Ignored | Established (answer : option bytes).
#[export] Instance punched_eq_dec : EqDecision punched.
Proof. solve_decision. Defined.

Definition receive_punch (token : string) (datagram : bytes) : punched :=
  match take (Z.to_nat MaxPacketSize) datagram with
  | magic :: len :: body =>
      if decide (Z_of_byte magic ≠ PunchMagic ∧ Z_of_byte magic ≠ PunchAckMagic) then Ignored
      else
        let tokLen := Z.to_nat (Z_of_byte len) in
        if decide (length body < tokLen) then Ignored
        else
          let recvToken := string_of_list_ascii (take tokLen body) in
          if decide (Z_of_byte magic = PunchMagic ∧ recvToken = token) then
            Established (Some (byte_of_Z PunchAckMagic :: byte_of_Z (Z.of_nat tokLen) ::
                                 copy_into tokLen (list_ascii_of_string token)))
          else if decide (Z_of_byte magic = PunchAckMagic ∧ recvToken = token) then Established None
          else Ignored
  | _ => Ignored
  end.

(** *** Two sides *)

Inductive side := Here | There.
#[export] Instance side_eq_dec : EqDecision side.
Proof. solve_decision. Defined.
Definition other (x : side) : side := match x with Here => There | There => Here end.

(** Where [UDPPunch] is at a side: in its loop, returned with the connection,
    or with an error. *)
Inductive punch_phase := Punching | Connected | GivenUp.

Record Punch := mkPunch {
  pn_phase : side → punch_phase;
  (* the datagrams on their way to a side *)
  pn_flight : side → list bytes;
}.
Definition upd {A} (x : side) (a : A) (f : side → A) : side → A := λ y, if decide (y = x) then a else f y.
Definition new_punch : Punch := mkPunch (λ _, Punching) (λ _, []).

Definition send_to (x : side) (d : option bytes) (p : Punch) : Punch :=
  mkPunch p.(pn_phase) (upd x (p.(pn_flight) x ++ option_list d) p.(pn_flight)).
Definition set_phase (x : side) (ph : punch_phase) (p : Punch) : Punch := mkPunch (upd x ph p.(pn_phase)) p.(pn_flight).

(** A side that has returned does not read any more. *)
Definition deliver (token : string) (x : side) (d : bytes) (p : Punch) : Punch :=
  match p.(pn_phase) x with
  | Punching =>
      match receive_punch token d with
      | Ignored => p
      | Established answer => set_phase x Connected (send_to (other x) answer p)
      end
  | _ => p
  end.

(** [token x] is the token of the side. *)
Inductive punch_step (token : side → string) (p : Punch) : Punch → Prop :=
| PTick x : p.(pn_phase) x = Punching →
    punch_step token p (send_to (other x) (Some (punch_packet PunchMagic (token x))) p)
| PDeliver x d : d ∈ p.(pn_flight) x → punch_step token p (deliver (token x) x d p)
| PLose x l : l ⊆ p.(pn_flight) x → punch_step token p (mkPunch p.(pn_phase) (upd x l p.(pn_flight)))
| PTimeout x : p.(pn_phase) x = Punching → punch_step token p (set_phase x GivenUp p).

(** ** TCP *)

Definition tcp_auth (token : string) : bytes := punch_packet PunchMagic token.

(** The length of the token of the peer and the rest of the stream. *)
Definition readPeerAuth (expected : string) (conn : bytes) : Res nat * bytes :=
  match ReadFull 2 conn with
  | (Err e, c1) => (Err e, c1)
  | (Ok header, c1) =>
      let tokLen := be_decode (drop 1 header) in
      if decide (be_decode (take 1 header) ≠ PunchMagic) then (Err "invalid magic", c1)
      else if decide (tokLen < 1 ∨ 256 < tokLen)%Z then (Err "invalid token length", c1)
      else match ReadFull (Z.to_nat tokLen) c1 with
      | (Err e, c2) => (Err e, c2)
      | (Ok buf, c2) =>
          if decide (string_of_list_ascii buf ≠ expected) then (Err "token mismatch", c2)
          else (Ok (Z.to_nat tokLen), c2)
      end
  end.

(** What is written, and what is left of the stream when it succeeds;
    [auth_sent] and [ack_sent] are whether the writes do. *)
Definition tcpHandshake (auth_sent ack_sent : bool) (token : string) (conn : bytes) : bytes * Res bytes :=
  if negb auth_sent then ([], Err "write auth")
  else match readPeerAuth token conn with
  | (Err _, _) => (tcp_auth token, Err "read peer auth")
  | (Ok _, c1) =>
      if negb ack_sent then (tcp_auth token, Err "write ack")
      else
        let written := tcp_auth token ++ [byte_of_Z PunchAckMagic] in
        match ReadFull 1 c1 with
        | (Err _, _) => (written, Err "read peer ack")
        | (Ok resp, c2) =>
            (written, if decide (be_decode resp ≠ PunchAckMagic) then Err "invalid ack" else Ok c2)
        end
  end.

(** One round of the loop of [TCPPunch]: the dial and the handshake. *)
Record tcp_env := mkTcpEnv { te_dial : bool; te_auth : bool; te_ack : bool; te_conn : bytes }.

(** [None] is the end of the context.  Only failed dials are counted against
    the limit, but failed handshakes count too: the next failed dial ends it. *)
Fixpoint TCPPunch (token : string) (tryCount : nat) (rounds : list (option tcp_env)) : Res bytes :=
  match rounds with
  | [] | None :: _ => Err "context"
  | Some env :: rounds =>
      if negb env.(te_dial) then
        if decide (5 < S tryCount) then Err "tcp punch failed" else TCPPunch token (S tryCount) rounds
      else match (tcpHandshake env.(te_auth) env.(te_ack) token env.(te_conn)).2 with
      | Ok rest => Ok rest
      | Err _ => TCPPunch token (S tryCount) rounds
      end
  end.

(** ** Lemmas *)

Lemma byte_small z : (0 <= z < 256)%Z → Z_of_byte (byte_of_Z z) = z.
Proof. intros Hz. rewrite Z_of_byte_of_Z. by apply Z.mod_small. Qed.

Lemma byte_eq b z : (0 <= z < 256)%Z → Z_of_byte b = z ↔ b = byte_of_Z z.
Proof.
  intros Hz. split; [intros <-; by rewrite byte_of_Z_of_byte|intros ->; by apply byte_small].
Qed.

Definition fits_byte (token : string) : Prop := String.length token <= 255.

(** A header with a length byte and a body that starts with the token. *)
Lemma token_read token len (body : bytes) :
  Z.to_nat (Z_of_byte len) <= length body →
  string_of_list_ascii (take (Z.to_nat (Z_of_byte len)) body) = token ↔
  fits_byte token ∧ len = byte_of_Z (Z.of_nat (String.length token)) ∧ ∃ junk, body = list_ascii_of_string token ++ junk.
Proof.
  unfold fits_byte. pose proof (Z_of_byte_bounds len) as Hb. intros Hl. split.
  - intros <-. rewrite <-!length_list_ascii_of_string, !list_ascii_of_string_of_list_ascii.
    rewrite length_take_le by done. split_and!; [lia| |].
    + apply byte_eq; lia.
    + exists (drop (Z.to_nat (Z_of_byte len)) body). by rewrite take_drop.
  - intros (Hf & -> & junk & ->). rewrite byte_small by lia. rewrite Nat2Z.id.
    rewrite take_app_le, take_ge; rewrite ?length_list_ascii_of_string; [|done..].
    apply string_of_list_ascii_of_string.
Qed.

Lemma copy_into_exact (src : bytes) : copy_into (length src) src = src.
Proof. unfold copy_into. by rewrite take_app_le, take_ge by done. Qed.

(** What is accepted: the packet of the token, whatever follows it. *)
Lemma receive_punch_spec token d answer :
  receive_punch token d = Established answer ↔
  fits_byte token ∧ ∃ magic junk,
    take (Z.to_nat MaxPacketSize) d = punch_packet magic token ++ junk ∧
    (magic = PunchMagic ∧ answer = Some (punch_packet PunchAckMagic token) ∨ magic = PunchAckMagic ∧ answer = None).
Proof.
  unfold receive_punch. set (t := take _ d). split.
  - destruct t as [|m [|len body]]; [done..|]. case_decide as Hm; [done|]. case_decide as Hl; [done|].
    apply not_lt in Hl. case_decide as H1; [|case_decide as H2; [|done]]; intros [= <-].
    + destruct H1 as [H1 Ht]. assert (Htl : String.length token = Z.to_nat (Z_of_byte len)).
      { rewrite <-Ht, <-length_list_ascii_of_string, list_ascii_of_string_of_list_ascii, length_take. lia. }
      apply token_read in Ht as (Hf & Hlen & junk & ->); [|done]. split; [done|]. exists PunchMagic, junk.
      apply byte_eq in H1 as ->; [|done]. split; [by rewrite Hlen|]. left. split; [done|]. f_equal.
      rewrite <-Htl. unfold punch_packet. do 2 f_equal. by rewrite <-length_list_ascii_of_string, copy_into_exact.
    + destruct H2 as [H2 Ht]. apply token_read in Ht as (Hf & -> & junk & ->); [|done]. split; [done|].
      exists PunchAckMagic, junk. apply byte_eq in H2 as ->; [|done]. split; [done|]. by right.
  - intros (Hf & magic & junk & -> & Hm). cbn [punch_packet app].
    set (len := byte_of_Z (Z.of_nat (String.length token))). assert (Hn : Z.to_nat (Z_of_byte len) = String.length token).
    { unfold len, fits_byte in *. rewrite byte_small by lia. apply Nat2Z.id. }
    assert (Hb : ¬ length (list_ascii_of_string token ++ junk) < Z.to_nat (Z_of_byte len)).
    { rewrite length_app, length_list_ascii_of_string. lia. }
    assert (Ht : string_of_list_ascii (take (Z.to_nat (Z_of_byte len)) (list_ascii_of_string token ++ junk)) = token).
    { apply token_read; [lia|]. split_and!; [done..|by eexists]. }
    destruct Hm as [[-> ->]|[-> ->]]; rewrite byte_small by done.
    + rewrite decide_False by (intros [H _]; by apply H). rewrite decide_False by done. rewrite decide_True by done.
      rewrite Hn. rewrite <-length_list_ascii_of_string at 2. by rewrite copy_into_exact.
    + rewrite decide_False by (intros [_ H]; by apply H). rewrite decide_False by done.
      rewrite decide_False by (intros [H _]; discriminate H). by rewrite decide_True.
Qed.

Lemma take_packet magic token :
  fits_byte token → take (Z.to_nat MaxPacketSize) (punch_packet magic token) = punch_packet magic token ++ [].
Proof.
  unfold fits_byte, MaxPacketSize. intros H. rewrite app_nil_r. apply take_ge. cbn [length punch_packet].
  rewrite length_list_ascii_of_string. lia.
Qed.

(** *** Two sides *)

Lemma upd_eq {A} (x : side) (a : A) f : upd x a f x = a.
Proof. unfold upd. by rewrite decide_True. Qed.
Lemma upd_ne {A} (x y : side) (a : A) f : y ≠ x → upd x a f y = f y.
Proof. intros H. unfold upd. by rewrite decide_False. Qed.
Lemma other_ne x : other x ≠ x.
Proof. by destruct x. Qed.
Lemma other_other x : other (other x) = x.
Proof. by destruct x. Qed.

(** Nothing travels but packets of the other side. *)
Definition from_peer (token : side → string) (p : Punch) : Prop :=
  ∀ x d, d ∈ p.(pn_flight) x → ∃ magic, d = punch_packet magic (token (other x)).

Lemma send_from_peer token x magic p :
  from_peer token p → from_peer token (send_to (other x) (Some (punch_packet magic (token x))) p).
Proof.
  intros Hp y d. cbn. unfold upd. case_decide as Hy; [|by apply Hp]. subst y.
  rewrite elem_of_app, list_elem_of_singleton. intros [Hd| ->]; [by apply Hp|]. exists magic. by rewrite other_other.
Qed.

Lemma packet_inj magic magic' a b junk junk' :
  fits_byte a → fits_byte b → punch_packet magic a ++ junk = punch_packet magic' b ++ junk' → a = b.
Proof.
  unfold fits_byte. intros Ha Hb [= _ Hlen Heq]. apply (f_equal Z_of_byte) in Hlen. rewrite !byte_small in Hlen by lia.
  rewrite <-(string_of_list_ascii_of_string a), <-(string_of_list_ascii_of_string b). f_equal.
  apply (f_equal (take (String.length a))) in Heq.
  rewrite take_app_le, take_ge in Heq by (rewrite length_list_ascii_of_string; lia).
  rewrite take_app_le, take_ge in Heq by (rewrite length_list_ascii_of_string; lia). done.
Qed.

Definition agreed (token : side → string) (p : Punch) : Prop :=
  ∀ x, p.(pn_phase) x = Connected → fits_byte (token x) ∧ (fits_byte (token (other x)) → token x = token (other x)).

Lemma punch_step_ok token p p' :
  punch_step token p p' → from_peer token p ∧ agreed token p → from_peer token p' ∧ agreed token p'.
Proof.
  intros Hstep [Hp Ha]. destruct Hstep as [x Hx|x d Hd|x l Hl|x Hx].
  - split; [by apply send_from_peer|exact Ha].
  - unfold deliver. destruct (p.(pn_phase) x) eqn:Hx; [|done..].
    destruct (receive_punch (token x) d) as [|answer] eqn:Hr; [done|].
    apply receive_punch_spec in Hr as (Hf & magic & junk & Ht & Hans). split.
    + assert (Hs : from_peer token (send_to (other x) answer p)).
      { destruct Hans as [[_ ->]|[_ ->]]; [by apply send_from_peer|]. intros y d' Hd'. apply Hp. revert Hd'. cbn.
        unfold upd. case_decide as Hy; [|done]. subst y. by rewrite app_nil_r. }
      exact Hs.
    + intros y. cbn. unfold upd at 1. case_decide as Hy; [|by apply Ha]. subst y. intros _. split; [done|]. intros Hf'.
      destruct (Hp _ _ Hd) as [magic' ->]. rewrite take_packet in Ht by done.
      symmetry. by eapply packet_inj.
  - split; [|exact Ha]. intros y d. cbn. unfold upd. case_decide as Hy; [subst y; intros Hd; apply Hp; by apply Hl|apply Hp].
  - split; [exact Hp|]. intros y. cbn. unfold upd. case_decide; [done|apply Ha].
Qed.

(** One side is connected and the other hears nothing more. *)
Definition one_sided (p : Punch) : Prop :=
  p.(pn_phase) Here = Connected ∧ p.(pn_phase) There ≠ Connected ∧ p.(pn_flight) There = [].

Lemma one_sided_step token p p' : punch_step token p p' → one_sided p → one_sided p'.
Proof.
  intros Hstep (H1 & H2 & H3). destruct Hstep as [[] Hx|[] d Hd|[] l Hl|[] Hx]; try congruence; try done.
  - unfold deliver. by rewrite H1.
  - rewrite H3 in Hd. by apply not_elem_of_nil in Hd.
  - split_and!; [done..|]. cbn. rewrite H3 in Hl. by apply list_nil_subseteq in Hl.
Qed.

(** *** TCP *)

Lemma be_decode_1 b : be_decode [b] = Z_of_byte b.
Proof. cbn. rewrite Z.shiftl_0_r. lia. Qed.

Lemma readPeerAuth_spec token conn n rest :
  readPeerAuth token conn = (Ok n, rest) ↔
  n = String.length token ∧ 1 <= n <= 255 ∧ conn = tcp_auth token ++ rest.
Proof.
  unfold readPeerAuth, tcp_auth, punch_packet. split.
  - destruct (ReadFull 2 conn) as [[h|e] c1] eqn:E1; [|done]. apply ReadFull_ok in E1 as [-> Hl].
    destruct h as [|m [|len [|]]]; try done. cbn [take drop]. rewrite !be_decode_1.
    case_decide as Hm; [done|]. apply byte_eq in Hm as ->; [|done]. case_decide as Hr; [done|].
    destruct (ReadFull _ c1) as [[t|e] c2] eqn:E2; [|done]. apply ReadFull_ok in E2 as [-> Ht].
    case_decide as Heq; [done|]. subst token. intros [= <- <-].
    pose proof (Z_of_byte_bounds len). rewrite <-length_list_ascii_of_string, list_ascii_of_string_of_list_ascii.
    split_and!; [lia..|]. cbn. do 2 f_equal. rewrite Ht, Z2Nat.id by lia. by rewrite byte_of_Z_of_byte.
  - intros (-> & Hn & ->). cbn [app].
    pose proof (ReadFull_app 2 [byte_of_Z PunchMagic; byte_of_Z (Z.of_nat (String.length token))]
                  (list_ascii_of_string token ++ rest) eq_refl) as E1. cbn [app] in E1. rewrite E1. clear E1.
    cbn [take drop]. rewrite !be_decode_1, !byte_small by (unfold PunchMagic; lia).
    rewrite decide_False by (intros H; by apply H). rewrite decide_False by lia. rewrite Nat2Z.id.
    rewrite ReadFull_app by apply length_list_ascii_of_string. rewrite string_of_list_ascii_of_string.
    by rewrite decide_False by (intros H; by apply H).
Qed.

Lemma tcpHandshake_ok token conn written rest :
  tcpHandshake true true token conn = (written, Ok rest) ↔
  written = tcp_auth token ++ [byte_of_Z PunchAckMagic] ∧ 1 <= String.length token <= 255 ∧
  conn = tcp_auth token ++ [byte_of_Z PunchAckMagic] ++ rest.
Proof.
  unfold tcpHandshake. cbn [negb]. split.
  - destruct (readPeerAuth token conn) as [[n|e] c1] eqn:E1; [|done]. apply readPeerAuth_spec in E1 as (-> & Hn & ->).
    destruct (ReadFull 1 c1) as [[r|e] c2] eqn:E2; [|done]. apply ReadFull_ok in E2 as [-> Hl].
    destruct r as [|b [|]]; try done. rewrite be_decode_1. case_decide as Hb; [done|].
    apply byte_eq in Hb as ->; [|done]. by intros [= <- <-].
  - intros (-> & Hn & ->). rewrite (proj2 (readPeerAuth_spec token _ (String.length token) ([byte_of_Z PunchAckMagic] ++ rest))) by done.
    by rewrite ReadFull_app by done.
Qed.

Lemma tcpHandshake_writes token conn : ∃ more, (tcpHandshake true true token conn).1 = tcp_auth token ++ more.
Proof.
  unfold tcpHandshake. cbn [negb]. destruct (readPeerAuth token conn) as [[n|e] c1]; cbn.
  - destruct (ReadFull 1 c1) as [[r|e] c2]; cbn; by eexists.
  - exists []. by rewrite app_nil_r.
Qed.

Lemma tcpHandshake_is_ok token conn :
  is_ok (tcpHandshake true true token conn).2 = true ↔
  1 <= String.length token <= 255 ∧ ∃ rest, conn = tcp_auth token ++ [byte_of_Z PunchAckMagic] ++ rest.
Proof.
  destruct (tcpHandshake true true token conn) as [w [rest|e]] eqn:E; cbn.
  - apply tcpHandshake_ok in E as (_ & Hl & ->). split; [|done]. intros _. split; [done|by eexists].
  - split; [done|]. intros (Hl & rest & Hc). rewrite (proj2 (tcpHandshake_ok token conn (tcp_auth token ++ [byte_of_Z PunchAckMagic]) rest)) in E; done.
Qed.

(** A side that has read the authentication has written its answer. *)
Lemma tcpHandshake_answers token more :
  1 <= String.length token <= 255 →
  (tcpHandshake true true token (tcp_auth token ++ more)).1 = tcp_auth token ++ [byte_of_Z PunchAckMagic].
Proof.
  intros Hl. unfold tcpHandshake. cbn [negb].
  rewrite (proj2 (readPeerAuth_spec token _ (String.length token) more)) by done.
  by destruct (ReadFull 1 more) as [[r|e] c2].
Qed.

(** Of two sides joined with each other, one that succeeds has the token of
    the other. *)
Lemma joined_same token token' written' written :
  fits_byte token' → written' = (tcpHandshake true true token' written).1 →
  is_ok (tcpHandshake true true token written').2 = true → token = token' ∧ 1 <= String.length token <= 255.
Proof.
  intros Hf Hw Hok. apply tcpHandshake_is_ok in Hok as (Hl & rest & Hc).
  destruct (tcpHandshake_writes token' written) as [more Hm]. rewrite <-Hw, Hc in Hm. split; [|done].
  eapply packet_inj; [unfold fits_byte; lia|done|exact Hm].
Qed.

Lemma joined_ok token written written' :
  1 <= String.length token <= 255 → written = (tcpHandshake true true token written').1 →
  written' = (tcpHandshake true true token written).1 → is_ok (tcpHandshake true true token written').2 = true.
Proof.
  intros Hl Hw Hw'. apply tcpHandshake_is_ok. split; [done|]. exists [].
  destruct (tcpHandshake_writes token written') as [more Hm]. rewrite <-Hw in Hm.
  rewrite Hw', Hm. by rewrite tcpHandshake_answers.
Qed.

(** ** Properties *)

(** Which datagrams make a side connected: those that begin, within the
    largest packet, with a punch or its answer for the token, and any bytes
    after it; to a punch it answers with exactly the answering packet.  So
    its own punch, sent back by anyone, is accepted, and by no token that is
    longer than 255 bytes is one ever accepted. *)
Theorem punch_accepts (token : string) (d : bytes) (answer : option bytes) :
  (receive_punch token d = Established answer ↔
     fits_byte token ∧ ∃ magic junk,
       take (Z.to_nat MaxPacketSize) d = punch_packet magic token ++ junk ∧
       (magic = PunchMagic ∧ answer = Some (punch_packet PunchAckMagic token) ∨ magic = PunchAckMagic ∧ answer = None)) ∧
  (receive_punch token (punch_packet PunchMagic token) = Established (Some (punch_packet PunchAckMagic token)) ↔
     String.length token <= 255).
Proof.
  split; [apply receive_punch_spec|]. rewrite receive_punch_spec. split; [by intros [Hf _]|].
  intros Hf. split; [done|]. exists PunchMagic, []. rewrite take_packet by done. split; [done|by left].
Qed.

(** Nobody else sending, a side that is connected has the token of the
    other side, when both are at most 255 bytes long, whatever the network
    loses, repeats or reorders. *)
Theorem punch_agreement (token : side → string) (p : Punch) (x : side) :
  rtc (punch_step token) new_punch p → p.(pn_phase) x = Connected → String.length (token (other x)) <= 255 →
  token x = token (other x).
Proof.
  intros Hrun Hx Hl.
  destruct (rtc_invariant (punch_step token) (λ p, from_peer token p ∧ agreed token p) new_punch p) as [_ Ha].
  - intros p1 p2 Hs Hstep. by apply (punch_step_ok token p1).
  - split; [|done]. intros y d Hd. by apply not_elem_of_nil in Hd.
  - exact Hrun.
  - by apply (Ha x).
Qed.

(** Both sides need not come to the same end: the one that is reached
    first answers once and sends no more, so when its answer and its earlier
    punches are lost the other can only give up, though the first has
    returned the connection to its caller. *)
Theorem punch_one_sided (token : side → string) :
  token Here = token There → String.length (token Here) <= 255 →
  ∃ p, rtc (punch_step token) new_punch p ∧ p.(pn_phase) Here = Connected ∧ p.(pn_phase) There = Punching ∧
    ∀ p', rtc (punch_step token) p p' → p'.(pn_phase) Here = Connected ∧ p'.(pn_phase) There ≠ Connected.
Proof.
  intros Heq Hl. set (d := punch_packet PunchMagic (token There)). set (p1 := send_to Here (Some d) new_punch).
  set (p2 := deliver (token Here) Here d p1). set (p3 := mkPunch p2.(pn_phase) (upd There [] p2.(pn_flight))).
  assert (Hd : receive_punch (token Here) d = Established (Some (punch_packet PunchAckMagic (token Here)))).
  { apply receive_punch_spec. split; [done|]. exists PunchMagic, []. split; [|by left]. subst d. rewrite Heq in *.
    by apply take_packet. }
  assert (Hp2 : p2 = set_phase Here Connected (send_to There (Some (punch_packet PunchAckMagic (token Here))) p1)).
  { subst p2. unfold deliver. cbn. by rewrite Hd. }
  exists p3. split_and!.
  - eapply rtc_l; [apply (PTick token new_punch There); done|]. eapply rtc_l; [apply (PDeliver token p1 Here d)|].
    { cbn. rewrite upd_eq. cbn. by left. }
    eapply rtc_once, (PLose token p2 There []). intros y Hy. by apply not_elem_of_nil in Hy.
  - subst p3. by rewrite Hp2.
  - subst p3. by rewrite Hp2.
  - intros p' Hrun. destruct (rtc_invariant (punch_step token) one_sided p3 p') as (H1 & H2 & _); [..|done].
    + intros q q' Hs Hstep. by apply (one_sided_step token q).
    + subst p3. rewrite Hp2. done.
    + exact Hrun.
Qed.

(** The TCP handshake: what a side accepts is exactly what a side with
    its token writes, the authentication and the answer, and the bytes after
    it are left for the connection; the token has 1 to 255 bytes.  So a peer
    that knows nothing and sends back what it receives is accepted.  Two
    sides joined with each other both succeed or both fail: they succeed when
    their tokens are equal and of such a length. *)
Theorem tcp_handshake_symmetric (token token' : string) (conn written written' rest : bytes) :
  (tcpHandshake true true token conn = (written, Ok rest) ↔
     written = tcp_auth token ++ [byte_of_Z PunchAckMagic] ∧ 1 <= String.length token <= 255 ∧ conn = written ++ rest) ∧
  (String.length token <= 255 → String.length token' <= 255 →
   written = (tcpHandshake true true token written').1 → written' = (tcpHandshake true true token' written).1 →
   (is_ok (tcpHandshake true true token written').2 = true ↔ token = token' ∧ 1 <= String.length token <= 255) ∧
   (is_ok (tcpHandshake true true token' written).2 = true ↔ token = token' ∧ 1 <= String.length token <= 255)).
Proof.
  split.
  - rewrite tcpHandshake_ok. split; intros (-> & Hl & ->); by rewrite <-?app_assoc.
  - intros Hf Hf' Hw Hw'. split; (split; [intros Hok|intros [<- Hl]]).
    + by eapply joined_same.
    + by eapply joined_ok.
    + destruct (joined_same token' token written written' Hf Hw Hok) as [<- Hl]. done.
    + by eapply joined_ok.
Qed.

(** ** Witnesses *)

Example reflected : receive_punch "tok" (punch_packet PunchMagic "tok") = Established (Some (punch_packet PunchAckMagic "tok")).
Proof. vm_compute. reflexivity. Qed.
Example empty_token : receive_punch "" (punch_packet PunchMagic "") = Established (Some (punch_packet PunchAckMagic "")) ∧
  is_ok (tcpHandshake true true "" (tcp_auth "" ++ [byte_of_Z PunchAckMagic])).2 = false.
Proof. vm_compute. done. Qed.

Definition shared (x : side) : string := "tok".
Definition met : Punch := deliver "tok" Here (punch_packet PunchMagic "tok") (send_to Here (Some (punch_packet PunchMagic "tok")) new_punch).

Lemma punch_agreement_witness :
  rtc (punch_step shared) new_punch met ∧ met.(pn_phase) Here = Connected ∧ shared Here = shared There.
Proof.
  assert (H : rtc (punch_step shared) new_punch met).
  { eapply rtc_l; [apply (PTick shared new_punch There); reflexivity|].
    apply rtc_once. apply (PDeliver shared _ Here (punch_packet PunchMagic "tok")). cbn. by left. }
  split; [exact H|]. split; [vm_compute; reflexivity|].
  apply (punch_agreement shared met Here H); [vm_compute; reflexivity|cbn; lia].
Defined.

Lemma punch_one_sided_witness :
  ∃ p, rtc (punch_step shared) new_punch p ∧ p.(pn_phase) Here = Connected ∧ p.(pn_phase) There = Punching ∧
    ∀ p', rtc (punch_step shared) p p' → p'.(pn_phase) Here = Connected ∧ p'.(pn_phase) There ≠ Connected.
Proof. apply (punch_one_sided shared); [reflexivity|cbn; lia]. Defined.

Lemma tcp_handshake_symmetric_witness :
  let written := tcp_auth "tok" ++ [byte_of_Z PunchAckMagic] in
  is_ok (tcpHandshake true true "tok" written).2 = true.
Proof.
  intros written. apply (tcp_handshake_symmetric "tok" "tok" [] written written []); [cbn; lia|cbn; lia|..]; [vm_compute; reflexivity..|].
  split; [reflexivity|cbn; lia].
Defined.
