(* ===== verification/Collector.v ===== *)
(** * The log collector of the client (BBgrid_Client/log_collector.go)

    Entries are collected in memory and written to a file at a time.  Any
    number of goroutines add entries and start flushes; a flush holds
    [flushMu] from taking the entries to the end of the write, and the steps
    are the critical sections of [logsMu] and the write.  Times are
    nanoseconds. *)

From S2P Require Import Prelude Disk Auth.

Record LogEntry := mkLogEntry {
  le_Timestamp : Z;
  le_Level : string;
  le_Message : string;
  le_Data : string;
}.

Section collector.
(** [json.Marshal] and [json.MarshalIndent] of the entries, and
    [Format("20060102_150405")], which knows seconds. *)
Context (marshal marshal_indent : list LogEntry → bytes) (format : Z → string).

Record LogCollector := mkLogCollector {
  lc_clientID : string;
  lc_batchSizeKB : Z;
  lc_batchInterval : Z;
  lc_logs : list LogEntry;
  lc_lastFlush : Z;
  (* the flush that holds [flushMu] after it has taken the entries: these and
     the old [lastFlush]; and the flushes that were started *)
  lc_flushing : option (list LogEntry * Z);
  lc_started : nat;
  lc_stopped : bool;
  (* the directory tmp/logs *)
  lc_files : directory;
  (* for the statements: every entry added, and every batch with its file and
     whether it was written *)
  lc_added : list LogEntry;
  lc_batches : list (string * list LogEntry * bool);
}.

Definition NewLogCollector (clientID : string) (batchSizeKB batchIntervalSec now : Z) : LogCollector :=
  mkLogCollector clientID batchSizeKB batchIntervalSec [] now None 0 false ∅ [] [].

Definition second : Z := 1000000000.

(** [Seconds()] is at least the interval when the nanoseconds are: both are
    exact in a float64 for intervals of less than a hundred days. *)
Definition shouldFlush (now : Z) (logs : list LogEntry) (c : LogCollector) : bool :=
  bool_decide (c.(lc_batchSizeKB) * 1024 <= Z.of_nat (length (marshal logs)))%Z ||
  bool_decide (c.(lc_batchInterval) * second <= now - c.(lc_lastFlush))%Z.

Definition append (e : LogEntry) (starts : bool) (c : LogCollector) : LogCollector :=
  mkLogCollector c.(lc_clientID) c.(lc_batchSizeKB) c.(lc_batchInterval) (c.(lc_logs) ++ [e]) c.(lc_lastFlush) c.(lc_flushing)
    (c.(lc_started) + if starts then 1 else 0) c.(lc_stopped) c.(lc_files) (c.(lc_added) ++ [e]) c.(lc_batches).

Definition AddLog (now : Z) (level message data : string) (c : LogCollector) : LogCollector :=
  let entry := mkLogEntry now level message data in
  append entry (shouldFlush now (c.(lc_logs) ++ [entry]) c) c.
Definition SendImmediate (now : Z) (level message data : string) (c : LogCollector) : LogCollector :=
  append (mkLogEntry now level message data) true c.

(** Also on every tick of [flushLoop], unless it has ended. *)
Definition start_flush (c : LogCollector) : LogCollector :=
  mkLogCollector c.(lc_clientID) c.(lc_batchSizeKB) c.(lc_batchInterval) c.(lc_logs) c.(lc_lastFlush) c.(lc_flushing)
    (S c.(lc_started)) c.(lc_stopped) c.(lc_files) c.(lc_added) c.(lc_batches).

(** [Stop], which flushes itself; a second call panics. *)
Definition Stop (c : LogCollector) : option LogCollector :=
  if c.(lc_stopped) then None
  else Some (mkLogCollector c.(lc_clientID) c.(lc_batchSizeKB) c.(lc_batchInterval) c.(lc_logs) c.(lc_lastFlush)
               c.(lc_flushing) (S c.(lc_started)) true c.(lc_files) c.(lc_added) c.(lc_batches)).

(** [flush] up to the unlock of [logsMu]. *)
Definition flush_take (now : Z) (c : LogCollector) : LogCollector :=
  match c.(lc_logs) with
  | [] =>
      mkLogCollector c.(lc_clientID) c.(lc_batchSizeKB) c.(lc_batchInterval) [] c.(lc_lastFlush) None
        (pred c.(lc_started)) c.(lc_stopped) c.(lc_files) c.(lc_added) c.(lc_batches)
  | logs =>
      mkLogCollector c.(lc_clientID) c.(lc_batchSizeKB) c.(lc_batchInterval) [] now (Some (logs, c.(lc_lastFlush)))
        (pred c.(lc_started)) c.(lc_stopped) c.(lc_files) c.(lc_added) c.(lc_batches)
  end.

Definition log_file (clientID : string) (t : Z) : string :=
  clientID +:+ "_" +:+ format (t `div` second)%Z +:+ ".log".

(** The rest: [mkdir] is whether the directory can be made. *)
Definition flush_write (mkdir : bool) (w : WriteFault) (c : LogCollector) : LogCollector :=
  match c.(lc_flushing) with
  | None => c
  | Some (logs, t) =>
      let name := log_file c.(lc_clientID) t in
      let '(r, files) := if mkdir then WriteFile name (marshal_indent logs) w c.(lc_files)
                         else (Err "mkdir", c.(lc_files)) in
      mkLogCollector c.(lc_clientID) c.(lc_batchSizeKB) c.(lc_batchInterval) c.(lc_logs) c.(lc_lastFlush) None
        c.(lc_started) c.(lc_stopped) files c.(lc_added) (c.(lc_batches) ++ [(name, logs, is_ok r)])
  end.

(** [NewTicker] panics for an interval that is not positive: there is no tick. *)
Inductive collector_step (c : LogCollector) : LogCollector → Prop :=
| CAdd now level message data : collector_step c (AddLog now level message data c)
| CSend now level message data : collector_step c (SendImmediate now level message data c)
| CTick : c.(lc_stopped) = false → (0 < c.(lc_batchInterval))%Z → collector_step c (start_flush c)
| CStop c' : Stop c = Some c' → collector_step c c'
| CTake now : 0 < c.(lc_started) → c.(lc_flushing) = None → (c.(lc_lastFlush) <= now)%Z → collector_step c (flush_take now c)
| CWrite mkdir w : is_Some c.(lc_flushing) → collector_step c (flush_write mkdir w c).

(** Runs in which a flush that takes entries comes at least a second after
    the flush before it. *)
Definition spaced_step (c c' : LogCollector) : Prop :=
  collector_step c c' ∧
  (c.(lc_flushing) = None → is_Some c'.(lc_flushing) → c.(lc_lastFlush) + second <= c'.(lc_lastFlush))%Z.

(** ** Lemmas *)

Definition pending (c : LogCollector) : list LogEntry := (from_option fst [] c.(lc_flushing)) ++ c.(lc_logs).
Definition batched (c : LogCollector) : list LogEntry := concat ((λ b, b.1.2) <$> c.(lc_batches)).

(** A batch that was written is in its file until another has that name. *)
Definition files_kept (c : LogCollector) : Prop :=
  ∀ pre name logs post, c.(lc_batches) = pre ++ (name, logs, true) :: post → name ∉ (λ b, b.1.1) <$> post →
    c.(lc_files) !! name = Some (marshal_indent logs).

Record collector_ok (c : LogCollector) : Prop := mkCollectorOk {
  k_added : c.(lc_added) = batched c ++ pending c;
  k_files : files_kept c;
}.

Lemma snoc_split {A} (l pre post : list A) (x y : A) :
  l ++ [x] = pre ++ y :: post → post = [] ∧ y = x ∧ pre = l ∨ ∃ post', post = post' ++ [x] ∧ l = pre ++ y :: post'.
Proof.
  intros H. destruct post as [|z post' _] using rev_ind.
  - left. apply app_inj_tail in H as [-> ->]. done.
  - right. exists post'. rewrite app_comm_cons, app_assoc in H. by apply app_inj_tail in H as [-> ->].
Qed.

Lemma WriteFile_spec name data w d r d' :
  WriteFile name data w d = (r, d') →
  (∀ name', name' ≠ name → d' !! name' = d !! name') ∧ (is_ok r = true → d' !! name = Some data).
Proof.
  destruct w; cbn; intros [= <- <-]; (split; [intros name' Hne|intros H; try done]); rewrite ?lookup_insert_ne by done; try done.
  apply lookup_insert_eq.
Qed.

Lemma flush_write_ok mkdir w c : collector_ok c → collector_ok (flush_write mkdir w c).
Proof.
  intros [Ha Hf]. unfold flush_write. destruct c.(lc_flushing) as [[logs t]|] eqn:E; [|done].
  set (name := log_file _ _). destruct (if mkdir then _ else _) as [r d'] eqn:Ew.
  assert (Hw : (∀ name', name' ≠ name → d' !! name' = c.(lc_files) !! name') ∧
               (is_ok r = true → d' !! name = Some (marshal_indent logs))).
  { destruct mkdir; [by eapply WriteFile_spec|]. by injection Ew as <- <-. }
  split.
  - unfold pending, batched in *. cbn. rewrite E in Ha. rewrite Ha, fmap_app, concat_app. cbn. by rewrite app_nil_r, <-app_assoc.
  - intros pre name' logs' post. cbn. intros Hb Hn. apply snoc_split in Hb as [(-> & Heq & ->)|(post' & -> & Hb)].
    + injection Heq as -> -> Hok. by apply Hw.
    + rewrite fmap_app, not_elem_of_app in Hn. destruct Hn as [Hn Hne]. cbn in Hne. rewrite list_elem_of_singleton in Hne.
      destruct Hw as [Hw _]. rewrite Hw by done. by eapply Hf.
Qed.

Lemma collector_step_ok c c' : collector_ok c → collector_step c c' → collector_ok c'.
Proof.
  assert (Happ : ∀ e b, collector_ok c → collector_ok (append e b c)).
  { intros e b [Ha Hf]. split; [|done]. unfold pending, batched in *. cbn. by rewrite Ha, !app_assoc. }
  intros Hok Hstep. destruct Hstep as [| | |c' Hs|now _ Hn _|]; [by apply Happ..| | | |by apply flush_write_ok].
  - by destruct Hok.
  - unfold Stop in Hs. destruct c.(lc_stopped); [done|]. injection Hs as <-. by destruct Hok.
  - destruct Hok as [Ha Hf]. unfold flush_take. destruct c.(lc_logs) as [|e logs] eqn:El.
    + split; [|done]. unfold pending, batched in *. cbn. rewrite Hn, El in Ha. by rewrite Ha.
    + split; [|done]. unfold pending, batched in *. cbn. rewrite Hn, El in Ha. by rewrite app_nil_r, Ha.
Qed.

(** *** Flushes a second apart *)

Definition later_by_second (a b : Z) : Prop := (a + second <= b)%Z.

(** [ts] are the values of [lastFlush] that the names of the batches have; the
    one that is being written comes after them, the present one last. *)
Definition batch_times (clientID : string) (c : LogCollector) : Prop :=
  c.(lc_clientID) = clientID ∧
  ∃ ts, (λ b, b.1.1) <$> c.(lc_batches) = log_file clientID <$> ts ∧
    StronglySorted later_by_second ((ts ++ (option_list (snd <$> c.(lc_flushing)))) ++ [c.(lc_lastFlush)]).

Lemma later_snoc l t t' :
  StronglySorted later_by_second (l ++ [t]) → later_by_second t t' → StronglySorted later_by_second ((l ++ [t]) ++ [t']).
Proof.
  intros Hs Ht. apply StronglySorted_snoc; [done|]. apply Forall_app. split; [|by apply Forall_singleton].
  induction l as [|y l IH]; [done|]. apply StronglySorted_inv in Hs as [Hs Hy]. constructor; [|by apply IH].
  apply Forall_app in Hy as [_ Hy]. rewrite Forall_singleton in Hy. unfold later_by_second, second in *. lia.
Qed.

Lemma batch_times_step clientID c c' : batch_times clientID c → spaced_step c c' → batch_times clientID c'.
Proof.
  intros (Hid & ts & Hts & Hs) [Hstep Hl]. destruct Hstep as [| | |c' Hst|now _ Hn _|mkdir w [[logs t] Hf]].
  - split; [done|by exists ts].
  - split; [done|by exists ts].
  - split; [done|by exists ts].
  - unfold Stop in Hst. destruct c.(lc_stopped); [done|]. injection Hst as <-. split; [done|by exists ts].
  - rewrite Hn in Hs. revert Hl. unfold flush_take. destruct c.(lc_logs) as [|e logs].
    + intros _. split; [done|]. by exists ts.
    + intros Hl. split; [done|]. exists ts. split; [done|]. cbn in *. rewrite app_nil_r in Hs.
      apply later_snoc; [done|]. apply Hl; [done|by eexists].
  - unfold flush_write. rewrite Hf. destruct (if mkdir then _ else _) as [r d]. split; [done|].
    exists (ts ++ [t]). cbn. rewrite !fmap_app, Hts, Hid. split; [done|]. rewrite Hf in Hs. by rewrite app_nil_r.
Qed.

(** ** Properties *)

(** No entry is dropped before it is written, and none is written twice:
    the entries added are, in their order, those of the batches so far, of
    the batch being written, and those still in memory, whichever goroutines
    flush.  A batch that was written is in its file until a later batch has
    the same name. *)
Theorem collector_conserves (clientID : string) (batchSizeKB batchIntervalSec now : Z) (c : LogCollector) :
  rtc collector_step (NewLogCollector clientID batchSizeKB batchIntervalSec now) c →
  c.(lc_added) = batched c ++ pending c ∧ files_kept c.
Proof.
  intros Hrun. destruct (rtc_invariant collector_step collector_ok (NewLogCollector clientID batchSizeKB batchIntervalSec now) c) as [H1 H2].
  - intros c1 c2. apply collector_step_ok.
  - split; [done|]. intros pre name logs post Hb. by destruct pre.
  - exact Hrun.
  - done.
Qed.

(** The name of a file has the second of the flush before it, so two
    flushes, one after the other, overwrite each other's file when the flush
    before them was in the same second as the first of them: here the first
    flush of the collector, in the second it was made, and the next one,
    whenever it comes.  Both are reported as saved. *)
Theorem flush_overwrites (clientID : string) (batchSizeKB batchIntervalSec t0 t1 t2 : Z) (m1 m2 : string) :
  (t0 <= t1)%Z → (t1 <= t2)%Z → (t0 `div` second = t1 `div` second)%Z →
  let name := log_file clientID t0 in
  let e1 := mkLogEntry t1 "ERROR" m1 "" in
  let e2 := mkLogEntry t2 "ERROR" m2 "" in
  ∃ c, rtc collector_step (NewLogCollector clientID batchSizeKB batchIntervalSec t0) c ∧
    c.(lc_batches) = [(name, [e1], true); (name, [e2], true)] ∧
    c.(lc_files) = {[name := marshal_indent [e2]]}.
Proof.
  intros H1 H2 Hs name e1 e2. set (c0 := NewLogCollector clientID batchSizeKB batchIntervalSec t0).
  set (c1 := SendImmediate t1 "ERROR" m1 "" c0). set (c2 := flush_take t1 c1). set (c3 := flush_write true WriteDone c2).
  set (c4 := SendImmediate t2 "ERROR" m2 "" c3). set (c5 := flush_take t2 c4). set (c6 := flush_write true WriteDone c5).
  assert (Hn : log_file clientID t1 = name) by (unfold name, log_file; by rewrite Hs).
  exists c6. split_and!.
  - apply (rtc_l _ _ c1); [by constructor|]. apply (rtc_l _ _ c2); [constructor; cbn; first [lia|done]|].
    apply (rtc_l _ _ c3); [constructor; cbn; by eexists|]. apply (rtc_l _ _ c4); [by constructor|].
    apply (rtc_l _ _ c5); [constructor; cbn; first [lia|done]|]. apply (rtc_l _ _ c6); [constructor; cbn; by eexists|]. done.
  - cbn. rewrite Hn. done.
  - cbn. rewrite Hn. fold name. by rewrite insert_insert_eq.
Qed.

Lemma list_ascii_of_string_app (a b : string) :
  list_ascii_of_string (a +:+ b) = list_ascii_of_string a ++ list_ascii_of_string b.
Proof. induction a as [|x a IH]; [done|]. rewrite string_app_cons. cbn. by rewrite IH. Qed.

Lemma string_app_inj_r (a b c : string) : a +:+ c = b +:+ c → a = b.
Proof.
  intros H. apply (f_equal list_ascii_of_string) in H. rewrite !list_ascii_of_string_app in H.
  apply (app_inv_tail _ _ _) in H. by rewrite <-(string_of_list_ascii_of_string a), H, string_of_list_ascii_of_string.
Qed.

Lemma log_file_inj clientID a b : log_file clientID a = log_file clientID b → format (a `div` second)%Z = format (b `div` second)%Z.
Proof.
  unfold log_file. intros H. apply (inj (String.append clientID)) in H. apply (inj (String.append "_")) in H.
  by apply string_app_inj_r in H.
Qed.

Lemma sorted_files clientID ts :
  (∀ a b, format a = format b → a = b) → StronglySorted later_by_second ts → NoDup (log_file clientID <$> ts).
Proof.
  intros Hinj Hs. induction Hs as [|t ts Hs IH Ht]; [constructor|]. cbn. constructor; [|done].
  intros (t' & Heq & Ht')%list_elem_of_fmap. apply log_file_inj, Hinj in Heq. rewrite Forall_forall in Ht.
  specialize (Ht _ Ht'). unfold later_by_second in Ht. assert (second > 0)%Z by done.
  pose proof (Z.div_le_mono (t + second) t' second ltac:(lia) Ht) as Hd. rewrite <-(Z.mul_1_l second) in Hd at 1.
  rewrite Z.div_add in Hd by done. lia.
Qed.

(** When flushes are at least a second apart, every batch that was
    written is in its own file to the end, whole, with whatever failed in
    between. *)
Theorem spaced_flushes_keep (clientID : string) (batchSizeKB batchIntervalSec now : Z) (c : LogCollector)
    (name : string) (logs : list LogEntry) :
  (∀ a b, format a = format b → a = b) →
  rtc spaced_step (NewLogCollector clientID batchSizeKB batchIntervalSec now) c →
  (name, logs, true) ∈ c.(lc_batches) → c.(lc_files) !! name = Some (marshal_indent logs).
Proof.
  intros Hinj Hrun Hin. set (c0 := NewLogCollector clientID batchSizeKB batchIntervalSec now) in *.
  destruct (rtc_invariant spaced_step (λ c, collector_ok c ∧ batch_times clientID c) c0 c) as [[_ Hf] (_ & ts & Hts & Hs)].
  - intros c1 c2 [H1 H2] Hstep. split; [|by eapply batch_times_step]. destruct Hstep as [Hstep _]. by eapply collector_step_ok.
  - split; [split; [done|]|split; [done|exists []; split; [done|by repeat constructor]]].
    intros pre n l post Hb. by destruct pre.
  - exact Hrun.
  - apply list_elem_of_split in Hin as (pre & post & Hb). apply (Hf pre _ _ post Hb). intros Hn.
    rewrite <-(assoc_L (++)) in Hs. apply StronglySorted_app in Hs as (_ & Hs & _).
    pose proof (sorted_files clientID ts Hinj Hs) as Hnd. rewrite <-Hts, Hb, fmap_app in Hnd. cbn in Hnd.
    apply NoDup_app in Hnd as (_ & _ & Hnd). by apply NoDup_cons in Hnd as [? _].
Qed.
End collector.

(** ** Witnesses *)

(** The entries by their messages; a second by its decimal number. *)
Definition plain (l : list LogEntry) : bytes := list_ascii_of_string (String.concat "," (le_Message <$> l)).
Definition one_entry : LogCollector := SendImmediate 0 "INFO" "start" "" (NewLogCollector "dev" 1 60 0).
Definition saved : LogCollector := flush_write plain pretty true WriteDone (flush_take (2 * second) one_entry).

Lemma saved_run : rtc (spaced_step plain plain pretty) (NewLogCollector "dev" 1 60 0) saved.
Proof.
  eapply rtc_l; [split; [apply (CSend plain plain pretty _ 0 "INFO" "start" "")|intros _ [x [=]]]|].
  eapply rtc_l; [split; [apply (CTake plain plain pretty _ (2 * second)); [cbn; lia|reflexivity|cbn; unfold second; lia]|cbn; unfold second; lia]|].
  apply rtc_once. split; [apply (CWrite plain plain pretty _ true WriteDone); cbn; by eexists|intros [=]].
Qed.

Lemma collector_conserves_witness :
  rtc (collector_step plain plain pretty) (NewLogCollector "dev" 1 60 0) saved ∧ saved.(lc_added) = batched saved ++ pending saved.
Proof.
  assert (H : rtc (collector_step plain plain pretty) (NewLogCollector "dev" 1 60 0) saved).
  { refine (rtc_subrel _ _ _ _ _ saved_run). intros x y [Hs _]. exact Hs. }
  split; [exact H|]. exact (proj1 (collector_conserves plain plain pretty "dev" 1 60 0 saved H)).
Defined.

Lemma flush_overwrites_witness :
  ∃ c, rtc (collector_step plain plain pretty) (NewLogCollector "dev" 1 60 5) c ∧
    c.(lc_files) = {["dev_0.log" := list_ascii_of_string "second"]}.
Proof.
  destruct (flush_overwrites plain plain pretty "dev" 1 60 5 7 9 "first" "second") as (c & H1 & _ & H3);
    [lia|lia|reflexivity|]. exists c. split; [exact H1|exact H3].
Defined.

Lemma spaced_flushes_keep_witness : saved.(lc_files) !! "dev_0.log" = Some (list_ascii_of_string "start").
Proof.
  apply (spaced_flushes_keep plain plain pretty "dev" 1 60 0 saved "dev_0.log" [mkLogEntry 0 "INFO" "start" ""]).
  - intros a b H. by apply (inj pretty) in H.
  - exact saved_run.
  - vm_compute. left.
Defined.
