(* ===== verification/Joining.v ===== *)
(** * The client's end of a registration (BBgrid_Client/client.go, temp_client.go)

    What a client sends first on its WebSocket and what it makes of the
    answer: [registerRaw] of a permanent client, [connect] of a temporary one
    with its message loop and [Run].  The server is that of [Session]; what
    it queued comes out of the WebSocket as JSON. *)

From S2P Require Import Prelude Types Proto StateStore EventBus Reconcile Disk ProxyPlugin Message Wire Auth Session Registration Client.

(** ** The messages *)

Definition register_fields (clientID token : string) : gmap string any :=
  <["client_id" := AString clientID]> $ <["token" := AString token]> ∅.
Definition register_message (clientID token : string) : WSMessage :=
  mkWSMessage "register" (DMap (register_fields clientID token)).
Definition temp_register_message (clientID token : string) : WSMessage :=
  mkWSMessage "temp_register" (DMap (register_fields clientID token)).

(** [ReadJSON] of a message of the server: its type and its data. *)
Definition received (m : WSMessage) : string * any := (m.(ws_Type), wire_data (λ _, "") m.(ws_Data)).

Definition read_RegisteredData (m : gmap string any) : Res RegisteredData :=
  c ← read_string m "client_id"; host ← read_string m "server_host"; Ok (mkRegisteredData c host).

Section client.
Context (parse_json : string → Res any).

(** ** A permanent client *)

(** [written] is whether the request could be written, [resp] what is read. *)
Definition registerRaw (written : bool) (resp : Res (string * any)) : Res RegisteredData :=
  if negb written then Err "write register"
  else match resp with
  | Err _ => Err "read register response"
  | Ok (msgType, data) =>
      if decide (msgType ≠ "registered") then Err ("registration failed: " +:+ msgType)
      else match data with
      | AMap m => Ok (mkRegisteredData (field_string m "client_id") (field_string m "server_host"))
      | AString s =>
          match v ← parse_json s; read_any read_RegisteredData v with
          | Ok d => Ok d
          | Err _ => Err "unmarshal registered data"
          end
      | _ => Ok (mkRegisteredData "" "")
      end
  end.

(** ** A temporary client *)

(** One round: what [url.Parse] of the address gives, the dial, the write,
    and the messages until [ReadJSON] fails. *)
Record temp_env := mkTempEnv {
  tv_url : Res (string * string);
  tv_dial : bool;
  tv_write : bool;
  tv_messages : list (string * any);
}.

Definition temp_origin (scheme hostname : string) : string :=
  if decide (scheme = "ws") then "http://" +:+ hostname else "https://" +:+ hostname.

(** The message loop; [t] numbers the goroutines of the handler. *)
Definition temp_loop (t : nat) (messages : list (string * any)) (h : TempHandler) : TempHandler :=
  (foldl (λ th msg, (S th.1, temp_Handle parse_json th.1 msg.1 msg.2 th.2)) (t, h) messages).2.

(** What is sent when it registers, its result, and the handler, which is
    kept from one connection to the next. *)
Definition connect (clientID token : string) (env : temp_env) (t : nat) (h : TempHandler) :
    list WSMessage * Res unit * TempHandler :=
  match env.(tv_url) with
  | Err e => ([], Err ("invalid url: " +:+ e), h)
  | Ok _ =>
      if negb env.(tv_dial) then ([], Err "dial failed", h)
      else if negb env.(tv_write) then ([], Err "register failed", h)
      else
        let sent := [temp_register_message clientID token] in
        match env.(tv_messages) with
        | [] => (sent, Err "read register response", h)
        | (msgType, data) :: rest =>
            if decide (msgType ≠ "temp_registered") then (sent, Err ("unexpected response: " +:+ msgType), h)
            else match read_any read_RegisteredData data with
            | Err _ => (sent, Err "unmarshal register response", h)
            | Ok _ => (sent, Err "read error", temp_loop t rest h)
            end
        end
  end.

(** [Run]: a round for every connection until it is stopped. *)
Fixpoint Run (clientID token : string) (t : nat) (rounds : list temp_env) (h : TempHandler) :
    list (list WSMessage * Res unit) * TempHandler :=
  match rounds with
  | [] => ([], h)
  | env :: rounds =>
      let '(sent, r, h1) := connect clientID token env t h in
      let '(rs, h2) := Run clientID token (t + length env.(tv_messages)) rounds h1 in
      ((sent, r) :: rs, h2)
  end.
End client.

(** ** The server, with what else it sends *)

(** The types of the messages to a client: those of the sessions, and those
    that the tunnel loops and the relay plugin send to it. *)
Definition session_types : list string := ["registered"; "error"; "proxy"; "proxy_closed"; "relay_signal"].
Definition other_types : list string := ["tunnel_request"; "relay_signal"; "relay_closed"].

Section server.
Context `{!JsonCodec (gmap string ClientRecord)} `{!JsonCodec (gmap string Voucher)}.
Context (ClientToken : string) (tunnelPort : Z) (refuse : string → bool) (parse_time : string → option Z).

Inductive link_step (s : SessState) : SessState → Prop :=
| LSession s' : sess_step ClientToken tunnelPort refuse parse_time s s' → link_step s s'
| LSend c msg : msg.(ws_Type) ∈ other_types → link_step s (SendToClient c msg s).2.

(** ** What is queued for a session *)

Definition known (m : WSMessage) : Prop := m.(ws_Type) ∈ session_types ++ other_types.
Definition queued_known (s : SessState) : Prop := ∀ sid se, s.(ss_table) !! sid = Some se → Forall known se.(se_send).

Lemma known_types (t : string) d : t ∈ session_types ++ other_types → known (mkWSMessage t d).
Proof. done. Qed.
Ltac known_type := apply known_types; set_solver.

Lemma known_write msg se : known msg → Forall known se.(se_send) → Forall known (WriteJSON msg se).2.(se_send).
Proof.
  intros Hm Hs. unfold WriteJSON. case_decide; [|done]. cbn. apply Forall_app. split; [done|by apply Forall_singleton].
Qed.

Lemma joining_queued_same s s' : s'.(ss_table) = s.(ss_table) → queued_known s → queued_known s'.
Proof. intros E H. unfold queued_known. by rewrite E. Qed.

Lemma queued_upd sid f s :
  (∀ se, Forall known se.(se_send) → Forall known (f se).(se_send)) → queued_known s → queued_known (upd_session sid f s).
Proof.
  intros Hf H sid' se. cbn. intros [[<- (se' & Hl & ->)]|[_ Hl]]%lookup_alter_Some; [|by eapply H]. apply Hf. by eapply H.
Qed.

Lemma queued_send c msg s : known msg → queued_known s → queued_known (SendToClient c msg s).2.
Proof.
  intros Hm H. unfold SendToClient. destruct (_ !! c) as [sid|]; [|done].
  destruct (s.(ss_table) !! sid) as [se|] eqn:E; [|done]. destruct (WriteJSON msg se) as [r se'] eqn:EW.
  intros sid' se1. cbn. intros [[<- <-]|[_ Hl]]%lookup_insert_Some; [|by eapply H].
  assert (se' = (WriteJSON msg se).2) as -> by (by rewrite EW). apply known_write; [done|by eapply H].
Qed.

Lemma queued_publish e s : queued_known s → queued_known (Publish e s).
Proof. destruct (Publish_same e s) as (_ & _ & _ & E & _). by apply joining_queued_same. Qed.
Lemma queued_start c port s : queued_known s → queued_known (startTunnelLoop c port s).
Proof. destruct (startTunnelLoop_same c port s) as (_ & _ & _ & E). by apply joining_queued_same. Qed.

Lemma queued_foldl {A} (f : SessState → A → SessState) l s :
  (∀ s x, queued_known s → queued_known (f s x)) → queued_known s → queued_known (foldl f s l).
Proof. intros Hf. revert s. induction l as [|x l IH]; intros s H; [done|]. cbn. by apply IH, Hf. Qed.

Lemma queued_error sid code m s : queued_known s → queued_known (upd_session sid (sendError code m) s).
Proof. apply queued_upd. intros se. apply known_write. known_type. Qed.

Lemma queued_accept env sid c host ns token temp s :
  queued_known s → queued_known (accept_registration env sid c host ns token temp s).
Proof.
  intros H. unfold accept_registration. destruct (s.(ss_table) !! sid) as [se|] eqn:E; [|done]. apply queued_upd.
  - intros se' Hs. cbn. apply known_write; [known_type|done].
  - set (s1 := set_table _ s). match goal with |- context [Publish ?e s1] => apply (joining_queued_same (Publish e s1)); [done|] end. apply queued_publish.
    intros sid' se'. subst s1. cbn. intros [[<- <-]|[_ Hl]]%lookup_insert_Some; [|by eapply H]. cbn. by eapply H.
Qed.

Lemma queued_close env sid s : queued_known s → queued_known (Close env sid s).
Proof.
  intros H. unfold Close. destruct (_ !! sid) as [se|]; [|done]. case_match; [done|].
  case_decide; [|apply queued_publish]; by apply queued_upd.
Qed.

Lemma queued_message env sid msg s : queued_known s → queued_known (handleMessage ClientToken parse_time env sid msg s).
Proof.
  intros H. unfold handleMessage. repeat case_decide; [| | |done].
  - unfold handleRegister. destruct (data_map _), (s.(ss_table) !! sid) as [se|]; try done.
    case_decide; [by apply queued_error|]. destruct (negb _); [by apply queued_error|].
    destruct (_ && _); [by apply queued_error|by apply queued_accept].
  - unfold handleTempRegister. destruct (data_map _), (s.(ss_table) !! sid) as [se|]; try done.
    case_decide; [by apply queued_error|]. destruct (negb _); [by apply queued_error|by apply queued_accept].
  - unfold handlePong. destruct (data_map _ ≫= _), (s.(ss_table) !! sid) as [se|]; try done. by apply queued_publish, queued_upd.
Qed.

Lemma queued_track env sid timeout s : queued_known s → queued_known (track_start tunnelPort env sid timeout s).
Proof.
  intros H. unfold track_start. destruct (_ !! sid) as [se|]; [|done].
  case_match; [by apply (queued_close env sid)|]. case_decide; [by apply (joining_queued_same s)|].
  apply (joining_queued_same (syncClientRelays se.(se_clientID) (syncClientProxies tunnelPort se.(se_clientID)
    (set_sessions <[se.(se_clientID) := sid]> s)))); [done|].
  apply queued_foldl; [|apply queued_foldl; [|done]].
  - intros s' r H'. unfold sync_relay. case_decide; [done|]. case_match. apply queued_send; [known_type|done].
  - intros s' p H'. unfold sync_proxy. case_decide; [|done]. apply queued_start, queued_send; [known_type|done].
Qed.

Lemma queued_proxy_event restoring e s : queued_known s → queued_known (Session.handleProxyEvent tunnelPort restoring e s).
Proof.
  intros H. unfold Session.handleProxyEvent. repeat case_decide; [| |done].
  - unfold handleProxyAdded. destruct (added_proxy e) as [p|]; [|done]. case_decide; [done|]. apply queued_start.
    destruct restoring; [done|]. apply queued_send; [known_type|done].
  - unfold handleProxyDeleted. destruct (parseProxyResourceKey _) as [[c p]|]; [|done]. apply queued_send; [known_type|done].
Qed.

Lemma queued_step s s' : queued_known s → link_step s s' → queued_known s'.
Proof.
  intros H [s1 [sid addr c isTemp _ _ _|env sid se msg _ _|env sid se _ _|sid se _ _|env sid se timeout _ _ _|
    sid se _ _ _|sid se c _ _ _|now e q _|restoring e|key ln _ _]|c msg Hm].
  - intros sid' se. cbn. intros [[<- <-]|[_ Hl]]%lookup_insert_Some; [done|by eapply H].
  - by apply queued_message.
  - by apply queued_close, queued_upd.
  - apply queued_upd; [|done]. intros se'. cbn. by destruct 1.
  - by apply queued_track.
  - done.
  - unfold track_end. by case_decide.
  - by apply (joining_queued_same s).
  - unfold deliver_proxy. apply queued_proxy_event. by apply (joining_queued_same s).
  - by apply (joining_queued_same s).
  - apply queued_send; [|done]. unfold known. apply elem_of_app. by right.
Qed.

(** What a WebSocket of the server can deliver: a ping of its writing
    goroutine, or what was in the queue of a session. *)
Definition from_server (publicIP : string) (a : Manager * directory) (m : string * any) : Prop :=
  m.1 = "ping" ∨
  ∃ s sid se w, rtc link_step (sess_start publicIP a) s ∧ s.(ss_table) !! sid = Some se ∧ w ∈ se.(se_send) ∧ m = received w.

Lemma from_server_type publicIP a m : from_server publicIP a m → m.1 ≠ "temp_registered".
Proof.
  intros [->|(s & sid & se & w & Hrun & Hl & Hw & ->)]; [done|].
  assert (Hq : queued_known s).
  { apply (rtc_invariant link_step queued_known (sess_start publicIP a) s); [|done|exact Hrun].
    intros s1 s2. apply queued_step. }
  specialize (Hq sid se Hl). rewrite Forall_forall in Hq. specialize (Hq w Hw). unfold known in Hq. cbn. intros E.
  rewrite E in Hq. revert Hq. apply (bool_decide_unpack (_ ∉ _)). vm_compute. done.
Qed.

Lemma registered_message (clientID token : string) :
  field_string (register_fields clientID token) "token" = token ∧
  field_string (register_fields clientID token) "client_id" = clientID.
Proof.
  unfold register_fields, field_string. rewrite lookup_insert_eq, lookup_insert_ne, lookup_insert_eq by done. done.
Qed.

Lemma received_registered c host :
  received (mkWSMessage "registered" (DRegistered (mkRegisteredData c host))) =
    ("registered", AMap (<["client_id" := AString c]> {["server_host" := AString host]})).
Proof. done. Qed.

(** ** Properties *)

Context (parse_json : string → Res any).

(** C36. A temporary client never gets to its messages.  The server answers its
    registration with "registered", as it answers a permanent one, and the
    client waits for "temp_registered", which the server never sends: so
    whatever the server delivers on any number of connections, the handler
    of the client is never called, while the server, given the right token,
    has filed the connection as that of the client and answered. *)
Theorem temp_client_never_joins (publicIP clientID token : string) (a : Manager * directory) (t : nat)
    (rounds : list temp_env) (h : TempHandler) (env : step_env) (sid : nat) (se : Session) (s : SessState)
    (url : string * string) :
  (Forall (λ r, Forall (from_server publicIP a) r.(tv_messages)) rounds →
   let '(rs, h') := Run parse_json clientID token t rounds h in
   h' = h ∧ Forall (λ r, r.2 ≠ Err "read error") rs) ∧
  (s.(ss_table) !! sid = Some se → se.(se_send) = [] → clientID ≠ "" → ClientToken ≠ "" →
   let s' := handleMessage ClientToken parse_time env sid (temp_register_message clientID ClientToken) s in
   conn_of s'.(ss_store) clientID = Some sid ∧
   ∃ se' answer, s'.(ss_table) !! sid = Some se' ∧ se'.(se_send) = [answer] ∧
     connect parse_json clientID ClientToken (mkTempEnv (Ok url) true true [received answer]) t h =
       ([temp_register_message clientID ClientToken], Err "unexpected response: registered", h)).
Proof.
  split.
  - intros Hr. revert t h. induction Hr as [|r rounds Hm _ IH]; intros t h; [done|]. cbn [Run].
    assert (Hc : ∃ sent e, connect parse_json clientID token r t h = (sent, Err e, h) ∧ e ≠ "read error").
    { unfold connect. destruct r.(tv_url) as [u|e]; [|by eexists _, _].
      destruct r.(tv_dial); [|by eexists _, _]. destruct r.(tv_write); [|by eexists _, _]. cbn [negb].
      destruct r.(tv_messages) as [|[ty d] rest]; [by eexists _, _|]. apply Forall_cons in Hm as [Hm _].
      apply from_server_type in Hm. cbn in Hm. rewrite decide_True by done. by eexists _, _. }
    destruct Hc as (sent & e & -> & He). specialize (IH (t + length r.(tv_messages)) h).
    destruct (Run _ _ _ _ rounds h) as [rs h2]. destruct IH as [-> IH]. split; [done|]. constructor; [|done].
    cbn. by intros [= ->].
  - intros Hl Hs Hc Ht. pose proof (registration_outcome ClientToken parse_time env sid se (register_fields clientID ClientToken)
      true s Hl ltac:(rewrite Hs; cbn; unfold send_cap; lia)) as Ho. cbv zeta in Ho. cbn [negb] in Ho.
    destruct (registered_message clientID ClientToken) as [E1 E2]. rewrite E1, E2 in Ho. unfold reg_error in Ho.
    rewrite !decide_False in Ho by naive_solver.
    destruct Ho as [(se' & Hl' & _ & _ & Hq) _ Hconn _]. cbv zeta. split.
    + unfold temp_register_message. rewrite Hconn. by rewrite decide_True.
    + eexists se', _. split; [exact Hl'|]. rewrite Hq, Hs. split; [done|]. rewrite received_registered. done.
Qed.

(** C18. A permanent client and the server come to the same end: on a new
    session, the first message that comes back makes [registerRaw] succeed
    exactly when the server has registered the client, with the id the client
    asked for and the address of the server, and the server then counts the
    session as its connection; when it refuses, the client fails, and no
    connection of the store has changed. *)
Theorem registration_joined (env : step_env) (sid : nat) (se : Session) (s : SessState) (clientID token : string) :
  s.(ss_table) !! sid = Some se → se.(se_send) = [] →
  let s' := handleMessage ClientToken parse_time env sid (register_message clientID token) s in
  ∃ se' answer, s'.(ss_table) !! sid = Some se' ∧ se'.(se_send) = [answer] ∧
    match reg_error ClientToken false se token clientID with
    | None => registerRaw parse_json true (Ok (received answer)) = Ok (mkRegisteredData clientID s.(ss_store).(publicIP)) ∧
              conn_of s'.(ss_store) clientID = Some sid
    | Some _ => is_ok (registerRaw parse_json true (Ok (received answer))) = false ∧ s'.(ss_store) = s.(ss_store)
    end.
Proof.
  intros Hl Hs s'. pose proof (registration_outcome ClientToken parse_time env sid se (register_fields clientID token)
      false s Hl ltac:(rewrite Hs; cbn; unfold send_cap; lia)) as Ho. cbv zeta in Ho.
  destruct (registered_message clientID token) as [E1 E2]. rewrite E1, E2 in Ho. fold (register_message clientID token) in Ho.
  fold s' in Ho. destruct (reg_error ClientToken false se token clientID) as [code|].
  - destruct Ho as [m ->]. eexists _, _. cbn [ss_table set_table]. rewrite lookup_alter_eq, Hl. cbn [fmap option_fmap option_map].
    split; [done|]. rewrite Hs. split; [done|]. split; [|done]. done.
  - destruct Ho as [(se' & Hl' & _ & _ & Hq) _ Hconn _]. eexists se', _. split; [exact Hl'|]. rewrite Hq, Hs.
    split; [done|]. split; [|by rewrite Hconn, decide_True]. unfold registerRaw. rewrite received_registered. cbn [negb].
    rewrite decide_False by (intros H; by apply H). unfold field_string.
    by rewrite lookup_insert_eq, lookup_insert_ne, lookup_singleton_eq by done.
Qed.
End server.

(** ** Witnesses *)

#[local] Existing Instances Auth.ClientRecord_countable Auth.Voucher_countable toy_codec.

Definition no_json (s : string) : Res any := Err "json".
Definition temp_session : SessState := connected "10.0.0.9:7" "" true 0 (sess_start "1.2.3.4" example_auth).
Definition temp_round : temp_env := mkTempEnv (Ok ("wss", "1.2.3.4")) true true [("ping", ANil)].

Lemma temp_client_never_joins_witness :
  (Run no_json "cam" "t" 0 [temp_round] NewTempHandler).2 = NewTempHandler ∧
  conn_of (handleMessage "t" (λ _, None) example_env 0 (temp_register_message "cam" "t") temp_session).(ss_store) "cam" = Some 0.
Proof.
  destruct (temp_client_never_joins "t" 7001 (λ _, false) (λ _, None) no_json "1.2.3.4" "cam" "t" example_auth 0 [temp_round]
              NewTempHandler example_env 0 (NewSession "10.0.0.9:7" "" true) temp_session ("wss", "1.2.3.4")) as [H1 H2].
  split.
  - destruct (Run no_json "cam" "t" 0 [temp_round] NewTempHandler) as [rs h'] eqn:E. apply H1.
    constructor; [|constructor]. constructor; [left; reflexivity|constructor].
  - apply H2; [apply lookup_insert_eq|reflexivity|discriminate|discriminate].
Defined.

Lemma registration_joined_witness :
  ∃ se' answer,
    (handleMessage "t" (λ _, None) example_env 0 (register_message "dev" "t") dev_session).(ss_table) !! 0 = Some se' ∧
    se'.(se_send) = [answer] ∧
    registerRaw no_json true (Ok (received answer)) = Ok (mkRegisteredData "dev" "1.2.3.4").
Proof.
  destruct (registration_joined "t" (λ _, None) no_json example_env 0 (NewSession "10.0.0.1:5" "dev" false) dev_session
              "dev" "t" (lookup_insert_eq _ _ _) eq_refl) as (se' & answer & H1 & H2 & H3).
  exists se', answer. split; [exact H1|]. split; [exact H2|]. exact (proj1 H3).
Defined.
