(* ===== verification/PersistLoop.v ===== *)
(** * The states of the plugins over time (plugins/persist/persist.go, plugins/tag/tag.go)

    The loop of the persistence plugin with the one plugin that registers a
    state, the tags: what reaches [persist.json], what a restart finds in it,
    and how the start of the plugins and the end of the process interleave
    with that.  [sys_step] has the loop, the handlers of the bus, the actions
    on tags, the registration, and the end of the process as its steps. *)

From S2P Require Import Prelude Types Disk Auth Core Tag Persist.

(** ** The text of the tags *)

Definition tag_states (t : TagPlugin) : gmap string any := {["tag" := json_tags (Export t)]}.

(** Maps of strings are encoded and come back as they are; a text that is cut
    short is not one. *)
Class TagText (codec : JsonCodec (gmap string any)) := {
  tag_text t : ∃ data, marshalIndent (tag_states t) = Some data ∧ data ≠ [];
  tag_view t : json_view (tag_states t) = tag_states t;
  tag_prefix t data n : marshalIndent (tag_states t) = Some data → n < length data → unmarshal (take n data) = None;
}.

(** ** The system *)

(** Where [Run] is: before [restoreAll], in its [select], in the second it
    waits after a notification, or returned. *)
Inductive loop_phase := Starting | Idle | Delayed | Ended.
#[export] Instance loop_phase_eq_dec : EqDecision loop_phase.
Proof. solve_decision. Defined.

Record PersistSys := mkPersistSys {
  py_tags : TagPlugin;
  (* the tag plugin is in the registry of providers *)
  py_registered : bool;
  py_phase : loop_phase;
  (* the channel of one *)
  py_dirty : bool;
  py_stopped : bool;
  py_file : option bytes;
  (* for the statements: an event has come since the tags last changed *)
  py_told : bool;
}.

(** The process starts with what the file holds. *)
Definition boot (file : option bytes) : PersistSys := mkPersistSys New false Starting false false file true.

Definition with_tags (t : TagPlugin) (told : bool) (s : PersistSys) : PersistSys :=
  mkPersistSys t s.(py_registered) s.(py_phase) s.(py_dirty) s.(py_stopped) s.(py_file) told.
Definition with_phase (p : loop_phase) (s : PersistSys) : PersistSys :=
  mkPersistSys s.(py_tags) s.(py_registered) p s.(py_dirty) s.(py_stopped) s.(py_file) s.(py_told).
Definition with_dirty (d told : bool) (s : PersistSys) : PersistSys :=
  mkPersistSys s.(py_tags) s.(py_registered) s.(py_phase) d s.(py_stopped) s.(py_file) told.
Definition with_file (f : option bytes) (s : PersistSys) : PersistSys :=
  mkPersistSys s.(py_tags) s.(py_registered) s.(py_phase) s.(py_dirty) s.(py_stopped) f s.(py_told).

(** [persist.Register], in [Init] of the tag plugin. *)
Definition Register (s : PersistSys) : PersistSys :=
  mkPersistSys s.(py_tags) true s.(py_phase) s.(py_dirty) s.(py_stopped) s.(py_file) s.(py_told).
Definition Stop (s : PersistSys) : PersistSys :=
  mkPersistSys s.(py_tags) s.(py_registered) s.(py_phase) s.(py_dirty) true s.(py_file) s.(py_told).

(** A handler of the bus has run. *)
Definition NotifyDirty (s : PersistSys) : PersistSys := with_dirty true true s.

Section loop.
Context `{codec : !JsonCodec (gmap string any)}.

Definition providers (s : PersistSys) : gmap string TagPlugin :=
  if s.(py_registered) then {["tag" := s.(py_tags)]} else ∅.

Definition restore (s : PersistSys) : PersistSys :=
  match restoreAll Import s.(py_file) (providers s) !! "tag" with
  | Some t => with_phase Idle (with_tags t s.(py_told) s)
  | None => with_phase Idle s
  end.

(** [flushAll] with a write that may fail ([flush_done]: without a fault it is
    that of Persist). *)
Definition flush (w : WriteFault) (s : PersistSys) : PersistSys :=
  match marshalIndent (((λ t, json_tags (Export t)) <$> providers s) ∪ loadFromDisk s.(py_file)) with
  | None => s
  | Some data =>
      with_file (match w with
                 | WriteDone => Some data
                 | WriteNotOpen => s.(py_file)
                 | WriteCut n => Some (take n data)
                 end) s
  end.

(** A flush is under way or about to be. *)
Definition may_flush (s : PersistSys) : bool :=
  match s.(py_phase) with
  | Idle => s.(py_dirty) || s.(py_stopped)
  | Delayed => true
  | Starting | Ended => false
  end.

(** What the loop does itself. *)
Inductive loop_step (faults : bool) (s : PersistSys) : PersistSys → Prop :=
| LRestore : s.(py_phase) = Starting → loop_step faults s (restore s)
| LDirty : s.(py_phase) = Idle → s.(py_dirty) = true → loop_step faults s (with_phase Delayed (with_dirty false s.(py_told) s))
| LTimer w : s.(py_phase) = Delayed → (faults = false → w = WriteDone) →
    loop_step faults s (with_phase Idle (flush w s))
| LTick w : s.(py_phase) = Idle → s.(py_dirty) = true → (faults = false → w = WriteDone) →
    loop_step faults s (flush w (with_dirty false s.(py_told) s))
| LStopped w : s.(py_phase) = Idle ∨ s.(py_phase) = Delayed → s.(py_stopped) = true → (faults = false → w = WriteDone) →
    loop_step faults s (with_phase Ended (flush w s)).

(** The others; the process may end at any moment, in a write too: [main]
    does not wait for the plugins it has stopped. *)
Inductive sys_step (faults : bool) (s : PersistSys) : PersistSys → Prop :=
| PLoop s' : loop_step faults s s' → sys_step faults s s'
| PRegister : sys_step faults s (Register s)
| PAction ctx : s.(py_registered) = true → sys_step faults s (with_tags (Tag.handleAction ctx s.(py_tags)).2 false s)
| PEvent : sys_step faults s (NotifyDirty s)
| PStop : sys_step faults s (Stop s)
| PExit : faults = true → sys_step faults s (boot s.(py_file))
| PExitWriting n : faults = true → may_flush s = true → sys_step faults s (boot (flush (WriteCut n) s).(py_file)).

(** ** Lemmas *)

Lemma flush_done s :
  flush WriteDone s = with_file (flushAll (λ t, json_tags (Export t)) (providers s) s.(py_file)) s.
Proof. unfold flush, flushAll, saveToDisk. destruct (marshalIndent _); [done|]. by destruct s. Qed.

Context `{!TagText codec}.

Lemma tag_file_view t data : marshalIndent (tag_states t) = Some data → loadFromDisk (Some data) = tag_states t.
Proof. intros H. cbn. by rewrite (unmarshal_indent _ _ H), tag_view. Qed.

(** The file holds these tags; or no tags and nothing else. *)
Definition holds (f : option bytes) (t : TagPlugin) : Prop := loadFromDisk f = tag_states t.
Definition plain_file (f : option bytes) : Prop := loadFromDisk f = ∅ ∨ ∃ t, holds f t.

Lemma states_registered s :
  s.(py_registered) = true → plain_file s.(py_file) →
  ((λ t, json_tags (Export t)) <$> providers s) ∪ loadFromDisk s.(py_file) = tag_states s.(py_tags).
Proof.
  intros Hr Hf. unfold providers. rewrite Hr, map_fmap_singleton. fold (tag_states s.(py_tags)).
  destruct Hf as [-> | [t ->]]; [by rewrite (right_id_L ∅ (∪))|]. apply map_eq. intros k. rewrite lookup_union. unfold tag_states.
  destruct (decide (k = "tag")) as [->|Hne].
  - by rewrite !lookup_singleton_eq.
  - by rewrite !lookup_singleton_ne.
Qed.

(** A flush without a fault, once the tags are registered, saves them. *)
Lemma flush_saves s :
  s.(py_registered) = true → plain_file s.(py_file) →
  ∃ data, flush WriteDone s = with_file (Some data) s ∧ holds (Some data) s.(py_tags).
Proof.
  intros Hr Hf. unfold flush. rewrite states_registered by done. destruct (tag_text s.(py_tags)) as (data & Hd & _).
  rewrite Hd. exists data. split; [done|]. by apply tag_file_view.
Qed.

Lemma holds_inj f t t' : holds f t → holds f t' → t = t'.
Proof.
  unfold holds, tag_states. intros -> H. apply (f_equal (lookup "tag")) in H. rewrite !lookup_singleton_eq in H.
  injection H as H. rewrite <-(Import_json_Export t New), <-(Import_json_Export t' New).
  unfold json_tags. by rewrite H.
Qed.

(** What a start makes of the file. *)
Lemma restore_holds f t :
  holds f t → restore (Register (boot f)) = mkPersistSys t true Idle false false f true.
Proof.
  unfold holds, restore, restoreAll. intros H. cbn [py_file Register boot with_phase with_tags providers py_registered py_tags].
  rewrite map_lookup_imap, lookup_singleton_eq. cbn [mbind option_bind]. rewrite H. unfold tag_states. rewrite lookup_singleton_eq.
  by rewrite Import_json_Export.
Qed.
Lemma restore_none f : loadFromDisk f = ∅ → restore (Register (boot f)) = mkPersistSys New true Idle false false f true.
Proof.
  unfold restore, restoreAll. intros H. cbn [py_file Register boot with_phase with_tags providers py_registered py_tags].
  rewrite map_lookup_imap, lookup_singleton_eq. cbn [mbind option_bind]. by rewrite H, lookup_empty.
Qed.

Definition saved (s : PersistSys) : Prop :=
  holds s.(py_file) s.(py_tags) ∨ loadFromDisk s.(py_file) = ∅ ∧ s.(py_tags) = New.

Record saving (s : PersistSys) : Prop := mkSaving {
  v_registered : s.(py_registered) = true;
  v_file : plain_file s.(py_file);
  v_started : s.(py_phase) ≠ Starting;
  v_saved : s.(py_told) = true → s.(py_dirty) = true ∨ s.(py_phase) = Delayed ∨ s.(py_phase) = Ended ∨ saved s;
}.

Lemma saving_start f : plain_file f → saving (restore (Register (boot f))).
Proof.
  intros Hf. pose proof Hf as [H|[t H]]; [rewrite restore_none by done|rewrite (restore_holds f t) by done];
    (split; [done|exact Hf|done|]); intros _; right; right; right; [by right|by left].
Qed.

Lemma saving_flush p d s : saving s → p ≠ Starting →
  saving (with_phase p (flush WriteDone (with_dirty d s.(py_told) s))) ∧
  holds (flush WriteDone (with_dirty d s.(py_told) s)).(py_file) s.(py_tags).
Proof.
  intros [Hr Hf _ _] Hp. destruct (flush_saves (with_dirty d s.(py_told) s) Hr Hf) as (data & -> & Hh).
  split; [|exact Hh]. split; [done|right; by eexists|done|]. intros _. right. right. right. by left.
Qed.

Lemma with_dirty_same s : with_dirty s.(py_dirty) s.(py_told) s = s.
Proof. by destruct s. Qed.
Lemma with_phase_same s : with_phase s.(py_phase) s = s.
Proof. by destruct s. Qed.
Lemma flush_phase w s : (flush w s).(py_phase) = s.(py_phase).
Proof. unfold flush. by destruct (marshalIndent _). Qed.

Lemma saving_step s s' : saving s → sys_step false s s' → saving s'.
Proof.
  intros Hs [s1 [Hp|Hp Hd|w Hp Hw|w Hp Hd Hw|w Hp Hst Hw]| |ctx _| | |Hf|n Hf _]; try done.
  - by destruct Hs.
  - destruct Hs as [Hr Hf _ _]. split; [done..|]. intros _. right. by left.
  - rewrite Hw by done. destruct (saving_flush Idle s.(py_dirty) s Hs) as [H _]; [done|]. by rewrite with_dirty_same in H.
  - rewrite Hw by done. destruct (saving_flush s.(py_phase) false s Hs) as [H _]; [by rewrite Hp|].
    rewrite <-(with_phase_same (flush _ _)), flush_phase. exact H.
  - rewrite Hw by done. destruct (saving_flush Ended s.(py_dirty) s Hs) as [H _]; [done|]. by rewrite with_dirty_same in H.
  - by destruct Hs.
  - by destruct Hs.
  - destruct Hs as [Hr Hf Hp _]. split; [done..|]. intros _. by left.
  - by destruct Hs.
Qed.

(** Actions on tags, with no event among them. *)
Inductive quiet_step (faults : bool) (s : PersistSys) : PersistSys → Prop :=
| QLoop s' : loop_step faults s s' → quiet_step faults s s'
| QAction ctx : s.(py_registered) = true → quiet_step faults s (with_tags (Tag.handleAction ctx s.(py_tags)).2 false s).

Definition resting (f : option bytes) (s : PersistSys) : Prop :=
  s.(py_phase) = Idle ∧ s.(py_dirty) = false ∧ s.(py_stopped) = false ∧ s.(py_file) = f.

Lemma resting_step faults f s s' : resting f s → quiet_step faults s s' → resting f s'.
Proof.
  intros (H1 & H2 & H3 & H4) [s1 [Hp|Hp Hd|w Hp Hw|w Hp Hd Hw|w Hp Hst Hw]|ctx _]; try congruence. done.
Qed.

(** ** Properties *)


(** C37. Three ways to lose tags.  Actions on tags publish no event, so after
    any number of them, each reported as done, the loop does nothing, and the
    next start has the tags of the file.  [main] starts the loop before it
    makes the tag plugin: when the file is read before the plugin is
    registered, the next flush erases every tag from the file.  And [main]
    does not wait for the last flush: when the process ends in it, the next
    start may find no tag at all. *)
Theorem tags_lost (f : option bytes) (t : TagPlugin) :
  holds f t →
  (∀ s, rtc (quiet_step true) (restore (Register (boot f))) s → (restore (Register (boot s.(py_file)))).(py_tags) = t) ∧
  (∃ s, rtc (sys_step false) (boot f) s ∧ holds s.(py_file) New) ∧
  (∃ s, rtc (sys_step true) (Stop (restore (Register (boot f)))) s ∧ s.(py_phase) = Idle ∧ s.(py_tags) = New).
Proof.
  intros Hf. split_and!.
  - intros s Hrun. destruct (rtc_invariant (quiet_step true) (resting f) (restore (Register (boot f))) s) as (_ & _ & _ & ->).
    + intros s1 s2. apply resting_step.
    + by rewrite (restore_holds f t).
    + exact Hrun.
    + by rewrite (restore_holds f t).
  - set (s1 := restore (boot f)). assert (H1 : s1 = mkPersistSys New false Idle false false f true).
    { unfold s1, restore, restoreAll. cbn [py_file boot providers py_registered]. by rewrite map_lookup_imap, lookup_empty. }
    set (s2 := NotifyDirty (Register s1)). set (s3 := flush WriteDone (with_dirty false true s2)).
    destruct (flush_saves (with_dirty false true s2)) as (data & Hfl & Hh).
    { done. }
    { right. exists t. unfold s2. by rewrite H1. }
    exists s3. split; [|unfold s3; rewrite Hfl; unfold s2 in Hh; by rewrite H1 in Hh].
    apply (rtc_l _ _ s1); [by apply PLoop, LRestore|]. apply (rtc_l _ _ (Register s1)); [apply PRegister|].
    apply (rtc_l _ _ s2); [apply PEvent|]. apply rtc_once, PLoop. apply (LTick false s2 WriteDone); [unfold s2; by rewrite H1|done|done].
  - rewrite (restore_holds f t) by done. set (s0 := Stop _). set (s1 := boot (flush (WriteCut 0) s0).(py_file)).
    assert (H1 : loadFromDisk (flush (WriteCut 0) s0).(py_file) = ∅).
    { unfold flush. rewrite (states_registered s0); [|done|right; by exists t].
      destruct (tag_text s0.(py_tags)) as (data & Hd & Hne). rewrite Hd. cbn -[take].
      rewrite (tag_prefix _ data 0 Hd); [done|]. destruct data; [done|cbn; lia]. }
    exists (restore (Register s1)). split.
    + apply (rtc_l _ _ s1); [by apply (PExitWriting true s0 0)|]. apply (rtc_l _ _ (Register s1)); [apply PRegister|].
      by apply rtc_once, PLoop, LRestore.
    + unfold s1. by rewrite restore_none.
Qed.
End loop.

(** ** Witnesses *)

(** A codec for maps with the tags only. *)
Definition strings_of (v : any) : option (gmap string string) :=
  match v with
  | AMap m =>
      if decide (map_Forall (λ _ x, is_Some (as_string (Some x))) m) then Some (omap (λ x, as_string (Some x)) m) else None
  | _ => None
  end.
Definition tags_of (m : gmap string any) : option (gmap string (gmap string string)) :=
  match m !! "tag" with
  | Some (AMap raw) =>
      if decide (size m = 1 ∧ map_Forall (λ _ v, is_Some (strings_of v)) raw) then Some (omap strings_of raw) else None
  | _ => None
  end.

Lemma strings_of_json m : strings_of (AMap (AString <$> m)) = Some m.
Proof.
  unfold strings_of. rewrite decide_True.
  - f_equal. apply map_eq. intros k. rewrite lookup_omap, lookup_fmap. by destruct (m !! k).
  - intros k x. rewrite lookup_fmap. destruct (m !! k); cbn; [|done]. intros [= <-]. by eexists.
Qed.
Lemma strings_of_Some v m : strings_of v = Some m → v = AMap (AString <$> m).
Proof.
  destruct v as [| | | | | |tm| | | |]; try done. cbn. case_decide as Hall; [|done]. intros [= <-]. f_equal.
  apply map_eq. intros k. rewrite lookup_fmap, lookup_omap. destruct (tm !! k) as [x|] eqn:E; [|done].
  specialize (Hall _ _ E). cbn. by destruct x, Hall.
Qed.

Lemma tags_of_states p : tags_of (tag_states p) = Some p.(tp_tags).
Proof.
  unfold tags_of, tag_states. rewrite lookup_singleton_eq. unfold json_tags, Export. rewrite decide_True.
  - f_equal. apply map_eq. intros k. rewrite lookup_omap, lookup_fmap. destruct (p.(tp_tags) !! k) as [m|]; [|done].
    cbn [fmap option_fmap option_map mbind option_bind]. apply strings_of_json.
  - split; [apply map_size_singleton|]. intros k v. rewrite lookup_fmap. destruct (p.(tp_tags) !! k) as [m|]; cbn; [|done].
    intros [= <-]. eexists. apply strings_of_json.
Qed.
Lemma size_one (m : gmap string any) k v : m !! k = Some v → size m = 1 → m = {[k := v]}.
Proof.
  intros Hk Hs. rewrite <-(insert_delete_id m k v) by done.
  assert (delete k m = ∅) as ->; [|done]. apply map_size_empty_iff. rewrite map_size_delete, Hk. lia.
Qed.
Lemma tags_of_Some m t : tags_of m = Some t → m = tag_states (mkTagPlugin t).
Proof.
  unfold tags_of. destruct (m !! "tag") as [[| | | | | |raw| | | |]|] eqn:E; try done.
  case_decide as H; [|done]. destruct H as [Hs Hall]. intros [= <-].
  apply size_one in E as ->; [|done].
  unfold tag_states, json_tags, Export. cbn. do 2 f_equal. apply map_eq. intros k. rewrite lookup_fmap, lookup_omap.
  destruct (raw !! k) as [v|] eqn:Ev; [|done]. destruct (Hall _ _ Ev) as [m Hm]. cbn. rewrite Hm. cbn.
  by rewrite (strings_of_Some _ _ Hm).
Qed.

Definition tag_to_text (m : gmap string any) : option bytes := (λ t, pos_bits (encode t)) <$> tags_of m.
Definition text_to_tag (b : bytes) : option (gmap string any) :=
  match bits_pos b with
  | Some p => (λ t, tag_states (mkTagPlugin t)) <$> decode p
  | None => None
  end.
Lemma tag_text_back m b : tag_to_text m = Some b → text_to_tag b = Some m.
Proof.
  unfold tag_to_text. destruct (tags_of m) as [t|] eqn:E; [|done]. intros [= <-]. unfold text_to_tag.
  rewrite bits_pos_bits, decode_encode. cbn. by rewrite (tags_of_Some _ _ E).
Qed.
Lemma tag_to_text_Some m b : tag_to_text m = Some b → ∃ p, b = pos_bits p.
Proof. unfold tag_to_text. destruct (tags_of m); [|done]. intros [= <-]. by eexists. Qed.

Program Definition tag_codec : JsonCodec (gmap string any) := {|
  json_view m := m;
  marshal := tag_to_text;
  marshalIndent := tag_to_text;
  unmarshal := text_to_tag;
|}.
Next Obligation. intros v b. apply tag_text_back. Qed.
Next Obligation. intros v b. apply tag_text_back. Qed.
Next Obligation. intros v b (p & ->)%tag_to_text_Some. apply pos_bits_line. Qed.
Next Obligation. intros v b n (p & ->)%tag_to_text_Some Hn. unfold text_to_tag. by rewrite pos_bits_prefix. Qed.

#[local] Existing Instance tag_codec.
#[local] Instance tag_codec_text : TagText tag_codec.
Proof.
  split.
  - intros t. exists (pos_bits (encode t.(tp_tags))). split; [|apply pos_bits_line]. cbn. unfold tag_to_text.
    by rewrite tags_of_states.
  - done.
  - intros t data n (p & ->)%tag_to_text_Some Hn. cbn. unfold text_to_tag. by rewrite pos_bits_prefix.
Qed.

Definition tagged : TagPlugin := SetTag "dev" "role" "edge" New.
Definition tagged_file : option bytes := tag_to_text (tag_states tagged).

Lemma tagged_holds : holds tagged_file tagged.
Proof.
  unfold tagged_file. destruct (tag_text tagged) as (data & Hd & _). cbn in Hd. rewrite Hd. exact (tag_file_view _ _ Hd).
Qed.


Lemma tags_lost_witness :
  ∃ s, rtc (sys_step false) (boot tagged_file) s ∧ holds s.(py_file) New.
Proof. exact (proj1 (proj2 (tags_lost tagged_file tagged tagged_holds))). Defined.
