(* ===== verification/Sdk.v ===== *)
(** * A plugin made with the SDK (common/sdk/plugin.go, common/plugin/grpc_server.go)

    How a plugin declares its actions and handlers, what it tells the server
    when it connects, and what becomes of the events on both ways; the calls
    of its actions and the streams are in PluginServer.  A handler is a
    number, for the goroutine it is run in. *)

From S2P Require Import Prelude Proto Types Subscribers PluginServer Vpn.

Record ActionDef := mkActionDef { ad_Name : string; ad_Description : string; ad_Handler : ActionHandler }.

Record Plugin := mkPlugin {
  pn_id : string;
  pn_version : string;
  pn_handlers : gmap string (list nat);
  pn_actions : gmap string ActionDef;
  pn_capabilities : list (string * list string);
  (* the handlers started, with their events *)
  pn_started : list (nat * Event);
}.

Definition NewPlugin (id version : string) : Plugin := mkPlugin id version ∅ ∅ [] [].

Definition HandleAction (name description : string) (handler : ActionHandler) (p : Plugin) : Plugin :=
  mkPlugin p.(pn_id) p.(pn_version) p.(pn_handlers) (<[name := mkActionDef name description handler]> p.(pn_actions))
    p.(pn_capabilities) p.(pn_started).
Definition On (resourceType : string) (handler : nat) (p : Plugin) : Plugin :=
  mkPlugin p.(pn_id) p.(pn_version)
    (<[resourceType := default [] (p.(pn_handlers) !! resourceType) ++ [handler]]> p.(pn_handlers))
    p.(pn_actions) p.(pn_capabilities) p.(pn_started).
Definition AddCapability (resourceType : string) (eventTypes : list string) (p : Plugin) : Plugin :=
  mkPlugin p.(pn_id) p.(pn_version) p.(pn_handlers) p.(pn_actions) (p.(pn_capabilities) ++ [(resourceType, eventTypes)])
    p.(pn_started).

(** The declarations, in an order the map does not promise. *)
Definition declarations (p : Plugin) : list (string * string) :=
  (λ na, (na.2.(ad_Name), na.2.(ad_Description))) <$> map_to_list p.(pn_actions).
Definition resource_types (p : Plugin) : list string := (map_to_list p.(pn_handlers)).*1.

(** The call gives no error when the server refuses, and the SDK does not
    look at its answer; [st] is the state the server makes. *)
Definition register (st : nat) (p : Plugin) (s : PluginGRPCServer) : PluginGRPCServer :=
  (Register p.(pn_id) p.(pn_version) (declarations p) st s).2.
(** The list of types goes along with the subscription; the server does not
    read it.  [n] is the stream at the server. *)
Definition subscribe (n : nat) (p : Plugin) (s : PluginGRPCServer) : PluginGRPCServer := Subscribe p.(pn_id) n s.

(** [Run] up to its loops, when the server is reached. *)
Definition connect (st n : nat) (p : Plugin) (s : PluginGRPCServer) : PluginGRPCServer :=
  subscribe n p (register st p s).

Section events.
Context (marshal_json : json → bytes) (unmarshal_json : bytes → option json).

(** [Publish] of the SDK, on the server. *)
Definition plugin_event (e : Event) : PluginEvent :=
  mkPluginEvent "" 0 0 (Some e.(ev_Resource)) e.(ev_EventType) (marshal_json (JObject e.(ev_Payload))).
Definition PublishEvent (p : Plugin) (e : Event) (s : PluginGRPCServer) : PluginGRPCServer :=
  Publish unmarshal_json p.(pn_id) [plugin_event e] s.

(** [dispatchEvent]: a goroutine for every handler. *)
Definition dispatchEvent (e : Event) (p : Plugin) : Plugin :=
  let handlers := default [] (p.(pn_handlers) !! e.(ev_Resource).(rk_Type)) in
  let allHandlers := default [] (p.(pn_handlers) !! "*") in
  mkPlugin p.(pn_id) p.(pn_version) p.(pn_handlers) p.(pn_actions) p.(pn_capabilities)
    (p.(pn_started) ++ ((λ h, (h, e)) <$> handlers ++ allHandlers)).

(** The events of one batch, as [receiveLoop] handles them. *)
Definition receive_events (b : EventBatch) (p : Plugin) : Plugin :=
  foldl (λ p e, dispatchEvent (pbToEvent unmarshal_json e) p) p b.(eb_Events).
End events.

(** ** What a plugin declares *)

Inductive declare :=
| DAction (name description : string) (handler : ActionHandler)
| DOn (resourceType : string) (handler : nat)
| DCapability (resourceType : string) (eventTypes : list string).
Definition run_declare (p : Plugin) (d : declare) : Plugin :=
  match d with
  | DAction n t h => HandleAction n t h p
  | DOn r h => On r h p
  | DCapability r l => AddCapability r l p
  end.

(** Its last declaration of an action. *)
Fixpoint last_action (name : string) (ds : list declare) : option (string * ActionHandler) :=
  match ds with
  | [] => None
  | DAction n t h :: ds =>
      match last_action name ds with Some x => Some x | None => if decide (n = name) then Some (t, h) else None end
  | _ :: ds => last_action name ds
  end.
Definition handlers_of (resourceType : string) (ds : list declare) : list nat :=
  omap (λ d, match d with DOn r h => if decide (r = resourceType) then Some h else None | _ => None end) ds.

Lemma declared_actions ds p name :
  (foldl run_declare p ds).(pn_actions) !! name =
    match last_action name ds with
    | Some (t, h) => Some (mkActionDef name t h)
    | None => p.(pn_actions) !! name
    end.
Proof.
  revert p. induction ds as [|d ds IH]; intros p; [done|]. cbn [foldl]. rewrite IH. destruct d as [n t h|r h|r l]; cbn; [|done..].
  destruct (last_action name ds) as [[t' h']|]; [done|]. case_decide as Hn.
  - subst n. by rewrite lookup_insert_eq.
  - by rewrite lookup_insert_ne.
Qed.

Lemma declared_handlers ds p r :
  default [] ((foldl run_declare p ds).(pn_handlers) !! r) = default [] (p.(pn_handlers) !! r) ++ handlers_of r ds.
Proof.
  revert p. induction ds as [|d ds IH]; intros p; [by rewrite app_nil_r|]. cbn [foldl]. rewrite IH.
  destruct d as [n t h|r' h|r' l]; cbn; [done| |done]. case_decide as Hr.
  - subst r'. rewrite lookup_insert_eq. cbn. by rewrite <-app_assoc.
  - by rewrite lookup_insert_ne.
Qed.

Lemma declared_id ds p : (foldl run_declare p ds).(pn_id) = p.(pn_id).
Proof. revert p. induction ds as [|[] ds IH]; intros p; [done|..]; cbn; by rewrite IH. Qed.

Lemma declared_started ds p : (foldl run_declare p ds).(pn_started) = p.(pn_started).
Proof. revert p. induction ds as [|[] ds IH]; intros p; [done|..]; cbn; by rewrite IH. Qed.

Definition named (p : Plugin) : Prop := ∀ k d, p.(pn_actions) !! k = Some d → d.(ad_Name) = k.
Lemma declared_named ds id version : named (foldl run_declare (NewPlugin id version) ds).
Proof.
  intros k d. rewrite declared_actions. destruct (last_action k ds) as [[t h]|]; [|done]. by intros [= <-].
Qed.

Lemma elem_of_declarations p name t :
  named p → (name, t) ∈ declarations p ↔ ∃ d, p.(pn_actions) !! name = Some d ∧ d.(ad_Description) = t.
Proof.
  intros Hn. unfold declarations. rewrite list_elem_of_fmap. split.
  - intros ([k d] & [= -> ->] & Hin). apply elem_of_map_to_list in Hin. exists d. rewrite (Hn _ _ Hin). by split.
  - intros (d & Hd & <-). exists (name, d). split; [cbn; by rewrite (Hn _ _ Hd)|]. by apply elem_of_map_to_list.
Qed.

(** ** Properties *)

(** A plugin that connects under a name: the server knows exactly the
    actions it has declared, each with its last description, and its stream,
    so a call of any of them gets past the look-up, and the request runs the
    handler declared last.  Without a name the server refuses, the plugin
    goes on all the same, and every call of its actions is answered with
    "plugin not registered" under the name its stream has. *)
Theorem plugin_connects (ds : list declare) (id version : string) (st n : nat) (s : PluginGRPCServer) (i : nat)
    (marshal_json : json → bytes) (action : string) (params : json) :
  let p := foldl run_declare (NewPlugin id version) ds in
  let s' := connect st n p s in
  let call := Execute_lookup marshal_json i (plugin_id id) action params s' in
  if decide (id = "") then
    s'.(pg_plugins) = s.(pg_plugins) ∧
    (s.(pg_plugins) !! "anonymous" = None →
     ca_phase <$> call.(pg_calls) !! i = Some (Done (Err "plugin not registered: anonymous")))
  else
    (∃ ps, s'.(pg_plugins) !! id = Some st ∧ s'.(pg_states) !! st = Some ps ∧
       ∀ name t, (name, t) ∈ ps.(pl_Actions) ↔ ∃ h, last_action name ds = Some (t, h)) ∧
    ca_phase <$> call.(pg_calls) !! i = Some (Looked n st) ∧
    (∀ name t h unmarshal_json args, last_action name ds = Some (t, h) →
       run_request marshal_json unmarshal_json (ad_Handler <$> p.(pn_actions)) (mkExecuteRequest name args) =
         match h (match unmarshal_json args with Some (JObject m) => m | _ => ∅ end) with
         | Ok result => Some (mkPluginEvent "" 0 0 (Some (mkResourceKey "action_result" "" name)) "RESULT" (marshal_json result))
         | Err _ => None
         end).
Proof.
  intros p s' call.
  assert (Hid : p.(pn_id) = id) by apply declared_id.
  assert (Hsub : s'.(pg_subs).(subscribers) !! plugin_id id = Some n).
  { unfold s', connect, subscribe, Subscribe, with_subs. cbn. rewrite Hid. cbn. apply lookup_insert_eq. }
  assert (Hpl : s'.(pg_plugins) = (Register p.(pn_id) p.(pn_version) (declarations p) st s).2.(pg_plugins)) by done.
  assert (Hst : s'.(pg_states) = (Register p.(pn_id) p.(pn_version) (declarations p) st s).2.(pg_states)) by done.
  rewrite Hid in Hpl, Hst. unfold Register in Hpl, Hst. unfold call, Execute_lookup, with_calls. cbn [pg_calls].
  rewrite lookup_insert_eq. cbn [fmap option_fmap option_map ca_phase]. rewrite Hsub. case_decide as He.
  - split; [by rewrite Hpl|]. intros Hn. rewrite Hpl, He. change (plugin_id "") with "anonymous". cbn [snd]. by rewrite Hn.
  - cbn [snd pg_plugins pg_states] in Hpl, Hst. rewrite Hpl, Hst. unfold plugin_id. rewrite decide_False by done. split_and!.
    + eexists. rewrite !lookup_insert_eq. split_and!; [done..|]. intros name t. cbn [pl_Actions].
      rewrite elem_of_declarations by apply declared_named. unfold p. rewrite declared_actions. cbn [pn_actions NewPlugin]. rewrite lookup_empty. split.
      * intros (d & Hd & Ht). destruct (last_action name ds) as [[t' h]|]; [|done]. injection Hd as <-. cbn in Ht. subst t'. by eexists.
      * intros [h ->]. by eexists.
    + by rewrite lookup_insert_eq.
    + intros name t h uj args Hl. unfold run_request. cbn [xr_Action xr_Params]. rewrite lookup_fmap. unfold p.
      rewrite declared_actions, Hl. done.
Qed.

(** An event of the server starts exactly the handlers declared for its
    type and then those declared for all types, each once for every time it
    was declared; handlers of other types are not started. *)
Theorem event_starts_handlers (ds : list declare) (id version : string) (b : EventBatch)
    (unmarshal_json : bytes → option json) :
  let p := foldl run_declare (NewPlugin id version) ds in
  (receive_events unmarshal_json b p).(pn_started) =
    b.(eb_Events) ≫= λ pe, let e := pbToEvent unmarshal_json pe in
      (λ h, (h, e)) <$> handlers_of e.(ev_Resource).(rk_Type) ds ++ handlers_of "*" ds.
Proof.
  intros p. unfold receive_events.
  assert (H : ∀ evs q, q.(pn_handlers) = p.(pn_handlers) →
    (foldl (λ q e, dispatchEvent (pbToEvent unmarshal_json e) q) q evs).(pn_started) = q.(pn_started) ++
    (evs ≫= λ pe, let e := pbToEvent unmarshal_json pe in
       (λ h, (h, e)) <$> handlers_of e.(ev_Resource).(rk_Type) ds ++ handlers_of "*" ds)).
  { induction evs as [|e evs IH]; intros q Hq; [by rewrite app_nil_r|]. cbn [foldl]. rewrite IH by done. cbn [dispatchEvent pn_started].
    rewrite Hq. unfold p. rewrite !declared_handlers. cbn [NewPlugin pn_handlers]. rewrite !lookup_empty. cbn [default app].
    rewrite <-app_assoc. done. }
  rewrite H by done. unfold p. by rewrite declared_started.
Qed.

(** An event that a plugin publishes goes nowhere: unless it passes for
    the result of an action, the server is left as it was, whatever the
    event, so no other plugin and no part of the server ever sees it. *)
Theorem published_event_lost (p : Plugin) (e : Event) (s : PluginGRPCServer)
    (marshal_json : json → bytes) (unmarshal_json : bytes → option json) :
  e.(ev_Resource).(rk_Type) ≠ "action_result" → PublishEvent marshal_json unmarshal_json p e s = s.
Proof. intros H. unfold PublishEvent, Publish. cbn. by rewrite decide_False. Qed.
Lemma published_event_lost_witness :
  PublishEvent (λ _, []) (λ _, None) (NewPlugin "vpn" "1") (mkSdkEvent (mkResourceKey "peer" "" "a") "CREATED" ∅)
    NewPluginGRPCServer = NewPluginGRPCServer.
Proof. apply published_event_lost. discriminate. Defined.
